(* ===== verification/_CoqProject ===== *)
-Q . S2P
Prelude.v
DbTypes.v
Dialect.v
Lexis.v
MysqlRoutine.v
TSqlFlow.v
PlSql.v
PlSqlFacts.v
Splitter.v
Scanner.v
ScannerFacts.v
Ranges.v
ImportBatch.v
ImportFacts.v
BinaryDump.v
BinaryDumpFacts.v
BatchSplit.v
BatchSplitFacts.v
SplitterFacts.v
RangesFacts.v
CursorFacts.v
SplitterLoops.v
SplitterTheorems.v
StateStore.v
StateMachineFacts.v
TwoPhaseCommit.v
TwoPhaseFacts.v
TwoPhaseTheorems.v
SchemaCache.v
SchemaCacheFacts.v
SchemaCacheTheorems.v
SqlStrip.v
WriteClass.v
WriteClassFacts.v
CypherFacts.v
WriteUnlock.v
ReadOnlyGate.v
BatchProgress.v
CsvExport.v
CsvImport.v
CsvTheorems.v
RunningQueries.v
RunningFacts.v
SchemaTypes.v
Kahn.v
SchemaGraph.v
SchemaGraphTheorems.v
DiffOrder.v
SchemaNames.v
ViewDdl.v
ColumnCompare.v
ColumnCompareFacts.v
ObjectCompare.v
ForeignKeyCompare.v
ObjectCompareFacts.v
SchemaCompare.v
Rollback.v
TableRenames.v
SchemaShard.v
DdlProfile.v
Identifiers.v
DdlNames.v
DdlNamesFacts.v
DdlMoveFacts.v
PgCasts.v
CastStripFacts.v
DefaultLiteral.v
SyncStatements.v
SyncStatementsFacts.v
GridTypes.v
GridLiterals.v
GridPredicates.v
GridLiteralFacts.v
GridBatch.v
GridEngines.v
GridSave.v
GridCopy.v
GridSaveFacts.v
TableSelect.v
LargeValues.v
