(* ===== verification/Prelude.v ===== *)
(** * DBX: scripts, grid edits, schema comparison, transactions, cache and write protection, verified

    DBX is a database client written in Rust.  This development covers the parts of
    its core that decide what is sent to a database and what is kept between
    calls.  Positions such as [sql.rs] are files under [src/crates]: [sql.rs],
    [query_execution_sql.rs], [value_literals.rs], [sqlserver_temporal.rs] and
    [cypher_read_only.rs] of [dbx-sql-core], [schema_diff.rs] and [table_structure_sql]
    of [dbx-sql-schema], [data_grid_sql.rs] and its siblings of [dbx-sql-data],
    [sql_dialect] and [postgres_index_key.rs] of [dbx-sql-dialect], the others of
    [dbx-core].

    ** Parts and files

    - Database types and dialects: [DbTypes] (the enumeration that [build.rs] of
      [dbx-types] generates), [Dialect] ([SqlDialectProfile], [SqlParsingOptions]).
    - Lexical helpers of [sql.rs]: [Lexis] (comments, quotes, dollar tags,
      DELIMITER and psql commands); block recognition in [MysqlRoutine],
      [TSqlFlow], [PlSql], [PlSqlFacts].
    - The statement splitter, [SqlStatementSplitter] of [sql.rs]: [Splitter], with
      [SplitterFacts], [SplitterLoops] (its bounded loops and its literals) and the
      contract in [SplitterTheorems].  It calls the lexical helpers and the block
      recognisers on its buffer, and everything that runs scripts calls it.
    - psql preprocessing and execution plans of [sql.rs]: [Scanner], [ScannerFacts].
    - The editor's statement ranges and cursor lookup of [sql.rs]: [Ranges],
      [RangesFacts], [CursorFacts].
    - SQL file import ([sql.rs], [data/sql_file_import.rs]): [ImportBatch],
      [ImportFacts] (skipped statements, insert batching), [BinaryDump],
      [BinaryDumpFacts] (MySQL binary literals), [BatchSplit], [BatchSplitFacts]
      (streaming a file through the splitter into batches).
    - Persisted states with optimistic locking ([persistence/storage.rs],
      [persistence/state_persistence.rs]): [StateStore], [StateMachineFacts].
    - The two-phase commit coordinator ([query/two_phase_commit.rs]), whose log is
      such a state: [TwoPhaseCommit], [TwoPhaseFacts], [TwoPhaseTheorems].
    - The schema cache ([persistence/storage.rs], [query/object_cache.rs]):
      [SchemaCache], [SchemaCacheFacts], [SchemaCacheTheorems].
    - Read-only protection: [SqlStrip], [WriteClass],
      [WriteClassFacts] ([query_execution_sql.rs]: which statements write, on the
      statements the splitter finds; [WriteClass] opens with [cypher_read_only.rs],
      whose facts are [CypherFacts]), [WriteUnlock], [ReadOnlyGate] ([safety/write_unlock.rs],
      the checks of [query/mod.rs], the pool keys of [connection/mod.rs]).
    - Running executions: [RunningQueries], [RunningFacts] ([query/query_cancel.rs]),
      and their progress, [BatchProgress] ([query/batch_progress.rs]).
    - CSV: [CsvExport] ([csv_export.rs] of [dbx-formats]), [CsvImport] (the delimited
      part of [data/table_import.rs]), [CsvTheorems].
    - Schema comparison ([schema_diff.rs]): [SchemaTypes] (the metadata a driver
      reads and the differences of two schemas), [SchemaNames] (which objects are
      compared with each other), [ViewDdl] (captured view definitions),
      [ColumnCompare], [ObjectCompare], [ForeignKeyCompare] and, over them,
      [SchemaCompare] ([diff_schema]); further facts in [ColumnCompareFacts] and
      [ObjectCompareFacts].
    - What is done with the differences: [SchemaGraph] and [DiffOrder] (dependency
      graphs and the order of a script, both runs of Kahn's algorithm, whose contract
      is the interface [Kahn]; theorems on the first in [SchemaGraphTheorems]),
      [Rollback], [TableRenames], [SchemaShard].
    - DDL for a database: [DdlProfile] ([sql_dialect/ddl_profile.rs]: the profile of
      every database type), [Identifiers] ([sql_dialect/identifiers.rs],
      [sql_dialect/capabilities.rs]).
    - Synchronisation statements ([schema_diff.rs]): [DdlNames] (names in DDL and the
      rewriting of captured DDL) with [DdlNamesFacts] and [DdlMoveFacts]; [PgCasts] (the
      casts of PostgreSQL defaults) with [CastStripFacts];
      [DefaultLiteral]; [SyncStatements] (index, foreign-key, trigger and drop
      statements) with [SyncStatementsFacts], which composes them with the splitter.
    - The SQL of the data grid ([data_grid_sql.rs]): [GridTypes] (values, options, column
      types), [GridLiterals] (the literal of a cell for every engine, with
      [value_literals.rs] and [sqlserver_temporal.rs]), [GridPredicates] (conditions that
      find a row, key columns, large objects of OceanBase), [GridBatch] (the batched
      statements of MySQL), [GridEngines] (the builders of
      [data_grid_neo4j_sql.rs], [data_grid_iotdb_sql.rs], [data_grid_tdengine_sql.rs] and
      [data_grid_salesforce_sql.rs]), [GridSave] (validations, save and rollback
      statements, [prepare_data_grid_save]) and [GridCopy] (copied rows, filters, counts,
      distinct values).  Facts in [GridLiteralFacts] and [GridSaveFacts].
    - Reading a table for the grid: [TableSelect] ([sql_dialect/table_select.rs]: the
      SELECT of a page for every engine, with previews of large values) and
      [LargeValues] ([query/mod.rs]: the previews in the result of that SELECT).

    A record of the model is a struct of the code, field for field unless its file
    says otherwise; a function has the name of the function it translates, or of
    the loop or branch it is the body of.  A scanner loop is [scan_loop] below, a
    stateful object is a record that its methods take and return, an error is a
    value of [result] ([StateStore]) or [outcome] (below, with a constructor for a
    panic).  Tasks that run at the same time are step relations over the parts
    between their awaits or over critical sections ([StateMachineFacts], [ReadOnlyGate],
    [RunningFacts]).

    ** What the theorems show

    - A script with plain comments is the statements emitted, in order, and pieces of
      a grammar of blanks, comments, terminators and command lines; what is emitted is
      not comments only; chunk boundaries and the contents of literals do not matter;
      the incremental PL/SQL tracker agrees with the test on the whole statement; the
      loops end.
    - Import keeps the statements in order, merges only inserts whose header texts
      agree and stays in its limits; binary literals become the hex of the same bytes.
    - Statement ranges tile the script, the statement under the cursor is found,
      offsets convert back and forth.
    - Concurrent transitions of a state serialize along the transition table; the
      coordinator's log is truthful at every crash point, calls come in the order
      prepare, log, commit, and recovery is all or nothing.
    - The schema cache stays in its budget, evicts the least recently used, gives
      back what was saved, and an invalidation touches one connection only
      ([SchemaCacheTheorems]).
    - The safety scanner sees the code of a statement written from well-formed pieces
      and nothing else; every write verb in it is found; the Cypher check accepts exactly the scripts whose tokens
      satisfy its policy; a write passes the gate of a read-only connection only in
      a window granted to the same session; pool keys find their own connection.
    - A cancellation runs the interrupt of its execution, no interrupt is run twice,
      and one is given up only when its execution ends, expires or hands over another;
      an answer about completion says how the latest registration was removed;
      coalesced progress settles every report.
    - An exported table imports as the same rows, but for strings that begin like a
      formula or spell NULL; formula guards are inert and strip back, import headers
      are unique.
    - A schema does not differ from itself; tables are paired injectively, every
      column is in exactly one difference, the differences of keyed objects,
      followed by their labels, turn the target's objects into the source's and their
      rollback restores them; detected renames are a stable matching; a script creates
      a table after the ones it refers to and drops it before them, but behind a cycle.
    - A written name reads back; captured DDL is moved to the target's schema and
      keeps everything else; the casts of a default, and nothing else, are removed;
      no name of a schema, table, column, key or index can end the statement that
      mentions it where the splitter reads the names of the database as quoted.
    - The literal of a text cell reads back as the text in the lexical grammar of the
      engines of [literal_reader], also where SQL Server and Oracle texts are cut into pieces
      ([GridLiteralFacts]).  An accepted save finds its rows by every key column with a
      value, or by a condition that the server counts first; the batches of MySQL carry
      every update and delete in order, in the limits of a statement; large objects
      taken out of a statement can be put back ([GridSaveFacts]).
    - Pages of a table tile its rows: [TableSelect] gives every page clause a meaning
      on rows, every page reads the same source, and no row is read twice or missed.  What the preview expressions and
      markers of the SELECT answer is shown in full or cut and listed ([LargeValues]).

    Where the code departs from what it means to do, a lemma at the end of the file
    evaluates the departure on a concrete input.

    ** Bounds and fuel

    Every fuelled function is given the length of the text (or the number of rows or
    statements) it consumes, and each iteration consumes at least one: the facts
    files prove that this is enough where a result depends on it (the batch loop of
    the splitter, the leading comments of a statement, statement preparation,
    statement ranges, the Cypher scanner, eviction, import headers, the rounds of
    Kahn's algorithm, the components and array suffixes of a cast, chunks of a list or a text, the operands of
    a cut literal).  The parentheses around a default and the element types of a Neo4j
    array are peeled with the length of the text as fuel.  Version numbers of persisted states and instants are
    unbounded [N]; their machine types hold 2^63 writes and 584 years.

    ** Parameters

    Code outside the repository is a class: the tables and case mappings of Rust's
    [char] outside ASCII ([CharTable], [CaseMap]), the sqlparser tokenizer
    ([OracleTokenizer], [WordTokenizer]), serde_json ([Json], [JsonText],
    [JsonObject], [JsonDisplay], [JsonNumber], [JsonCodec]), chrono's time stamps
    ([Chrono]), the csv crate ([CsvReader]), the iteration
    order of a [HashMap] ([HashOrder]) and of a [HashSet] ([SetOrder]), percent
    decoding ([PercentDecode]), the dialects a manifest of connection types declares
    ([ManifestDialects]), [char::is_alphabetic] outside ASCII ([LetterTable]), the
    backends of persisted states and the participants of a transaction
    ([StateBackend], [BackendLaws], [TwoPhaseCommit]).  [VerbFirst] says of a tokenizer
    that it finds the verb a text starts with; the fallback of the sources satisfies it.

    ** Not modelled

    Decoding of files (encoding_rs), everything that walks the sqlparser syntax tree
    ([sql_risk.rs], [sql_analysis.rs], [sql_editability.rs], [production_safety.rs]),
    the results of queries and searches ([query_result_sql.rs], the [database_search]
    builders, the extractors), transfers and exports of tables ([data/transfer.rs]: I/O
    between servers), drivers, agents, XLSX and archives, AI, plugins and the hosts.  Of
    schema synchronisation, CREATE TABLE generation, column alters, comments, routines,
    type rewriting and the assembly of the plan.

    ** This file: text, characters and loops

    Rust's [char] is a Unicode scalar value and [&str] a sequence of them; the
    development models a character as its code point ([N]) and a text as
    [list N].  The sources index strings by byte or by character position only
    to cut them, so positions are modelled by the suffix that starts there (or
    by the number of characters before it).  Byte comparisons against ASCII
    literals agree with code point comparisons because no byte of a multi-byte
    UTF-8 sequence is below 128.

    [is_whitespace] is the Unicode [White_Space] property in full and
    [is_control] the [Cc] category in full.  [char::is_alphanumeric] is a large
    Unicode table of the Rust library; its ASCII part is written out and the
    rest is the field [nonascii_alphanumeric] of the class [CharTable], over
    which every theorem is universally quantified.

    [scan_loop] is the shape of the sources' [while i < chars.len()] loops: one
    step looks at the current character and at the text after it, and says how
    many further characters it consumed. *)

From stdpp Require Export base tactics numbers strings option list.
From Stdlib Require Export Lia.

#[global] Open Scope list_scope.

Abbreviation char := N (only parsing).
Abbreviation text := (list N) (only parsing).

Declare Scope text_scope.
Delimit Scope text_scope with text.

(** Characters of an ASCII literal. *)
Fixpoint lit (s : string) : text :=
  match s with
  | EmptyString => []
  | String a s' => Ascii.N_of_ascii a :: lit s'
  end.
Arguments lit !_%_string_scope.

Notation "'%' s" := (lit s%string) (at level 9, s at level 0) : text_scope.
#[global] Open Scope text_scope.

Module Chars.

#[local] Open Scope N_scope.

Definition tab : char := 9%N.
Definition nl : char := 10%N.
Definition cr : char := 13%N.
Definition space : char := 32%N.
Definition bang : char := 33%N.
Definition dquote : char := 34%N.
Definition hash : char := 35%N.
Definition dollar : char := 36%N.
Definition amp : char := 38%N.
Definition squote : char := 39%N.
Definition lparen : char := 40%N.
Definition rparen : char := 41%N.
Definition star : char := 42%N.
Definition comma : char := 44%N.
Definition dash : char := 45%N.
Definition slash : char := 47%N.
Definition colon : char := 58%N.
Definition semi : char := 59%N.
Definition lbracket : char := 91%N.
Definition bslash : char := 92%N.
Definition rbracket : char := 93%N.
Definition under : char := 95%N.
Definition backtick : char := 96%N.

(** [char::is_whitespace]: the 25 code points with the [White_Space] property. *)
Definition is_whitespace (c : char) : bool :=
  ((9 <=? c) && (c <=? 13)) || (c =? 32) || (c =? 133) || (c =? 160) || (c =? 5760)
  || ((8192 <=? c) && (c <=? 8202)) || (c =? 8232) || (c =? 8233) || (c =? 8239)
  || (c =? 8287) || (c =? 12288).

(** [u8::is_ascii_whitespace]: no vertical tab, unlike [is_whitespace]. *)
Definition is_ascii_whitespace (c : char) : bool :=
  (c =? 32) || (c =? 9) || (c =? 10) || (c =? 12) || (c =? 13).

(** [char::is_control]: category [Cc]. *)
Definition is_control (c : char) : bool := (c <=? 31) || ((127 <=? c) && (c <=? 159)).

Definition is_ascii_digit (c : char) : bool := (48 <=? c) && (c <=? 57).
Definition is_ascii_uppercase (c : char) : bool := (65 <=? c) && (c <=? 90).
Definition is_ascii_lowercase (c : char) : bool := (97 <=? c) && (c <=? 122).
Definition is_ascii_alphabetic (c : char) : bool := is_ascii_uppercase c || is_ascii_lowercase c.
Definition is_ascii_alphanumeric (c : char) : bool := is_ascii_alphabetic c || is_ascii_digit c.
Definition is_ascii_hexdigit (c : char) : bool :=
  is_ascii_digit c || ((65 <=? c) && (c <=? 70)) || ((97 <=? c) && (c <=? 102)).

Definition to_ascii_uppercase (c : char) : char :=
  if is_ascii_lowercase c then (c - 32)%N else c.
Definition to_ascii_lowercase (c : char) : char :=
  if is_ascii_uppercase c then (c + 32)%N else c.

(** [char::len_utf8]. *)
Definition len_utf8 (c : char) : N :=
  if c <? 128 then 1%N else if c <? 2048 then 2%N else if c <? 65536 then 3%N else 4%N.

(** [char::len_utf16]. *)
Definition len_utf16 (c : char) : nat := if c <? 65536 then 1%nat else 2%nat.

End Chars.
Export Chars.

(** The non-ASCII part of [char::is_alphanumeric]. *)
Class CharTable := { nonascii_alphanumeric : char -> bool }.

Definition is_alphanumeric `{CharTable} (c : char) : bool :=
  if (c <? 128)%N then is_ascii_alphanumeric c else nonascii_alphanumeric c.

(** A concrete table, used by the witnesses: Latin-1 letters. *)
Definition latin1_table : CharTable :=
  {| nonascii_alphanumeric c := ((192 <=? c) && (c <=? 255) && negb (c =? 215) && negb (c =? 247))%N |}.

Module Text.

Fixpoint drop_while {A} (p : A -> bool) (l : list A) : list A :=
  match l with
  | [] => []
  | x :: l' => if p x then drop_while p l' else l
  end.

Fixpoint take_while {A} (p : A -> bool) (l : list A) : list A :=
  match l with
  | [] => []
  | x :: l' => if p x then x :: take_while p l' else []
  end.

Definition trim_start (s : text) : text := drop_while is_whitespace s.
Definition trim_end (s : text) : text := rev (drop_while is_whitespace (rev s)).
Definition trim (s : text) : text := trim_end (trim_start s).

Definition char_eqb (a b : char) : bool := (a =? b)%N.

Fixpoint text_eqb (a b : text) : bool :=
  match a, b with
  | [], [] => true
  | x :: a', y :: b' => (x =? y)%N && text_eqb a' b'
  | _, _ => false
  end.

Definition is_empty {A} (l : list A) : bool := match l with [] => true | _ => false end.

Definition eq_ignore_ascii_case (a b : text) : bool :=
  text_eqb (map to_ascii_lowercase a) (map to_ascii_lowercase b).

Definition upper (s : text) : text := map to_ascii_uppercase s.
Definition lower (s : text) : text := map to_ascii_lowercase s.

(** [l.get(0) == Some(&c)] on the suffix that starts at the position read. *)
Definition head_is (c : char) (l : text) : bool :=
  match l with [] => false | x :: _ => (x =? c)%N end.

Definition opt_is (c : char) (o : option char) : bool :=
  match o with None => false | Some x => (x =? c)%N end.

(** [starts_with]. *)
Fixpoint starts_with (needle s : text) : bool :=
  match needle, s with
  | [], _ => true
  | x :: n', y :: s' => (x =? y)%N && starts_with n' s'
  | _ :: _, [] => false
  end.

Definition ends_with (needle s : text) : bool := starts_with (rev needle) (rev s).

(** [contains]: the needle occurs somewhere in the text. *)
Fixpoint contains (needle s : text) : bool :=
  starts_with needle s || match s with [] => false | _ :: s' => contains needle s' end.

(** [s.rsplit_once(c)]: the parts before and after the last [c]. *)
Fixpoint rsplit_once (c : char) (s : text) : option (text * text) :=
  match s with
  | [] => None
  | x :: s' =>
      match rsplit_once c s' with
      | Some (a, b) => Some (x :: a, b)
      | None => if (x =? c)%N then Some ([], s') else None
      end
  end.

(** [s.split_once(c)]: the parts before and after the first [c]. *)
Fixpoint split_once (c : char) (s : text) : option (text * text) :=
  match s with
  | [] => None
  | x :: s' =>
      if (x =? c)%N then Some ([], s')
      else match split_once c s' with
           | Some (a, b) => Some (x :: a, b)
           | None => None
           end
  end.

(** [&s[s.rfind('\n').map_or(0, |p| p + 1)..]] and the part before it. *)
Definition last_line (s : text) : text :=
  match rsplit_once nl s with Some (_, b) => b | None => s end.
Definition before_last_line (s : text) : text :=
  match rsplit_once nl s with Some (a, _) => a ++ [nl] | None => [] end.

(** [str::split_whitespace]. *)
Fixpoint split_whitespace_from (cur : text) (s : text) : list text :=
  match s with
  | [] => if is_empty cur then [] else [rev cur]
  | c :: s' =>
      if is_whitespace c
      then (if is_empty cur then split_whitespace_from [] s' else rev cur :: split_whitespace_from [] s')
      else split_whitespace_from (c :: cur) s'
  end.
Definition split_whitespace (s : text) : list text := split_whitespace_from [] s.

(** [parts.join(sep)]. *)
Fixpoint join (sep : text) (parts : list text) : text :=
  match parts with
  | [] => []
  | [p] => p
  | p :: ps => p ++ sep ++ join sep ps
  end.

(** [s.len()]: the length in UTF-8 bytes. *)
Definition byte_len (s : text) : N := fold_right (fun c n => (len_utf8 c + n)%N) 0%N s.

(** [s.encode_utf16().count()]. *)
Definition utf16_len (s : text) : nat := list_sum (map len_utf16 s).

Definition any_of (s : text) (keywords : list text) : bool :=
  existsb (eq_ignore_ascii_case s) keywords.

End Text.
Export Text.

(** ** The loop combinator *)

Section ScanLoop.

Context {S A : Type}.

(** One iteration at a character [c] with the text [l] after it: the new
    state, the values pushed, and how many characters of [l] it consumed. *)
Variable step : S -> char -> text -> S * list A * nat.

Fixpoint scan_loop (st : S) (skip : nat) (l : text) : S * list A :=
  match l with
  | [] => (st, [])
  | c :: l' =>
      match skip with
      | Datatypes.S k => scan_loop st k l'
      | O =>
          let '(st1, out, extra) := step st c l' in
          let '(st2, out') := scan_loop st1 extra l' in
          (st2, out ++ out')
      end
  end.

End ScanLoop.

(** ** Fallible code *)

(** The result of a function that indexes a slice: a value, a panic, or a loop
    that did not end within the fuel of the model. *)
Inductive outcome (A : Type) : Type :=
| Returns (a : A)
| Panics
| OutOfFuel.
Arguments Returns {A} a.
Arguments Panics {A}.
Arguments OutOfFuel {A}.

Definition outcome_bind {A B} (m : outcome A) (f : A -> outcome B) : outcome B :=
  match m with Returns a => f a | Panics => Panics | OutOfFuel => OutOfFuel end.

Notation "'do' x <- m ; k" := (outcome_bind m (fun x => k)) (at level 10, x binder, m at level 100, k at level 200).

(** [&sql[start..end]] with positions counted in characters. *)
Definition slice_text (sql : text) (start end_ : nat) : outcome text :=
  if (start <=? end_) && (end_ <=? length sql) then Returns (drop start (take end_ sql)) else Panics.

(** ** Lemmas on the text functions *)

Lemma drop_while_split {A} (p : A -> bool) l :
  exists pre, l = pre ++ drop_while p l /\ Forall (fun x => p x = true) pre.
Proof.
  induction l as [|x l (pre & IH & Hpre)]; simpl; [by exists [] |].
  destruct (p x) eqn:Hx; [|by exists []].
  exists (x :: pre). simpl. by rewrite <- IH; repeat constructor.
Qed.

Lemma drop_while_head {A} (p : A -> bool) l x l' : drop_while p l = x :: l' -> p x = false.
Proof. induction l as [|y l IH]; simpl; [done|]. destruct (p y) eqn:Hy; naive_solver. Qed.

Lemma drop_while_idemp {A} (p : A -> bool) l : drop_while p (drop_while p l) = drop_while p l.
Proof.
  induction l as [|x l IH]; simpl; [done|]. destruct (p x) eqn:Hx; [done|]. simpl. by rewrite Hx.
Qed.

Lemma join_cons sep p q ps : join sep (p :: q :: ps) = p ++ sep ++ join sep (q :: ps).
Proof. done. Qed.

Lemma last_rev {A} (l : list A) : last (rev l) = head l.
Proof. rewrite rev_alt. apply last_reverse. Qed.

(** A text is its trimmed part between two runs of whitespace. *)
Lemma trim_split s :
  exists w1 w2, s = w1 ++ trim s ++ w2
    /\ Forall (fun c => is_whitespace c = true) w1 /\ Forall (fun c => is_whitespace c = true) w2.
Proof.
  destruct (drop_while_split is_whitespace s) as (w1 & H1 & Hw1).
  destruct (drop_while_split is_whitespace (rev (trim_start s))) as (w2 & H2 & Hw2).
  exists w1, (rev w2). repeat split; [|done|by apply Forall_rev].
  unfold trim, trim_end. rewrite <- rev_app_distr, <- H2, rev_involutive. exact H1.
Qed.

Lemma trim_nil_whitespace s : trim s = [] -> Forall (fun c => is_whitespace c = true) s.
Proof.
  intros Hs. destruct (trim_split s) as (w1 & w2 & -> & H1 & H2). rewrite Hs. by apply Forall_app.
Qed.

Lemma trim_end_start_fixed s :
  (forall x l, s = x :: l -> is_whitespace x = false) ->
  forall x l, trim_end s = x :: l -> is_whitespace x = false.
Proof.
  intros Hs x l Heq. destruct (drop_while_split is_whitespace (rev s)) as (w & Hw & _).
  apply (f_equal (@rev _)) in Hw. rewrite rev_involutive, rev_app_distr in Hw.
  unfold trim_end in Heq. rewrite Heq in Hw. eapply Hs. exact Hw.
Qed.

Lemma drop_while_fixed {A} (p : A -> bool) s :
  (forall x l, s = x :: l -> p x = false) -> drop_while p s = s.
Proof. destruct s as [|x l]; simpl; [done|]. intros Hs. by rewrite (Hs x l). Qed.

Lemma trim_idemp s : trim (trim s) = trim s.
Proof.
  unfold trim at 1. unfold trim_start. rewrite drop_while_fixed.
  - unfold trim at 1, trim_end. rewrite rev_involutive, drop_while_idemp. done.
  - apply trim_end_start_fixed. intros x l. apply drop_while_head.
Qed.

Lemma text_eqb_eq a b : text_eqb a b = true <-> a = b.
Proof.
  revert b. induction a as [|x a IH]; intros [|y b]; simpl; [done|by split..|].
  rewrite andb_true_iff, N.eqb_eq, IH. naive_solver.
Qed.

Lemma text_eqb_refl a : text_eqb a a = true.
Proof. by apply text_eqb_eq. Qed.

Lemma is_empty_nil {A} (l : list A) : is_empty l = true <-> l = [].
Proof. destruct l; simpl; split; congruence. Qed.

Lemma byte_len_cons c s : byte_len (c :: s) = (len_utf8 c + byte_len s)%N.
Proof. done. Qed.

Lemma byte_len_app a b : byte_len (a ++ b) = (byte_len a + byte_len b)%N.
Proof. induction a as [|c a IH]; [done|]. cbn [app]. rewrite !byte_len_cons, IH. lia. Qed.

Lemma starts_with_app needle s : starts_with needle s = true <-> exists rest, s = needle ++ rest.
Proof.
  revert s. induction needle as [|x n IH]; intros s; simpl.
  - split; [by exists s | done].
  - destruct s as [|y s]; [split; [done | by intros [? ?]]|].
    rewrite andb_true_iff, N.eqb_eq, IH. split.
    + intros [-> [r ->]]. by exists r.
    + intros [r Hr]. injection Hr as -> ->. eauto.
Qed.

(** A part without the separator in front of the separator determines itself. *)
Lemma separator_prefix_inj (sep : char) (a b rest rest' : text) :
  Forall (fun c => c <> sep) a -> Forall (fun c => c <> sep) b -> a ++ sep :: rest' = b ++ sep :: rest -> a = b.
Proof.
  revert b. induction a as [|x a IH]; intros [|y b] Ha Hb; cbn; intros [= Heq]; try done.
  - by apply Forall_cons in Hb as [[] _].
  - by apply Forall_cons in Ha as [[] _].
  - apply Forall_cons in Ha as [_ Ha]. apply Forall_cons in Hb as [_ Hb]. subst. f_equal. by eapply IH.
Qed.

Lemma ends_with_app needle s : ends_with needle s = true <-> exists before, s = before ++ needle.
Proof.
  unfold ends_with. rewrite starts_with_app. split.
  - intros [r Hr]. exists (rev r). apply (f_equal (@rev _)) in Hr.
    by rewrite rev_involutive, rev_app_distr, rev_involutive in Hr.
  - intros [b ->]. exists (rev b). apply rev_app_distr.
Qed.

Lemma rsplit_once_Some c s a b : rsplit_once c s = Some (a, b) -> s = a ++ c :: b.
Proof.
  revert a b. induction s as [|x s IH]; intros a b; simpl; [done|].
  destruct (rsplit_once c s) as [[a' b']|] eqn:Hs.
  - intros [= <- <-]. simpl. by rewrite (IH _ _ eq_refl).
  - destruct (x =? c)%N eqn:Hx; [|done]. apply N.eqb_eq in Hx as ->. by intros [= <- <-].
Qed.

(** A text is its part before the last line followed by the last line. *)
Lemma last_line_split s : s = before_last_line s ++ last_line s.
Proof.
  unfold before_last_line, last_line. destruct (rsplit_once nl s) as [[a b]|] eqn:Hs; [|done].
  apply rsplit_once_Some in Hs. by rewrite <- app_assoc.
Qed.

Lemma take_drop_last_len {A} (l : list A) d b : l = b ++ d -> take (length l - length d) l = b.
Proof. intros ->. rewrite length_app. replace (length b + length d - length d) with (length b) by lia. by rewrite take_app_length. Qed.

(** [s] occurs in [t] as a contiguous part. *)
Definition substring_of (s t : text) : Prop := exists a b, t = a ++ s ++ b.

Lemma substring_refl s : substring_of s s.
Proof. exists [], []. by rewrite app_nil_r. Qed.

Lemma substring_trans s t u : substring_of s t -> substring_of t u -> substring_of s u.
Proof. intros (a & b & ->) (c & d & ->). exists (c ++ a), (b ++ d). by rewrite !app_assoc. Qed.

Lemma substring_app_l s a b : substring_of s a -> substring_of s (a ++ b).
Proof. intros (x & y & ->). exists x, (y ++ b). by rewrite !app_assoc. Qed.

Lemma substring_app_r s a b : substring_of s b -> substring_of s (a ++ b).
Proof. intros (x & y & ->). exists (a ++ x), y. by rewrite !app_assoc. Qed.

Lemma substring_trim s : substring_of (trim s) s.
Proof. destruct (trim_split s) as (w1 & w2 & Hs & _). by exists w1, w2. Qed.

Lemma substring_last_line s : substring_of (last_line s) s.
Proof. exists (before_last_line s), []. rewrite app_nil_r. apply last_line_split. Qed.

Lemma substring_take n s : substring_of (take n s) s.
Proof. exists [], (drop n s). by rewrite take_drop. Qed.

Create HintDb text discriminated.
#[export] Hint Resolve substring_refl substring_app_l substring_app_r substring_trim
  substring_last_line substring_take : text.

(** ** Lemmas on the loop combinator *)

Section ScanLoopFacts.

Context {S A : Type}.
Variable step : S -> char -> text -> S * list A * nat.

Lemma scan_loop_skip st n l : scan_loop step st n l = scan_loop step st 0 (drop n l).
Proof.
  revert n. induction l as [|c l IH]; by intros [|n]; simpl.
Qed.

Lemma scan_loop_cons st c l :
  scan_loop step st 0 (c :: l) =
  let '(st1, out, extra) := step st c l in
  let '(st2, out') := scan_loop step st1 0 (drop extra l) in (st2, out ++ out').
Proof.
  simpl. destruct (step st c l) as [[st1 out] extra]. by rewrite scan_loop_skip.
Qed.

(** Rule induction on the iterations of a loop over [whole]: [P] relates the
    text consumed, the state and the values pushed so far. *)
Lemma scan_loop_invariant (whole : text) (P : text -> S -> list A -> Prop) :
  (forall done st out c rest st' out' extra,
     done ++ c :: rest = whole -> P done st out -> step st c rest = (st', out', extra) ->
     P (done ++ c :: take extra rest) st' (out ++ out')) ->
  forall l done st out st' out',
    done ++ l = whole -> P done st out -> scan_loop step st 0 l = (st', out') ->
    P (done ++ l) st' (out ++ out').
Proof.
  intros Hstep l. remember (length l) as n eqn:Hn. assert (length l <= n) as Hle by lia. clear Hn.
  revert l Hle. induction n as [|n IH]; intros [|c l] Hle done st out st' out' Hpre HP Hrun;
    try (simpl in *; lia).
  - injection Hrun as <- <-. by rewrite !app_nil_r.
  - injection Hrun as <- <-. by rewrite !app_nil_r.
  - rewrite scan_loop_cons in Hrun.
    destruct (step st c l) as [[st1 o1] extra] eqn:Hs.
    destruct (scan_loop step st1 0 (drop extra l)) as [st2 o2] eqn:Hr.
    injection Hrun as <- <-.
    specialize (Hstep _ _ _ _ _ _ _ _ Hpre HP Hs).
    assert ((done ++ c :: take extra l) ++ drop extra l = done ++ c :: l) as Heq
      by (rewrite <- app_assoc; simpl; by rewrite take_drop).
    eapply IH in Hr; [| | |exact Hstep].
    + rewrite app_assoc. by rewrite Heq in Hr.
    + rewrite length_drop. simpl in Hle. lia.
    + by rewrite Heq.
Qed.

(** Splitting the input of a loop: if no iteration that starts in [a] depends on
    the text after [a] or reads past its end, the loop over [a ++ b] is the loop
    over [a] followed by the loop over [b]. *)
Lemma scan_loop_app (I : S -> Prop) (b : text) :
  forall a,
  (forall st c l, I st -> c :: l `suffix_of` a ->
     step st c (l ++ b) = step st c l
     /\ (let '(st', _, extra) := step st c l in I st' /\ extra <= length l)) ->
  forall st, I st ->
  scan_loop step st 0 (a ++ b) =
  let '(st1, o1) := scan_loop step st 0 a in
  let '(st2, o2) := scan_loop step st1 0 b in (st2, o1 ++ o2).
Proof.
  intros a. remember (length a) as n eqn:Hn. assert (length a <= n) as Hle by lia. clear Hn.
  revert a Hle. induction n as [|n IH]; intros [|c l] Hle Hlook st Hst;
    try (simpl in *; lia).
  - simpl. by destruct (scan_loop step st 0 b).
  - simpl. by destruct (scan_loop step st 0 b).
  - simpl app. rewrite !scan_loop_cons.
    destruct (Hlook st c l Hst) as [Heq Hstep]; [by exists []|]. rewrite Heq.
    destruct (step st c l) as [[st1 o1] extra]. destruct Hstep as [HI Hextra].
    rewrite drop_app_le by done. rewrite IH.
    + destruct (scan_loop step st1 0 (drop extra l)) as [st2 o2].
      destruct (scan_loop step st2 0 b) as [st3 o3]. by rewrite app_assoc.
    + rewrite length_drop. simpl in Hle. lia.
    + intros st' c' l' HI' Hsuf. apply Hlook; [done|].
      destruct Hsuf as [p Hp]. exists (c :: take extra l ++ p).
      simpl. f_equal. rewrite <- app_assoc, <- Hp. by rewrite take_drop.
    + done.
Qed.

End ScanLoopFacts.
