(* ===== verification/DbTypes.v ===== *)
(** * DbTypes: the [DatabaseType] enumeration.

    The enumeration is generated by [crates/dbx-types/build.rs]
    ([generate_connection_type_registry]) from the descriptors under
    [plugins/connection-types/]: one variant per descriptor, sorted by the
    descriptor's [order], with [as_str] returning its [dbType].  The build
    rejects duplicate orders; [order_inj] is that check as a lemma, and it gives
    the decidable equality the sources derive ([PartialEq], [Eq]). *)

From S2P Require Import Prelude.

Inductive DatabaseType : Set :=
| Mysql
| Postgres
| Sqlite
| Rqlite
| Turso
| CloudflareD1
| Redis
| DuckDb
| ClickHouse
| SqlServer
| MongoDb
| DynamoDb
| Oracle
| Elasticsearch
| Easysearch
| Meilisearch
| Solr
| CouchDb
| Hbase
| Qdrant
| ChromaDb
| Milvus
| Weaviate
| Doris
| StarRocks
| ManticoreSearch
| Redshift
| Dameng
| Kingbase
| Highgo
| Uxdb
| Vastbase
| Goldendb
| Databend
| Gaussdb
| Kwdb
| Yashandb
| Databricks
| SapHana
| Teradata
| Vertica
| Firebird
| Exasol
| OpenGauss
| Questdb
| OceanbaseOracle
| Gbase
| Gbase8s
| Gbase8c
| Access
| H2
| Snowflake
| Trino
| PrestoSql
| Hive
| Argo
| Transwarp
| Kyuubi
| Impala
| Db2
| Informix
| Neo4j
| Nebula
| Cassandra
| Bigquery
| Spanner
| Kylin
| Ignite
| Ignite3
| Sundb
| Oscar
| Tdengine
| Xugu
| Etcd
| ZooKeeper
| Nacos
| Consul
| MessageQueue
| Mqtt
| Iotdb
| Iris
| InfluxDb
| InfluxDb3
| VictoriaMetrics
| Jdbc
| Spark
| Plugin
| Salesforce.

(** The [order] field of the variant's descriptor. *)
Definition order (db : DatabaseType) : N :=
  match db with
  | Mysql => 10%N
  | Postgres => 20%N
  | Sqlite => 30%N
  | Rqlite => 40%N
  | Turso => 50%N
  | CloudflareD1 => 60%N
  | Redis => 70%N
  | DuckDb => 80%N
  | ClickHouse => 90%N
  | SqlServer => 100%N
  | MongoDb => 110%N
  | DynamoDb => 120%N
  | Oracle => 130%N
  | Elasticsearch => 140%N
  | Easysearch => 150%N
  | Meilisearch => 160%N
  | Solr => 165%N
  | CouchDb => 168%N
  | Hbase => 170%N
  | Qdrant => 180%N
  | ChromaDb => 190%N
  | Milvus => 200%N
  | Weaviate => 210%N
  | Doris => 220%N
  | StarRocks => 230%N
  | ManticoreSearch => 240%N
  | Redshift => 250%N
  | Dameng => 260%N
  | Kingbase => 270%N
  | Highgo => 280%N
  | Uxdb => 290%N
  | Vastbase => 300%N
  | Goldendb => 310%N
  | Databend => 320%N
  | Gaussdb => 330%N
  | Kwdb => 340%N
  | Yashandb => 350%N
  | Databricks => 360%N
  | SapHana => 370%N
  | Teradata => 380%N
  | Vertica => 390%N
  | Firebird => 400%N
  | Exasol => 410%N
  | OpenGauss => 420%N
  | Questdb => 430%N
  | OceanbaseOracle => 440%N
  | Gbase => 450%N
  | Gbase8s => 452%N
  | Gbase8c => 455%N
  | Access => 460%N
  | H2 => 470%N
  | Snowflake => 480%N
  | Trino => 490%N
  | PrestoSql => 500%N
  | Hive => 510%N
  | Argo => 515%N
  | Transwarp => 516%N
  | Kyuubi => 520%N
  | Impala => 530%N
  | Db2 => 540%N
  | Informix => 550%N
  | Neo4j => 560%N
  | Nebula => 565%N
  | Cassandra => 570%N
  | Bigquery => 580%N
  | Spanner => 590%N
  | Kylin => 600%N
  | Ignite => 610%N
  | Ignite3 => 620%N
  | Sundb => 630%N
  | Oscar => 640%N
  | Tdengine => 650%N
  | Xugu => 660%N
  | Etcd => 670%N
  | ZooKeeper => 680%N
  | Nacos => 690%N
  | Consul => 700%N
  | MessageQueue => 710%N
  | Mqtt => 720%N
  | Iotdb => 730%N
  | Iris => 740%N
  | InfluxDb => 750%N
  | InfluxDb3 => 755%N
  | VictoriaMetrics => 760%N
  | Jdbc => 770%N
  | Spark => 780%N
  | Plugin => 790%N
  | Salesforce => 800%N
  end.

(** [DatabaseType::as_str]. *)
Definition as_str (db : DatabaseType) : text :=
  match db with
  | Mysql => %"mysql"
  | Postgres => %"postgres"
  | Sqlite => %"sqlite"
  | Rqlite => %"rqlite"
  | Turso => %"turso"
  | CloudflareD1 => %"cloudflare-d1"
  | Redis => %"redis"
  | DuckDb => %"duckdb"
  | ClickHouse => %"clickhouse"
  | SqlServer => %"sqlserver"
  | MongoDb => %"mongodb"
  | DynamoDb => %"dynamodb"
  | Oracle => %"oracle"
  | Elasticsearch => %"elasticsearch"
  | Easysearch => %"easysearch"
  | Meilisearch => %"meilisearch"
  | Solr => %"solr"
  | CouchDb => %"couchdb"
  | Hbase => %"hbase"
  | Qdrant => %"qdrant"
  | ChromaDb => %"chromadb"
  | Milvus => %"milvus"
  | Weaviate => %"weaviate"
  | Doris => %"doris"
  | StarRocks => %"starrocks"
  | ManticoreSearch => %"manticoresearch"
  | Redshift => %"redshift"
  | Dameng => %"dameng"
  | Kingbase => %"kingbase"
  | Highgo => %"highgo"
  | Uxdb => %"uxdb"
  | Vastbase => %"vastbase"
  | Goldendb => %"goldendb"
  | Databend => %"databend"
  | Gaussdb => %"gaussdb"
  | Kwdb => %"kwdb"
  | Yashandb => %"yashandb"
  | Databricks => %"databricks"
  | SapHana => %"saphana"
  | Teradata => %"teradata"
  | Vertica => %"vertica"
  | Firebird => %"firebird"
  | Exasol => %"exasol"
  | OpenGauss => %"opengauss"
  | Questdb => %"questdb"
  | OceanbaseOracle => %"oceanbase-oracle"
  | Gbase => %"gbase"
  | Gbase8s => %"gbase8s"
  | Gbase8c => %"gbase8c"
  | Access => %"access"
  | H2 => %"h2"
  | Snowflake => %"snowflake"
  | Trino => %"trino"
  | PrestoSql => %"prestosql"
  | Hive => %"hive"
  | Argo => %"argo"
  | Transwarp => %"transwarp"
  | Kyuubi => %"kyuubi"
  | Impala => %"impala"
  | Db2 => %"db2"
  | Informix => %"informix"
  | Neo4j => %"neo4j"
  | Nebula => %"nebula"
  | Cassandra => %"cassandra"
  | Bigquery => %"bigquery"
  | Spanner => %"spanner"
  | Kylin => %"kylin"
  | Ignite => %"ignite"
  | Ignite3 => %"ignite3"
  | Sundb => %"sundb"
  | Oscar => %"oscar"
  | Tdengine => %"tdengine"
  | Xugu => %"xugu"
  | Etcd => %"etcd"
  | ZooKeeper => %"zookeeper"
  | Nacos => %"nacos"
  | Consul => %"consul"
  | MessageQueue => %"mq"
  | Mqtt => %"mqtt"
  | Iotdb => %"iotdb"
  | Iris => %"iris"
  | InfluxDb => %"influxdb"
  | InfluxDb3 => %"influxdb3"
  | VictoriaMetrics => %"victoriametrics"
  | Jdbc => %"jdbc"
  | Spark => %"spark"
  | Plugin => %"plugin"
  | Salesforce => %"salesforce"
  end.

(** [DatabaseType::ALL], in descriptor order. *)
Definition ALL : list DatabaseType :=
  [Mysql; Postgres; Sqlite; Rqlite; Turso; CloudflareD1;
   Redis; DuckDb; ClickHouse; SqlServer; MongoDb; DynamoDb;
   Oracle; Elasticsearch; Easysearch; Meilisearch; Solr; CouchDb;
   Hbase; Qdrant; ChromaDb; Milvus; Weaviate; Doris;
   StarRocks; ManticoreSearch; Redshift; Dameng; Kingbase; Highgo;
   Uxdb; Vastbase; Goldendb; Databend; Gaussdb; Kwdb;
   Yashandb; Databricks; SapHana; Teradata; Vertica; Firebird;
   Exasol; OpenGauss; Questdb; OceanbaseOracle; Gbase; Gbase8s;
   Gbase8c; Access; H2; Snowflake; Trino; PrestoSql;
   Hive; Argo; Transwarp; Kyuubi; Impala; Db2;
   Informix; Neo4j; Nebula; Cassandra; Bigquery; Spanner;
   Kylin; Ignite; Ignite3; Sundb; Oscar; Tdengine;
   Xugu; Etcd; ZooKeeper; Nacos; Consul; MessageQueue;
   Mqtt; Iotdb; Iris; InfluxDb; InfluxDb3; VictoriaMetrics;
   Jdbc; Spark; Plugin; Salesforce].

Definition of_order (n : N) : option DatabaseType :=
  find (fun db => (order db =? n)%N) ALL.

Lemma of_order_order db : of_order (order db) = Some db.
Proof. by destruct db; vm_compute. Qed.

#[export] Instance order_inj : Inj (=) (=) order.
Proof.
  intros a b Heq. apply (f_equal of_order) in Heq.
  rewrite !of_order_order in Heq. by injection Heq.
Qed.

#[export] Instance DatabaseType_eq_dec : EqDecision DatabaseType.
Proof. refine (fun a b => cast_if (decide (order a = order b))); abstract (naive_solver). Defined.

(** [db_type == DatabaseType::X]. *)
Definition db_eqb (a b : DatabaseType) : bool := (order a =? order b)%N.

Lemma db_eqb_eq a b : db_eqb a b = true <-> a = b.
Proof. unfold db_eqb. rewrite N.eqb_eq. split; [apply order_inj | by intros ->]. Qed.

Lemma elem_of_ALL db : db ∈ ALL.
Proof. apply list_elem_of_In, (find_some (fun d => (order d =? order db)%N)), of_order_order. Qed.
