(* ===== verification/Dialect.v ===== *)
(** * Dialect: the dialect profiles of the SQL lexer ([sql.rs], [SqlDialectProfile]).

    A profile is a record of switches; [for_database_type] and
    [for_database_type_and_compatibility] choose one per database.  Rust's
    [..Self::default()] is written with one setter per field. *)

From S2P Require Import Prelude DbTypes.

Module SqlDialectProfile.

Record t : Set := mk {
  supports_hash_line_comments : bool;
  supports_backtick_identifiers : bool;
  supports_nested_block_comments : bool;
  supports_backslash_escaped_quotes : bool;
  supports_postgres_escape_strings : bool;
  supports_oracle_q_quotes : bool;
  supports_oracle_plsql_blocks : bool;
  supports_oracle_style_routine_bodies : bool;
  supports_slash_line_block_delimiter : bool;
  supports_custom_delimiter_commands : bool;
  supports_mysql_routine_blocks : bool;
  supports_dollar_quoted_strings : bool;
  supports_postgres_dollar_quoted_routines : bool;
  supports_hana_script_blocks : bool;
  supports_firebird_routine_blocks : bool;
  supports_go_batch_separator : bool;
  keeps_sqlserver_module_batch_at_cursor : bool;
  keeps_sqlserver_control_flow_batches : bool;
  preserves_tdsql_leading_directives : bool;
  requires_whitespace_after_line_comment_dashes : bool;
  supports_psql_control_commands : bool
}.

Definition default : t := {|
  supports_hash_line_comments := false;
  supports_backtick_identifiers := true;
  supports_nested_block_comments := false;
  supports_backslash_escaped_quotes := true;
  supports_postgres_escape_strings := false;
  supports_oracle_q_quotes := false;
  supports_oracle_plsql_blocks := false;
  supports_oracle_style_routine_bodies := false;
  supports_slash_line_block_delimiter := false;
  supports_custom_delimiter_commands := true;
  supports_mysql_routine_blocks := false;
  supports_dollar_quoted_strings := true;
  supports_postgres_dollar_quoted_routines := false;
  supports_hana_script_blocks := false;
  supports_firebird_routine_blocks := false;
  supports_go_batch_separator := false;
  keeps_sqlserver_module_batch_at_cursor := false;
  keeps_sqlserver_control_flow_batches := false;
  preserves_tdsql_leading_directives := false;
  requires_whitespace_after_line_comment_dashes := false;
  supports_psql_control_commands := false
|}.

Definition set_supports_hash_line_comments (b : bool) (p : t) : t :=
  mk b (supports_backtick_identifiers p) (supports_nested_block_comments p)
    (supports_backslash_escaped_quotes p) (supports_postgres_escape_strings p) (supports_oracle_q_quotes p)
    (supports_oracle_plsql_blocks p) (supports_oracle_style_routine_bodies p)
    (supports_slash_line_block_delimiter p) (supports_custom_delimiter_commands p)
    (supports_mysql_routine_blocks p) (supports_dollar_quoted_strings p)
    (supports_postgres_dollar_quoted_routines p) (supports_hana_script_blocks p)
    (supports_firebird_routine_blocks p) (supports_go_batch_separator p)
    (keeps_sqlserver_module_batch_at_cursor p) (keeps_sqlserver_control_flow_batches p)
    (preserves_tdsql_leading_directives p) (requires_whitespace_after_line_comment_dashes p)
    (supports_psql_control_commands p).

Definition set_supports_backtick_identifiers (b : bool) (p : t) : t :=
  mk (supports_hash_line_comments p) b (supports_nested_block_comments p)
    (supports_backslash_escaped_quotes p) (supports_postgres_escape_strings p) (supports_oracle_q_quotes p)
    (supports_oracle_plsql_blocks p) (supports_oracle_style_routine_bodies p)
    (supports_slash_line_block_delimiter p) (supports_custom_delimiter_commands p)
    (supports_mysql_routine_blocks p) (supports_dollar_quoted_strings p)
    (supports_postgres_dollar_quoted_routines p) (supports_hana_script_blocks p)
    (supports_firebird_routine_blocks p) (supports_go_batch_separator p)
    (keeps_sqlserver_module_batch_at_cursor p) (keeps_sqlserver_control_flow_batches p)
    (preserves_tdsql_leading_directives p) (requires_whitespace_after_line_comment_dashes p)
    (supports_psql_control_commands p).

Definition set_supports_nested_block_comments (b : bool) (p : t) : t :=
  mk (supports_hash_line_comments p) (supports_backtick_identifiers p) b (supports_backslash_escaped_quotes p)
    (supports_postgres_escape_strings p) (supports_oracle_q_quotes p) (supports_oracle_plsql_blocks p)
    (supports_oracle_style_routine_bodies p) (supports_slash_line_block_delimiter p)
    (supports_custom_delimiter_commands p) (supports_mysql_routine_blocks p)
    (supports_dollar_quoted_strings p) (supports_postgres_dollar_quoted_routines p)
    (supports_hana_script_blocks p) (supports_firebird_routine_blocks p) (supports_go_batch_separator p)
    (keeps_sqlserver_module_batch_at_cursor p) (keeps_sqlserver_control_flow_batches p)
    (preserves_tdsql_leading_directives p) (requires_whitespace_after_line_comment_dashes p)
    (supports_psql_control_commands p).

Definition set_supports_backslash_escaped_quotes (b : bool) (p : t) : t :=
  mk (supports_hash_line_comments p) (supports_backtick_identifiers p) (supports_nested_block_comments p) b
    (supports_postgres_escape_strings p) (supports_oracle_q_quotes p) (supports_oracle_plsql_blocks p)
    (supports_oracle_style_routine_bodies p) (supports_slash_line_block_delimiter p)
    (supports_custom_delimiter_commands p) (supports_mysql_routine_blocks p)
    (supports_dollar_quoted_strings p) (supports_postgres_dollar_quoted_routines p)
    (supports_hana_script_blocks p) (supports_firebird_routine_blocks p) (supports_go_batch_separator p)
    (keeps_sqlserver_module_batch_at_cursor p) (keeps_sqlserver_control_flow_batches p)
    (preserves_tdsql_leading_directives p) (requires_whitespace_after_line_comment_dashes p)
    (supports_psql_control_commands p).

Definition set_supports_postgres_escape_strings (b : bool) (p : t) : t :=
  mk (supports_hash_line_comments p) (supports_backtick_identifiers p) (supports_nested_block_comments p)
    (supports_backslash_escaped_quotes p) b (supports_oracle_q_quotes p) (supports_oracle_plsql_blocks p)
    (supports_oracle_style_routine_bodies p) (supports_slash_line_block_delimiter p)
    (supports_custom_delimiter_commands p) (supports_mysql_routine_blocks p)
    (supports_dollar_quoted_strings p) (supports_postgres_dollar_quoted_routines p)
    (supports_hana_script_blocks p) (supports_firebird_routine_blocks p) (supports_go_batch_separator p)
    (keeps_sqlserver_module_batch_at_cursor p) (keeps_sqlserver_control_flow_batches p)
    (preserves_tdsql_leading_directives p) (requires_whitespace_after_line_comment_dashes p)
    (supports_psql_control_commands p).

Definition set_supports_oracle_q_quotes (b : bool) (p : t) : t :=
  mk (supports_hash_line_comments p) (supports_backtick_identifiers p) (supports_nested_block_comments p)
    (supports_backslash_escaped_quotes p) (supports_postgres_escape_strings p) b
    (supports_oracle_plsql_blocks p) (supports_oracle_style_routine_bodies p)
    (supports_slash_line_block_delimiter p) (supports_custom_delimiter_commands p)
    (supports_mysql_routine_blocks p) (supports_dollar_quoted_strings p)
    (supports_postgres_dollar_quoted_routines p) (supports_hana_script_blocks p)
    (supports_firebird_routine_blocks p) (supports_go_batch_separator p)
    (keeps_sqlserver_module_batch_at_cursor p) (keeps_sqlserver_control_flow_batches p)
    (preserves_tdsql_leading_directives p) (requires_whitespace_after_line_comment_dashes p)
    (supports_psql_control_commands p).

Definition set_supports_oracle_plsql_blocks (b : bool) (p : t) : t :=
  mk (supports_hash_line_comments p) (supports_backtick_identifiers p) (supports_nested_block_comments p)
    (supports_backslash_escaped_quotes p) (supports_postgres_escape_strings p) (supports_oracle_q_quotes p) b
    (supports_oracle_style_routine_bodies p) (supports_slash_line_block_delimiter p)
    (supports_custom_delimiter_commands p) (supports_mysql_routine_blocks p)
    (supports_dollar_quoted_strings p) (supports_postgres_dollar_quoted_routines p)
    (supports_hana_script_blocks p) (supports_firebird_routine_blocks p) (supports_go_batch_separator p)
    (keeps_sqlserver_module_batch_at_cursor p) (keeps_sqlserver_control_flow_batches p)
    (preserves_tdsql_leading_directives p) (requires_whitespace_after_line_comment_dashes p)
    (supports_psql_control_commands p).

Definition set_supports_oracle_style_routine_bodies (b : bool) (p : t) : t :=
  mk (supports_hash_line_comments p) (supports_backtick_identifiers p) (supports_nested_block_comments p)
    (supports_backslash_escaped_quotes p) (supports_postgres_escape_strings p) (supports_oracle_q_quotes p)
    (supports_oracle_plsql_blocks p) b (supports_slash_line_block_delimiter p)
    (supports_custom_delimiter_commands p) (supports_mysql_routine_blocks p)
    (supports_dollar_quoted_strings p) (supports_postgres_dollar_quoted_routines p)
    (supports_hana_script_blocks p) (supports_firebird_routine_blocks p) (supports_go_batch_separator p)
    (keeps_sqlserver_module_batch_at_cursor p) (keeps_sqlserver_control_flow_batches p)
    (preserves_tdsql_leading_directives p) (requires_whitespace_after_line_comment_dashes p)
    (supports_psql_control_commands p).

Definition set_supports_slash_line_block_delimiter (b : bool) (p : t) : t :=
  mk (supports_hash_line_comments p) (supports_backtick_identifiers p) (supports_nested_block_comments p)
    (supports_backslash_escaped_quotes p) (supports_postgres_escape_strings p) (supports_oracle_q_quotes p)
    (supports_oracle_plsql_blocks p) (supports_oracle_style_routine_bodies p) b
    (supports_custom_delimiter_commands p) (supports_mysql_routine_blocks p)
    (supports_dollar_quoted_strings p) (supports_postgres_dollar_quoted_routines p)
    (supports_hana_script_blocks p) (supports_firebird_routine_blocks p) (supports_go_batch_separator p)
    (keeps_sqlserver_module_batch_at_cursor p) (keeps_sqlserver_control_flow_batches p)
    (preserves_tdsql_leading_directives p) (requires_whitespace_after_line_comment_dashes p)
    (supports_psql_control_commands p).

Definition set_supports_custom_delimiter_commands (b : bool) (p : t) : t :=
  mk (supports_hash_line_comments p) (supports_backtick_identifiers p) (supports_nested_block_comments p)
    (supports_backslash_escaped_quotes p) (supports_postgres_escape_strings p) (supports_oracle_q_quotes p)
    (supports_oracle_plsql_blocks p) (supports_oracle_style_routine_bodies p)
    (supports_slash_line_block_delimiter p) b (supports_mysql_routine_blocks p)
    (supports_dollar_quoted_strings p) (supports_postgres_dollar_quoted_routines p)
    (supports_hana_script_blocks p) (supports_firebird_routine_blocks p) (supports_go_batch_separator p)
    (keeps_sqlserver_module_batch_at_cursor p) (keeps_sqlserver_control_flow_batches p)
    (preserves_tdsql_leading_directives p) (requires_whitespace_after_line_comment_dashes p)
    (supports_psql_control_commands p).

Definition set_supports_mysql_routine_blocks (b : bool) (p : t) : t :=
  mk (supports_hash_line_comments p) (supports_backtick_identifiers p) (supports_nested_block_comments p)
    (supports_backslash_escaped_quotes p) (supports_postgres_escape_strings p) (supports_oracle_q_quotes p)
    (supports_oracle_plsql_blocks p) (supports_oracle_style_routine_bodies p)
    (supports_slash_line_block_delimiter p) (supports_custom_delimiter_commands p) b
    (supports_dollar_quoted_strings p) (supports_postgres_dollar_quoted_routines p)
    (supports_hana_script_blocks p) (supports_firebird_routine_blocks p) (supports_go_batch_separator p)
    (keeps_sqlserver_module_batch_at_cursor p) (keeps_sqlserver_control_flow_batches p)
    (preserves_tdsql_leading_directives p) (requires_whitespace_after_line_comment_dashes p)
    (supports_psql_control_commands p).

Definition set_supports_dollar_quoted_strings (b : bool) (p : t) : t :=
  mk (supports_hash_line_comments p) (supports_backtick_identifiers p) (supports_nested_block_comments p)
    (supports_backslash_escaped_quotes p) (supports_postgres_escape_strings p) (supports_oracle_q_quotes p)
    (supports_oracle_plsql_blocks p) (supports_oracle_style_routine_bodies p)
    (supports_slash_line_block_delimiter p) (supports_custom_delimiter_commands p)
    (supports_mysql_routine_blocks p) b (supports_postgres_dollar_quoted_routines p)
    (supports_hana_script_blocks p) (supports_firebird_routine_blocks p) (supports_go_batch_separator p)
    (keeps_sqlserver_module_batch_at_cursor p) (keeps_sqlserver_control_flow_batches p)
    (preserves_tdsql_leading_directives p) (requires_whitespace_after_line_comment_dashes p)
    (supports_psql_control_commands p).

Definition set_supports_postgres_dollar_quoted_routines (b : bool) (p : t) : t :=
  mk (supports_hash_line_comments p) (supports_backtick_identifiers p) (supports_nested_block_comments p)
    (supports_backslash_escaped_quotes p) (supports_postgres_escape_strings p) (supports_oracle_q_quotes p)
    (supports_oracle_plsql_blocks p) (supports_oracle_style_routine_bodies p)
    (supports_slash_line_block_delimiter p) (supports_custom_delimiter_commands p)
    (supports_mysql_routine_blocks p) (supports_dollar_quoted_strings p) b (supports_hana_script_blocks p)
    (supports_firebird_routine_blocks p) (supports_go_batch_separator p)
    (keeps_sqlserver_module_batch_at_cursor p) (keeps_sqlserver_control_flow_batches p)
    (preserves_tdsql_leading_directives p) (requires_whitespace_after_line_comment_dashes p)
    (supports_psql_control_commands p).

Definition set_supports_hana_script_blocks (b : bool) (p : t) : t :=
  mk (supports_hash_line_comments p) (supports_backtick_identifiers p) (supports_nested_block_comments p)
    (supports_backslash_escaped_quotes p) (supports_postgres_escape_strings p) (supports_oracle_q_quotes p)
    (supports_oracle_plsql_blocks p) (supports_oracle_style_routine_bodies p)
    (supports_slash_line_block_delimiter p) (supports_custom_delimiter_commands p)
    (supports_mysql_routine_blocks p) (supports_dollar_quoted_strings p)
    (supports_postgres_dollar_quoted_routines p) b (supports_firebird_routine_blocks p)
    (supports_go_batch_separator p) (keeps_sqlserver_module_batch_at_cursor p)
    (keeps_sqlserver_control_flow_batches p) (preserves_tdsql_leading_directives p)
    (requires_whitespace_after_line_comment_dashes p) (supports_psql_control_commands p).

Definition set_supports_firebird_routine_blocks (b : bool) (p : t) : t :=
  mk (supports_hash_line_comments p) (supports_backtick_identifiers p) (supports_nested_block_comments p)
    (supports_backslash_escaped_quotes p) (supports_postgres_escape_strings p) (supports_oracle_q_quotes p)
    (supports_oracle_plsql_blocks p) (supports_oracle_style_routine_bodies p)
    (supports_slash_line_block_delimiter p) (supports_custom_delimiter_commands p)
    (supports_mysql_routine_blocks p) (supports_dollar_quoted_strings p)
    (supports_postgres_dollar_quoted_routines p) (supports_hana_script_blocks p) b
    (supports_go_batch_separator p) (keeps_sqlserver_module_batch_at_cursor p)
    (keeps_sqlserver_control_flow_batches p) (preserves_tdsql_leading_directives p)
    (requires_whitespace_after_line_comment_dashes p) (supports_psql_control_commands p).

Definition set_supports_go_batch_separator (b : bool) (p : t) : t :=
  mk (supports_hash_line_comments p) (supports_backtick_identifiers p) (supports_nested_block_comments p)
    (supports_backslash_escaped_quotes p) (supports_postgres_escape_strings p) (supports_oracle_q_quotes p)
    (supports_oracle_plsql_blocks p) (supports_oracle_style_routine_bodies p)
    (supports_slash_line_block_delimiter p) (supports_custom_delimiter_commands p)
    (supports_mysql_routine_blocks p) (supports_dollar_quoted_strings p)
    (supports_postgres_dollar_quoted_routines p) (supports_hana_script_blocks p)
    (supports_firebird_routine_blocks p) b (keeps_sqlserver_module_batch_at_cursor p)
    (keeps_sqlserver_control_flow_batches p) (preserves_tdsql_leading_directives p)
    (requires_whitespace_after_line_comment_dashes p) (supports_psql_control_commands p).

Definition set_keeps_sqlserver_module_batch_at_cursor (b : bool) (p : t) : t :=
  mk (supports_hash_line_comments p) (supports_backtick_identifiers p) (supports_nested_block_comments p)
    (supports_backslash_escaped_quotes p) (supports_postgres_escape_strings p) (supports_oracle_q_quotes p)
    (supports_oracle_plsql_blocks p) (supports_oracle_style_routine_bodies p)
    (supports_slash_line_block_delimiter p) (supports_custom_delimiter_commands p)
    (supports_mysql_routine_blocks p) (supports_dollar_quoted_strings p)
    (supports_postgres_dollar_quoted_routines p) (supports_hana_script_blocks p)
    (supports_firebird_routine_blocks p) (supports_go_batch_separator p) b
    (keeps_sqlserver_control_flow_batches p) (preserves_tdsql_leading_directives p)
    (requires_whitespace_after_line_comment_dashes p) (supports_psql_control_commands p).

Definition set_keeps_sqlserver_control_flow_batches (b : bool) (p : t) : t :=
  mk (supports_hash_line_comments p) (supports_backtick_identifiers p) (supports_nested_block_comments p)
    (supports_backslash_escaped_quotes p) (supports_postgres_escape_strings p) (supports_oracle_q_quotes p)
    (supports_oracle_plsql_blocks p) (supports_oracle_style_routine_bodies p)
    (supports_slash_line_block_delimiter p) (supports_custom_delimiter_commands p)
    (supports_mysql_routine_blocks p) (supports_dollar_quoted_strings p)
    (supports_postgres_dollar_quoted_routines p) (supports_hana_script_blocks p)
    (supports_firebird_routine_blocks p) (supports_go_batch_separator p)
    (keeps_sqlserver_module_batch_at_cursor p) b (preserves_tdsql_leading_directives p)
    (requires_whitespace_after_line_comment_dashes p) (supports_psql_control_commands p).

Definition set_preserves_tdsql_leading_directives (b : bool) (p : t) : t :=
  mk (supports_hash_line_comments p) (supports_backtick_identifiers p) (supports_nested_block_comments p)
    (supports_backslash_escaped_quotes p) (supports_postgres_escape_strings p) (supports_oracle_q_quotes p)
    (supports_oracle_plsql_blocks p) (supports_oracle_style_routine_bodies p)
    (supports_slash_line_block_delimiter p) (supports_custom_delimiter_commands p)
    (supports_mysql_routine_blocks p) (supports_dollar_quoted_strings p)
    (supports_postgres_dollar_quoted_routines p) (supports_hana_script_blocks p)
    (supports_firebird_routine_blocks p) (supports_go_batch_separator p)
    (keeps_sqlserver_module_batch_at_cursor p) (keeps_sqlserver_control_flow_batches p) b
    (requires_whitespace_after_line_comment_dashes p) (supports_psql_control_commands p).

Definition set_requires_whitespace_after_line_comment_dashes (b : bool) (p : t) : t :=
  mk (supports_hash_line_comments p) (supports_backtick_identifiers p) (supports_nested_block_comments p)
    (supports_backslash_escaped_quotes p) (supports_postgres_escape_strings p) (supports_oracle_q_quotes p)
    (supports_oracle_plsql_blocks p) (supports_oracle_style_routine_bodies p)
    (supports_slash_line_block_delimiter p) (supports_custom_delimiter_commands p)
    (supports_mysql_routine_blocks p) (supports_dollar_quoted_strings p)
    (supports_postgres_dollar_quoted_routines p) (supports_hana_script_blocks p)
    (supports_firebird_routine_blocks p) (supports_go_batch_separator p)
    (keeps_sqlserver_module_batch_at_cursor p) (keeps_sqlserver_control_flow_batches p)
    (preserves_tdsql_leading_directives p) b (supports_psql_control_commands p).

Definition set_supports_psql_control_commands (b : bool) (p : t) : t :=
  mk (supports_hash_line_comments p) (supports_backtick_identifiers p) (supports_nested_block_comments p)
    (supports_backslash_escaped_quotes p) (supports_postgres_escape_strings p) (supports_oracle_q_quotes p)
    (supports_oracle_plsql_blocks p) (supports_oracle_style_routine_bodies p)
    (supports_slash_line_block_delimiter p) (supports_custom_delimiter_commands p)
    (supports_mysql_routine_blocks p) (supports_dollar_quoted_strings p)
    (supports_postgres_dollar_quoted_routines p) (supports_hana_script_blocks p)
    (supports_firebird_routine_blocks p) (supports_go_batch_separator p)
    (keeps_sqlserver_module_batch_at_cursor p) (keeps_sqlserver_control_flow_batches p)
    (preserves_tdsql_leading_directives p) (requires_whitespace_after_line_comment_dashes p) b.

Definition mysql_compatible : t :=
  set_supports_hash_line_comments true
  (set_supports_backslash_escaped_quotes true
  (set_supports_mysql_routine_blocks true
  (set_requires_whitespace_after_line_comment_dashes true default))).

Definition oracle_like : t :=
  set_supports_backslash_escaped_quotes false
  (set_supports_oracle_plsql_blocks true
  (set_supports_oracle_q_quotes true
  (set_supports_slash_line_block_delimiter true default))).

Definition postgres_family : t :=
  set_supports_backslash_escaped_quotes false
  (set_supports_nested_block_comments true
  (set_supports_oracle_style_routine_bodies true
  (set_supports_postgres_escape_strings true
  (set_supports_slash_line_block_delimiter true
  (set_supports_psql_control_commands true default))))).

Definition gaussdb : t :=
  set_supports_backslash_escaped_quotes false
  (set_supports_nested_block_comments true
  (set_supports_postgres_dollar_quoted_routines true
  (set_supports_postgres_escape_strings true
  (set_supports_psql_control_commands true oracle_like)))).

Definition sql_server : t :=
  set_supports_go_batch_separator true
  (set_keeps_sqlserver_module_batch_at_cursor true
  (set_keeps_sqlserver_control_flow_batches true
  (set_supports_nested_block_comments true default))).

Definition sap_hana : t := set_supports_hana_script_blocks true default.

Definition firebird : t :=
  set_supports_backslash_escaped_quotes false (set_supports_firebird_routine_blocks true default).

Definition is_postgres_string_lexer_database (db : DatabaseType) : bool :=
  match db with
  | Vastbase | Kingbase | Highgo | Uxdb | Gbase8c | Kwdb => true
  | _ => false
  end.

Definition is_mysql_compatible_database (db : DatabaseType) : bool :=
  match db with
  | Mysql | Doris | StarRocks | ManticoreSearch | Goldendb => true
  | _ => false
  end.

Definition is_oracle_like_database (db : DatabaseType) : bool :=
  match db with
  | Oracle | Dameng | Gaussdb | Yashandb | Oscar | OceanbaseOracle | Xugu | Argo | Transwarp => true
  | _ => false
  end.

(** [tdsql_mysql::preserves_leading_directives_for_database_type]. *)
Definition preserves_leading_directives_for_database_type (db : DatabaseType) : bool := db_eqb db Mysql.

Definition for_database_type (db : DatabaseType) : t :=
  if match db with Mysql => true | _ => false end then
    set_preserves_tdsql_leading_directives (preserves_leading_directives_for_database_type db) mysql_compatible
  else if match db with Gaussdb => true | _ => false end then gaussdb
  else if match db with Postgres | OpenGauss => true | _ => false end then postgres_family
  else if match db with OceanbaseOracle => true | _ => false end then
    set_supports_backtick_identifiers false
    (set_supports_dollar_quoted_strings false
    (set_supports_custom_delimiter_commands false oracle_like))
  else if is_oracle_like_database db then oracle_like
  else if match db with SqlServer => true | _ => false end then sql_server
  else if match db with Db2 => true | _ => false end then set_supports_nested_block_comments true default
  else if match db with ClickHouse => true | _ => false end then set_supports_nested_block_comments true default
  else if is_mysql_compatible_database db then mysql_compatible
  else if match db with SapHana => true | _ => false end then sap_hana
  else if match db with Firebird => true | _ => false end then firebird
  else if match db with DuckDb => true | _ => false end then
    set_supports_backslash_escaped_quotes false (set_supports_postgres_escape_strings true default)
  else if is_postgres_string_lexer_database db then
    set_supports_backslash_escaped_quotes false
    (set_supports_nested_block_comments true
    (set_supports_postgres_escape_strings true default))
  else if match db with Jdbc | Hive => true | _ => false end then
    set_supports_oracle_style_routine_bodies true default
  else default.

End SqlDialectProfile.

Module SqlParsingOptions.

(** [SqlParsingOptions] wraps the profile. *)
Record t : Set := from_profile { profile : SqlDialectProfile.t }.

Definition default : t := from_profile SqlDialectProfile.default.
Definition mysql_compatible : t := from_profile SqlDialectProfile.mysql_compatible.

Definition for_database_type (db : DatabaseType) : t :=
  from_profile (SqlDialectProfile.for_database_type db).

Definition for_database_type_and_compatibility (db : DatabaseType) (compatibility_mode : option text) : t :=
  if db_eqb db Kingbase then
    let mode := lower (trim (from_option id [] compatibility_mode)) in
    from_profile
      (if text_eqb mode %"mysql" then SqlDialectProfile.mysql_compatible
       else if text_eqb mode %"sqlserver" then SqlDialectProfile.sql_server
       else if text_eqb mode %"pg" || text_eqb mode %"postgres" || text_eqb mode %"postgresql"
       then SqlDialectProfile.postgres_family
       else SqlDialectProfile.gaussdb)
  else if db_eqb db OpenGauss then
    match compatibility_mode with
    | Some mode =>
        if eq_ignore_ascii_case (trim mode) %"A" then from_profile SqlDialectProfile.gaussdb
        else for_database_type db
    | None => from_profile SqlDialectProfile.gaussdb
    end
  else for_database_type db.

End SqlParsingOptions.
