(* ===== verification/Lexis.v ===== *)
(** * Lexis: the lexical helpers of [crates/dbx-sql-core/src/sql.rs].

    Comment openers, string-literal introducers, dollar-quote tags, the test
    for executable SQL, the executable head of a statement, client-side
    commands ([DELIMITER], psql [\set]).  Each function keeps the name it has in
    the source; a [usize] position is the suffix that starts there. *)

From S2P Require Import Prelude DbTypes Dialect.

Import SqlDialectProfile.
Import SqlParsingOptions (profile).

Definition dash_dash_starts_line_comment (p : SqlDialectProfile.t) (char_after_dashes : option char) : bool :=
  if negb (requires_whitespace_after_line_comment_dashes p) then true
  else match char_after_dashes with
       | None => true
       | Some ch => is_whitespace ch || is_control ch
       end.

(** The text before a [;] ends with [&name], [&#digits] or [&#xhex]. *)
Definition ends_with_xml_entity_reference (buffer : text) : bool :=
  let r := rev buffer in
  let tail := take_while is_ascii_alphanumeric r in
  let r := drop (length tail) r in
  let '(tail, r) := match r with
                    | c :: r' => if (c =? hash)%N then (tail ++ [c], r') else (tail, r)
                    | [] => (tail, r)
                    end in
  if negb (head_is amp r) then false
  else match rev tail with
       | h :: rest =>
           if (h =? hash)%N then
             match rest with
             | x :: hex =>
                 if ((x =? 120) || (x =? 88))%N
                 then negb (is_empty hex) && forallb is_ascii_hexdigit hex
                 else forallb is_ascii_digit rest
             | [] => false
             end
           else existsb (text_eqb (h :: rest)) [%"lt"; %"gt"; %"amp"; %"quot"; %"apos"]
       | [] => false
       end.

Section WithCharTable.

Context `{CharTable}.

Definition is_identifier_continue_char (ch : char) : bool :=
  is_alphanumeric ch || (ch =? under)%N || (ch =? dollar)%N.

(** The text ends with [E] or [e] that starts its own token. *)
Definition ends_with_escape_string_prefix (s : text) : bool :=
  match rev s with
  | e :: before =>
      if ((e =? 69) || (e =? 101))%N
      then negb (match before with c :: _ => is_identifier_continue_char c | [] => false end)
      else false
  | [] => false
  end.

(** The text before a quote ends in a [q] or [nq] token. *)
Definition ends_with_oracle_q_quote_prefix (s : text) : bool :=
  match rev s with
  | q :: before =>
      if ((q =? 113) || (q =? 81))%N then
        let previous :=
          match before with
          | n :: before' => if ((n =? 110) || (n =? 78))%N then head before' else Some n
          | [] => None
          end in
        negb (match previous with Some c => is_identifier_continue_char c | None => false end)
      else false
  | [] => false
  end.

End WithCharTable.

Definition oracle_q_quote_closer (opening : char) : option char :=
  if (opening =? 91)%N then Some 93%N
  else if (opening =? 123)%N then Some 125%N
  else if (opening =? 40)%N then Some 41%N
  else if (opening =? 60)%N then Some 62%N
  else if (opening =? squote)%N || (opening =? space)%N || (opening =? tab)%N
          || (opening =? nl)%N || (opening =? cr)%N then None
  else Some opening.

Module OracleQQuoteState.

Record t : Set := mk { awaiting_delimiter : bool; closer : option char }.

Definition default : t := mk false None.

Definition is_open (q : t) : bool :=
  awaiting_delimiter q || match closer q with Some _ => true | None => false end.

Definition consume (ch : char) (previous : option char) (q : t) : t :=
  if awaiting_delimiter q then mk false (oracle_q_quote_closer ch)
  else match closer q with
       | Some c => if opt_is c previous && (ch =? squote)%N then mk (awaiting_delimiter q) None else q
       | None => q
       end.

End OracleQQuoteState.

Definition has_odd_trailing_backslashes (s : text) : bool :=
  Nat.odd (length (take_while (char_eqb bslash) (rev s))).

(** Characters that may follow the first letter of a dollar-quote tag. *)
Definition is_tag_char (c : char) : bool := is_ascii_alphanumeric c || (c =? under)%N.

(** [starts_with_chars(&chars, i, &needle)] on the suffix at [i]. *)
Definition starts_with_chars (l needle : text) : bool := starts_with needle l.

Fixpoint dollar_quote_tag_rest (l : text) : option text :=
  match l with
  | [] => None
  | c :: l' =>
      if (c =? dollar)%N then Some [c]
      else if negb (is_tag_char c) then None
      else cons c <$> dollar_quote_tag_rest l'
  end.

(** [dollar_quote_tag_at(&chars, i)] on the suffix at [i]. *)
Definition dollar_quote_tag_at (l : text) : option text :=
  match l with
  | c0 :: l1 =>
      if negb (c0 =? dollar)%N then None
      else match l1 with
           | c1 :: l2 =>
               if (c1 =? dollar)%N then Some [dollar; dollar]
               else if is_ascii_alphabetic c1 || (c1 =? under)%N
               then (fun r => c0 :: c1 :: r) <$> dollar_quote_tag_rest l2
               else None
           | [] => None
           end
  | [] => None
  end.

(** [/*!] and MariaDB's [/*M!] open executable comments. *)
Definition is_mysql_executable_comment_start (l : text) : bool :=
  starts_with [slash; star; bang] l || starts_with [slash; star; 77%N; bang] l.

Fixpoint has_executable_sql_from (o : SqlParsingOptions.t)
    (in_line_comment : bool) (block_comment_depth : nat) (previous : option char) (l : text) : bool :=
  match l with
  | [] => false
  | ch :: l' =>
      if in_line_comment then
        has_executable_sql_from o (negb (ch =? nl)%N) block_comment_depth (Some ch) l'
      else match block_comment_depth with
      | S depth' =>
          if supports_nested_block_comments (profile o) && opt_is slash previous && (ch =? star)%N
          then has_executable_sql_from o false (S (S depth')) None l'
          else if opt_is star previous && (ch =? slash)%N
          then has_executable_sql_from o false depth' (Some ch) l'
          else has_executable_sql_from o false (S depth') (Some ch) l'
      | O =>
          if (ch =? dash)%N && head_is dash l' then has_executable_sql_from o true 0 (Some ch) l'
          else if supports_hash_line_comments (profile o) && (ch =? hash)%N
          then has_executable_sql_from o true 0 (Some ch) l'
          else if (ch =? slash)%N && head_is star l' then
            if is_mysql_executable_comment_start l then true
            else has_executable_sql_from o false 1 None l'
          else if negb (is_whitespace ch) then true
          else has_executable_sql_from o false 0 (Some ch) l'
      end
  end.

Definition has_executable_sql_with_options (statement : text) (o : SqlParsingOptions.t) : bool :=
  has_executable_sql_from o false 0 None statement.

Definition has_executable_sql (statement : text) : bool :=
  has_executable_sql_with_options statement SqlParsingOptions.default.

(** [find_block_comment_close(bytes, start, nested)] on the suffix at [start]:
    the comment text before the matching [*/] and the text after it. *)
Fixpoint find_block_comment_close_at (nested : bool) (depth : nat) (l : text) : option (text * text) :=
  match l with
  | a :: ((b :: l'') as l') =>
      if (a =? star)%N && (b =? slash)%N then
        match depth with
        | S (S d) => prod_map (fun body => a :: b :: body) id <$> find_block_comment_close_at nested (S d) l''
        | _ => Some ([], l'')
        end
      else if nested && (a =? slash)%N && (b =? star)%N
      then prod_map (fun body => a :: b :: body) id <$> find_block_comment_close_at nested (S depth) l''
      else prod_map (cons a) id <$> find_block_comment_close_at nested depth l'
  | _ => None
  end.

Definition find_block_comment_close (l : text) (nested : bool) : option (text * text) :=
  find_block_comment_close_at nested 1 l.

(** One comment per unit of fuel; a comment is at least one character long, so
    the length of the text is enough ([leading_executable_sql_fuel]). *)
Fixpoint leading_executable_sql_fuel (fuel : nat) (o : SqlParsingOptions.t) (s : text) : text :=
  let s := drop_while is_ascii_whitespace s in
  match fuel, s with
  | _, [] => []
  | O, _ => s
  | S fuel', c :: s1 =>
      if (c =? dash)%N && head_is dash s1
      then leading_executable_sql_fuel fuel' o (drop_while (fun c => negb (c =? nl)%N) (drop 1 s1))
      else if supports_hash_line_comments (profile o) && (c =? hash)%N
      then leading_executable_sql_fuel fuel' o (drop_while (fun c => negb (c =? nl)%N) s1)
      else if (c =? slash)%N && head_is star s1 then
        if is_mysql_executable_comment_start s then s
        else match find_block_comment_close (drop 1 s1) (supports_nested_block_comments (profile o)) with
             | None => []
             | Some (_, rest) => leading_executable_sql_fuel fuel' o rest
             end
      else s
  end.

Definition leading_executable_sql_with_options (s : text) (o : SqlParsingOptions.t) : text :=
  leading_executable_sql_fuel (length s) o s.

Definition leading_executable_sql (s : text) : text :=
  leading_executable_sql_with_options s SqlParsingOptions.default.

(** [is_sql_ident_char]. *)
Definition is_sql_ident_char (ch : char) : bool :=
  (ch =? under)%N || (ch =? dollar)%N || is_ascii_alphanumeric ch.

(** Characters consumed by a literal closed by [close], doubled to escape. *)
Fixpoint quoted_len (close : char) (l : text) : nat :=
  match l with
  | [] => 0
  | c :: l' =>
      if (c =? close)%N then
        match l' with
        | c' :: l'' => if (c' =? close)%N then S (S (quoted_len close l'')) else 1
        | [] => 1
        end
      else S (quoted_len close l')
  end.

(** Characters up to the end of a line comment, newline excluded. *)
Definition line_comment_len (l : text) : nat := length (take_while (fun c => negb (c =? nl)%N) l).

(** Characters up to and including the first [*/], or all of them. *)
Fixpoint block_comment_len (l : text) : nat :=
  match l with
  | [] => 0
  | c :: l' => if (c =? star)%N && head_is slash l' then 2 else S (block_comment_len l')
  end.

(** The first [limit] words of a text, comments skipped. *)
Inductive skip_mode : Set :=
| NotSkipping
| SkippingLine
| SkippingBlock (previous : option char).

Fixpoint first_sql_tokens_from (limit : nat) (mode : skip_mode) (token : text) (l : text) : list text :=
  match limit with
  | O => []
  | S limit' =>
      match l with
      | [] => if is_empty token then [] else [token]
      | ch :: rest =>
          match mode with
          | SkippingLine =>
              first_sql_tokens_from limit (if (ch =? nl)%N then NotSkipping else SkippingLine) token rest
          | SkippingBlock previous =>
              first_sql_tokens_from limit
                (if opt_is star previous && (ch =? slash)%N then NotSkipping else SkippingBlock (Some ch))
                token rest
          | NotSkipping =>
              match rest with
              | next :: rest' =>
                  if (ch =? dash)%N && (next =? dash)%N then
                    if is_empty token then first_sql_tokens_from limit SkippingLine token rest'
                    else token :: first_sql_tokens_from limit' SkippingLine [] rest'
                  else if (ch =? slash)%N && (next =? star)%N then
                    if is_empty token then first_sql_tokens_from limit (SkippingBlock None) token rest'
                    else token :: first_sql_tokens_from limit' (SkippingBlock None) [] rest'
                  else if is_ascii_alphanumeric ch || (ch =? under)%N
                  then first_sql_tokens_from limit NotSkipping (token ++ [ch]) rest
                  else if is_empty token then first_sql_tokens_from limit NotSkipping token rest
                  else token :: first_sql_tokens_from limit' NotSkipping [] rest
              | [] =>
                  if is_ascii_alphanumeric ch || (ch =? under)%N then [token ++ [ch]]
                  else if is_empty token then [] else [token]
              end
          end
      end
  end.

Definition first_sql_tokens (s : text) (limit : nat) : list text :=
  first_sql_tokens_from limit NotSkipping [] s.

(** [DELIMITER x]: the new delimiter. *)
Definition parse_delimiter_command (line : text) : option text :=
  let line := trim line in
  if eq_ignore_ascii_case line %"delimiter;" then Some [semi]
  else if (10 <? length line)
          && (eq_ignore_ascii_case (take 10 line) %"delimiter "
              || eq_ignore_ascii_case (take 10 line) (%"delimiter" ++ [tab])) then
    let rest := trim (drop 10 line) in
    if is_empty rest then None else Some rest
  else None.

Inductive PsqlControlCommand : Set := OnErrorStop | ClientDisplay.

(** [&line[line.find(needle)? + needle.len()..]]. *)
Fixpoint after_first (needle s : text) : option text :=
  if starts_with needle s then Some (drop (length needle) s)
  else match s with [] => None | _ :: s' => after_first needle s' end.

Definition parse_ignorable_psql_control_command (line : text) : option PsqlControlCommand :=
  match split_whitespace line with
  | [] => None
  | command :: parts =>
      if eq_ignore_ascii_case command (bslash :: %"echo") then
        match after_first command line with
        | None => None
        | Some arguments =>
            if existsb (fun c => (c =? bslash)%N || (c =? backtick)%N) arguments then None
            else Some ClientDisplay
        end
      else if eq_ignore_ascii_case command (bslash :: %"timing") then
        match parts with
        | [] => Some ClientDisplay
        | [value] =>
            if eq_ignore_ascii_case value %"on" || eq_ignore_ascii_case value %"off"
            then Some ClientDisplay else None
        | _ => None
        end
      else if negb (eq_ignore_ascii_case command (bslash :: %"set")) then None
      else match parts with
      | [variable; value] =>
          let v := lower value in
          if text_eqb (upper variable) %"ON_ERROR_STOP"
             && existsb (text_eqb v) [%"on"; %"true"; %"1"]
          then Some OnErrorStop
          else if text_eqb (upper variable) %"VERBOSITY"
                  && existsb (text_eqb v) [%"default"; %"verbose"; %"terse"; %"sqlstate"]
          then Some ClientDisplay
          else None
      | _ => None
      end
  end.

(** ** Facts *)

(** The shape of a dollar-quote tag: [$], tag characters, [$]. *)
Definition dollar_tag (tag : text) : Prop :=
  exists mid, tag = dollar :: mid ++ [dollar] /\ Forall (fun c => is_tag_char c = true) mid.

Lemma dollar_quote_tag_rest_shape l r :
  dollar_quote_tag_rest l = Some r ->
  exists mid rest, r = mid ++ [dollar] /\ Forall (fun c => is_tag_char c = true) mid /\ l = r ++ rest.
Proof.
  revert r. induction l as [|c l IH]; intros r; simpl; [done|].
  destruct (c =? dollar)%N eqn:Hc.
  - apply N.eqb_eq in Hc as ->. intros [= <-]. by exists [], l.
  - destruct (is_tag_char c) eqn:Ht; simpl; [|done].
    destruct (dollar_quote_tag_rest l) as [r'|]; simpl; [|done]. intros [= <-].
    destruct (IH r' eq_refl) as (mid & rest & -> & Hmid & ->). exists (c :: mid), rest. auto.
Qed.

(** A recognised tag has the tag shape and is read from the text. *)
Lemma dollar_quote_tag_at_shape l tag :
  dollar_quote_tag_at l = Some tag -> dollar_tag tag /\ exists rest, l = tag ++ rest.
Proof.
  destruct l as [|c0 [|c1 l]]; simpl; try done; [by case_match|].
  destruct (c0 =? dollar)%N eqn:H0; simpl; [|done]. apply N.eqb_eq in H0 as ->.
  destruct (c1 =? dollar)%N eqn:H1.
  - apply N.eqb_eq in H1 as ->. intros [= <-]. split; [by exists []|]. by exists l.
  - destruct (is_ascii_alphabetic c1 || (c1 =? under)%N) eqn:Hc1; [|done].
    destruct (dollar_quote_tag_rest l) as [r|] eqn:Hr; simpl; [|done]. intros [= <-].
    apply dollar_quote_tag_rest_shape in Hr as (mid & rest & -> & Hmid & ->).
    split; [|by exists rest]. exists (c1 :: mid). split; [done|]. constructor; [|done].
    unfold is_tag_char, is_ascii_alphanumeric.
    by destruct (is_ascii_alphabetic c1), (is_ascii_digit c1), (c1 =? under)%N.
Qed.

(** The test for executable SQL reads only two switches of the profile. *)
Lemma has_executable_sql_from_ext o1 o2 s :
  supports_nested_block_comments (profile o1) = supports_nested_block_comments (profile o2) ->
  supports_hash_line_comments (profile o1) = supports_hash_line_comments (profile o2) ->
  forall in_line depth prev,
  has_executable_sql_from o1 in_line depth prev s = has_executable_sql_from o2 in_line depth prev s.
Proof.
  intros Hn Hh. induction s as [|ch s IH]; intros in_line depth prev; [done|]. simpl. rewrite Hn, Hh, !IH.
  destruct depth; [done|]. by rewrite !IH.
Qed.

Lemma has_executable_sql_ext o1 o2 s :
  supports_nested_block_comments (profile o1) = supports_nested_block_comments (profile o2) ->
  supports_hash_line_comments (profile o1) = supports_hash_line_comments (profile o2) ->
  has_executable_sql_with_options s o1 = has_executable_sql_with_options s o2.
Proof. intros Hn Hh. by apply has_executable_sql_from_ext. Qed.

(** ** Comments are consumed from the front *)

Lemma find_block_comment_close_at_cons nested depth a b l :
  find_block_comment_close_at nested depth (a :: b :: l)
  = if (a =? star)%N && (b =? slash)%N then
      match depth with
      | S (S d) => prod_map (fun body => a :: b :: body) id <$> find_block_comment_close_at nested (S d) l
      | _ => Some ([], l)
      end
    else if nested && (a =? slash)%N && (b =? star)%N
    then prod_map (fun body => a :: b :: body) id <$> find_block_comment_close_at nested (S depth) l
    else prod_map (cons a) id <$> find_block_comment_close_at nested depth (b :: l).
Proof. done. Qed.

Lemma find_block_comment_close_at_split nested depth l body rest :
  find_block_comment_close_at nested depth l = Some (body, rest) -> l = body ++ [star; slash] ++ rest.
Proof.
  remember (length l) as n eqn:Hn. assert (length l <= n) as Hle by lia. clear Hn.
  revert depth l Hle body rest. induction n as [|n IH]; intros depth [|a [|b l]] Hle body rest Hf;
    cbn in Hle; try lia; try done.
  rewrite find_block_comment_close_at_cons in Hf.
  destruct ((a =? star)%N && (b =? slash)%N) eqn:Hclose.
  { apply andb_true_iff in Hclose as [->%N.eqb_eq ->%N.eqb_eq].
    destruct depth as [|[|d]]; [by simplify_eq..|].
    apply fmap_Some in Hf as ([body' rest'] & Hf & [= -> ->]). cbn.
    apply IH in Hf as ->; [done|lia]. }
  destruct (nested && _ && _).
  - apply fmap_Some in Hf as ([body' rest'] & Hf & [= -> ->]). apply IH in Hf as ->; [done|lia].
  - apply fmap_Some in Hf as ([body' rest'] & Hf & [= -> ->]). apply IH in Hf as ->; [done|cbn; lia].
Qed.

Lemma find_block_comment_close_suffix nested l body rest :
  find_block_comment_close l nested = Some (body, rest) -> rest `suffix_of` l.
Proof. intros ->%find_block_comment_close_at_split. rewrite app_assoc. by apply suffix_app_r. Qed.

Lemma drop_while_suffix {A} (p : A -> bool) l : drop_while p l `suffix_of` l.
Proof. destruct (drop_while_split p l) as (pre & Hl & _). by exists pre. Qed.

Lemma suffix_drop {A} n (l : list A) : drop n l `suffix_of` l.
Proof. exists (take n l). by rewrite take_drop. Qed.

(** * the executable head of a statement.

    [leading_executable_sql_with_options] skips the whitespace and the comments
    in front of a statement.  [LeadsTo] says what it skips, one lexical element
    at a time, and the theorem that the function computes it shows at the same
    time that the fuel of the model (the length of the text) is enough. *)

Import SqlDialectProfile.
Import SqlParsingOptions (profile).

(** The text starts with SQL to execute (or is over): neither whitespace nor a
    comment, executable comments excepted. *)
Definition at_sql (o : SqlParsingOptions.t) (r : text) : Prop :=
  match r with
  | [] => True
  | c :: r1 =>
      is_ascii_whitespace c = false
      /\ (c =? dash)%N && head_is dash r1 = false
      /\ supports_hash_line_comments (profile o) && (c =? hash)%N = false
      /\ ((c =? slash)%N && head_is star r1 = true -> is_mysql_executable_comment_start r = true)
  end.

(** A line comment's body: everything up to the newline or the end. *)
Definition line_body (body rest : text) : Prop :=
  Forall (fun c => c <> nl) body /\ (rest = [] \/ exists rest', rest = nl :: rest').

Inductive LeadsTo (o : SqlParsingOptions.t) : text -> text -> Prop :=
| leads_here r : at_sql o r -> LeadsTo o r r
| leads_whitespace c s r : is_ascii_whitespace c = true -> LeadsTo o s r -> LeadsTo o (c :: s) r
| leads_dashes body s r : line_body body s -> LeadsTo o s r -> LeadsTo o (dash :: dash :: body ++ s) r
| leads_hash body s r :
    supports_hash_line_comments (profile o) = true ->
    line_body body s -> LeadsTo o s r -> LeadsTo o (hash :: body ++ s) r
| leads_block body s r :
    is_mysql_executable_comment_start (slash :: star :: body ++ [star; slash] ++ s) = false ->
    find_block_comment_close (body ++ [star; slash] ++ s) (supports_nested_block_comments (profile o)) = Some (body, s) ->
    LeadsTo o s r -> LeadsTo o (slash :: star :: body ++ [star; slash] ++ s) r
| leads_open_block s :
    is_mysql_executable_comment_start (slash :: star :: s) = false ->
    find_block_comment_close s (supports_nested_block_comments (profile o)) = None ->
    LeadsTo o (slash :: star :: s) [].

Lemma line_body_split s :
  exists body, s = body ++ drop_while (fun c => negb (c =? nl)%N) s
    /\ line_body body (drop_while (fun c => negb (c =? nl)%N) s).
Proof.
  induction s as [|c s (body & Heq & Hb & Hr)]; cbn.
  { exists []. split; [done|]. split; [constructor|by left]. }
  destruct (N.eqb_spec c nl) as [->|Hc]; cbn.
  - exists []. split; [done|]. split; [constructor|right; by eexists].
  - exists (c :: body). cbn. rewrite <- Heq. split; [done|]. split; [by constructor|done].
Qed.

Lemma leads_drop_whitespace o s r : LeadsTo o (drop_while is_ascii_whitespace s) r -> LeadsTo o s r.
Proof.
  induction s as [|c s IH]; cbn; [done|]. destruct (is_ascii_whitespace c) eqn:Hc; [|done].
  intros Hl. by apply leads_whitespace, IH.
Qed.

Lemma suffix_le {A} (a b : list A) : a `suffix_of` b -> length a <= length b.
Proof. apply suffix_length. Qed.

Lemma head_is_cons c l : head_is c l = true -> exists l', l = c :: l'.
Proof. destruct l as [|x l]; cbn; [done|]. intros ->%N.eqb_eq. by eexists. Qed.

Lemma leading_fuel_leads fuel o s :
  length s <= fuel -> LeadsTo o s (leading_executable_sql_fuel fuel o s).
Proof.
  revert s. induction fuel as [|fuel IH]; intros s Hle; apply leads_drop_whitespace.
  { destruct s; [|cbn in Hle; lia]. by apply leads_here. }
  pose proof (suffix_le _ _ (drop_while_suffix is_ascii_whitespace s)) as Hd.
  cbn [leading_executable_sql_fuel].
  destruct (drop_while is_ascii_whitespace s) as [|c s1] eqn:Hs; [by apply leads_here|].
  apply drop_while_head in Hs as Hc. cbn in Hd.
  destruct ((c =? dash)%N && head_is dash s1) eqn:Hdash.
  { apply andb_true_iff in Hdash as [->%N.eqb_eq (s2 & ->)%head_is_cons]. change (drop 1 (_ :: s2)) with s2.
    destruct (line_body_split s2) as (body & Heq & Hb). rewrite Heq at 1.
    apply leads_dashes; [done|]. apply IH.
    apply (f_equal length) in Heq. rewrite length_app in Heq. cbn in Hd. lia. }
  destruct (supports_hash_line_comments (profile o) && (c =? hash)%N) eqn:Hhash.
  { apply andb_true_iff in Hhash as [Hh ->%N.eqb_eq].
    destruct (line_body_split s1) as (body & Heq & Hb). rewrite Heq at 1.
    apply leads_hash; [done..|]. apply IH.
    apply (f_equal length) in Heq. rewrite length_app in Heq. lia. }
  destruct ((c =? slash)%N && head_is star s1) eqn:Hblock; [|apply leads_here; repeat split; [done..|by rewrite Hblock]].
  destruct (is_mysql_executable_comment_start (c :: s1)) eqn:Hexec; [by apply leads_here; repeat split|].
  apply andb_true_iff in Hblock as [->%N.eqb_eq (s2 & ->)%head_is_cons]. change (drop 1 (_ :: s2)) with s2.
  destruct (find_block_comment_close s2 _) as [[body rest]|] eqn:Hf; [|by apply leads_open_block].
  pose proof (find_block_comment_close_at_split _ _ _ _ _ Hf) as ->.
  apply leads_block; [done..|]. apply IH. cbn in Hd. rewrite !length_app in Hd. cbn in Hd. lia.
Qed.

(** What is skipped is a prefix. *)
Lemma leads_to_suffix o s r : LeadsTo o s r -> r `suffix_of` s.
Proof.
  induction 1 as [| | body s r _ _ IH|body s r _ _ _ IH|body s r _ _ _ IH|].
  - done.
  - by apply suffix_cons_r.
  - by apply suffix_cons_r, suffix_cons_r, suffix_app_r.
  - by apply suffix_cons_r, suffix_app_r.
  - by apply suffix_cons_r, suffix_cons_r, suffix_app_r, suffix_cons_r, suffix_cons_r.
  - apply suffix_nil.
Qed.

Lemma leading_executable_sql_suffix o s : leading_executable_sql_with_options s o `suffix_of` s.
Proof. eapply leads_to_suffix, leading_fuel_leads. done. Qed.

(** The executable head of a statement is what is left after its leading
    whitespace and comments, each comment read to its end; the loop ends for
    every text, and the head is a suffix of the text. *)
Theorem leading_executable_sql_spec (o : SqlParsingOptions.t) (s : text) :
  LeadsTo o s (leading_executable_sql_with_options s o)
  /\ leading_executable_sql_with_options s o `suffix_of` s.
Proof. split; [by apply leading_fuel_leads|apply leading_executable_sql_suffix]. Qed.
