(* ===== verification/MysqlRoutine.v ===== *)
(** * MysqlRoutine: MySQL routine bodies ([sql.rs], [mysql_routine_tokens] and its clients).

    A MySQL [CREATE PROCEDURE ... BEGIN ... END] holds semicolons that do not
    end the statement.  [mysql_routine_tokens] reads the words and semicolons
    outside comments and literals, [mysql_routine_block_is_complete] balances
    [BEGIN]/[CASE] against [END]. *)

From S2P Require Import Prelude DbTypes Dialect Lexis.

Definition is_mysql_routine_ddl_start (sql : text) : bool :=
  let executable := leading_executable_sql_with_options sql SqlParsingOptions.mysql_compatible in
  match first_sql_tokens executable 16 with
  | first :: rest =>
      if negb (eq_ignore_ascii_case first %"CREATE") then false
      else (fix go (l : list text) : bool :=
              match l with
              | [] => false
              | token :: l' =>
                  if any_of token [%"PROCEDURE"; %"FUNCTION"; %"TRIGGER"; %"EVENT"] then true
                  else if any_of token
                    [%"DATABASE"; %"INDEX"; %"LOGFILE"; %"ROLE"; %"SCHEMA"; %"SERVER"; %"SPATIAL";
                     %"TABLE"; %"TEMPORARY"; %"UNIQUE"; %"USER"; %"VIEW"] then false
                  else go l'
              end) rest
  | [] => false
  end.

Module RoutineTokens.

Record st : Set := mk {
  in_line_comment : bool;
  in_block_comment : bool;
  in_single_quote : bool;
  in_double_quote : bool;
  in_backtick : bool
}.

Definition init : st := mk false false false false false.
Definition line : st := mk true false false false false.
Definition block : st := mk false true false false false.
Definition single : st := mk false false true false false.
Definition double : st := mk false false false true false.
Definition back : st := mk false false false false true.

(** One iteration of [mysql_routine_tokens].  At most one flag is set at a time,
    so setting one from the plain state and clearing it is the whole update. *)
Definition step (s : st) (ch : char) (rest : text) : st * list text * nat :=
  if in_line_comment s then ((if (ch =? nl)%N then init else s), [], 0)
  else if in_block_comment s then
    if (ch =? star)%N && head_is slash rest then (init, [], 1) else (s, [], 0)
  else if in_single_quote s then
    if (ch =? bslash)%N && negb (is_empty rest) then (s, [], 1)
    else if (ch =? squote)%N then
      if head_is squote rest then (s, [], 1) else (init, [], 0)
    else (s, [], 0)
  else if in_double_quote s then
    if (ch =? bslash)%N && negb (is_empty rest) then (s, [], 1)
    else if (ch =? dquote)%N then
      if head_is dquote rest then (s, [], 1) else (init, [], 0)
    else (s, [], 0)
  else if in_backtick s then
    if (ch =? backtick)%N then
      if head_is backtick rest then (s, [], 1) else (init, [], 0)
    else (s, [], 0)
  else if (ch =? dash)%N && head_is dash rest then (line, [], 1)
  else if (ch =? hash)%N then (line, [], 0)
  else if (ch =? slash)%N && head_is star rest then (block, [], 1)
  else if (ch =? squote)%N then (single, [], 0)
  else if (ch =? dquote)%N then (double, [], 0)
  else if (ch =? backtick)%N then (back, [], 0)
  else if (ch =? semi)%N then (s, [[semi]], 0)
  else if (ch =? under)%N || is_ascii_alphabetic ch then
    let word := take_while is_sql_ident_char rest in
    (s, [upper (ch :: word)], length word)
  else (s, [], 0).

End RoutineTokens.

Definition mysql_routine_tokens (sql : text) : list text :=
  snd (scan_loop RoutineTokens.step RoutineTokens.init 0 sql).

Definition starts_with_mysql_routine_block (sql : text) : bool :=
  is_mysql_routine_ddl_start sql
  && existsb (fun token => eq_ignore_ascii_case token %"BEGIN") (mysql_routine_tokens sql).

Inductive MysqlRoutineBlockType : Set := Begin | Case.

Definition is_mysql_control_block_suffix (token : text) : bool :=
  any_of token [%"IF"; %"LOOP"; %"CASE"; %"REPEAT"; %"WHILE"].

(** The nearest token that is not a semicolon. *)
Definition next_mysql_routine_word (after : list text) : option text :=
  find (fun token => negb (text_eqb token [semi])) after.

Definition is_case_block (b : MysqlRoutineBlockType) : bool :=
  match b with Case => true | Begin => false end.

(** The loop of [mysql_routine_block_is_complete]; [previous] is
    [previous_mysql_routine_word(&tokens, index)]. *)
Fixpoint mysql_routine_block_walk (previous : option text) (block_stack : list MysqlRoutineBlockType)
    (saw_begin : bool) (tokens : list text) : list MysqlRoutineBlockType * bool :=
  match tokens with
  | [] => (block_stack, saw_begin)
  | token :: rest =>
      if text_eqb token [semi] then mysql_routine_block_walk previous block_stack saw_begin rest
      else
        let after_end :=
          match previous with Some p => eq_ignore_ascii_case p %"END" | None => false end in
        if eq_ignore_ascii_case token %"BEGIN" then
          if after_end then mysql_routine_block_walk (Some token) block_stack saw_begin rest
          else mysql_routine_block_walk (Some token) (Begin :: block_stack) true rest
        else if eq_ignore_ascii_case token %"CASE" then
          if after_end then mysql_routine_block_walk (Some token) block_stack saw_begin rest
          else mysql_routine_block_walk (Some token) (Case :: block_stack) saw_begin rest
        else if eq_ignore_ascii_case token %"END" && saw_begin then
          let suffix := next_mysql_routine_word rest in
          if match suffix with Some next => eq_ignore_ascii_case next %"CASE" | None => false end then
            mysql_routine_block_walk (Some token)
              (match block_stack with
               | top :: below => if is_case_block top then below else block_stack
               | [] => []
               end) saw_begin rest
          else if match suffix with Some next => is_mysql_control_block_suffix next | None => false end
          then mysql_routine_block_walk (Some token) block_stack saw_begin rest
          else mysql_routine_block_walk (Some token) (tl block_stack) saw_begin rest
        else mysql_routine_block_walk (Some token) block_stack saw_begin rest
  end.

Definition mysql_routine_block_is_complete (sql : text) : bool :=
  if negb (starts_with_mysql_routine_block sql) then false
  else
    let tokens := mysql_routine_tokens sql in
    let '(block_stack, saw_begin) := mysql_routine_block_walk None [] false tokens in
    saw_begin && is_empty block_stack
    && match last tokens with Some token => text_eqb token [semi] | None => false end.

Example mysql_block_1 :
  mysql_routine_block_is_complete %"CREATE PROCEDURE p() BEGIN SELECT 1; END;" = true
  /\ mysql_routine_block_is_complete %"CREATE PROCEDURE p() BEGIN SELECT 1;" = false
  /\ mysql_routine_block_is_complete
       %"create procedure p() begin if a then select case when 1 then 2 end; end if; end;" = true
  /\ mysql_routine_block_is_complete %"CREATE TABLE t (a int);" = false.
Proof. by vm_compute. Qed.
