(* ===== verification/TSqlFlow.v ===== *)
(** * TSqlFlow: T-SQL control-flow batches ([sql.rs], [sqlserver_*]).

    [sqlserver_top_level_tokens] reads words and semicolons outside literals,
    bracketed identifiers, comments and parentheses.  A batch that opens with
    [IF], [WHILE] or a real [BEGIN] block stays whole until its blocks are
    closed ([sqlserver_control_flow_open_blocks]); an [END] without its own
    semicolon is a boundary inside the fragment
    ([sqlserver_control_flow_batch_boundary]).  Token offsets count characters
    from the start of the text read. *)

From S2P Require Import Prelude DbTypes Dialect Lexis.

Record SqlServerTopLevelToken : Set := mk_token { tok_text : text; tok_start : nat; tok_end : nat }.

Definition is_word (t : SqlServerTopLevelToken) (keyword : text) : bool :=
  eq_ignore_ascii_case (tok_text t) keyword.

Definition opt_is_word (t : option SqlServerTopLevelToken) (keyword : text) : bool :=
  match t with Some t => is_word t keyword | None => false end.

Definition is_tsql_word_char (c : char) : bool :=
  (c =? under)%N || is_ascii_alphanumeric c || (c =? dollar)%N.

(** One iteration of [sqlserver_top_level_tokens]; the state is the index and
    the parenthesis depth. *)
Definition sqlserver_token_step (s : nat * nat) (b : char) (rest : text)
    : (nat * nat) * list SqlServerTopLevelToken * nat :=
  let '(index, paren_depth) := s in
  let go n tokens := ((S (index + n), paren_depth), tokens, n) in
  if (b =? squote)%N || (b =? dquote)%N then go (quoted_len b rest) []
  else if (b =? lbracket)%N then go (quoted_len rbracket rest) []
  else if (b =? dash)%N && head_is dash rest then go (S (line_comment_len (drop 1 rest))) []
  else if (b =? slash)%N && head_is star rest then go (S (block_comment_len (drop 1 rest))) []
  else if (b =? lparen)%N then ((S index, S paren_depth), [], 0)
  else if (b =? rparen)%N then ((S index, pred paren_depth), [], 0)
  else if (b =? semi)%N && (paren_depth =? 0) then go 0 [mk_token [semi] index (S index)]
  else if (paren_depth =? 0) && ((b =? under)%N || is_ascii_alphabetic b) then
    let word := take_while is_tsql_word_char rest in
    go (length word) [mk_token (b :: word) index (S (index + length word))]
  else go 0 [].

Definition sqlserver_top_level_tokens (sql : text) : list SqlServerTopLevelToken :=
  snd (scan_loop sqlserver_token_step (0, 0) 0 sql).

(** [sqlserver_begins_block(&tokens, index)]; [after] is [tokens[index + 1..]]. *)
Definition sqlserver_begins_block (after : list SqlServerTopLevelToken) : bool :=
  match after with
  | [] => false
  | next :: _ =>
      negb (text_eqb (tok_text next) [semi])
      && negb (any_of (tok_text next) [%"TRANSACTION"; %"TRAN"; %"DISTRIBUTED"; %"DIALOG"; %"CONVERSATION"])
  end.

Definition keeps_sqlserver_control_flow_batch (o : SqlParsingOptions.t) (statement_head : text) : bool :=
  if negb (SqlDialectProfile.keeps_sqlserver_control_flow_batches (SqlParsingOptions.profile o)) then false
  else match sqlserver_top_level_tokens statement_head with
  | [] => false
  | first :: after =>
      if is_word first %"IF" || is_word first %"WHILE" then true
      else is_word first %"BEGIN" && sqlserver_begins_block after
  end.

(** [END CONVERSATION]/[END DIALOG] close a conversation, not a block. *)
Definition closes_conversation (after : list SqlServerTopLevelToken) : bool :=
  opt_is_word (after !! 0) %"CONVERSATION" || opt_is_word (after !! 0) %"DIALOG".

(** [END TRY] immediately followed by [BEGIN CATCH]. *)
Definition continues_into_catch (after : list SqlServerTopLevelToken) : bool :=
  opt_is_word (after !! 0) %"TRY" && opt_is_word (after !! 1) %"BEGIN" && opt_is_word (after !! 2) %"CATCH".

Fixpoint sqlserver_open_blocks_from (depth : nat) (carried_try : bool)
    (tokens : list SqlServerTopLevelToken) : nat :=
  match tokens with
  | [] => depth
  | token :: after =>
      if is_word token %"BEGIN" then
        if negb (sqlserver_begins_block after) then sqlserver_open_blocks_from depth carried_try after
        else if carried_try then sqlserver_open_blocks_from depth false after
        else sqlserver_open_blocks_from (S depth) carried_try after
      else if is_word token %"CASE" then sqlserver_open_blocks_from (S depth) carried_try after
      else if negb (is_word token %"END") then sqlserver_open_blocks_from depth carried_try after
      else if closes_conversation after then sqlserver_open_blocks_from depth carried_try after
      else if continues_into_catch after then sqlserver_open_blocks_from depth true after
      else sqlserver_open_blocks_from (pred depth) false after
  end.

Definition sqlserver_control_flow_open_blocks (sql : text) : nat :=
  sqlserver_open_blocks_from 0 false (sqlserver_top_level_tokens sql).

Definition sqlserver_control_flow_batch_is_complete (sql : text) : bool :=
  sqlserver_control_flow_open_blocks sql =? 0.

(** [sqlserver_control_flow_batch_boundary]: the two nested loops over one token
    list; [start_depth] is [fragment_start_depth], and the state of the inner
    loop is re-initialised at each semicolon. *)
Fixpoint sqlserver_boundary_from (start_depth depth : nat) (carried_try : bool)
    (boundary : option (nat * text)) (tokens : list SqlServerTopLevelToken) : option nat :=
  let fragment_boundary :=
    match boundary with
    | Some (offset, word_after) => if eq_ignore_ascii_case word_after %"ELSE" then None else Some offset
    | None => None
    end in
  match tokens with
  | [] => fragment_boundary
  | token :: after =>
      if is_word token [semi] then
        match fragment_boundary with
        | Some offset => Some offset
        | None => sqlserver_boundary_from depth depth false None after
        end
      else if is_word token %"BEGIN" then
        if sqlserver_begins_block after then
          if carried_try then sqlserver_boundary_from start_depth depth false boundary after
          else sqlserver_boundary_from start_depth (S depth) carried_try boundary after
        else sqlserver_boundary_from start_depth depth carried_try boundary after
      else if is_word token %"CASE" then
        sqlserver_boundary_from start_depth (S depth) carried_try boundary after
      else if negb (is_word token %"END") then
        sqlserver_boundary_from start_depth depth carried_try boundary after
      else if closes_conversation after then
        sqlserver_boundary_from start_depth depth carried_try boundary after
      else if continues_into_catch after then
        sqlserver_boundary_from start_depth depth true boundary after
      else
        let depth := pred depth in
        let boundary :=
          if (0 <? start_depth) && (depth =? 0) then
            let found :=
              match after with
              | next :: after' =>
                  if is_word next %"TRY" || is_word next %"CATCH"
                  then (tok_end next, from_option tok_text [] (head after'))
                  else (tok_end token, tok_text next)
              | [] => (tok_end token, [])
              end in
            match boundary with
            | None => Some found
            | Some (_, word) => if eq_ignore_ascii_case word %"ELSE" then Some found else boundary
            end
          else boundary in
        sqlserver_boundary_from start_depth depth false boundary after
  end.

Definition sqlserver_control_flow_batch_boundary (sql : text) : option nat :=
  sqlserver_boundary_from 0 0 false None (sqlserver_top_level_tokens sql).

(** ** Blocks of a batch, for the statement under the cursor *)

Inductive SqlServerBlockKind : Set := BlockBegin | BlockCase.

Record SqlServerBlockFrame : Set :=
  mk_frame { frame_kind : SqlServerBlockKind; frame_start : nat; frame_control_statement : bool }.

Record SqlServerControlFlowBlock : Set :=
  mk_block { block_start : nat; block_end : nat; block_control_statement : bool }.

Definition is_begin_frame (frame : SqlServerBlockFrame) : bool :=
  match frame_kind frame with BlockBegin => true | BlockCase => false end.

Definition block_of_frame (frame : SqlServerBlockFrame) (end_ : nat) : SqlServerControlFlowBlock :=
  mk_block (frame_start frame) end_ (frame_control_statement frame).

(** The token loop of [sqlserver_top_level_blocks] and what follows it; the top
    of [stack] is its head, [sql_len] the length of the batch. *)
Fixpoint sqlserver_blocks_from (sql_len : nat) (stack : list SqlServerBlockFrame)
    (pending_try : option SqlServerBlockFrame) (in_control_statement : bool)
    (tokens : list SqlServerTopLevelToken) : list SqlServerControlFlowBlock :=
  match tokens with
  | [] =>
      match pending_try with
      | Some frame => [block_of_frame frame sql_len]
      | None =>
          match last stack with
          | Some frame => if is_begin_frame frame then [block_of_frame frame sql_len] else []
          | None => []
          end
      end
  | token :: after =>
      if text_eqb (tok_text token) [semi] then sqlserver_blocks_from sql_len stack pending_try false after
      else if is_word token %"IF" || is_word token %"WHILE" || is_word token %"ELSE"
      then sqlserver_blocks_from sql_len stack pending_try true after
      else if is_word token %"BEGIN" then
        if negb (sqlserver_begins_block after)
        then sqlserver_blocks_from sql_len stack pending_try in_control_statement after
        else
          let new_frame := mk_frame BlockBegin (tok_start token) in_control_statement in
          let frame :=
            match pending_try with
            | Some frame => if is_empty stack then frame else new_frame
            | None => new_frame
            end in
          sqlserver_blocks_from sql_len (frame :: stack) None in_control_statement after
      else if is_word token %"CASE" then
        sqlserver_blocks_from sql_len (mk_frame BlockCase (tok_start token) in_control_statement :: stack)
          pending_try in_control_statement after
      else if negb (is_word token %"END") then sqlserver_blocks_from sql_len stack pending_try in_control_statement after
      else if closes_conversation after then sqlserver_blocks_from sql_len stack pending_try in_control_statement after
      else match stack with
      | [] => sqlserver_blocks_from sql_len stack pending_try in_control_statement after
      | frame :: stack' =>
          if negb (is_begin_frame frame) || negb (is_empty stack')
          then sqlserver_blocks_from sql_len stack' pending_try in_control_statement after
          else
            let end_ :=
              match after with
              | next :: _ => if is_word next %"TRY" || is_word next %"CATCH" then tok_end next else tok_end token
              | [] => tok_end token
              end in
            if continues_into_catch after
            then sqlserver_blocks_from sql_len stack' (Some frame) in_control_statement after
            else block_of_frame frame end_
                 :: sqlserver_blocks_from sql_len stack' pending_try in_control_statement after
      end
  end.

Definition sqlserver_top_level_blocks (sql : text) : list SqlServerControlFlowBlock :=
  sqlserver_blocks_from (length sql) [] None false (sqlserver_top_level_tokens sql).

Definition starts_with_sqlserver_control_flow_batch (sql : text) : bool :=
  match sqlserver_top_level_tokens sql with
  | [] => false
  | (first :: after) as tokens =>
      let has keyword := existsb (fun token => is_word token keyword) tokens in
      if is_word first %"IF" then has %"ELSE" && has %"BEGIN" && has %"END"
      else is_word first %"BEGIN" && sqlserver_begins_block after && has %"END"
  end.

(** [sqlserver_control_flow_statement_at]; slicing a block out of the batch
    panics when the block ends before it starts or after the batch. *)
Definition sqlserver_control_flow_statement_at (sql : text) (cursor : option nat) : outcome (option text) :=
  if starts_with_sqlserver_control_flow_batch sql then Returns (Some sql)
  else
    let blocks := sqlserver_top_level_blocks sql in
    let block :=
      match cursor with
      | Some cursor => head (filter (fun b => block_start b <= cursor /\ cursor <= block_end b) blocks)
      | None => last blocks
      end in
    match block with
    | None => Returns None
    | Some block =>
        if block_control_statement block || match cursor with None => true | Some _ => false end
        then Returns (Some sql)
        else do slice <- slice_text sql (block_start block) (block_end block); Returns (Some slice)
    end.

Definition is_sqlserver_module_keyword (token : text) : bool :=
  any_of token [%"FUNCTION"; %"PROC"; %"PROCEDURE"; %"TRIGGER"; %"VIEW"].

Definition starts_with_sqlserver_module_ddl (sql : text) : bool :=
  let second tokens :=
    match tokens with
    | t0 :: t1 :: _ =>
        (eq_ignore_ascii_case t0 %"CREATE" || eq_ignore_ascii_case t0 %"ALTER") && is_sqlserver_module_keyword t1
    | _ => false
    end in
  match first_sql_tokens sql 4 with
  | (t0 :: t1 :: t2 :: t3 :: _) as tokens =>
      if eq_ignore_ascii_case t0 %"CREATE" && eq_ignore_ascii_case t1 %"OR" && eq_ignore_ascii_case t2 %"ALTER"
      then is_sqlserver_module_keyword t3 else second tokens
  | tokens => second tokens
  end.

Example tsql_1 :
  keeps_sqlserver_control_flow_batch (SqlParsingOptions.for_database_type SqlServer) %"BEGIN TRY SELECT 1" = true
  /\ keeps_sqlserver_control_flow_batch (SqlParsingOptions.for_database_type SqlServer) %"BEGIN TRAN" = false
  /\ sqlserver_control_flow_open_blocks %"BEGIN TRY SELECT 1; END TRY BEGIN CATCH SELECT 2;" = 1
  /\ sqlserver_control_flow_open_blocks %"BEGIN TRY SELECT 1; END TRY BEGIN CATCH SELECT 2; END CATCH" = 0
  /\ sqlserver_control_flow_batch_boundary %"IF 1=1 BEGIN SELECT 1; END SELECT 2" = Some 26.
Proof. by vm_compute. Qed.
