(* ===== verification/PlSql.v ===== *)
(** * PlSql: Oracle PL/SQL blocks, HANA script blocks, Firebird routines ([sql.rs]).

    A statement is reduced to words, quoted identifiers, semicolons and "other"
    tokens.  [OraclePlSqlBlock] decides from the header whether the statement is
    a PL/SQL block, [OraclePlSqlBlockWalk] walks the [BEGIN]/[END] scopes,
    and [OraclePlSqlBlockTracker] does both incrementally, one semicolon at a
    time.  The tokens come from the third-party crate [sqlparser] (the class
    [OracleTokenizer], a parameter) with a fallback written in the source. *)

From S2P Require Import Prelude DbTypes Dialect Lexis.

(** The cases [OraclePlSqlToken::from_sqlparser_token] distinguishes among the
    tokens of [sqlparser::tokenizer::Token]. *)
Inductive SqlparserToken : Set :=
| TokWord (value : text) (quoted : bool)
| TokSemiColon
| TokWhitespace
| TokPlaceholder
| TokAnother.

(** [Tokenizer::new(&OracleDialect {}, sql).tokenize().ok()]. *)
Class OracleTokenizer := { oracle_tokenize : text -> option (list SqlparserToken) }.

Inductive OraclePlSqlToken : Set :=
| Word (value : text)
| QuotedIdentifier
| Semicolon
| Other.

#[export] Instance OraclePlSqlToken_eq_dec : EqDecision OraclePlSqlToken.
Proof. solve_decision. Defined.

Definition from_sqlparser_token (t : SqlparserToken) : option OraclePlSqlToken :=
  match t with
  | TokWord value quoted => if quoted then Some QuotedIdentifier else Some (Word (upper value))
  | TokSemiColon => Some Semicolon
  | TokWhitespace | TokPlaceholder => None
  | TokAnother => Some Other
  end.

Definition as_word (t : OraclePlSqlToken) : option text :=
  match t with Word value => Some value | _ => None end.
Definition is_word (t : OraclePlSqlToken) (expected : text) : bool :=
  match t with Word value => text_eqb value expected | _ => false end.
Definition is_any_word (t : OraclePlSqlToken) (expected : list text) : bool := existsb (is_word t) expected.
Definition is_semicolon (t : OraclePlSqlToken) : bool :=
  match t with Semicolon => true | _ => false end.
Definition opt_word (t : option OraclePlSqlToken) : option text :=
  match t with Some t => as_word t | None => None end.
Definition opt_is_word (t : option OraclePlSqlToken) (expected : text) : bool :=
  match t with Some t => is_word t expected | None => false end.
Definition opt_is_any_word (t : option OraclePlSqlToken) (expected : list text) : bool :=
  match t with Some t => is_any_word t expected | None => false end.
(** A word of the token stream, compared with string literals. *)
Definition word_in (w : option text) (expected : list text) : bool :=
  match w with Some w => existsb (text_eqb w) expected | None => false end.

(** Consecutive [Other] tokens are pushed once ([push_other_token]). *)
Definition push_mapped (out : list OraclePlSqlToken) (t : OraclePlSqlToken) : list OraclePlSqlToken :=
  match t with
  | Other => if bool_decide (last out = Some Other) then out else out ++ [Other]
  | _ => out ++ [t]
  end.

Definition take_until (c : char) (l : text) : nat :=
  length (take_while (fun x => negb (x =? c)%N) l) + (if existsb (char_eqb c) l then 1 else 0).

Definition is_plsql_word_char (c : char) : bool :=
  is_ascii_alphanumeric c || (c =? under)%N || (c =? dollar)%N || (c =? hash)%N.

(** One iteration of [oracle_plsql_tokens_fallback]; the state says whether the
    last token pushed is [Other]. *)
Definition plsql_fallback_step (last_other : bool) (ch : char) (rest : text)
    : bool * list OraclePlSqlToken * nat :=
  if is_whitespace ch then (last_other, [], 0)
  else if (ch =? dash)%N && head_is dash rest then (last_other, [], S (take_until nl (drop 1 rest)))
  else if (ch =? slash)%N && head_is star rest then (last_other, [], S (block_comment_len (drop 1 rest)))
  else if (ch =? squote)%N then (true, (if last_other then [] else [Other]), quoted_len squote rest)
  else if (ch =? dquote)%N then (false, [QuotedIdentifier], take_until dquote rest)
  else if (ch =? semi)%N then (false, [Semicolon], 0)
  else if is_ascii_alphabetic ch || (ch =? under)%N then
    let word := take_while is_plsql_word_char rest in
    (false, [Word (upper (ch :: word))], length word)
  else (true, (if last_other then [] else [Other]), 0).

Definition oracle_plsql_tokens_fallback (sql : text) : list OraclePlSqlToken :=
  snd (scan_loop plsql_fallback_step false 0 sql).

Definition oracle_plsql_tokens `{OracleTokenizer} (sql : text) : list OraclePlSqlToken :=
  match oracle_tokenize sql with
  | Some tokens =>
      fold_left (fun out token =>
        match from_sqlparser_token token with Some mapped => push_mapped out mapped | None => out end)
        tokens []
  | None => oracle_plsql_tokens_fallback sql
  end.

(** ** PL/SQL blocks *)

Inductive OraclePlSqlCreateObjectKind : Set := Spec | Body.

Inductive OraclePlSqlScope : Set :=
| SObject
| SDeclaration
| SRoutineHeader
| SRoutine
| SBlock
| SCase.

Module OraclePlSqlBlock.

(** [OraclePlSqlBlock] holds the tokens of a statement. *)
Abbreviation t := (list OraclePlSqlToken) (only parsing).

Fixpoint skip_create_modifiers (tokens : t) : t :=
  match tokens with
  | a :: ((b :: tail) as rest) =>
      if is_word a %"OR" && is_word b %"REPLACE" then skip_create_modifiers tail
      else if is_any_word a [%"FORCE"; %"NOFORCE"; %"EDITIONABLE"; %"NONEDITIONABLE"]
      then skip_create_modifiers rest
      else tokens
  | [a] => if is_any_word a [%"FORCE"; %"NOFORCE"; %"EDITIONABLE"; %"NONEDITIONABLE"] then [] else tokens
  | [] => []
  end.

Definition is_transaction_begin_tail (token : OraclePlSqlToken) : bool :=
  is_semicolon token || is_any_word token [%"TRANSACTION"; %"WORK"].

Definition is_package_or_type_body (tokens : t) : bool :=
  match tokens with
  | object :: body :: _ => is_any_word object [%"PACKAGE"; %"TYPE"] && is_word body %"BODY"
  | _ => false
  end.

Definition starts_create_plsql_object (tokens : t) : bool :=
  let tokens := skip_create_modifiers tokens in
  if is_package_or_type_body tokens then true
  else match tokens with
  | object :: _ =>
      if is_word object %"TYPE" then false
      else is_any_word object [%"FUNCTION"; %"PROCEDURE"; %"TRIGGER"; %"PACKAGE"]
  | [] => false
  end.

Definition starts_with_function_declaration (block : t) : bool :=
  match block with
  | first :: second :: _ => is_word first %"WITH" && is_any_word second [%"FUNCTION"; %"PROCEDURE"]
  | _ => false
  end.

Definition starts_block (block : t) : bool :=
  match block with
  | [] => false
  | first :: rest =>
      if is_word first %"DECLARE" then true
      else if is_word first %"BEGIN"
              && match rest with second :: _ => negb (is_transaction_begin_tail second) | [] => false end
      then true
      else if starts_with_function_declaration block then true
      else if is_word first %"CREATE" then starts_create_plsql_object rest
      else false
  end.

Fixpoint routine_body_starts_with_plsql_keyword (tokens : t) : bool :=
  match tokens with
  | [] => false
  | token :: rest =>
      if negb (is_any_word token [%"AS"; %"IS"]) then routine_body_starts_with_plsql_keyword rest
      else opt_is_any_word (head rest) [%"DECLARE"; %"BEGIN"]
  end.

Definition starts_oracle_style_routine_body (block : t) : bool :=
  match block with
  | [] => false
  | first :: rest =>
      if negb (is_word first %"CREATE") then false
      else
        let rest := skip_create_modifiers rest in
        if is_package_or_type_body rest then true
        else match rest with
        | object :: _ =>
            if is_any_word object [%"FUNCTION"; %"PROCEDURE"]
            then routine_body_starts_with_plsql_keyword rest else false
        | [] => false
        end
  end.

Fixpoint windows_compound_trigger (tokens : t) : bool :=
  match tokens with
  | a :: ((b :: _) as rest) =>
      (is_word a %"COMPOUND" && is_word b %"TRIGGER") || windows_compound_trigger rest
  | _ => false
  end.

Definition ends_trigger_header (token : OraclePlSqlToken) : bool :=
  is_semicolon token || is_any_word token [%"BEGIN"; %"DECLARE"; %"CALL"].

Definition is_compound_trigger_header (tokens : t) : bool :=
  windows_compound_trigger (take_while (fun token => negb (ends_trigger_header token)) tokens).

Definition create_object_kind (block : t) : option OraclePlSqlCreateObjectKind :=
  match block with
  | [] => None
  | first :: rest =>
      if negb (is_word first %"CREATE") then None
      else
        let tokens := skip_create_modifiers rest in
        if is_package_or_type_body tokens then Some Body
        else match tokens with
        | object :: header =>
            if is_word object %"TRIGGER" && is_compound_trigger_header header then Some Body
            else if is_word object %"PACKAGE" then Some Spec
            else None
        | [] => None
        end
  end.

Definition is_create_routine (block : t) : bool :=
  match block with
  | [] => false
  | first :: rest =>
      is_word first %"CREATE"
      && opt_is_any_word (head (skip_create_modifiers rest)) [%"PROCEDURE"; %"FUNCTION"]
  end.

(** The loop of [with_function_is_complete]; [previous] is the token before,
    [None] at index 0. *)
Fixpoint with_function_walk (previous : option OraclePlSqlToken) (scopes : list OraclePlSqlScope)
    (in_main_query : bool) (tokens : t) : bool :=
  match tokens with
  | [] => false
  | token :: rest =>
      if is_semicolon token then
        if in_main_query && is_empty scopes then true
        else with_function_walk (Some token) scopes in_main_query rest
      else match as_word token with
      | None => with_function_walk (Some token) scopes in_main_query rest
      | Some word =>
          if (match previous with Some _ => true | None => false end) && is_empty scopes
             && existsb (text_eqb word)
                  [%"SELECT"; %"INSERT"; %"UPDATE"; %"DELETE"; %"MERGE"; %"WITH"]
          then with_function_walk (Some token) scopes true rest
          else if text_eqb word %"BEGIN"
          then with_function_walk (Some token) (SBlock :: scopes) in_main_query rest
          else if text_eqb word %"CASE" && negb (word_in (opt_word previous) [%"END"])
          then with_function_walk (Some token) (SCase :: scopes) in_main_query rest
          else if text_eqb word %"END" then
            let next := opt_word (head rest) in
            if word_in next [%"IF"; %"LOOP"] then with_function_walk (Some token) scopes in_main_query rest
            else if word_in next [%"CASE"]
                    && negb (match scopes with SCase :: _ => true | _ => false end)
            then with_function_walk (Some token) scopes in_main_query rest
            else with_function_walk (Some token) (tl scopes) in_main_query rest
          else with_function_walk (Some token) scopes in_main_query rest
      end
  end.

Definition ends_with_semicolon (block : t) : bool :=
  match last block with Some token => is_semicolon token | None => false end.

Definition with_function_is_complete (block : t) : bool :=
  if negb (ends_with_semicolon block) then false else with_function_walk None [] false block.

Definition completion_without_block_walk (block : t) : option bool :=
  if negb (starts_block block) then Some false
  else if starts_with_function_declaration block then Some (with_function_is_complete block)
  else match block with
  | first :: rest =>
      if is_word first %"CREATE" then
        let object := skip_create_modifiers rest in
        if opt_is_word (head object) %"TRIGGER"
           && opt_is_word (find (fun token => is_any_word token [%"BEGIN"; %"DECLARE"; %"COMPOUND"; %"CALL"]) object)
                %"CALL"
        then Some (ends_with_semicolon block)
        else None
      else None
  | [] => None
  end.

End OraclePlSqlBlock.
Import OraclePlSqlBlock.

Module OraclePlSqlBlockWalk.

Record t : Set := mk {
  object_kind : option OraclePlSqlCreateObjectKind;
  scopes : list OraclePlSqlScope;
  awaiting_routine_declarations : bool;
  saw_begin : bool;
  complete : bool;
  next_index : nat
}.

Definition new (block : list OraclePlSqlToken) : t :=
  {| object_kind := create_object_kind block;
     scopes := match create_object_kind block with Some _ => [SObject] | None => [] end;
     awaiting_routine_declarations := is_create_routine block;
     saw_begin := false;
     complete := false;
     next_index := 0 |}.

Definition with_scopes (s : list OraclePlSqlScope) (w : t) : t :=
  mk (object_kind w) s (awaiting_routine_declarations w) (saw_begin w) (complete w) (next_index w).

Definition top_is (p : OraclePlSqlScope -> bool) (s : list OraclePlSqlScope) : bool :=
  match s with top :: _ => p top | [] => false end.

Definition is_declaration (s : OraclePlSqlScope) : bool := match s with SDeclaration => true | _ => false end.
Definition is_header (s : OraclePlSqlScope) : bool := match s with SRoutineHeader => true | _ => false end.
Definition is_case (s : OraclePlSqlScope) : bool := match s with SCase => true | _ => false end.
Definition is_declaration_or_routine (s : OraclePlSqlScope) : bool :=
  match s with SDeclaration | SRoutine => true | _ => false end.

(** [OraclePlSqlBlockWalk::step]: [token] is [tokens[index]], [previous] and
    [next] its neighbours; the scope stack's top is the list's head. *)
Definition step_token (previous : option OraclePlSqlToken) (token : OraclePlSqlToken)
    (next : option OraclePlSqlToken) (w : t) : t :=
  let s := scopes w in
  if is_semicolon token then
    if top_is is_header s then with_scopes (tl s) w else w
  else if awaiting_routine_declarations w && is_any_word token [%"IS"; %"AS"] then
    mk (object_kind w) (SDeclaration :: s) false (saw_begin w) (complete w) (next_index w)
  else if is_word token %"DECLARE" then
    if top_is is_declaration s then w else with_scopes (SDeclaration :: s) w
  else if is_any_word token [%"PROCEDURE"; %"FUNCTION"] && top_is is_declaration_or_routine s then
    with_scopes (SRoutineHeader :: s) w
  else if is_any_word token [%"IS"; %"AS"] && top_is is_header s then
    with_scopes (SRoutine :: tl s) w
  else if is_word token %"BEGIN" then
    mk (object_kind w) (if top_is is_declaration_or_routine s then SBlock :: tl s else SBlock :: s)
       (awaiting_routine_declarations w) true false (next_index w)
  else if is_word token %"CASE" then
    if negb (word_in (opt_word previous) [%"END"]) then with_scopes (SCase :: s) w else w
  else if is_word token %"END" then
    if word_in (opt_word next) [%"IF"; %"LOOP"] then w
    else if word_in (opt_word next) [%"CASE"] && negb (top_is is_case s) then w
    else match s with
         | _ :: below =>
             mk (object_kind w) below (awaiting_routine_declarations w) (saw_begin w) (is_empty below) (next_index w)
         | [] => w
         end
  else w.

Definition step (tokens : list OraclePlSqlToken) (index : nat) (w : t) : t :=
  match tokens !! index with
  | Some token =>
      step_token (match index with S i => tokens !! i | O => None end) token (tokens !! S index) w
  | None => w
  end.

Definition bump (w : t) : t :=
  mk (object_kind w) (scopes w) (awaiting_routine_declarations w) (saw_begin w) (complete w) (S (next_index w)).

Fixpoint advance_by (n : nat) (tokens : list OraclePlSqlToken) (w : t) : t :=
  match n with
  | O => w
  | S n' => advance_by n' tokens (bump (step tokens (next_index w) w))
  end.

(** [while self.next_index < tokens.len()]: that many iterations are left. *)
Definition advance (tokens : list OraclePlSqlToken) (w : t) : t :=
  advance_by (length tokens - next_index w) tokens w.

Definition is_complete (w : t) : bool :=
  match object_kind w with
  | Some _ => complete w
  | None => saw_begin w && complete w
  end.

End OraclePlSqlBlockWalk.

Definition block_is_complete (block : list OraclePlSqlToken) : bool :=
  match completion_without_block_walk block with
  | Some complete => complete
  | None => OraclePlSqlBlockWalk.is_complete (OraclePlSqlBlockWalk.advance block (OraclePlSqlBlockWalk.new block))
  end.

Section WithTokenizer.

Context `{OracleTokenizer}.

Definition oracle_plsql_block_is_complete (sql : text) : bool := block_is_complete (oracle_plsql_tokens sql).

Definition keeps_oracle_style_block_together (o : SqlParsingOptions.t) (statement_head : text) : bool :=
  if SqlDialectProfile.supports_oracle_plsql_blocks (SqlParsingOptions.profile o)
  then starts_block (oracle_plsql_tokens statement_head)
  else SqlDialectProfile.supports_oracle_style_routine_bodies (SqlParsingOptions.profile o)
       && starts_oracle_style_routine_body (oracle_plsql_tokens statement_head).

Definition starts_with_postgres_dollar_quoted_routine_prefix (sql : text) : bool :=
  let tokens := oracle_plsql_tokens sql in
  match tokens with
  | [] => false
  | first :: rest =>
      if negb (is_word first %"CREATE") then false
      else opt_is_any_word (head (skip_create_modifiers rest)) [%"FUNCTION"; %"PROCEDURE"]
           && match find (fun token => match as_word token with Some _ => true | None => false end) (rev tokens) with
              | Some token => is_word token %"AS"
              | None => false
              end
  end.

End WithTokenizer.

(** ** The incremental tracker *)

Module OraclePlSqlBlockTracker.

Record t : Set := mk {
  block : list OraclePlSqlToken;
  scanned_len : nat;
  walk : option OraclePlSqlBlockWalk.t
}.

Definition default : t := mk [] 0 None.

Section Tracker.

Context `{OracleTokenizer}.

Definition scan (statement : text) (tr : t) : t :=
  let tr := if length statement <? scanned_len tr then default else tr in
  mk (block tr ++ oracle_plsql_tokens (drop (scanned_len tr) statement)) (length statement) (walk tr).

Definition keeps_block_together (o : SqlParsingOptions.t) (statement_head : text) (tr : t) : bool * t :=
  if negb (SqlDialectProfile.supports_oracle_plsql_blocks (SqlParsingOptions.profile o))
     && negb (SqlDialectProfile.supports_oracle_style_routine_bodies (SqlParsingOptions.profile o))
  then (false, tr)
  else
    let tr := scan statement_head tr in
    if SqlDialectProfile.supports_oracle_plsql_blocks (SqlParsingOptions.profile o)
    then (starts_block (block tr), tr)
    else (starts_oracle_style_routine_body (block tr), tr).

Definition is_complete (statement : text) (tr : t) : bool * t :=
  let tr := scan statement tr in
  match completion_without_block_walk (block tr) with
  | Some complete => (complete, tr)
  | None =>
      let w := match walk tr with Some w => w | None => OraclePlSqlBlockWalk.new (block tr) end in
      let w := OraclePlSqlBlockWalk.advance (block tr) w in
      (OraclePlSqlBlockWalk.is_complete w, mk (block tr) (scanned_len tr) (Some w))
  end.

End Tracker.

End OraclePlSqlBlockTracker.

(** ** HANA script blocks and Firebird routines *)

(** The [BEGIN]/[CASE]/[END] count shared by [HanaScriptBlock::is_complete] and
    [FirebirdRoutineBlock::is_complete]; [ignored_end] is the set of words after
    [END] that HANA skips (none for Firebird). *)
Fixpoint block_case_depths (ignored_end : list text) (previous : option OraclePlSqlToken)
    (block_depth case_depth : nat) (saw_begin : bool) (tokens : list OraclePlSqlToken) : nat * nat * bool :=
  match tokens with
  | [] => (block_depth, case_depth, saw_begin)
  | token :: rest =>
      let after_end := word_in (opt_word previous) [%"END"] in
      if is_word token %"BEGIN" then
        if after_end then block_case_depths ignored_end (Some token) block_depth case_depth saw_begin rest
        else block_case_depths ignored_end (Some token) (S block_depth) case_depth true rest
      else if is_word token %"CASE" then
        block_case_depths ignored_end (Some token) block_depth
          (if after_end then case_depth else S case_depth) saw_begin rest
      else if is_word token %"END" then
        if word_in (opt_word (head rest)) ignored_end
        then block_case_depths ignored_end (Some token) block_depth case_depth saw_begin rest
        else match case_depth with
             | S c => block_case_depths ignored_end (Some token) block_depth c saw_begin rest
             | O => block_case_depths ignored_end (Some token) (pred block_depth) 0 saw_begin rest
             end
      else block_case_depths ignored_end (Some token) block_depth case_depth saw_begin rest
  end.

Definition depths_are_closed (tokens : list OraclePlSqlToken) (d : nat * nat * bool) : bool :=
  let '(block_depth, case_depth, saw_begin) := d in
  saw_begin && (block_depth =? 0) && (case_depth =? 0) && ends_with_semicolon tokens.

Definition hana_starts_block (tokens : list OraclePlSqlToken) : bool :=
  match opt_word (head tokens) with
  | None => false
  | Some first =>
      if text_eqb first %"DO" then true
      else
        let index :=
          if text_eqb first %"CREATE" && opt_is_word (tokens !! 1) %"OR" && opt_is_word (tokens !! 2) %"REPLACE"
          then 3 else 1 in
        match opt_word (tokens !! index) with
        | None => false
        | Some object_type =>
            if negb (text_eqb first %"CREATE") && negb (text_eqb first %"ALTER") then false
            else if negb (existsb (text_eqb object_type) [%"PROCEDURE"; %"FUNCTION"; %"TRIGGER"]) then false
            else existsb (fun token => is_word token %"BEGIN") tokens
        end
  end.

Definition hana_is_complete (tokens : list OraclePlSqlToken) : bool :=
  hana_starts_block tokens
  && depths_are_closed tokens
       (block_case_depths [%"IF"; %"FOR"; %"WHILE"] None 0 0 false tokens).

Definition firebird_starts_block (tokens : list OraclePlSqlToken) : bool :=
  match opt_word (head tokens) with
  | None => false
  | Some first =>
      if text_eqb first %"EXECUTE" then opt_is_word (tokens !! 1) %"BLOCK"
      else if negb (existsb (text_eqb first) [%"CREATE"; %"RECREATE"; %"ALTER"]) then false
      else
        let index :=
          if opt_is_word (tokens !! 1) %"OR" && opt_is_any_word (tokens !! 2) [%"ALTER"; %"REPLACE"]
          then 3 else 1 in
        match opt_word (tokens !! index) with
        | None => false
        | Some object_type =>
            let routine :=
              if text_eqb object_type %"PACKAGE" then opt_is_word (tokens !! S index) %"BODY"
              else existsb (text_eqb object_type) [%"PROCEDURE"; %"FUNCTION"; %"TRIGGER"] in
            if negb routine then false
            else if text_eqb first %"ALTER"
            then existsb (fun token => is_any_word token [%"AS"; %"BEGIN"]) tokens
            else true
        end
  end.

Definition firebird_is_complete (tokens : list OraclePlSqlToken) : bool :=
  firebird_starts_block tokens && depths_are_closed tokens (block_case_depths [] None 0 0 false tokens).

Section Routines.

Context `{OracleTokenizer}.

Definition starts_with_hana_script_block (sql : text) : bool := hana_starts_block (oracle_plsql_tokens sql).

Definition hana_script_block_is_complete (sql : text) : bool :=
  match rsplit_once nl sql with
  | Some (_, last_line) =>
      if negb (starts_with %"END;" (upper (trim_start last_line))) then false
      else hana_is_complete (oracle_plsql_tokens sql)
  | None => hana_is_complete (oracle_plsql_tokens sql)
  end.

Definition starts_with_firebird_routine_block (sql : text) : bool :=
  firebird_starts_block (oracle_plsql_tokens sql).

Definition firebird_routine_block_is_complete (sql : text) : bool :=
  firebird_is_complete (oracle_plsql_tokens sql).

End Routines.

(** A tokenizer that always fails sends every text to the fallback. *)
Definition fallback_tokenizer : OracleTokenizer := {| oracle_tokenize _ := None |}.

Example plsql_1 :
  let _ := fallback_tokenizer in
  oracle_plsql_block_is_complete %"CREATE OR REPLACE PROCEDURE p IS x INT; BEGIN NULL; END;" = true
  /\ oracle_plsql_block_is_complete %"CREATE OR REPLACE PROCEDURE p IS x INT; BEGIN NULL;" = false
  /\ oracle_plsql_block_is_complete %"CREATE PACKAGE BODY b AS PROCEDURE p IS BEGIN NULL; END; END;" = true
  /\ oracle_plsql_block_is_complete %"CREATE PACKAGE BODY b AS PROCEDURE p IS BEGIN NULL; END;" = false
  /\ oracle_plsql_block_is_complete %"WITH FUNCTION f RETURN INT IS BEGIN RETURN 1; END; SELECT f FROM dual;" = true
  /\ oracle_plsql_block_is_complete %"WITH FUNCTION f RETURN INT IS BEGIN RETURN 1; END;" = false
  /\ hana_script_block_is_complete %"DO BEGIN IF 1 THEN a; END IF; END;" = true
  /\ firebird_routine_block_is_complete %"EXECUTE BLOCK AS BEGIN a; END;" = true.
Proof. by vm_compute. Qed.
