(* ===== verification/PlSqlFacts.v ===== *)
(** * PlSqlFacts: the incremental block tracker computes the whole-statement test.

    [OraclePlSqlBlockTracker] exists so that a large package body is not
    tokenised again at each of its semicolons.  It keeps the tokens of the
    statement and a suspended scope walk.  The refinement here: consulted at the
    semicolons of a growing statement, it answers as [oracle_plsql_block_is_complete]
    and [keeps_oracle_style_block_together] answer on the statement so far. *)

From S2P Require Import Prelude DbTypes Dialect Lexis PlSql.
Import OraclePlSqlBlock.

(** A block whose last token is a semicolon: what the tracker holds whenever it
    walks. *)
Definition closed (block : list OraclePlSqlToken) : Prop := exists front, block = front ++ [Semicolon].

Lemma closed_ne_nil block : closed block -> block <> [].
Proof. intros [front ->]. by destruct front. Qed.

Lemma closed_cons token block :
  closed (token :: block) -> (token = Semicolon /\ block = []) \/ closed block.
Proof.
  intros [[|x front] Heq]; cbn in Heq; simplify_eq; [by left|].
  right. by exists front.
Qed.

Lemma closed_tail token block : is_semicolon token = false -> closed (token :: block) -> closed block.
Proof. intros Ht [[-> _]|Hc]%closed_cons; done. Qed.

Lemma closed_app_r front block : closed block -> closed (front ++ block).
Proof. intros [b ->]. exists (front ++ b). by rewrite app_assoc. Qed.

Lemma word_not_semicolon token w : is_word token w = true -> is_semicolon token = false.
Proof. by destruct token. Qed.

Lemma any_word_not_semicolon token ws : is_any_word token ws = true -> is_semicolon token = false.
Proof. destruct token; [done..| |done]. unfold is_any_word. by induction ws. Qed.

#[local] Hint Resolve closed_tail word_not_semicolon any_word_not_semicolon : core.

(** ** The statement header is decided by the tokens up to the first semicolon *)

Section Header.

Variable more : list OraclePlSqlToken.

Lemma skip_create_modifiers_cons a b tail :
  skip_create_modifiers (a :: b :: tail)
  = if is_word a (%"OR") && is_word b (%"REPLACE") then skip_create_modifiers tail
    else if is_any_word a [%"FORCE"; %"NOFORCE"; %"EDITIONABLE"; %"NONEDITIONABLE"]
    then skip_create_modifiers (b :: tail) else a :: b :: tail.
Proof. done. Qed.

Lemma skip_create_modifiers_app block :
  closed block ->
  skip_create_modifiers (block ++ more) = skip_create_modifiers block ++ more
  /\ closed (skip_create_modifiers block).
Proof.
  remember (length block) as n eqn:Hn. revert block Hn.
  induction n as [n IH] using lt_wf_ind. intros block -> Hc.
  destruct block as [|a [|b tail]]; [by destruct (closed_ne_nil _ Hc)|..].
  - destruct (closed_cons _ _ Hc) as [[-> _]|Hn]; [by destruct more|by destruct (closed_ne_nil _ Hn)].
  - cbn [app]. rewrite !skip_create_modifiers_cons.
    destruct (is_word a (%"OR") && is_word b (%"REPLACE")) eqn:Hor.
    { apply andb_true_iff in Hor as [Ha Hb]. apply (IH (length tail)); [cbn; lia|done|eauto]. }
    destruct (is_any_word a _) eqn:Hm; [|done].
    apply (IH (S (length tail)) ltac:(cbn; lia) (b :: tail)); [done|eauto].
Qed.

Lemma is_package_or_type_body_app block :
  closed block -> is_package_or_type_body (block ++ more) = is_package_or_type_body block.
Proof.
  intros Hc. destruct block as [|a [|b tail]]; [by destruct (closed_ne_nil _ Hc)| |done].
  destruct (closed_cons _ _ Hc) as [[-> _]|Hn]; [by destruct more|by destruct (closed_ne_nil _ Hn)].
Qed.

Lemma take_while_app_stop {A} (p : A -> bool) x l r :
  p x = false -> take_while p ((l ++ [x]) ++ r) = take_while p (l ++ [x]).
Proof. intros Hx. induction l as [|y l IH]; cbn; [by rewrite Hx|]. destruct (p y); [by rewrite IH|done]. Qed.

Lemma is_compound_trigger_header_app block :
  closed block -> is_compound_trigger_header (block ++ more) = is_compound_trigger_header block.
Proof. intros [front ->]. unfold is_compound_trigger_header. by rewrite take_while_app_stop. Qed.

Lemma create_object_kind_app block :
  closed block -> create_object_kind (block ++ more) = create_object_kind block.
Proof.
  intros Hc. destruct block as [|first rest]; [by destruct (closed_ne_nil _ Hc)|].
  cbn [create_object_kind app]. destruct (is_word first (%"CREATE")) eqn:Hf; [|done]. cbn [negb].
  destruct (skip_create_modifiers_app rest) as [-> Hs]; [by eauto|].
  rewrite is_package_or_type_body_app by done. destruct (is_package_or_type_body _); [done|].
  destruct (skip_create_modifiers rest) as [|object header]; [by destruct (closed_ne_nil _ Hs)|].
  cbn [app]. destruct (is_word object (%"TRIGGER")) eqn:Ht; [|done]. cbn [andb].
  by rewrite is_compound_trigger_header_app by eauto.
Qed.

Lemma is_create_routine_app block :
  closed block -> is_create_routine (block ++ more) = is_create_routine block.
Proof.
  intros Hc. destruct block as [|first rest]; [by destruct (closed_ne_nil _ Hc)|].
  cbn [is_create_routine app]. destruct (is_word first (%"CREATE")) eqn:Hf; [|done]. cbn [andb].
  destruct (skip_create_modifiers_app rest) as [-> Hs]; [by eauto|].
  destruct (skip_create_modifiers rest); [by destruct (closed_ne_nil _ Hs)|done].
Qed.

End Header.

(** ** The walk can be suspended at a semicolon *)

Section Walk.

Import OraclePlSqlBlockWalk.

Lemma walk_new_app block more : closed block -> new (block ++ more) = new block.
Proof. intros Hc. unfold new. by rewrite create_object_kind_app, is_create_routine_app. Qed.

Lemma walk_step_app block more index w :
  closed block -> index < length block -> step (block ++ more) index w = step block index w.
Proof.
  intros [front ->] Hi. rewrite length_app in Hi. cbn in Hi. unfold step.
  rewrite (lookup_app_l (front ++ [Semicolon])) by (rewrite length_app; cbn; lia).
  destruct (decide (index = length front)) as [->|Hne].
  - rewrite list_lookup_middle by done. done.
  - rewrite (lookup_app_l (front ++ [Semicolon]) more (S index)) by (rewrite length_app; cbn; lia).
    destruct index as [|i]; [done|].
    by rewrite (lookup_app_l (front ++ [Semicolon]) more i) by (rewrite length_app; cbn; lia).
Qed.

Lemma next_index_step tokens index w : next_index (step tokens index w) = next_index w.
Proof. unfold step, step_token. repeat case_match; done. Qed.

Lemma next_index_advance_by n tokens w : next_index (advance_by n tokens w) = next_index w + n.
Proof.
  revert w. induction n as [|n IH]; intros w; cbn; [lia|]. rewrite IH. cbn. rewrite next_index_step. lia.
Qed.

Lemma advance_by_add n m tokens w : advance_by (n + m) tokens w = advance_by m tokens (advance_by n tokens w).
Proof. revert w. induction n as [|n IH]; intros w; cbn; [done|]. by rewrite IH. Qed.

Lemma advance_by_app n block more w :
  closed block -> next_index w + n <= length block ->
  advance_by n (block ++ more) w = advance_by n block w.
Proof.
  intros Hc. revert w. induction n as [|n IH]; intros w Hn; cbn; [done|].
  rewrite walk_step_app by (done || lia). apply IH. cbn. rewrite next_index_step. lia.
Qed.

(** Walking a closed block and resuming on the grown block is walking the grown
    block. *)
Lemma advance_resume block more w :
  closed block -> next_index w <= length block ->
  advance (block ++ more) (advance block w) = advance (block ++ more) w.
Proof.
  intros Hc Hw. unfold advance at 1 3. rewrite length_app. unfold advance. rewrite next_index_advance_by.
  rewrite <- (advance_by_app _ block more) by (done || lia).
  rewrite <- advance_by_add. f_equal. lia.
Qed.

End Walk.

(** ** The tracker *)

Section Tracker.

Context `{OracleTokenizer}.

Import OraclePlSqlBlockTracker.

(** The text [a ++ b] can be tokenised in the two slices [a] and [b]. *)
Definition clean_cut (a b : text) : Prop :=
  oracle_plsql_tokens (a ++ b) = oracle_plsql_tokens a ++ oracle_plsql_tokens b.

(** The tracker has scanned [statement], and its walk is suspended at a semicolon. *)
Record Tracks (statement : text) (tr : t) : Prop := mk_tracks {
  tracks_block : block tr = oracle_plsql_tokens statement;
  tracks_len : scanned_len tr = length statement;
  tracks_walk : forall w, walk tr = Some w ->
    exists front more, block tr = front ++ more /\ closed front
      /\ w = OraclePlSqlBlockWalk.advance front (OraclePlSqlBlockWalk.new front)
}.

Lemma tracks_default : oracle_plsql_tokens [] = [] -> Tracks [] default.
Proof. intros Hnil. by constructor. Qed.

Lemma tracks_scan statement slice tr :
  Tracks statement tr -> clean_cut statement slice -> Tracks (statement ++ slice) (scan (statement ++ slice) tr).
Proof.
  intros [Hb Hl Hw] Hcut. unfold scan. rewrite Hl.
  destruct (Nat.ltb_spec (length (statement ++ slice)) (length statement)) as [Hlt|_];
    [rewrite length_app in Hlt; lia|].
  rewrite Hl, drop_app_length, Hb. constructor; cbn; [by rewrite Hcut|done|].
  intros w (front & more & Heq & Hc & ->)%Hw. rewrite Hb in Heq.
  exists front, (more ++ oracle_plsql_tokens slice). by rewrite Heq, app_assoc.
Qed.

Lemma tracks_keeps_block_together o statement slice tr :
  Tracks statement tr -> clean_cut statement slice ->
  let '(keep, tr') := keeps_block_together o (statement ++ slice) tr in
  keep = keeps_oracle_style_block_together o (statement ++ slice)
  /\ (keep = true -> Tracks (statement ++ slice) tr').
Proof.
  intros Ht Hcut. pose proof (tracks_scan _ _ _ Ht Hcut) as Hs.
  unfold keeps_block_together, keeps_oracle_style_block_together.
  destruct (SqlDialectProfile.supports_oracle_plsql_blocks _); cbn [negb andb].
  - by rewrite (tracks_block _ _ Hs).
  - destruct (SqlDialectProfile.supports_oracle_style_routine_bodies _); cbn [negb andb]; [|done].
    by rewrite (tracks_block _ _ Hs).
Qed.

Lemma advance_of_tracked statement tr :
  Tracks statement tr -> closed (block tr) ->
  OraclePlSqlBlockWalk.advance (block tr)
    (match walk tr with Some w => w | None => OraclePlSqlBlockWalk.new (block tr) end)
  = OraclePlSqlBlockWalk.advance (block tr) (OraclePlSqlBlockWalk.new (block tr)).
Proof.
  intros Ht Hc. destruct (walk tr) as [w|] eqn:Hw; [|done].
  destruct (tracks_walk _ _ Ht _ Hw) as (front & more & -> & Hf & ->).
  rewrite (walk_new_app front more Hf). apply advance_resume; [done|]. cbn. lia.
Qed.

Lemma tracks_is_complete statement tr :
  Tracks statement tr -> clean_cut statement [semi] -> oracle_plsql_tokens [semi] = [Semicolon] ->
  let '(done, tr') := is_complete (statement ++ [semi]) tr in
  done = oracle_plsql_block_is_complete (statement ++ [semi]) /\ Tracks (statement ++ [semi]) tr'.
Proof.
  intros Ht Hcut Hsemi. pose proof (tracks_scan _ _ _ Ht Hcut) as Hs.
  assert (closed (block (scan (statement ++ [semi]) tr))) as Hc.
  { rewrite (tracks_block _ _ Hs), Hcut, Hsemi. by eexists. }
  unfold is_complete, oracle_plsql_block_is_complete, block_is_complete.
  rewrite <- (tracks_block _ _ Hs). destruct (completion_without_block_walk _); [done|].
  rewrite (advance_of_tracked _ _ Hs Hc). split; [done|].
  destruct Hs as [Hb Hl _]. constructor; cbn; [done..|].
  intros w [= <-]. exists (block (scan (statement ++ [semi]) tr)), []. by rewrite app_nil_r.
Qed.

(** ** Consulting the tracker the way the splitter does

    At each semicolon the splitter asks whether the statement before it is a
    block; if so it asks whether the statement with the semicolon is complete,
    and goes on only if it is not.  [slices] are the texts between the
    consulted semicolons. *)

Fixpoint consults (o : SqlParsingOptions.t) (tr : t) (statement : text) (slices : list text) : list (bool * bool) :=
  match slices with
  | [] => []
  | slice :: slices =>
      let head := statement ++ slice in
      let '(keep, tr) := keeps_block_together o head tr in
      if keep then
        let '(done, tr) := is_complete (head ++ [semi]) tr in
        (true, done) :: if done then [] else consults o tr (head ++ [semi]) slices
      else [(false, false)]
  end.

(** The same questions answered from the whole statement each time. *)
Fixpoint consults_whole (o : SqlParsingOptions.t) (statement : text) (slices : list text) : list (bool * bool) :=
  match slices with
  | [] => []
  | slice :: slices =>
      let head := statement ++ slice in
      if keeps_oracle_style_block_together o head then
        let done := oracle_plsql_block_is_complete (head ++ [semi]) in
        (true, done) :: if done then [] else consults_whole o (head ++ [semi]) slices
      else [(false, false)]
  end.

Fixpoint clean_slices (statement : text) (slices : list text) : Prop :=
  match slices with
  | [] => True
  | slice :: slices =>
      clean_cut statement slice /\ clean_cut (statement ++ slice) [semi]
      /\ clean_slices ((statement ++ slice) ++ [semi]) slices
  end.

Lemma consults_refine o tr statement slices :
  oracle_plsql_tokens [semi] = [Semicolon] ->
  Tracks statement tr -> clean_slices statement slices ->
  consults o tr statement slices = consults_whole o statement slices.
Proof.
  intros Hsemi. revert tr statement.
  induction slices as [|slice slices IH]; intros tr statement Ht Hcl; [done|].
  destruct Hcl as (Hc1 & Hc2 & Hcl). cbn [consults consults_whole].
  pose proof (tracks_keeps_block_together o _ _ _ Ht Hc1) as Hk.
  destruct (keeps_block_together o (statement ++ slice) tr) as [keep tr1].
  destruct Hk as [<- Hk]. destruct keep; [|done].
  pose proof (tracks_is_complete _ _ (Hk eq_refl) Hc2 Hsemi) as Hi.
  destruct (is_complete _ tr1) as [done tr2]. destruct Hi as [<- Hi].
  destruct done; [done|]. f_equal. by apply IH.
Qed.

End Tracker.

(** ** Contract *)

(** C4: the incremental tracker is an exact replacement of the whole-statement
    tests.  At every semicolon of a growing statement, as long as the tokenizer
    may be run on the slices between the consulted semicolons, its answers
    (does the statement open a PL/SQL block; is the block complete) are those
    computed from the whole statement. *)
Theorem tracker_refines_whole_statement_tests `{OracleTokenizer} (o : SqlParsingOptions.t) (slices : list text)
    (Hempty : oracle_plsql_tokens [] = [])
    (Hsemi : oracle_plsql_tokens [semi] = [Semicolon])
    (Hslices : clean_slices [] slices) :
  consults o OraclePlSqlBlockTracker.default [] slices = consults_whole o [] slices.
Proof. apply consults_refine; [done|by apply tracks_default|done]. Qed.

#[local] Existing Instance fallback_tokenizer.

Definition package_body_slices : list text :=
  [%"CREATE OR REPLACE PACKAGE BODY p IS
  PROCEDURE a IS BEGIN
    CASE x WHEN 1 THEN NULL"; %"
    END CASE"; %"
  END a"; %"
END p"].

Lemma tracker_refines_whole_statement_tests_witness :
  consults (SqlParsingOptions.for_database_type Oracle) OraclePlSqlBlockTracker.default [] package_body_slices
    = consults_whole (SqlParsingOptions.for_database_type Oracle) [] package_body_slices
  /\ consults_whole (SqlParsingOptions.for_database_type Oracle) [] package_body_slices
     = [(true, false); (true, false); (true, false); (true, true)].
Proof.
  split; [|by vm_compute].
  apply tracker_refines_whole_statement_tests; [by vm_compute..|]. by repeat split; vm_compute.
Defined.
