(* ===== verification/Splitter.v ===== *)
(** * Splitter: the streaming statement splitter ([sql.rs], [SqlStatementSplitter]).

    The splitter consumes a script in chunks and emits the statements it has
    recognised, each with the [stop_on_error] flag in force.  Its state is the
    record below, field for field.  [step] is the body of the [while] loop of
    [push_chunk_with_control]; a psql line command that DBX does not know is fed
    back to [push_chunk_with_control] with psql commands switched off, which
    [push_chunk_nested] models (the inner call cannot nest again, see
    [SplitterLoops]). *)

From S2P Require Import Prelude DbTypes Dialect Lexis MysqlRoutine TSqlFlow PlSql.
Import SqlDialectProfile.

Record SqlStatementWithControl : Set := mk_stmt { sql : text; stmt_stop_on_error : bool }.

Module SqlStatementSplitter.

Record t : Set := mk {
  buffer : text;
  in_single_quote : bool;
  single_quote_escape_string : bool;
  in_double_quote : bool;
  in_backtick : bool;
  in_line_comment : bool;
  block_comment_depth : nat;
  dollar_quote_tag : option text;
  postgres_dollar_quoted_routine : bool;
  previous : option char;
  pending_mysql_line_comment_dashes : bool;
  oracle_q_quote : OracleQQuoteState.t;
  oracle_block : OraclePlSqlBlockTracker.t;
  custom_delimiter : option text;
  stop_on_error : bool;
  pending_psql_command : option text;
  options : SqlParsingOptions.t
}.

Definition set_buffer (v : text) (s : t) : t :=
  mk v (in_single_quote s) (single_quote_escape_string s) (in_double_quote s) (in_backtick s)
    (in_line_comment s) (block_comment_depth s) (dollar_quote_tag s) (postgres_dollar_quoted_routine s)
    (previous s) (pending_mysql_line_comment_dashes s) (oracle_q_quote s) (oracle_block s)
    (custom_delimiter s) (stop_on_error s) (pending_psql_command s) (options s).

Definition set_in_single_quote (v : bool) (s : t) : t :=
  mk (buffer s) v (single_quote_escape_string s) (in_double_quote s) (in_backtick s) (in_line_comment s)
    (block_comment_depth s) (dollar_quote_tag s) (postgres_dollar_quoted_routine s) (previous s)
    (pending_mysql_line_comment_dashes s) (oracle_q_quote s) (oracle_block s) (custom_delimiter s)
    (stop_on_error s) (pending_psql_command s) (options s).

Definition set_single_quote_escape_string (v : bool) (s : t) : t :=
  mk (buffer s) (in_single_quote s) v (in_double_quote s) (in_backtick s) (in_line_comment s)
    (block_comment_depth s) (dollar_quote_tag s) (postgres_dollar_quoted_routine s) (previous s)
    (pending_mysql_line_comment_dashes s) (oracle_q_quote s) (oracle_block s) (custom_delimiter s)
    (stop_on_error s) (pending_psql_command s) (options s).

Definition set_in_double_quote (v : bool) (s : t) : t :=
  mk (buffer s) (in_single_quote s) (single_quote_escape_string s) v (in_backtick s) (in_line_comment s)
    (block_comment_depth s) (dollar_quote_tag s) (postgres_dollar_quoted_routine s) (previous s)
    (pending_mysql_line_comment_dashes s) (oracle_q_quote s) (oracle_block s) (custom_delimiter s)
    (stop_on_error s) (pending_psql_command s) (options s).

Definition set_in_backtick (v : bool) (s : t) : t :=
  mk (buffer s) (in_single_quote s) (single_quote_escape_string s) (in_double_quote s) v (in_line_comment s)
    (block_comment_depth s) (dollar_quote_tag s) (postgres_dollar_quoted_routine s) (previous s)
    (pending_mysql_line_comment_dashes s) (oracle_q_quote s) (oracle_block s) (custom_delimiter s)
    (stop_on_error s) (pending_psql_command s) (options s).

Definition set_in_line_comment (v : bool) (s : t) : t :=
  mk (buffer s) (in_single_quote s) (single_quote_escape_string s) (in_double_quote s) (in_backtick s) v
    (block_comment_depth s) (dollar_quote_tag s) (postgres_dollar_quoted_routine s) (previous s)
    (pending_mysql_line_comment_dashes s) (oracle_q_quote s) (oracle_block s) (custom_delimiter s)
    (stop_on_error s) (pending_psql_command s) (options s).

Definition set_block_comment_depth (v : nat) (s : t) : t :=
  mk (buffer s) (in_single_quote s) (single_quote_escape_string s) (in_double_quote s) (in_backtick s)
    (in_line_comment s) v (dollar_quote_tag s) (postgres_dollar_quoted_routine s) (previous s)
    (pending_mysql_line_comment_dashes s) (oracle_q_quote s) (oracle_block s) (custom_delimiter s)
    (stop_on_error s) (pending_psql_command s) (options s).

Definition set_dollar_quote_tag (v : option text) (s : t) : t :=
  mk (buffer s) (in_single_quote s) (single_quote_escape_string s) (in_double_quote s) (in_backtick s)
    (in_line_comment s) (block_comment_depth s) v (postgres_dollar_quoted_routine s) (previous s)
    (pending_mysql_line_comment_dashes s) (oracle_q_quote s) (oracle_block s) (custom_delimiter s)
    (stop_on_error s) (pending_psql_command s) (options s).

Definition set_postgres_dollar_quoted_routine (v : bool) (s : t) : t :=
  mk (buffer s) (in_single_quote s) (single_quote_escape_string s) (in_double_quote s) (in_backtick s)
    (in_line_comment s) (block_comment_depth s) (dollar_quote_tag s) v (previous s)
    (pending_mysql_line_comment_dashes s) (oracle_q_quote s) (oracle_block s) (custom_delimiter s)
    (stop_on_error s) (pending_psql_command s) (options s).

Definition set_previous (v : option char) (s : t) : t :=
  mk (buffer s) (in_single_quote s) (single_quote_escape_string s) (in_double_quote s) (in_backtick s)
    (in_line_comment s) (block_comment_depth s) (dollar_quote_tag s) (postgres_dollar_quoted_routine s) v
    (pending_mysql_line_comment_dashes s) (oracle_q_quote s) (oracle_block s) (custom_delimiter s)
    (stop_on_error s) (pending_psql_command s) (options s).

Definition set_pending_mysql_line_comment_dashes (v : bool) (s : t) : t :=
  mk (buffer s) (in_single_quote s) (single_quote_escape_string s) (in_double_quote s) (in_backtick s)
    (in_line_comment s) (block_comment_depth s) (dollar_quote_tag s) (postgres_dollar_quoted_routine s)
    (previous s) v (oracle_q_quote s) (oracle_block s) (custom_delimiter s) (stop_on_error s)
    (pending_psql_command s) (options s).

Definition set_oracle_q_quote (v : OracleQQuoteState.t) (s : t) : t :=
  mk (buffer s) (in_single_quote s) (single_quote_escape_string s) (in_double_quote s) (in_backtick s)
    (in_line_comment s) (block_comment_depth s) (dollar_quote_tag s) (postgres_dollar_quoted_routine s)
    (previous s) (pending_mysql_line_comment_dashes s) v (oracle_block s) (custom_delimiter s)
    (stop_on_error s) (pending_psql_command s) (options s).

Definition set_oracle_block (v : OraclePlSqlBlockTracker.t) (s : t) : t :=
  mk (buffer s) (in_single_quote s) (single_quote_escape_string s) (in_double_quote s) (in_backtick s)
    (in_line_comment s) (block_comment_depth s) (dollar_quote_tag s) (postgres_dollar_quoted_routine s)
    (previous s) (pending_mysql_line_comment_dashes s) (oracle_q_quote s) v (custom_delimiter s)
    (stop_on_error s) (pending_psql_command s) (options s).

Definition set_custom_delimiter (v : option text) (s : t) : t :=
  mk (buffer s) (in_single_quote s) (single_quote_escape_string s) (in_double_quote s) (in_backtick s)
    (in_line_comment s) (block_comment_depth s) (dollar_quote_tag s) (postgres_dollar_quoted_routine s)
    (previous s) (pending_mysql_line_comment_dashes s) (oracle_q_quote s) (oracle_block s) v (stop_on_error s)
    (pending_psql_command s) (options s).

Definition set_stop_on_error (v : bool) (s : t) : t :=
  mk (buffer s) (in_single_quote s) (single_quote_escape_string s) (in_double_quote s) (in_backtick s)
    (in_line_comment s) (block_comment_depth s) (dollar_quote_tag s) (postgres_dollar_quoted_routine s)
    (previous s) (pending_mysql_line_comment_dashes s) (oracle_q_quote s) (oracle_block s)
    (custom_delimiter s) v (pending_psql_command s) (options s).

Definition set_pending_psql_command (v : option text) (s : t) : t :=
  mk (buffer s) (in_single_quote s) (single_quote_escape_string s) (in_double_quote s) (in_backtick s)
    (in_line_comment s) (block_comment_depth s) (dollar_quote_tag s) (postgres_dollar_quoted_routine s)
    (previous s) (pending_mysql_line_comment_dashes s) (oracle_q_quote s) (oracle_block s)
    (custom_delimiter s) (stop_on_error s) v (options s).

Definition set_options (v : SqlParsingOptions.t) (s : t) : t :=
  mk (buffer s) (in_single_quote s) (single_quote_escape_string s) (in_double_quote s) (in_backtick s)
    (in_line_comment s) (block_comment_depth s) (dollar_quote_tag s) (postgres_dollar_quoted_routine s)
    (previous s) (pending_mysql_line_comment_dashes s) (oracle_q_quote s) (oracle_block s)
    (custom_delimiter s) (stop_on_error s) (pending_psql_command s) v.

Definition with_options (o : SqlParsingOptions.t) : t :=
  mk [] false false false false false 0 None false None false OracleQQuoteState.default
     OraclePlSqlBlockTracker.default None false None o.

Definition prof (s : t) : SqlDialectProfile.t := SqlParsingOptions.profile (options s).

(** [self.buffer.push(ch)]. *)
Definition push_char (ch : char) (s : t) : t := set_buffer (buffer s ++ [ch]) s.

(** [self.buffer.push(ch); self.previous = Some(ch)]. *)
Definition push_previous (ch : char) (s : t) : t := set_previous (Some ch) (push_char ch s).

(** The loop [for tag_ch in tag { buffer.push(tag_ch); previous = Some(tag_ch) }]. *)
Definition push_tag (tag : text) (s : t) : t := fold_left (fun s ch => push_previous ch s) tag s.

(** [if has_executable_sql_with_options(..) { statements.push(..) }]. *)
Definition emit_if_executable (statement : text) (s : t) : list SqlStatementWithControl :=
  if has_executable_sql_with_options statement (options s)
  then [mk_stmt statement (stop_on_error s)] else [].

(** [self.buffer.clear(); self.oracle_block.reset(); ...]. *)
Definition clear_statement (s : t) : t :=
  set_buffer [] (set_oracle_block OraclePlSqlBlockTracker.default
    (set_postgres_dollar_quoted_routine false (set_previous None s))).

Definition push_current_statement (s : t) : t * list SqlStatementWithControl :=
  (set_pending_mysql_line_comment_dashes false (clear_statement s),
   emit_if_executable (trim (buffer s)) s).

Definition single_quote_backslash_escapes (s : t) : bool :=
  if in_single_quote s then single_quote_escape_string s
  else supports_backslash_escaped_quotes (prof s).

Definition on_delimiter_line (s : t) : bool :=
  let line := trim_start (last_line (buffer s)) in
  (9 <=? length line)
  && eq_ignore_ascii_case (take 9 line) %"delimiter"
  && negb (has_executable_sql_with_options (trim (before_last_line (buffer s))) (options s)).

(** No literal is open. *)
Definition outside_quotes (s : t) : bool :=
  negb (in_single_quote s) && negb (in_double_quote s) && negb (in_backtick s).

(** ** A semicolon at statement level *)

(** The loop that collects the boundaries of a T-SQL batch: the pieces before
    each boundary and the text after the last one.  A boundary is the end of a
    token, so each iteration shortens the text. *)
Fixpoint batch_pieces (fuel : nat) (body : text) : list text * text :=
  match fuel with
  | O => ([], body)
  | S fuel' =>
      match sqlserver_control_flow_batch_boundary body with
      | Some relative =>
          if length body <=? relative then ([], body)
          else
            let '(pieces, trailing) := batch_pieces fuel' (drop relative body) in
            (take relative body :: pieces, trailing)
      | None => ([], body)
      end
  end.

Fixpoint push_pieces (pieces : list text) (s : t) : t * list SqlStatementWithControl :=
  match pieces with
  | [] => (s, [])
  | piece :: rest =>
      let '(s1, out1) := push_current_statement (set_buffer piece s) in
      let '(s2, out2) := push_pieces rest s1 in
      (s2, out1 ++ out2)
  end.

(** The [keeps_sqlserver_control_flow_batch] branch, entered with the [;] not yet pushed. *)
Definition on_sqlserver_batch_semicolon (s : t) : t * list SqlStatementWithControl :=
  let body := buffer s in
  let s := push_char semi s in
  if negb (sqlserver_control_flow_batch_is_complete (buffer s)) then (s, [])
  else
    let '(pieces, trailing) := batch_pieces (length body) body in
    if is_empty pieces then push_current_statement s
    else
      let '(s1, out1) := push_pieces pieces s in
      if is_empty (trim trailing) then (set_buffer [] s1, out1)
      else
        let s2 := set_buffer trailing s1 in
        if keeps_sqlserver_control_flow_batch (options s2) trailing then
          let s3 := push_char semi s2 in
          if sqlserver_control_flow_batch_is_complete trailing then
            let '(s4, out4) := push_current_statement s3 in (s4, out1 ++ out4)
          else (s3, out1)
        else
          let '(s4, out4) := push_current_statement s2 in (s4, out1 ++ out4).

Section Step.

Context `{CharTable} `{OracleTokenizer}.

(** The [';'] arm of the [match ch]. *)
Definition on_semicolon (s : t) : t * list SqlStatementWithControl :=
  if ends_with_xml_entity_reference (buffer s) then (push_char semi s, [])
  else if (supports_custom_delimiter_commands (prof s) && on_delimiter_line s)
          || match custom_delimiter s with Some _ => true | None => false end
  then (push_char semi s, [])
  else if supports_mysql_routine_blocks (prof s) && starts_with_mysql_routine_block (buffer s) then
    if mysql_routine_block_is_complete (buffer s ++ [semi]) then push_current_statement s
    else (push_char semi s, [])
  else
    let '(kept, s) :=
      if postgres_dollar_quoted_routine s then (false, s)
      else
        let '(kept, tracker) := OraclePlSqlBlockTracker.keeps_block_together (options s) (buffer s) (oracle_block s) in
        (kept, set_oracle_block tracker s) in
    if kept then
      let s := push_char semi s in
      let '(complete, tracker) := OraclePlSqlBlockTracker.is_complete (buffer s) (oracle_block s) in
      let s := set_oracle_block tracker s in
      if complete then push_current_statement s else (s, [])
    else if supports_hana_script_blocks (prof s) && starts_with_hana_script_block (buffer s) then
      let s := push_char semi s in
      if hana_script_block_is_complete (buffer s) then push_current_statement s else (s, [])
    else if supports_firebird_routine_blocks (prof s) && starts_with_firebird_routine_block (buffer s) then
      let s := push_char semi s in
      if firebird_routine_block_is_complete (buffer s) then push_current_statement s else (s, [])
    else if keeps_sqlserver_control_flow_batch (options s) (buffer s) then on_sqlserver_batch_semicolon s
    else push_current_statement s.

(** The [match ch] of the loop body. *)
Definition match_char (ch : char) (s : t) : t * list SqlStatementWithControl :=
  if (ch =? squote)%N
     && negb (in_double_quote s || in_backtick s
              || (single_quote_backslash_escapes s && has_odd_trailing_backslashes (buffer s))) then
    let opened := negb (in_single_quote s) in
    (push_char ch
       (set_single_quote_escape_string
          (opened && (supports_backslash_escaped_quotes (prof s)
                      || (supports_postgres_escape_strings (prof s) && ends_with_escape_string_prefix (buffer s))))
          (set_in_single_quote opened s)), [])
  else if (ch =? dquote)%N
     && negb (in_single_quote s || in_backtick s
              || (supports_backslash_escaped_quotes (prof s) && has_odd_trailing_backslashes (buffer s))) then
    (push_char ch (set_in_double_quote (negb (in_double_quote s)) s), [])
  else if (ch =? backtick)%N && supports_backtick_identifiers (prof s)
     && negb (in_single_quote s) && negb (in_double_quote s) then
    (push_char ch (set_in_backtick (negb (in_backtick s)) s), [])
  else if (ch =? semi)%N && outside_quotes s then on_semicolon s
  else (push_char ch s, []).

(** The checks after the [match ch]: a line that was just ended may be a [/] or
    a [DELIMITER] command; the text may now end with the custom delimiter.
    [None] means the loop continued without setting [previous]. *)
Definition after_newline (s : t) : option (t * list SqlStatementWithControl) :=
  let body := take (length (buffer s) - 1) (buffer s) in
  let last_line := trim (last_line body) in
  let head := before_last_line body in
  if supports_slash_line_block_delimiter (prof s) && text_eqb last_line [slash] then
    Some (clear_statement s, emit_if_executable (trim head) s)
  else if supports_custom_delimiter_commands (prof s) then
    match parse_delimiter_command last_line with
    | Some new_delim =>
        if has_executable_sql_with_options head (options s) then None
        else Some (set_custom_delimiter (if text_eqb new_delim [semi] then None else Some new_delim) (clear_statement s),
                   if is_empty head then [] else emit_if_executable (trim head) s)
    | None => None
    end
  else None.

Definition after_delimiter (s : t) : t * list SqlStatementWithControl :=
  match custom_delimiter s with
  | Some delim =>
      if ends_with delim (buffer s) && negb (on_delimiter_line s)
      then push_current_statement (set_buffer (take (length (buffer s) - length delim) (buffer s)) s)
      else (s, [])
  | None => (s, [])
  end.

Definition after_match (ch : char) (s : t) : t * list SqlStatementWithControl :=
  if outside_quotes s && match dollar_quote_tag s with None => true | Some _ => false end then
    match (if (ch =? nl)%N then after_newline s else None) with
    | Some result => result
    | None => let '(s', out) := after_delimiter s in (set_previous (Some ch) s', out)
    end
  else (set_previous (Some ch) s, []).

Definition plain_char (ch : char) (s : t) : t * list SqlStatementWithControl * nat :=
  let '(s1, out1) := match_char ch s in
  let '(s2, out2) := after_match ch s1 in
  (s2, out1 ++ out2, 0).

(** Openers recognised outside quotes: [Some (s', n)] when the loop continued
    after consuming [n] more characters. *)
Definition open_construct (ch : char) (rest : text) (s : t) : option (t * nat) :=
  let next := head rest in
  if supports_oracle_q_quotes (prof s) && (ch =? squote)%N && ends_with_oracle_q_quote_prefix (buffer s) then
    Some (push_previous ch
            (set_oracle_q_quote (OracleQQuoteState.mk true (OracleQQuoteState.closer (oracle_q_quote s))) s), 0)
  else
    let dashes := opt_is dash (previous s) && (ch =? dash)%N in
    if dashes && requires_whitespace_after_line_comment_dashes (prof s)
       && match next with None => true | Some _ => false end
    then Some (push_previous ch (set_pending_mysql_line_comment_dashes true s), 0)
    else if dashes && dash_dash_starts_line_comment (prof s) next
    then Some (push_previous ch (set_in_line_comment true s), 0)
    else if opt_is slash (previous s) && (ch =? star)%N
    then Some (set_previous None (push_char ch (set_block_comment_depth 1 s)), 0)
    else if supports_hash_line_comments (prof s) && (ch =? hash)%N
    then Some (push_previous ch (set_in_line_comment true s), 0)
    else if (ch =? slash)%N && head_is star rest
    then Some (set_previous None (push_char ch (set_block_comment_depth 1 s)), 0)
    else match (if supports_dollar_quoted_strings (prof s) then dollar_quote_tag_at (ch :: rest) else None) with
    | Some tag =>
        if match custom_delimiter s with None => true | Some _ => false end && negb (on_delimiter_line s) then
          let s1 :=
            if supports_postgres_dollar_quoted_routines (prof s)
               && starts_with_postgres_dollar_quoted_routine_prefix (buffer s)
            then set_postgres_dollar_quoted_routine true s else s in
          Some (set_dollar_quote_tag (Some tag) (push_tag tag s1), pred (length tag))
        else None
    | None => None
    end.

(** The loop body with psql commands out of the way. *)
Definition sql_step (s : t) (ch : char) (rest : text) : t * list SqlStatementWithControl * nat :=
  match dollar_quote_tag s with
  | Some tag =>
      if starts_with_chars (ch :: rest) tag
      then (set_dollar_quote_tag None (push_tag tag s), [], pred (length tag))
      else (push_previous ch s, [], 0)
  | None =>
      if in_line_comment s then
        (push_previous ch (if (ch =? nl)%N then set_in_line_comment false s else s), [], 0)
      else match block_comment_depth s with
      | S depth =>
          if supports_nested_block_comments (prof s) && opt_is slash (previous s) && (ch =? star)%N
          then (set_previous None (set_block_comment_depth (S (S depth)) (push_char ch s)), [], 0)
          else if opt_is star (previous s) && (ch =? slash)%N
          then (set_previous (Some ch) (set_block_comment_depth depth (push_char ch s)), [], 0)
          else (push_previous ch s, [], 0)
      | O =>
          if OracleQQuoteState.is_open (oracle_q_quote s) then
            (push_previous ch
               (set_oracle_q_quote (OracleQQuoteState.consume ch (previous s) (oracle_q_quote s)) s), [], 0)
          else if outside_quotes s then
            match open_construct ch rest s with
            | Some (s', n) => (s', [], n)
            | None => plain_char ch s
            end
          else plain_char ch s
      end
  end.

(** [finish_psql_command]; [push_chunk] is the recursive call. *)
Definition finish_psql_command
    (push_chunk : t -> text -> t * list SqlStatementWithControl)
    (command : text) (s : t) : t * list SqlStatementWithControl :=
  let s := set_pending_psql_command None s in
  match parse_ignorable_psql_control_command (trim command) with
  | Some control =>
      (set_stop_on_error
         (stop_on_error s || match control with OnErrorStop => true | ClientDisplay => false end) s, [])
  | None =>
      let set_psql b s :=
        set_options (SqlParsingOptions.from_profile (set_supports_psql_control_commands b (prof s))) s in
      let '(s', out) := push_chunk (set_psql false s) command in
      (set_psql true s', out)
  end.

(** The whole loop body. *)
Definition step (push_chunk : t -> text -> t * list SqlStatementWithControl)
    (s : t) (ch : char) (rest : text) : t * list SqlStatementWithControl * nat :=
  match pending_psql_command s with
  | Some command =>
      let command := command ++ [ch] in
      if (ch =? nl)%N then
        let '(s', out) := finish_psql_command push_chunk command s in (s', out, 0)
      else (set_pending_psql_command (Some command) s, [], 0)
  | None =>
      if supports_psql_control_commands (prof s) && (ch =? bslash)%N && outside_quotes s
         && negb (in_line_comment s) && (block_comment_depth s =? 0)
         && match dollar_quote_tag s with None => true | Some _ => false end
         && is_empty (trim (last_line (buffer s)))
      then (set_pending_psql_command (Some [bslash]) s, [], 0)
      else sql_step s ch rest
  end.

(** The prologue of [push_chunk_with_control]. *)
Definition resolve_pending_dashes (chunk : text) (s : t) : t :=
  match chunk with
  | first :: _ =>
      if pending_mysql_line_comment_dashes s
      then set_pending_mysql_line_comment_dashes false
             (set_in_line_comment (dash_dash_starts_line_comment (prof s) (Some first)) s)
      else s
  | [] => s
  end.

Fixpoint push_chunk_nested (nesting : nat) (s : t) (chunk : text) : t * list SqlStatementWithControl :=
  let inner := match nesting with O => fun s _ => (s, []) | S n => push_chunk_nested n end in
  scan_loop (step inner) (resolve_pending_dashes chunk s) 0 chunk.

(** [push_chunk_with_control]. *)
Definition push_chunk_with_control : t -> text -> t * list SqlStatementWithControl := push_chunk_nested 1.

(** [before_last_line] and [last_line] of [finish_with_control]. *)
Definition final_lines (buffer : text) : text * text :=
  let trimmed := trim buffer in
  match rsplit_once nl trimmed with
  | Some (before, last_line) => (trim before, trim last_line)
  | None => (trim [], trim trimmed)
  end.

(** [finish_with_control] after the pending psql command has been finished. *)
Definition finish_statement (s : t) : list SqlStatementWithControl :=
  let s :=
    if pending_mysql_line_comment_dashes s
    then set_pending_mysql_line_comment_dashes false (set_in_line_comment true s) else s in
  let '(before, last_line) := final_lines (buffer s) in
  let '(s, out1) :=
    if supports_custom_delimiter_commands (prof s)
       && match parse_delimiter_command last_line with
          | Some _ => negb (has_executable_sql_with_options before (options s))
          | None => false
          end
    then (set_buffer [] s, emit_if_executable before s)
    else if supports_slash_line_block_delimiter (prof s) && text_eqb last_line [slash]
    then (set_buffer [] s, emit_if_executable before s)
    else match custom_delimiter s with
    | Some delim =>
        if ends_with delim (buffer s)
        then (set_buffer (take (length (buffer s) - length delim) (buffer s)) s, [])
        else (s, [])
    | None => (s, [])
    end in
  let '(_, out2) := push_current_statement s in
  out1 ++ out2.

Definition finish_with_control (s : t) : list SqlStatementWithControl :=
  let '(s, out0) :=
    match pending_psql_command s with
    | Some command => finish_psql_command (push_chunk_nested 0) command s
    | None => (s, [])
    end in
  out0 ++ finish_statement s.

End Step.

End SqlStatementSplitter.

Section Api.

Context `{CharTable} `{OracleTokenizer}.

(** [SqlStatementSplitter::push_chunk] and [finish]. *)
Definition push_chunk (s : SqlStatementSplitter.t) (chunk : text) : SqlStatementSplitter.t * list text :=
  prod_map id (map sql) (SqlStatementSplitter.push_chunk_with_control s chunk).

Definition finish (s : SqlStatementSplitter.t) : list text :=
  map sql (SqlStatementSplitter.finish_with_control s).

Definition split_sql_statements_with_options (script : text) (o : SqlParsingOptions.t) : list text :=
  let '(splitter, statements) := push_chunk (SqlStatementSplitter.with_options o) script in
  statements ++ finish splitter.

Definition split_sql_statements (script : text) : list text :=
  split_sql_statements_with_options script SqlParsingOptions.default.

(** The reader of a streamed SQL file: one [push_chunk_with_control] per chunk
    read, then [finish_with_control]. *)
Fixpoint push_chunks (s : SqlStatementSplitter.t) (chunks : list text)
    : SqlStatementSplitter.t * list SqlStatementWithControl :=
  match chunks with
  | [] => (s, [])
  | chunk :: rest =>
      let '(s1, out1) := SqlStatementSplitter.push_chunk_with_control s chunk in
      let '(s2, out2) := push_chunks s1 rest in
      (s2, out1 ++ out2)
  end.

Definition split_stream (o : SqlParsingOptions.t) (chunks : list text) : list SqlStatementWithControl :=
  let '(s, out) := push_chunks (SqlStatementSplitter.with_options o) chunks in
  out ++ SqlStatementSplitter.finish_with_control s.

End Api.

Section Examples.

#[local] Existing Instance latin1_table.
#[local] Existing Instance fallback_tokenizer.

Definition for_db (db : DatabaseType) (script : text) : list text :=
  split_sql_statements_with_options script (SqlParsingOptions.for_database_type db).

Example split_1 :
  for_db Sqlite %"SELECT 1; SELECT ';' ; -- x;
  SELECT 2" = [%"SELECT 1"; %"SELECT ';'"; %"-- x;
  SELECT 2"].
Proof. by vm_compute. Qed.

Example split_2 :
  for_db Mysql %"DELIMITER $$
CREATE PROCEDURE p() BEGIN SELECT 1; END$$
DELIMITER ;
SELECT 3;" = [%"CREATE PROCEDURE p() BEGIN SELECT 1; END"; %"SELECT 3"].
Proof. by vm_compute. Qed.

Example split_3 :
  for_db Postgres %"\echo hi
CREATE FUNCTION f() AS $b$ begin; end; $b$; SELECT 2" = [%"CREATE FUNCTION f() AS $b$ begin; end; $b$"; %"SELECT 2"]
  /\ for_db Oracle %"BEGIN NULL; END;
/
SELECT q'[a;b]' FROM dual;" = [%"BEGIN NULL; END;"; %"SELECT q'[a;b]' FROM dual"]
  /\ for_db SqlServer %"IF 1=1 BEGIN SELECT 1; END SELECT 2; SELECT 3" =
       [%"IF 1=1 BEGIN SELECT 1; END"; %"SELECT 2"; %"SELECT 3"].
Proof. by vm_compute. Qed.

End Examples.
