(* ===== verification/Scanner.v ===== *)
(** * Scanner: [SqlScanner], psql preprocessing and the execution plan ([sql.rs]).

    [SqlScanner] follows quotes, comments and dollar quotes through a whole text
    without buffering it; [preprocess_psql_control_commands] uses it to blank the
    psql commands that a client must not send, and [sql_execution_plan_with_options]
    splits what is left.  A call [scanner.step(sql, idx, ch)] is modelled on the
    text before [idx], the character and the text after it. *)

From S2P Require Import Prelude DbTypes Dialect Lexis PlSql Splitter.
Import SqlDialectProfile.

(** [dollar_quote_tag_at_str(sql, index)] on the suffix at [index]. *)
Definition dollar_quote_tag_at_str (rest : text) : option text :=
  match rest with
  | c :: rest1 =>
      if negb (c =? dollar)%N then None
      else match split_once dollar rest1 with
           | Some (name, _) => if forallb is_tag_char name then Some (dollar :: name ++ [dollar]) else None
           | None => None
           end
  | [] => None
  end.

Module SqlScanner.

Record t : Set := mk {
  profile : SqlDialectProfile.t;
  in_single_quote : bool;
  single_quote_escape_string : bool;
  in_double_quote : bool;
  in_backtick : bool;
  in_line_comment : bool;
  block_comment_depth : nat;
  oracle_q_quote : OracleQQuoteState.t;
  dollar_quote_tag : option text;
  previous : option char
}.

Definition with_profile (p : SqlDialectProfile.t) : t :=
  mk p false false false false false 0 OracleQQuoteState.default None None.

Definition default : t := with_profile SqlDialectProfile.default.

Definition set_previous (c : option char) (s : t) : t :=
  mk (profile s) (in_single_quote s) (single_quote_escape_string s) (in_double_quote s) (in_backtick s)
     (in_line_comment s) (block_comment_depth s) (oracle_q_quote s) (dollar_quote_tag s) c.
Definition set_single_quote (b escape : bool) (s : t) : t :=
  mk (profile s) b escape (in_double_quote s) (in_backtick s)
     (in_line_comment s) (block_comment_depth s) (oracle_q_quote s) (dollar_quote_tag s) (previous s).
Definition set_double_quote (b : bool) (s : t) : t :=
  mk (profile s) (in_single_quote s) (single_quote_escape_string s) b (in_backtick s)
     (in_line_comment s) (block_comment_depth s) (oracle_q_quote s) (dollar_quote_tag s) (previous s).
Definition set_backtick (b : bool) (s : t) : t :=
  mk (profile s) (in_single_quote s) (single_quote_escape_string s) (in_double_quote s) b
     (in_line_comment s) (block_comment_depth s) (oracle_q_quote s) (dollar_quote_tag s) (previous s).
Definition set_line_comment (b : bool) (s : t) : t :=
  mk (profile s) (in_single_quote s) (single_quote_escape_string s) (in_double_quote s) (in_backtick s)
     b (block_comment_depth s) (oracle_q_quote s) (dollar_quote_tag s) (previous s).
Definition set_block_comment_depth (d : nat) (s : t) : t :=
  mk (profile s) (in_single_quote s) (single_quote_escape_string s) (in_double_quote s) (in_backtick s)
     (in_line_comment s) d (oracle_q_quote s) (dollar_quote_tag s) (previous s).
Definition set_oracle_q_quote (q : OracleQQuoteState.t) (s : t) : t :=
  mk (profile s) (in_single_quote s) (single_quote_escape_string s) (in_double_quote s) (in_backtick s)
     (in_line_comment s) (block_comment_depth s) q (dollar_quote_tag s) (previous s).
Definition set_dollar_quote_tag (tag : option text) (s : t) : t :=
  mk (profile s) (in_single_quote s) (single_quote_escape_string s) (in_double_quote s) (in_backtick s)
     (in_line_comment s) (block_comment_depth s) (oracle_q_quote s) tag (previous s).

Section Step.

Context `{CharTable}.

(** The [match ch] at the end of [step]: the quotes. *)
Definition toggle_quotes (before : text) (ch : char) (s : t) : t :=
  let single_quote_backslash_escapes :=
    if in_single_quote s then single_quote_escape_string s
    else supports_backslash_escaped_quotes (profile s) in
  let s :=
    if (ch =? squote)%N
       && negb (in_double_quote s || in_backtick s
                || single_quote_backslash_escapes && opt_is bslash (previous s))
    then
      let open := negb (in_single_quote s) in
      set_single_quote open
        (open && (supports_backslash_escaped_quotes (profile s)
                  || supports_postgres_escape_strings (profile s) && ends_with_escape_string_prefix before)) s
    else if (ch =? dquote)%N
            && negb (in_single_quote s || in_backtick s
                     || supports_backslash_escaped_quotes (profile s) && opt_is bslash (previous s))
    then set_double_quote (negb (in_double_quote s)) s
    else if (ch =? backtick)%N && supports_backtick_identifiers (profile s)
            && negb (in_single_quote s) && negb (in_double_quote s)
    then set_backtick (negb (in_backtick s)) s
    else s in
  set_previous (Some ch) s.

(** [SqlScanner::step]. *)
Definition step (before : text) (ch : char) (rest : text) (s : t) : t :=
  match dollar_quote_tag s with
  | Some tag =>
      set_previous (Some ch)
        (if starts_with tag (ch :: rest) then set_dollar_quote_tag None s else s)
  | None =>
      if in_line_comment s then
        set_previous (Some ch) (if (ch =? nl)%N then set_line_comment false s else s)
      else if 0 <? block_comment_depth s then
        if supports_nested_block_comments (profile s) && opt_is slash (previous s) && (ch =? star)%N
        then set_previous None (set_block_comment_depth (S (block_comment_depth s)) s)
        else if opt_is star (previous s) && (ch =? slash)%N
        then set_previous (Some ch) (set_block_comment_depth (pred (block_comment_depth s)) s)
        else set_previous (Some ch) s
      else if OracleQQuoteState.is_open (oracle_q_quote s) then
        set_previous (Some ch) (set_oracle_q_quote (OracleQQuoteState.consume ch (previous s) (oracle_q_quote s)) s)
      else if negb (in_single_quote s) && negb (in_double_quote s) && negb (in_backtick s) then
        if supports_oracle_q_quotes (profile s) && (ch =? squote)%N && ends_with_oracle_q_quote_prefix before
        then set_previous (Some ch)
               (set_oracle_q_quote (OracleQQuoteState.mk true (OracleQQuoteState.closer (oracle_q_quote s))) s)
        else if ((ch =? dash)%N && head_is dash rest) || (supports_hash_line_comments (profile s) && (ch =? hash)%N)
        then toggle_quotes before ch (set_line_comment true s)
        else if (ch =? slash)%N && head_is star rest
        then set_previous None (set_block_comment_depth 1 s)
        else toggle_quotes before ch
               (match (if supports_dollar_quoted_strings (profile s) then dollar_quote_tag_at_str (ch :: rest) else None) with
                | Some tag => set_dollar_quote_tag (Some tag) s
                | None => s
                end)
      else toggle_quotes before ch s
  end.

Definition is_masked (s : t) : bool :=
  in_single_quote s || in_double_quote s || in_backtick s || in_line_comment s
  || (0 <? block_comment_depth s) || OracleQQuoteState.is_open (oracle_q_quote s)
  || match dollar_quote_tag s with Some _ => true | None => false end.

(** [for (i, ch) in part.char_indices() { scanner.step(sql, offset + i, ch) }]
    where [sql] is [before ++ part ++ rest]. *)
Fixpoint run (before part rest : text) (s : t) : t :=
  match part with
  | [] => s
  | ch :: part' => run (before ++ [ch]) part' rest (step before ch (part' ++ rest) s)
  end.

End Step.

End SqlScanner.

(** ** psql control commands *)

(** [sql.split_inclusive('\n')]. *)
Fixpoint split_inclusive_nl (s : text) : list text :=
  match s with
  | [] => []
  | c :: s' =>
      if (c =? nl)%N then [c] :: split_inclusive_nl s'
      else match split_inclusive_nl s' with
           | seg :: segs => (c :: seg) :: segs
           | [] => [[c]]
           end
  end.

(** [segment.strip_suffix('\n').unwrap_or(segment)]. *)
Definition strip_newline (segment : text) : text :=
  if ends_with [nl] segment then take (length segment - 1) segment else segment.

(** A command line, blanked: UTF-16 offsets stay stable. *)
Definition blank_line (line : text) : text :=
  concat (map (fun ch => if is_whitespace ch then [ch] else repeat space (len_utf16 ch)) line).

Section Psql.

Context `{CharTable}.

(** The loop of [preprocess_psql_control_commands] over the segments left,
    [before] being the text of the segments already read. *)
Fixpoint preprocess_segments (scanner : SqlScanner.t) (before : text) (segments : list text) : text * bool :=
  match segments with
  | [] => ([], false)
  | segment :: later =>
      let line := strip_newline segment in
      let command :=
        if SqlScanner.is_masked scanner then None else parse_ignorable_psql_control_command (trim line) in
      match command with
      | Some c =>
          let terminated := ends_with [nl] segment in
          let scanner' := if terminated then SqlScanner.step (before ++ line) nl (concat later) scanner else scanner in
          let '(output, stop) := preprocess_segments scanner' (before ++ segment) later in
          (blank_line line ++ (if terminated then [nl] else []) ++ output,
           match c with OnErrorStop => true | ClientDisplay => stop end)
      | None =>
          let '(output, stop) :=
            preprocess_segments (SqlScanner.run before segment (concat later) scanner) (before ++ segment) later in
          (segment ++ output, stop)
      end
  end.

Definition preprocess_psql_control_commands (sql : text) (p : SqlDialectProfile.t) : text * bool :=
  preprocess_segments (SqlScanner.with_profile p) [] (split_inclusive_nl sql).

(** ** The execution plan of the query editor *)

Record SqlExecutionPlan : Set := mk_plan { statements : list text; plan_stop_on_error : bool }.

Context `{OracleTokenizer}.

Definition sql_execution_plan_with_options (sql : text) (o : SqlParsingOptions.t) : SqlExecutionPlan :=
  if negb (supports_psql_control_commands (SqlParsingOptions.profile o))
  then mk_plan (split_sql_statements_with_options sql o) false
  else
    let '(sql, stop_on_error) := preprocess_psql_control_commands sql (SqlParsingOptions.profile o) in
    let parsing_options :=
      SqlParsingOptions.from_profile (set_supports_psql_control_commands false (SqlParsingOptions.profile o)) in
    mk_plan (split_sql_statements_with_options sql parsing_options) stop_on_error.

Definition sql_execution_plan_for_database (sql : text) (db : DatabaseType) : SqlExecutionPlan :=
  sql_execution_plan_with_options sql (SqlParsingOptions.for_database_type db).

Definition sql_execution_plan_for_database_with_compatibility (sql : text) (db : DatabaseType)
    (compatibility_mode : option text) : SqlExecutionPlan :=
  sql_execution_plan_with_options sql (SqlParsingOptions.for_database_type_and_compatibility db compatibility_mode).

Definition split_sql_statements_for_database (sql : text) (db : DatabaseType) : list text :=
  statements (sql_execution_plan_for_database sql db).

Definition split_sql_statements_for_database_with_compatibility (sql : text) (db : DatabaseType)
    (compatibility_mode : option text) : list text :=
  statements (sql_execution_plan_for_database_with_compatibility sql db compatibility_mode).

End Psql.

(** [statement_summary]: one line, at most 120 characters. *)
Definition statement_summary (statement : text) : text :=
  let collapsed := join [space] (split_whitespace statement) in
  if length collapsed <=? 120 then collapsed else take 120 collapsed.

Section Examples.

#[local] Existing Instance latin1_table.
#[local] Existing Instance fallback_tokenizer.

Example plan_postgres :
  let sql := %"\set ON_ERROR_STOP on
SELECT '
\echo x';
\echo done
SELECT 2;" in
  sql_execution_plan_for_database sql Postgres
  = mk_plan [%"SELECT '
\echo x'"; %"SELECT 2"] true.
Proof. by vm_compute. Qed.

Example plan_kingbase_mysql :
  split_sql_statements_for_database_with_compatibility
    %"DELIMITER $$
CREATE PROCEDURE p() BEGIN SELECT 1; SELECT 2; END$$
DELIMITER ;
SELECT 3;" Kingbase (Some %" MySQL ")
  = [%"CREATE PROCEDURE p() BEGIN SELECT 1; SELECT 2; END"; %"SELECT 3"].
Proof. by vm_compute. Qed.

End Examples.
