(* ===== verification/ScannerFacts.v ===== *)
(** * ScannerFacts: what psql preprocessing keeps.

    Editor cursors arrive as UTF-16 offsets into the script the user sees, and
    the plan is computed on the preprocessed script: the theorems say that the
    two scripts agree line by line, that a line differs only by blanks and only
    when it is an ignorable psql command, and that offsets are stable. *)

From S2P Require Import Prelude DbTypes Dialect Lexis PlSql Splitter Scanner.

(** ** Lines *)

Lemma split_inclusive_concat s : concat (split_inclusive_nl s) = s.
Proof.
  induction s as [|c s IH]; cbn; [done|]. destruct (c =? nl)%N; cbn; [by rewrite IH|].
  destruct (split_inclusive_nl s) as [|seg segs]; cbn in *; by rewrite <- IH.
Qed.

(** A line: no newline but possibly the last character, which is then one. *)
Definition is_segment (seg : text) : Prop :=
  exists line, Forall (fun c => c <> nl) line /\ (seg = line ++ [nl] \/ (seg = line /\ line <> [])).

(** Only the last line may lack its newline. *)
Fixpoint lines_ok (segs : list text) : Prop :=
  match segs with
  | [] => True
  | [seg] => is_segment seg
  | seg :: segs => (exists line, Forall (fun c => c <> nl) line /\ seg = line ++ [nl]) /\ lines_ok segs
  end.

Lemma lines_ok_cons_nl line segs :
  Forall (fun c => c <> nl) line -> lines_ok segs -> lines_ok ((line ++ [nl]) :: segs).
Proof.
  intros Hl Hs. destruct segs; cbn; [by exists line; auto|]. split; [by exists line|done].
Qed.

Lemma split_inclusive_lines_ok s : lines_ok (split_inclusive_nl s).
Proof.
  induction s as [|c s IH]; [done|]. cbn [split_inclusive_nl].
  destruct (N.eqb_spec c nl) as [->|Hc]; [by apply (lines_ok_cons_nl [])|].
  destruct (split_inclusive_nl s) as [|seg segs].
  { exists [c]. split; [by repeat constructor|]. by right. }
  destruct segs as [|seg' segs].
  - destruct IH as (line & Hl & Hseg). exists (c :: line). split; [by constructor|].
    destruct Hseg as [->|[-> _]]; [by left|by right].
  - destruct IH as [(line & Hl & ->) Hs]. split; [|done].
    exists (c :: line). split; [by constructor|done].
Qed.

Lemma split_inclusive_line line s :
  Forall (fun c => c <> nl) line -> split_inclusive_nl ((line ++ [nl]) ++ s) = (line ++ [nl]) :: split_inclusive_nl s.
Proof.
  induction 1 as [|c line Hc _ IH]; cbn; [done|].
  cbn in IH. rewrite IH. by destruct (N.eqb_spec c nl).
Qed.

Lemma split_inclusive_last line :
  Forall (fun c => c <> nl) line -> line <> [] -> split_inclusive_nl line = [line].
Proof.
  induction 1 as [|c line Hc Hl IH]; cbn; [done|]. intros _.
  destruct (N.eqb_spec c nl); [done|]. destruct line as [|c' line]; [done|].
  by rewrite IH.
Qed.

(** Lines are recovered from their concatenation. *)
Lemma split_inclusive_of_lines segs : lines_ok segs -> split_inclusive_nl (concat segs) = segs.
Proof.
  induction segs as [|seg segs IH]; [done|]. destruct segs as [|seg' segs].
  - intros (line & Hl & [->|[-> Hne]]); cbn; rewrite app_nil_r.
    + pose proof (split_inclusive_line line [] Hl) as Hx. by rewrite app_nil_r in Hx.
    + by apply split_inclusive_last.
  - intros [(line & Hl & ->) Hs]. cbn [concat]. rewrite split_inclusive_line by done. f_equal. by apply IH.
Qed.

Lemma ends_with_snoc l c : ends_with [c] (l ++ [c]) = true.
Proof. apply ends_with_app. by exists l. Qed.

Lemma ends_with_nl_line line : Forall (fun c => c <> nl) line -> ends_with [nl] line = false.
Proof.
  intros Hl. apply not_true_is_false. rewrite ends_with_app. intros [b ->].
  apply Forall_app in Hl as [_ Hl]. by apply Forall_cons in Hl as [? _].
Qed.

Lemma strip_newline_snoc line : strip_newline (line ++ [nl]) = line.
Proof. unfold strip_newline. rewrite ends_with_snoc, length_app. cbn. rewrite Nat.add_sub. apply take_app_length. Qed.

Lemma strip_newline_line line : Forall (fun c => c <> nl) line -> strip_newline line = line.
Proof. intros Hl. unfold strip_newline. by rewrite ends_with_nl_line. Qed.

(** ** Widths *)


Lemma utf16_len_cons c s : utf16_len (c :: s) = len_utf16 c + utf16_len s.
Proof. done. Qed.

Lemma utf16_len_app a b : utf16_len (a ++ b) = utf16_len a + utf16_len b.
Proof. unfold utf16_len. by rewrite map_app, list_sum_app. Qed.

Lemma utf16_len_repeat n : utf16_len (repeat space n) = n.
Proof.
  induction n as [|n IH]; [done|].
  change (utf16_len (repeat space (S n))) with (1 + utf16_len (repeat space n)). by rewrite IH.
Qed.

Lemma utf16_len_blank_line line : utf16_len (blank_line line) = utf16_len line.
Proof.
  induction line as [|c line IH]; [done|].
  change (blank_line (c :: line))
    with ((if is_whitespace c then [c] else repeat space (len_utf16 c)) ++ blank_line line).
  rewrite utf16_len_app, IH, utf16_len_cons.
  destruct (is_whitespace c); [rewrite utf16_len_cons; cbn [utf16_len map list_sum foldr]; lia|].
  by rewrite utf16_len_repeat.
Qed.

Lemma blank_line_blank line : Forall (fun c => is_whitespace c = true) (blank_line line).
Proof.
  unfold blank_line. induction line as [|c line IH]; cbn [map concat]; [constructor|].
  apply Forall_app. split; [|done]. destruct (is_whitespace c) eqn:Hc; [by repeat constructor|].
  induction (len_utf16 c); cbn; by repeat constructor.
Qed.

Lemma blank_line_no_nl line : Forall (fun c => c <> nl) line -> Forall (fun c => c <> nl) (blank_line line).
Proof.
  unfold blank_line. induction 1 as [|c line Hc _ IH]; cbn [map concat]; [constructor|].
  apply Forall_app. split; [|done]. destruct (is_whitespace c); [by repeat constructor|].
  induction (len_utf16 c); cbn; by repeat constructor.
Qed.

Lemma blank_line_nil line : blank_line line = [] -> line = [].
Proof.
  destruct line as [|c line]; [done|]. cbn. destruct (is_whitespace c); [done|].
  unfold len_utf16. by destruct (c <? 65536)%N.
Qed.

(** ** The preprocessed script, line by line *)

(** A line of the script and the line that replaces it. *)
Definition line_kept_or_blanked (seg seg' : text) : Prop :=
  seg' = seg
  \/ (exists c, parse_ignorable_psql_control_command (trim (strip_newline seg)) = Some c)
     /\ seg' = blank_line (strip_newline seg) ++ (if ends_with [nl] seg then [nl] else []).

Lemma line_changed_is_blank seg seg' :
  line_kept_or_blanked seg seg' -> seg' = seg \/ Forall (fun c => is_whitespace c = true) seg'.
Proof.
  intros [?|[_ ->]]; [by left|right]. apply Forall_app. split; [apply blank_line_blank|].
  destruct (ends_with [nl] seg); by repeat constructor.
Qed.

Section Preprocess.

Context `{CharTable}.

(** The output is one line per line of the input. *)
Lemma preprocess_segments_lines segs scanner before :
  exists segs', fst (preprocess_segments scanner before segs) = concat segs' /\ Forall2 line_kept_or_blanked segs segs'.
Proof.
  revert scanner before. induction segs as [|seg segs IH]; intros scanner before; cbn [preprocess_segments].
  { exists []. by split. }
  destruct (if SqlScanner.is_masked scanner then _ else _) as [c|] eqn:Hc.
  - destruct (SqlScanner.is_masked scanner); [done|].
    match goal with |- context [preprocess_segments ?sc ?b segs] => destruct (IH sc b) as (segs' & Heq & Hf) end.
    destruct (preprocess_segments _ _ segs) as [output stop]. cbn in Heq |- *. subst output.
    exists ((blank_line (strip_newline seg) ++ (if ends_with [nl] seg then [nl] else [])) :: segs').
    split; [cbn; by rewrite <- app_assoc|]. constructor; [|done]. right. by eauto.
  - match goal with |- context [preprocess_segments ?sc ?b segs] => destruct (IH sc b) as (segs' & Heq & Hf) end.
    destruct (preprocess_segments _ _ segs) as [output stop]. cbn in Heq |- *. subst output.
    exists (seg :: segs'). split; [done|]. constructor; [by left|done].
Qed.

Lemma line_kept_or_blanked_width seg seg' :
  is_segment seg -> line_kept_or_blanked seg seg' -> utf16_len seg' = utf16_len seg.
Proof.
  intros (line & Hl & Hseg) [->|[_ ->]]; [done|]. rewrite utf16_len_app, utf16_len_blank_line.
  destruct Hseg as [->|[-> _]].
  - by rewrite strip_newline_snoc, ends_with_snoc, utf16_len_app.
  - rewrite strip_newline_line, ends_with_nl_line by done. cbn. lia.
Qed.

Lemma line_kept_or_blanked_segment seg seg' :
  is_segment seg -> line_kept_or_blanked seg seg' -> is_segment seg'.
Proof.
  intros (line & Hl & Hseg) [->|[_ ->]]; [by exists line|]. exists (blank_line line).
  split; [by apply blank_line_no_nl|]. destruct Hseg as [->|[-> Hne]].
  - left. by rewrite strip_newline_snoc, ends_with_snoc.
  - right. rewrite strip_newline_line, ends_with_nl_line, app_nil_r by done.
    split; [done|]. intros ?%blank_line_nil. done.
Qed.

Lemma line_kept_or_blanked_terminated line seg' :
  Forall (fun c => c <> nl) line -> line_kept_or_blanked (line ++ [nl]) seg' ->
  exists line', Forall (fun c => c <> nl) line' /\ seg' = line' ++ [nl].
Proof.
  intros Hl [->|[_ ->]]; [by exists line|]. exists (blank_line line).
  split; [by apply blank_line_no_nl|]. by rewrite strip_newline_snoc, ends_with_snoc.
Qed.

Lemma lines_ok_segments segs : lines_ok segs -> Forall is_segment segs.
Proof.
  induction segs as [|seg segs IH]; [constructor|]. destruct segs as [|seg' segs].
  - intros Hs. by repeat constructor.
  - intros [(line & Hl & ->) Hs]. constructor; [by exists line; auto|by apply IH].
Qed.

Lemma lines_ok_kept segs segs' : lines_ok segs -> Forall2 line_kept_or_blanked segs segs' -> lines_ok segs'.
Proof.
  intros Hok Hf. induction Hf as [|seg seg' segs segs' Hs Hf IH]; [done|].
  destruct Hf as [|seg2 seg2' segs segs' Hs2 Hf].
  - cbn in *. by eapply line_kept_or_blanked_segment.
  - destruct Hok as [(line & Hl & ->) Hok]. split; [|by apply IH].
    by eapply line_kept_or_blanked_terminated.
Qed.

Lemma preprocess_lines sql p :
  Forall2 line_kept_or_blanked (split_inclusive_nl sql)
    (split_inclusive_nl (fst (preprocess_psql_control_commands sql p))).
Proof.
  destruct (preprocess_segments_lines (split_inclusive_nl sql) (SqlScanner.with_profile p) []) as (segs' & Heq & Hf).
  unfold preprocess_psql_control_commands. rewrite Heq, split_inclusive_of_lines; [done|].
  eapply lines_ok_kept; [apply split_inclusive_lines_ok|done].
Qed.

Lemma kept_widths segs segs' :
  Forall is_segment segs -> Forall2 line_kept_or_blanked segs segs' -> map utf16_len segs' = map utf16_len segs.
Proof.
  intros Hs Hf. induction Hf as [|seg seg' segs segs' Hl Hf IH]; [done|].
  apply Forall_cons in Hs as [Hseg Hs]. cbn. f_equal; [by apply line_kept_or_blanked_width|by apply IH].
Qed.

(** A script none of whose lines is a recognised command is left alone. *)
Lemma preprocess_segments_plain segs scanner before :
  Forall (fun seg => parse_ignorable_psql_control_command (trim (strip_newline seg)) = None) segs ->
  preprocess_segments scanner before segs = (concat segs, false).
Proof.
  intros Hs. revert scanner before. induction Hs as [|seg segs Hseg _ IH]; intros scanner before; [done|].
  cbn [preprocess_segments]. rewrite Hseg. by destruct (SqlScanner.is_masked scanner); rewrite IH.
Qed.

End Preprocess.

(** ** Contract *)

Section Contract.

Context `{CharTable}.

(** Psql preprocessing keeps the editor's positions.  The preprocessed
    script has the lines of the script in the same order; each is the original
    line or, when the line is a psql command that may be ignored, its blanked
    form; a line that changed is only whitespace; and every line keeps its width
    in UTF-16 units. *)
Theorem preprocess_keeps_positions (sql : text) (p : SqlDialectProfile.t) :
  let out := fst (preprocess_psql_control_commands sql p) in
  Forall2 line_kept_or_blanked (split_inclusive_nl sql) (split_inclusive_nl out)
  /\ Forall2 (fun seg seg' => seg' = seg \/ Forall (fun c => is_whitespace c = true) seg')
       (split_inclusive_nl sql) (split_inclusive_nl out)
  /\ map utf16_len (split_inclusive_nl out) = map utf16_len (split_inclusive_nl sql).
Proof.
  split; [apply preprocess_lines|].
  split; [eapply Forall2_impl; [apply preprocess_lines|apply line_changed_is_blank]|].
  apply kept_widths; [|apply preprocess_lines].
  apply lines_ok_segments, split_inclusive_lines_ok.
Qed.

End Contract.

(** A script without ignorable psql commands reaches the splitter
    unchanged, and errors do not stop it. *)
Theorem preprocess_plain_script `{CharTable} (sql : text) (p : SqlDialectProfile.t)
    (Hplain : Forall (fun seg => parse_ignorable_psql_control_command (trim (strip_newline seg)) = None)
                (split_inclusive_nl sql)) :
  preprocess_psql_control_commands sql p = (sql, false).
Proof.
  unfold preprocess_psql_control_commands.
  by rewrite preprocess_segments_plain, split_inclusive_concat.
Qed.

#[local] Existing Instance latin1_table.

Lemma preprocess_plain_script_witness :
  preprocess_psql_control_commands (%"\i other.sql
SELECT 1;") (SqlDialectProfile.for_database_type Postgres) = (%"\i other.sql
SELECT 1;", false).
Proof. apply preprocess_plain_script. by repeat constructor. Defined.

(** An empty dollar-quoted string leaves the scanner inside a dollar quote: the
    closing tag is recognised at the second character of the opening one, and
    the last two dollars open a new quote.  The psql command on the next line
    is then not recognised, so it reaches the server. *)
Lemma empty_dollar_quote_hides_psql_command :
  preprocess_psql_control_commands (%"SELECT $$$$;
\set ON_ERROR_STOP on
") (SqlDialectProfile.for_database_type Postgres) = (%"SELECT $$$$;
\set ON_ERROR_STOP on
", false)
  /\ preprocess_psql_control_commands (%"SELECT $$a$$;
\set ON_ERROR_STOP on
") (SqlDialectProfile.for_database_type Postgres) = (%"SELECT $$a$$;
                     
", true).
Proof. by vm_compute. Qed.
