(* ===== verification/Ranges.v ===== *)
(** * Ranges: statement ranges and the statement under the cursor ([sql.rs]).

    [split_sql_statement_ranges_with_options] cuts the text of the editor into
    statements that remember where they stand; [find_statement_at_cursor] picks
    the one to run.  The sources count bytes; here positions count characters,
    the UTF-8 offset of a position being the [byte_len] of the text before it.
    The loop is a zipper: [before] is the text already read, so [sql[..i]].
    Slicing [sql[start..end]] with [end < start] panics, which is the outcome
    [Panics]. *)

From S2P Require Import Prelude DbTypes Dialect Lexis MysqlRoutine TSqlFlow PlSql Splitter Scanner.
Import SqlDialectProfile.

Record SqlStatementRange : Set := mk_range { range_text : text; range_start : nat; range_end : nat }.

(** ** The bounds of a statement *)

(** [tdsql_mysql::leading_directive_start]: a comment on the line of the
    statement, or [/*proxy*/] anywhere right before it, belongs to it. *)
Definition leading_directive_start (statement : text) (executable_start : nat) : option nat :=
  if length statement <? executable_start then None
  else
    let prefix := take executable_start statement in
    let line_start := length (drop_while (fun c => negb ((c =? cr)%N || (c =? nl)%N)) (rev prefix)) in
    let line_prefix := drop line_start prefix in
    let trimmed_line_start := trim_start line_prefix in
    if starts_with [slash; star] trimmed_line_start && ends_with [star; slash] (trim_end trimmed_line_start)
    then Some (line_start + length line_prefix - length trimmed_line_start)
    else
      let trimmed_prefix := trim_end prefix in
      if ends_with %"/*proxy*/" trimmed_prefix then Some (length trimmed_prefix - 9) else None.

Definition executable_sql_bounds (statement : text) (o : SqlParsingOptions.t) : option (nat * nat) :=
  let trimmed := trim_end statement in
  let executable := leading_executable_sql_with_options trimmed o in
  if is_empty executable then None
  else
    let executable_start := length trimmed - length executable in
    let start :=
      if preserves_tdsql_leading_directives (SqlParsingOptions.profile o)
      then from_option id executable_start (leading_directive_start trimmed executable_start)
      else executable_start in
    Some (start, length trimmed).

(** [push_statement_range(ranges, sql, start, end, options)] on [start] and the
    slice [sql[start..end]]: the range it pushes. *)
Definition push_statement_range (o : SqlParsingOptions.t) (start : nat) (slice : text) : list SqlStatementRange :=
  match executable_sql_bounds slice o with
  | None => []
  | Some (relative_start, relative_end) =>
      let text := drop relative_start (take relative_end slice) in
      if is_empty text then [] else [mk_range text (start + relative_start) (start + relative_end)]
  end.

(** [oracle_q_quote_end] on the text after the quote: the characters consumed. *)
Definition oracle_q_quote_len (rest : text) : option nat :=
  match rest with
  | opening :: content =>
      match oracle_q_quote_closer opening with
      | Some closer =>
          match after_first [closer; squote] content with
          | Some later => Some (length rest - length later)
          | None => None
          end
      | None => None
      end
  | [] => None
  end.

(** [is_on_delimiter_line(sql, range_start, index, options)] on the slice
    [sql[range_start..index]]. *)
Definition is_on_delimiter_line (slice : text) (o : SqlParsingOptions.t) : bool :=
  let line := trim_start (last_line slice) in
  (9 <=? length line)
  && eq_ignore_ascii_case (take 9 line) %"delimiter"
  && negb (has_executable_sql_with_options (trim (before_last_line slice)) o).

(** ** The loop over the text *)

Module StatementRanges.

Record t : Set := mk {
  before : text;
  start : nat;
  in_single_quote : bool;
  single_quote_escape_string : bool;
  in_double_quote : bool;
  in_backtick : bool;
  in_line_comment : bool;
  block_comment_depth : nat;
  dollar_quote_tag : option text;
  custom_delimiter : option text;
  postgres_dollar_quoted_routine : bool;
  oracle_block : OraclePlSqlBlockTracker.t;
  oracle_block_start : nat
}.

Definition init : t :=
  mk [] 0 false false false false false 0 None None false OraclePlSqlBlockTracker.default 0.

Definition set_quotes (single escape double back : bool) (s : t) : t :=
  mk (before s) (start s) single escape double back (in_line_comment s) (block_comment_depth s)
     (dollar_quote_tag s) (custom_delimiter s) (postgres_dollar_quoted_routine s) (oracle_block s) (oracle_block_start s).
Definition set_comments (line : bool) (depth : nat) (s : t) : t :=
  mk (before s) (start s) (in_single_quote s) (single_quote_escape_string s) (in_double_quote s) (in_backtick s)
     line depth (dollar_quote_tag s) (custom_delimiter s) (postgres_dollar_quoted_routine s) (oracle_block s)
     (oracle_block_start s).
Definition set_dollar (tag : option text) (routine : bool) (s : t) : t :=
  mk (before s) (start s) (in_single_quote s) (single_quote_escape_string s) (in_double_quote s) (in_backtick s)
     (in_line_comment s) (block_comment_depth s) tag (custom_delimiter s) routine (oracle_block s) (oracle_block_start s).
Definition set_delimiter (d : option text) (s : t) : t :=
  mk (before s) (start s) (in_single_quote s) (single_quote_escape_string s) (in_double_quote s) (in_backtick s)
     (in_line_comment s) (block_comment_depth s) (dollar_quote_tag s) d (postgres_dollar_quoted_routine s)
     (oracle_block s) (oracle_block_start s).
Definition set_oracle (tr : OraclePlSqlBlockTracker.t) (block_start : nat) (s : t) : t :=
  mk (before s) (start s) (in_single_quote s) (single_quote_escape_string s) (in_double_quote s) (in_backtick s)
     (in_line_comment s) (block_comment_depth s) (dollar_quote_tag s) (custom_delimiter s)
     (postgres_dollar_quoted_routine s) tr block_start.
Definition set_start (n : nat) (s : t) : t :=
  mk (before s) n (in_single_quote s) (single_quote_escape_string s) (in_double_quote s) (in_backtick s)
     (in_line_comment s) (block_comment_depth s) (dollar_quote_tag s) (custom_delimiter s)
     (postgres_dollar_quoted_routine s) (oracle_block s) (oracle_block_start s).
Definition advance (read : text) (s : t) : t :=
  mk (before s ++ read) (start s) (in_single_quote s) (single_quote_escape_string s) (in_double_quote s) (in_backtick s)
     (in_line_comment s) (block_comment_depth s) (dollar_quote_tag s) (custom_delimiter s)
     (postgres_dollar_quoted_routine s) (oracle_block s) (oracle_block_start s).

(** [&sql[start..i]]. *)
Definition current (s : t) : text := drop (start s) (before s).

Definition outside_quotes (s : t) : bool :=
  negb (in_single_quote s) && negb (in_double_quote s) && negb (in_backtick s).

(** [start = end; postgres_dollar_quoted_routine = false]. *)
Definition restart (n : nat) (s : t) : t := set_dollar (dollar_quote_tag s) false (set_start n s).

(** The ranges of the pieces of a T-SQL batch that starts at [pos]. *)
Fixpoint piece_ranges (o : SqlParsingOptions.t) (pos : nat) (pieces : list text) : list SqlStatementRange :=
  match pieces with
  | [] => []
  | piece :: rest => push_statement_range o pos piece ++ piece_ranges o (pos + length piece) rest
  end.

Section Step.

Context `{CharTable} `{OracleTokenizer}.
Variable o : SqlParsingOptions.t.
Abbreviation prof := (SqlParsingOptions.profile o).

(** The [keeps_sqlserver_control_flow_batch] branch. *)
Definition on_sqlserver_batch (s : t) : t * list SqlStatementRange :=
  let body := current s in
  let next := S (length (before s)) in
  if negb (sqlserver_control_flow_batch_is_complete (body ++ [semi])) then (s, [])
  else
    let '(pieces, trailing) := SqlStatementSplitter.batch_pieces (length body) body in
    if is_empty pieces then (restart next s, push_statement_range o (start s) (body ++ [semi]))
    else
      let out := piece_ranges o (start s) pieces in
      let piece_from := start s + length (concat pieces) in
      if is_empty (trim trailing) then (restart next s, out)
      else if keeps_sqlserver_control_flow_batch o trailing then
        if sqlserver_control_flow_batch_is_complete trailing
        then (restart next s, out ++ push_statement_range o piece_from (trailing ++ [semi]))
        else (set_start piece_from s, out)
      else (restart next s, out ++ push_statement_range o piece_from trailing).

(** The [';'] arm. *)
Definition on_semicolon (s : t) : t * list SqlStatementRange :=
  let body := current s in
  let next := S (length (before s)) in
  let keep_until complete s :=
    if complete : bool then (restart next s, push_statement_range o (start s) (body ++ [semi])) else (s, []) in
  if supports_mysql_routine_blocks prof && starts_with_mysql_routine_block body then
    if mysql_routine_block_is_complete (body ++ [semi])
    then (restart next s, push_statement_range o (start s) body) else (s, [])
  else
    let s := if oracle_block_start s =? start s then s
             else set_oracle OraclePlSqlBlockTracker.default (start s) s in
    let '(kept, s) :=
      if postgres_dollar_quoted_routine s then (false, s)
      else
        let '(kept, tracker) := OraclePlSqlBlockTracker.keeps_block_together o body (oracle_block s) in
        (kept, set_oracle tracker (oracle_block_start s) s) in
    if kept then
      let '(complete, tracker) := OraclePlSqlBlockTracker.is_complete (body ++ [semi]) (oracle_block s) in
      keep_until complete (set_oracle tracker (oracle_block_start s) s)
    else if supports_hana_script_blocks prof && starts_with_hana_script_block body
    then keep_until (hana_script_block_is_complete (body ++ [semi])) s
    else if supports_firebird_routine_blocks prof && starts_with_firebird_routine_block body
    then keep_until (firebird_routine_block_is_complete (body ++ [semi])) s
    else if keeps_sqlserver_control_flow_batch o body then on_sqlserver_batch s
    else (restart next s, push_statement_range o (start s) body).

(** The [match ch]. *)
Definition match_char (ch : char) (s : t) : t * list SqlStatementRange :=
  let single_quote_backslash_escapes :=
    if in_single_quote s then single_quote_escape_string s else supports_backslash_escaped_quotes prof in
  if (ch =? squote)%N
     && negb (in_double_quote s || in_backtick s
              || single_quote_backslash_escapes && has_odd_trailing_backslashes (current s)) then
    let opened := negb (in_single_quote s) in
    (set_quotes opened
       (opened && (supports_backslash_escaped_quotes prof
                   || (supports_postgres_escape_strings prof && ends_with_escape_string_prefix (current s))))
       (in_double_quote s) (in_backtick s) s, [])
  else if (ch =? dquote)%N
     && negb (in_single_quote s || in_backtick s
              || supports_backslash_escaped_quotes prof && has_odd_trailing_backslashes (current s)) then
    (set_quotes (in_single_quote s) (single_quote_escape_string s) (negb (in_double_quote s)) (in_backtick s) s, [])
  else if (ch =? backtick)%N && supports_backtick_identifiers prof
     && negb (in_single_quote s) && negb (in_double_quote s) then
    (set_quotes (in_single_quote s) (single_quote_escape_string s) (in_double_quote s) (negb (in_backtick s)) s, [])
  else if (ch =? semi)%N
     && negb (in_single_quote s || in_double_quote s || in_backtick s
              || match custom_delimiter s with Some _ => true | None => false end
              || (supports_custom_delimiter_commands prof && is_on_delimiter_line (current s) o))
  then on_semicolon s
  else
    let read := current s ++ [ch] in
    match (if outside_quotes s then custom_delimiter s else None) with
    | Some delimiter =>
        if ends_with delimiter read && negb (is_on_delimiter_line read o)
        then (restart (S (length (before s))) s,
              push_statement_range o (start s) (take (length read - length delimiter) read))
        else (s, [])
    | None => (s, [])
    end.

(** The [ch == '\n'] block: [Some] when the loop continued. *)
Definition on_newline (s : t) : outcome (option (t * list SqlStatementRange)) :=
  let line_start := length (before_last_line (before s)) in
  let line := trim (last_line (before s)) in
  let next := S (length (before s)) in
  if supports_slash_line_block_delimiter prof && text_eqb line [slash] then
    do slice <- slice_text (before s) (start s) line_start;
    Returns (Some (restart next s, push_statement_range o (start s) slice))
  else if supports_custom_delimiter_commands prof then
    match parse_delimiter_command line with
    | Some new_delimiter =>
        do slice <- slice_text (before s) (start s) line_start;
        if has_executable_sql_with_options slice o then Returns None
        else
          let out :=
            if has_executable_sql_with_options (trim slice) o then push_statement_range o (start s) slice else [] in
          Returns (Some (restart next
                           (set_delimiter (if text_eqb new_delimiter [semi] then None else Some new_delimiter) s), out))
    | None => Returns None
    end
  else Returns None.

(** Openers outside quotes: [Some (s', n)] when the loop continued after
    consuming [n] characters after [ch]. *)
Definition open_construct (ch : char) (rest : text) (s : t) : option (t * nat) :=
  match (if supports_oracle_q_quotes prof && (ch =? squote)%N && ends_with_oracle_q_quote_prefix (before s)
         then oracle_q_quote_len rest else None) with
  | Some n => Some (s, n)
  | None =>
      if (ch =? dash)%N && head_is dash rest && dash_dash_starts_line_comment prof (head (drop 1 rest))
      then Some (set_comments true (block_comment_depth s) s, 1)
      else if supports_hash_line_comments prof && (ch =? hash)%N
      then Some (set_comments true (block_comment_depth s) s, 0)
      else if (ch =? slash)%N && head_is star rest
      then Some (set_comments (in_line_comment s) 1 s, 1)
      else match (if supports_dollar_quoted_strings prof then dollar_quote_tag_at_str (ch :: rest) else None) with
      | Some tag =>
          if match custom_delimiter s with None => true | Some _ => false end
             && negb (is_on_delimiter_line (current s) o)
          then
            let routine :=
              if supports_postgres_dollar_quoted_routines prof
                 && starts_with_postgres_dollar_quoted_routine_prefix (current s)
              then true else postgres_dollar_quoted_routine s in
            Some (set_dollar (Some tag) routine s, pred (length tag))
          else None
      | None => None
      end
  end.

(** One iteration, without the move to the next position. *)
Definition step (s : t) (ch : char) (rest : text) : outcome (t * list SqlStatementRange * nat) :=
  match dollar_quote_tag s with
  | Some tag =>
      if starts_with tag (ch :: rest)
      then Returns (set_dollar None (postgres_dollar_quoted_routine s) s, [], pred (length tag))
      else Returns (s, [], 0)
  | None =>
      if in_line_comment s then
        Returns (set_comments (negb (ch =? nl)%N) (block_comment_depth s) s, [], 0)
      else if 0 <? block_comment_depth s then
        if (ch =? star)%N && head_is slash rest
        then Returns (set_comments false (pred (block_comment_depth s)) s, [], 1)
        else if supports_nested_block_comments prof && (ch =? slash)%N && head_is star rest
        then Returns (set_comments false (S (block_comment_depth s)) s, [], 1)
        else Returns (s, [], 0)
      else
        let plain := let '(s', out) := match_char ch s in Returns (s', out, 0) in
        if outside_quotes s then
          match open_construct ch rest s with
          | Some (s', n) => Returns (s', [], n)
          | None =>
              if (ch =? nl)%N then
                do continued <- on_newline s;
                match continued with
                | Some (s', out) => Returns (s', out, 0)
                | None => plain
                end
              else plain
          end
        else plain
  end.

Definition loop_step (state : outcome t) (ch : char) (rest : text) : outcome t * list SqlStatementRange * nat :=
  match state with
  | Returns s =>
      match step s ch rest with
      | Returns (s', out, n) => (Returns (advance (ch :: take n rest) s'), out, n)
      | Panics => (Panics, [], 0)
      | OutOfFuel => (OutOfFuel, [], 0)
      end
  | _ => (state, [], 0)
  end.

(** What follows the loop. *)
Definition finish (s : t) : list SqlStatementRange :=
  let remaining := current s in
  let trimmed := trim remaining in
  let '(before_last, last) :=
    match rsplit_once nl trimmed with
    | Some (b, l) => (trim b, trim l)
    | None => ([], trim trimmed)
    end in
  let before_final_line :=
    if is_empty (before_last_line remaining) then [] else push_statement_range o (start s) (before_last_line remaining) in
  if supports_custom_delimiter_commands prof
     && match parse_delimiter_command last with Some _ => true | None => false end
     && negb (has_executable_sql_with_options before_last o)
  then before_final_line
  else if supports_slash_line_block_delimiter prof && text_eqb last [slash]
  then before_final_line
  else push_statement_range o (start s) remaining.

End Step.

End StatementRanges.

Section Ranges.

Context `{CharTable} `{OracleTokenizer}.

Definition split_sql_statement_ranges_with_options (sql : text) (o : SqlParsingOptions.t)
    : outcome (list SqlStatementRange) :=
  let '(state, ranges) := scan_loop (StatementRanges.loop_step o) (Returns StatementRanges.init) 0 sql in
  do s <- state; Returns (ranges ++ StatementRanges.finish o s).

Definition statement_ranges_for_database (sql : text) (db : DatabaseType) : outcome (list SqlStatementRange) :=
  split_sql_statement_ranges_with_options sql (SqlParsingOptions.for_database_type db).

(** ** The statement under the cursor *)

(** [utf16_offset_to_byte_index], the position counted in characters. *)
Fixpoint utf16_offset_from (utf16_seen index : nat) (sql : text) (offset : nat) : nat :=
  match sql with
  | [] => index
  | ch :: rest =>
      if offset <=? utf16_seen then index
      else
        let utf16_seen := utf16_seen + len_utf16 ch in
        if offset <? utf16_seen then S index else utf16_offset_from utf16_seen (S index) rest offset
  end.
Definition utf16_offset_to_index (sql : text) (offset : nat) : nat := utf16_offset_from 0 0 sql offset.

Definition cursor_has_sql_after_cursor_on_line (sql : text) (cursor : nat) : bool :=
  existsb (fun ch => negb (is_whitespace ch)) (take_while (fun ch => negb (ch =? nl)%N) (drop cursor sql)).

(** The loop that [find_statement_at_cursor_with_options] and
    [find_statement_text_in_ranges] share: the range chosen, [previous] being
    the range before [ranges]. *)
Fixpoint range_at_cursor (sql : text) (cursor : nat) (previous : option SqlStatementRange)
    (ranges : list SqlStatementRange) : option SqlStatementRange :=
  match ranges with
  | [] => previous
  | range :: later =>
      let or_previous := match previous with Some p => Some p | None => Some range end in
      if (range_start range <? cursor) && (cursor <? range_end range) then Some range
      else if cursor =? range_start range then
        if cursor_has_sql_after_cursor_on_line sql cursor then Some range else or_previous
      else if cursor <? range_start range then or_previous
      else range_at_cursor sql cursor (Some range) later
  end.

Definition find_statement_text_in_ranges (sql : text) (ranges : list SqlStatementRange) (cursor : nat) : option text :=
  range_text <$> range_at_cursor sql cursor None ranges.

(** [first_executable_sql_token_with_options]: the position after the leading
    blanks, parentheses and comments; a comment is at least one character. *)
Fixpoint first_token_start_fuel (fuel : nat) (o : SqlParsingOptions.t) (s : text) : text :=
  let s := drop_while (fun c => is_ascii_whitespace c || (c =? lparen)%N) s in
  match fuel, s with
  | _, [] => []
  | O, _ => s
  | S fuel', c :: s1 =>
      if (c =? dash)%N && head_is dash s1
      then first_token_start_fuel fuel' o (drop_while (fun c => negb (c =? nl)%N) (drop 1 s1))
      else if supports_hash_line_comments (SqlParsingOptions.profile o) && (c =? hash)%N
      then first_token_start_fuel fuel' o (drop_while (fun c => negb (c =? nl)%N) s1)
      else if (c =? slash)%N && head_is star s1 then
        if is_mysql_executable_comment_start s then
          drop_while (fun c => is_ascii_digit c || is_ascii_whitespace c)
            (if head_is bang (drop 1 s1) then drop 2 s1 else drop 3 s1)
        else first_token_start_fuel fuel' o (drop (block_comment_len (drop 1 s1)) (drop 1 s1))
      else s
  end.

Definition first_executable_sql_token_with_options (s : text) (o : SqlParsingOptions.t) : option text :=
  let token := take_while (fun c => is_ascii_alphabetic c || (c =? under)%N) (first_token_start_fuel (length s) o s) in
  if is_empty token then None else Some token.

Definition executable_sql_keyword_matches (token keyword : text) : bool :=
  eq_ignore_ascii_case token keyword
  || (eq_ignore_ascii_case keyword %"DESCRIBE" && eq_ignore_ascii_case token %"DESC").

Definition starts_with_executable_sql_keyword_with_options (s : text) (keywords : list text) (o : SqlParsingOptions.t)
    : bool :=
  match first_executable_sql_token_with_options s o with
  | None => false
  | Some token => existsb (executable_sql_keyword_matches token) keywords
  end.

Definition starts_with_soft_statement_keyword (s : text) (o : SqlParsingOptions.t) : bool :=
  (supports_hana_script_blocks (SqlParsingOptions.profile o)
   && starts_with_executable_sql_keyword_with_options s [%"DO"] o)
  || (supports_firebird_routine_blocks (SqlParsingOptions.profile o)
      && starts_with_executable_sql_keyword_with_options s [%"RECREATE"] o)
  || starts_with_executable_sql_keyword_with_options s
       [%"CREATE"; %"ALTER"; %"DROP"; %"INSERT"; %"UPDATE"; %"DELETE"; %"MERGE"; %"REPLACE"; %"TRUNCATE"; %"GRANT";
        %"REVOKE"; %"COMMENT"; %"EXPLAIN"; %"SHOW"; %"DESCRIBE"; %"USE"; %"SET"; %"CALL"; %"EXEC"; %"EXECUTE";
        %"BEGIN"; %"COMMIT"; %"ROLLBACK"; %"DECLARE"; %"ANALYZE"; %"VACUUM"; %"PRAGMA"; %"REFRESH"; %"COPY"] o.

(** The loop of [split_statement_range_at_blank_lines]: [before] is [sql[..idx]],
    [part] what is left of the statement and [after] the text after it. *)
Fixpoint soft_ranges (o : SqlParsingOptions.t) (before part after : text) (scanner : SqlScanner.t)
    (current_start line_start : nat) (line_has_non_whitespace : bool) (blank_line_run : nat)
    : list SqlStatementRange :=
  match part with
  | [] => push_statement_range o current_start (drop current_start before)
  | ch :: part' =>
      let scanner' := SqlScanner.step before ch (part' ++ after) scanner in
      let next := before ++ [ch] in
      if (ch =? nl)%N then
        soft_ranges o next part' after scanner' current_start (length next) false
          (if negb line_has_non_whitespace && negb (SqlScanner.is_masked scanner) then S blank_line_run else 0)
      else if negb line_has_non_whitespace && negb (is_whitespace ch) then
        let slice := drop current_start (take line_start before) in
        if (2 <=? blank_line_run) && negb (SqlScanner.is_masked scanner)
           && has_executable_sql_with_options slice o
           && starts_with_soft_statement_keyword (drop line_start before ++ part) o
        then push_statement_range o current_start slice
             ++ soft_ranges o next part' after scanner' line_start line_start true 0
        else soft_ranges o next part' after scanner' current_start line_start true 0
      else soft_ranges o next part' after scanner' current_start line_start line_has_non_whitespace blank_line_run
  end.

Definition split_statement_range_at_blank_lines (sql : text) (statement : SqlStatementRange) (o : SqlParsingOptions.t)
    : list SqlStatementRange :=
  if keeps_oracle_style_block_together o (range_text statement)
     || (supports_hana_script_blocks (SqlParsingOptions.profile o) && starts_with_hana_script_block (range_text statement))
     || (supports_firebird_routine_blocks (SqlParsingOptions.profile o)
         && starts_with_firebird_routine_block (range_text statement))
  then [statement]
  else
    let start := range_start statement in
    let ranges :=
      soft_ranges o (take start sql) (drop start (take (range_end statement) sql)) (drop (range_end statement) sql)
        (SqlScanner.with_profile (SqlParsingOptions.profile o)) start start false 0 in
    if is_empty ranges then [statement] else ranges.

Definition statement_text_at_cursor (sql : text) (statement : SqlStatementRange) (cursor : nat) (o : SqlParsingOptions.t)
    : text :=
  from_option id (range_text statement)
    (find_statement_text_in_ranges sql (split_statement_range_at_blank_lines sql statement o) cursor).

Definition find_statement_at_cursor_with_options (sql : text) (cursor_pos : nat) (o : SqlParsingOptions.t)
    : outcome text :=
  do statements <- split_sql_statement_ranges_with_options sql o;
  let cursor := utf16_offset_to_index sql cursor_pos in
  Returns (match range_at_cursor sql cursor None statements with
           | Some statement => statement_text_at_cursor sql statement cursor o
           | None => trim sql
           end).

(** ** T-SQL batches in the editor *)

Definition push_batch_range (start : nat) (slice : text) : list SqlStatementRange :=
  push_statement_range SqlParsingOptions.default start slice.

Definition is_batch_separator (p : SqlDialectProfile.t) (scanner : SqlScanner.t) (line : text) : bool :=
  let trimmed := trim line in
  supports_go_batch_separator p && negb (SqlScanner.is_masked scanner)
  && (eq_ignore_ascii_case trimmed %"go"
      || starts_with %"go " (lower trimmed) && is_empty (trim (drop 2 trimmed))).

(** The loop of [split_sql_batch_ranges] over the lines of [sql] ([segments] are
    they with their newlines; [sql.split('\n')] has one more, empty, line when
    the text ends with a newline, which pushes nothing and moves nothing). *)
Fixpoint batch_ranges (p : SqlDialectProfile.t) (before : text) (current_start : nat) (scanner : SqlScanner.t)
    (segments : list text) : list SqlStatementRange :=
  match segments with
  | [] => push_batch_range current_start (drop current_start before)
  | segment :: later =>
      let line := strip_newline segment in
      let terminated := ends_with [nl] segment in
      let end_line scanner :=
        if terminated : bool then SqlScanner.step (before ++ line) nl (concat later) scanner else scanner in
      if is_batch_separator p scanner line then
        push_batch_range current_start (drop current_start before)
        ++ batch_ranges p (before ++ segment) (length (before ++ segment)) (end_line scanner) later
      else
        batch_ranges p (before ++ segment) current_start
          (end_line (SqlScanner.run before line ((if terminated then [nl] else []) ++ concat later) scanner)) later
  end.

Definition split_sql_batch_ranges (sql : text) (p : SqlDialectProfile.t) : list SqlStatementRange :=
  batch_ranges p [] 0 (SqlScanner.with_profile p) (split_inclusive_nl sql).

Definition split_sql_batches (sql : text) : list text :=
  let ranges := split_sql_batch_ranges sql SqlDialectProfile.sql_server in
  if is_empty ranges then (if is_empty (trim sql) then [] else [trim sql]) else map range_text ranges.

(** A batch chosen for a cursor that stands in it ([Some] its position in
    UTF-16 units and in characters) or after it ([None]). *)
Definition statement_in_batch (p : SqlDialectProfile.t) (batch : text) (cursor : option (nat * nat)) : outcome text :=
  if keeps_sqlserver_module_batch_at_cursor p && starts_with_sqlserver_module_ddl batch then Returns batch
  else
    do found <- sqlserver_control_flow_statement_at batch (snd <$> cursor);
    match found with
    | Some statement => Returns statement
    | None =>
        find_statement_at_cursor_with_options batch
          (match cursor with Some (utf16, _) => utf16 | None => utf16_len batch end) SqlParsingOptions.default
    end.

Fixpoint sqlserver_statement_at (p : SqlDialectProfile.t) (sql : text) (cursor : nat)
    (previous : option SqlStatementRange) (batches : list SqlStatementRange) : outcome text :=
  match batches with
  | [] => Returns (from_option range_text (trim sql) previous)
  | batch :: later =>
      if (range_start batch <=? cursor) && (cursor <=? range_end batch) then
        statement_in_batch p (range_text batch)
          (Some (utf16_len (take cursor sql) - utf16_len (take (range_start batch) sql), cursor - range_start batch))
      else if cursor <? range_start batch then
        match previous with
        | Some prev => statement_in_batch p (range_text prev) None
        | None => Returns (range_text batch)
        end
      else sqlserver_statement_at p sql cursor (Some batch) later
  end.

Definition find_sqlserver_statement_at_cursor (sql : text) (cursor_pos : nat) : outcome text :=
  sqlserver_statement_at SqlDialectProfile.sql_server sql (utf16_offset_to_index sql cursor_pos) None
    (split_sql_batch_ranges sql SqlDialectProfile.sql_server).

Definition find_statement_at_cursor_for_database (sql : text) (cursor_pos : nat) (db : DatabaseType) : outcome text :=
  if db_eqb db SqlServer then find_sqlserver_statement_at_cursor sql cursor_pos
  else
    let o := SqlParsingOptions.for_database_type db in
    let p := SqlParsingOptions.profile o in
    if supports_psql_control_commands p then
      find_statement_at_cursor_with_options (fst (preprocess_psql_control_commands sql p)) cursor_pos
        (SqlParsingOptions.from_profile (set_supports_psql_control_commands false p))
    else find_statement_at_cursor_with_options sql cursor_pos o.

End Ranges.

Section Examples.

#[local] Existing Instance latin1_table.
#[local] Existing Instance fallback_tokenizer.

Example ranges_1 :
  split_sql_statement_ranges_with_options %"-- a
SELECT ';'; /* /*/ SELECT 2 -- x
; BEGIN" SqlParsingOptions.default
  = Returns [mk_range %"SELECT ';'" 5 15; mk_range %"SELECT 2 -- x" 24 37; mk_range %"BEGIN" 40 45].
Proof. by vm_compute. Qed.

Example ranges_2 :
  split_sql_statement_ranges_with_options %"DELIMITER //
CREATE PROCEDURE foo()
BEGIN
  SELECT 1;
END //
DELIMITER ;
SELECT 2;" (SqlParsingOptions.for_database_type Mysql)
  = Returns [mk_range %"CREATE PROCEDURE foo()
BEGIN
  SELECT 1;
END" 13 57; mk_range %"SELECT 2" 73 81].
Proof. by vm_compute. Qed.

(** A [DELIMITER ;] line right after an unterminated statement: the semicolon
    ends the statement, the line is then read as a command, and the slice up to
    its start is taken backwards. *)
Example ranges_backward_slice :
  split_sql_statement_ranges_with_options %"SELECT 1
DELIMITER ;
" SqlParsingOptions.default = Panics.
Proof. by vm_compute. Qed.

End Examples.

(** The unit tests of the cursor lookup. *)
Section CursorTests.

#[local] Existing Instance latin1_table.
#[local] Existing Instance fallback_tokenizer.

Definition cursor_test (sql : text) (cursor : nat) : outcome text :=
  find_statement_at_cursor_with_options sql cursor SqlParsingOptions.default.

Example finds_statement_at_cursor :
  map (cursor_test %"SELECT 1; SELECT 2") [3; 12; 18; 10]
  = [Returns %"SELECT 1"; Returns %"SELECT 2"; Returns %"SELECT 2"; Returns %"SELECT 2"]
  /\ cursor_test %"SELECT 1;

SELECT 2;" 9 = Returns %"SELECT 1"
  /\ cursor_test %"SELECT * FROM old_table


CREATE VIEW v AS SELECT 1" 26 = Returns %"CREATE VIEW v AS SELECT 1"
  /\ cursor_test %"CREATE VIEW v AS


SELECT 1" 19 = Returns %"CREATE VIEW v AS


SELECT 1"
  /\ cursor_test %"SELECT $$a;b$$; SELECT 2" 3 = Returns %"SELECT $$a;b$$"
  /\ cursor_test %"SELECT $$a;b$$; SELECT 2" 17 = Returns %"SELECT 2".
Proof. by vm_compute. Qed.

Example oracle_cursor_boundary_after_backslash :
  find_statement_at_cursor_for_database %"SELECT 'a\'


UPDATE t SET x=2;" 17 Oracle = Returns %"UPDATE t SET x=2".
Proof. by vm_compute. Qed.

Example psql_display_keeps_cursor_offsets :
  find_statement_at_cursor_for_database (%"\echo " ++ [128640; 32; 24320; 22987; 10]%N ++ %"SELECT 1;
SELECT 2;") 30 Postgres = Returns %"SELECT 2".
Proof. by vm_compute. Qed.

Definition procedure_batch : text := %"CREATE OR ALTER PROCEDURE dbo.usp_demo
AS
BEGIN
  SELECT 1;
  SELECT 2;
END".

Definition try_catch_block : text := %"BEGIN TRY
    BEGIN TRANSACTION;
    UPDATE [dbo].[Documents] SET [Deleted] = 0;
    COMMIT TRANSACTION;
END TRY
BEGIN CATCH
    IF @@TRANCOUNT > 0 ROLLBACK TRANSACTION;
    THROW;
END CATCH".

Example sqlserver_current_statement :
  find_statement_at_cursor_for_database (procedure_batch ++ %"
GO
SELECT 3;") 62 SqlServer = Returns procedure_batch
  /\ find_statement_at_cursor_for_database (procedure_batch ++ %"
GO
SELECT 3;") 80 SqlServer = Returns %"SELECT 3"
  /\ map (fun c => find_statement_at_cursor_for_database (%"SET XACT_ABORT ON;

" ++ try_catch_block ++ %";") c SqlServer) [36; 60; 131; 170]
     = repeat (Returns try_catch_block) 4
  /\ find_statement_at_cursor_for_database %"BEGIN TRANSACTION;
UPDATE dbo.T SET x = 1;
COMMIT;" 20 SqlServer = Returns %"UPDATE dbo.T SET x = 1".
Proof. by vm_compute. Qed.

Example split_batches_by_go :
  split_sql_batches %"SELECT 1;
GO
/*
GO
*/ SELECT 2
 go 
" = [%"SELECT 1;"; %"SELECT 2"].
Proof. by vm_compute. Qed.

End CursorTests.
