(* ===== verification/ImportBatch.v ===== *)
(** * ImportBatch: preparing and batching the statements of an SQL file ([sql.rs]).

    [prepare_sql_file_statement] drops the statements of a dump that must not be
    replayed and unwraps MySQL executable comments;
    [optimize_sql_file_import_statements] merges adjacent [INSERT ... VALUES]
    statements with the same header into one multi-row statement, within a
    statement and a byte limit.  A Rust panic (an index out of bounds) is the
    result [Panics]. *)

From S2P Require Import Prelude DbTypes Dialect Lexis Scanner.
Import SqlDialectProfile.

(** ** Which statements are replayed *)

Inductive SqlFileStatementAction : Set :=
| Execute (sql : text)
| Skip.

Definition is_mysql_compatible_import_profile (driver_profile : text) : bool :=
  existsb (text_eqb driver_profile)
    [%"mariadb"; %"tidb"; %"oceanbase"; %"custom_mysql"; %"doris"; %"starrocks"; %"manticoresearch";
     %"selectdb"; %"goldendb"].

Definition is_mysql_compatible_import_target (db : DatabaseType) (driver_profile : option text) : bool :=
  existsb (db_eqb db) [Mysql; Doris; StarRocks; ManticoreSearch; Goldendb]
  || match driver_profile with
     | Some name => is_mysql_compatible_import_profile (lower name)
     | None => false
     end.

Definition supports_connection_level_database_bootstrap_target (db : DatabaseType) (driver_profile : option text) : bool :=
  existsb (db_eqb db) [Mysql; Doris; StarRocks; Goldendb]
  || match driver_profile with
     | Some name => is_mysql_compatible_import_profile (lower name) && negb (text_eqb (lower name) %"manticoresearch")
     | None => false
     end.

(** Words of a text, one space between them, in upper case. *)
Definition collapsed_upper (s : text) : text := upper (join [space] (split_whitespace s)).

Definition is_mysql_key_toggle_statement (statement : text) : bool :=
  let u := collapsed_upper statement in
  starts_with %"ALTER TABLE " u && (ends_with %" ENABLE KEYS" u || ends_with %" DISABLE KEYS" u).

Definition is_mysql_lock_table_statement (statement : text) : bool :=
  let u := collapsed_upper (leading_executable_sql statement) in
  text_eqb u %"UNLOCK TABLES" || (starts_with %"LOCK TABLES " u && ends_with %" WRITE" u).

(** [s.trim_start_matches(needle)]: repeated, the needle is not empty. *)
Fixpoint trim_start_matches_fuel (fuel : nat) (needle s : text) : text :=
  match fuel with
  | O => s
  | S fuel' => if starts_with needle s then trim_start_matches_fuel fuel' needle (drop (length needle) s) else s
  end.
Definition trim_start_matches (needle s : text) : text := trim_start_matches_fuel (length s) needle s.

Definition is_mysql_session_restore_statement (statement : text) : bool :=
  let u := collapsed_upper (leading_executable_sql_with_options statement SqlParsingOptions.mysql_compatible) in
  if negb (starts_with %"SET " u) then false
  else
    let assignment := trim (trim_start_matches %"SET " u) in
    if head_is 64%N assignment then false
    else contains %"= @OLD_" assignment || contains %"=@OLD_" assignment
         || contains %"= @SAVED_" assignment || contains %"=@SAVED_" assignment.

(** [leading_mysql_executable_comment_start]: the suffix that starts at the
    position returned.  [bytes[i]] is read after the whitespace is skipped
    without testing that [i] is in range. *)
Fixpoint leading_mysql_executable_comment_start_fuel (fuel : nat) (s : text) : outcome (option text) :=
  match s with
  | [] => Returns None
  | _ =>
      match fuel with
      | O => OutOfFuel
      | S fuel' =>
          match drop_while is_ascii_whitespace s with
          | [] => Panics
          | (c :: s1) as s' =>
              if (c =? dash)%N && head_is dash s1
              then leading_mysql_executable_comment_start_fuel fuel'
                     (drop_while (fun c => negb (c =? nl)%N) (drop 1 s1))
              else if (c =? hash)%N
              then leading_mysql_executable_comment_start_fuel fuel' (drop_while (fun c => negb (c =? nl)%N) s1)
              else if (c =? slash)%N && head_is star s1 then
                if is_mysql_executable_comment_start s' then Returns (Some s')
                else match find_block_comment_close (drop 1 s1) false with
                     | None => Returns None
                     | Some (_, rest) => leading_mysql_executable_comment_start_fuel fuel' rest
                     end
              else Returns None
          end
      end
  end.

Definition leading_mysql_executable_comment_start (statement : text) : outcome (option text) :=
  leading_mysql_executable_comment_start_fuel (length statement) statement.

Definition mysql_executable_comment_body (statement : text) : outcome (option text) :=
  do start <- leading_mysql_executable_comment_start statement;
  Returns
    match start with
    | None => None
    | Some s =>
        let body := if head_is bang (drop 2 s) then drop 3 s else drop 4 s in
        let body := drop_while (fun c => is_ascii_digit c || is_ascii_whitespace c) body in
        match find_block_comment_close body false with
        | None => None
        | Some (comment, rest) => if has_executable_sql rest then None else Some comment
        end
    end.

(** A [pg_dump] guard: [\restrict key] or [\unrestrict key]. *)
Definition is_postgres_pg_dump_guard_command (line : text) : bool :=
  match split_whitespace line with
  | [command; key] =>
      (text_eqb command (bslash :: %"restrict") || text_eqb command (bslash :: %"unrestrict"))
      && forallb is_ascii_alphanumeric key
  | _ => false
  end.

Definition strip_postgres_pg_dump_guard_command (statement : text) : option text :=
  let executable := leading_executable_sql_with_options statement (SqlParsingOptions.for_database_type Postgres) in
  let line := take_while (fun c => negb (c =? nl)%N) executable in
  if negb (is_postgres_pg_dump_guard_command line) then None
  else
    let prefix_len := length statement - length executable in
    let line_end := length line in
    let suffix_start := prefix_len + line_end + (if line_end <? length executable then 1 else 0) in
    Some (take prefix_len statement ++ drop suffix_start statement).

Definition prepare_sql_file_statement (statement : text) (db : DatabaseType) (driver_profile : option text)
    : outcome SqlFileStatementAction :=
  let statement := trim statement in
  let postgres_statement := if db_eqb db Postgres then strip_postgres_pg_dump_guard_command statement else None in
  let statement := trim (match postgres_statement with Some s => s | None => statement end) in
  if is_empty statement
     || (db_eqb db Postgres
         && (match postgres_statement with Some _ => true | None => false end)
         && negb (has_executable_sql_with_options statement (SqlParsingOptions.for_database_type Postgres)))
  then Returns Skip
  else
    let is_mysql_compatible_target := is_mysql_compatible_import_target db driver_profile in
    if is_mysql_compatible_target && is_mysql_lock_table_statement statement then Returns Skip
    else
      do body <- mysql_executable_comment_body statement;
      Returns
        match body with
        | None =>
            if is_mysql_compatible_target && is_mysql_session_restore_statement statement then Skip
            else Execute statement
        | Some body =>
            if negb is_mysql_compatible_target then Skip
            else
              let body := trim body in
              if is_empty body || is_mysql_key_toggle_statement body || is_mysql_session_restore_statement body
              then Skip else Execute body
        end.

(** ** Mergeable inserts *)

(** [keyword_at(sql, idx, keyword)], [sql] being [before ++ rest] cut at [idx]. *)
Definition keyword_at (before rest keyword : text) : bool :=
  eq_ignore_ascii_case (take (length keyword) rest) keyword
  && negb (match last before with Some ch => is_sql_ident_char ch | None => false end)
  && negb (match drop (length keyword) rest with ch :: _ => is_sql_ident_char ch | [] => false end).

Definition starts_with_keyword (sql keyword : text) : bool :=
  eq_ignore_ascii_case (take (length keyword) sql) keyword
  && negb (match drop (length keyword) sql with ch :: _ => is_sql_ident_char ch | [] => false end).

(** [s.trim_end_matches(';')]. *)
Definition trim_end_semicolons (s : text) : text := rev (drop_while (char_eqb semi) (rev s)).

Record MergeableInsert : Set := mk_insert {
  ins_prefix : text;
  ins_prefix_key : text;
  ins_values : text;
  ins_sql : text
}.

Section Insert.

Context `{CharTable}.

(** The text before the first top-level [VALUES]/[VALUE] and the text after it. *)
Fixpoint find_top_level_values_keyword_from (scanner : SqlScanner.t) (depth : nat) (before rest : text)
    : option (text * text) :=
  match rest with
  | [] => None
  | ch :: rest' =>
      let scanner := SqlScanner.step before ch rest' scanner in
      if SqlScanner.is_masked scanner then find_top_level_values_keyword_from scanner depth (before ++ [ch]) rest'
      else if (ch =? lparen)%N then find_top_level_values_keyword_from scanner (S depth) (before ++ [ch]) rest'
      else if (ch =? rparen)%N then find_top_level_values_keyword_from scanner (pred depth) (before ++ [ch]) rest'
      else if (depth =? 0) && keyword_at before rest %"values" then Some (before, drop 6 rest)
      else if (depth =? 0) && keyword_at before rest %"value" then Some (before, drop 5 rest)
      else find_top_level_values_keyword_from scanner depth (before ++ [ch]) rest'
  end.

Definition find_top_level_values_keyword (sql : text) : option (text * text) :=
  find_top_level_values_keyword_from SqlScanner.default 0 [] sql.

(** The loop of [parse_insert_values_tail]: the final [saw_tuple && depth == 0]. *)
Fixpoint values_tail_ok (scanner : SqlScanner.t) (depth : nat) (saw_tuple expecting_tuple : bool)
    (before rest : text) : bool :=
  match rest with
  | [] => saw_tuple && (depth =? 0)
  | ch :: rest' =>
      let scanner := SqlScanner.step before ch rest' scanner in
      let continue depth saw expecting := values_tail_ok scanner depth saw expecting (before ++ [ch]) rest' in
      if SqlScanner.is_masked scanner then continue depth saw_tuple expecting_tuple
      else if expecting_tuple then
        if is_whitespace ch || (saw_tuple && (ch =? comma)%N) then continue depth saw_tuple true
        else if negb (ch =? lparen)%N then false
        else continue 1 true false
      else if (ch =? lparen)%N then continue (S depth) saw_tuple false
      else if (ch =? rparen)%N then
        match depth with
        | O => false
        | S depth' => continue depth' saw_tuple (depth' =? 0)
        end
      else if (ch =? comma)%N && (depth =? 0) then continue depth saw_tuple false
      else if (depth =? 0) && negb (is_whitespace ch) then false
      else continue depth saw_tuple false
  end.

Definition parse_insert_values_tail (tail : text) : option text :=
  let tail := trim (trim_end_semicolons (trim tail)) in
  if is_empty tail then None
  else if values_tail_ok SqlScanner.default 0 false true [] tail then Some tail else None.

Fixpoint normalize_insert_prefix_key_from (scanner : SqlScanner.t) (previous_space : bool) (before rest : text) : text :=
  match rest with
  | [] => []
  | ch :: rest' =>
      let scanner := SqlScanner.step before ch rest' scanner in
      if SqlScanner.in_single_quote scanner || SqlScanner.in_double_quote scanner || SqlScanner.in_backtick scanner
         || match SqlScanner.dollar_quote_tag scanner with Some _ => true | None => false end
      then ch :: normalize_insert_prefix_key_from scanner false (before ++ [ch]) rest'
      else if is_whitespace ch
      then (if previous_space then [] else [space]) ++ normalize_insert_prefix_key_from scanner true (before ++ [ch]) rest'
      else to_ascii_lowercase ch :: normalize_insert_prefix_key_from scanner false (before ++ [ch]) rest'
  end.

Definition normalize_insert_prefix_key (prefix : text) : text :=
  trim (normalize_insert_prefix_key_from SqlScanner.default false [] prefix).

Definition parse_mergeable_insert (sql : text) (o : SqlParsingOptions.t) : option MergeableInsert :=
  let executable := trim (trim_end_semicolons (trim (leading_executable_sql_with_options sql o))) in
  if negb (starts_with_keyword executable %"insert") then None
  else match find_top_level_values_keyword executable with
       | None => None
       | Some (before, after) =>
           match parse_insert_values_tail (trim after) with
           | None => None
           | Some values =>
               let prefix := trim_end before in
               Some (mk_insert prefix (normalize_insert_prefix_key prefix) values executable)
           end
       end.

(** The [table (columns)] part of an insert header. *)
Fixpoint oracle_insert_all_target_from (scanner : SqlScanner.t) (seen_insert : bool) (before rest : text) : option text :=
  match rest with
  | [] => None
  | ch :: rest' =>
      let scanner := SqlScanner.step before ch rest' scanner in
      if SqlScanner.is_masked scanner then oracle_insert_all_target_from scanner seen_insert (before ++ [ch]) rest'
      else if negb seen_insert
      then oracle_insert_all_target_from scanner (keyword_at before rest %"insert") (before ++ [ch]) rest'
      else if keyword_at before rest %"into" then
        let target := trim (drop 4 rest) in
        if is_empty target then None else Some target
      else oracle_insert_all_target_from scanner seen_insert (before ++ [ch]) rest'
  end.

Definition oracle_insert_all_target (prefix : text) : option text :=
  oracle_insert_all_target_from SqlScanner.default false [] prefix.

(** ** Batches *)

Inductive InsertBatchSyntax : Set := MultiRowValues | OracleInsertAll.

Definition insert_batch_syntax (db : option DatabaseType) : InsertBatchSyntax :=
  match db with
  | Some Oracle | Some OceanbaseOracle => OracleInsertAll
  | _ => MultiRowValues
  end.

Definition SQL_FILE_INSERT_BATCH_MAX_STATEMENTS : nat := 500.
Definition SQL_FILE_INSERT_BATCH_MAX_BYTES : N := (4 * 1024 * 1024)%N.

Record PendingInsertBatch : Set := mk_batch {
  prefix : text;
  prefix_key : text;
  values : list text;
  source_sqls : list text;
  source_statement_count : nat;
  batch_byte_len : N;
  syntax : InsertBatchSyntax
}.

Definition batch_new (insert : MergeableInsert) (syn : InsertBatchSyntax) : PendingInsertBatch :=
  mk_batch (ins_prefix insert) (ins_prefix_key insert) [ins_values insert] [ins_sql insert] 1
    (byte_len (ins_prefix insert) + byte_len (ins_values insert) + 16) syn.

Definition can_accept (b : PendingInsertBatch) (insert : MergeableInsert) (max_insert_batch_statements : nat) : bool :=
  text_eqb (prefix_key b) (ins_prefix_key insert)
  && (source_statement_count b <? max_insert_batch_statements)
  && (batch_byte_len b + byte_len (ins_values insert) + 3 <=? SQL_FILE_INSERT_BATCH_MAX_BYTES)%N.

Definition batch_push (b : PendingInsertBatch) (insert : MergeableInsert) : PendingInsertBatch :=
  mk_batch (prefix b) (prefix_key b) (values b ++ [ins_values insert]) (source_sqls b ++ [ins_sql insert])
    (S (source_statement_count b)) (batch_byte_len b + byte_len (ins_values insert) + 3) (syntax b).

Definition insert_all_row (target row : text) : text := %"INTO " ++ target ++ %" VALUES " ++ row ++ [nl].

Definition multi_row_sql (b : PendingInsertBatch) : text :=
  prefix b ++ %" VALUES" ++ [nl] ++ join [comma; nl] (values b).

Definition to_sql (b : PendingInsertBatch) : text :=
  if source_statement_count b =? 1 then match source_sqls b with s :: _ => s | [] => [] end
  else match syntax b, oracle_insert_all_target (prefix b) with
       | OracleInsertAll, Some target =>
           %"INSERT ALL" ++ [nl] ++ concat (map (insert_all_row target) (values b)) ++ %"SELECT 1 FROM dual"
       | _, _ => multi_row_sql b
       end.

Inductive SqlFileImportStatementKind : Set := KindExecute | KindSkip.

Record SqlFileImportStatement : Set := mk_import {
  kind : SqlFileImportStatementKind;
  import_sql : text;
  import_source_sqls : list text;
  import_source_statement_count : nat
}.

Definition flush_pending_insert (pending : option PendingInsertBatch) : list SqlFileImportStatement :=
  match pending with
  | Some b => [mk_import KindExecute (to_sql b) (source_sqls b) (source_statement_count b)]
  | None => []
  end.

(** [db_type.map(SqlParsingOptions::for_database_type).unwrap_or_default()]. *)
Definition options_of (db : option DatabaseType) : SqlParsingOptions.t :=
  match db with Some db => SqlParsingOptions.for_database_type db | None => SqlParsingOptions.default end.

Section Optimize.

Variable db : option DatabaseType.
Variable driver_profile : option text.
Variable max_insert_batch_statements : nat.

Definition action_of (statement : text) : outcome SqlFileStatementAction :=
  match db with
  | Some db => prepare_sql_file_statement statement db driver_profile
  | None => Returns (Execute (trim statement))
  end.

Definition merge_adjacent_inserts : bool :=
  match db with Some db => negb (is_mysql_compatible_import_target db driver_profile) | None => true end.

Definition mergeable_insert (sql : text) : option MergeableInsert :=
  if merge_adjacent_inserts then parse_mergeable_insert sql (options_of db) else None.

(** One iteration: the pending batch after it and the statements pushed. *)
Definition optimize_step (pending : option PendingInsertBatch) (statement : text) (action : SqlFileStatementAction)
    : option PendingInsertBatch * list SqlFileImportStatement :=
  match action with
  | Skip => (None, flush_pending_insert pending ++ [mk_import KindSkip (trim statement) [trim statement] 1])
  | Execute sql =>
      match mergeable_insert sql with
      | Some insert =>
          match pending with
          | Some batch =>
              if can_accept batch insert max_insert_batch_statements then (Some (batch_push batch insert), [])
              else (Some (batch_new insert (insert_batch_syntax db)), flush_pending_insert pending)
          | None => (Some (batch_new insert (insert_batch_syntax db)), [])
          end
      | None => (None, flush_pending_insert pending ++ [mk_import KindExecute sql [sql] 1])
      end
  end.

Fixpoint optimize_from (pending : option PendingInsertBatch) (statements : list text)
    : outcome (list SqlFileImportStatement) :=
  match statements with
  | [] => Returns (flush_pending_insert pending)
  | statement :: statements =>
      do action <- action_of statement;
      let '(pending, pushed) := optimize_step pending statement action in
      do rest <- optimize_from pending statements;
      Returns (pushed ++ rest)
  end.

End Optimize.

Definition optimize_sql_file_import_statements_with_max_insert_batch_statements (statements : list text)
    (db : option DatabaseType) (driver_profile : option text) (max_insert_batch_statements : nat)
    : outcome (list SqlFileImportStatement) :=
  optimize_from db driver_profile max_insert_batch_statements None statements.

Definition optimize_sql_file_import_statements (statements : list text) (db : option DatabaseType)
    (driver_profile : option text) : outcome (list SqlFileImportStatement) :=
  optimize_sql_file_import_statements_with_max_insert_batch_statements statements db driver_profile
    SQL_FILE_INSERT_BATCH_MAX_STATEMENTS.

End Insert.

Section Examples.

#[local] Existing Instance latin1_table.

Example merge_two :
  optimize_sql_file_import_statements
    [%"INSERT INTO t (a) VALUES (1)"; %"insert into  T (a) values ('x;'), (3)"; %"SELECT 1"] (Some Postgres) None
  = Returns [mk_import KindExecute %"INSERT INTO t (a) VALUES
(1),
('x;'), (3)" [%"INSERT INTO t (a) VALUES (1)"; %"insert into  T (a) values ('x;'), (3)"] 2;
     mk_import KindExecute %"SELECT 1" [%"SELECT 1"] 1].
Proof. by vm_compute. Qed.

Example merge_oracle :
  optimize_sql_file_import_statements
    [%"INSERT INTO t (a) VALUES (1)"; %"INSERT INTO t (a) VALUES (2)"] (Some Oracle) None
  = Returns [mk_import KindExecute %"INSERT ALL
INTO t (a) VALUES (1)
INTO t (a) VALUES (2)
SELECT 1 FROM dual" [%"INSERT INTO t (a) VALUES (1)"; %"INSERT INTO t (a) VALUES (2)"] 2].
Proof. by vm_compute. Qed.

Example prepare_mysql_dump :
  prepare_sql_file_statement %"/*!40101 SET NAMES utf8mb4 */" Mysql None = Returns (Execute %"SET NAMES utf8mb4")
  /\ prepare_sql_file_statement %"/*!40101 SET SQL_MODE=@OLD_SQL_MODE */" Mysql None = Returns Skip
  /\ prepare_sql_file_statement %"LOCK TABLES `t` WRITE" Mysql None = Returns Skip
  /\ prepare_sql_file_statement %"-- a
/*!40000 ALTER TABLE `t` DISABLE KEYS */" Mysql (Some %"MariaDB") = Returns Skip
  /\ prepare_sql_file_statement %"\restrict abc
SELECT 1" Postgres None = Returns (Execute %"SELECT 1").
Proof. by vm_compute. Qed.

End Examples.
