(* ===== verification/ImportFacts.v ===== *)
(** * ImportFacts: the contract of statement preparation and insert batching.

    [prepare_sql_file_statement] reads a byte after skipping whitespace without
    a bounds check: the first group of lemmas shows that the trimmed statement it
    is given keeps that read in range, so it always returns.  The second group
    relates [optimize_sql_file_import_statements] to [Groups], the grouping of
    the file's statements it may produce. *)

From S2P Require Import Prelude DbTypes Dialect Lexis Scanner ImportBatch.

(** ** Preparation never panics *)

(** The last character, if any, is not whitespace. *)
Definition ends_black (s : text) : Prop := forall c, last s = Some c -> is_whitespace c = false.

Lemma ends_black_suffix s t : s `suffix_of` t -> ends_black t -> ends_black s.
Proof.
  intros [pre ->] Ht c Hc. apply Ht. rewrite last_app. by rewrite Hc.
Qed.

Lemma ends_black_trim s : ends_black (trim s).
Proof.
  intros c. unfold trim, trim_end. rewrite last_rev.
  destruct (drop_while is_whitespace (rev (trim_start s))) as [|x l] eqn:Hd; [done|].
  intros [= <-]. by eapply drop_while_head.
Qed.

Lemma ascii_whitespace_is_whitespace c : is_ascii_whitespace c = true -> is_whitespace c = true.
Proof.
  unfold is_ascii_whitespace, is_whitespace. rewrite !orb_true_iff, !andb_true_iff, !N.eqb_eq, !N.leb_le. lia.
Qed.

Lemma ends_black_skip s : ends_black s -> s <> [] -> drop_while is_ascii_whitespace s <> [].
Proof.
  intros Hb Hne Hd. destruct (drop_while_split is_ascii_whitespace s) as (pre & Heq & Hpre).
  rewrite Hd, app_nil_r in Heq. subst pre.
  destruct (last s) as [c|] eqn:Hl; [|by apply last_None in Hl].
  apply (Hb c) in Hl as Hc. apply last_Some_elem_of in Hl.
  rewrite Forall_forall in Hpre. apply Hpre, ascii_whitespace_is_whitespace in Hl. congruence.
Qed.

(** A part of the text the scan goes on with. *)
Lemma scan_continues fuel s s1 rest :
  (forall s, length s <= fuel -> ends_black s ->
     exists r, leading_mysql_executable_comment_start_fuel fuel s = Returns r /\ forall s', r = Some s' -> s' `suffix_of` s) ->
  length s1 <= fuel -> s1 `suffix_of` s -> ends_black s -> rest `suffix_of` s1 ->
  exists r, leading_mysql_executable_comment_start_fuel fuel rest = Returns r /\ forall s', r = Some s' -> s' `suffix_of` s.
Proof.
  intros IH Hlen Hs1 Hb Hrest. apply suffix_le in Hrest as Hl.
  destruct (IH rest) as (r & Hr & Hsuf); [lia|by eapply ends_black_suffix, Hb; etrans|].
  exists r. split; [done|]. intros s' Hs'. etrans; [by apply Hsuf|by etrans].
Qed.

Lemma leading_comment_start_returns fuel s :
  length s <= fuel -> ends_black s ->
  exists r, leading_mysql_executable_comment_start_fuel fuel s = Returns r
    /\ forall s', r = Some s' -> s' `suffix_of` s.
Proof.
  revert s. induction fuel as [|fuel IH]; intros s Hle Hb.
  { destruct s; [by exists None|cbn in Hle; lia]. }
  destruct (decide (s = [])) as [->|Hne]; [by exists None|].
  pose proof (ends_black_skip s Hb Hne) as Hskip.
  pose proof (drop_while_suffix is_ascii_whitespace s) as Hsuf.
  cbn [leading_mysql_executable_comment_start_fuel].
  destruct s as [|c0 s0]; [done|].
  destruct (drop_while is_ascii_whitespace (c0 :: s0)) as [|c s1]; [done|].
  assert (s1 `suffix_of` c0 :: s0) as Hs1 by (etrans; [|exact Hsuf]; by apply suffix_cons_r).
  apply suffix_le in Hsuf as Hl. cbn in Hl, Hle.
  assert (length s1 <= fuel) as Hlen by lia.
  repeat case_match; subst; try (eexists; split; [done|]; intros ? [= <-]; done); try by eexists.
  - eapply scan_continues; [done..|]. etrans; [apply drop_while_suffix|apply suffix_drop].
  - eapply scan_continues; [done..|]. apply drop_while_suffix.
  - eapply scan_continues; [done..|].
    etrans; [by eapply find_block_comment_close_suffix|apply suffix_drop].
Qed.

Lemma sublist_trim s : trim s `sublist_of` s.
Proof.
  destruct (trim_split s) as (w1 & w2 & Heq & _). rewrite Heq at 2.
  by apply sublist_inserts_l, sublist_inserts_r.
Qed.

Lemma suffix_sublist {A} (a b : list A) : a `suffix_of` b -> a `sublist_of` b.
Proof. intros [pre ->]. by apply sublist_inserts_l. Qed.

Lemma sublist_take_drop {A} n m (l : list A) : n <= m -> take n l ++ drop m l `sublist_of` l.
Proof.
  intros Hnm. rewrite <- (take_drop n l) at 3. apply sublist_app; [done|].
  replace m with (n + (m - n)) by lia. rewrite <- drop_drop. apply sublist_drop.
Qed.

Lemma comment_body_returns s :
  ends_black s ->
  exists r, mysql_executable_comment_body s = Returns r /\ forall body, r = Some body -> body `sublist_of` s.
Proof.
  intros Hb. unfold mysql_executable_comment_body, leading_mysql_executable_comment_start.
  destruct (leading_comment_start_returns (length s) s) as (r & -> & Hr); [done..|].
  eexists. split; [done|]. cbn. destruct r as [s1|]; [|done].
  assert (forall n, drop n s1 `sublist_of` s) as Hd.
  { intros n. etrans; [apply sublist_drop|by apply suffix_sublist, Hr]. }
  intros body. destruct (find_block_comment_close _ false) as [[comment rest]|] eqn:Hf; [|done].
  destruct (has_executable_sql rest); [done|]. intros [= <-].
  apply find_block_comment_close_at_split in Hf.
  assert (comment `sublist_of` (if head_is bang (drop 2 s1) then drop 3 s1 else drop 4 s1)) as Hc.
  { etrans; [|apply suffix_sublist, drop_while_suffix]. erewrite Hf. by apply sublist_inserts_r. }
  etrans; [exact Hc|]. by case_match.
Qed.

Lemma strip_guard_sublist s s' : strip_postgres_pg_dump_guard_command s = Some s' -> s' `sublist_of` s.
Proof.
  unfold strip_postgres_pg_dump_guard_command. case_match; [done|]. intros [= <-].
  apply sublist_take_drop. lia.
Qed.

(** A prepared statement: trimmed, not empty, and cut out of the source. *)
Definition prepared_from (statement sql : text) : Prop :=
  sql <> [] /\ trim sql = sql /\ sql `sublist_of` statement.

Lemma prepare_returns statement db driver_profile :
  exists action, prepare_sql_file_statement statement db driver_profile = Returns action
    /\ forall sql, action = Execute sql -> prepared_from statement sql.
Proof.
  unfold prepare_sql_file_statement.
  set (guarded := if db_eqb db Postgres then _ else None).
  set (source := match guarded with Some s => s | None => trim statement end).
  assert (source `sublist_of` statement) as Hsrc.
  { subst source guarded. destruct (db_eqb db Postgres); [|apply sublist_trim].
    destruct (strip_postgres_pg_dump_guard_command (trim statement)) eqn:Hg; [|apply sublist_trim].
    etrans; [by apply strip_guard_sublist|apply sublist_trim]. }
  destruct (is_empty (trim source)) eqn:Hempty; cbn [orb]; [by exists Skip|].
  destruct (db_eqb db Postgres && _ && _); [by exists Skip|].
  destruct (_ && is_mysql_lock_table_statement _); [by exists Skip|].
  destruct (comment_body_returns (trim source)) as (r & -> & Hr); [apply ends_black_trim|].
  eexists. split; [done|]. cbn. intros sql Hsql. destruct r as [body|]; repeat case_match; simplify_eq.
  - destruct (is_empty (trim body)) eqn:Hbody; [done|].
    split; [by intros ?%is_empty_nil; congruence|]. split; [apply trim_idemp|].
    etrans; [apply sublist_trim|]. etrans; [by apply Hr|]. etrans; [apply sublist_trim|done].
  - split; [by intros ?%is_empty_nil; congruence|]. split; [apply trim_idemp|].
    etrans; [apply sublist_trim|done].
Qed.

(** C39: preparing a statement of a dump never panics, and a statement that is to
    be executed is not empty, is trimmed, and consists of characters of the
    source statement in their order. *)
Theorem prepare_sql_file_statement_total (statement : text) (db : DatabaseType) (driver_profile : option text) :
  exists action, prepare_sql_file_statement statement db driver_profile = Returns action
    /\ forall sql, action = Execute sql -> prepared_from statement sql.
Proof. apply prepare_returns. Qed.

(** ** The text of an insert

    What a parsed insert is, said of the text of the statement alone. *)

Definition blanks (w : text) : Prop := Forall (fun c => is_whitespace c = true) w.

(** The statement is the source without its leading comments ([LeadsTo]), its
    blanks and final semicolons, and is the header, [VALUES] or [VALUE] in any case,
    and the rows; the only text left out is blanks and final semicolons. *)
Record InsertText (o : SqlParsingOptions.t) (source : text) (i : MergeableInsert) : Prop := {
  it_source : exists w1 w2, LeadsTo o source (w1 ++ ins_sql i ++ w2) /\ blanks w1
      /\ Forall (fun c => is_whitespace c = true \/ c = semi) w2;
  it_insert : eq_ignore_ascii_case (take 6 (ins_sql i)) %"insert" = true;
  it_split : exists w1 keyword w2 w3, ins_sql i = ins_prefix i ++ w1 ++ keyword ++ w2 ++ ins_values i ++ w3
      /\ (eq_ignore_ascii_case keyword %"values" = true \/ eq_ignore_ascii_case keyword %"value" = true)
      /\ blanks w1 /\ blanks w2 /\ Forall (fun c => is_whitespace c = true \/ c = semi) w3
}.

(** A header without its blanks and case. *)
Definition squash (header : text) : text := map to_ascii_lowercase (List.filter (fun c => negb (is_whitespace c)) header).

(** A header of names, some of them quoted: no literal, comment or backslash. *)
Definition plain_header (header : text) : bool :=
  forallb (fun c => negb (existsb (N.eqb c) [squote; bslash; dollar; dash; slash; hash])) header.

(** Its form: blanks between names as one blank, letters outside quotes in lower
    case, quoted names as they are.  [quote] is the open quote, [blank] says that the
    last character was a blank. *)
Fixpoint header_form_from (quote : option char) (blank : bool) (header : text) : text :=
  match header with
  | [] => []
  | c :: header' =>
      match quote with
      | Some q => c :: header_form_from (if (c =? q)%N then None else Some q) false header'
      | None =>
          if ((c =? dquote) || (c =? backtick))%N then c :: header_form_from (Some c) false header'
          else if is_whitespace c then (if blank then [] else [space]) ++ header_form_from None true header'
          else to_ascii_lowercase c :: header_form_from None false header'
      end
  end.

Definition header_form (header : text) : text := trim (header_form_from None false header).

(** Two headers name the same target: they are equal up to blanks and case, and if
    they are plain, equal but for the width of blanks and the case of bare names. *)
Definition same_header (a b : text) : Prop :=
  squash a = squash b /\ (plain_header a = true -> plain_header b = true -> header_form a = header_form b).

(** No word ends here. *)
Definition boundary_before (before : text) : Prop :=
  match last before with Some ch => is_sql_ident_char ch | None => false end = false.

Section Headers.

Context `{CharTable}.

Lemma lower_lower c : to_ascii_lowercase (to_ascii_lowercase c) = to_ascii_lowercase c.
Proof.
  unfold to_ascii_lowercase. destruct (is_ascii_uppercase c) eqn:E; [|by rewrite E].
  unfold is_ascii_uppercase in *. apply andb_true_iff in E as [H1%N.leb_le H2%N.leb_le].
  destruct (_ && _) eqn:E2; [|done]. apply andb_true_iff in E2 as [H3%N.leb_le H4%N.leb_le]. lia.
Qed.

Lemma lower_blank c : is_whitespace c = false -> is_whitespace (to_ascii_lowercase c) = false.
Proof.
  unfold to_ascii_lowercase. destruct (is_ascii_uppercase c) eqn:E; [|done]. intros _.
  unfold is_ascii_uppercase in E. apply andb_true_iff in E as [H1%N.leb_le H2%N.leb_le].
  apply not_true_is_false. unfold is_whitespace. rewrite !orb_true_iff, !andb_true_iff, !N.leb_le, !N.eqb_eq. lia.
Qed.

Lemma squash_app a b : squash (a ++ b) = squash a ++ squash b.
Proof. unfold squash. by rewrite List.filter_app, map_app. Qed.

Lemma squash_cons c s : squash (c :: s) = (if is_whitespace c then [] else [to_ascii_lowercase c]) ++ squash s.
Proof. unfold squash. cbn. by destruct (is_whitespace c). Qed.

Lemma squash_blanks w : blanks w -> squash w = [].
Proof. induction 1 as [|c w Hc _ IH]; [done|]. by rewrite squash_cons, Hc, IH. Qed.

Lemma squash_trim s : squash (trim s) = squash s.
Proof.
  destruct (trim_split s) as (w1 & w2 & Hs & H1 & H2). rewrite Hs at 2. by rewrite !squash_app, (squash_blanks w1), (squash_blanks w2), app_nil_r.
Qed.

Lemma normalized_squash scanner blank before h :
  squash (normalize_insert_prefix_key_from scanner blank before h) = squash h.
Proof.
  revert scanner blank before. induction h as [|c h IH]; intros scanner blank before; [done|].
  cbn [normalize_insert_prefix_key_from]. destruct (_ || _); [by rewrite !squash_cons, IH|].
  rewrite (squash_cons c). destruct (is_whitespace c) eqn:Hc.
  - rewrite squash_app, IH. by destruct blank.
  - rewrite squash_cons, IH, lower_blank, lower_lower by done. done.
Qed.

(** The scanner inside a plain header: at most a quote is open. *)
Definition header_scanner (quote : option char) (s : SqlScanner.t) : Prop :=
  SqlScanner.profile s = SqlDialectProfile.default /\ SqlScanner.dollar_quote_tag s = None /\ SqlScanner.in_line_comment s = false
  /\ SqlScanner.block_comment_depth s = 0 /\ SqlScanner.oracle_q_quote s = OracleQQuoteState.default /\ SqlScanner.in_single_quote s = false
  /\ opt_is bslash (SqlScanner.previous s) = false
  /\ SqlScanner.in_double_quote s = opt_is dquote quote /\ SqlScanner.in_backtick s = opt_is backtick quote
  /\ (quote = None \/ quote = Some dquote \/ quote = Some backtick).

Definition next_quote (quote : option char) (c : char) : option char :=
  match quote with
  | Some q => if (c =? q)%N then None else Some q
  | None => if ((c =? dquote) || (c =? backtick))%N then Some c else None
  end.

Lemma header_scanner_step quote before c rest s :
  plain_header [c] = true -> header_scanner quote s -> header_scanner (next_quote quote c) (SqlScanner.step before c rest s).
Proof.
  intros Hc (Hp & Hd & Hl & Hb & Hq & Hs & Hprev & Hdq & Hbt & Hquote).
  cbn in Hc. rewrite !andb_true_r, negb_true_iff, !orb_false_iff in Hc. destruct Hc as (Hsq & Hbs & Hdo & Hda & Hsl & Hha & _).
  unfold SqlScanner.step. rewrite Hd, Hl, Hb, Hq, Hs, Hdq, Hbt, Hp, Hsl, Hda.
  cbn [Nat.ltb Nat.leb OracleQQuoteState.is_open OracleQQuoteState.default OracleQQuoteState.awaiting_delimiter OracleQQuoteState.closer orb negb andb].
  assert (dollar_quote_tag_at_str (c :: rest) = None) as Htag by (cbn; by rewrite Hdo).
  unfold SqlScanner.toggle_quotes, header_scanner, next_quote.
  destruct Hquote as [-> | [-> | ->]]; cbn [opt_is N.eqb Pos.eqb orb negb andb]; rewrite ?Htag, Hsq; cbn;
    rewrite ?Hp, ?Hd, ?Hl, ?Hb, ?Hq, ?Hs, ?Hdq, ?Hbt, ?Hprev; cbn;
    destruct (c =? dquote)%N eqn:E1, (c =? backtick)%N eqn:E2; cbn;
    rewrite ?Hp, ?Hd, ?Hl, ?Hb, ?Hq, ?Hs, ?Hdq, ?Hbt, ?Hprev; cbn; try (split_and!; by auto);
    rewrite E1, E2; repeat match goal with E : (c =? _)%N = true |- _ => apply N.eqb_eq in E; subst c end; try done; split_and!; auto.
Qed.

Lemma plain_header_cons c h : plain_header (c :: h) = true -> plain_header [c] = true /\ plain_header h = true.
Proof. unfold plain_header. cbn [forallb]. rewrite andb_true_r. apply andb_true_iff. Qed.

Lemma normalized_form h : forall quote scanner blank before,
  plain_header h = true -> header_scanner quote scanner -> (quote <> None -> blank = false) ->
  normalize_insert_prefix_key_from scanner blank before h = header_form_from quote blank h.
Proof.
  induction h as [|c h IH]; intros quote scanner blank before Hplain Hs Hblank; [done|].
  apply plain_header_cons in Hplain as [Hc Hplain]. pose proof (header_scanner_step quote before c h scanner Hc Hs) as Hnext.
  cbn [normalize_insert_prefix_key_from header_form_from]. set (s1 := SqlScanner.step before c h scanner) in *. clearbody s1.
  assert (SqlScanner.in_single_quote s1 || SqlScanner.in_double_quote s1 || SqlScanner.in_backtick s1
          || match SqlScanner.dollar_quote_tag s1 with Some _ => true | None => false end
          = match next_quote quote c with Some _ => true | None => false end) as ->.
  { destruct Hnext as (_ & -> & _ & _ & _ & -> & _ & -> & -> & [-> | [-> | ->]]); done. }
  destruct Hs as (_ & _ & _ & _ & _ & _ & _ & _ & _ & Hquote).
  destruct quote as [q|]; cbn [next_quote] in *.
  - rewrite (Hblank ltac:(done)). destruct (N.eqb_spec c q) as [->|Hne]; [|f_equal; by apply IH].
    assert (is_whitespace q = false /\ to_ascii_lowercase q = q) as [-> ->] by (destruct Hquote as [?|[[= ->]|[= ->]]]; done).
    f_equal. by apply IH.
  - destruct ((c =? dquote) || (c =? backtick))%N; [f_equal; by apply IH|].
    destruct (is_whitespace c); [f_equal; by apply IH|f_equal; by apply IH].
Qed.

Lemma header_scanner_default : header_scanner None SqlScanner.default.
Proof. repeat split; auto. Qed.

(** Headers with one key name the same target. *)
Lemma same_key_same_header a b : normalize_insert_prefix_key a = normalize_insert_prefix_key b -> same_header a b.
Proof.
  unfold normalize_insert_prefix_key. intros Hkey. split.
  - apply (f_equal squash) in Hkey. by rewrite !squash_trim, !normalized_squash in Hkey.
  - intros Ha Hb. rewrite !(normalized_form _ None) in Hkey by first [done|apply header_scanner_default]. done.
Qed.

Lemma values_keyword_split rest scanner depth before header tail :
  find_top_level_values_keyword_from scanner depth before rest = Some (header, tail) ->
  exists keyword, before ++ rest = header ++ keyword ++ tail
    /\ (eq_ignore_ascii_case keyword %"values" = true \/ eq_ignore_ascii_case keyword %"value" = true).
Proof.
  revert scanner depth before. induction rest as [|c rest IH]; intros scanner depth before; [done|].
  cbn [find_top_level_values_keyword_from].
  assert (forall s d, find_top_level_values_keyword_from s d (before ++ [c]) rest = Some (header, tail) ->
    exists keyword, before ++ c :: rest = header ++ keyword ++ tail
      /\ (eq_ignore_ascii_case keyword %"values" = true \/ eq_ignore_ascii_case keyword %"value" = true)) as Hnext.
  { intros s d Hf. apply IH in Hf as (k & Hk & Hci). exists k. split; [|done]. by rewrite <- Hk, <- app_assoc. }
  destruct (SqlScanner.is_masked _); [apply Hnext|]. destruct (c =? lparen)%N; [apply Hnext|]. destruct (c =? rparen)%N; [apply Hnext|].
  destruct (_ && keyword_at before (c :: rest) %"values") eqn:E.
  { intros [= <- <-]. exists (take 6 (c :: rest)). split; [exact (f_equal (app before) (eq_sym (take_drop 6 (c :: rest))))|]. left.
    apply andb_true_iff in E as [_ E]. unfold keyword_at in E. by rewrite !andb_true_iff in E; destruct E as [[E _] _]. }
  destruct (_ && keyword_at before (c :: rest) %"value") eqn:E2; [|apply Hnext].
  intros [= <- <-]. exists (take 5 (c :: rest)). split; [exact (f_equal (app before) (eq_sym (take_drop 5 (c :: rest))))|]. right.
  apply andb_true_iff in E2 as [_ E2]. unfold keyword_at in E2. by rewrite !andb_true_iff in E2; destruct E2 as [[E2 _] _].
Qed.

Lemma trim_end_split s : exists w, s = trim_end s ++ w /\ blanks w.
Proof.
  destruct (drop_while_split is_whitespace (rev s)) as (w & Hs & Hw). exists (rev w). split; [|by apply Forall_rev].
  unfold trim_end. rewrite <- (rev_involutive s) at 1. rewrite Hs at 1. by rewrite rev_app_distr.
Qed.

Lemma trim_end_semicolons_split s : exists w, s = trim_end_semicolons s ++ w /\ Forall (fun c => c = semi) w.
Proof.
  destruct (drop_while_split (char_eqb semi) (rev s)) as (w & Hs & Hw). exists (rev w). split.
  - unfold trim_end_semicolons. rewrite <- (rev_involutive s) at 1. rewrite Hs at 1. by rewrite rev_app_distr.
  - apply Forall_rev. eapply Forall_impl; [exact Hw|]. intros c Hc. by apply N.eqb_eq in Hc.
Qed.

(** [s.trim().trim_end_matches(';').trim()]. *)
Lemma trimmed_statement_split s :
  exists w1 w2, s = w1 ++ trim (trim_end_semicolons (trim s)) ++ w2 /\ blanks w1
    /\ Forall (fun c => is_whitespace c = true \/ c = semi) w2.
Proof.
  destruct (trim_split s) as (a1 & a2 & Ha & Ha1 & Ha2). destruct (trim_end_semicolons_split (trim s)) as (b & Hb & Hsemi).
  destruct (trim_split (trim_end_semicolons (trim s))) as (c1 & c2 & Hc & Hc1 & Hc2).
  exists (a1 ++ c1), (c2 ++ b ++ a2). split_and!.
  - rewrite Ha at 1. rewrite Hb at 1. rewrite Hc at 1. by rewrite <- !app_assoc.
  - by apply Forall_app.
  - apply Forall_app. split; [eapply Forall_impl; [exact Hc2|]; by left|].
    apply Forall_app. split; [eapply Forall_impl; [exact Hsemi|]; by right|eapply Forall_impl; [exact Ha2|]; by left].
Qed.

Lemma insert_tail_split tail values :
  parse_insert_values_tail tail = Some values ->
  exists w2 w3, tail = w2 ++ values ++ w3 /\ blanks w2 /\ Forall (fun c => is_whitespace c = true \/ c = semi) w3.
Proof.
  unfold parse_insert_values_tail. destruct (is_empty _); [done|]. destruct (values_tail_ok _ _ _ _ _ _); [|done]. intros [= <-].
  apply trimmed_statement_split.
Qed.

Lemma parsed_insert_text source o i :
  parse_mergeable_insert source o = Some i -> InsertText o source i /\ ins_prefix_key i = normalize_insert_prefix_key (ins_prefix i).
Proof.
  unfold parse_mergeable_insert. set (executable := trim (trim_end_semicolons (trim (leading_executable_sql_with_options source o)))).
  destruct (negb (starts_with_keyword executable %"insert")) eqn:Hkw; [done|].
  destruct (find_top_level_values_keyword executable) as [[before after]|] eqn:Hfind; [|done].
  destruct (parse_insert_values_tail (trim after)) as [rows|] eqn:Htail; [|done]. intros [= <-]. split; [|done].
  constructor; cbn [ins_sql ins_prefix ins_values].
  - destruct (leading_executable_sql_spec o source) as [Hleads _]. set (lead := leading_executable_sql_with_options source o) in *.
    destruct (trimmed_statement_split lead) as (w1 & w2 & Hl & Hw1 & Hw2). exists w1, w2. split; [|done].
    unfold executable. by rewrite <- Hl.
  - unfold starts_with_keyword in Hkw. rewrite negb_false_iff, !andb_true_iff in Hkw. apply Hkw.
  - apply values_keyword_split in Hfind as (keyword & Heq & Hci). cbn [app] in Heq. apply insert_tail_split in Htail as (w2 & w3 & Ht & Hw2 & Hw3).
    destruct (trim_end_split before) as (w1 & Hb & Hw1). destruct (trim_split after) as (a1 & a2 & Ha & Ha1 & Ha2).
    exists w1, keyword, (a1 ++ w2), (w3 ++ a2). split_and!; [|done|done|by apply Forall_app|].
    + rewrite Heq. rewrite Hb at 1. rewrite Ha at 1. rewrite Ht. by rewrite <- !app_assoc.
    + apply Forall_app. split; [done|]. eapply Forall_impl; [exact Ha2|]. by left.
Qed.

(** The target of [INSERT ALL] is the text behind a word [INTO] of the header. *)
Definition IntoTarget (header target : text) : Prop :=
  exists before into w1 w2, header = before ++ into ++ w1 ++ target ++ w2 /\ eq_ignore_ascii_case into %"into" = true
    /\ boundary_before before /\ blanks w1 /\ blanks w2 /\ target <> [].

Lemma insert_all_target_text rest scanner seen before target :
  oracle_insert_all_target_from scanner seen before rest = Some target -> IntoTarget (before ++ rest) target.
Proof.
  revert scanner seen before. induction rest as [|c rest IH]; intros scanner seen before; [done|].
  cbn [oracle_insert_all_target_from].
  assert (forall s b, oracle_insert_all_target_from s b (before ++ [c]) rest = Some target -> IntoTarget (before ++ c :: rest) target) as Hnext.
  { intros s b Hf. apply IH in Hf. by rewrite <- app_assoc in Hf. }
  destruct (SqlScanner.is_masked _); [apply Hnext|]. destruct (negb seen); [apply Hnext|].
  destruct (keyword_at before (c :: rest) %"into") eqn:E; [|apply Hnext].
  pose proof (take_drop 4 (c :: rest)) as Hsplit. remember (drop 4 (c :: rest)) as tail eqn:Ht. clear Ht.
  destruct (is_empty (trim tail)) eqn:Hne; [done|]. intros [= <-].
  unfold keyword_at in E. rewrite !andb_true_iff in E. destruct E as [[E1 E2] _].
  destruct (trim_split tail) as (w1 & w2 & Hd & Hw1 & Hw2).
  exists before, (take 4 (c :: rest)), w1, w2. split_and!; [|exact E1|by apply negb_true_iff in E2|done|done|].
  - rewrite <- Hd. by rewrite Hsplit.
  - intros Hnil. by rewrite Hnil in Hne.
Qed.

End Headers.

(** ** What insert batching may produce *)

Section Groups.

Context `{CharTable}.
Variable db : option DatabaseType.
Variable driver_profile : option text.
Variable max_insert_batch_statements : nat.

(** One statement for a run of inserts: itself, or a merged statement with the
    header of the first. *)
Definition merged_sql (inserts : list MergeableInsert) : text :=
  match inserts with
  | [] => []
  | [i] => ins_sql i
  | first :: _ =>
      let rows := map ins_values inserts in
      match insert_batch_syntax db, oracle_insert_all_target (ins_prefix first) with
      | OracleInsertAll, Some target =>
          %"INSERT ALL" ++ [nl] ++ concat (map (insert_all_row target) rows) ++ %"SELECT 1 FROM dual"
      | _, _ => ins_prefix first ++ %" VALUES" ++ [nl] ++ join [comma; nl] rows
      end
  end.

(** The bytes a batch is charged for. *)
Definition charged_bytes (inserts : list MergeableInsert) : N :=
  match inserts with
  | [] => 0
  | first :: rest =>
      byte_len (ins_prefix first) + byte_len (ins_values first) + 16
      + fold_right (fun i n => byte_len (ins_values i) + 3 + n) 0 rest
  end%N.

(** A run that may be merged: one header, within the two limits. *)
Definition mergeable_run (inserts : list MergeableInsert) : Prop :=
  inserts <> []
  /\ (exists key, Forall (fun i => ins_prefix_key i = key) inserts)
  /\ length inserts <= Nat.max 1 max_insert_batch_statements
  /\ (1 < length inserts -> (charged_bytes inserts <= SQL_FILE_INSERT_BATCH_MAX_BYTES)%N).

(** [p] is a source statement with its action, [i] the insert it was parsed to. *)
Definition parsed_to (p : text * SqlFileStatementAction) (i : MergeableInsert) : Prop :=
  exists sql, snd p = Execute sql /\ mergeable_insert db driver_profile sql = Some i /\ InsertText (options_of db) sql i.

(** Rows that are merged go to the target of their own header. *)
Definition one_target (inserts : list MergeableInsert) : Prop :=
  forall i j, i ∈ inserts -> j ∈ inserts -> same_header (ins_prefix i) (ins_prefix j)
    /\ forall target, oracle_insert_all_target (ins_prefix i) = Some target -> IntoTarget (ins_prefix i) target.

Inductive Groups : list (text * SqlFileStatementAction) -> list SqlFileImportStatement -> Prop :=
| groups_nil : Groups [] []
| groups_skip st rest out :
    Groups rest out -> Groups ((st, Skip) :: rest) (mk_import KindSkip (trim st) [trim st] 1 :: out)
| groups_execute st sql rest out :
    mergeable_insert db driver_profile sql = None -> Groups rest out ->
    Groups ((st, Execute sql) :: rest) (mk_import KindExecute sql [sql] 1 :: out)
| groups_batch run inserts rest out :
    Forall2 parsed_to run inserts -> mergeable_run inserts -> one_target inserts -> Groups rest out ->
    Groups (run ++ rest)
      (mk_import KindExecute (merged_sql inserts) (map ins_sql inserts) (length inserts) :: out).

(** ** The pending batch is a mergeable run *)

Record BatchOf (inserts : list MergeableInsert) (b : PendingInsertBatch) : Prop := mk_batch_of {
  bo_prefix : forall first rest, inserts = first :: rest -> prefix b = ins_prefix first;
  bo_key : Forall (fun i => ins_prefix_key i = prefix_key b) inserts;
  bo_values : values b = map ins_values inserts;
  bo_sources : source_sqls b = map ins_sql inserts;
  bo_count : source_statement_count b = length inserts;
  bo_bytes : batch_byte_len b = charged_bytes inserts;
  bo_syntax : syntax b = insert_batch_syntax db
}.

Lemma batch_of_new i : BatchOf [i] (batch_new i (insert_batch_syntax db)).
Proof.
  constructor; cbn; try done; [by intros ?? [= <- <-]|by repeat constructor|lia].
Qed.

Lemma charged_bytes_snoc inserts i :
  inserts <> [] -> charged_bytes (inserts ++ [i]) = (charged_bytes inserts + byte_len (ins_values i) + 3)%N.
Proof.
  destruct inserts as [|first rest]; [done|]. intros _. cbn.
  induction rest as [|j rest IH]; cbn; lia.
Qed.

Lemma batch_of_push inserts b i :
  inserts <> [] -> BatchOf inserts b -> prefix_key b = ins_prefix_key i -> BatchOf (inserts ++ [i]) (batch_push b i).
Proof.
  intros Hne [Hp Hk Hv Hs Hc Hb Hsyn] Hkey. destruct inserts as [|first rest]; [done|].
  constructor; cbn [prefix prefix_key values source_sqls source_statement_count batch_byte_len syntax batch_push].
  - intros ?? [= <- <-]. by eapply Hp.
  - apply Forall_app. split; [done|]. by repeat constructor.
  - by rewrite Hv, map_app.
  - by rewrite Hs, map_app.
  - rewrite Hc, length_app. cbn. lia.
  - by rewrite Hb, charged_bytes_snoc.
  - done.
Qed.

Lemma mergeable_run_single i : mergeable_run [i].
Proof. split_and!; [done|exists (ins_prefix_key i); by repeat constructor|cbn; lia|cbn; lia]. Qed.

Lemma mergeable_run_push inserts b i :
  mergeable_run inserts -> BatchOf inserts b -> can_accept b i max_insert_batch_statements = true ->
  BatchOf (inserts ++ [i]) (batch_push b i) /\ mergeable_run (inserts ++ [i]).
Proof.
  intros (Hne & _ & Hlen & _) Hbo Ha. unfold can_accept in Ha.
  apply andb_true_iff in Ha as [[Hkey%text_eqb_eq Hcount%Nat.ltb_lt]%andb_true_iff Hbytes%N.leb_le].
  pose proof (batch_of_push _ _ _ Hne Hbo Hkey) as Hbo'. split; [done|].
  split_and!.
  - by destruct inserts.
  - exists (prefix_key (batch_push b i)). apply Hbo'.
  - rewrite (bo_count _ _ Hbo) in Hcount. rewrite length_app. cbn. lia.
  - intros _. rewrite <- (bo_bytes _ _ Hbo'). cbn. lia.
Qed.

Lemma to_sql_merged inserts b : inserts <> [] -> BatchOf inserts b -> to_sql b = merged_sql inserts.
Proof.
  intros Hne [Hp _ Hv Hs Hc _ Hsyn]. destruct inserts as [|first rest]; [done|].
  unfold to_sql, multi_row_sql. rewrite Hc, Hs, Hv, Hsyn, (Hp _ _ eq_refl).
  destruct rest as [|second rest]; [done|]. cbn [length Nat.eqb merged_sql].
  done.
Qed.

(** The pending batch holds the run of statements read since the last flush. *)
Definition PendingOf (run : list (text * SqlFileStatementAction)) (pending : option PendingInsertBatch) : Prop :=
  match pending with
  | None => run = []
  | Some b => exists inserts, Forall2 parsed_to run inserts /\ mergeable_run inserts /\ BatchOf inserts b
  end.

Lemma mergeable_insert_text sql i :
  mergeable_insert db driver_profile sql = Some i ->
  InsertText (options_of db) sql i /\ ins_prefix_key i = normalize_insert_prefix_key (ins_prefix i).
Proof. unfold mergeable_insert. destruct (merge_adjacent_inserts _ _); [|done]. apply parsed_insert_text. Qed.

Lemma parsed_one_target run inserts :
  Forall2 parsed_to run inserts -> (exists key, Forall (fun i => ins_prefix_key i = key) inserts) -> one_target inserts.
Proof.
  intros Hrun [key Hkey] i j Hi Hj. rewrite Forall_forall in Hkey. split.
  - assert (forall x, x ∈ inserts -> normalize_insert_prefix_key (ins_prefix x) = key) as Hnorm.
    { intros x [n Hn]%list_elem_of_lookup_1. destruct (Forall2_lookup_r _ _ _ _ _ Hrun Hn) as (p & _ & sql & _ & Hsql & _).
      rewrite <- (Hkey x) by (by eapply list_elem_of_lookup_2). symmetry. by eapply mergeable_insert_text. }
    apply same_key_same_header. by rewrite !Hnorm.
  - intros target Ht. by apply (insert_all_target_text _ _ _ []) in Ht.
Qed.

Lemma groups_flush run pending rest out :
  PendingOf run pending -> Groups rest out -> Groups (run ++ rest) (flush_pending_insert pending ++ out).
Proof.
  destruct pending as [b|]; cbn; [|by intros ->].
  intros (inserts & Hrun & Hm & Hbo) Hg. destruct Hm as [Hne Hm].
  rewrite (to_sql_merged _ _ Hne Hbo), (bo_sources _ _ Hbo), (bo_count _ _ Hbo).
  apply groups_batch; [done..| |done]. eapply parsed_one_target; [done|]. by destruct Hm as [Hkey _].
Qed.

Lemma pending_single st sql i :
  mergeable_insert db driver_profile sql = Some i ->
  PendingOf [(st, Execute sql)] (Some (batch_new i (insert_batch_syntax db))).
Proof.
  intros Hi. exists [i]. split_and!; [|apply mergeable_run_single|apply batch_of_new].
  repeat constructor. exists sql. split_and!; [done..|by apply mergeable_insert_text].
Qed.

Lemma optimize_step_groups run pending st action pending' pushed :
  PendingOf run pending ->
  optimize_step db driver_profile max_insert_batch_statements pending st action = (pending', pushed) ->
  exists run', PendingOf run' pending'
    /\ forall rest out, Groups (run' ++ rest) out -> Groups (run ++ (st, action) :: rest) (pushed ++ out).
Proof.
  intros Hp Hstep. destruct action as [sql|]; cbn in Hstep.
  2:{ injection Hstep as <- <-. exists []. split; [done|]. intros rest out Hg.
      rewrite <- app_assoc. apply groups_flush; [done|]. by apply groups_skip. }
  destruct (mergeable_insert db driver_profile sql) as [i|] eqn:Hi.
  2:{ injection Hstep as <- <-. exists []. split; [done|]. intros rest out Hg.
      rewrite <- app_assoc. apply groups_flush; [done|]. by apply groups_execute. }
  destruct pending as [b|].
  2:{ injection Hstep as <- <-. exists [(st, Execute sql)]. split; [by apply pending_single|].
      cbn in Hp. by subst run. }
  destruct (can_accept b i _) eqn:Ha; injection Hstep as <- <-.
  - destruct Hp as (inserts & Hrun & Hm & Hbo).
    destruct (mergeable_run_push _ _ _ Hm Hbo Ha) as [Hbo' Hm'].
    exists (run ++ [(st, Execute sql)]). split.
    + exists (inserts ++ [i]). split_and!; [|done..]. apply Forall2_app; [done|]. repeat constructor. exists sql. split_and!; [done..|by apply mergeable_insert_text].
    + intros rest out. by rewrite <- app_assoc.
  - exists [(st, Execute sql)]. split; [by apply pending_single|].
    intros rest out Hg. by apply (groups_flush run (Some b)).
Qed.

Lemma action_of_returns statement : exists action, action_of db driver_profile statement = Returns action.
Proof.
  unfold action_of. destruct db; [|by eexists].
  edestruct prepare_returns as (action & Heq & _). by exists action.
Qed.

Lemma optimize_groups statements run pending :
  PendingOf run pending ->
  exists actions out,
    optimize_from db driver_profile max_insert_batch_statements pending statements = Returns out
    /\ Forall2 (fun st action => action_of db driver_profile st = Returns action) statements actions
    /\ Groups (run ++ zip statements actions) out.
Proof.
  revert run pending. induction statements as [|st statements IH]; intros run pending Hp; cbn [optimize_from].
  { exists [], (flush_pending_insert pending). split_and!; [done..|].
    rewrite <- (app_nil_r (flush_pending_insert pending)). apply groups_flush; [done|constructor]. }
  destruct (action_of_returns st) as (action & Ha). rewrite Ha. cbn [outcome_bind].
  destruct (optimize_step _ _ _ pending st action) as [pending' pushed] eqn:Hstep.
  destruct (optimize_step_groups _ _ _ _ _ _ Hp Hstep) as (run' & Hp' & Hg).
  destruct (IH run' pending' Hp') as (actions & out & -> & Hf & Hgr). cbn [outcome_bind].
  exists (action :: actions), (pushed ++ out). split_and!; [done|by constructor|]. by apply Hg.
Qed.

End Groups.

(** ** Consequences of the grouping *)

Lemma byte_len_join_rows first rest :
  (byte_len (join [comma; nl] (map ins_values (first :: rest)))
   <= byte_len (ins_values first) + fold_right (fun i n => byte_len (ins_values i) + 3 + n) 0 rest)%N.
Proof.
  revert first. induction rest as [|second rest IH]; intros first; [cbn [map join fold_right]; lia|].
  specialize (IH second). cbn [map fold_right] in *. rewrite join_cons, !byte_len_app.
  change (byte_len [comma; nl]) with 2%N. lia.
Qed.

Section Consequences.

Context `{CharTable}.
Variable db : option DatabaseType.
Variable driver_profile : option text.
Variable max_insert_batch_statements : nat.

(** The text recorded for a source statement. *)
Definition source_sql (p : text * SqlFileStatementAction) : text :=
  match snd p with
  | Skip => trim (fst p)
  | Execute sql => match mergeable_insert db driver_profile sql with Some i => ins_sql i | None => sql end
  end.

Lemma parsed_sources run inserts :
  Forall2 (parsed_to db driver_profile) run inserts -> map source_sql run = map ins_sql inserts.
Proof.
  induction 1 as [|p i run inserts (sql & Hp & Hi & _) _ IH]; [done|]. cbn. rewrite IH. f_equal.
  unfold source_sql. by rewrite Hp, Hi.
Qed.

Lemma groups_conserve ps out :
  Groups db driver_profile max_insert_batch_statements ps out ->
  concat (map import_source_sqls out) = map source_sql ps
  /\ Forall (fun st => import_source_statement_count st = length (import_source_sqls st)) out.
Proof.
  induction 1 as [|st rest out _ [IH IHc]|st sql rest out Hi _ [IH IHc]|run inserts rest out Hr Hm _ _ [IH IHc]]; cbn.
  - by split.
  - rewrite IH. split; [done|]. by constructor.
  - rewrite IH. split; [|by constructor]. unfold source_sql at 2. cbn. by rewrite Hi.
  - rewrite IH, map_app, (parsed_sources run inserts) by done. split; [done|].
    constructor; [|done]. cbn. by rewrite length_map.
Qed.

Lemma merged_sql_bytes inserts :
  1 < length inserts -> insert_batch_syntax db = MultiRowValues ->
  (byte_len (merged_sql db inserts) <= charged_bytes inserts)%N.
Proof.
  intros Hlen Hsyn. destruct inserts as [|first [|second rest]]; cbn in Hlen; [lia..|].
  unfold merged_sql. rewrite Hsyn, !byte_len_app. cbn [charged_bytes].
  pose proof (byte_len_join_rows first (second :: rest)) as Hj.
  change (byte_len (%" VALUES")) with 7%N. change (byte_len [nl]) with 1%N. lia.
Qed.

(** A produced statement within the limits of a batch. *)
Definition within_limits (st : SqlFileImportStatement) : Prop :=
  1 <= import_source_statement_count st <= Nat.max 1 max_insert_batch_statements
  /\ (1 < import_source_statement_count st -> insert_batch_syntax db = MultiRowValues ->
      (byte_len (import_sql st) <= SQL_FILE_INSERT_BATCH_MAX_BYTES)%N).

Lemma groups_within_limits ps out :
  Groups db driver_profile max_insert_batch_statements ps out -> Forall within_limits out.
Proof.
  induction 1 as [| | |run inserts rest out _ (Hne & _ & Hlen & Hbytes) _ _ IH]; [constructor|constructor; [|done]..].
  - split; cbn; lia.
  - split; cbn; lia.
  - split; cbn.
    + destruct inserts; [done|]. cbn in *. lia.
    + intros H1 Hsyn. etrans; [by apply merged_sql_bytes|by apply Hbytes].
Qed.

Lemma groups_unmerged ps out :
  (forall sql, mergeable_insert db driver_profile sql = None) ->
  Groups db driver_profile max_insert_batch_statements ps out -> length out = length ps.
Proof.
  intros Hnone. induction 1 as [|st rest out _ IH|st sql rest out Hi _ IH|run inserts rest out Hr Hm _ _ IH]; cbn; [congruence..|].
  destruct Hr as [|p i run inserts (sql & _ & Hi & _) Hr]; [by destruct Hm|]. by rewrite Hnone in Hi.
Qed.

End Consequences.

Section Contract.

Context `{CharTable}.

(** C5: insert batching refines the grouping specification.  It returns for
    every file, and its statements are, in file order, the skipped statements, the
    statements that are not plain inserts as they are, and runs of adjacent inserts,
    each run within the statement and byte limits and spelled as one statement with
    the header of its first insert and the rows of all.  Header and rows are the
    source's text ([InsertText]: behind the leading comments, the header, [VALUES] and
    the rows are the whole statement but for blanks and final semicolons), and the
    headers of a run name one target ([same_header]: equal up to blanks and the case
    of bare names, quoted names exactly; with literals, comments or dollars in a
    header, equal up to blanks and case). *)
Theorem optimize_refines_groups (statements : list text) (db : option DatabaseType) (driver_profile : option text)
    (max_insert_batch_statements : nat) :
  exists actions out,
    optimize_sql_file_import_statements_with_max_insert_batch_statements statements db driver_profile
      max_insert_batch_statements = Returns out
    /\ Forall2 (fun st action => action_of db driver_profile st = Returns action) statements actions
    /\ Groups db driver_profile max_insert_batch_statements (zip statements actions) out.
Proof. by apply (optimize_groups db driver_profile max_insert_batch_statements statements [] None). Qed.

(** Batching loses, repeats and reorders nothing: the recorded source
    statements of the output, concatenated, are the source statements of the
    file in their order, and each output counts its sources. *)
Theorem optimize_conserves_sources (statements : list text) (db : option DatabaseType) (driver_profile : option text)
    (max_insert_batch_statements : nat) :
  exists actions out,
    optimize_sql_file_import_statements_with_max_insert_batch_statements statements db driver_profile
      max_insert_batch_statements = Returns out
    /\ Forall2 (fun st action => action_of db driver_profile st = Returns action) statements actions
    /\ concat (map import_source_sqls out) = map (source_sql db driver_profile) (zip statements actions)
    /\ Forall (fun st => import_source_statement_count st = length (import_source_sqls st)) out.
Proof.
  destruct (optimize_groups db driver_profile max_insert_batch_statements statements [] None) as (actions & out & Heq & Hf & Hg);
    [done|].
  exists actions, out. split; [done|]. split; [done|]. by eapply groups_conserve.
Qed.

(** Batches respect their limits: a statement of the output stands for at
    least one and at most [max 1 limit] source statements, and a merged
    multi-row statement is at most 4 MiB long. *)
Theorem optimize_within_limits (statements : list text) (db : option DatabaseType) (driver_profile : option text)
    (max_insert_batch_statements : nat) :
  exists out,
    optimize_sql_file_import_statements_with_max_insert_batch_statements statements db driver_profile
      max_insert_batch_statements = Returns out
    /\ Forall (within_limits db max_insert_batch_statements) out.
Proof.
  destruct (optimize_groups db driver_profile max_insert_batch_statements statements [] None) as (actions & out & Heq & Hf & Hg);
    [done|].
  exists out. split; [done|]. by eapply groups_within_limits.
Qed.

(** On a MySQL-compatible target no two statements are merged, so that
    session state such as [LAST_INSERT_ID()] sees every insert: the output has
    one statement per source statement. *)
Theorem optimize_mysql_keeps_boundaries (statements : list text) (db : DatabaseType) (driver_profile : option text)
    (max_insert_batch_statements : nat)
    (Hmysql : is_mysql_compatible_import_target db driver_profile = true) :
  exists out,
    optimize_sql_file_import_statements_with_max_insert_batch_statements statements (Some db) driver_profile
      max_insert_batch_statements = Returns out
    /\ length out = length statements.
Proof.
  destruct (optimize_groups (Some db) driver_profile max_insert_batch_statements statements [] None)
    as (actions & out & Heq & Hf & Hg); [done|].
  exists out. split; [done|]. apply groups_unmerged in Hg.
  - rewrite Hg. cbn [app]. rewrite length_zip_with. apply Forall2_length in Hf. lia.
  - intros sql. unfold mergeable_insert, merge_adjacent_inserts. by rewrite Hmysql.
Qed.

End Contract.

#[local] Existing Instance latin1_table.

Lemma optimize_mysql_keeps_boundaries_witness :
  exists out,
    optimize_sql_file_import_statements_with_max_insert_batch_statements
      [%"INSERT INTO t VALUES (1)"; %"INSERT INTO t VALUES (2)"] (Some Postgres) (Some %"TiDB") 500 = Returns out
    /\ length out = length [%"INSERT INTO t VALUES (1)"; %"INSERT INTO t VALUES (2)"].
Proof. apply optimize_mysql_keeps_boundaries. by vm_compute. Defined.

(** ** Where merging changes what is executed *)

(** A line comment after the last row swallows the comma that joins it to the
    next statement's rows: the merged statement is not valid SQL, the two source
    statements are. *)
Lemma merged_rows_lose_comma_after_comment :
  optimize_sql_file_import_statements
    [%"INSERT INTO t VALUES (1) -- one"; %"INSERT INTO t VALUES (2)"] (Some Postgres) None
  = Returns [mk_import KindExecute %"INSERT INTO t VALUES
(1) -- one,
(2)" [%"INSERT INTO t VALUES (1) -- one"; %"INSERT INTO t VALUES (2)"] 2].
Proof. by vm_compute. Qed.

(** Unquoted identifiers are compared without case: on a server whose
    identifiers are case-sensitive the rows of [events] are inserted into
    [Events]. *)
Lemma merged_tables_differ_by_case :
  optimize_sql_file_import_statements
    [%"INSERT INTO Events VALUES (1)"; %"INSERT INTO events VALUES (2)"] (Some ClickHouse) None
  = Returns [mk_import KindExecute %"INSERT INTO Events VALUES
(1),
(2)" [%"INSERT INTO Events VALUES (1)"; %"INSERT INTO events VALUES (2)"] 2].
Proof. by vm_compute. Qed.
