(* ===== verification/BinaryDump.v ===== *)
(** * BinaryDump: [MysqlDumpBinaryLiteralNormalizer] ([data/sql_file_import.rs]).

    A [mysqldump] file may hold raw bytes inside [_binary '...'] literals, which
    are not valid UTF-8.  Before decoding, the importer rewrites each of them
    to a hexadecimal literal [X'...'], following strings, identifiers and
    comments so that it rewrites nothing else.  It works on chunks: bytes whose
    meaning depends on what follows are kept pending.

    A byte is a number below 256.  The bytes before the position [index] of the
    pending buffer matter only through the last of them, so the model carries
    that byte ([before], [None] at index 0) and the suffix at [index]. *)

From S2P Require Import Prelude Lexis.

Inductive MysqlDumpBinaryLiteralState : Set :=
| Normal
| SingleQuoted
| DoubleQuoted
| BacktickQuoted
| LineComment
| BlockComment
| BinaryQuoted.

#[export] Instance MysqlDumpBinaryLiteralState_eq_dec : EqDecision MysqlDumpBinaryLiteralState.
Proof. solve_decision. Defined.

Module MysqlDumpBinaryLiteralNormalizer.

Record t : Set := mk {
  state : MysqlDumpBinaryLiteralState;
  pending : text;
  previous_source_byte : option char;
  quoted_escape_pending : bool
}.

Definition default : t := mk Normal [] None false.

(** The fields the loop changes. *)
Definition set (st : MysqlDumpBinaryLiteralState) (prev : char) (escape : bool) (s : t) : t :=
  mk st (pending s) (Some prev) escape.

Definition source_byte_before (before : option char) (s : t) : option char :=
  match before with Some b => Some b | None => previous_source_byte s end.

Definition is_sql_identifier_byte (byte : option char) : bool :=
  match byte with
  | Some b => is_ascii_alphanumeric b || (b =? under)%N || (b =? dollar)%N
  | None => false
  end.

(** [u8::is_ascii_control]. *)
Definition is_ascii_control (b : char) : bool := ((b <=? 31) || (b =? 127))%N.

Definition HEX : text := %"0123456789ABCDEF".

Definition append_hex (byte : char) : text :=
  [nth (N.to_nat (N.shiftr byte 4)) HEX 0%N; nth (N.to_nat (N.land byte 15)) HEX 0%N].

(** The byte that [\escaped] stands for. *)
Definition unescape (escaped : char) : char :=
  if (escaped =? 48)%N then 0%N
  else if (escaped =? 98)%N then 8%N
  else if (escaped =? 110)%N then 10%N
  else if (escaped =? 114)%N then 13%N
  else if (escaped =? 116)%N then 9%N
  else if (escaped =? 90)%N then 26%N
  else escaped.

(** One iteration: stop and wait for more input, fail, or consume [n] bytes. *)
Inductive iteration : Set :=
| Break
| Fail
| Go (s : t) (output : text) (n : nat).

(** The part of the [Normal] arm after the test for [_binary]. *)
Definition normal_other (eof : bool) (s : t) (byte : char) (rest : text) : iteration :=
  let esc := quoted_escape_pending s in
  if (byte =? dash)%N && head_is dash rest then
    match drop 1 rest with
    | [] => if eof then Go (set LineComment dash esc s) [dash; dash] 2 else Break
    | after :: _ =>
        Go (set (if is_ascii_whitespace after || is_ascii_control after then LineComment else Normal) dash esc s)
           [dash; dash] 2
    end
  else if (byte =? dash)%N && is_empty rest && negb eof then Break
  else if (byte =? hash)%N then Go (set LineComment byte esc s) [byte] 1
  else if (byte =? slash)%N && head_is star rest then Go (set BlockComment star esc s) [slash; star] 2
  else if (byte =? slash)%N && is_empty rest && negb eof then Break
  else
    let st :=
      if (byte =? squote)%N then SingleQuoted
      else if (byte =? dquote)%N then DoubleQuoted
      else if (byte =? backtick)%N then BacktickQuoted
      else Normal in
    Go (set st byte esc s) [byte] 1.

Definition normal_step (eof : bool) (before : option char) (s : t) (byte : char) (rest : text) : iteration :=
  if (byte =? under)%N then
    if length (byte :: rest) <? 7 then
      if negb eof then Break else normal_other eof s byte rest
    else if eq_ignore_ascii_case (take 7 (byte :: rest)) %"_binary"
            && negb (is_sql_identifier_byte (source_byte_before before s)) then
      let blanks := take_while is_ascii_whitespace (drop 6 rest) in
      let after := drop_while is_ascii_whitespace (drop 6 rest) in
      if is_empty after && negb eof then Break
      else if head_is squote after
      then Go (set BinaryQuoted squote (quoted_escape_pending s) s) [88%N; squote] (7 + length blanks + 1)
      else normal_other eof s byte rest
    else normal_other eof s byte rest
  else normal_other eof s byte rest.

(** Inside ['...'], ["..."] or [`...`]. *)
Definition quoted_step (quote : char) (eof : bool) (s : t) (byte : char) (rest : text) : iteration :=
  if (byte =? quote)%N && is_empty rest && negb eof then Break
  else if quoted_escape_pending s then Go (set (state s) byte false s) [byte] 1
  else if (byte =? bslash)%N then
    match rest with
    | escaped :: _ => Go (set (state s) escaped false s) [byte; escaped] 2
    | [] => Go (set (state s) byte (negb eof) s) [byte] 1
    end
  else if (byte =? quote)%N then
    if head_is quote rest then Go (set (state s) quote false s) [byte; quote] 2
    else Go (set Normal byte false s) [byte] 1
  else Go (set (state s) byte false s) [byte] 1.

Definition block_comment_step (eof : bool) (s : t) (byte : char) (rest : text) : iteration :=
  if (byte =? star)%N && is_empty rest && negb eof then Break
  else if (byte =? star)%N && head_is slash rest
  then Go (set Normal slash (quoted_escape_pending s) s) [byte; slash] 2
  else Go (set (state s) byte (quoted_escape_pending s) s) [byte] 1.

Definition binary_step (eof : bool) (s : t) (byte : char) (rest : text) : iteration :=
  let esc := quoted_escape_pending s in
  if (byte =? bslash)%N then
    match rest with
    | escaped :: _ => Go (set (state s) escaped esc s) (append_hex (unescape escaped)) 2
    | [] => if eof then Fail else Break
    end
  else if (byte =? squote)%N && is_empty rest && negb eof then Break
  else if (byte =? squote)%N then
    if head_is squote rest then Go (set (state s) squote esc s) (append_hex squote) 2
    else Go (set Normal squote esc s) [squote] 1
  else Go (set (state s) byte esc s) (append_hex byte) 1.

(** The body of the [while index < self.pending.len()] loop. *)
Definition iterate (eof : bool) (before : option char) (s : t) (byte : char) (rest : text) : iteration :=
  match state s with
  | Normal => normal_step eof before s byte rest
  | SingleQuoted => quoted_step squote eof s byte rest
  | DoubleQuoted => quoted_step dquote eof s byte rest
  | BacktickQuoted => quoted_step backtick eof s byte rest
  | LineComment =>
      Go (set (if (byte =? nl)%N then Normal else state s) byte (quoted_escape_pending s) s) [byte] 1
  | BlockComment => block_comment_step eof s byte rest
  | BinaryQuoted => binary_step eof s byte rest
  end.

(** The loop from a position: [None] is the error return, otherwise the state,
    the output and the bytes left.  Each iteration consumes a byte. *)
Fixpoint loop (fuel : nat) (eof : bool) (before : option char) (s : t) (l : text) : option (t * text * text) :=
  match fuel, l with
  | _, [] => Some (s, [], [])
  | O, _ => Some (s, [], l)
  | S fuel', byte :: rest =>
      match iterate eof before s byte rest with
      | Break => Some (s, [], l)
      | Fail => None
      | Go s' out n =>
          match loop fuel' eof (last (take n l)) s' (drop n l) with
          | Some (s'', out', remaining) => Some (s'', out ++ out', remaining)
          | None => None
          end
      end
  end.

Definition set_pending (p : text) (s : t) : t := mk (state s) p (previous_source_byte s) (quoted_escape_pending s).

(** [normalize]: [None] is [Err("Unterminated MySQL binary literal")]. *)
Definition normalize (s : t) (input : text) (eof : bool) : option (t * text) :=
  let l := pending s ++ input in
  match loop (length l) eof None (set_pending [] s) l with
  | None => None
  | Some (s', output, remaining) =>
      if eof then
        if bool_decide (state s' = BinaryQuoted) then None
        else Some (set_pending [] s', output ++ remaining)
      else Some (set_pending remaining s', output)
  end.

(** The calls of [SqlFileStreamDecoder::next_chunk] over a file: every chunk but
    the last with [eof = false]; the outputs are decoded in order. *)
Fixpoint normalize_chunks (s : t) (chunks : list text) (last_chunk : text) : option text :=
  match chunks with
  | [] => match normalize s last_chunk true with Some (_, output) => Some output | None => None end
  | chunk :: chunks =>
      match normalize s chunk false with
      | None => None
      | Some (s', output) =>
          match normalize_chunks s' chunks last_chunk with Some rest => Some (output ++ rest) | None => None end
      end
  end.

End MysqlDumpBinaryLiteralNormalizer.

Section Examples.

Import MysqlDumpBinaryLiteralNormalizer.

Example binary_1 :
  normalize_chunks default [%"INSERT INTO t VALUES (_bin"; %"ary  '" ++ [172; 237; 92]%N; %"0" ++ [5; 92; 110; 39]%N] (%"'\\')")
  = Some (%"INSERT INTO t VALUES (X'ACED00050A275C')").
Proof. by vm_compute. Qed.

Example binary_2 :
  normalize_chunks default [] (%"SELECT 5--1, _binary '" ++ [172; 5]%N ++ %"'; -- _binary 'x'")
  = Some (%"SELECT 5--1, X'AC05'; -- _binary 'x'").
Proof. by vm_compute. Qed.

Example binary_3 : normalize_chunks default [] (%"SELECT _binary 'abc") = None.
Proof. by vm_compute. Qed.

End Examples.
