(* ===== verification/BinaryDumpFacts.v ===== *)
(** * BinaryDumpFacts: normalising a dump does not depend on how it is read.

    The normaliser sees the file in chunks of arbitrary size and keeps the bytes
    it cannot decide yet.  The first theorem says that any chunking gives the
    output (or the error) of the whole file; the second that a [_binary] literal
    becomes the hexadecimal literal of exactly the bytes it denotes. *)

From S2P Require Import Prelude Lexis BinaryDump.
Import MysqlDumpBinaryLiteralNormalizer.

(** ** One iteration *)

Lemma take_while_drop_while {A} (p : A -> bool) l : l = take_while p l ++ drop_while p l.
Proof. induction l as [|x l IH]; cbn; [done|]. destruct (p x); cbn; [by rewrite <- IH|done]. Qed.

Lemma take_while_app_keep {A} (p : A -> bool) l m :
  drop_while p l <> [] ->
  take_while p (l ++ m) = take_while p l /\ drop_while p (l ++ m) = drop_while p l ++ m.
Proof.
  induction l as [|x l IH]; cbn; [done|]. destruct (p x); [|done].
  intros Hd. by destruct (IH Hd) as [-> ->].
Qed.

(** An iteration consumes at least one byte and remembers the last one. *)
Definition consumes (s : t) (byte : char) (rest : text) (i : iteration) : Prop :=
  match i with
  | Break | Fail => True
  | Go s' _ n =>
      1 <= n <= S (length rest) /\ previous_source_byte s' = last (take n (byte :: rest)) /\ pending s' = pending s
  end.

Lemma consumes_one s byte rest st esc out : consumes s byte rest (Go (set st byte esc s) out 1).
Proof. cbn. split_and!; [lia..|done|done]. Qed.

Lemma consumes_two s byte c rest st esc out : consumes s byte (c :: rest) (Go (set st c esc s) out 2).
Proof. cbn. split_and!; [lia..|done|done]. Qed.

#[local] Hint Resolve consumes_one consumes_two : core.

Lemma normal_other_consumes eof s byte rest : consumes s byte rest (normal_other eof s byte rest).
Proof.
  unfold normal_other.
  destruct ((byte =? dash)%N && head_is dash rest) eqn:Hd.
  { apply andb_true_iff in Hd as [_ (rest' & ->)%head_is_cons].
    destruct (drop 1 (dash :: rest')); [destruct eof|]; cbn; try done; split_and!; try lia; done. }
  destruct (_ && _ && _); [done|]. destruct (byte =? hash)%N; [done|].
  destruct ((byte =? slash)%N && head_is star rest) eqn:Hs.
  { apply andb_true_iff in Hs as [_ (rest' & ->)%head_is_cons]. done. }
  destruct (_ && _ && _); [done|]. auto.
Qed.

Lemma binary_opening_consumed byte rest after :
  7 <= length (byte :: rest) -> drop_while is_ascii_whitespace (drop 6 rest) = squote :: after ->
  let n := 7 + length (take_while is_ascii_whitespace (drop 6 rest)) + 1 in
  n <= S (length rest) /\ last (take n (byte :: rest)) = Some squote /\ drop n (byte :: rest) = after.
Proof.
  intros Hlen Hafter. cbn [length] in Hlen. pose proof (take_while_drop_while is_ascii_whitespace (drop 6 rest)) as Hsplit.
  rewrite Hafter in Hsplit. set (blanks := take_while is_ascii_whitespace (drop 6 rest)) in *.
  assert (byte :: rest = (byte :: take 6 rest ++ blanks ++ [squote]) ++ after) as Hl.
  { cbn. f_equal. rewrite <- !app_assoc. cbn. by rewrite <- Hsplit, take_drop. }
  assert (length (byte :: take 6 rest ++ blanks ++ [squote]) = 7 + length blanks + 1) as Hn.
  { cbn [length] in *. rewrite !length_app, length_take. cbn [length]. lia. }
  cbv zeta. split_and!.
  - apply (f_equal length) in Hl. rewrite length_app, Hn in Hl. cbn [length] in Hl. lia.
  - rewrite Hl, <- Hn, take_app_length.
    rewrite app_assoc. apply (last_snoc squote (byte :: take 6 rest ++ blanks)).
  - by rewrite Hl, <- Hn, drop_app_length.
Qed.

Lemma normal_step_consumes eof before s byte rest : consumes s byte rest (normal_step eof before s byte rest).
Proof.
  unfold normal_step. destruct (byte =? under)%N; [|apply normal_other_consumes].
  destruct (Nat.ltb_spec (length (byte :: rest)) 7) as [|Hlen]; [destruct eof; [apply normal_other_consumes|done]|].
  destruct (_ && negb (is_sql_identifier_byte _)); [|apply normal_other_consumes].
  destruct (is_empty _ && _); [done|].
  destruct (head_is squote _) eqn:Hq; [|apply normal_other_consumes].
  apply head_is_cons in Hq as (after & Hafter).
  destruct (binary_opening_consumed byte rest after Hlen Hafter) as (Hle & Hlast & _).
  split_and!; [lia|done|done|done].
Qed.

Lemma iterate_consumes eof before s byte rest : consumes s byte rest (iterate eof before s byte rest).
Proof.
  unfold iterate. destruct (state s); [apply normal_step_consumes| | | |auto| |].
  1-3: unfold quoted_step; destruct (_ && _ && _); [done|]; destruct (quoted_escape_pending s); [auto|];
    destruct (byte =? bslash)%N; [destruct rest; auto|]; destruct (byte =? _)%N; [|auto];
    destruct (head_is _ rest) eqn:Hh; [|auto]; apply head_is_cons in Hh as (r & ->); auto.
  - unfold block_comment_step. destruct (_ && _ && _); [done|].
    destruct ((byte =? star)%N && head_is slash rest) eqn:Hh; [|auto].
    apply andb_true_iff in Hh as [_ (r & ->)%head_is_cons]. auto.
  - unfold binary_step. destruct (byte =? bslash)%N; [destruct rest; [by destruct eof|auto]|].
    destruct (_ && _ && _); [done|]. destruct (N.eqb_spec byte squote) as [->|]; [|auto].
    destruct (head_is squote rest) eqn:Hh; [|auto]. apply head_is_cons in Hh as (r & ->). auto.
Qed.

(** The byte before the position is the one the state remembers. *)
Lemma iterate_before eof b s byte rest :
  previous_source_byte s = Some b -> iterate eof (Some b) s byte rest = iterate eof None s byte rest.
Proof. intros Hp. unfold iterate, normal_step, source_byte_before. by rewrite Hp. Qed.

(** ** The loop *)

Definition prepend (out : text) (r : option (t * text * text)) : option (t * text * text) :=
  match r with Some (s, out', remaining) => Some (s, out ++ out', remaining) | None => None end.

Lemma loop_before fuel eof b s l :
  previous_source_byte s = Some b -> loop fuel eof (Some b) s l = loop fuel eof None s l.
Proof. intros Hp. destruct fuel, l; cbn; [done..|]. by rewrite iterate_before. Qed.

Definition run (eof : bool) (s : t) (l : text) : option (t * text * text) := loop (length l) eof None s l.

Lemma loop_fuel fuel eof s l : length l <= fuel -> loop fuel eof None s l = run eof s l.
Proof.
  revert s l. induction fuel as [fuel IH] using lt_wf_ind. intros s l Hle. unfold run.
  destruct l as [|byte rest]; [by destruct fuel|]. destruct fuel as [|fuel]; [cbn in Hle; lia|].
  cbn [loop length]. pose proof (iterate_consumes eof None s byte rest) as Hc.
  destruct (iterate eof None s byte rest) as [| |s' out n]; [done..|]. destruct Hc as (Hn & Hp & _).
  destruct (last (take n (byte :: rest))) as [b|] eqn:Hl.
  - rewrite !loop_before by done. cbn in Hle.
    assert (length (drop n (byte :: rest)) <= length rest) by (rewrite length_drop; cbn; lia).
    rewrite (IH fuel), (IH (length rest)) by lia. done.
  - apply last_None in Hl. destruct n; [lia|done].
Qed.

Lemma run_cons eof s byte rest :
  run eof s (byte :: rest) =
  match iterate eof None s byte rest with
  | Break => Some (s, [], byte :: rest)
  | Fail => None
  | Go s' out n => prepend out (run eof s' (drop n (byte :: rest)))
  end.
Proof.
  unfold run at 1. cbn [loop length]. pose proof (iterate_consumes eof None s byte rest) as Hc.
  destruct (iterate eof None s byte rest) as [| |s' out n]; [done..|]. destruct Hc as (Hn & Hp & _).
  destruct (last (take n (byte :: rest))) as [b|] eqn:Hl.
  - rewrite loop_before, loop_fuel by (done || (rewrite length_drop; cbn; lia)).
    unfold prepend. by destruct (run eof s' _) as [[[? ?] ?]|].
  - apply last_None in Hl. destruct n; [lia|done].
Qed.

(** ** Looking ahead *)

(** States like [s] are inside a string or identifier closed by [quote]. *)
Definition quoted_by (s : t) (quote : char) : Prop :=
  forall s1, state s1 = state s ->
  forall eof byte rest, iterate eof None s1 byte rest = quoted_step quote eof s1 byte rest.

(** A backslash at the end of the input, inside a string: the escape is
    remembered instead of being read together with the next byte. *)
Definition cut_escape (s : t) (byte : char) (rest : text) (i : iteration) : Prop :=
  (exists quote, quoted_by s quote)
  /\ quoted_escape_pending s = false /\ byte = bslash /\ rest = []
  /\ i = Go (set (state s) bslash true s) [bslash] 1.

(** What an iteration decides without seeing the end of the file it decides the
    same way whatever follows. *)
Definition settled (s : t) (byte : char) (rest : text) (i : iteration) : Prop :=
  forall eof m, iterate eof None s byte (rest ++ m) = i.

Lemma normal_other_settled s byte rest s' out n :
  normal_other false s byte rest = Go s' out n ->
  forall eof m, normal_other eof s byte (rest ++ m) = Go s' out n.
Proof.
  intros Hgo eof m. unfold normal_other in *.
  destruct rest as [|c rest].
  - cbn in Hgo. rewrite !andb_true_r, !andb_false_r in Hgo.
    destruct (N.eqb_spec byte dash) as [->|Hd]; [done|].
    destruct (byte =? hash)%N; [done|].
    destruct (N.eqb_spec byte slash) as [->|Hs]; [done|]. done.
  - cbn [app head_is is_empty drop andb] in *. rewrite !andb_false_r in *.
    destruct ((byte =? dash)%N && (c =? dash)%N); [|done].
    rewrite drop_0 in *. by destruct rest.
Qed.

Lemma normal_step_settled s byte rest s' out n :
  normal_step false None s byte rest = Go s' out n ->
  forall eof m, normal_step eof None s byte (rest ++ m) = Go s' out n.
Proof.
  intros Hgo eof m. unfold normal_step in *.
  destruct (byte =? under)%N; [|by apply normal_other_settled].
  destruct (Nat.ltb_spec (length (byte :: rest)) 7) as [|Hlen]; [done|].
  destruct (Nat.ltb_spec (length (byte :: rest ++ m)) 7) as [Hlt|_];
    [cbn in *; rewrite length_app in Hlt; lia|].
  change (byte :: rest ++ m) with ((byte :: rest) ++ m). rewrite take_app_le by done.
  destruct (_ && negb (is_sql_identifier_byte _)); [|by apply normal_other_settled].
  cbn [length] in Hlen. rewrite drop_app_le by lia.
  destruct (drop_while is_ascii_whitespace (drop 6 rest)) as [|c after] eqn:Hafter; [done|].
  destruct (take_while_app_keep is_ascii_whitespace (drop 6 rest) m) as [-> ->]; [by rewrite Hafter|].
  rewrite Hafter. cbn [is_empty andb app head_is] in *.
  destruct (c =? squote)%N; [done|]. by apply normal_other_settled.
Qed.

Lemma quoted_step_settled quote s byte rest s' out n :
  quoted_by s quote -> quoted_step quote false s byte rest = Go s' out n ->
  cut_escape s byte rest (Go s' out n) \/ settled s byte rest (Go s' out n).
Proof.
  intros Hit Hgo. unfold settled. setoid_rewrite (Hit s eq_refl). unfold quoted_step in Hgo |- *.
  destruct rest as [|c rest].
  - cbn [is_empty negb andb head_is app] in *. rewrite !andb_true_r in Hgo.
    destruct (byte =? quote)%N eqn:Hq; [done|]. cbn [andb].
    destruct (quoted_escape_pending s) eqn:He; [right; by intros|].
    destruct (N.eqb_spec byte bslash) as [->|Hb]; [|right; by intros].
    left. split_and!; [by exists quote|done..].
  - right. intros eof m. cbn [is_empty negb andb head_is app] in *. by rewrite !andb_false_r in *.
Qed.

Lemma iterate_settled s byte rest s' out n :
  iterate false None s byte rest = Go s' out n ->
  cut_escape s byte rest (Go s' out n) \/ settled s byte rest (Go s' out n).
Proof.
  intros Hgo. destruct (state s) eqn:Hst.
  - right. unfold settled, iterate in *. rewrite Hst in *. intros eof m. by apply normal_step_settled.
  - apply (quoted_step_settled squote); [by intros s1 Hs1 eof b r; unfold iterate; rewrite Hs1, Hst|].
    unfold iterate in Hgo. by rewrite Hst in Hgo.
  - apply (quoted_step_settled dquote); [by intros s1 Hs1 eof b r; unfold iterate; rewrite Hs1, Hst|].
    unfold iterate in Hgo. by rewrite Hst in Hgo.
  - apply (quoted_step_settled backtick); [by intros s1 Hs1 eof b r; unfold iterate; rewrite Hs1, Hst|].
    unfold iterate in Hgo. by rewrite Hst in Hgo.
  - right. unfold settled, iterate in *. rewrite Hst in *. by intros.
  - right. unfold settled, iterate in *. rewrite Hst in *. intros eof m. unfold block_comment_step in *.
    destruct rest as [|c rest]; cbn [is_empty negb andb head_is app] in *; [|by rewrite !andb_false_r in *].
    rewrite !andb_true_r in Hgo. by destruct (byte =? star)%N.
  - right. unfold settled, iterate in *. rewrite Hst in *. intros eof m. unfold binary_step in *.
    destruct rest as [|c rest]; cbn [is_empty negb andb head_is app] in *; [|by rewrite !andb_false_r in *].
    destruct (byte =? bslash)%N; [done|]. rewrite !andb_true_r in Hgo. by destruct (byte =? squote)%N.
Qed.

(** ** The rest of the file from a state *)

Definition out_prepend (out : text) (r : option text) : option text :=
  match r with Some out' => Some (out ++ out') | None => None end.

(** The output for the bytes [l] up to the end of the file. *)
Definition result (s : t) (l : text) : option text :=
  match run true s l with
  | Some (s', out, remaining) => if bool_decide (state s' = BinaryQuoted) then None else Some (out ++ remaining)
  | None => None
  end.

Lemma out_prepend_app a b r : out_prepend (a ++ b) r = out_prepend a (out_prepend b r).
Proof. destruct r; cbn; by rewrite <- ?app_assoc. Qed.

Lemma out_prepend_nil r : out_prepend [] r = r.
Proof. by destruct r. Qed.

Lemma result_cons s byte rest s' out n :
  iterate true None s byte rest = Go s' out n ->
  result s (byte :: rest) = out_prepend out (result s' (drop n (byte :: rest))).
Proof.
  intros Hit. unfold result. rewrite run_cons, Hit. destruct (run true s' _) as [[[s'' out'] r]|]; cbn; [|done].
  destruct (bool_decide _); cbn; by rewrite <- ?app_assoc.
Qed.

Lemma result_nil s : result s [] = if bool_decide (state s = BinaryQuoted) then None else Some [].
Proof. done. Qed.

(** An escape cut by the end of the input reads on as if it had not been. *)
Lemma result_cut_escape s m :
  cut_escape s bslash [] (Go (set (state s) bslash true s) [bslash] 1) ->
  result s (bslash :: m) = out_prepend [bslash] (result (set (state s) bslash true s) m).
Proof.
  intros ((quote & Hit) & Hesc & _). destruct m as [|b m].
  - erewrite result_cons
      by (rewrite (Hit s eq_refl); unfold quoted_step; cbn; rewrite andb_false_r, Hesc; cbn; reflexivity).
    change (drop 1 [bslash]) with (@nil N). by rewrite !result_nil.
  - erewrite result_cons
      by (rewrite (Hit s eq_refl); unfold quoted_step; cbn; rewrite !andb_false_r, Hesc; cbn; reflexivity).
    erewrite (result_cons (set _ _ _ _) b m)
      by (rewrite Hit by done; unfold quoted_step; cbn; rewrite !andb_false_r; cbn; reflexivity).
    change (drop 2 (bslash :: b :: m)) with m. change (drop 1 (b :: m)) with m.
    by rewrite <- out_prepend_app.
Qed.

(** Waiting for more input changes nothing: what a chunk outputs and what is
    left pending determine the rest of the file. *)
Lemma run_then_result s l s' out remaining :
  run false s l = Some (s', out, remaining) ->
  pending s' = pending s /\ forall m, result s (l ++ m) = out_prepend out (result s' (remaining ++ m)).
Proof.
  remember (length l) as n eqn:Hn. revert s l Hn s' out remaining.
  induction n as [n IH] using lt_wf_ind. intros s l -> s' out remaining Hrun.
  destruct l as [|byte rest].
  { injection Hrun as <- <- <-. split; [done|]. intros m. by rewrite out_prepend_nil. }
  rewrite run_cons in Hrun. pose proof (iterate_consumes false None s byte rest) as Hc.
  destruct (iterate false None s byte rest) as [| |s1 out1 k] eqn:Hit; [|done|].
  { injection Hrun as <- <- <-. split; [done|]. intros m. by rewrite out_prepend_nil. }
  destruct Hc as (Hk & _ & Hpend).
  destruct (run false s1 (drop k (byte :: rest))) as [[[s2 out2] r2]|] eqn:Hrun1; [|done].
  injection Hrun as <- <- <-.
  destruct (IH (length (drop k (byte :: rest))) ltac:(rewrite length_drop; cbn; lia) s1 _ eq_refl _ _ _ Hrun1)
    as [Hp2 Hres]. split; [congruence|]. intros m.
  destruct (iterate_settled _ _ _ _ _ _ Hit) as [Hcut|Hset].
  - pose proof Hcut as (_ & _ & -> & -> & [= -> -> ->]). cbn [app] in *.
    rewrite result_cut_escape by done. change (drop 1 [bslash]) with (@nil N) in *. cbn [app] in Hres.
    rewrite (Hres m). by rewrite <- out_prepend_app.
  - cbn [app]. rewrite (result_cons s byte (rest ++ m) s1 out1 k) by apply Hset.
    change (byte :: rest ++ m) with ((byte :: rest) ++ m). rewrite drop_app_le by (cbn; lia).
    rewrite Hres. by rewrite <- out_prepend_app.
Qed.

Lemma iterate_never_fails s byte rest : iterate false None s byte rest <> Fail.
Proof.
  unfold iterate, normal_step, normal_other, quoted_step, block_comment_step, binary_step. by repeat case_match.
Qed.

Lemma run_returns s l : exists s' out remaining, run false s l = Some (s', out, remaining).
Proof.
  remember (length l) as n eqn:Hn. revert s l Hn. induction n as [n IH] using lt_wf_ind. intros s l ->.
  destruct l as [|byte rest]; [by do 3 eexists|]. rewrite run_cons.
  pose proof (iterate_consumes false None s byte rest) as Hc.
  destruct (iterate false None s byte rest) as [| |s1 out1 k] eqn:Hit; [by do 3 eexists|by apply iterate_never_fails in Hit|].
  destruct (IH (length (drop k (byte :: rest))) ltac:(rewrite length_drop; cbn in *; lia) s1 _ eq_refl)
    as (s2 & out2 & r2 & ->). cbn. by do 3 eexists.
Qed.

Lemma normalize_eof s input :
  match normalize s input true with Some (_, output) => Some output | None => None end
  = result (set_pending [] s) (pending s ++ input).
Proof.
  unfold normalize, result, run. destruct (loop _ true None _ _) as [[[s' out] r]|]; [|done].
  by destruct (bool_decide _).
Qed.

Lemma normalize_chunks_result s chunks last_chunk :
  normalize_chunks s chunks last_chunk = result (set_pending [] s) (pending s ++ concat chunks ++ last_chunk).
Proof.
  revert s. induction chunks as [|chunk chunks IH]; intros s; cbn [normalize_chunks concat app];
    [by rewrite normalize_eof|].
  unfold normalize. fold (run false (set_pending [] s) (pending s ++ chunk)).
  destruct (run_returns (set_pending [] s) (pending s ++ chunk)) as (s' & out & r & Hrun).
  rewrite Hrun. apply run_then_result in Hrun as [Hp Hres]. rewrite IH. cbn [pending set_pending].
  replace (set_pending [] (set_pending r s')) with s' by (destruct s'; cbn in Hp; by rewrite Hp).
  replace (pending s ++ (chunk ++ concat chunks) ++ last_chunk)
    with ((pending s ++ chunk) ++ concat chunks ++ last_chunk) by (by rewrite <- !app_assoc).
  rewrite Hres.
  by destruct (result s' _).
Qed.

(** ** Binary literals *)

(** How the bytes of a literal may be written: as they are, with a doubled
    quote, or with a backslash escape. *)
Inductive BinaryBody : text -> text -> Prop :=
| body_nil : BinaryBody [] []
| body_byte b src value :
    b <> bslash -> b <> squote -> BinaryBody src value -> BinaryBody (b :: src) (b :: value)
| body_quote src value : BinaryBody src value -> BinaryBody (squote :: squote :: src) (squote :: value)
| body_escape e src value : BinaryBody src value -> BinaryBody (bslash :: e :: src) (unescape e :: value).

Definition hex (value : text) : text := concat (map append_hex value).

(** What the state keeps while a literal is read. *)
Lemma result_binary_body s src value rest :
  state s = BinaryQuoted -> BinaryBody src value ->
  (forall r, rest <> squote :: r) ->
  exists s', state s' = Normal /\ previous_source_byte s' = Some squote
    /\ quoted_escape_pending s' = quoted_escape_pending s
    /\ result s (src ++ squote :: rest) = out_prepend (hex value ++ [squote]) (result s' rest).
Proof.
  intros Hst Hbody Hrest. revert s Hst. induction Hbody as [|b src value Hb Hq _ IH|src value _ IH|e src value _ IH];
    intros s Hst; cbn [app].
  - exists (set Normal squote (quoted_escape_pending s) s). split_and!; [done..|].
    rewrite (result_cons s squote rest (set Normal squote (quoted_escape_pending s) s) [squote] 1); [done|].
    unfold iterate, binary_step. rewrite Hst. cbn. rewrite andb_false_r. cbn.
    destruct rest as [|c rest]; [done|]. cbn. destruct (N.eqb_spec c squote) as [->|]; [by destruct (Hrest rest)|done].
  - destruct (IH (set BinaryQuoted b (quoted_escape_pending s) s) eq_refl) as (s' & H1 & H2 & H3 & H4).
    exists s'. split_and!; [done..|]. erewrite result_cons.
    2:{ unfold iterate, binary_step. rewrite Hst. destruct (N.eqb_spec b bslash); [done|].
        destruct (N.eqb_spec b squote); [done|]. cbn. done. }
    change (drop 1 (b :: src ++ squote :: rest)) with (src ++ squote :: rest). rewrite H4.
    unfold hex. cbn [map concat]. by rewrite <- out_prepend_app, app_assoc.
  - destruct (IH (set BinaryQuoted squote (quoted_escape_pending s) s) eq_refl) as (s' & H1 & H2 & H3 & H4).
    exists s'. split_and!; [done..|]. erewrite result_cons.
    2:{ unfold iterate, binary_step. rewrite Hst. cbn. done. }
    change (drop 2 (squote :: squote :: src ++ squote :: rest)) with (src ++ squote :: rest). rewrite H4.
    unfold hex. cbn [map concat]. by rewrite <- out_prepend_app, app_assoc.
  - destruct (IH (set BinaryQuoted e (quoted_escape_pending s) s) eq_refl) as (s' & H1 & H2 & H3 & H4).
    exists s'. split_and!; [done..|]. erewrite result_cons.
    2:{ unfold iterate, binary_step. rewrite Hst. cbn. done. }
    change (drop 2 (bslash :: e :: src ++ squote :: rest)) with (src ++ squote :: rest). rewrite H4.
    unfold hex. cbn [map concat]. by rewrite <- out_prepend_app, app_assoc.
Qed.

(** The opening of a binary literal in a state that reads SQL. *)
Lemma result_binary_opening s name blanks rest :
  state s = Normal -> eq_ignore_ascii_case name %"_binary" = true -> length name = 7 ->
  is_sql_identifier_byte (previous_source_byte s) = false ->
  Forall (fun c => is_ascii_whitespace c = true) blanks ->
  result s (name ++ blanks ++ squote :: rest)
  = out_prepend [88%N; squote] (result (set BinaryQuoted squote (quoted_escape_pending s) s) rest).
Proof.
  intros Hst Hname Hlen Hprev Hblanks. destruct name as [|c name]; [done|].
  assert (c = under) as ->.
  { unfold eq_ignore_ascii_case in Hname. change (%"_binary") with (under :: %"binary") in Hname.
    cbn [map text_eqb] in Hname. change (to_ascii_lowercase under) with 95%N in Hname.
    apply andb_true_iff in Hname as [Hc%N.eqb_eq _].
    unfold to_ascii_lowercase, is_ascii_uppercase in Hc. destruct (_ && _) eqn:Hu; [|done].
    apply andb_true_iff in Hu as [?%N.leb_le ?%N.leb_le]. change under with 95%N. lia. }
  cbn [length] in Hlen. cbn [app].
  assert (take_while is_ascii_whitespace (blanks ++ squote :: rest) = blanks
          /\ drop_while is_ascii_whitespace (blanks ++ squote :: rest) = squote :: rest) as [Htw Hdw].
  { induction Hblanks as [|x blanks Hx _ [IH1 IH2]]; [done|]. cbn. by rewrite Hx, IH1, IH2. }
  assert (drop 6 (name ++ blanks ++ squote :: rest) = blanks ++ squote :: rest) as Hdrop.
  { replace 6 with (length name) by lia. apply drop_app_length. }
  rewrite (result_cons s under _ (set BinaryQuoted squote (quoted_escape_pending s) s) [88%N; squote]
             (7 + length blanks + 1)).
  - f_equal. f_equal. pose proof (binary_opening_consumed under (name ++ blanks ++ squote :: rest) rest) as Hc.
    rewrite Hdrop, Htw, Hdw in Hc. apply Hc; [|done]. cbn. rewrite !length_app. lia.
  - unfold iterate, normal_step. rewrite Hst, N.eqb_refl.
    replace (length (under :: name ++ blanks ++ squote :: rest) <? 7) with false
      by (symmetry; apply Nat.ltb_ge; cbn; rewrite !length_app; lia).
    replace (take 7 (under :: name ++ blanks ++ squote :: rest)) with (under :: name).
    2:{ replace 7 with (length (under :: name)) by (cbn; lia).
        change (under :: name ++ blanks ++ squote :: rest) with ((under :: name) ++ blanks ++ squote :: rest).
        by rewrite take_app_length. }
    unfold source_byte_before. rewrite Hname, Hprev, Hdrop, Htw, Hdw. done.
Qed.

(** ** Contract *)

(** The normaliser is insensitive to how the file is cut into chunks: its
    output, or the error for an unterminated literal, is that of the whole file
    in one piece. *)
Theorem normalize_chunk_invariant (chunks : list text) (last_chunk : text) :
  normalize_chunks default chunks last_chunk = normalize_chunks default [] (concat chunks ++ last_chunk).
Proof. by rewrite !normalize_chunks_result. Qed.

(** A binary literal keeps its bytes.  Where the normaliser reads SQL and
    the byte before is not part of an identifier, [_binary '...'] with any
    spelling of the bytes [value] becomes [X'...'] with the hexadecimal digits of
    [value], and the rest of the file is read from a state that reads SQL. *)
Theorem binary_literal_becomes_hex (s : t) (name blanks src value rest : text)
    (Hnormal : state s = Normal)
    (Hprevious : is_sql_identifier_byte (previous_source_byte s) = false)
    (Hname : eq_ignore_ascii_case name %"_binary" = true) (Hlen : length name = 7)
    (Hblanks : Forall (fun c => is_ascii_whitespace c = true) blanks)
    (Hbody : BinaryBody src value)
    (Hrest : forall r, rest <> squote :: r) :
  exists s', state s' = Normal
    /\ result s (name ++ blanks ++ squote :: src ++ squote :: rest)
       = out_prepend (%"X'" ++ hex value ++ %"'") (result s' rest).
Proof.
  rewrite result_binary_opening by done.
  destruct (result_binary_body (set BinaryQuoted squote (quoted_escape_pending s) s) src value rest)
    as (s' & Hn & _ & _ & ->); [done..|].
  exists s'. split; [done|]. by rewrite <- out_prepend_app.
Qed.

Lemma binary_literal_becomes_hex_witness :
  exists s', state s' = Normal
    /\ result default (%"_BINARY" ++ [space] ++ squote :: [172; 92; 48; 39; 39]%N ++ squote :: %"); --")
       = out_prepend (%"X'" ++ hex [172; 0; 39]%N ++ %"'") (result s' (%"); --")).
Proof.
  apply (binary_literal_becomes_hex default (%"_BINARY") [space] [172; 92; 48; 39; 39]%N [172; 0; 39]%N (%"); --")).
  - done.
  - done.
  - by vm_compute.
  - done.
  - by repeat constructor.
  - apply body_byte; [done..|]. apply (body_escape 48%N). apply body_quote. constructor.
  - by intros r.
Defined.

(** The hexadecimal digits determine the bytes. *)
Definition hex_digit_value (c : char) : N := if (c <=? 57)%N then (c - 48)%N else (c - 55)%N.

Fixpoint unhex (s : text) : text :=
  match s with
  | a :: b :: s' => (16 * hex_digit_value a + hex_digit_value b)%N :: unhex s'
  | _ => []
  end.

Lemma unhex_append_hex b s : (b < 256)%N -> unhex (append_hex b ++ s) = b :: unhex s.
Proof.
  intros Hb.
  assert (forall n, n < 256 -> unhex (append_hex (N.of_nat n)) = [N.of_nat n]) as Hall.
  { intros n Hn. do 256 (destruct n as [|n]; [by vm_compute|]). lia. }
  specialize (Hall (N.to_nat b) ltac:(lia)). rewrite N2Nat.id in Hall.
  unfold append_hex in *. cbn [unhex app] in *. congruence.
Qed.

(** Hexadecimal literals round-trip: decoding the digits written for a
    sequence of bytes gives the bytes back. *)
Theorem hex_round_trip (value : text) (Hbytes : Forall (fun b => (b < 256)%N) value) : unhex (hex value) = value.
Proof.
  induction Hbytes as [|b value Hb _ IH]; [done|]. unfold hex in *. cbn [map concat].
  by rewrite unhex_append_hex, IH.
Qed.

Lemma hex_round_trip_witness : unhex (hex [0; 10; 172; 255]%N) = [0; 10; 172; 255]%N.
Proof. apply hex_round_trip. by repeat constructor. Defined.

(** A backslash does not escape inside a backtick identifier in MySQL, and the
    statement splitter agrees; the normaliser reads an escape there, so an
    identifier that ends with a backslash hides the literal after it. *)
Lemma backslash_identifier_hides_literal :
  normalize_chunks default [] (%"SELECT `a\`, _binary 'x'") = Some (%"SELECT `a\`, _binary 'x'").
Proof. by vm_compute. Qed.
