(* ===== verification/BatchSplit.v ===== *)
(** * BatchSplit: streaming an SQL file into batches ([data/sql_file_import.rs]).

    [StreamingSqlFileSplitter] reads the decoded chunks of a file: T-SQL files are
    cut into batches at [GO] lines by [SqlServerBatchSplitter], the others into
    statements by [SqlStatementSplitter].  Both are instances of one interface,
    [StatementStream], against which the import loop is stated.  The statements
    are then planned ([plan_sql_file_statements]) for execution. *)

From S2P Require Import Prelude DbTypes Dialect Lexis TSqlFlow PlSql Splitter Scanner ImportBatch.

(** What the import loop needs of a splitter. *)
Class StatementStream (S : Type) := {
  stream_push : S -> text -> S * list SqlStatementWithControl;
  stream_finish : S -> list SqlStatementWithControl
}.

(** ** SQL Server batches *)

Inductive SqlServerLexicalState : Set :=
| LexNormal
| LexSingleQuote
| LexDoubleQuote
| LexBracketIdentifier
| LexLineComment
| LexBlockComment.

Module SqlServerBatchSplitter.

Record t : Set := mk {
  batch : text;
  partial_line : text;
  lexical_state : SqlServerLexicalState;
  flush_semicolons : bool
}.

Definition new (flush : bool) : t := mk [] [] LexNormal flush.

Definition set_batch (b : text) (s : t) : t := mk b (partial_line s) (lexical_state s) (flush_semicolons s).
Definition set_partial_line (p : text) (s : t) : t := mk (batch s) p (lexical_state s) (flush_semicolons s).
Definition set_lexical_state (l : SqlServerLexicalState) (s : t) : t := mk (batch s) (partial_line s) l (flush_semicolons s).

Definition push_batch (s : t) : t * list text :=
  let b := trim (batch s) in
  (set_lexical_state LexNormal (set_batch [] s), if is_empty b then [] else [b]).

(** [batch.push(ch)]; then the second character of a two-character token. *)
Definition push (ch : char) (s : t) : t := set_batch (batch s ++ [ch]) s.

(** The quote [close] read inside a literal it closes. *)
Definition quote_read (close : char) (rest : text) (s : t) : t * nat :=
  if head_is close rest then (push close s, 1) else (set_lexical_state LexNormal s, 0).

(** One iteration of the character loop of [push_line]: how many further
    characters of the line it consumed. *)
Definition push_char (s : t) (ch : char) (rest : text) : t * list text * nat :=
  let s := push ch s in
  match lexical_state s with
  | LexNormal =>
      if (ch =? squote)%N then (set_lexical_state LexSingleQuote s, [], 0)
      else if (ch =? dquote)%N then (set_lexical_state LexDoubleQuote s, [], 0)
      else if (ch =? lbracket)%N then (set_lexical_state LexBracketIdentifier s, [], 0)
      else if (ch =? dash)%N && head_is dash rest then (set_lexical_state LexLineComment (push dash s), [], 1)
      else if (ch =? slash)%N && head_is star rest then (set_lexical_state LexBlockComment (push star s), [], 1)
      else if (ch =? semi)%N && flush_semicolons s && negb (starts_with_sqlserver_module_ddl (batch s)) then
        let '(s, out) := push_batch s in (s, out, 0)
      else (s, [], 0)
  | LexSingleQuote =>
      if (ch =? squote)%N then let '(s, n) := quote_read squote rest s in (s, [], n) else (s, [], 0)
  | LexDoubleQuote =>
      if (ch =? dquote)%N then let '(s, n) := quote_read dquote rest s in (s, [], n) else (s, [], 0)
  | LexBracketIdentifier =>
      if (ch =? rbracket)%N then let '(s, n) := quote_read rbracket rest s in (s, [], n) else (s, [], 0)
  | LexBlockComment =>
      if (ch =? star)%N && head_is slash rest then (set_lexical_state LexNormal (push slash s), [], 1) else (s, [], 0)
  | LexLineComment => (s, [], 0)
  end.

Definition push_line (line : text) (s : t) : t * list text :=
  if match lexical_state s with LexNormal => eq_ignore_ascii_case (trim line) %"go" | _ => false end
  then push_batch s
  else
    let '(s, out) := scan_loop push_char s 0 line in
    let s := push nl s in
    (match lexical_state s with LexLineComment => set_lexical_state LexNormal s | _ => s end, out).

(** [line.trim_end_matches('\r')]. *)
Definition trim_end_cr (line : text) : text := rev (drop_while (char_eqb cr) (rev line)).

(** [while let Some(newline) = self.partial_line.find('\n')]: each iteration
    removes a newline, so the length of the partial line bounds them. *)
Fixpoint push_lines (fuel : nat) (s : t) : t * list text :=
  match fuel with
  | O => (s, [])
  | S fuel' =>
      match split_once nl (partial_line s) with
      | None => (s, [])
      | Some (line, rest) =>
          let '(s1, out1) := push_line (trim_end_cr line) (set_partial_line rest s) in
          let '(s2, out2) := push_lines fuel' s1 in
          (s2, out1 ++ out2)
      end
  end.

Definition push_chunk (s : t) (chunk : text) : t * list text :=
  let s := set_partial_line (partial_line s ++ chunk) s in
  push_lines (length (partial_line s)) s.

Definition finish (s : t) : list text :=
  let '(s, out1) :=
    if is_empty (partial_line s) then (s, [])
    else push_line (trim_end_cr (partial_line s)) (set_partial_line [] s) in
  let '(_, out2) := push_batch s in
  out1 ++ out2.

End SqlServerBatchSplitter.

Definition uncontrolled (sqls : list text) : list SqlStatementWithControl := map (fun sql => mk_stmt sql false) sqls.

#[export] Instance SqlServerBatchSplitter_stream : StatementStream SqlServerBatchSplitter.t := {|
  stream_push s chunk := let '(s', out) := SqlServerBatchSplitter.push_chunk s chunk in (s', uncontrolled out);
  stream_finish s := uncontrolled (SqlServerBatchSplitter.finish s)
|}.

Section Streams.

Context `{CharTable} `{OracleTokenizer}.

#[export] Instance SqlStatementSplitter_stream : StatementStream SqlStatementSplitter.t := {|
  stream_push := SqlStatementSplitter.push_chunk_with_control;
  stream_finish := SqlStatementSplitter.finish_with_control
|}.

Inductive StreamingSqlFileSplitter : Set :=
| Statements (splitter : SqlStatementSplitter.t)
| SqlServerBatches (splitter : SqlServerBatchSplitter.t).

Definition streaming_new (db : option DatabaseType) (o : SqlParsingOptions.t) (flush_sqlserver_semicolons : bool)
    : StreamingSqlFileSplitter :=
  match db with
  | Some SqlServer => SqlServerBatches (SqlServerBatchSplitter.new flush_sqlserver_semicolons)
  | _ => Statements (SqlStatementSplitter.with_options o)
  end.

#[export] Instance StreamingSqlFileSplitter_stream : StatementStream StreamingSqlFileSplitter := {|
  stream_push s chunk :=
    match s with
    | Statements s => let '(s', out) := stream_push s chunk in (Statements s', out)
    | SqlServerBatches s => let '(s', out) := stream_push s chunk in (SqlServerBatches s', out)
    end;
  stream_finish s :=
    match s with
    | Statements s => stream_finish s
    | SqlServerBatches s => stream_finish s
    end
|}.

End Streams.

(** ** Reading a file *)

Definition SQL_FILE_STATEMENT_BATCH_SIZE : nat := 256.
Definition SQL_FILE_STATEMENT_BATCH_MAX_BYTES : N := (8 * 1024 * 1024)%N.

Definition sql_file_statement_batch_is_full (statement_count : nat) (statement_bytes : N) : bool :=
  (SQL_FILE_STATEMENT_BATCH_SIZE <=? statement_count) || (SQL_FILE_STATEMENT_BATCH_MAX_BYTES <=? statement_bytes)%N.

Definition buffered_statement_bytes (statements : list SqlStatementWithControl) : N :=
  fold_right (fun st n => (byte_len (sql st) + n)%N) 0%N statements.

Section Reading.

Context {S : Type} `{StatementStream S}.

(** The loop of [execute_sql_file_paths_inner] over the chunks of a file: the
    statement batches it executes, in order, and the statements still pending. *)
Fixpoint read_chunks (s : S) (pending_statements : list SqlStatementWithControl) (chunks : list text)
    : S * list (list SqlStatementWithControl) * list SqlStatementWithControl :=
  match chunks with
  | [] => (s, [], pending_statements)
  | chunk :: chunks =>
      let '(s, next_statements) := stream_push s chunk in
      let pending := pending_statements ++ next_statements in
      if sql_file_statement_batch_is_full (length pending) (buffered_statement_bytes pending) then
        let '(s, batches, pending') := read_chunks s [] chunks in (s, pending :: batches, pending')
      else read_chunks s pending chunks
  end.

(** The whole file: after the last chunk the splitter is finished and what is
    pending is executed; an empty batch is not. *)
Definition read_file (s : S) (chunks : list text) : list (list SqlStatementWithControl) :=
  let '(s, batches, pending) := read_chunks s [] chunks in
  let pending := pending ++ stream_finish s in
  batches ++ (if is_empty pending then [] else [pending]).

(** The statements of the file, without batches. *)
Fixpoint stream_all (s : S) (chunks : list text) : list SqlStatementWithControl :=
  match chunks with
  | [] => stream_finish s
  | chunk :: chunks => let '(s, out) := stream_push s chunk in out ++ stream_all s chunks
  end.

End Reading.

(** ** Planning a batch *)

Definition SQLSERVER_ZIP_INSERT_BATCH_MAX_STATEMENTS : nat := 100.

Record ControlledSqlFileImportStatement : Set := mk_controlled {
  controlled_statement : SqlFileImportStatement;
  controlled_stop_on_error : bool
}.

Definition sql_file_import_max_insert_batch_statements (zip_package : bool) (db : option DatabaseType) : option nat :=
  if zip_package && match db with Some SqlServer => true | _ => false end
  then Some SQLSERVER_ZIP_INSERT_BATCH_MAX_STATEMENTS else None.

Section Plan.

Context `{CharTable}.
Variable db : option DatabaseType.
Variable driver_profile : option text.
Variable max_insert_batch_statements : option nat.

Definition optimize_sql_file_import_statements_for_batch (sqls : list text) : outcome (list SqlFileImportStatement) :=
  match max_insert_batch_statements with
  | Some max => optimize_sql_file_import_statements_with_max_insert_batch_statements sqls db driver_profile max
  | None => optimize_sql_file_import_statements sqls db driver_profile
  end.

(** The maximal run of statements with the first one's [stop_on_error], and the
    statements after it. *)
Fixpoint control_run (stop : bool) (statements : list SqlStatementWithControl)
    : list SqlStatementWithControl * list SqlStatementWithControl :=
  match statements with
  | st :: rest =>
      if eqb (stmt_stop_on_error st) stop then
        let '(run, rest') := control_run stop rest in (st :: run, rest')
      else ([], statements)
  | [] => ([], [])
  end.

Fixpoint optimize_controlled_fuel (fuel : nat) (statements : list SqlStatementWithControl)
    : outcome (list ControlledSqlFileImportStatement) :=
  match statements with
  | [] => Returns []
  | st :: rest =>
      match fuel with
      | O => OutOfFuel
      | S fuel' =>
          let '(run, rest') := control_run (stmt_stop_on_error st) rest in
          do optimized <- optimize_sql_file_import_statements_for_batch (map sql (st :: run));
          do others <- optimize_controlled_fuel fuel' rest';
          Returns (map (fun o => mk_controlled o (stmt_stop_on_error st)) optimized ++ others)
      end
  end.

Definition optimize_controlled_sql_file_import_statements (statements : list SqlStatementWithControl)
    : outcome (list ControlledSqlFileImportStatement) :=
  optimize_controlled_fuel (length statements) statements.

(** Manual mode: each statement on its own. *)
Fixpoint plan_manual (statements : list SqlStatementWithControl) : outcome (list ControlledSqlFileImportStatement) :=
  match statements with
  | [] => Returns []
  | st :: rest =>
      do optimized <- optimize_sql_file_import_statements_for_batch [sql st];
      do others <- plan_manual rest;
      Returns (map (fun o => mk_controlled o true) optimized ++ others)
  end.

Definition plan_sql_file_statements (statements : list SqlStatementWithControl) (manual : bool)
    : outcome (list ControlledSqlFileImportStatement) :=
  if negb manual then optimize_controlled_sql_file_import_statements statements else plan_manual statements.

End Plan.

Section Examples.

Import SqlServerBatchSplitter.

Example batches_1 :
  stream_all (new false) [%"SELECT 'a
GO
b'
G"; %"O
SELECT [x]]
go
y], 1"]
  = uncontrolled [%"SELECT 'a
GO
b'"; %"SELECT [x]]
go
y], 1"].
Proof. by vm_compute. Qed.

Example batches_2 :
  stream_all (new true) [%"SELECT 1; CREATE PROCEDURE p AS SELECT 1; SELECT 2;
GO
SELECT ';'; -- ;"]
  = uncontrolled [%"SELECT 1;"; %"CREATE PROCEDURE p AS SELECT 1; SELECT 2;"; %"SELECT ';';"; %"-- ;"].
Proof. by vm_compute. Qed.

End Examples.
