(* ===== verification/BatchSplitFacts.v ===== *)
(** * BatchSplitFacts: streaming, batching and planning keep the statements.

    The T-SQL batch splitter gives the same batches for every chunking of a file;
    the import loop executes the statements of any splitter in order, each batch
    as soon as it is full; the plan of a batch keeps every source statement, its
    order and its error handling. *)

From S2P Require Import Prelude DbTypes Dialect Lexis PlSql Splitter Scanner ImportBatch ImportFacts BatchSplit.

(** ** Complete lines of a text *)

(** The lines ended by a newline and the text after the last one. *)
Fixpoint complete_lines (s : text) : list text * text :=
  match s with
  | [] => ([], [])
  | c :: s' =>
      let '(lines, rest) := complete_lines s' in
      if (c =? nl)%N then ([] :: lines, rest)
      else match lines with
           | line :: lines => ((c :: line) :: lines, rest)
           | [] => ([], c :: rest)
           end
  end.

Lemma split_once_None c s : split_once c s = None -> Forall (fun x => x <> c) s.
Proof.
  induction s as [|x s IH]; cbn; [constructor|]. destruct (N.eqb_spec x c); [done|].
  destruct (split_once c s) as [[a b]|]; [done|]. constructor; auto.
Qed.

Lemma split_once_Some c s a b : split_once c s = Some (a, b) -> s = a ++ c :: b /\ Forall (fun x => x <> c) a.
Proof.
  revert a b. induction s as [|x s IH]; cbn; [done|]. intros a b.
  destruct (N.eqb_spec x c) as [->|Hx]; [intros [= <- <-]; by repeat constructor|].
  destruct (split_once c s) as [[a' b']|]; [|done]. intros [= <- <-].
  destruct (IH a' b' eq_refl) as [-> Ha]. split; [done|by constructor].
Qed.

Lemma complete_lines_tail s : Forall (fun c => c <> nl) s -> complete_lines s = ([], s).
Proof.
  induction 1 as [|c s Hc _ IH]; cbn; [done|]. rewrite IH. by destruct (N.eqb_spec c nl).
Qed.

Lemma complete_lines_line a b :
  Forall (fun c => c <> nl) a ->
  complete_lines (a ++ nl :: b) = (a :: fst (complete_lines b), snd (complete_lines b)).
Proof.
  induction 1 as [|c a Hc _ IH]; cbn; [by destruct (complete_lines b)|]. rewrite IH. by destruct (N.eqb_spec c nl).
Qed.

Lemma complete_lines_app s m :
  complete_lines (s ++ m)
  = (fst (complete_lines s) ++ fst (complete_lines (snd (complete_lines s) ++ m)),
     snd (complete_lines (snd (complete_lines s) ++ m))).
Proof.
  remember (length s) as n eqn:Hn. revert s Hn. induction n as [n IH] using lt_wf_ind. intros s ->.
  destruct (split_once nl s) as [[a b]|] eqn:Hs.
  - apply split_once_Some in Hs as [-> Ha]. rewrite <- app_assoc. cbn [app].
    rewrite !complete_lines_line by done. cbn [fst snd].
    rewrite (IH (length b)) by (rewrite ?length_app; cbn; lia || done). done.
  - apply split_once_None in Hs. rewrite (complete_lines_tail s) by done. cbn.
    by destruct (complete_lines (s ++ m)).
Qed.

(** ** The T-SQL batch splitter *)

Import SqlServerBatchSplitter.

(** Pushing lines one after the other; the partial line is not involved. *)
Fixpoint feed (s : t) (lines : list text) : t * list text :=
  match lines with
  | [] => (s, [])
  | line :: lines =>
      let '(s1, out1) := push_line (trim_end_cr line) s in
      let '(s2, out2) := feed s1 lines in
      (s2, out1 ++ out2)
  end.

Lemma feed_app s a b :
  feed s (a ++ b) = let '(s1, out1) := feed s a in let '(s2, out2) := feed s1 b in (s2, out1 ++ out2).
Proof.
  revert s. induction a as [|line a IH]; intros s; cbn; [by destruct (feed s b)|].
  destruct (push_line (trim_end_cr line) s) as [s1 out1]. rewrite IH.
  destruct (feed s1 a) as [s2 out2]. destruct (feed s2 b) as [s3 out3]. by rewrite app_assoc.
Qed.

(** Pushing a line does not read the partial line. *)
Lemma push_char_partial p s ch rest :
  push_char (set_partial_line p s) ch rest
  = let '(s', out, n) := push_char s ch rest in (set_partial_line p s', out, n).
Proof.
  destruct s as [b pl lex f]. unfold push_char, push_batch, quote_read. cbn.
  destruct lex; repeat case_match; by simplify_eq.
Qed.

Lemma scan_partial p l s skip :
  scan_loop push_char (set_partial_line p s) skip l
  = let '(s', out) := scan_loop push_char s skip l in (set_partial_line p s', out).
Proof.
  revert s skip. induction l as [|c l IH]; intros s skip; [done|]. cbn [scan_loop]. destruct skip as [|k]; [|apply IH].
  rewrite push_char_partial. destruct (push_char s c l) as [[s1 out1] n]. rewrite IH.
  by destruct (scan_loop push_char s1 n l).
Qed.

Lemma push_line_partial p line s :
  push_line line (set_partial_line p s) = let '(s', out) := push_line line s in (set_partial_line p s', out).
Proof.
  unfold push_line. change (lexical_state (set_partial_line p s)) with (lexical_state s).
  destruct (match lexical_state s with LexNormal => _ | _ => _ end); [done|].
  rewrite scan_partial. destruct (scan_loop push_char s 0 line) as [s1 out].
  change (lexical_state (push nl (set_partial_line p s1))) with (lexical_state (push nl s1)).
  by destruct (lexical_state (push nl s1)).
Qed.

Lemma feed_partial p lines s :
  feed (set_partial_line p s) lines = let '(s', out) := feed s lines in (set_partial_line p s', out).
Proof.
  revert s. induction lines as [|l lines IH]; intros s; [done|]. cbn [feed]. rewrite push_line_partial.
  destruct (push_line (trim_end_cr l) s) as [s1 o1]. rewrite IH. by destruct (feed s1 lines).
Qed.

Lemma push_lines_feed fuel s :
  length (partial_line s) <= fuel ->
  push_lines fuel s
  = let '(lines, rest) := complete_lines (partial_line s) in
    let '(s', out) := feed s lines in (set_partial_line rest s', out).
Proof.
  revert s. induction fuel as [|fuel IH]; intros s Hle.
  - destruct (partial_line s) eqn:Hp; [|cbn in Hle; lia]. cbn. rewrite <- Hp. by destruct s.
  - cbn [push_lines]. destruct (split_once nl (partial_line s)) as [[line rest]|] eqn:Hs.
    + apply split_once_Some in Hs as [Hp Hl]. rewrite Hp, complete_lines_line by done. cbn [feed].
      rewrite push_line_partial. destruct (push_line (trim_end_cr line) s) as [s1 out1].
      rewrite IH by (cbn; rewrite Hp, length_app in Hle; cbn in Hle; lia). cbn [partial_line set_partial_line].
      destruct (complete_lines rest) as [lines rest']. cbn [fst snd].
      rewrite feed_partial. by destruct (feed s1 lines).
    + apply split_once_None in Hs. rewrite complete_lines_tail by done. cbn. by destruct s.
Qed.

Lemma push_chunk_feed s chunk :
  push_chunk s chunk
  = let '(lines, rest) := complete_lines (partial_line s ++ chunk) in
    let '(s', out) := feed s lines in (set_partial_line rest s', out).
Proof.
  unfold push_chunk. rewrite push_lines_feed by done. cbn [partial_line set_partial_line].
  destruct (complete_lines (partial_line s ++ chunk)) as [lines rest].
  rewrite feed_partial. by destruct (feed s lines).
Qed.

(** Two chunks are one chunk. *)
Lemma batch_chunk_app s a b :
  push_chunk s (a ++ b)
  = let '(s1, out1) := push_chunk s a in let '(s2, out2) := push_chunk s1 b in (s2, out1 ++ out2).
Proof.
  rewrite !push_chunk_feed, app_assoc, complete_lines_app.
  destruct (complete_lines (partial_line s ++ a)) as [lines1 rest1]. cbn [fst snd]. rewrite feed_app.
  destruct (feed s lines1) as [s1 out1]. rewrite push_chunk_feed. cbn [partial_line set_partial_line].
  destruct (complete_lines (rest1 ++ b)) as [lines2 rest2]. cbn [fst snd]. rewrite feed_partial.
  by destruct (feed s1 lines2).
Qed.

Lemma push_chunk_nil s : partial_line s = [] -> push_chunk s [] = (s, []).
Proof. intros Hp. rewrite push_chunk_feed, Hp. cbn. rewrite <- Hp. by destruct s. Qed.

Lemma uncontrolled_app a b : uncontrolled (a ++ b) = uncontrolled a ++ uncontrolled b.
Proof. apply map_app. Qed.

Lemma stream_all_concat s chunks chunk :
  stream_all s (chunk :: chunks) = stream_all s [chunk ++ concat chunks].
Proof.
  revert s chunk. induction chunks as [|c chunks IH]; intros s chunk; [cbn [concat]; by rewrite app_nil_r|].
  cbn [stream_all stream_push SqlServerBatchSplitter_stream concat] in *.
  rewrite batch_chunk_app. destruct (push_chunk s chunk) as [s1 out1].
  specialize (IH s1 c). destruct (push_chunk s1 c) as [s2 out2] eqn:H2.
  rewrite IH, batch_chunk_app, H2. destruct (push_chunk s2 (concat chunks)) as [s3 out3].
  by rewrite !uncontrolled_app, !app_assoc.
Qed.

(** ** The import loop, for any splitter *)

Section Reading.

Context {S : Type} `{StatementStream S}.

(** The statements that made a batch full are those of its last chunk. *)
Definition full_batch (b : list SqlStatementWithControl) : Prop :=
  sql_file_statement_batch_is_full (length b) (buffered_statement_bytes b) = true
  /\ exists held last_chunk, b = held ++ last_chunk
     /\ sql_file_statement_batch_is_full (length held) (buffered_statement_bytes held) = false.

Lemma read_chunks_spec chunks s pending s' batches pending' :
  sql_file_statement_batch_is_full (length pending) (buffered_statement_bytes pending) = false ->
  read_chunks s pending chunks = (s', batches, pending') ->
  pending ++ stream_all s chunks = concat batches ++ pending' ++ stream_finish s'
  /\ Forall full_batch batches.
Proof.
  revert s pending s' batches pending'.
  induction chunks as [|chunk chunks IH]; intros s pending s' batches pending' Hfull Hr; cbn [read_chunks stream_all] in *.
  { by simplify_eq. }
  destruct (stream_push s chunk) as [s1 out1].
  destruct (sql_file_statement_batch_is_full (length (pending ++ out1)) _) eqn:Hf.
  - destruct (read_chunks s1 [] chunks) as [[s2 b2] p2] eqn:Hr2. injection Hr as <- <- <-.
    destruct (IH s1 [] _ _ _ eq_refl Hr2) as [Heq Hb]. split.
    + cbn [concat]. rewrite <- app_assoc, <- Heq. cbn [app]. by rewrite app_assoc.
    + constructor; [|done]. split; [done|]. by exists pending, out1.
  - destruct (IH _ _ _ _ _ Hf Hr) as [Heq Hb]. split; [|done]. by rewrite app_assoc.
Qed.

End Reading.

(** ** Planning *)

Section Plan.

Context `{CharTable}.
Variable db : option DatabaseType.
Variable driver_profile : option text.
Variable max_insert_batch_statements : option nat.

(** The text recorded for a statement of the file. *)
Definition recorded_source (statement : text) : text :=
  match action_of db driver_profile statement with
  | Returns action => source_sql db driver_profile (statement, action)
  | Panics | OutOfFuel => statement
  end.

Lemma recorded_sources statements actions :
  Forall2 (fun st action => action_of db driver_profile st = Returns action) statements actions ->
  map (source_sql db driver_profile) (zip statements actions) = map recorded_source statements.
Proof.
  induction 1 as [|st action statements actions Ha _ IH]; [done|]. cbn. rewrite IH. f_equal.
  unfold recorded_source. by rewrite Ha.
Qed.

Lemma optimize_for_batch_sources sqls :
  exists out,
    optimize_sql_file_import_statements_for_batch db driver_profile max_insert_batch_statements sqls = Returns out
    /\ concat (map import_source_sqls out) = map recorded_source sqls
    /\ Forall (fun st => import_source_statement_count st = length (import_source_sqls st)
                         /\ 1 <= import_source_statement_count st) out.
Proof.
  unfold optimize_sql_file_import_statements_for_batch, optimize_sql_file_import_statements,
    optimize_sql_file_import_statements_with_max_insert_batch_statements.
  set (limit := from_option id SQL_FILE_INSERT_BATCH_MAX_STATEMENTS max_insert_batch_statements).
  destruct (optimize_groups db driver_profile limit sqls [] None) as (actions & out & Heq & Hf & Hg); [done|].
  exists out. split; [by destruct max_insert_batch_statements|].
  destruct (groups_conserve _ _ _ _ _ Hg) as [Hsrc Hcount]. split.
  - rewrite Hsrc. by apply recorded_sources.
  - apply groups_within_limits in Hg. rewrite Forall_forall in *. intros st Hst. split; [auto|].
    destruct (Hg st Hst) as [? _]. lia.
Qed.

Lemma control_run_split stop statements run rest :
  control_run stop statements = (run, rest) ->
  statements = run ++ rest /\ Forall (fun st => stmt_stop_on_error st = stop) run.
Proof.
  revert run rest. induction statements as [|st statements IH]; intros run rest; cbn; [by intros [= <- <-]|].
  destruct (eqb (stmt_stop_on_error st) stop) eqn:Hs; [|by intros [= <- <-]].
  destruct (control_run stop statements) as [run' rest']. intros [= <- <-].
  destruct (IH _ _ eq_refl) as [-> Hr]. split; [done|]. constructor; [by apply eqb_prop|done].
Qed.

(** The source statements a planned statement stands for, each with the error
    handling it is executed under. *)
Definition planned_sources (c : ControlledSqlFileImportStatement) : list (text * bool) :=
  map (fun source => (source, controlled_stop_on_error c)) (import_source_sqls (controlled_statement c)).

Lemma planned_sources_of stop optimized :
  concat (map planned_sources (map (fun o => mk_controlled o stop) optimized))
  = map (fun source => (source, stop)) (concat (map import_source_sqls optimized)).
Proof. induction optimized as [|o optimized IH]; cbn; [done|]. by rewrite IH, map_app. Qed.

Definition source_with_control (st : SqlStatementWithControl) : text * bool :=
  (recorded_source (sql st), stmt_stop_on_error st).

Lemma controlled_sources fuel statements :
  length statements <= fuel ->
  exists out, optimize_controlled_fuel db driver_profile max_insert_batch_statements fuel statements = Returns out
    /\ concat (map planned_sources out) = map source_with_control statements.
Proof.
  revert statements. induction fuel as [|fuel IH]; intros [|st rest] Hle; cbn in Hle; try lia; [by exists []..|].
  cbn [optimize_controlled_fuel]. destruct (control_run (stmt_stop_on_error st) rest) as [run rest'] eqn:Hc.
  apply control_run_split in Hc as [-> Hrun].
  destruct (optimize_for_batch_sources (map sql (st :: run))) as (optimized & -> & Hsrc & _). cbn [outcome_bind].
  destruct (IH rest') as (others & -> & Ho); [rewrite length_app in Hle; lia|]. cbn [outcome_bind].
  eexists. split; [done|]. rewrite map_app, concat_app, planned_sources_of, Hsrc, Ho.
  rewrite app_comm_cons, map_app. f_equal. cbn. f_equal. rewrite !map_map.
  apply map_ext_Forall. eapply Forall_impl; [exact Hrun|]. intros x Hx. unfold source_with_control. by rewrite Hx.
Qed.

Lemma manual_sources statements :
  exists out, plan_manual db driver_profile max_insert_batch_statements statements = Returns out
    /\ concat (map planned_sources out) = map (fun st => (recorded_source (sql st), true)) statements
    /\ length out = length statements.
Proof.
  induction statements as [|st statements (others & Heq & Ho & Hlen)]; [by exists []|].
  cbn [plan_manual].
  destruct (optimize_for_batch_sources [sql st]) as (optimized & -> & Hsrc & Hcount). cbn [outcome_bind].
  rewrite Heq. cbn [outcome_bind]. eexists. split; [done|]. split.
  - rewrite map_app, concat_app, planned_sources_of, Hsrc, Ho. done.
  - rewrite length_app, length_map, Hlen. cbn. f_equal.
    destruct optimized as [|o1 optimized]; [done|]. cbn in Hsrc.
    apply Forall_cons in Hcount as [[Hc1 Hp1] Hcount]. apply (f_equal length) in Hsrc.
    rewrite length_app in Hsrc. cbn in Hsrc.
    destruct optimized as [|o2 optimized]; [done|]. cbn in Hsrc. rewrite length_app in Hsrc.
    apply Forall_cons in Hcount as [[Hc2 Hp2] _]. lia.
Qed.

End Plan.

(** ** Contract *)

(** The T-SQL batches of a file do not depend on how the file is read: for
    every list of chunks, cut anywhere, the batches are those of the whole text. *)
Theorem sqlserver_batches_chunk_invariant (flush : bool) (chunks : list text) :
  stream_all (new flush) chunks = stream_all (new flush) [concat chunks].
Proof.
  destruct chunks as [|chunk chunks]; [|apply stream_all_concat].
  cbn [stream_all stream_push SqlServerBatchSplitter_stream concat]. by rewrite push_chunk_nil.
Qed.

(** C7: the import loop executes what the splitter produces.  For any splitter
    behind the [StatementStream] interface the executed batches, concatenated,
    are the statements of the file in order; no batch is empty; every batch but
    the last is full, and was not full before the last chunk read. *)
Theorem import_loop_executes_in_order {S : Type} `{StatementStream S} (s : S) (chunks : list text) :
  let batches := read_file s chunks in
  concat batches = stream_all s chunks
  /\ Forall (fun b => b <> []) batches
  /\ exists full final, batches = full ++ final /\ Forall full_batch full /\ length final <= 1.
Proof.
  unfold read_file. destruct (read_chunks s [] chunks) as [[s' batches] pending] eqn:Hr.
  apply read_chunks_spec in Hr as [Heq Hb]; [|done]. cbn [app] in Heq. cbv zeta.
  split_and!.
  - rewrite concat_app, Heq. f_equal. destruct (pending ++ stream_finish s'); cbn; [done|by rewrite app_nil_r].
  - apply Forall_app. split.
    + eapply Forall_impl; [exact Hb|]. by intros b [Hf _] ->.
    + destruct (pending ++ stream_finish s'); by repeat constructor.
  - eexists batches, _. split_and!; [done..|]. destruct (pending ++ stream_finish s'); cbn; lia.
Qed.

(** Planning a batch keeps every statement and its error handling: planning
    returns, the planned statements stand for the statements of the batch in
    order, each under its own [stop_on_error] (always set in manual mode), and in
    manual mode nothing is merged. *)
Theorem plan_keeps_statements `{CharTable} (db : option DatabaseType) (driver_profile : option text)
    (max_insert_batch_statements : option nat) (statements : list SqlStatementWithControl) (manual : bool) :
  exists out,
    plan_sql_file_statements db driver_profile max_insert_batch_statements statements manual = Returns out
    /\ concat (map planned_sources out)
       = map (fun st => (recorded_source db driver_profile (sql st), manual || stmt_stop_on_error st)) statements
    /\ (manual = true -> length out = length statements).
Proof.
  unfold plan_sql_file_statements. destruct manual; cbn [negb].
  - destruct (manual_sources db driver_profile max_insert_batch_statements statements) as (out & -> & Hs & Hl).
    exists out. by split_and!.
  - destruct (controlled_sources db driver_profile max_insert_batch_statements (length statements) statements)
      as (out & Heq & Hs); [done|].
    exists out. by split_and!.
Qed.

(** Block comments nest in T-SQL, and the SQL Server profile of the statement
    splitter says so; the batch splitter ends the comment at the inner [*/], so a
    [GO] line in the outer comment cuts it and hands its text to the server. *)
Lemma nested_comment_cut_at_go :
  stream_all (new false) [%"/* a /* b */
GO
DROP TABLE t
*/ SELECT 1"]
  = uncontrolled [%"/* a /* b */"; %"DROP TABLE t
*/ SELECT 1"].
Proof. by vm_compute. Qed.
