(* ===== verification/SplitterFacts.v ===== *)
(** * SplitterFacts: what the statement splitter emits and what it drops.

    [Inert] is a grammar of blanks and comments; on texts with plain comments the
    lexer's test for executable SQL agrees with it ([not_executable_inert]).
    [Reads] says that a text is a sequence of statements, inert text, terminators
    and command lines.  [Emits b out a] is the local form: turning the buffered
    text [b] into the buffer [a] emitted [out]; [Advances] is its form for whole
    steps, which may change the delimiter in force. *)

From S2P Require Import Prelude DbTypes Dialect Lexis MysqlRoutine TSqlFlow PlSql Splitter.
Import SqlDialectProfile SqlStatementSplitter.

(** ** Comments by their spelling

    A grammar of the texts that hold no SQL, written from the comment syntax
    alone: nothing below asks the lexer. *)

Section Inert.

Context (p : SqlDialectProfile.t).

Definition free_of (c : char) (s : text) : Prop := Forall (fun x => x <> c) s.

(** [Closes depth s rest]: inside [depth] open block comments, the outermost is
    closed in [s] right before [rest], or ([None]) nowhere.  Comments nest where
    the dialect nests them. *)
Inductive Closes : nat -> text -> option text -> Prop :=
| closes_end depth : Closes (S depth) [] None
| closes_outer rest : Closes 1 (star :: slash :: rest) (Some rest)
| closes_inner depth s r : Closes (S depth) s r -> Closes (S (S depth)) (star :: slash :: s) r
| closes_nested depth s r :
    supports_nested_block_comments p = true -> Closes (S (S depth)) s r -> Closes (S depth) (slash :: star :: s) r
| closes_char depth c s r :
    starts_with [star; slash] (c :: s) = false ->
    supports_nested_block_comments p && starts_with [slash; star] (c :: s) = false ->
    Closes (S depth) s r -> Closes (S depth) (c :: s) r.

(** Blanks; [--] comments and, where the dialect has them, [#] comments, up to the
    end of the line; block comments, closed or not, unless they are executable
    ([/*!], [/*M!]). *)
Inductive Inert : text -> Prop :=
| inert_nil : Inert []
| inert_blank c s : is_whitespace c = true -> Inert s -> Inert (c :: s)
| inert_line opener body rest :
    opener = [dash; dash] \/ (supports_hash_line_comments p = true /\ opener = [hash]) ->
    free_of nl body -> rest = [] \/ (exists r, rest = nl :: r) -> Inert rest -> Inert (opener ++ body ++ rest)
| inert_block s r :
    starts_with [bang] s = false -> starts_with [77%N; bang] s = false -> Closes 1 s r ->
    (forall rest, r = Some rest -> Inert rest) -> Inert (slash :: star :: s).

(** The spellings where the lexer departs from the comment syntax: it takes the
    opener [/*/] for a complete comment, and a nested [*/*] for an end and a new
    beginning. *)
Definition plain_comments (s : text) : bool :=
  negb (contains [slash; star; slash] s) && negb (supports_nested_block_comments p && contains [star; slash; star] s).

Lemma plain_cons c s : plain_comments (c :: s) = true -> plain_comments s = true.
Proof.
  unfold plain_comments. cbn [contains]. rewrite !andb_true_iff, !negb_true_iff. intros [[_ H1]%orb_false_iff H2].
  split; [done|]. destruct (supports_nested_block_comments p); [|done]. by apply orb_false_iff in H2 as [_ H2].
Qed.

Lemma plain_suffix a s : plain_comments (a ++ s) = true -> plain_comments s = true.
Proof. induction a as [|c a IH]; [done|]. intros Hp. by apply IH, (plain_cons c). Qed.

Lemma contains_prefix needle a s : contains needle a = true -> contains needle (a ++ s) = true.
Proof.
  induction a as [|c a IH]; cbn [contains app].
  - rewrite orb_false_r. destruct needle; [|done]. intros _. destruct s; done.
  - intros [Hs|Hs]%orb_true_iff; apply orb_true_iff; [left|right; auto].
    apply starts_with_app in Hs as [r Hr]. apply starts_with_app. exists (r ++ s). by rewrite app_assoc, <- Hr.
Qed.

Lemma plain_substring s t : substring_of s t -> plain_comments t = true -> plain_comments s = true.
Proof.
  intros (a & b & ->) Hp. apply plain_suffix in Hp. unfold plain_comments in *. rewrite !andb_true_iff, !negb_true_iff in *.
  destruct Hp as [H1 H2]. split.
  - destruct (contains _ s) eqn:E; [|done]. by rewrite (contains_prefix _ _ b) in H1.
  - destruct (supports_nested_block_comments p); [|done]. cbn [andb] in *. destruct (contains [star; _; _] s) eqn:E; [|done].
    by rewrite (contains_prefix _ _ b) in H2.
Qed.

(** *** Inversions *)

Lemma inert_blank_iff c s : is_whitespace c = true -> Inert (c :: s) <-> Inert s.
Proof.
  intros Hc. split; [|by apply inert_blank]. inversion 1 as [|? ? ? Hs|opener body rest Ho Hb Hr Hi Heq|]; [done| |].
  - exfalso. destruct Ho as [->|[_ ->]]; injection Heq as <- _; by vm_compute in Hc.
  - subst c. by vm_compute in Hc.
Qed.

(** Inside a line comment: what follows the line is inert. *)
Definition InLine (s : text) : Prop :=
  exists body rest, s = body ++ rest /\ free_of nl body /\ (rest = [] \/ exists r, rest = nl :: r) /\ Inert rest.

Lemma in_line_nl s : InLine (nl :: s) <-> Inert s.
Proof.
  split.
  - intros ([|c body] & rest & Heq & Hb & Hr & Hi); cbn in Heq; [|injection Heq as <- _; by apply Forall_cons in Hb as [[] _]].
    destruct Hr as [->|[r ->]]; [done|]. injection Heq as ->. by apply inert_blank_iff in Hi.
  - intros Hi. exists [], (nl :: s). split_and!; [done|constructor|eauto|by apply inert_blank].
Qed.

Lemma in_line_cons c s : c <> nl -> InLine (c :: s) <-> InLine s.
Proof.
  intros Hc. split.
  - intros ([|x body] & rest & Heq & Hb & Hr & Hi); cbn in Heq.
    + destruct Hr as [->|[r ->]]; [done|]. by injection Heq as ->.
    + injection Heq as <- ->. apply Forall_cons in Hb as [_ Hb]. by exists body, rest.
  - intros (body & rest & -> & Hb & Hr & Hi). exists (c :: body), rest. split_and!; [done|by constructor|done..].
Qed.

Lemma in_line_nil : InLine [].
Proof. exists [], []. split_and!; [done|constructor|by left|constructor]. Qed.

Lemma inert_line_inv c s : is_whitespace c = false -> c <> slash -> Inert (c :: s) ->
  (c = dash /\ exists s', s = dash :: s' /\ InLine s') \/ (supports_hash_line_comments p = true /\ c = hash /\ InLine s).
Proof.
  intros Hc Hs. inversion 1 as [|? ? Hw|opener body rest Ho Hb Hr Hi Heq|]; [congruence| |congruence].
  destruct Ho as [->|[Hh ->]]; injection Heq as <- <-; [left|right]; split; [done| |done|split; [done|]].
  - exists (body ++ rest). split; [done|]. by exists body, rest.
  - by exists body, rest.
Qed.

(** Inside [depth] block comments: what follows them is inert. *)
Definition InBlock (depth : nat) (s : text) : Prop := exists r, Closes depth s r /\ forall rest, r = Some rest -> Inert rest.

Lemma in_block_outer s : InBlock 1 (star :: slash :: s) <-> Inert s.
Proof.
  split.
  - intros (r & Hc & Hr). inversion Hc as [| | | |d c s' r' Hn]; subst; [by apply Hr|by vm_compute in Hn].
  - intros Hi. exists (Some s). split; [constructor|]. by intros ? [= <-].
Qed.

Lemma in_block_inner depth s : InBlock (S (S depth)) (star :: slash :: s) <-> InBlock (S depth) s.
Proof.
  split.
  - intros (r & Hc & Hr). inversion Hc as [| | | |d c s' r' Hn]; subst; [by exists r|by vm_compute in Hn].
  - intros (r & Hc & Hr). exists r. split; [by constructor|done].
Qed.

Lemma in_block_nested depth s :
  supports_nested_block_comments p = true -> InBlock (S depth) (slash :: star :: s) <-> InBlock (S (S depth)) s.
Proof.
  intros Hp. split.
  - intros (r & Hc & Hr). inversion Hc as [| | | |d c s' r' _ Hn]; subst; [by exists r|by rewrite Hp in Hn; vm_compute in Hn].
  - intros (r & Hc & Hr). exists r. split; [by constructor|done].
Qed.

Lemma in_block_char depth c s :
  starts_with [star; slash] (c :: s) = false -> supports_nested_block_comments p && starts_with [slash; star] (c :: s) = false ->
  InBlock (S depth) (c :: s) <-> InBlock (S depth) s.
Proof.
  intros H1 H2. split.
  - intros (r & Hc & Hr). inversion Hc; subst; [by vm_compute in H1..| |by exists r].
    exfalso. revert H2. by match goal with E : supports_nested_block_comments p = true |- _ => rewrite E end.
  - intros (r & Hc & Hr). exists r. split; [by constructor|done].
Qed.

Lemma in_block_end depth : InBlock (S depth) [].
Proof. exists None. split; [constructor|done]. Qed.

Lemma inert_block_iff s :
  is_mysql_executable_comment_start (slash :: star :: s) = false -> Inert (slash :: star :: s) <-> InBlock 1 s.
Proof.
  intros Hx. split.
  - inversion 1 as [|? ? Hw|opener ? ? Ho ? ? ? Heq|? r]; [by vm_compute in Hw| |by exists r].
    exfalso. by destruct Ho as [->|[_ ->]].
  - intros (r & Hc & Hr). apply orb_false_iff in Hx as [H1 H2]. by apply (inert_block s r).
Qed.

Lemma inert_executable s : is_mysql_executable_comment_start (slash :: star :: s) = true -> ~ Inert (slash :: star :: s).
Proof.
  intros Hx. inversion 1 as [|? ? Hw|opener ? ? Ho ? ? ? Heq|? r H1 H2]; [by vm_compute in Hw| |].
  - by destruct Ho as [->|[_ ->]].
  - subst. apply orb_true_iff in Hx as [Hx|Hx]; [change (starts_with [bang] s = true) in Hx|change (starts_with [77%N; bang] s = true) in Hx]; congruence.
Qed.

Lemma inert_other c s :
  is_whitespace c = false -> (c =? dash)%N && head_is dash s = false -> supports_hash_line_comments p && (c =? hash)%N = false ->
  (c =? slash)%N && head_is star s = false -> ~ Inert (c :: s).
Proof.
  intros Hw Hd Hh Hs. inversion 1 as [|? ? Hw'|opener ? ? Ho ? ? ? Heq|]; subst; [congruence| |done].
  destruct Ho as [->|[Hp ->]]; injection Heq as <- <-; [done|]. by rewrite Hp in Hh.
Qed.

(** *** The lexer agrees on plain comments *)

(** What the lexer has read, [previous], forms no comment mark with what follows. *)
Definition settled (previous : option char) (s : text) : Prop :=
  opt_is star previous && head_is slash s = false
  /\ supports_nested_block_comments p && opt_is slash previous && head_is star s = false.

Lemma plain_after_opener s : plain_comments (slash :: star :: s) = true -> settled (Some star) s.
Proof.
  intros [H1%negb_true_iff _]%andb_true_iff. split; [|by rewrite andb_false_r].
  destruct s as [|c s]; [done|]. cbn. destruct (c =? slash)%N eqn:E; [|done]. apply N.eqb_eq in E as ->. by vm_compute in H1.
Qed.

Lemma plain_after_close s : plain_comments (star :: slash :: s) = true -> settled (Some slash) s.
Proof.
  intros [_ H2%negb_true_iff]%andb_true_iff. split; [done|]. destruct (supports_nested_block_comments p); [|done].
  destruct s as [|c s]; [done|]. cbn. destruct (c =? star)%N eqn:E; [|done]. apply N.eqb_eq in E as ->. by vm_compute in H2.
Qed.

Lemma settled_none s : settled None s.
Proof. split; [done|]. by rewrite andb_false_r. Qed.

End Inert.

Section LexerInert.

Context (o : SqlParsingOptions.t).

Abbreviation p := (SqlParsingOptions.profile o) (only parsing).

(** The three modes of the lexer against the grammar, for texts up to a length. *)
Definition agrees (n : nat) : Prop := forall l, length l <= n -> plain_comments p l = true ->
  (forall prev, has_executable_sql_from o false 0 prev l = false <-> Inert p l)
  /\ (forall prev, has_executable_sql_from o true 0 prev l = false <-> InLine p l)
  /\ (forall depth prev, settled p prev l -> has_executable_sql_from o false (S depth) prev l = false <-> InBlock p (S depth) l).

Lemma agrees_block n c l depth prev :
  agrees n -> length (c :: l) <= S n -> plain_comments p (c :: l) = true -> settled p prev (c :: l) ->
  has_executable_sql_from o false (S depth) prev (c :: l) = false <-> InBlock p (S depth) (c :: l).
Proof.
  intros IH Hlen Hplain [H1 H2]. cbn [length] in Hlen. pose proof (plain_cons _ _ _ Hplain) as Hl.
  assert (has_executable_sql_from o false (S depth) prev (c :: l) = has_executable_sql_from o false (S depth) (Some c) l) as ->.
  { cbn [head_is] in H1, H2. cbn [has_executable_sql_from]. by rewrite H1, H2. }
  destruct (starts_with [star; slash] (c :: l)) eqn:Hclose.
  - apply starts_with_app in Hclose as [l' [= -> ->]]. cbn [length] in Hlen.
    pose proof (plain_after_close _ _ Hplain) as Hset. apply plain_cons in Hl.
    destruct (IH l' ltac:(lia) Hl) as (I0 & _ & I2). 
    assert (has_executable_sql_from o false (S depth) (Some star) (slash :: l') = has_executable_sql_from o false depth (Some slash) l') as ->
      by (cbn; by destruct (supports_nested_block_comments p)).
    destruct depth as [|depth]; [rewrite in_block_outer; apply I0|rewrite in_block_inner; by apply I2].
  - destruct (supports_nested_block_comments p && starts_with [slash; star] (c :: l)) eqn:Hopen.
    + apply andb_true_iff in Hopen as [Hp [l' [= -> ->]]%starts_with_app]. cbn [length] in Hlen. apply plain_cons in Hl.
      destruct (IH l' ltac:(lia) Hl) as (_ & _ & I2). 
      assert (has_executable_sql_from o false (S depth) (Some slash) (star :: l') = has_executable_sql_from o false (S (S depth)) None l') as ->
        by (cbn; by rewrite Hp).
      rewrite in_block_nested by done. apply I2, settled_none.
    + rewrite in_block_char by done. destruct (IH l ltac:(lia) Hl) as (_ & _ & I2). apply I2. split.
      * destruct l as [|d l]; [by rewrite andb_false_r|]. cbn in *. destruct (c =? star)%N eqn:E1; [|done]. destruct (d =? slash)%N eqn:E2; [|done].
        apply N.eqb_eq in E1 as ->. apply N.eqb_eq in E2 as ->. by vm_compute in Hclose.
      * destruct (supports_nested_block_comments p); [|done]. destruct l as [|d l]; [by rewrite andb_false_r|]. cbn in *.
        destruct (c =? slash)%N eqn:E1; [|done]. destruct (d =? star)%N eqn:E2; [|done].
        apply N.eqb_eq in E1 as ->. apply N.eqb_eq in E2 as ->. by vm_compute in Hopen.
Qed.

Lemma agrees_code n c l prev :
  agrees n -> length (c :: l) <= S n -> plain_comments p (c :: l) = true ->
  has_executable_sql_from o false 0 prev (c :: l) = false <-> Inert p (c :: l).
Proof.
  intros IH Hlen Hplain. cbn [length] in Hlen. pose proof (plain_cons _ _ _ Hplain) as Hl.
  destruct (IH l ltac:(lia) Hl) as (I0 & I1 & I2). cbn [has_executable_sql_from].
  destruct ((c =? dash)%N && head_is dash l) eqn:Hd.
  { apply andb_true_iff in Hd as [->%N.eqb_eq Hd]. destruct l as [|d l]; [done|]. cbn in Hd. apply N.eqb_eq in Hd as ->.
    rewrite I1, in_line_cons by done. split.
    - intros (body & rest & -> & Hb & Hr & Hi). by apply (inert_line p [dash; dash] body rest); [left|..].
    - intros [(_ & s' & [= <-] & Hs)|(_ & Hc & _)]%inert_line_inv; done. }
  destruct (supports_hash_line_comments p && (c =? hash)%N) eqn:Hh.
  { apply andb_true_iff in Hh as [Hp ->%N.eqb_eq]. rewrite I1. split.
    - intros (body & rest & -> & Hb & Hr & Hi). by apply (inert_line p [hash] body rest); [right|..].
    - intros [(Hc & _)|(_ & _ & Hs)]%inert_line_inv; done. }
  destruct ((c =? slash)%N && head_is star l) eqn:Hs.
  { apply andb_true_iff in Hs as [->%N.eqb_eq Hs]. destruct l as [|d l]; [done|]. cbn in Hs. apply N.eqb_eq in Hs as ->.
    destruct (is_mysql_executable_comment_start _) eqn:Hx.
    { split; [done|]. by intros Hi%inert_executable. }
    rewrite inert_block_iff by done. pose proof (plain_after_opener _ _ Hplain) as Hset. apply plain_cons in Hl. cbn [length] in Hlen.
    destruct (IH l ltac:(lia) Hl) as (_ & _ & J2). 
    assert (has_executable_sql_from o false 1 None (star :: l) = has_executable_sql_from o false 1 (Some star) l) as ->
      by (cbn; by destruct (supports_nested_block_comments p)).
    by apply J2. }
  destruct (is_whitespace c) eqn:Hw; cbn [negb]; [rewrite inert_blank_iff by done; apply I0|].
  split; [done|]. intros Hi. by apply inert_other in Hi.
Qed.

Lemma lexer_agrees n : agrees n.
Proof.
  induction n as [|n IH]; intros [|c l] Hlen Hplain; cbn [length] in Hlen; try lia.
  1, 2: split_and!; intros; cbn; split; intros _; first [done|constructor|apply in_line_nil|apply in_block_end].
  split_and!.
  - intros prev. by apply (agrees_code n).
  - intros prev. destruct (IH l ltac:(lia) (plain_cons _ _ _ Hplain)) as (I0 & I1 & _). cbn [has_executable_sql_from].
    destruct (N.eqb_spec c nl) as [->|Hc]; cbn [negb]; [rewrite in_line_nl; apply I0|rewrite in_line_cons by done; apply I1].
  - intros depth prev Hset. by apply (agrees_block n).
Qed.

(** On texts with plain comments the test for executable SQL is the grammar. *)
Lemma not_executable_inert s :
  plain_comments p s = true -> has_executable_sql_with_options s o = false <-> Inert p s.
Proof. intros Hp. by apply (lexer_agrees (length s) s). Qed.

End LexerInert.

(** ** A script as a sequence of pieces *)

Section Cuts.

Context (o : SqlParsingOptions.t) (inert : text -> Prop).

Abbreviation p := (SqlParsingOptions.profile o) (only parsing).

(** What ends a statement: [;], or the delimiter in force instead of it. *)
Definition terminator (delimiter : option text) : text := match delimiter with Some d => d | None => [semi] end.

(** [Cuts delimiter ss g]: the text [g] is the statements [ss], in order, and
    between them only inert text and terminators. *)
Inductive Cuts (delimiter : option text) : list text -> text -> Prop :=
| cuts_nil : Cuts delimiter [] []
| cuts_inert s ss rest : inert s -> Cuts delimiter ss rest -> Cuts delimiter ss (s ++ rest)
| cuts_terminator ss rest : Cuts delimiter ss rest -> Cuts delimiter ss (terminator delimiter ++ rest)
| cuts_statement s ss rest :
    ~ inert s -> trim s = s -> Cuts delimiter ss rest -> Cuts delimiter (s :: ss) (s ++ rest).

(** Where a statement may begin: at the start, after a line break or a terminator;
    in a T-SQL batch anywhere. *)
Definition Boundary (delimiter : option text) (g : text) : Prop :=
  g = [] \/ (exists g', g = g' ++ [nl] \/ g = g' ++ [semi] \/ g = g' ++ terminator delimiter)
  \/ keeps_sqlserver_control_flow_batches p = true.

(** Only blanks since such a place. *)
Definition LineStart (delimiter : option text) (g : text) : Prop :=
  exists g' w, g = g' ++ w /\ Boundary delimiter g' /\ Forall (fun c => is_whitespace c = true) w.

(** The line [DELIMITER new]. *)
Definition DelimiterLine (line new : text) : Prop :=
  (eq_ignore_ascii_case (trim line) %"delimiter;" = true /\ new = [semi])
  \/ exists before word sep after, line = before ++ word ++ sep ++ new ++ after
       /\ eq_ignore_ascii_case word %"delimiter" = true /\ new <> [] /\ trim new = new
       /\ sep <> [] /\ Forall (fun c => is_whitespace c = true) (before ++ sep ++ after).

(** The lines the splitter executes itself: a [/] alone, and a [DELIMITER]
    command, which changes the delimiter in force. *)
Inductive LineCommand (delimiter : option text) (line : text) : option text -> Prop :=
| slash_command_line : supports_slash_line_block_delimiter p = true -> trim line = [slash] -> LineCommand delimiter line delimiter
| delimiter_command_line new :
    supports_custom_delimiter_commands p = true -> DelimiterLine line new ->
    LineCommand delimiter line (if text_eqb new [semi] then None else Some new).

(** [Reads d0 g ss d]: starting with delimiter [d0], the text [g] is read as the
    statements [ss], leaving delimiter [d]; everything else in it is inert text,
    terminators and command lines, each a line of its own. *)
Inductive Reads (d0 : option text) : text -> list text -> option text -> Prop :=
| reads_start : Reads d0 [] [] d0
| reads_cuts g ss d g' ss' : Reads d0 g ss d -> Cuts d ss' g' -> Reads d0 (g ++ g') (ss ++ ss') d
| reads_line g ss d line d' :
    Reads d0 g ss d -> LineStart d g -> free_of nl line -> LineCommand d line d' -> Reads d0 (g ++ line ++ [nl]) ss d'.

(** A whole text: its last line may be a command without a line break. *)
Definition ReadsScript (d0 : option text) (script : text) (ss : list text) : Prop :=
  exists g d, Reads d0 g ss d
    /\ (script = g
        \/ exists line d' w, script = g ++ line ++ w /\ LineStart d g /\ free_of nl line /\ LineCommand d line d'
             /\ Forall (fun c => is_whitespace c = true) w).

Lemma cuts_app d ss g ss' g' : Cuts d ss g -> Cuts d ss' g' -> Cuts d (ss ++ ss') (g ++ g').
Proof.
  induction 1 as [|s ss rest Hs _ IH|ss rest _ IH|s ss rest Hs Ht _ IH]; intros H'; [done|rewrite <- app_assoc..];
    [apply cuts_inert|apply cuts_terminator|apply cuts_statement]; auto.
Qed.

Lemma cuts_of_inert d s : inert s -> Cuts d [] s.
Proof. intros Hs. rewrite <- (app_nil_r s). apply cuts_inert; [done|constructor]. Qed.

Lemma cuts_of_terminator d : Cuts d [] (terminator d).
Proof. rewrite <- (app_nil_r (terminator d)). apply cuts_terminator. constructor. Qed.

Lemma cuts_statements d ss g : Cuts d ss g -> Forall (fun s => ~ inert s /\ trim s = s) ss.
Proof. induction 1; auto. Qed.

Lemma reads_statements d0 g ss d : Reads d0 g ss d -> Forall (fun s => ~ inert s /\ trim s = s) ss.
Proof. induction 1 as [|? ? ? ? ? _ IH Hc|]; [done|apply Forall_app; split; [done|by eapply cuts_statements]|done]. Qed.

Lemma boundary_app d g g' : Boundary d g' -> g' <> [] -> Boundary d (g ++ g').
Proof.
  intros [->|[(x & Hx)|Hp]] Hne; [done| |by right; right]. right. left. exists (g ++ x).
  destruct Hx as [-> | [-> | ->]]; rewrite app_assoc; auto.
Qed.

Lemma boundary_nl d g : Boundary d (g ++ [nl]).
Proof. right. left. eauto. Qed.

Lemma boundary_semi d g : Boundary d (g ++ [semi]).
Proof. right. left. eauto. Qed.

Lemma boundary_terminator d g : Boundary d (g ++ terminator d).
Proof. right. left. eauto. Qed.

Lemma boundary_line_start d g : Boundary d g -> LineStart d g.
Proof. intros Hb. exists g, []. rewrite app_nil_r. by split_and!. Qed.

(** Turning the buffered text [before] into the buffer [after] emitted [out]. *)
Definition Emits (d : option text) (before : text) (out : list SqlStatementWithControl) (after : text) : Prop :=
  exists g, before = g ++ after /\ Cuts d (map sql out) g /\ (g = [] \/ Boundary d g).

Lemma emits_keep d b : Emits d b [] b.
Proof. exists []. split; [done|]. split; [constructor|by left]. Qed.

Lemma emits_app d b1 out1 b2 x out2 b3 :
  Emits d b1 out1 b2 -> Emits d (b2 ++ x) out2 b3 -> Emits d (b1 ++ x) (out1 ++ out2) b3.
Proof.
  intros (g1 & -> & H1 & B1) (g2 & Hb & H2 & B2). exists (g1 ++ g2). split_and!.
  - by rewrite <- app_assoc, Hb, app_assoc.
  - rewrite map_app. by apply cuts_app.
  - destruct (decide (g2 = [])) as [->|Hne]; [by rewrite app_nil_r|]. right. destruct B2 as [?|B2]; [done|]. by apply boundary_app.
Qed.

Lemma emits_trans d b1 out1 b2 out2 b3 : Emits d b1 out1 b2 -> Emits d b2 out2 b3 -> Emits d b1 (out1 ++ out2) b3.
Proof. intros H1 H2. rewrite <- (app_nil_r b1). eapply emits_app; [done|]. by rewrite app_nil_r. Qed.

Lemma emits_all d b out : Cuts d (map sql out) b -> Boundary d b -> Emits d b out [].
Proof. intros Hc Hb. exists b. rewrite app_nil_r. auto. Qed.

(** The statements are cut at a terminator. *)
Lemma emits_terminated d b out : Cuts d (map sql out) b -> Emits d (b ++ terminator d) out [].
Proof.
  intros Hc. apply emits_all; [|apply boundary_terminator]. rewrite <- (app_nil_r (map sql out)).
  apply cuts_app; [done|apply cuts_of_terminator].
Qed.

(** One step of a run that reads [x]: whatever was read before the buffer, the
    text read after it is the old buffer and [x] up to the new buffer. *)
Definition Advances (s : t) (x : text) (out : list SqlStatementWithControl) (s' : t) : Prop :=
  forall d0 g ss, Reads d0 g ss (custom_delimiter s) -> Boundary (custom_delimiter s) g ->
    exists g', g ++ buffer s ++ x = g' ++ buffer s'
      /\ Reads d0 g' (ss ++ map sql out) (custom_delimiter s') /\ Boundary (custom_delimiter s') g'.

Lemma emits_advances s x out s' :
  custom_delimiter s' = custom_delimiter s -> Emits (custom_delimiter s) (buffer s ++ x) out (buffer s') -> Advances s x out s'.
Proof.
  intros Hd (g' & Hb & Hc & B) d0 g ss Hr Hg. rewrite Hd. exists (g ++ g'). split_and!.
  - by rewrite Hb, app_assoc.
  - by apply reads_cuts.
  - destruct (decide (g' = [])) as [->|Hne]; [by rewrite app_nil_r|]. destruct B as [?|B]; [done|]. by apply boundary_app.
Qed.

Lemma advances_trans s1 x1 out1 s2 x2 out2 s3 :
  Advances s1 x1 out1 s2 -> Advances s2 x2 out2 s3 -> Advances s1 (x1 ++ x2) (out1 ++ out2) s3.
Proof.
  intros H1 H2 d0 g ss Hr Hb. destruct (H1 d0 g ss Hr Hb) as (g1 & E1 & R1 & B1). destruct (H2 d0 g1 _ R1 B1) as (g2 & E2 & R2 & B2).
  exists g2. split_and!; [|by rewrite map_app, app_assoc|done].
  by rewrite <- E2, !app_assoc, <- (app_assoc g), E1.
Qed.

Lemma advances_keep s x s' :
  custom_delimiter s' = custom_delimiter s -> buffer s' = buffer s ++ x -> Advances s x [] s'.
Proof. intros Hd Hb. apply emits_advances; [done|]. rewrite Hb. apply emits_keep. Qed.

End Cuts.

(** Two notions of inert text that agree on the parts of a script cut it alike. *)
Lemma cuts_mono (inert1 inert2 : text -> Prop) d ss g :
  Cuts inert1 d ss g -> (forall s, substring_of s g -> inert1 s <-> inert2 s) -> Cuts inert2 d ss g.
Proof.
  induction 1 as [|s ss rest Hs _ IH|ss rest _ IH|s ss rest Hs Ht _ IH]; intros Heq; [constructor| | |].
  - apply cuts_inert; [apply Heq; auto with text|apply IH; intros; apply Heq; auto with text].
  - apply cuts_terminator, IH. intros. apply Heq. auto with text.
  - apply cuts_statement; [rewrite <- Heq; auto with text|done|apply IH; intros; apply Heq; auto with text].
Qed.

Lemma reads_mono o (inert1 inert2 : text -> Prop) d0 g ss d :
  Reads o inert1 d0 g ss d -> (forall s, substring_of s g -> inert1 s <-> inert2 s) -> Reads o inert2 d0 g ss d.
Proof.
  induction 1 as [|g ss d g' ss' _ IH Hc|g ss d line d' _ IH Hstart Hline Hcmd]; intros Heq; [constructor| |].
  - apply reads_cuts; [apply IH; intros; apply Heq; auto with text|]. eapply cuts_mono; [done|]. intros. apply Heq. auto with text.
  - eapply reads_line; [apply IH; intros; apply Heq; auto with text|done..].
Qed.

Create HintDb split discriminated.
#[export] Hint Resolve emits_keep : split.

(** [parse_delimiter_command] recognises such lines only. *)
Lemma delimiter_word l (d : char) :
  to_ascii_lowercase d = d -> is_whitespace d = true -> eq_ignore_ascii_case l (%"delimiter" ++ [d]) = true ->
  exists word sep, l = word ++ [sep] /\ eq_ignore_ascii_case word %"delimiter" = true /\ is_whitespace sep = true.
Proof.
  intros Hlow Hd Heq. unfold eq_ignore_ascii_case in *. apply text_eqb_eq in Heq. rewrite map_app in Heq.
  destruct (map_eq_app _ _ _ _ Heq) as (word & seps & -> & Hw & Hs). destruct seps as [|sep [|]]; try discriminate Hs.
  exists word, sep. split_and!; [done|by rewrite Hw, text_eqb_refl|]. cbn in Hs. rewrite Hlow in Hs. injection Hs as Hs.
  unfold to_ascii_lowercase in Hs. destruct (is_ascii_uppercase sep) eqn:Hu; [|by subst]. exfalso.
  unfold is_ascii_uppercase in Hu. apply andb_true_iff in Hu as [H1%N.leb_le H2%N.leb_le].
  unfold is_whitespace in Hd. subst d. rewrite !orb_true_iff, !andb_true_iff, !N.leb_le, !N.eqb_eq in Hd. lia.
Qed.

Lemma parse_delimiter_line line new : parse_delimiter_command (trim line) = Some new -> DelimiterLine line new.
Proof.
  unfold parse_delimiter_command. rewrite trim_idemp. set (l := trim line).
  destruct (eq_ignore_ascii_case l %"delimiter;") eqn:E; [intros [= <-]; by left|].
  destruct (_ && _) eqn:Hword; [|done]. apply andb_true_iff in Hword as [_ Hword].
  destruct (is_empty (trim (drop 10 l))) eqn:Hne; [done|]. intros [= <-]. right.
  destruct (trim_split line) as (v1 & v2 & Hl & Hv1 & Hv2). fold l in Hl. destruct (trim_split (drop 10 l)) as (w1 & w2 & Hd & Hw1 & Hw2).
  assert (exists word sep, take 10 l = word ++ [sep] /\ eq_ignore_ascii_case word %"delimiter" = true /\ is_whitespace sep = true)
    as (word & sep & Htake & Hw & Hsep)
    by (apply orb_true_iff in Hword as [Hword|Hword]; [by apply (delimiter_word _ space)|by apply (delimiter_word _ tab)]).
  exists v1, word, (sep :: w1), (w2 ++ v2). split_and!; [|done| |apply trim_idemp|done|].
  - rewrite Hl at 1. rewrite <- (take_drop 10 l) at 1. rewrite Htake, Hd at 1. by rewrite <- !app_assoc.
  - intros Hnil. by rewrite Hnil in Hne.
  - rewrite !Forall_app, Forall_cons. by split_and!.
Qed.

(** ** Fields an operation leaves alone *)

Record Frame (s s' : t) : Prop := {
  fr_options : options s' = options s;
  fr_psql : pending_psql_command s' = pending_psql_command s;
  fr_tag : dollar_quote_tag s' = dollar_quote_tag s;
  fr_delimiter : custom_delimiter s' = custom_delimiter s;
  fr_dashes : pending_mysql_line_comment_dashes s' = true -> pending_mysql_line_comment_dashes s = true
}.

#[export] Instance Frame_preorder : PreOrder Frame.
Proof.
  split; [by constructor|]. intros a b c [H1 H2 H3 H4 H5] [K1 K2 K3 K4 K5].
  constructor; [congruence..|auto].
Qed.

Ltac frame_field := constructor; solve [done | by intros].

Lemma frame_refl s : Frame s s.
Proof. reflexivity. Qed.

Lemma frame_push_char ch s : Frame s (push_char ch s).
Proof. frame_field. Qed.

Lemma frame_set_buffer b s : Frame s (set_buffer b s).
Proof. frame_field. Qed.

Lemma frame_clear_statement s : Frame s (clear_statement s).
Proof. frame_field. Qed.

Lemma frame_push_current_statement s s' out :
  push_current_statement s = (s', out) -> buffer s' = [] /\ Frame s s'.
Proof. intros [= <- <-]. split; [done | frame_field]. Qed.

Lemma frame_push_pieces pieces s s' out : push_pieces pieces s = (s', out) -> Frame s s'.
Proof.
  revert s s' out. induction pieces as [|p ps IH]; intros s s' out; cbn [push_pieces].
  - by intros [= <- <-].
  - destruct (push_current_statement (set_buffer p s)) as [s1 o1] eqn:H1.
    destruct (push_pieces ps s1) as [s2 o2] eqn:H2. intros [= <- <-].
    etrans; [apply (frame_set_buffer p)|]. etrans; [by eapply frame_push_current_statement|]. by eapply IH.
Qed.

#[export] Hint Resolve frame_refl frame_push_char frame_set_buffer frame_clear_statement : split.

(** ** The operations emit and drop only what they should *)

Section Operations.

Context `{CharTable} `{OracleTokenizer} (o : SqlParsingOptions.t).

(** The lexer's own test, replaced by the grammar at the end. *)
Definition idle (s : text) : Prop := has_executable_sql_with_options s o = false.

Abbreviation emits := (Emits o idle) (only parsing).
Abbreviation cuts := (Cuts idle) (only parsing).
Abbreviation advances := (Advances o idle) (only parsing).

Lemma idle_whitespace w : Forall (fun c => is_whitespace c = true) w -> idle w.
Proof.
  unfold idle, has_executable_sql_with_options. generalize (@None char).
  induction w as [|c w IH]; intros prev Hw; [done|]. apply Forall_cons in Hw as [Hc Hw]. cbn [has_executable_sql_from].
  assert (forall d, is_whitespace d = false -> (c =? d)%N = false) as Hd by (intros d Hd; apply N.eqb_neq; intros ->; congruence).
  rewrite !Hd, Hc, andb_false_r by done. cbn [andb negb]. by apply IH.
Qed.

(** [emit_if_executable (trim b)] accounts for the whole text [b]. *)
Lemma cuts_emit_if_executable s d b :
  options s = o -> cuts d (map sql (emit_if_executable (trim b) s)) b.
Proof.
  intros Ho. destruct (trim_split b) as (w1 & w2 & Hb & Hw1%idle_whitespace & Hw2%idle_whitespace).
  unfold emit_if_executable. rewrite Ho. pose proof (trim_idemp b) as Hidem. revert Hb Hidem. generalize (trim b). intros tb -> Hidem.
  destruct (has_executable_sql_with_options tb o) eqn:Hx.
  - apply cuts_inert; [done|]. apply cuts_statement; [unfold idle; congruence|done|]. by apply cuts_of_inert.
  - apply cuts_inert; [done|]. apply cuts_inert; [done|]. by apply cuts_of_inert.
Qed.

(** The buffer ends with the terminator that made it a statement. *)
Lemma emits_push_current_statement s s' out d b :
  options s = o -> buffer s = b ++ [semi] -> push_current_statement s = (s', out) -> emits d (buffer s) out (buffer s').
Proof.
  intros Ho Hb [= <- <-]. apply emits_all; [by apply cuts_emit_if_executable|]. rewrite Hb. apply boundary_semi.
Qed.

Lemma cuts_push_pieces pieces s s' out d :
  options s = o -> push_pieces pieces s = (s', out) -> cuts d (map sql out) (concat pieces).
Proof.
  revert s s' out. induction pieces as [|p ps IH]; intros s s' out Ho; cbn [push_pieces concat].
  - intros [= <- <-]. constructor.
  - destruct (push_current_statement (set_buffer p s)) as [s1 o1] eqn:H1.
    destruct (push_pieces ps s1) as [s2 o2] eqn:H2. intros [= <- <-]. rewrite map_app. apply cuts_app.
    + injection H1 as _ <-. by apply (cuts_emit_if_executable (set_buffer p s)).
    + eapply IH; [|exact H2]. pose proof (frame_push_current_statement _ _ _ H1) as [_ Hf]. by rewrite (fr_options _ _ Hf).
Qed.

Lemma batch_pieces_concat fuel body pieces trailing :
  batch_pieces fuel body = (pieces, trailing) -> body = concat pieces ++ trailing.
Proof.
  revert body pieces trailing. induction fuel as [|fuel IH]; intros body pieces trailing; simpl.
  - by intros [= <- <-].
  - destruct (sqlserver_control_flow_batch_boundary body) as [r|]; [|by intros [= <- <-]].
    case_match; [by intros [= <- <-]|].
    destruct (batch_pieces fuel (drop r body)) as [ps tr] eqn:Hp. intros [= <- <-].
    apply IH in Hp. simpl. rewrite <- app_assoc, <- Hp. by rewrite take_drop.
Qed.

(** Emitting the pieces of a batch and accounting for what follows them. *)
Lemma emits_after_pieces pieces s s1 out1 d x out2 b :
  options s = o -> keeps_sqlserver_control_flow_batches (prof s) = true -> push_pieces pieces s = (s1, out1) -> emits d x out2 b ->
  emits d (concat pieces ++ x) (out1 ++ out2) b.
Proof.
  intros Ho Hk Hp Hx. apply (emits_app o idle d (concat pieces) out1 [] x); [|done].
  apply emits_all; [by eapply cuts_push_pieces|]. right. right. unfold prof in Hk. by rewrite Ho in Hk.
Qed.

Lemma emits_push_current_semi s s' out d :
  options s = o -> d = None -> push_current_statement s = (s', out) -> emits d (buffer s ++ [semi]) out (buffer s').
Proof. intros Ho -> [= <- <-]. apply (emits_terminated o idle None). by apply cuts_emit_if_executable. Qed.

Lemma emits_sqlserver_batch s s' out :
  options s = o -> keeps_sqlserver_control_flow_batches (prof s) = true -> on_sqlserver_batch_semicolon s = (s', out) ->
  emits None (buffer s ++ [semi]) out (buffer s').
Proof.
  intros Ho Hk. unfold on_sqlserver_batch_semicolon.
  destruct (negb _); [intros [= <- <-]; apply emits_keep|].
  destruct (batch_pieces _ _) as [pieces trailing] eqn:Hbp. apply batch_pieces_concat in Hbp.
  destruct (is_empty pieces); [by apply emits_push_current_statement with (b := buffer s)|].
  destruct (push_pieces pieces _) as [s1 out1] eqn:Hp.
  pose proof (frame_push_pieces _ _ _ _ Hp) as Hf. rewrite Hbp, <- app_assoc.
  assert (options s1 = o) as Ho1 by (by rewrite (fr_options _ _ Hf)).
  pose proof (fun out2 b => emits_after_pieces pieces (push_char semi s) _ _ None (trailing ++ [semi]) out2 b Ho Hk Hp) as Hafter.
  destruct (is_empty (trim trailing)) eqn:Ht.
  - intros [= <- <-]. rewrite <- (app_nil_r out1). apply Hafter. apply (emits_terminated o idle None).
    apply cuts_of_inert, idle_whitespace, trim_nil_whitespace, is_empty_nil, Ht.
  - destruct (keeps_sqlserver_control_flow_batch _ _).
    + destruct (sqlserver_control_flow_batch_is_complete trailing).
      * destruct (push_current_statement _) as [s4 out4] eqn:H4. intros [= <- <-].
        apply Hafter. by apply (emits_push_current_statement (push_char semi (set_buffer trailing s1))) with (b := trailing).
      * intros [= <- <-]. rewrite <- (app_nil_r out1). apply Hafter. apply emits_keep.
    + destruct (push_current_statement _) as [s4 out4] eqn:H4. intros [= <- <-].
      apply Hafter. by apply (emits_push_current_semi (set_buffer trailing s1)).
Qed.

Lemma frame_sqlserver_batch s s' out :
  on_sqlserver_batch_semicolon s = (s', out) -> Frame s s'.
Proof.
  unfold on_sqlserver_batch_semicolon.
  destruct (negb _); [intros [= <- <-]; apply frame_push_char|].
  destruct (batch_pieces _ _) as [pieces trailing].
  destruct (is_empty pieces).
  { intros Hp. etrans; [apply (frame_push_char semi)|]. by eapply frame_push_current_statement. }
  destruct (push_pieces pieces _) as [s1 out1] eqn:Hp. apply frame_push_pieces in Hp.
  assert (Frame s s1) as Hs by (etrans; [apply (frame_push_char semi)|done]). clear Hp.
  repeat case_match; intros ?; simplify_eq; (etrans; [exact Hs|]);
    first [ apply frame_set_buffer
          | etrans; [apply (frame_set_buffer trailing)|]; apply frame_push_char
          | etrans; [apply (frame_set_buffer trailing)|]; etrans; [apply (frame_push_char semi)|];
            by eapply frame_push_current_statement
          | etrans; [apply (frame_set_buffer trailing)|]; by eapply frame_push_current_statement ].
Qed.

(** The five ways the [;] arm ends, for any record update that keeps the frame. *)
Lemma emits_block_semicolon s0 s (complete : bool) s' out d :
  options s = o -> buffer s = buffer s0 ++ [semi] ->
  (if complete then push_current_statement s else (s, [])) = (s', out) ->
  emits d (buffer s0 ++ [semi]) out (buffer s').
Proof.
  intros Ho Hb. rewrite <- Hb. destruct complete; [by apply emits_push_current_statement with (b := buffer s0)|].
  intros [= <- <-]. apply emits_keep.
Qed.

Lemma frame_block_semicolon s0 s (complete : bool) s' out :
  Frame s0 s -> (if complete then push_current_statement s else (s, [])) = (s', out) -> Frame s0 s'.
Proof.
  intros Hf. destruct complete; [|by intros [= <- <-]].
  intros Hp. etrans; [exact Hf|]. by eapply frame_push_current_statement.
Qed.

Lemma emits_on_semicolon s s' out :
  options s = o -> on_semicolon s = (s', out) ->
  emits (custom_delimiter s) (buffer s ++ [semi]) out (buffer s') /\ Frame s s'.
Proof.
  intros Ho. unfold on_semicolon.
  destruct (ends_with_xml_entity_reference _); [intros [= <- <-]; split; auto with split|].
  destruct (_ || _) eqn:Hcustom; [intros [= <- <-]; split; auto with split|].
  assert (custom_delimiter s = None) as Hnone by (apply orb_false_iff in Hcustom as [_ Hc]; by destruct (custom_delimiter s)).
  rewrite Hnone. clear Hcustom.
  destruct (supports_mysql_routine_blocks _ && _).
  { destruct (mysql_routine_block_is_complete _); [|intros [= <- <-]; split; auto with split].
    intros Hp. split; [by apply emits_push_current_semi | by eapply frame_push_current_statement]. }
  destruct (if postgres_dollar_quoted_routine s then _ else _) as [kept s1] eqn:Hk.
  assert (buffer s1 = buffer s /\ Frame s s1) as [Hb Hf].
  { destruct (postgres_dollar_quoted_routine s); [by simplify_eq|].
    destruct (OraclePlSqlBlockTracker.keeps_block_together _ _ _). simplify_eq. split; [done|frame_field]. }
  assert (options s1 = o) as Ho1 by (by rewrite (fr_options _ _ Hf)). rewrite <- Hb. clear Hk.
  assert (Frame s (push_char semi s1)) as Hf2 by (etrans; [exact Hf|auto with split]).
  destruct kept.
  { destruct (OraclePlSqlBlockTracker.is_complete _ _) as [complete tracker].
    intros Hp. split; [eapply emits_block_semicolon; [| |exact Hp]; done|].
    eapply frame_block_semicolon; [|exact Hp]. etrans; [exact Hf2|frame_field]. }
  destruct (supports_hana_script_blocks _ && _).
  { intros Hp. split; [eapply emits_block_semicolon; [| |exact Hp]; done | by eapply frame_block_semicolon]. }
  destruct (supports_firebird_routine_blocks _ && _).
  { intros Hp. split; [eapply emits_block_semicolon; [| |exact Hp]; done | by eapply frame_block_semicolon]. }
  destruct (keeps_sqlserver_control_flow_batch _ _) eqn:Hbatch.
  { assert (keeps_sqlserver_control_flow_batches (prof s1) = true) as Hkeeps
      by (unfold keeps_sqlserver_control_flow_batch in Hbatch; unfold prof; by destruct (keeps_sqlserver_control_flow_batches _)).
    intros Hp. split; [by apply emits_sqlserver_batch|]. etrans; [exact Hf|]. by eapply frame_sqlserver_batch. }
  intros Hp. split; [by apply emits_push_current_semi|].
  etrans; [exact Hf|]. by eapply frame_push_current_statement.
Qed.

Lemma emits_match_char ch s s' out :
  options s = o -> match_char ch s = (s', out) ->
  emits (custom_delimiter s) (buffer s ++ [ch]) out (buffer s') /\ Frame s s'.
Proof.
  intros Ho. unfold match_char. repeat case_match; intros Hp;
    try (injection Hp as <- <-; split; [apply emits_keep | frame_field]).
  match goal with Hc : (ch =? semi)%N && _ = true |- _ => apply andb_true_iff in Hc as [Hc%N.eqb_eq _] end.
  subst ch. by apply emits_on_semicolon.
Qed.

Lemma emits_after_delimiter s s' out :
  options s = o -> after_delimiter s = (s', out) -> emits (custom_delimiter s) (buffer s) out (buffer s') /\ Frame s s'.
Proof.
  intros Ho. unfold after_delimiter.
  destruct (custom_delimiter s) as [d|]; [|intros [= <- <-]; auto with split].
  destruct (ends_with d (buffer s) && _) eqn:Hends; [|intros [= <- <-]; auto with split].
  apply andb_true_iff in Hends as [[before Hb]%ends_with_app _]. intros Hp.
  rewrite (take_drop_last_len _ _ _ Hb) in Hp.
  pose proof (frame_push_current_statement _ _ _ Hp) as [Hnil Hf]. split.
  - rewrite Hnil, Hb. apply (emits_terminated o idle (Some d)). injection Hp as _ <-.
    by apply (cuts_emit_if_executable (set_buffer before s)).
  - etrans; [apply (frame_set_buffer before)|done].
Qed.

(** The last line holds no line break, and the text before it ends with one. *)
Lemma last_line_free b : free_of nl (last_line b).
Proof.
  assert (forall c s, match rsplit_once c s with Some (_, r) => free_of c r | None => free_of c s end) as Hfree.
  { intros c s. induction s as [|x s IH]; [constructor|]. cbn [rsplit_once].
    destruct (rsplit_once c s) as [[a r]|]; [done|]. destruct (N.eqb_spec x c); [done|by constructor]. }
  unfold last_line. specialize (Hfree nl b). by destruct (rsplit_once nl b) as [[a r]|].
Qed.

Lemma before_last_line_boundary d b : before_last_line b = [] \/ Boundary o d (before_last_line b).
Proof. unfold before_last_line. destruct (rsplit_once nl b) as [[a r]|]; [right; apply boundary_nl|by left]. Qed.

(** A line command after the statements of the lines before it. *)
Lemma advances_line s b out s' :
  buffer s = b ++ [nl] -> buffer s' = [] ->
  LineCommand o (custom_delimiter s) (last_line b) (custom_delimiter s') ->
  cuts (custom_delimiter s) (map sql out) (before_last_line b) -> advances s [] out s'.
Proof.
  intros Hb Hb' Hcmd Hc d0 g ss Hr Hg. exists ((g ++ before_last_line b) ++ last_line b ++ [nl]). rewrite Hb, Hb', !app_nil_r. split_and!.
  - rewrite <- !app_assoc. f_equal. by rewrite app_assoc, <- last_line_split.
  - eapply reads_line; [by apply reads_cuts| |apply last_line_free|done]. apply boundary_line_start.
    destruct (before_last_line_boundary (custom_delimiter s) b) as [->|Hbd]; [by rewrite app_nil_r|].
    destruct (decide (before_last_line b = [])) as [->|Hne]; [by rewrite app_nil_r|]. by apply boundary_app.
  - rewrite app_assoc. apply boundary_nl.
Qed.

Lemma advances_after_newline s b s' out :
  options s = o -> buffer s = b ++ [nl] -> after_newline s = Some (s', out) ->
  advances s [] out s' /\ options s' = options s
  /\ pending_psql_command s' = pending_psql_command s /\ dollar_quote_tag s' = dollar_quote_tag s.
Proof.
  intros Ho Hb. unfold after_newline.
  replace (take _ (buffer s)) with b by (rewrite Hb, length_app; simpl; by rewrite Nat.add_sub, take_app_length).
  destruct (supports_slash_line_block_delimiter _ && _) eqn:Hslash.
  - apply andb_true_iff in Hslash as [Hprof Hslash%text_eqb_eq]. intros [= <- <-]. split_and!; [|done..].
    apply (advances_line s b); [done..| |by apply cuts_emit_if_executable].
    apply slash_command_line; [|done]. unfold prof in Hprof. by rewrite Ho in Hprof.
  - destruct (supports_custom_delimiter_commands _) eqn:Hprof; [|done].
    destruct (parse_delimiter_command _) as [d|] eqn:Hparse; [|done].
    destruct (has_executable_sql_with_options _ _); [done|]. intros [= <- <-]. split_and!; [|done..].
    apply (advances_line s b); [done..| |].
    + apply delimiter_command_line; [|by apply parse_delimiter_line]. unfold prof in Hprof. by rewrite Ho in Hprof.
    + destruct (is_empty (before_last_line b)) eqn:Hnil; [|by apply cuts_emit_if_executable].
      apply is_empty_nil in Hnil as ->. constructor.
Qed.

(** What one iteration guarantees about the state it leaves. *)
Record Keeps (s s' : t) : Prop := {
  kp_options : options s' = options s;
  kp_psql : pending_psql_command s' = pending_psql_command s;
  kp_tag : forall tag, dollar_quote_tag s' = Some tag -> dollar_quote_tag s = Some tag \/ dollar_tag tag
}.

Lemma keeps_frame s s' : Frame s s' -> Keeps s s'.
Proof. intros [H1 H2 H3 H4 H5]. constructor; auto; intros d Hd; left; congruence. Qed.

Lemma match_char_newline s s' out : match_char nl s = (s', out) -> buffer s' = buffer s ++ [nl].
Proof. unfold match_char. simpl. by intros [= <- <-]. Qed.

Lemma emits_after_match ch s s' out :
  options s = o -> ((ch =? nl)%N = true -> exists b, buffer s = b ++ [nl]) ->
  after_match ch s = (s', out) -> advances s [] out s' /\ Keeps s s'.
Proof.
  intros Ho Hnl. unfold after_match.
  assert (forall s1 o1, after_delimiter s = (s1, o1) -> s' = set_previous (Some ch) s1 -> out = o1 ->
            advances s [] out s' /\ Keeps s s') as Hdelim.
  { intros s1 o1 H1 -> ->. apply emits_after_delimiter in H1 as [He Hf]; [|done].
    split; [apply emits_advances; [apply (fr_delimiter _ _ Hf)|by rewrite app_nil_r]|].
    apply keeps_frame. etrans; [exact Hf|frame_field]. }
  destruct (outside_quotes s && _).
  - destruct (if (ch =? nl)%N then after_newline s else None) as [[s1 o1]|] eqn:Hn.
    + intros [= -> ->]. destruct (ch =? nl)%N; [|done]. destruct Hnl as [b Hb]; [done|].
      eapply advances_after_newline in Hn as (He & H1 & H2 & H3); [|done..].
      split; [done|]. constructor; auto. intros tag. rewrite H3. auto.
    + destruct (after_delimiter s) as [s1 o1] eqn:H1. intros [= <- <-]. by eapply Hdelim.
  - intros [= <- <-]. split; [by apply advances_keep; [|rewrite app_nil_r]|]. apply keeps_frame. frame_field.
Qed.

Lemma emits_plain_char ch s s' out n :
  options s = o -> plain_char ch s = (s', out, n) -> n = 0 /\ advances s [ch] out s' /\ Keeps s s'.
Proof.
  intros Ho. unfold plain_char.
  destruct (match_char ch s) as [s1 o1] eqn:H1. destruct (after_match ch s1) as [s2 o2] eqn:H2.
  intros [= <- <- <-]. split; [done|].
  assert ((ch =? nl)%N = true -> exists b, buffer s1 = b ++ [nl]) as Hnl.
  { intros ->%N.eqb_eq. exists (buffer s). by apply match_char_newline in H1. }
  apply emits_match_char in H1 as [He1 Hf1]; [|done].
  apply emits_after_match in H2 as [He2 Hk2]; [|by rewrite (fr_options _ _ Hf1)|done].
  split.
  - change [ch] with ([ch] ++ []). eapply advances_trans; [|done]. apply emits_advances; [apply (fr_delimiter _ _ Hf1)|done].
  - destruct Hk2 as [K1 K2 K4], Hf1 as [F1 F2 F3 F4 F5]. constructor; [congruence..|]. intros d. rewrite <- F3. auto.
Qed.

Lemma push_tag_buffer tag s : buffer (push_tag tag s) = buffer s ++ tag.
Proof.
  unfold push_tag. revert s. induction tag as [|c tag IH]; intros s; simpl; [by rewrite app_nil_r|].
  rewrite IH. simpl. by rewrite <- app_assoc.
Qed.

Lemma push_tag_frame tag s : Frame s (push_tag tag s).
Proof.
  unfold push_tag. revert s. induction tag as [|c tag IH]; intros s; simpl; [reflexivity|].
  etrans; [|apply IH]. frame_field.
Qed.

Lemma dollar_tag_consumed tag ch rest r :
  dollar_tag tag -> ch :: rest = tag ++ r -> ch :: take (pred (length tag)) rest = tag.
Proof.
  intros (mid & -> & _) Heq. simpl in *. injection Heq as -> ->. f_equal. by rewrite take_app_length.
Qed.

Lemma emits_open_construct ch rest s s' n :
  open_construct ch rest s = Some (s', n) ->
  buffer s' = buffer s ++ ch :: take n rest /\ custom_delimiter s' = custom_delimiter s /\ Keeps s s'.
Proof.
  unfold open_construct.
  repeat (destruct (_ && _); [intros [= <- <-]; split_and!; [done..|]; constructor; by auto|]).
  destruct (if supports_dollar_quoted_strings _ then _ else _) as [tag|] eqn:Htag; [|done].
  destruct (_ && _); [|done]. intros [= <- <-].
  destruct (supports_dollar_quoted_strings _); [|done].
  apply dollar_quote_tag_at_shape in Htag as [Hshape [r Hr]].
  rewrite (dollar_tag_consumed _ _ _ _ Hshape Hr).
  match goal with |- context [push_tag tag ?x] => set (s1 := x) end.
  assert (buffer s1 = buffer s /\ Frame s s1) as [Hb Hf]
    by (subst s1; destruct (_ && _); split; [done|frame_field|done|reflexivity]).
  pose proof (push_tag_frame tag s1) as Hf2.
  destruct Hf as [F1 F2 F3 F4 F5], Hf2 as [G1 G2 G3 G4 G5]. split_and!; simpl; [by rewrite push_tag_buffer, Hb|congruence|].
  constructor; simpl; [congruence..|]. intros d [= <-]. auto.
Qed.

Definition tag_ok (s : t) : Prop := forall tag, dollar_quote_tag s = Some tag -> dollar_tag tag.

Lemma emits_sql_step s ch rest s' out n :
  options s = o -> tag_ok s -> sql_step s ch rest = (s', out, n) ->
  advances s (ch :: take n rest) out s' /\ Keeps s s'.
Proof.
  intros Ho Htag. unfold sql_step.
  assert (forall s1 s2 o2 k, plain_char ch s1 = (s2, o2, k) -> s1 = s ->
            advances s (ch :: take k rest) o2 s2 /\ Keeps s s2) as Hplain.
  { intros s1 s2 o2 k Hp ->. by eapply emits_plain_char in Hp as (-> & He & Hk). }
  assert (forall s2, Frame s s2 -> buffer s2 = buffer s ++ [ch] -> advances s (ch :: take 0 rest) [] s2 /\ Keeps s s2) as Hkeep.
  { intros s2 Hf Hb. split; [apply advances_keep; [apply (fr_delimiter _ _ Hf)|done]|by apply keeps_frame]. }
  destruct (dollar_quote_tag s) as [tag|] eqn:Hq.
  { destruct (starts_with_chars (ch :: rest) tag) eqn:Hs; intros [= <- <- <-].
    - apply starts_with_app in Hs as [r Hr]. specialize (Htag tag Hq).
      rewrite (dollar_tag_consumed _ _ _ _ Htag Hr). pose proof (push_tag_frame tag s) as [F1 F2 F3 F4 F5].
      split; [apply advances_keep; [done|apply push_tag_buffer]|]. constructor; simpl; done.
    - apply Hkeep; [frame_field|done]. }
  destruct (in_line_comment s).
  { destruct (ch =? nl)%N; intros [= <- <- <-]; (apply Hkeep; [frame_field|done]). }
  destruct (block_comment_depth s).
  - destruct (OracleQQuoteState.is_open _);
      [intros [= <- <- <-]; apply Hkeep; [frame_field|done]|].
    destruct (outside_quotes s); [|by intros Hp; eapply Hplain].
    destruct (open_construct ch rest s) as [[s1 k]|] eqn:Hoc; [|by intros Hp; eapply Hplain].
    intros [= <- <- <-]. apply emits_open_construct in Hoc as (Hb & Hd & Hk).
    split; [by apply advances_keep|done].
  - repeat (destruct (_ && _); [intros [= <- <- <-]; apply Hkeep; [frame_field|done]|]).
    intros [= <- <- <-]. apply Hkeep; [frame_field|done].
Qed.

Lemma step_without_psql inner s ch rest :
  supports_psql_control_commands (prof s) = false -> pending_psql_command s = None ->
  step inner s ch rest = sql_step s ch rest.
Proof. intros Hp Hn. unfold step. by rewrite Hn, Hp. Qed.

(** A buffer is blanks, the lines before its last line, and that line. *)
Lemma final_lines_split b before last :
  final_lines b = (before, last) ->
  exists w1 b1 sep line w2, b = w1 ++ b1 ++ sep ++ line ++ w2 /\ before = trim b1 /\ last = trim line /\ free_of nl line
    /\ ((b1 = [] /\ sep = []) \/ sep = [nl])
    /\ Forall (fun c => is_whitespace c = true) w1 /\ Forall (fun c => is_whitespace c = true) w2.
Proof.
  intros Hf. destruct (trim_split b) as (w1 & w2 & Hb & Hw1 & Hw2). unfold final_lines in Hf.
  pose proof (last_line_free (trim b)) as Hfree. unfold last_line in Hfree.
  destruct (rsplit_once nl (trim b)) as [[b1 l]|] eqn:Hr; injection Hf as <- <-.
  - apply rsplit_once_Some in Hr. exists w1, b1, [nl], l, w2. rewrite Hb, Hr at 1.
    split_and!; [by rewrite <- !app_assoc|done|done|done|by right|done|done].
  - exists w1, [], [], (trim b), w2. split_and!; auto.
Qed.

(** The end of the script: the last statement, or a command in the last line. *)
Definition Finishes (s : t) (out : list SqlStatementWithControl) : Prop :=
  forall d0 g ss, Reads o idle d0 g ss (custom_delimiter s) -> Boundary o (custom_delimiter s) g ->
    ReadsScript o idle d0 (g ++ buffer s) (ss ++ map sql out).

Lemma finishes_cuts s out : cuts (custom_delimiter s) (map sql out) (buffer s) -> Finishes s out.
Proof. intros Hc d0 g ss Hr _. exists (g ++ buffer s), (custom_delimiter s). split; [by apply reads_cuts|by left]. Qed.

Lemma finishes_line s before last d' :
  options s = o -> final_lines (buffer s) = (before, last) ->
  (forall line, trim line = last -> LineCommand o (custom_delimiter s) line d') -> Finishes s (emit_if_executable before s).
Proof.
  intros Ho Hf Hcmd d0 g ss Hr Hg. destruct (final_lines_split _ _ _ Hf) as (w1 & b1 & sep & line & w2 & -> & -> & -> & Hfree & Hsep & H1 & H2).
  exists (g ++ w1 ++ b1 ++ sep), (custom_delimiter s). split.
  - apply reads_cuts; [done|]. apply cuts_inert; [by apply idle_whitespace|].
    rewrite <- (app_nil_r (map sql _)). apply cuts_app; [by apply cuts_emit_if_executable|].
    apply cuts_of_inert, idle_whitespace. destruct Hsep as [[_ ->] | ->]; by repeat constructor.
  - right. exists line, d', w2. split_and!; [by rewrite <- !app_assoc| |done|by apply Hcmd|done].
    destruct Hsep as [[-> ->] | ->]; [exists g, w1; by rewrite !app_nil_r|]. apply boundary_line_start. rewrite !app_assoc. apply boundary_nl.
Qed.

Lemma finishes_finish_statement s : options s = o -> Finishes s (finish_statement s).
Proof.
  intros Ho. unfold finish_statement.
  match goal with |- context [final_lines (buffer ?x)] => set (s1 := x) end.
  assert (buffer s1 = buffer s /\ options s1 = o /\ custom_delimiter s1 = custom_delimiter s) as (Hb & Ho1 & Hc)
    by (subst s1; by destruct (pending_mysql_line_comment_dashes s)).
  assert (forall out, Finishes s1 out -> Finishes s out) as Hs by (intros out; unfold Finishes; by rewrite Hb, Hc).
  apply Hs. clear Hs Hb Hc. clearbody s1. clear Ho.
  destruct (final_lines (buffer s1)) as [before last] eqn:Hf.
  pose proof (fun d' => finishes_line s1 before last d' Ho1 Hf) as Hcmd. rewrite <- Ho1 in Hcmd.
  destruct (supports_custom_delimiter_commands (prof s1) && _) eqn:Hcd; [|
  destruct (supports_slash_line_block_delimiter (prof s1) && _) eqn:Hsl; [|
  destruct (custom_delimiter s1) as [d|] eqn:Hdel; [destruct (ends_with d (buffer s1)) eqn:He|]]]; simpl.
  - rewrite app_nil_r. apply andb_true_iff in Hcd as [Hp Hcd].
    destruct (parse_delimiter_command last) as [d|] eqn:Hparse; [|done]. eapply Hcmd. intros line Hline.
    apply (delimiter_command_line _ _ _ d); [done|]. apply parse_delimiter_line. by rewrite Hline.
  - rewrite app_nil_r. apply andb_true_iff in Hsl as [Hp Hsl%text_eqb_eq]. eapply Hcmd. intros line Hline.
    apply slash_command_line; [done|congruence].
  - apply ends_with_app in He as [b Hb]. rewrite (take_drop_last_len _ _ _ Hb). apply finishes_cuts. rewrite Hb, Hdel.
    rewrite <- (app_nil_r (map sql _)). apply cuts_app; [|apply (cuts_of_terminator idle (Some d))].
    by apply (cuts_emit_if_executable (set_buffer b s1)).
  - apply finishes_cuts. by apply cuts_emit_if_executable.
  - apply finishes_cuts. by apply cuts_emit_if_executable.
Qed.

(** ** The loop *)

(** The invariant of a run that has consumed [consumed] and emitted [out]. *)
Record Inv (consumed : text) (s : t) (out : list SqlStatementWithControl) : Prop := {
  inv_reads : exists g, consumed = g ++ buffer s /\ Reads o idle None g (map sql out) (custom_delimiter s)
                /\ Boundary o (custom_delimiter s) g;
  inv_options : options s = o;
  inv_psql : pending_psql_command s = None;
  inv_tag : tag_ok s
}.

Lemma inv_init : Inv [] (with_options o) [].
Proof. constructor; [|done..]. exists []. split; [done|]. split; [constructor|by left]. Qed.

Hypothesis no_psql : supports_psql_control_commands (SqlParsingOptions.profile o) = false.

Lemma inv_step inner consumed s out ch rest s' out' n :
  Inv consumed s out -> step inner s ch rest = (s', out', n) -> Inv (consumed ++ ch :: take n rest) s' (out ++ out').
Proof.
  intros [(g & -> & Hr & Hb) Ho Hp Ht]. rewrite step_without_psql by (by unfold prof; rewrite ?Ho).
  intros Hs. eapply emits_sql_step in Hs as [Ha [K1 K2 K4]]; [|done..].
  destruct (Ha None g _ Hr Hb) as (g' & Hg & Hr' & Hb'). constructor; [|congruence..|].
  - exists g'. rewrite map_app. by rewrite <- app_assoc.
  - intros tag Htag. destruct (K4 tag Htag); auto.
Qed.

Lemma inv_push_chunk consumed s out chunk s' out' :
  Inv consumed s out -> push_chunk_with_control s chunk = (s', out') -> Inv (consumed ++ chunk) s' (out ++ out').
Proof.
  intros Hinv Hrun. eapply (scan_loop_invariant _ (consumed ++ chunk) Inv); [|done| |exact Hrun].
  { intros done s1 out1 c rest s2 out2 n _. apply inv_step. }
  destruct Hinv as [He Ho Hp Ht]. unfold resolve_pending_dashes.
  destruct chunk; [done|]. by destruct (pending_mysql_line_comment_dashes s).
Qed.

Lemma inv_push_chunks chunks consumed s out s' out' :
  Inv consumed s out -> push_chunks s chunks = (s', out') -> Inv (consumed ++ concat chunks) s' (out ++ out').
Proof.
  revert consumed s out s' out'. induction chunks as [|c cs IH]; intros consumed s out s' out' Hinv; simpl.
  - intros [= <- <-]. by rewrite !app_nil_r.
  - destruct (push_chunk_with_control s c) as [s1 o1] eqn:H1. destruct (push_chunks s1 cs) as [s2 o2] eqn:H2.
    intros [= <- <-]. rewrite !app_assoc in *. eapply IH; [|exact H2]. by eapply inv_push_chunk.
Qed.

Lemma split_stream_reads chunks : ReadsScript o idle None (concat chunks) (map sql (split_stream o chunks)).
Proof.
  unfold split_stream. destruct (push_chunks (with_options o) chunks) as [s out] eqn:Hrun.
  apply (inv_push_chunks _ [] _ []) in Hrun as [(g & Hg & Hr & Hb) Ho Hp Ht]; [|apply inv_init].
  unfold finish_with_control. rewrite Hp. simpl in *. rewrite Hg, map_app. by apply finishes_finish_statement.
Qed.

(** The same by the grammar, where comments are plain. *)
Lemma split_stream_reads_plain chunks :
  plain_comments (SqlParsingOptions.profile o) (concat chunks) = true ->
  ReadsScript o (Inert (SqlParsingOptions.profile o)) None (concat chunks) (map sql (split_stream o chunks)).
Proof.
  intros Hplain. destruct (split_stream_reads chunks) as (g & d & Hr & Hend). exists g, d. split; [|done].
  eapply reads_mono; [done|]. intros s Hs. apply not_executable_inert. eapply plain_substring; [|done].
  destruct Hend as [->|(line & d' & w & -> & _)]; auto with text.
Qed.

End Operations.

(** ** Every profile, psql commands included *)

Section AnyProfile.

Context `{CharTable} `{OracleTokenizer} (o : SqlParsingOptions.t).

Definition Executable (st : SqlStatementWithControl) : Prop :=
  has_executable_sql_with_options (sql st) o = true /\ trim (sql st) = sql st.

(** The options of a state differ from [o] at most in the psql switch. *)
Definition same_options (o' : SqlParsingOptions.t) : Prop :=
  exists b, o' = SqlParsingOptions.from_profile
                   (set_supports_psql_control_commands b (SqlParsingOptions.profile o)).

Definition Sane (s : t) : Prop := same_options (options s) /\ tag_ok s.

(** A recursive call that keeps states sane and emits executable statements. *)
Definition GoodRun (run : t -> text -> t * list SqlStatementWithControl) : Prop :=
  forall s chunk s' out, Sane s -> run s chunk = (s', out) -> Sane s' /\ Forall Executable out.

Lemma same_options_refl : same_options o.
Proof. exists (supports_psql_control_commands (SqlParsingOptions.profile o)). by destruct o as [[]]. Qed.

Lemma same_options_set b p :
  same_options (SqlParsingOptions.from_profile p) ->
  same_options (SqlParsingOptions.from_profile (set_supports_psql_control_commands b p)).
Proof. intros [b' [= ->]]. by exists b. Qed.

Lemma statements_executable o' ss :
  same_options o' -> Forall (fun s => ~ idle o' s /\ trim s = s) (map sql ss) -> Forall Executable ss.
Proof.
  intros [b' ->] Hc. rewrite Forall_map in Hc. eapply Forall_impl; [exact Hc|]. intros st [Hx Ht]. split; [|done].
  apply not_false_is_true. intros Hfalse. apply Hx. unfold idle. rewrite <- Hfalse. by apply has_executable_sql_ext.
Qed.

Lemma sane_sql_step s ch rest s' out n :
  Sane s -> sql_step s ch rest = (s', out, n) -> Sane s' /\ Forall Executable out.
Proof.
  intros [Hs Ht] Hstep. eapply (emits_sql_step (options s)) in Hstep as [He [K1 K2 K4]]; [|done..]. split.
  - split; [by rewrite K1|]. intros tag Htag. destruct (K4 tag Htag); auto.
  - destruct (He (custom_delimiter s) [] []) as (g & _ & Hr & _); [constructor|by left|].
    eapply statements_executable; [done|]. by eapply reads_statements.
Qed.

Lemma sane_finish_psql_command inner command s s' out :
  GoodRun inner -> Sane s -> finish_psql_command inner command s = (s', out) ->
  Sane s' /\ Forall Executable out.
Proof.
  intros Hinner [Hs Ht]. unfold finish_psql_command.
  destruct (parse_ignorable_psql_control_command _); [by intros [= <- <-]|].
  destruct (inner _ command) as [s1 out1] eqn:Hi. intros [= <- <-].
  apply Hinner in Hi as [[Hs1 Ht1] Hout].
  - split; [|done]. split; [|done]. simpl. apply same_options_set. unfold prof. by destruct (options s1).
  - split; [|done]. simpl. apply same_options_set. unfold prof. simpl. by destruct (options s).
Qed.

Lemma sane_step inner s ch rest s' out n :
  GoodRun inner -> Sane s -> step inner s ch rest = (s', out, n) -> Sane s' /\ Forall Executable out.
Proof.
  intros Hinner Hs. unfold step. destruct (pending_psql_command s) as [command|].
  - destruct (ch =? nl)%N; [|by intros [= <- <- <-]].
    destruct (finish_psql_command inner _ s) as [s1 o1] eqn:Hf. intros [= <- <- <-].
    by eapply sane_finish_psql_command.
  - destruct (_ && is_empty _); [by intros [= <- <- <-]|]. by apply sane_sql_step.
Qed.

Lemma sane_scan inner chunk s s' out :
  GoodRun inner -> Sane s -> scan_loop (step inner) (resolve_pending_dashes chunk s) 0 chunk = (s', out) ->
  Sane s' /\ Forall Executable out.
Proof.
  intros Hinner Hs Hrun.
  eapply (scan_loop_invariant _ chunk (fun _ s out => Sane s /\ Forall Executable out) _ chunk [] _ [])
    in Hrun; [exact Hrun|reflexivity|].
  split; [|done]. unfold resolve_pending_dashes.
  destruct chunk; [done|]. by destruct (pending_mysql_line_comment_dashes s).
  Unshelve. intros done s1 out1 c rest s2 out2 n _ [H1 H2] Hstep.
  eapply sane_step in Hstep as [H3 H4]; [|done..]. split; [done|]. by apply Forall_app.
Qed.

Lemma sane_push_chunk_nested nesting : GoodRun (push_chunk_nested nesting).
Proof.
  induction nesting as [|n IH]; intros s chunk s' out Hs Hrun; simpl in Hrun;
    (eapply sane_scan; [|exact Hs|exact Hrun]); [|exact IH].
  by intros s1 c1 s2 o2 H1 [= <- <-].
Qed.

Lemma sane_push_chunks chunks s s' out :
  Sane s -> push_chunks s chunks = (s', out) -> Sane s' /\ Forall Executable out.
Proof.
  revert s s' out. induction chunks as [|c cs IH]; intros s s' out Hs; simpl; [by intros [= <- <-]|].
  destruct (push_chunk_with_control s c) as [s1 o1] eqn:H1. destruct (push_chunks s1 cs) as [s2 o2] eqn:H2.
  intros [= <- <-]. apply (sane_push_chunk_nested 1) in H1 as [Hs1 Ho1]; [|done].
  apply IH in H2 as [Hs2 Ho2]; [|done]. split; [done|]. by apply Forall_app.
Qed.

Lemma finish_statements_executable s o' :
  options s = o' -> Forall (fun s => ~ idle o' s /\ trim s = s) (map sql (finish_statement s)).
Proof.
  intros Ho. destruct (finishes_finish_statement o' s Ho (custom_delimiter s) [] []) as (g & d & Hr & _); [constructor|by left|].
  by eapply reads_statements.
Qed.

Lemma executable_finish s : Sane s -> Forall Executable (finish_with_control s).
Proof.
  intros Hs. unfold finish_with_control.
  destruct (match pending_psql_command s with Some _ => _ | None => _ end) as [s1 o1] eqn:Hp.
  assert (Sane s1 /\ Forall Executable o1) as [Hs1 Ho1].
  { destruct (pending_psql_command s); [|by simplify_eq].
    eapply sane_finish_psql_command; [apply (sane_push_chunk_nested 0)|done|done]. }
  apply Forall_app. split; [done|]. eapply statements_executable; [by destruct Hs1|]. by apply finish_statements_executable.
Qed.

Lemma split_stream_executable chunks : Forall Executable (split_stream o chunks).
Proof.
  unfold split_stream. destruct (push_chunks (with_options o) chunks) as [s out] eqn:Hrun.
  apply sane_push_chunks in Hrun as [Hs Ho]; [|split; [apply same_options_refl|done]].
  apply Forall_app. split; [done|]. by apply executable_finish.
Qed.

End AnyProfile.
