(* ===== verification/RangesFacts.v ===== *)
(** * RangesFacts: statement ranges tile the text.

    [Tiles o separator pos s ranges] cuts a text that starts at position [pos]
    into segments, each handed to [push_statement_range], and separators that
    are dropped.  Every iteration of the loop extends a tiling ([Moves]); order,
    disjointness and the exactness of the slices follow from the tiling alone.
    [line_safe] is the condition under which the slice up to the start of the
    current line is not taken backwards. *)

From stdpp Require Import sets.
From S2P Require Import Prelude DbTypes Dialect Lexis MysqlRoutine TSqlFlow PlSql Splitter SplitterFacts.
From S2P Require Import Scanner ScannerFacts Ranges.
Import SqlDialectProfile.

(** ** The range of a segment *)

Lemma trim_end_prefix s : exists w, s = trim_end s ++ w /\ Forall (fun c => is_whitespace c = true) w.
Proof.
  destruct (drop_while_split is_whitespace (rev s)) as (w & Hw & Hf). exists (rev w). split.
  - unfold trim_end. rewrite <- rev_app_distr, <- Hw. by rewrite rev_involutive.
  - by apply Forall_rev.
Qed.

Lemma trim_end_idemp s : trim_end (trim_end s) = trim_end s.
Proof. unfold trim_end. by rewrite rev_involutive, drop_while_idemp. Qed.

(** A suffix of a text that ends with a black character ends with it too. *)
Lemma trim_end_drop n s : trim_end s = s -> n < length s -> trim_end (drop n s) = drop n s.
Proof.
  intros Hs Hn. destruct (trim_end_prefix (drop n s)) as (w & Hw & Hf).
  destruct w as [|c w _] using rev_ind; [by rewrite app_nil_r in Hw|].
  exfalso. apply Forall_app in Hf as [_ Hf]. apply Forall_cons in Hf as [Hc _].
  rewrite <- (take_drop n s), Hw, !app_assoc in Hs. unfold trim_end in Hs.
  rewrite !rev_app_distr in Hs. cbn [rev app drop_while] in Hs. rewrite Hc in Hs.
  apply (f_equal length) in Hs. rewrite !length_app, !length_rev in Hs.
  match type of Hs with context [length (drop_while ?p ?l)] =>
    pose proof (suffix_length _ _ (drop_while_suffix p l)) as Hle end.
  rewrite !length_app, !length_rev in Hle. cbn in Hs. lia.
Qed.

Lemma leads_to_at_sql o s r : LeadsTo o s r -> at_sql o r.
Proof. by induction 1. Qed.

Lemma leading_executable_at_sql o s : at_sql o (leading_executable_sql_with_options s o).
Proof. eapply leads_to_at_sql, leading_fuel_leads. done. Qed.

Lemma leading_directive_start_le statement n start :
  leading_directive_start statement n = Some start -> start <= n /\ n <= length statement.
Proof.
  unfold leading_directive_start. destruct (length statement <? n) eqn:Hn; [done|].
  apply Nat.ltb_ge in Hn. set (prefix := take n statement).
  assert (length prefix = n) as Hp by (unfold prefix; rewrite length_take; lia).
  set (line_start := length _). assert (line_start <= n) as Hl.
  { unfold line_start. etrans; [apply suffix_length, drop_while_suffix|]. by rewrite length_rev, Hp. }
  assert (length (drop line_start prefix) = n - line_start) as Hd by (rewrite length_drop; lia).
  case_match.
  - intros [= <-]. lia.
  - case_match; [|done]. intros [= <-].
    destruct (trim_end_prefix prefix) as (w & Hw & _). apply (f_equal length) in Hw. rewrite length_app in Hw. lia.
Qed.

(** What a range says about the segment [seg] that starts at [pos]. *)
Record range_of (o : SqlParsingOptions.t) (pos : nat) (seg : text) (r : SqlStatementRange) : Prop := {
  ro_start : pos <= range_start r;
  ro_lt : range_start r < range_end r;
  ro_end : range_end r <= pos + length seg;
  ro_text : range_text r = drop (range_start r - pos) (take (range_end r - pos) seg);
  ro_trimmed : trim_end (range_text r) = range_text r;
  ro_at_sql : preserves_tdsql_leading_directives (SqlParsingOptions.profile o) = false -> at_sql o (range_text r)
}.

Lemma push_statement_range_of o pos seg :
  push_statement_range o pos seg = [] \/ exists r, push_statement_range o pos seg = [r] /\ range_of o pos seg r.
Proof.
  unfold push_statement_range, executable_sql_bounds.
  destruct (trim_end_prefix seg) as (w & Hseg & _). set (trimmed := trim_end seg) in *.
  destruct (leading_executable_sql_suffix o trimmed) as [skipped Hs].
  pose proof (leading_executable_at_sql o trimmed) as Hat.
  set (executable := leading_executable_sql_with_options trimmed o) in *.
  destruct (is_empty executable) eqn:He; [by left|].
  assert (executable <> []) as Hne by (by intros ->). assert (0 < length executable) as Hpos by (destruct executable; [done|cbn; lia]).
  assert (length trimmed = length skipped + length executable) as Hlen by (by rewrite Hs, length_app).
  set (start := if preserves_tdsql_leading_directives _ then _ else _).
  assert (start <= length skipped) as Hstart.
  { unfold start. destruct (preserves_tdsql_leading_directives _); [|lia].
    destruct (leading_directive_start _ _) as [n|] eqn:Hn; cbn; [|lia]. apply leading_directive_start_le in Hn. lia. }
  assert (take (length trimmed) seg = trimmed) as Htake by (rewrite Hseg at 1; by rewrite take_app_length).
  rewrite Htake. destruct (is_empty (drop start trimmed)) eqn:Hd; [by left|]. right. eexists. split; [done|].
  apply (f_equal length) in Hseg as Hl. rewrite length_app in Hl.
  constructor; cbn [range_start range_end range_text]; [lia..| | |].
  - replace (pos + length trimmed - pos) with (length trimmed) by lia. by rewrite Nat.add_comm, Nat.add_sub, Htake.
  - apply trim_end_drop; [apply trim_end_idemp|lia].
  - intros Hp. unfold start. rewrite Hp.
    replace (length trimmed - length executable) with (length skipped) by lia. by rewrite Hs, drop_app_length.
Qed.

(** ** Tilings *)

(** What may stand between two statements: a semicolon, a declared delimiter, a
    line that is blank, [/] or a [DELIMITER] command (with text that holds no SQL
    before it). *)
Inductive Separator (o : SqlParsingOptions.t) (declared : text -> Prop) : text -> Prop :=
| sep_semicolon blanks : Forall (fun c => is_whitespace c = true) blanks -> Separator o declared (blanks ++ [semi])
| sep_declared d : declared d -> Separator o declared d
| sep_line inert line :
    has_executable_sql_with_options inert o = false ->
    trim line = [] \/ trim line = [slash] \/ is_Some (parse_delimiter_command (trim line)) ->
    Separator o declared (inert ++ line).

Section Tiling.

Context (o : SqlParsingOptions.t) (separator : text -> Prop).

Inductive Tiles : nat -> text -> list SqlStatementRange -> Prop :=
| tiles_nil pos : Tiles pos [] []
| tiles_segment pos seg rest ranges :
    Tiles (pos + length seg) rest ranges -> Tiles pos (seg ++ rest) (push_statement_range o pos seg ++ ranges)
| tiles_separator pos sep rest ranges :
    separator sep -> Tiles (pos + length sep) rest ranges -> Tiles pos (sep ++ rest) ranges.

Lemma tiles_app pos a ra b rb : Tiles pos a ra -> Tiles (pos + length a) b rb -> Tiles pos (a ++ b) (ra ++ rb).
Proof.
  induction 1 as [|pos seg rest ranges _ IH|pos sep rest ranges Hsep _ IH]; intros Hb; cbn [app].
  - cbn in Hb. by rewrite Nat.add_0_r in Hb.
  - rewrite <- !app_assoc. apply tiles_segment, IH. by rewrite length_app, Nat.add_assoc in Hb.
  - rewrite <- app_assoc. apply tiles_separator, IH; [done|]. by rewrite length_app, Nat.add_assoc in Hb.
Qed.

Lemma tiles_one pos seg : Tiles pos seg (push_statement_range o pos seg).
Proof. rewrite <- (app_nil_r seg) at 1. rewrite <- (app_nil_r (push_statement_range _ _ _)). apply tiles_segment, tiles_nil. Qed.

Lemma tiles_dropped pos sep : separator sep -> Tiles pos sep [].
Proof. intros Hs. rewrite <- (app_nil_r sep). apply tiles_separator; [done|]. apply tiles_nil. Qed.

Lemma tiles_then pos seg sep ranges : Tiles pos seg ranges -> separator sep -> Tiles pos (seg ++ sep) ranges.
Proof. intros Ht Hs. rewrite <- (app_nil_r ranges). eapply tiles_app; [done|]. by apply tiles_dropped. Qed.

(** Every range is a non-empty part of the tiled text. *)
Lemma tiles_piece pos s ranges r :
  Tiles pos s ranges -> r ∈ ranges -> range_text r <> [] /\ substring_of (range_text r) s.
Proof.
  induction 1 as [|pos seg rest ranges _ IH|pos sep rest ranges _ _ IH]; intros Hr.
  - by apply not_elem_of_nil in Hr.
  - destruct (push_statement_range_of o pos seg) as [Hp|(r' & Hp & [H1 H2 H3 H4 _ _])]; rewrite Hp in Hr.
    { split; [by apply IH|]. by apply substring_app_r, IH. }
    cbn [app] in Hr. apply elem_of_cons in Hr as [->|Hr];
      [|split; [by apply IH|]; by apply substring_app_r, IH].
    split.
    + rewrite H4. intros Hnil%(f_equal length). rewrite length_drop, length_take in Hnil. cbn in Hnil. lia.
    + rewrite H4. apply substring_app_l. exists (take (range_start r' - pos) (take (range_end r' - pos) seg)),
        (drop (range_end r' - pos) seg). by rewrite app_assoc, !take_drop.
  - split; [by apply IH|]. by apply substring_app_r, IH.
Qed.

(** Ranges in order, without overlap, each the slice of [sql] it names. *)
Inductive Ordered (sql : text) : nat -> list SqlStatementRange -> Prop :=
| ordered_nil lo : Ordered sql lo []
| ordered_cons lo r ranges :
    lo <= range_start r -> range_start r < range_end r ->
    slice_text sql (range_start r) (range_end r) = Returns (range_text r) ->
    trim_end (range_text r) = range_text r ->
    (preserves_tdsql_leading_directives (SqlParsingOptions.profile o) = false -> at_sql o (range_text r)) ->
    Ordered sql (range_end r) ranges -> Ordered sql lo (r :: ranges).

Lemma ordered_weaken sql lo lo' ranges : lo' <= lo -> Ordered sql lo ranges -> Ordered sql lo' ranges.
Proof. intros Hle Ho. destruct Ho; constructor; [lia|done..]. Qed.

Lemma tiles_ordered before s ranges :
  forall pos, Tiles pos s ranges -> pos = length before -> Ordered (before ++ s) pos ranges.
Proof.
  intros pos Ht. revert before. induction Ht as [|pos seg rest ranges _ IH|pos sep rest ranges _ _ IH]; intros before ->.
  - constructor.
  - specialize (IH (before ++ seg)). rewrite <- app_assoc, length_app in IH. specialize (IH eq_refl).
    destruct (push_statement_range_of o (length before) seg) as [->|(r & -> & [H1 H2 H3 H4 H5 H6])]; cbn [app].
    { eapply ordered_weaken; [|done]. lia. }
    constructor; [done..| |done|done|eapply ordered_weaken; [|exact IH]; lia].
    unfold slice_text. rewrite !length_app.
    replace (range_start r <=? range_end r) with true by (symmetry; apply Nat.leb_le; lia).
    replace (range_end r <=? _) with true by (symmetry; apply Nat.leb_le; lia). cbn [andb]. f_equal.
    rewrite take_app_ge, take_app_le by lia. rewrite drop_app_ge by lia. by rewrite H4.
  - specialize (IH (before ++ sep)). rewrite <- app_assoc, length_app in IH.
    eapply ordered_weaken; [|by apply IH]. lia.
Qed.

End Tiling.

(** ** One iteration *)

Import StatementRanges.

Lemma current_length s : length (current s) = length (before s) - start s.
Proof. apply length_drop. Qed.

Section Iteration.

Context `{CharTable} `{OracleTokenizer}.
Context (o : SqlParsingOptions.t) (declared : text -> Prop).
Abbreviation prof := (SqlParsingOptions.profile o).
Abbreviation tiles := (Tiles o (Separator o declared)).

(** The line that the newline at the current position ends is a command. *)
Definition delimiter_line (s : t) (d : text) : Prop :=
  supports_custom_delimiter_commands prof = true /\ parse_delimiter_command (trim (last_line (before s))) = Some d.

(** Reading [ch] in [s] pushed [out] and moved to [s']: the text between the two
    statement starts is tiled by [out]. *)
Record Moves (s : t) (ch : char) (s' : t) (out : list SqlStatementRange) : Prop := {
  mv_before : before s' = before s;
  mv_ge : start s <= start s';
  mv_le : start s' <= S (length (before s));
  mv_tiles : tiles (start s) (take (start s' - start s) (current s ++ [ch])) out;
  mv_why : start s' = start s \/ ch = semi \/ (ch = nl /\ start s' = S (length (before s)))
           \/ is_Some (custom_delimiter s);
  mv_delimiter : custom_delimiter s' = custom_delimiter s
                 \/ ch = nl /\ exists d, delimiter_line s d
                    /\ (custom_delimiter s' = None \/ custom_delimiter s' = Some d)
}.

Lemma moves_stay s ch s' :
  start s <= length (before s) -> before s' = before s -> start s' = start s ->
  custom_delimiter s' = custom_delimiter s -> Moves s ch s' [].
Proof.
  intros Hle Hb Hs Hd. constructor; [done|lia|lia| |by left|by left].
  rewrite Hs, Nat.sub_diag. apply tiles_nil.
Qed.

Lemma moves_restart s ch s' out :
  start s <= length (before s) -> before s' = before s -> start s' = S (length (before s)) ->
  custom_delimiter s' = custom_delimiter s ->
  ch = semi \/ ch = nl \/ is_Some (custom_delimiter s) ->
  tiles (start s) (current s ++ [ch]) out -> Moves s ch s' out.
Proof.
  intros Hle Hb Hs Hd Hwhy Ht. constructor; [done|lia|lia| |destruct Hwhy as [?|[?|?]]; by auto|by left].
  rewrite take_ge; [done|]. rewrite length_app, current_length. cbn. lia.
Qed.

Lemma piece_ranges_tiles pos pieces : tiles pos (concat pieces) (piece_ranges o pos pieces).
Proof.
  revert pos. induction pieces as [|piece rest IH]; intros pos; cbn; [apply tiles_nil|]. apply tiles_segment, IH.
Qed.

Lemma separator_semi : Separator o declared [semi].
Proof. by apply (sep_semicolon o declared []). Qed.

Lemma tiles_body_semi pos body ranges : tiles pos body ranges -> tiles pos (body ++ [semi]) ranges.
Proof. intros Ht. apply tiles_then; [done|apply separator_semi]. Qed.

Lemma moves_sqlserver_batch s s' out :
  start s <= length (before s) -> on_sqlserver_batch o s = (s', out) -> Moves s semi s' out.
Proof.
  intros Hle. unfold on_sqlserver_batch. case_match; [intros [= <- <-]; by apply moves_stay|].
  destruct (SqlStatementSplitter.batch_pieces _ _) as [pieces trailing] eqn:Hp. apply batch_pieces_concat in Hp.
  assert (forall out', tiles (start s) (current s ++ [semi]) out' -> Moves s semi (restart (S (length (before s))) s) out')
    as Hmove by (intros out' Ht; apply moves_restart; [done..|by left|done]).
  destruct (is_empty pieces); [intros [= <- <-]; apply Hmove, tiles_one|].
  pose proof (piece_ranges_tiles (start s) pieces) as Hpieces.
  destruct (is_empty (trim trailing)) eqn:Ht.
  { intros [= <- <-]. apply Hmove. rewrite Hp, <- app_assoc. apply tiles_then; [done|].
    apply sep_semicolon, trim_nil_whitespace. by apply is_empty_nil. }
  destruct (keeps_sqlserver_control_flow_batch o trailing); [destruct (sqlserver_control_flow_batch_is_complete trailing)|].
  - intros [= <- <-]. apply Hmove. rewrite Hp, <- app_assoc. apply tiles_app; [done|]. apply tiles_one.
  - intros [= <- <-].
    apply (f_equal length) in Hp as Hlen. rewrite current_length, length_app in Hlen.
    constructor; cbn [set_start before start custom_delimiter]; [done|lia|lia| |by right; left|by left].
    rewrite Nat.add_comm, Nat.add_sub, Hp, <- app_assoc, take_app_length. apply Hpieces.
  - intros [= <- <-]. apply Hmove. rewrite Hp, <- app_assoc. apply tiles_app; [done|]. apply tiles_body_semi, tiles_one.
Qed.

Lemma moves_frame s0 s ch s' out :
  before s = before s0 -> start s = start s0 -> custom_delimiter s = custom_delimiter s0 ->
  Moves s ch s' out -> Moves s0 ch s' out.
Proof.
  intros Hb Hs Hd [M1 M2 M3 M4 M5 M6]. unfold current, delimiter_line in *. rewrite Hb, Hs, Hd in *. by constructor.
Qed.

Lemma moves_on_semicolon s s' out :
  start s <= length (before s) -> on_semicolon o s = (s', out) -> Moves s semi s' out.
Proof.
  intros Hle. unfold on_semicolon.
  assert (forall s1 out', before s1 = before s -> start s1 = start s -> custom_delimiter s1 = custom_delimiter s ->
    tiles (start s) (current s ++ [semi]) out' -> Moves s semi (restart (S (length (before s))) s1) out') as Hmove.
  { intros s1 out' Hb Hs Hd Ht. apply moves_restart; [done..|by left|done]. }
  destruct (_ && starts_with_mysql_routine_block _).
  { case_match; intros [= <- <-]; [|by apply moves_stay]. apply Hmove; [done..|]. apply tiles_body_semi, tiles_one. }
  set (s1 := if oracle_block_start s =? start s then s else _).
  assert (before s1 = before s /\ start s1 = start s /\ custom_delimiter s1 = custom_delimiter s) as (Hb1 & Hs1 & Hd1)
    by (unfold s1; by case_match).
  destruct (if postgres_dollar_quoted_routine s1 then _ else _) as [kept s2] eqn:Hk.
  assert (before s2 = before s /\ start s2 = start s /\ custom_delimiter s2 = custom_delimiter s) as (Hb2 & Hs2 & Hd2).
  { destruct (postgres_dollar_quoted_routine s1); [by simplify_eq|].
    destruct (OraclePlSqlBlockTracker.keeps_block_together _ _ _). by simplify_eq. }
  clearbody s1. clear Hk.
  assert (forall (complete : bool) s3 r, before s3 = before s -> start s3 = start s ->
    custom_delimiter s3 = custom_delimiter s ->
    (if complete then (restart (S (length (before s))) s3, push_statement_range o (start s) (current s ++ [semi]))
     else (s3, [])) = r -> Moves s semi r.1 r.2) as Hkeep.
  { intros complete s3 r Hb3 Hs3 Hd3 <-. destruct complete; cbn [fst snd].
    - apply Hmove; [done..|]. apply tiles_one.
    - by apply moves_stay. }
  destruct kept.
  { destruct (OraclePlSqlBlockTracker.is_complete _ _) as [complete tracker].
    intros Hr. apply (Hkeep complete (set_oracle tracker (oracle_block_start s2) s2) (s', out)); [done..|].
    cbn [set_oracle start] in Hr. by rewrite Hs2 in Hr. }
  rewrite Hs2.
  destruct (_ && starts_with_hana_script_block _); [intros Hr; by eapply (Hkeep _ s2 (s', out))|].
  destruct (_ && starts_with_firebird_routine_block _); [intros Hr; by eapply (Hkeep _ s2 (s', out))|].
  destruct (keeps_sqlserver_control_flow_batch _ _).
  { intros Hr. apply (moves_frame s s2); [done..|]. apply moves_sqlserver_batch; [by rewrite Hb2, Hs2|done]. }
  intros [= <- <-]. apply Hmove; [done..|]. apply tiles_body_semi, tiles_one.
Qed.

Lemma moves_match_char ch s s' out :
  start s <= length (before s) -> (forall d, custom_delimiter s = Some d -> declared d) ->
  match_char o ch s = (s', out) -> Moves s ch s' out.
Proof.
  intros Hle Hdecl. unfold match_char.
  destruct ((ch =? squote)%N && _); [intros [= <- <-]; by apply moves_stay|].
  destruct ((ch =? dquote)%N && _); [intros [= <- <-]; by apply moves_stay|].
  destruct ((ch =? backtick)%N && _ && _ && _); [intros [= <- <-]; by apply moves_stay|].
  destruct ((ch =? semi)%N && _) eqn:Hsemi.
  { apply andb_true_iff in Hsemi as [->%N.eqb_eq _]. by apply moves_on_semicolon. }
  destruct (outside_quotes s); [|intros [= <- <-]; by apply moves_stay].
  destruct (custom_delimiter s) as [d|] eqn:Hd; [|intros [= <- <-]; by apply moves_stay].
  destruct (ends_with d _ && _) eqn:Hends; [|intros [= <- <-]; by apply moves_stay].
  apply andb_true_iff in Hends as [[b Hb]%ends_with_app _]. intros [= <- <-].
  apply moves_restart; [done..|by right; right; rewrite Hd|].
  rewrite (take_drop_last_len _ d b) by done. rewrite Hb. apply tiles_then; [apply tiles_one|]. by apply sep_declared, Hdecl.
Qed.

Lemma slice_text_Returns sql a b slice :
  slice_text sql a b = Returns slice -> a <= b /\ b <= length sql /\ slice = drop a (take b sql).
Proof.
  unfold slice_text. destruct ((a <=? b) && (b <=? length sql)) eqn:Hc; [|done].
  apply andb_true_iff in Hc as [Ha%Nat.leb_le Hb%Nat.leb_le]. by intros [= <-].
Qed.

(** The statement text in front of the current line. *)
Lemma current_line_split s slice :
  slice_text (before s) (start s) (length (before_last_line (before s))) = Returns slice ->
  current s = slice ++ last_line (before s).
Proof.
  intros (Hle & _ & ->)%slice_text_Returns. unfold current. rewrite (last_line_split (before s)) at 1 3.
  rewrite take_app_length. by rewrite drop_app_le.
Qed.

Lemma trim_snoc_nl s : trim (s ++ [nl]) = trim s.
Proof.
  unfold trim, trim_start. induction s as [|c s IH]; cbn [app drop_while]; [done|].
  destruct (is_whitespace c); [apply IH|]. unfold trim_end.
  change (c :: s ++ [nl]) with ((c :: s) ++ [nl]). by rewrite rev_app_distr.
Qed.

Lemma moves_on_newline s s' out :
  start s <= length (before s) -> on_newline o s = Returns (Some (s', out)) -> Moves s nl s' out.
Proof.
  intros Hle. unfold on_newline. destruct (_ && text_eqb _ _) eqn:Hslash.
  - apply andb_true_iff in Hslash as [_ Hslash%text_eqb_eq].
    destruct (slice_text _ _ _) as [slice| |] eqn:Hslice; cbn [outcome_bind]; [|done..]. intros [= <- <-].
    apply moves_restart; [done..|by right; left|].
    apply current_line_split in Hslice as ->. rewrite <- app_assoc. apply tiles_then; [apply tiles_one|].
    apply (sep_line o declared []); [done|]. right; left. by rewrite trim_snoc_nl.
  - destruct (supports_custom_delimiter_commands _) eqn:Hcustom; [|done].
    destruct (parse_delimiter_command _) as [d|] eqn:Hparse; [|done].
    destruct (slice_text _ _ _) as [slice| |] eqn:Hslice; cbn [outcome_bind]; [|done..].
    destruct (has_executable_sql_with_options slice o) eqn:Hx; [done|]. intros [= <- <-].
    assert (tiles (start s) (current s ++ [nl])
      (if has_executable_sql_with_options (trim slice) o then push_statement_range o (start s) slice else [])) as Ht.
    { apply current_line_split in Hslice as ->. rewrite <- app_assoc.
      assert (is_Some (parse_delimiter_command (trim (last_line (before s) ++ [nl])))) as Hline
        by (rewrite trim_snoc_nl; by rewrite Hparse).
      case_match; [|apply tiles_dropped, sep_line; by auto].
      apply tiles_then; [apply tiles_one|]. apply (sep_line o declared []); by auto. }
    constructor; cbn [restart set_dollar set_start set_delimiter before start custom_delimiter]; [done|lia|lia| | |].
    + rewrite take_ge; [done|]. rewrite length_app, current_length. cbn. lia.
    + by auto.
    + right. split; [done|]. exists d. split; [done|]. destruct (text_eqb d [semi]); by auto.
Qed.

Lemma open_construct_frame ch rest s s' n :
  open_construct o ch rest s = Some (s', n) ->
  before s' = before s /\ start s' = start s /\ custom_delimiter s' = custom_delimiter s.
Proof. unfold open_construct. repeat case_match; by intros [= <- <-]. Qed.

Lemma moves_step ch rest s s' out n :
  start s <= length (before s) -> (forall d, custom_delimiter s = Some d -> declared d) ->
  step o s ch rest = Returns (s', out, n) -> Moves s ch s' out.
Proof.
  intros Hle Hdecl. unfold step.
  destruct (dollar_quote_tag s); [case_match; intros [= <- <- <-]; by apply moves_stay|].
  destruct (in_line_comment s); [intros [= <- <- <-]; by apply moves_stay|].
  destruct (0 <? block_comment_depth s); [repeat case_match; intros [= <- <- <-]; by apply moves_stay|].
  assert ((let '(s', out) := match_char o ch s in Returns (s', out, 0)) = Returns (s', out, n) -> Moves s ch s' out) as Hplain.
  { destruct (match_char o ch s) as [s1 o1] eqn:Hm. intros [= -> -> <-]. by apply moves_match_char. }
  destruct (outside_quotes s); [|done].
  destruct (open_construct o ch rest s) as [[s1 n1]|] eqn:Hopen.
  { apply open_construct_frame in Hopen as (Hb & Hs & Hd). intros [= <- <- <-]. by apply moves_stay. }
  destruct (N.eqb_spec ch nl) as [->|]; [|done].
  destruct (on_newline o s) as [[[s1 o1]|]| |] eqn:Hn; cbn [outcome_bind]; [|done..].
  intros [= <- <- <-]. by apply moves_on_newline.
Qed.

End Iteration.

(** ** Lines *)

Lemma rsplit_once_app c a b :
  rsplit_once c (a ++ b)
  = match rsplit_once c b with
    | Some (x, y) => Some (a ++ x, y)
    | None => prod_map id (fun y => y ++ b) <$> rsplit_once c a
    end.
Proof.
  induction a as [|z a IH]; cbn [app rsplit_once].
  - destruct (rsplit_once c b) as [[x y]|]; done.
  - rewrite IH. destruct (rsplit_once c b) as [[x y]|]; [done|].
    destruct (rsplit_once c a) as [[x y]|]; cbn; [done|]. by destruct (z =? c)%N.
Qed.

Lemma rsplit_once_None c s : rsplit_once c s = None <-> c ∉ s.
Proof.
  induction s as [|x s IH]; cbn; [set_solver|].
  destruct (rsplit_once c s) as [[a b]|] eqn:Hs.
  - apply rsplit_once_Some in Hs as ->. split; [done|]. set_solver.
  - destruct (N.eqb_spec x c) as [->|Hx]; set_solver.
Qed.

Lemma rsplit_once_last c s a b : rsplit_once c s = Some (a, b) -> c ∉ b.
Proof.
  revert a b. induction s as [|x s IH]; intros a b; cbn; [done|].
  destruct (rsplit_once c s) as [[a' b']|] eqn:Hs; [intros [= <- <-]; by eapply IH|].
  destruct (x =? c)%N; [|done]. intros [= <- <-]. by apply rsplit_once_None.
Qed.

Lemma last_line_app a b : last_line (a ++ b) = if decide (nl ∈ b) then last_line b else last_line a ++ b.
Proof.
  unfold last_line. rewrite rsplit_once_app. destruct (rsplit_once nl b) as [[x y]|] eqn:Hb.
  - apply rsplit_once_Some in Hb as ->. rewrite decide_True by set_solver. done.
  - apply rsplit_once_None in Hb. rewrite decide_False by done. by destruct (rsplit_once nl a) as [[x y]|].
Qed.

Lemma before_last_line_app a b :
  before_last_line (a ++ b) = if decide (nl ∈ b) then a ++ before_last_line b else before_last_line a.
Proof.
  unfold before_last_line. rewrite rsplit_once_app. destruct (rsplit_once nl b) as [[x y]|] eqn:Hb.
  - apply rsplit_once_Some in Hb as ->. rewrite decide_True by set_solver. by rewrite app_assoc.
  - apply rsplit_once_None in Hb. rewrite decide_False by done. by destruct (rsplit_once nl a) as [[x y]|].
Qed.

Abbreviation whites w := (Forall (fun c => is_whitespace c = true) w).

Lemma drop_while_app_all {A} (p : A -> bool) w s : Forall (fun c => p c = true) w -> drop_while p (w ++ s) = drop_while p s.
Proof. induction 1 as [|c w Hc _ IH]; cbn; [done|]. by rewrite Hc. Qed.

Lemma drop_while_app_stop {A} (p : A -> bool) s w : drop_while p s <> [] -> drop_while p (s ++ w) = drop_while p s ++ w.
Proof. induction s as [|c s IH]; cbn; [done|]. destruct (p c); [done|]. done. Qed.

Lemma trim_whites_l w s : whites w -> trim (w ++ s) = trim s.
Proof. intros Hw. unfold trim, trim_start. by rewrite drop_while_app_all. Qed.

Lemma trim_whites w : whites w -> trim w = [].
Proof. intros Hw. rewrite <- (app_nil_r w). by rewrite trim_whites_l. Qed.

Lemma trim_whites_r s w : whites w -> trim (s ++ w) = trim s.
Proof.
  intros Hw. unfold trim, trim_start. destruct (drop_while is_whitespace s) as [|c s'] eqn:Hs.
  - destruct (drop_while_split is_whitespace s) as (pre & Hp & Hf). rewrite Hs, app_nil_r in Hp. subst pre.
    rewrite drop_while_app_all by done. destruct (drop_while_split is_whitespace w) as (pre & Hp & Hf').
    rewrite Hp in Hw. apply Forall_app in Hw as [_ Hw].
    destruct (drop_while is_whitespace w) as [|c w'] eqn:Hd; [done|].
    apply drop_while_head in Hd. apply Forall_cons in Hw as [Hc _]. congruence.
  - rewrite drop_while_app_stop by (by rewrite Hs). rewrite Hs. unfold trim_end.
    rewrite rev_app_distr, drop_while_app_all by (by apply Forall_rev). done.
Qed.

(** The last line of a text, blanks aside, is blank or the last line of its
    trimmed form. *)
Lemma last_line_trim s : trim (last_line s) = [] \/ trim (last_line s) = trim (last_line (trim s)).
Proof.
  destruct (trim_split s) as (w1 & w2 & Hs & H1 & H2). rewrite Hs at 1 2. rewrite app_assoc, last_line_app.
  destruct (decide (nl ∈ w2)) as [Hnl|Hnl].
  { left. apply trim_whites. rewrite (last_line_split w2) in H2. by apply Forall_app in H2 as [_ ?]. }
  right. rewrite trim_whites_r, last_line_app by done. destruct (decide (nl ∈ trim s)) as [|Hn]; [done|].
  rewrite trim_whites_l.
  - f_equal. unfold last_line. apply rsplit_once_None in Hn. by rewrite Hn.
  - rewrite (last_line_split w1) in H1. by apply Forall_app in H1 as [_ ?].
Qed.

(** ** The loop *)

(** The start of the current line is not before the statement, or a semicolon
    on the line shows that the line is neither [/] nor, without [DELIMITER]
    commands, a command. *)
Definition line_safe (start : nat) (before : text) : Prop :=
  start <= length (before_last_line before) \/ semi ∈ last_line before.

Lemma line_safe_app start before x :
  start <= length before -> line_safe start before -> line_safe start (before ++ x).
Proof.
  intros Hle Hs. unfold line_safe. rewrite last_line_app, before_last_line_app.
  destruct (decide (nl ∈ x)); [left; rewrite length_app; lia|].
  destruct Hs as [Hs|Hs]; [by left|]. right. set_solver.
Qed.

Lemma elem_of_trim c s : is_whitespace c = false -> c ∈ s -> c ∈ trim s.
Proof.
  intros Hc Hs. destruct (trim_split s) as (w1 & w2 & Heq & H1 & H2). rewrite Heq in Hs.
  rewrite !elem_of_app in Hs. destruct Hs as [Hs|[Hs|Hs]]; [|done|].
  - rewrite Forall_forall in H1. apply H1 in Hs. congruence.
  - rewrite Forall_forall in H2. apply H2 in Hs. congruence.
Qed.

Lemma split_inclusive_app_nl x b :
  split_inclusive_nl (x ++ nl :: b) = split_inclusive_nl (x ++ [nl]) ++ split_inclusive_nl b.
Proof.
  induction x as [|c x IH]; cbn [app split_inclusive_nl]; [done|]. rewrite IH.
  destruct (c =? nl)%N; [done|].
  destruct (split_inclusive_nl (x ++ [nl])) as [|seg segs] eqn:Hs; [|done].
  apply (f_equal (@concat _)) in Hs. rewrite split_inclusive_concat in Hs. by destruct x.
Qed.

(** The line that a newline ends is one of the lines of the text. *)
Lemma line_in_segments pre rest : last_line pre ++ [nl] ∈ split_inclusive_nl (pre ++ nl :: rest).
Proof.
  assert (Forall (fun c => c <> nl) (last_line pre)) as Hl.
  { unfold last_line. destruct (rsplit_once nl pre) as [[a b]|] eqn:Hs.
    - apply rsplit_once_last in Hs. apply Forall_forall. intros c Hc ->. done.
    - apply rsplit_once_None in Hs. apply Forall_forall. intros c Hc ->. done. }
  pose proof (split_inclusive_line _ rest Hl) as Hline. rewrite <- app_assoc in Hline. cbn in Hline.
  rewrite (last_line_split pre) at 2. rewrite <- app_assoc. unfold before_last_line.
  destruct (rsplit_once nl pre) as [[a b]|]; cbn [app].
  - rewrite <- app_assoc. cbn [app]. rewrite split_inclusive_app_nl, Hline. set_solver.
  - rewrite Hline. set_solver.
Qed.

(** A delimiter that a [DELIMITER] command in a line of the script declares. *)
Definition DeclaredIn (script d : text) : Prop :=
  exists line, substring_of line script /\ free_of nl line /\ parse_delimiter_command (trim line) = Some d.

Section Loop.

Context `{CharTable} `{OracleTokenizer}.
Context (o : SqlParsingOptions.t) (sql : text).
Abbreviation prof := (SqlParsingOptions.profile o).
Abbreviation tiles := (Tiles o (Separator o (DeclaredIn sql))).

Record RangesInv (consumed : text) (s : t) (out : list SqlStatementRange) : Prop := {
  ri_before : before s = consumed;
  ri_start : start s <= length consumed;
  ri_tiles : tiles 0 (take (start s) consumed) out;
  ri_declared : forall d, custom_delimiter s = Some d -> DeclaredIn sql d
}.

Lemma inv_advance consumed ch read rest s s' out out' :
  sql = consumed ++ ch :: read ++ rest -> RangesInv consumed s out -> Moves o (DeclaredIn sql) s ch s' out' ->
  RangesInv (consumed ++ ch :: read) (advance (ch :: read) s') (out ++ out').
Proof.
  intros Hsql [Hb Hs Ht Hd] [M1 M2 M3 M4 M5 M6]. unfold current in M4. rewrite Hb in *.
  constructor; cbn [advance before start custom_delimiter].
  - by rewrite M1.
  - rewrite length_app. cbn. lia.
  - change (ch :: read) with ([ch] ++ read). rewrite app_assoc.
    rewrite take_app_le by (rewrite length_app; cbn; lia).
    replace (take (start s') (consumed ++ [ch]))
      with (take (start s) consumed ++ take (start s' - start s) (drop (start s) consumed ++ [ch])).
    { apply tiles_app; [done|]. rewrite length_take. by replace (0 + start s `min` length consumed) with (start s) by lia. }
    transitivity (take (start s') (take (start s) consumed ++ (drop (start s) consumed ++ [ch])));
      [|by rewrite app_assoc, take_drop].
    rewrite (take_app_ge (take (start s) consumed)) by (rewrite length_take; lia).
    rewrite length_take. do 2 f_equal. lia.
  - destruct M6 as [->|(_ & d & [_ Hp] & [->| ->])]; [done..|]. intros d' [= <-].
    exists (last_line consumed). split_and!; [|apply last_line_free|by rewrite Hb in Hp]. rewrite Hsql.
    apply substring_app_l, substring_last_line.
Qed.

Lemma inv_loop_step consumed state out ch rest state' out' n :
  consumed ++ ch :: rest = sql ->
  (forall s, state = Returns s -> RangesInv consumed s out) ->
  loop_step o state ch rest = (state', out', n) ->
  forall s', state' = Returns s' -> RangesInv (consumed ++ ch :: take n rest) s' (out ++ out').
Proof.
  intros Hsql Hinv. unfold loop_step. destruct state as [s| |]; [|by intros [= <- <- <-]..].
  specialize (Hinv s eq_refl).
  destruct (step o s ch rest) as [[[s1 o1] n1]| |] eqn:Hstep; [|by intros [= <- <- <-]..].
  intros [= <- <- <-] s' [= <-]. eapply (inv_advance _ _ _ (drop n1 rest)); [|done|].
  - by rewrite <- Hsql, take_drop.
  - eapply moves_step; [|apply Hinv|done]. destruct Hinv as [-> Hs _ _]. done.
Qed.

Lemma finish_tiles s : tiles (start s) (current s) (finish o s).
Proof.
  unfold finish. set (cur := current s).
  assert (forall last, trim (last_line (trim cur)) = last ->
    last = [slash] \/ is_Some (parse_delimiter_command last) ->
    tiles (start s) cur (if is_empty (before_last_line cur) then []
                         else push_statement_range o (start s) (before_last_line cur))) as Hfinal.
  { intros last Hl Hcmd. rewrite (last_line_split cur) at 1. apply tiles_then.
    - destruct (before_last_line cur); cbn [is_empty]; [apply tiles_nil|apply tiles_one].
    - apply (sep_line o _ [] (last_line cur)); [done|]. destruct (last_line_trim cur) as [?|Ht]; [by left|]. rewrite Ht, Hl. by auto. }
  assert (exists b, match rsplit_once nl (trim cur) with
                    | Some (b, l) => (trim b, trim l) | None => ([], trim (trim cur)) end
                    = (b, trim (last_line (trim cur)))) as [b ->].
  { unfold last_line. destruct (rsplit_once nl (trim cur)) as [[x y]|]; eauto. }
  set (last := trim (last_line (trim cur))). destruct (_ && _ && negb _) eqn:Hc.
  { apply (Hfinal last); [done|]. right. rewrite !andb_true_iff in Hc. destruct Hc as [[_ Hc] _].
    destruct (parse_delimiter_command last); [by eexists|done]. }
  destruct (_ && text_eqb last [slash]) eqn:Hslash; [|apply tiles_one].
  apply andb_true_iff in Hslash as [_ Hslash%text_eqb_eq]. apply (Hfinal last); auto.
Qed.

Lemma inv_finish s out : RangesInv sql s out -> tiles 0 sql (out ++ finish o s).
Proof.
  intros [Hb Hs Ht _]. pose proof (finish_tiles s) as Hf. unfold current in Hf. rewrite Hb in Hf.
  pose proof (tiles_app o (Separator o (DeclaredIn sql)) _ _ _ (drop (start s) sql) (finish o s) Ht) as Happ.
  rewrite take_drop, length_take in Happ. apply Happ.
  by replace (0 + start s `min` length sql) with (start s) by lia.
Qed.

(** No line of the text is a [DELIMITER] command that the profile would obey. *)
Definition delimiter_free : Prop :=
  supports_custom_delimiter_commands prof = false
  \/ Forall (fun seg => parse_delimiter_command (strip_newline seg) = None) (split_inclusive_nl sql).

Hypothesis free : delimiter_free.

Lemma free_line s rest d : before s ++ nl :: rest = sql -> ~ delimiter_line o s d.
Proof.
  intros Hsql [Hc Hp]. destruct free as [Hf|Hf]; [congruence|]. rewrite Forall_forall in Hf.
  assert (last_line (before s) ++ [nl] ∈ split_inclusive_nl sql) as Hin by (rewrite <- Hsql; apply line_in_segments).
  apply Hf in Hin. rewrite strip_newline_snoc in Hin. unfold parse_delimiter_command in Hin, Hp.
  rewrite trim_idemp in Hp. congruence.
Qed.

Definition Safe (consumed : text) (s : t) (out : list SqlStatementRange) : Prop :=
  RangesInv consumed s out /\ custom_delimiter s = None /\ line_safe (start s) consumed.

Lemma on_newline_returns s rest :
  before s ++ nl :: rest = sql -> line_safe (start s) (before s) -> exists r, on_newline o s = Returns r.
Proof.
  intros Hsql Hsafe. unfold on_newline. destruct (_ && text_eqb _ _) eqn:Hslash.
  - apply andb_true_iff in Hslash as [_ Hslash%text_eqb_eq]. unfold slice_text.
    assert (start s <= length (before_last_line (before s))) as Hle.
    { destruct Hsafe as [?|Hsemi]; [done|]. apply (elem_of_trim semi) in Hsemi; [|done]. rewrite Hslash in Hsemi. set_solver. }
    assert (length (before_last_line (before s)) <= length (before s)) as Hb
      by (rewrite (last_line_split (before s)) at 2; rewrite length_app; lia).
    apply Nat.leb_le in Hle, Hb. rewrite Hle, Hb. cbn. eauto.
  - destruct (supports_custom_delimiter_commands _) eqn:Hc; [|eauto].
    destruct (parse_delimiter_command _) as [d|] eqn:Hp; [|eauto].
    exfalso. by eapply (free_line s rest d).
Qed.

Lemma step_returns consumed s out ch rest :
  consumed ++ ch :: rest = sql -> Safe consumed s out -> exists r, step o s ch rest = Returns r.
Proof.
  intros Hsql ([Hb _ _ _] & _ & Hsafe). unfold step.
  destruct (dollar_quote_tag s); [case_match; eauto|]. destruct (in_line_comment s); [eauto|].
  destruct (0 <? block_comment_depth s); [repeat case_match; eauto|].
  assert (exists r, (let '(s', out') := match_char o ch s in Returns (s', out', 0)) = Returns r) as Hplain
    by (destruct (match_char o ch s); eauto).
  destruct (outside_quotes s); [|done]. destruct (open_construct o ch rest s) as [[??]|]; [eauto|].
  destruct (N.eqb_spec ch nl) as [->|]; [|done]. rewrite <- Hb in Hsafe, Hsql.
  destruct (on_newline_returns s rest Hsql Hsafe) as [[[s1 o1]|] ->]; cbn [outcome_bind]; [eauto|done].
Qed.

Lemma safe_loop_step consumed state out ch rest state' out' n :
  consumed ++ ch :: rest = sql ->
  (exists s, state = Returns s /\ Safe consumed s out) ->
  loop_step o state ch rest = (state', out', n) ->
  exists s', state' = Returns s' /\ Safe (consumed ++ ch :: take n rest) s' (out ++ out').
Proof.
  intros Hsql (s & -> & Hsafe) Hrun. destruct (step_returns _ _ _ _ _ Hsql Hsafe) as [[[s1 o1] n1] Hstep].
  destruct Hsafe as (Hinv & Hnone & Hline). pose proof Hinv as [Hb Hs Ht Hd].
  assert (Moves o (DeclaredIn sql) s ch s1 o1) as Hm by (eapply moves_step; [by rewrite Hb|done|done]).
  unfold loop_step in Hrun. rewrite Hstep in Hrun. injection Hrun as <- <- <-. eexists. split; [done|]. split_and!.
  - eapply (inv_advance _ _ _ (drop n1 rest)); [by rewrite take_drop|done|done].
  - cbn. destruct (mv_delimiter _ _ _ _ _ _ Hm) as [->|(-> & d & Hdl & _)]; [done|].
    exfalso. eapply (free_line s rest d); [by rewrite Hb|done].
  - cbn [advance start]. change (ch :: take n1 rest) with ([ch] ++ take n1 rest). rewrite app_assoc.
    pose proof (mv_le _ _ _ _ _ _ Hm) as Hle. rewrite Hb in Hle.
    apply line_safe_app; [rewrite length_app; cbn; lia|].
    destruct (mv_why _ _ _ _ _ _ Hm) as [->|[->|[[-> ->]|[d Hsome]]]].
    + by apply line_safe_app.
    + right. rewrite last_line_app, decide_False by (rewrite list_elem_of_singleton; done). set_solver.
    + left. rewrite before_last_line_app, decide_True by set_solver. rewrite Hb, !length_app. cbn. lia.
    + congruence.
Qed.

Lemma ranges_returns :
  exists ranges, split_sql_statement_ranges_with_options sql o = Returns ranges /\ tiles 0 sql ranges.
Proof.
  unfold split_sql_statement_ranges_with_options.
  destruct (scan_loop (loop_step o) (Returns init) 0 sql) as [state out] eqn:Hrun.
  eapply (scan_loop_invariant _ sql (fun consumed state out => exists s, state = Returns s /\ Safe consumed s out))
    with (done := []) (out := []) in Hrun as (s & -> & Hinv & _); [|by intros; eapply safe_loop_step|done|].
  - cbn [outcome_bind app] in *. eexists. split; [done|]. by apply inv_finish.
  - exists init. split; [done|]. split_and!; [|done|by left]. constructor; cbn; [done|lia|apply tiles_nil|done].
Qed.

End Loop.

(** Whatever the text, the ranges that are returned tile it. *)
Lemma ranges_tile `{CharTable} `{OracleTokenizer} o sql ranges :
  split_sql_statement_ranges_with_options sql o = Returns ranges -> Tiles o (Separator o (DeclaredIn sql)) 0 sql ranges.
Proof.
  unfold split_sql_statement_ranges_with_options.
  destruct (scan_loop (loop_step o) (Returns init) 0 sql) as [state out] eqn:Hrun.
  pose proof (scan_loop_invariant _ sql
    (fun consumed state out => forall s, state = Returns s -> RangesInv o sql consumed s out)
    (fun consumed st out c rest st' out' n Hsql Hinv Hs => inv_loop_step o sql consumed st out c rest st' out' n Hsql Hinv Hs)
    sql [] (Returns init) [] state out eq_refl) as Hinv.
  specialize (fun Hinit => Hinv Hinit Hrun). cbn beta in Hinv.
  destruct state as [s| |]; cbn [outcome_bind app] in *; [|done..]. intros [= <-].
  apply inv_finish. apply Hinv; [|done]. intros s0 [= <-]. constructor; cbn; [done|lia|apply tiles_nil|done].
Qed.
