(* ===== verification/CursorFacts.v ===== *)
(** * CursorFacts: the statement under the cursor and the batches of the editor.

    What [find_statement_at_cursor] returns for a position inside a statement,
    how T-SQL batches tile the text, and that the spans of T-SQL blocks are
    slices of their batch.  The claims about [split_sql_statement_ranges] are
    stated here from the lemmas of [RangesFacts]. *)

From stdpp Require Import sets.
From S2P Require Import Prelude DbTypes Dialect Lexis MysqlRoutine TSqlFlow PlSql Splitter SplitterFacts.
From S2P Require Import Scanner ScannerFacts Ranges RangesFacts.
Import SqlDialectProfile.

(** ** Picking a range *)

Lemma ordered_start o sql lo ranges r : Ordered o sql lo ranges -> r ∈ ranges -> lo <= range_start r.
Proof.
  induction 1 as [|lo r' ranges Hlo Hlt _ _ _ _ IH]; [by intros ?%not_elem_of_nil|].
  intros [->|Hr]%elem_of_cons; [done|]. specialize (IH Hr). lia.
Qed.

(** A cursor strictly inside a range of an ordered list picks that range. *)
Lemma range_at_cursor_inside o sql cursor ranges r :
  r ∈ ranges -> range_start r < cursor < range_end r ->
  forall lo previous, Ordered o sql lo ranges -> range_at_cursor sql cursor previous ranges = Some r.
Proof.
  intros Hr Hc lo previous Ho. revert previous Hr.
  induction Ho as [|lo r' ranges Hlo Hlt Hslice _ _ Ho IH]; intros previous Hr; [by apply not_elem_of_nil in Hr|].
  cbn [range_at_cursor]. apply elem_of_cons in Hr as [<-|Hr].
  - destruct Hc as [H1 H2]. apply Nat.ltb_lt in H1, H2. by rewrite H1, H2.
  - pose proof (ordered_start _ _ _ _ _ Ho Hr) as Hge.
    replace (cursor <? range_end r') with false by (symmetry; apply Nat.ltb_ge; lia). rewrite andb_false_r.
    replace (cursor =? range_start r') with false by (symmetry; apply Nat.eqb_neq; lia).
    replace (cursor <? range_start r') with false by (symmetry; apply Nat.ltb_ge; lia). by apply IH.
Qed.

(** The range picked is one of the ranges. *)
Lemma range_at_cursor_elem sql cursor ranges previous r :
  range_at_cursor sql cursor previous ranges = Some r -> previous = Some r \/ r ∈ ranges.
Proof.
  revert previous. induction ranges as [|r' ranges IH]; intros previous; cbn [range_at_cursor]; [by left|].
  repeat case_match; intros Hp; simplify_eq; try (by left); try (right; set_solver).
Qed.

Lemma range_at_cursor_some sql cursor ranges previous :
  is_Some previous \/ ranges <> [] -> is_Some (range_at_cursor sql cursor previous ranges).
Proof.
  revert previous. induction ranges as [|r' ranges IH]; intros previous Hp; cbn [range_at_cursor];
    [by destruct Hp|]. repeat case_match; eauto.
Qed.

(** ** Soft boundaries inside a statement *)

Section Soft.

Context `{CharTable} `{OracleTokenizer}.

Lemma drop_take_drop {A} a b (l : list A) : a <= b <= length l -> drop a (take b l) ++ drop b l = drop a l.
Proof.
  intros Hle. rewrite <- (take_drop b l) at 3. rewrite (drop_app_le (take b l)); [done|]. rewrite length_take. lia.
Qed.

(** The pieces between soft boundaries tile the statement, nothing dropped. *)
Lemma soft_ranges_tile o after part : forall before scanner current_start line_start black run,
  current_start <= line_start <= length before ->
  Tiles o (fun _ => False) current_start (drop current_start (before ++ part))
    (soft_ranges o before part after scanner current_start line_start black run).
Proof.
  induction part as [|ch part IH]; intros before scanner cs ls black run Hle; cbn [soft_ranges].
  { rewrite app_nil_r. apply tiles_one. }
  assert (before ++ ch :: part = (before ++ [ch]) ++ part) as Hshift by (by rewrite <- app_assoc).
  rewrite Hshift.
  destruct (ch =? nl)%N; [apply IH; rewrite length_app; cbn; lia|].
  destruct (negb black && negb (is_whitespace ch)); [|apply IH; rewrite length_app; cbn; lia].
  case_match; [|apply IH; rewrite length_app; cbn; lia].
  replace (drop cs ((before ++ [ch]) ++ part))
    with (drop cs (take ls before) ++ drop ls ((before ++ [ch]) ++ part)).
  - apply tiles_segment. rewrite length_drop, length_take.
    replace (cs + (ls `min` length before - cs)) with ls by lia. apply IH. rewrite length_app. cbn. lia.
  - replace (take ls before) with (take ls ((before ++ [ch]) ++ part))
      by (rewrite <- app_assoc; by rewrite take_app_le by lia).
    apply drop_take_drop. rewrite !length_app. lia.
Qed.

(** A soft piece of a statement is a non-empty part of its text. *)
Lemma soft_pieces sql r o piece :
  slice_text sql (range_start r) (range_end r) = Returns (range_text r) -> range_start r < range_end r ->
  piece ∈ split_statement_range_at_blank_lines sql r o ->
  range_text piece <> [] /\ substring_of (range_text piece) (range_text r).
Proof.
  intros (Hle & Hend & Htext)%slice_text_Returns Hlt.
  assert (piece ∈ [r] -> range_text piece <> [] /\ substring_of (range_text piece) (range_text r)) as Hself.
  { intros ->%list_elem_of_singleton. split; [|auto with text].
    rewrite Htext. intros Hnil%(f_equal length). rewrite length_drop, length_take in Hnil. cbn in Hnil. lia. }
  unfold split_statement_range_at_blank_lines. case_match; [done|]. case_match; [done|]. intros Hp.
  eapply tiles_piece in Hp; [exact Hp|].
  pose proof (soft_ranges_tile o (drop (range_end r) sql) (range_text r) (take (range_start r) sql)
    (SqlScanner.with_profile (SqlParsingOptions.profile o)) (range_start r) (range_start r) false 0) as Ht.
  rewrite length_take in Ht. specialize (Ht ltac:(lia)).
  rewrite drop_app_ge in Ht by (rewrite length_take; lia). rewrite length_take in Ht.
  replace (range_start r - range_start r `min` length sql) with 0 in Ht by lia. cbn [drop] in Ht.
  rewrite Htext in Ht at 2. exact Ht.
Qed.

(** A statement is never empty after its soft boundaries are applied. *)
Lemma soft_nonempty sql r o : split_statement_range_at_blank_lines sql r o <> [].
Proof. unfold split_statement_range_at_blank_lines. case_match; [done|]. case_match; [done|]. by destruct (soft_ranges _ _ _ _ _ _ _ _ _). Qed.

Lemma statement_text_piece sql r cursor o :
  slice_text sql (range_start r) (range_end r) = Returns (range_text r) -> range_start r < range_end r ->
  statement_text_at_cursor sql r cursor o <> []
  /\ substring_of (statement_text_at_cursor sql r cursor o) (range_text r).
Proof.
  intros Hslice Hlt. unfold statement_text_at_cursor, find_statement_text_in_ranges.
  destruct (range_at_cursor_some sql cursor (split_statement_range_at_blank_lines sql r o) None) as [piece Hp];
    [right; apply soft_nonempty|].
  rewrite Hp. cbn. apply range_at_cursor_elem in Hp as [[=]|Hp]. by eapply soft_pieces.
Qed.

End Soft.

(** ** T-SQL batches *)

Section Batches.

Context `{CharTable}.

(** A line that holds only the batch separator. *)
Definition GoLine (segment : text) : Prop := eq_ignore_ascii_case (trim segment) %"go" = true.

Lemma trim_trim_end s : trim_end (trim s) = trim s.
Proof. unfold trim. apply trim_end_idemp. Qed.

(** The second spelling that [is_batch_separator] tests, [go] followed by
    blanks, cannot occur in a trimmed line. *)
Lemma go_line p scanner line : is_batch_separator p scanner line = true -> GoLine line.
Proof.
  unfold is_batch_separator, GoLine. rewrite !andb_true_iff, orb_true_iff, andb_true_iff.
  intros [_ [Hgo|[Hstart Hrest]]]; [done|]. exfalso.
  apply starts_with_app in Hstart as [rest Hlower]. apply (f_equal length) in Hlower.
  unfold lower in Hlower. rewrite length_map, length_app in Hlower. cbn in Hlower.
  apply is_empty_nil, trim_nil_whitespace in Hrest.
  pose proof (trim_end_drop 2 (trim line) (trim_trim_end line) ltac:(lia)) as Hend.
  assert (trim_end (drop 2 (trim line)) = []) as Hnil.
  { unfold trim_end. rewrite <- (app_nil_r (rev (drop 2 _))), drop_while_app_all by (by apply Forall_rev). done. }
  rewrite Hnil in Hend. apply (f_equal length) in Hend. rewrite length_drop in Hend. cbn in Hend. lia.
Qed.

Lemma trim_strip_newline seg : trim (strip_newline seg) = trim seg.
Proof.
  unfold strip_newline. destruct (ends_with [nl] seg) eqn:He; [|done]. apply ends_with_app in He as [b ->].
  rewrite length_app. cbn. by rewrite Nat.add_sub, take_app_length, trim_snoc_nl.
Qed.

Lemma batch_ranges_tile p segments : forall before current_start scanner,
  current_start <= length before ->
  Tiles SqlParsingOptions.default GoLine current_start (drop current_start (before ++ concat segments))
    (batch_ranges p before current_start scanner segments).
Proof.
  induction segments as [|segment later IH]; intros before cs scanner Hle; cbn [batch_ranges concat].
  { rewrite app_nil_r. apply tiles_one. }
  destruct (is_batch_separator p scanner (strip_newline segment)) eqn:Hsep.
  2: { rewrite app_assoc. apply IH. rewrite length_app. lia. }
  rewrite drop_app_le by done. apply tiles_segment, tiles_separator.
  - apply go_line in Hsep. unfold GoLine in *. by rewrite <- trim_strip_newline.
  - match goal with |- Tiles _ _ ?pos _ (batch_ranges p ?b ?cs' ?sc later) =>
      specialize (IH b cs' sc (le_n _)); replace pos with cs' by (rewrite length_app, length_drop; lia) end.
    by rewrite drop_app_length in IH.
Qed.

End Batches.

(** ** Blocks of a T-SQL batch *)

Lemma token_step_spans index depth b rest st out n :
  sqlserver_token_step (index, depth) b rest = (st, out, n) ->
  fst st = S (index + n) /\ (out = [] \/ exists tok, out = [tok] /\ tok_start tok = index /\ tok_end tok = S (index + n)).
Proof.
  unfold sqlserver_token_step. repeat case_match; intros [= <- <- <-]; cbn; rewrite ?Nat.add_0_r;
    (split; [done|]; eauto).
Qed.

Lemma quoted_len_le close l : quoted_len close l <= length l.
Proof.
  remember (length l) as n eqn:Hn. assert (length l <= n) as Hle by lia. rewrite Hn. clear Hn. revert l Hle.
  induction n as [|n IH]; intros [|c l] Hle; cbn in *; try lia.
  pose proof (IH l ltac:(lia)) as Hl. destruct (c =? close)%N; [|lia].
  destruct l as [|c' l]; [lia|]. destruct (c' =? close)%N; [|cbn; lia].
  pose proof (IH l ltac:(cbn in *; lia)). cbn. lia.
Qed.

Lemma take_while_le {A} (p : A -> bool) l : length (take_while p l) <= length l.
Proof. induction l as [|c l IH]; cbn; [done|]. destruct (p c); cbn; lia. Qed.

Lemma block_comment_len_le l : block_comment_len l <= length l.
Proof.
  induction l as [|c l IH]; cbn; [done|]. destruct ((c =? star)%N && head_is slash l) eqn:Hc; [|lia].
  destruct l; [by rewrite andb_false_r in Hc|]. cbn. lia.
Qed.

Lemma token_step_consumes s b rest st out n :
  sqlserver_token_step s b rest = (st, out, n) -> n <= length rest.
Proof.
  destruct s as [index depth]. unfold sqlserver_token_step.
  pose proof (quoted_len_le b rest). pose proof (quoted_len_le rbracket rest).
  pose proof (take_while_le is_tsql_word_char rest).
  assert (forall c (f : text -> nat), (forall l, f l <= length l) -> head_is c rest = true -> S (f (drop 1 rest)) <= length rest)
    as Htwo.
  { intros c f Hf. destruct rest as [|c' rest]; [done|]. cbn. intros _. specialize (Hf rest). rewrite drop_0. lia. }
  repeat case_match; intros [= <- <- <-]; try lia.
  - eapply Htwo; [intros l; apply take_while_le|by eapply andb_true_iff].
  - eapply Htwo; [intros l; apply block_comment_len_le|by eapply andb_true_iff].
Qed.

(** Tokens in order between two positions. *)
Inductive Spans (hi : nat) : nat -> list SqlServerTopLevelToken -> Prop :=
| spans_nil lo : lo <= hi -> Spans hi lo []
| spans_cons lo tok tokens :
    lo <= tok_start tok -> tok_start tok < tok_end tok -> Spans hi (tok_end tok) tokens -> Spans hi lo (tok :: tokens).

Lemma spans_le hi lo tokens : Spans hi lo tokens -> lo <= hi.
Proof. induction 1; lia. Qed.

Lemma spans_snoc mid lo tokens hi tok :
  Spans mid lo tokens -> mid <= tok_start tok -> tok_start tok < tok_end tok -> tok_end tok <= hi ->
  Spans hi lo (tokens ++ [tok]).
Proof.
  induction 1; intros; cbn [app]; repeat (constructor; try lia); auto.
Qed.

Lemma spans_extend mid lo tokens hi : mid <= hi -> Spans mid lo tokens -> Spans hi lo tokens.
Proof. intros Hle. induction 1; constructor; auto; lia. Qed.

Lemma tokens_span sql : Spans (length sql) 0 (sqlserver_top_level_tokens sql).
Proof.
  unfold sqlserver_top_level_tokens.
  destruct (scan_loop sqlserver_token_step (0, 0) 0 sql) as [s tokens] eqn:Hrun.
  refine (proj2 (scan_loop_invariant sqlserver_token_step sql
            (fun consumed st out => fst st = length consumed /\ Spans (length consumed) 0 out) _
            sql [] (0, 0) [] s tokens eq_refl _ Hrun)); [|split; [done|by constructor]].
  intros consumed [index depth] out c rest st' out' n _ [Hi Hout] Hstep. cbn in Hi. subst index.
  pose proof (token_step_consumes _ _ _ _ _ _ Hstep) as Hn. apply token_step_spans in Hstep as [Hst Hout'].
  rewrite length_app. cbn [length]. rewrite length_take. replace (n `min` length rest) with n by lia.
  split; [lia|]. destruct Hout' as [->|(tok & -> & Hs & He)].
  - rewrite app_nil_r. eapply spans_extend; [|done]. lia.
  - eapply spans_snoc; [done|lia..].
Qed.

(** Every block of a batch is a slice of it. *)
Lemma blocks_from_in_bounds len tokens : forall lo stack pending control,
  Spans len lo tokens -> Forall (fun f => frame_start f <= lo) stack -> (forall f, pending = Some f -> frame_start f <= lo) ->
  Forall (fun b => block_start b <= block_end b <= len) (sqlserver_blocks_from len stack pending control tokens).
Proof.
  induction tokens as [|tok after IH]; intros lo stack pending control Hspan Hstack Hpending; cbn [sqlserver_blocks_from].
  - apply spans_le in Hspan. destruct pending as [f|].
    + specialize (Hpending f eq_refl). constructor; [cbn; lia|constructor].
    + destruct (last stack) as [f|] eqn:Hl; [|constructor]. case_match; [|constructor].
      apply last_Some_elem_of in Hl. rewrite Forall_forall in Hstack. specialize (Hstack f Hl).
      constructor; [cbn; lia|constructor].
  - inversion Hspan as [|? ? ? Hlo Hlt Hafter]; subst. pose proof (spans_le _ _ _ Hafter) as Hhi.
    assert (Forall (fun f => frame_start f <= tok_end tok) stack) as Hstack'
      by (eapply Forall_impl; [exact Hstack|]; cbn; intros; lia).
    assert (forall f, pending = Some f -> frame_start f <= tok_end tok) as Hpending'
      by (intros f Hf; specialize (Hpending f Hf); lia).
    repeat match goal with |- Forall _ (if ?c then _ else _) => destruct c; [by eauto|] || destruct c end; eauto.
    + eapply IH; [done| |done]. constructor; [|done].
      destruct pending as [f|]; [|cbn; lia]. destruct (is_empty stack); [by apply Hpending'|cbn; lia].
    + eapply IH; [done| |done]. constructor; [cbn; lia|done].
    + destruct stack as [|f stack']; [by eauto|]. apply Forall_cons in Hstack as [Hf _]. apply Forall_cons in Hstack' as [_ Hs'].
      case_match; [by eauto|]. case_match; [eapply IH; [done|done|]; intros g [= <-]; lia|].
      constructor; [|by eauto]. cbn [block_of_frame block_start block_end].
      destruct after as [|next after']; [lia|]. inversion Hafter as [|? ? ? ? ? Hafter']; subst.
      pose proof (spans_le _ _ _ Hafter'). case_match; lia.
Qed.

Lemma top_level_blocks_in_bounds sql :
  Forall (fun b => block_start b <= block_end b <= length sql) (sqlserver_top_level_blocks sql).
Proof. eapply blocks_from_in_bounds; [apply tokens_span|constructor|done]. Qed.

(** ** Cursor positions *)

Lemma len_utf16_pos c : 1 <= len_utf16 c.
Proof. unfold len_utf16. case_match; lia. Qed.

Lemma utf16_offset_from_prefix p : forall sql seen index,
  utf16_offset_from seen index (p ++ sql) (seen + utf16_len p) = index + length p.
Proof.
  induction p as [|c p IH]; intros sql seen index.
  - cbn. rewrite Nat.add_0_r. destruct sql; cbn; [lia|]. by rewrite Nat.leb_refl.
  - pose proof (len_utf16_pos c). rewrite utf16_len_cons. cbn [app utf16_offset_from length].
    replace (seen + (len_utf16 c + utf16_len p) <=? seen) with false by (symmetry; apply Nat.leb_gt; lia).
    replace (seen + (len_utf16 c + utf16_len p) <? seen + len_utf16 c) with false by (symmetry; apply Nat.ltb_ge; lia).
    rewrite Nat.add_assoc, IH. lia.
Qed.

(** ** Claims *)

Section Contract.

Context `{CharTable} `{OracleTokenizer}.

(** Statement ranges are returned and are exact.  For every profile and
    every text without [DELIMITER] commands (or a profile that has none), the
    range splitter returns; the text is tiled by the segments it turned into
    ranges and by separators; the ranges are in order and disjoint, each is the
    slice of the text it names, is not empty, ends with a black character and,
    leading directives aside, starts with SQL rather than a blank or a comment. *)
Theorem statement_ranges_total (o : SqlParsingOptions.t) (sql : text) (Hfree : delimiter_free o sql) :
  exists ranges, split_sql_statement_ranges_with_options sql o = Returns ranges
    /\ Tiles o (Separator o (DeclaredIn sql)) 0 sql ranges /\ Ordered o sql 0 ranges.
Proof.
  destruct (ranges_returns o sql Hfree) as (ranges & Hr & Ht). exists ranges. split_and!; [done..|].
  by eapply (tiles_ordered o _ [] sql).
Qed.

(** The cursor runs the statement it stands in.  For a cursor strictly
    inside a range the lookup returns a non-empty part of that statement and of
    no other, and the whole statement when it is a block that has to stay
    together. *)
Theorem cursor_inside_statement (o : SqlParsingOptions.t) (sql : text) (cursor_pos : nat)
    (ranges : list SqlStatementRange) (r : SqlStatementRange)
    (Hranges : split_sql_statement_ranges_with_options sql o = Returns ranges) (Hr : r ∈ ranges)
    (Hinside : range_start r < utf16_offset_to_index sql cursor_pos < range_end r) :
  exists piece, find_statement_at_cursor_with_options sql cursor_pos o = Returns piece
    /\ piece <> [] /\ substring_of piece (range_text r)
    /\ (keeps_oracle_style_block_together o (range_text r) = true -> piece = range_text r).
Proof.
  pose proof (ranges_tile _ _ _ Hranges) as Ht. eapply (tiles_ordered o _ [] sql) in Ht as Ho; [|done].
  cbn [app] in Ho. unfold find_statement_at_cursor_with_options. rewrite Hranges. cbn [outcome_bind].
  rewrite (range_at_cursor_inside o sql _ ranges r Hr Hinside 0 None Ho).
  assert (slice_text sql (range_start r) (range_end r) = Returns (range_text r)) as Hslice.
  { clear -Ho Hr. induction Ho; [by apply not_elem_of_nil in Hr|]. apply elem_of_cons in Hr as [->|]; auto. }
  destruct (statement_text_piece sql r (utf16_offset_to_index sql cursor_pos) o Hslice ltac:(lia)) as [Hne Hsub].
  eexists. split_and!; [done..|]. intros Hkeep.
  unfold statement_text_at_cursor, find_statement_text_in_ranges, split_statement_range_at_blank_lines.
  rewrite Hkeep. cbn [orb range_at_cursor]. destruct Hinside as [H1%Nat.ltb_lt H2%Nat.ltb_lt]. by rewrite H1, H2.
Qed.

(** The T-SQL batches of the editor tile the script: between two batches
    only blanks, comments and lines holding the batch separator are dropped, and
    the batches are ordered, disjoint slices of the script. *)
Theorem batches_tile_script (sql : text) :
  let ranges := split_sql_batch_ranges sql SqlDialectProfile.sql_server in
  Tiles SqlParsingOptions.default GoLine 0 sql ranges /\ Ordered SqlParsingOptions.default sql 0 ranges.
Proof.
  pose proof (batch_ranges_tile SqlDialectProfile.sql_server (split_inclusive_nl sql) [] 0
    (SqlScanner.with_profile SqlDialectProfile.sql_server) (le_n 0)) as Ht.
  rewrite split_inclusive_concat in Ht. cbn [app drop] in Ht. split; [exact Ht|].
  by apply (tiles_ordered SqlParsingOptions.default GoLine [] sql).
Qed.

(** The T-SQL block under the cursor is a slice of its batch: for every
    batch and cursor the lookup returns without an out-of-range slice, and what
    it returns occurs in the batch. *)
Theorem control_flow_statement_in_batch (sql : text) (cursor : option nat) :
  exists found, sqlserver_control_flow_statement_at sql cursor = Returns found
    /\ forall statement, found = Some statement -> substring_of statement sql.
Proof.
  unfold sqlserver_control_flow_statement_at. set (blocks := sqlserver_top_level_blocks sql).
  assert (forall st, Some sql = Some st -> substring_of st sql) as Hwhole by (intros st [= <-]; auto with text).
  case_match; [eauto|]. pose proof (top_level_blocks_in_bounds sql) as Hb. fold blocks in Hb.
  destruct (match cursor with Some c => _ | None => last blocks end) as [block|] eqn:Hblock.
  2: { exists None. by split. }
  assert (block ∈ blocks) as Hin.
  { destruct cursor as [c|]; [|by apply last_Some_elem_of in Hblock].
    apply head_Some_elem_of in Hblock. by apply list_elem_of_filter in Hblock as [_ ?]. }
  rewrite Forall_forall in Hb. destruct (Hb block Hin) as [Hb1 Hb2].
  destruct (block_control_statement block || _); [eauto|].
  unfold slice_text. apply Nat.leb_le in Hb1, Hb2. rewrite Hb1, Hb2. cbn [andb outcome_bind].
  eexists. split; [done|]. intros st [= <-].
  exists (take (block_start block) (take (block_end block) sql)), (drop (block_end block) sql).
  by rewrite app_assoc, !take_drop.
Qed.

(** Editor positions round-trip: the UTF-16 offset of any position of the
    text is mapped back to that position. *)
Theorem cursor_offset_round_trip (sql : text) (index : nat) (Hindex : index <= length sql) :
  utf16_offset_to_index sql (utf16_len (take index sql)) = index.
Proof.
  unfold utf16_offset_to_index. rewrite <- (take_drop index sql) at 1.
  pose proof (utf16_offset_from_prefix (take index sql) (drop index sql) 0 0) as Hp. cbn [Nat.add] in Hp.
  rewrite Hp, length_take. lia.
Qed.

End Contract.

#[local] Existing Instance latin1_table.
#[local] Existing Instance fallback_tokenizer.

Definition editor_script : text := %"SELECT ';'; -- first
UPDATE t SET a = 1
  WHERE b = 2".

Lemma statement_ranges_total_witness :
  exists ranges, split_sql_statement_ranges_with_options editor_script SqlParsingOptions.default = Returns ranges
    /\ Tiles SqlParsingOptions.default (Separator SqlParsingOptions.default (DeclaredIn editor_script)) 0 editor_script ranges
    /\ Ordered SqlParsingOptions.default editor_script 0 ranges.
Proof.
  apply statement_ranges_total. right.
  assert (split_inclusive_nl editor_script = [%"SELECT ';'; -- first
"; %"UPDATE t SET a = 1
"; %"  WHERE b = 2"]) as -> by (by vm_compute).
  repeat (apply Forall_cons; split; [by vm_compute|]). apply Forall_nil_2.
Defined.

Lemma cursor_inside_statement_witness :
  let r := mk_range %"UPDATE t SET a = 1
  WHERE b = 2" 21 53 in
  exists piece, find_statement_at_cursor_with_options editor_script 30 SqlParsingOptions.default = Returns piece
    /\ piece <> [] /\ substring_of piece (range_text r)
    /\ (keeps_oracle_style_block_together SqlParsingOptions.default (range_text r) = true -> piece = range_text r).
Proof.
  intros r. apply (cursor_inside_statement SqlParsingOptions.default editor_script 30
    [mk_range %"SELECT ';'" 0 10; r] r); [by vm_compute|by repeat constructor|vm_compute; lia].
Defined.

Lemma cursor_offset_round_trip_witness :
  utf16_offset_to_index ([128640; 32]%N ++ %"SELECT 1") (utf16_len (take 2 ([128640; 32]%N ++ %"SELECT 1"))) = 2.
Proof. apply cursor_offset_round_trip. cbn. lia. Defined.

(** A [DELIMITER ;] line after a statement that has no terminator of its own:
    the splitter of the import path merges the line into the statement, the range
    splitter takes a slice backwards and panics. *)
Lemma delimiter_line_panics :
  let sql := %"SELECT 1
DELIMITER ;
" in
  split_sql_statement_ranges_with_options sql SqlParsingOptions.default = Panics
  /\ find_statement_at_cursor_for_database sql 0 Mysql = Panics
  /\ split_sql_statements_for_database sql Mysql = [%"SELECT 1
DELIMITER"].
Proof. by vm_compute. Qed.

(** A character reference of MyBatis XML does not end a statement in the
    splitter; in the range splitter it does, so the statement under the cursor
    is half of the statement. *)
Lemma entity_semicolon_cuts_range :
  let sql := %"SELECT 1 WHERE a &lt; 2" in
  split_sql_statements sql = [sql]
  /\ find_statement_at_cursor_with_options sql 3 SqlParsingOptions.default = Returns %"SELECT 1 WHERE a &lt".
Proof. by vm_compute. Qed.
