(* ===== verification/SplitterLoops.v ===== *)
(** * SplitterLoops: the bounded loops and recursion of the splitter are exact.

    Two places of the splitter are modelled with a bound: the loop that cuts a
    T-SQL batch at its block boundaries ([batch_pieces]) and the recursive call
    of [finish_psql_command] ([push_chunk_nested]).  The theorems here show that
    the bounds are never the reason a computation stops.  The second half shows that
    string literals are opaque to the splitter. *)

From S2P Require Import Prelude DbTypes Dialect Lexis MysqlRoutine TSqlFlow PlSql Splitter SplitterFacts.

Import SqlDialectProfile SqlStatementSplitter.

(** ** Batch boundaries *)

Lemma token_step_ends s b rest s' tokens n :
  sqlserver_token_step s b rest = (s', tokens, n) -> Forall (fun t => 1 <= tok_end t) tokens.
Proof.
  destruct s as [index depth]. unfold sqlserver_token_step.
  repeat case_match; intros [= <- <- <-];
    first [apply Forall_nil_2 | apply Forall_singleton; cbn; lia].
Qed.

Lemma tokens_ends sql : Forall (fun t => 1 <= tok_end t) (sqlserver_top_level_tokens sql).
Proof.
  unfold sqlserver_top_level_tokens.
  destruct (scan_loop sqlserver_token_step (0, 0) 0 sql) as [s tokens] eqn:Hrun.
  refine (scan_loop_invariant sqlserver_token_step sql (fun _ _ out => Forall (fun t => 1 <= tok_end t) out) _
            sql [] (0, 0) [] s tokens eq_refl _ Hrun); [|apply Forall_nil_2].
  intros done st out c rest st' out' extra _ Hout Hstep.
  apply Forall_app. split; [done|]. by eapply token_step_ends.
Qed.

Definition boundary_positive (b : option (nat * text)) : Prop := forall offset word, b = Some (offset, word) -> 1 <= offset.

Lemma boundary_from_positive start_depth depth carried b tokens r :
  Forall (fun t => 1 <= tok_end t) tokens -> boundary_positive b ->
  sqlserver_boundary_from start_depth depth carried b tokens = Some r -> 1 <= r.
Proof.
  intros Ht. revert start_depth depth carried b. induction Ht as [|token after Htok Hafter IH];
    intros start_depth depth carried b Hb; cbn [sqlserver_boundary_from].
  { repeat case_match; try done. intros [= <-]. by eapply Hb. }
  repeat match goal with
  | |- (if ?c then _ else _) = _ -> _ => destruct c
  end; eauto.
  - destruct b as [[offset word]|].
    + destruct (eq_ignore_ascii_case word (%"ELSE")); [apply IH; by intros ??|].
      intros [= <-]. by eapply Hb.
    + apply IH. by intros ??.
  - apply IH. destruct (_ && _); [|done].
    assert (1 <= fst (match after with
              | next :: after' =>
                  if TSqlFlow.is_word next (%"TRY") || TSqlFlow.is_word next (%"CATCH")
                  then (tok_end next, from_option tok_text [] (head after'))
                  else (tok_end token, tok_text next)
              | [] => (tok_end token, [])
              end)) as Hfound.
    { destruct Hafter as [|next after' Hn]; [done|]. by destruct (_ || _). }
    intros offset word. destruct b as [[o w]|]; [destruct (eq_ignore_ascii_case w _)|]; intros Heq.
    + apply (inj Some) in Heq. by rewrite Heq in Hfound.
    + injection Heq as <- <-. by eapply Hb.
    + apply (inj Some) in Heq. by rewrite Heq in Hfound.
Qed.

Lemma batch_boundary_positive sql r : sqlserver_control_flow_batch_boundary sql = Some r -> 1 <= r.
Proof. apply boundary_from_positive; [apply tokens_ends|by intros ??]. Qed.

(** The loop stopped because no boundary is left inside the text. *)
Definition no_inner_boundary (body : text) : Prop :=
  forall r, sqlserver_control_flow_batch_boundary body = Some r -> length body <= r.

Lemma batch_pieces_exact fuel body :
  length body <= fuel ->
  batch_pieces fuel body = batch_pieces (length body) body /\ no_inner_boundary (snd (batch_pieces fuel body)).
Proof.
  assert (forall n m body, length body <= n -> length body <= m ->
            batch_pieces n body = batch_pieces m body /\ no_inner_boundary (snd (batch_pieces n body))) as Hgen.
  { clear fuel body. induction n as [|n IH]; intros m body Hn Hm.
    - destruct body as [|c body]; [|cbn in Hn; lia]. destruct m; by split.
    - destruct m as [|m].
      { destruct body as [|c body]; [|cbn in Hm; lia]. by split. }
      cbn [batch_pieces]. destruct (sqlserver_control_flow_batch_boundary body) as [r|] eqn:Hr.
      + destruct (Nat.leb_spec (length body) r) as [Hle|Hlt].
        { split; [done|]. intros r' Hr'. cbn [snd] in *. rewrite Hr in Hr'. by injection Hr' as <-. }
        apply batch_boundary_positive in Hr as Hpos.
        destruct (IH m (drop r body)) as [-> Hno]; [rewrite length_drop; lia..|]. destruct (batch_pieces m (drop r body)) as [pieces trailing]. by split.
      + split; [done|]. intros r' Hr'. cbn [snd] in *. congruence. }
  intros Hle. by apply Hgen.
Qed.

(** ** psql commands do not nest *)

Section Nesting.

Context `{CharTable} `{OracleTokenizer}.

(** psql commands are off and none is pending. *)
Definition psql_off (s : t) : Prop :=
  supports_psql_control_commands (prof s) = false /\ pending_psql_command s = None.

Lemma sql_step_keeps s ch rest s' out n :
  tag_ok s -> sql_step s ch rest = (s', out, n) ->
  options s' = options s /\ pending_psql_command s' = pending_psql_command s /\ tag_ok s'.
Proof.
  intros Ht Hstep.
  eapply (emits_sql_step (options s)) in Hstep as [_ [K1 K2 K4]]; [|done..].
  split_and!; [done..|]. intros tag Htag. destruct (K4 tag Htag); auto.
Qed.

Lemma step_psql_off inner1 inner2 s ch rest :
  psql_off s -> tag_ok s ->
  step inner1 s ch rest = step inner2 s ch rest
  /\ (let s' := fst (fst (step inner1 s ch rest)) in psql_off s' /\ tag_ok s').
Proof.
  intros [Hoff Hnone] Ht. unfold step. rewrite Hnone, Hoff. cbn [andb]. split; [done|].
  destruct (sql_step s ch rest) as [[s' out] n] eqn:Hstep. cbn.
  apply sql_step_keeps in Hstep as (Ho & Hp & Ht'); [|done].
  split; [|done]. split; [|by rewrite Hp]. unfold prof in *. by rewrite Ho.
Qed.

(** Two loop bodies that agree on the states an invariant describes. *)
Lemma scan_loop_congruence {S A} (step1 step2 : S -> char -> text -> S * list A * nat) (I : S -> Prop) :
  (forall st c l, I st -> step1 st c l = step2 st c l /\ I (fst (fst (step1 st c l)))) ->
  forall l st skip, I st -> scan_loop step1 st skip l = scan_loop step2 st skip l.
Proof.
  intros Hstep l. induction l as [|c l IH]; intros st skip Hst; [done|]. cbn.
  destruct skip as [|k]; [|by apply IH].
  destruct (Hstep st c l Hst) as [<- HI]. destruct (step1 st c l) as [[st1 out] extra]. cbn in HI.
  by rewrite IH.
Qed.

Lemma resolve_keeps chunk s :
  options (resolve_pending_dashes chunk s) = options s
  /\ pending_psql_command (resolve_pending_dashes chunk s) = pending_psql_command s
  /\ dollar_quote_tag (resolve_pending_dashes chunk s) = dollar_quote_tag s.
Proof. destruct chunk; [done|]. cbn. by destruct (pending_mysql_line_comment_dashes s). Qed.

Lemma nested_psql_off n m s chunk :
  psql_off s -> tag_ok s -> push_chunk_nested n s chunk = push_chunk_nested m s chunk.
Proof.
  intros [Hoff Hnone] Ht. destruct (resolve_keeps chunk s) as (Ho & Hp & Hd).
  destruct n, m; cbn [push_chunk_nested];
    (apply (scan_loop_congruence _ _ (fun s => psql_off s /\ tag_ok s));
     [intros st c l [H1 H2]; by apply step_psql_off
     |split; [unfold psql_off, prof in *; by rewrite Ho, Hp|unfold tag_ok in *; by rewrite Hd]]).
Qed.

Lemma finish_psql_command_nested n m command s :
  tag_ok s -> finish_psql_command (push_chunk_nested n) command s = finish_psql_command (push_chunk_nested m) command s.
Proof.
  intros Ht. unfold finish_psql_command. case_match; [done|].
  by rewrite (nested_psql_off n m).
Qed.

Lemma step_nested n m s ch rest : tag_ok s -> step (push_chunk_nested n) s ch rest = step (push_chunk_nested m) s ch rest.
Proof.
  intros Ht. unfold step. destruct (pending_psql_command s); [|done].
  by rewrite (finish_psql_command_nested n m).
Qed.

Lemma nested_exact n s chunk : tag_ok s -> push_chunk_nested (Datatypes.S n) s chunk = push_chunk_with_control s chunk.
Proof.
  intros Ht. unfold push_chunk_with_control. cbn [push_chunk_nested].
  destruct (resolve_keeps chunk s) as (Ho & _ & Hd).
  apply (scan_loop_congruence _ _ (Sane (options s))).
  - intros st c l Hst. split; [refine (step_nested n 0 st c l _); by destruct Hst|].
    destruct (step _ st c l) as [[st' out] k] eqn:Hstep. cbn.
    eapply sane_step in Hstep as [Hs _]; [exact Hs|apply sane_push_chunk_nested|done].
  - split; [rewrite Ho; apply same_options_refl|]. unfold tag_ok in *. by rewrite Hd.
Qed.

End Nesting.

(** ** Contract *)

(** C40: the loop that cuts a T-SQL batch at block boundaries ends by its own
    condition within as many iterations as the text has characters: more
    iterations give the same pieces, the pieces and the remainder make up the
    text, and the remainder has no boundary left inside it. *)
Theorem batch_loop_terminates (fuel : nat) (body : text) (Hfuel : length body <= fuel) :
  let '(pieces, trailing) := batch_pieces fuel body in
  batch_pieces (length body) body = (pieces, trailing)
  /\ body = concat pieces ++ trailing /\ no_inner_boundary trailing.
Proof.
  destruct (batch_pieces_exact fuel body Hfuel) as [Heq Hno].
  destruct (batch_pieces fuel body) as [pieces trailing] eqn:Hp.
  split_and!; [done|by eapply batch_pieces_concat|done].
Qed.

Definition tsql_two_blocks : text := %"IF 1=1 BEGIN SELECT 1; END SELECT 2".

Lemma batch_loop_terminates_witness :
  let '(pieces, trailing) := batch_pieces 100 tsql_two_blocks in
  batch_pieces (length tsql_two_blocks) tsql_two_blocks = (pieces, trailing)
  /\ tsql_two_blocks = concat pieces ++ trailing /\ no_inner_boundary trailing.
Proof. apply (batch_loop_terminates 100 tsql_two_blocks). by vm_compute; lia. Defined.

(** A psql command that is passed on to the SQL scanner never meets a psql
    command again: the recursion of [push_chunk_with_control] through
    [finish_psql_command] is one level deep, and any deeper bound gives the same
    result. *)
Theorem psql_recursion_is_one_level `{CharTable} `{OracleTokenizer} (depth : nat) (s : t) (chunk : text)
    (Htag : tag_ok s) :
  push_chunk_nested (S depth) s chunk = push_chunk_with_control s chunk.
Proof. by apply nested_exact. Qed.

Lemma psql_recursion_is_one_level_witness :
  let s := with_options (SqlParsingOptions.for_database_type Postgres) in
  push_chunk_nested (H := latin1_table) (H0 := fallback_tokenizer) 4 s (%"\d t
\set ON_ERROR_STOP on
SELECT 1;")
  = push_chunk_with_control (H := latin1_table) (H0 := fallback_tokenizer) s (%"\d t
\set ON_ERROR_STOP on
SELECT 1;").
Proof. intros s. apply psql_recursion_is_one_level. by intros tag. Defined.

(** * string literals are opaque to the splitter.

    A value written as an SQL string literal (quotes doubled, and backslashes
    doubled where the profile reads backslash escapes) goes through the splitter
    as one piece, whatever it contains: semicolons, comment openers, dollar
    tags, newlines, psql commands or [DELIMITER] lines inside it neither end the
    statement nor change the splitter's state. *)

Import SqlDialectProfile SqlStatementSplitter.

(** ** Quoting *)

Definition quote_char (backslash : bool) (c : char) : text :=
  if (c =? squote)%N then [squote; squote]
  else if backslash && (c =? bslash)%N then [bslash; bslash]
  else [c].

Definition literal_body (backslash : bool) (v : text) : text := concat (map (quote_char backslash) v).

Definition string_literal (backslash : bool) (v : text) : text :=
  squote :: literal_body backslash v ++ [squote].

Lemma literal_body_cons backslash c v :
  literal_body backslash (c :: v) = quote_char backslash c ++ literal_body backslash v.
Proof. done. Qed.

(** ** Statement level *)

(** No literal, comment or client command is open, and the terminator is [;]. *)
Record AtSql (s : t) : Prop := {
  at_single : in_single_quote s = false;
  at_escape : single_quote_escape_string s = false;
  at_double : in_double_quote s = false;
  at_backtick : in_backtick s = false;
  at_line : in_line_comment s = false;
  at_block : block_comment_depth s = 0;
  at_tag : dollar_quote_tag s = None;
  at_q : OracleQQuoteState.is_open (oracle_q_quote s) = false;
  at_psql : pending_psql_command s = None;
  at_delimiter : custom_delimiter s = None
}.

Lemma has_odd_snoc b c :
  has_odd_trailing_backslashes (b ++ [c])
  = if (c =? bslash)%N then negb (has_odd_trailing_backslashes b) else false.
Proof.
  unfold has_odd_trailing_backslashes. rewrite rev_app_distr. cbn [rev app take_while].
  unfold char_eqb at 1. rewrite N.eqb_sym. destruct (c =? bslash)%N; [|done].
  cbn [length]. by rewrite Nat.odd_succ, <- Nat.negb_odd.
Qed.

Section Literal.

Context `{CharTable} `{OracleTokenizer}.
Variable inner : t -> text -> t * list SqlStatementWithControl.
Variable s0 : t.
Hypothesis Hat : AtSql s0.

Abbreviation bs := (supports_backslash_escaped_quotes (prof s0)) (only parsing).

(** The state while the literal is read: [b] is the buffer, [q] whether the
    literal is open. *)
Definition reading (b : text) (prev : option char) (q : bool) : t :=
  set_previous prev (set_single_quote_escape_string (q && bs) (set_in_single_quote q (set_buffer b s0))).

(** The text before an opening quote does not change the meaning of the quote. *)
Definition plain_opening (b : text) : Prop :=
  (bs = true -> has_odd_trailing_backslashes b = false)
  /\ (supports_oracle_q_quotes (prof s0) = true -> ends_with_oracle_q_quote_prefix b = false)
  /\ (supports_postgres_escape_strings (prof s0) = true -> ends_with_escape_string_prefix b = false).

(** A quote that was just closed leaves such a text. *)
Lemma plain_opening_after_quote b : plain_opening (b ++ [squote]).
Proof.
  split_and!; intros _.
  - by rewrite has_odd_snoc.
  - unfold ends_with_oracle_q_quote_prefix. by rewrite rev_app_distr.
  - unfold ends_with_escape_string_prefix. by rewrite rev_app_distr.
Qed.

Lemma open_construct_quote rest s :
  (supports_oracle_q_quotes (prof s) = true -> ends_with_oracle_q_quote_prefix (buffer s) = false) ->
  open_construct squote rest s = None.
Proof.
  intros Hq. unfold open_construct.
  destruct (supports_oracle_q_quotes (prof s)); cbn [andb].
  - rewrite Hq by done. cbn. rewrite !andb_false_r. cbn. by destruct (supports_dollar_quoted_strings _).
  - cbn. rewrite !andb_false_r. cbn. by destruct (supports_dollar_quoted_strings _).
Qed.

(** Outside the literal a quote is read by the [match] of the loop. *)
Lemma step_at_quote b prev rest :
  plain_opening b ->
  step inner (reading b prev false) squote rest = plain_char squote (reading b prev false).
Proof.
  intros (_ & Hq & _). unfold step, sql_step. cbn. rewrite (at_psql _ Hat), andb_false_r. cbn.
  rewrite (at_tag _ Hat), (at_line _ Hat), (at_block _ Hat), (at_q _ Hat).
  unfold outside_quotes. cbn. rewrite (at_double _ Hat), (at_backtick _ Hat). cbn.
  by rewrite open_construct_quote.
Qed.

Lemma step_open b prev rest :
  plain_opening b ->
  step inner (reading b prev false) squote rest = (reading (b ++ [squote]) (Some squote) true, [], 0).
Proof.
  intros Hp. rewrite step_at_quote by done. destruct Hp as (Hb & _ & He).
  unfold plain_char, match_char, single_quote_backslash_escapes, prof. cbn.
  rewrite (at_double _ Hat), (at_backtick _ Hat). cbn.
  assert (supports_backslash_escaped_quotes (SqlParsingOptions.profile (options s0))
          && has_odd_trailing_backslashes b = false) as ->.
  { destruct (supports_backslash_escaped_quotes _) eqn:Hbs; [|done]. by apply Hb. }
  assert (supports_postgres_escape_strings (SqlParsingOptions.profile (options s0))
          && ends_with_escape_string_prefix b = false) as ->.
  { destruct (supports_postgres_escape_strings _) eqn:Hpg; [|done]. by apply He. }
  cbn. rewrite orb_false_r. unfold after_match, outside_quotes. cbn. done.
Qed.

Lemma step_close b prev rest :
  (bs = true -> has_odd_trailing_backslashes b = false) ->
  step inner (reading b prev true) squote rest = (reading (b ++ [squote]) (Some squote) false, [], 0).
Proof.
  intros Hb. unfold step, sql_step. cbn. rewrite (at_psql _ Hat), andb_false_r. cbn.
  rewrite (at_tag _ Hat), (at_line _ Hat), (at_block _ Hat), (at_q _ Hat).

  unfold plain_char, match_char, single_quote_backslash_escapes. cbn.
  rewrite (at_double _ Hat), (at_backtick _ Hat). cbn.
  assert (bs && has_odd_trailing_backslashes b = false) as ->.
  { destruct (supports_backslash_escaped_quotes _) eqn:Hbs; [|done]. by apply Hb. }
  cbn. unfold after_match, outside_quotes. cbn.
  rewrite (at_double _ Hat), (at_backtick _ Hat), (at_tag _ Hat). cbn.
  unfold after_delimiter. cbn. by rewrite (at_delimiter _ Hat).
Qed.

Lemma step_inside b prev c rest :
  c <> squote ->
  step inner (reading b prev true) c rest = (reading (b ++ [c]) (Some c) true, [], 0).
Proof.
  intros Hc. unfold step, sql_step. cbn. rewrite (at_psql _ Hat), !andb_false_r. cbn.
  rewrite (at_tag _ Hat), (at_line _ Hat), (at_block _ Hat), (at_q _ Hat).
  unfold plain_char, match_char.
  destruct (N.eqb_spec c squote) as [|_]; [done|]. cbn. rewrite !andb_false_r. cbn [andb]. done.
Qed.

Lemma scan_step s c l st : step inner s c l = (st, [], 0) -> scan_loop (step inner) s 0 (c :: l) = scan_loop (step inner) st 0 l.
Proof. intros Hs. rewrite scan_loop_cons, Hs, drop_0. by destruct (scan_loop (step inner) st 0 l). Qed.

(** The body of the literal is appended to the buffer; the literal stays open. *)
Lemma scan_literal_body v b prev rest :
  (bs = true -> has_odd_trailing_backslashes b = false) ->
  exists prev',
    scan_loop (step inner) (reading b prev true) 0 (literal_body bs v ++ rest)
    = scan_loop (step inner) (reading (b ++ literal_body bs v) prev' true) 0 rest
    /\ (bs = true -> has_odd_trailing_backslashes (b ++ literal_body bs v) = false).
Proof.
  revert b prev. induction v as [|c v IH]; intros b prev Hb.
  { exists prev. by rewrite app_nil_r. }
  rewrite !literal_body_cons. unfold quote_char.
  destruct (N.eqb_spec c squote) as [->|Hc]; [|destruct (bs && (c =? bslash)%N) eqn:Hbs]; cbn [app].
  - rewrite (scan_step _ _ _ _ (step_close b prev _ Hb)).
    rewrite (scan_step _ _ _ _ (step_open _ _ _ (plain_opening_after_quote b))).
    edestruct (IH ((b ++ [squote]) ++ [squote])) as (prev' & Heq & Hodd); [by rewrite has_odd_snoc|].
    exists prev'. rewrite Heq. by rewrite <- !app_assoc in *.
  - apply andb_true_iff in Hbs as [Hbs ->%N.eqb_eq].
    rewrite (scan_step _ _ _ _ (step_inside b prev bslash _ ltac:(done))).
    rewrite (scan_step _ _ _ _ (step_inside _ _ bslash _ ltac:(done))).
    edestruct (IH ((b ++ [bslash]) ++ [bslash])) as (prev' & Heq & Hodd).
    { intros _. rewrite !has_odd_snoc. cbn. by rewrite negb_involutive, Hb. }
    exists prev'. rewrite Heq. by rewrite <- !app_assoc in *.
  - rewrite (scan_step _ _ _ _ (step_inside b prev c _ Hc)).
    edestruct (IH (b ++ [c])) as (prev' & Heq & Hodd).
    { intros Hb'. rewrite has_odd_snoc. rewrite Hb' in Hbs. cbn in Hbs. by rewrite Hbs. }
    exists prev'. rewrite Heq. by rewrite <- !app_assoc in *.
Qed.

Lemma scan_literal v b prev rest :
  plain_opening b ->
  scan_loop (step inner) (reading b prev false) 0 (string_literal bs v ++ rest)
  = scan_loop (step inner) (reading (b ++ string_literal bs v) (Some squote) false) 0 rest.
Proof.
  intros Hp. unfold string_literal. cbn [app]. rewrite (scan_step _ _ _ _ (step_open b prev _ Hp)).
  rewrite <- app_assoc.
  edestruct (scan_literal_body v (b ++ [squote])) as (prev' & -> & Hodd); [by rewrite has_odd_snoc|].
  cbn [app]. rewrite (scan_step _ _ _ _ (step_close _ _ _ Hodd)). by rewrite <- !app_assoc.
Qed.

End Literal.

(** The state after a literal [l]: the buffer has it, nothing else changed. *)
Definition after_literal (l : text) (s : t) : t := set_previous (Some squote) (set_buffer (buffer s ++ l) s).

Lemma reading_at s b prev : AtSql s -> reading s b prev false = set_previous prev (set_buffer b s).
Proof.
  intros Hat. pose proof (at_single _ Hat) as Hs. pose proof (at_escape _ Hat) as He.
  destruct s. unfold reading. cbn in *. by subst.
Qed.

(** C6: string literals are opaque.  Wherever the splitter reads SQL (no
    literal, comment or command open, [;] the terminator), a string literal of
    any value is appended to the statement without ending it: the rest of the
    chunk is split from the same state. *)
Theorem string_literal_opaque `{CharTable} `{OracleTokenizer} (s : t) (v rest : text)
    (Hat : AtSql s)
    (Hdashes : pending_mysql_line_comment_dashes s = false)
    (Hopen : plain_opening s (buffer s)) :
  let l := string_literal (supports_backslash_escaped_quotes (prof s)) v in
  push_chunk_with_control s (l ++ rest) = push_chunk_with_control (after_literal l s) rest.
Proof.
  intros l. unfold push_chunk_with_control. cbn [push_chunk_nested].
  assert (forall chunk s', pending_mysql_line_comment_dashes s' = false -> resolve_pending_dashes chunk s' = s') as Hres.
  { intros [|c chunk] s' Hs'; cbn; [done|]. by rewrite Hs'. }
  rewrite !Hres by done.
  assert (reading s (buffer s) (previous s) false = s) as Hstart by (rewrite reading_at by done; by destruct s).
  rewrite <- Hstart at 1. subst l. rewrite scan_literal by done.
  by rewrite reading_at.
Qed.

#[local] Existing Instance latin1_table.
#[local] Existing Instance fallback_tokenizer.

Definition values_prefix : t :=
  fst (push_chunk_with_control (with_options (SqlParsingOptions.for_database_type Mysql)) %"SELECT 1; INSERT INTO t VALUES (").

Definition nasty_value : text := %"it's; \ -- /* $$
DELIMITER //
; '".

Lemma string_literal_opaque_witness :
  push_chunk_with_control values_prefix
    (string_literal (supports_backslash_escaped_quotes (prof values_prefix)) nasty_value ++ %"); SELECT 2;")
  = push_chunk_with_control
      (after_literal (string_literal (supports_backslash_escaped_quotes (prof values_prefix)) nasty_value) values_prefix)
      %"); SELECT 2;"
  /\ length (snd (push_chunk_with_control values_prefix
       (string_literal (supports_backslash_escaped_quotes (prof values_prefix)) nasty_value ++ %"); SELECT 2;"))) = 2.
Proof.
  split; [|by vm_compute].
  apply (string_literal_opaque values_prefix nasty_value (%"); SELECT 2;")).
  - constructor; by vm_compute.
  - by vm_compute.
  - split_and!; by vm_compute.
Defined.

(** PostgreSQL reads backslash escapes in a whole [E'...'] literal; the splitter
    forgets them after a doubled quote inside it, so the literal ends early and
    the statement is cut at a semicolon of the literal. *)
Lemma escape_string_forgets_backslashes :
  map sql (snd (push_chunk_with_control (with_options (SqlParsingOptions.for_database_type Postgres))
    %"SELECT E'a''b\';c'; SELECT 2;")) = [%"SELECT E'a''b\'"]
  /\ map sql (snd (push_chunk_with_control (with_options (SqlParsingOptions.for_database_type Postgres))
    %"SELECT E'ab\';c'; SELECT 2;")) = [%"SELECT E'ab\';c'"; %"SELECT 2"].
Proof. by vm_compute. Qed.
