(* ===== verification/SplitterTheorems.v ===== *)
(** * SplitterTheorems: the splitter and the boundaries of its chunks.

    A streamed file reaches the splitter in chunks.  The loop looks ahead at
    most one character, except for dollar-quote tags, so a chunk that ends with
    a character that cannot be the start of a longer token ([safe_boundary])
    may be cut there without changing anything: [push_chunk_app].  At the other
    characters the chunking can be observed, see [SplitterTheorems]. *)

From S2P Require Import Prelude DbTypes Dialect Lexis MysqlRoutine TSqlFlow PlSql Splitter SplitterFacts.

Import SqlDialectProfile SqlStatementSplitter.

(** Not the beginning of [--], [/*] or a dollar-quote tag. *)
Definition safe_boundary (c : char) : bool :=
  negb ((c =? dash)%N || (c =? slash)%N || (c =? dollar)%N || is_tag_char c).

(** A non-empty text whose last character is safe. *)
Definition ends_safely (a : text) : Prop := exists a' c, a = a' ++ [c] /\ safe_boundary c = true.

Lemma safe_boundary_spec c :
  safe_boundary c = true ->
  (c =? dash)%N = false /\ (c =? slash)%N = false /\ (c =? dollar)%N = false /\ is_tag_char c = false.
Proof. unfold safe_boundary. by destruct (c =? dash)%N, (c =? slash)%N, (c =? dollar)%N, (is_tag_char c). Qed.

Lemma ends_safely_cons c d l : ends_safely (c :: d :: l) -> ends_safely (d :: l).
Proof.
  intros ([|x a'] & e & Ha & He); simplify_eq/=. by exists a', e.
Qed.

Lemma ends_safely_suffix c l a : ends_safely a -> c :: l `suffix_of` a -> ends_safely (c :: l).
Proof.
  intros Ha [p ->]. induction p as [|x p IH]; [done|]. apply IH. simpl in Ha.
  destruct (p ++ c :: l) as [|y q] eqn:Hq; [by destruct p|]. by eapply ends_safely_cons.
Qed.

Lemma ends_safely_single c : ends_safely [c] -> safe_boundary c = true.
Proof. intros ([|x a'] & e & Ha & He); simplify_eq/=; [done|]. by destruct a'. Qed.

Lemma dollar_quote_tag_rest_app l b :
  ends_safely l -> dollar_quote_tag_rest (l ++ b) = dollar_quote_tag_rest l.
Proof.
  induction l as [|c [|d l] IH]; intros Hl.
  - by destruct Hl as ([|] & ? & ? & ?).
  - apply ends_safely_single, safe_boundary_spec in Hl as (_ & _ & H1 & H2). simpl. by rewrite H1, H2.
  - simpl. simpl in IH. rewrite IH by (by eapply ends_safely_cons). done.
Qed.

Lemma dollar_quote_tag_at_app l b :
  ends_safely l -> dollar_quote_tag_at (l ++ b) = dollar_quote_tag_at l.
Proof.
  destruct l as [|c0 [|c1 [|c2 l]]]; intros Hl.
  - by destruct Hl as ([|] & ? & ? & ?).
  - apply ends_safely_single, safe_boundary_spec in Hl as (_ & _ & H1 & _). simpl. by rewrite H1.
  - apply ends_safely_cons, ends_safely_single, safe_boundary_spec in Hl as (_ & _ & H1 & H2).
    simpl. rewrite H1. unfold is_tag_char, is_ascii_alphanumeric in H2.
    by destruct (is_ascii_alphabetic c1), (is_ascii_digit c1), (c1 =? under)%N.
  - simpl. simpl app. apply ends_safely_cons, ends_safely_cons in Hl.
    pose proof (dollar_quote_tag_rest_app _ b Hl) as Hr. simpl in Hr. by rewrite Hr.
Qed.

(** An open tag cannot start in a safe chunk and end after it. *)
Lemma tag_not_cut tag l b : dollar_tag tag -> ends_safely l -> starts_with tag (l ++ b) = starts_with tag l.
Proof.
  intros (mid & -> & Hmid) Hl. apply eq_true_iff_eq. rewrite !starts_with_app. split.
  - intros [r Hr]. destruct (decide (length (dollar :: mid ++ [dollar]) <= length l)) as [Hle|Hlt].
    + apply (f_equal (take (length l))) in Hr. rewrite take_app_length, take_app_ge in Hr by done. eauto.
    + exfalso. destruct Hl as (a & c & -> & Hc). apply safe_boundary_spec in Hc as (_ & _ & Hd & Ht).
      rewrite <- app_assoc in Hr. rewrite length_app in Hlt. simpl in Hlt. rewrite length_app in Hlt. simpl in *.
      destruct a as [|x a]; simpl in Hr; injection Hr as Hx Hr.
      { subst c. by vm_compute in Hd. }
      apply (f_equal (.!! length a)) in Hr. rewrite list_lookup_middle in Hr by done.
      simpl in Hlt. rewrite lookup_app_l in Hr by (rewrite length_app; simpl; lia).
      destruct (decide (length a < length mid)) as [Hin|Hout].
      * rewrite lookup_app_l in Hr by done.
        eapply Forall_lookup_1 in Hmid; [|done]. simpl in Hmid. congruence.
      * rewrite lookup_app_r in Hr by lia. replace (length a - length mid) with 0 in Hr by lia.
        injection Hr as ->. by vm_compute in Hd.
  - intros [r ->]. rewrite <- app_assoc. by eexists.
Qed.

Section ChunkBoundary.

Context `{CharTable} `{OracleTokenizer}.

Lemma head_app_ne {A} (x : A) l b : head ((x :: l) ++ b) = head (x :: l).
Proof. done. Qed.

Lemma open_construct_app s c l b :
  ends_safely (c :: l) -> open_construct c (l ++ b) s = open_construct c l s.
Proof.
  intros Hl. unfold open_construct. change (c :: l ++ b) with ((c :: l) ++ b).
  rewrite (dollar_quote_tag_at_app (c :: l) b Hl).
  destruct l as [|d l]; [|done].
  apply ends_safely_single, safe_boundary_spec in Hl as (H1 & H2 & H3 & H4).
  rewrite H1, H2. by rewrite !andb_false_r.
Qed.

Lemma sql_step_app s c l b :
  tag_ok s -> ends_safely (c :: l) -> sql_step s c (l ++ b) = sql_step s c l.
Proof.
  intros Ht Hl. unfold sql_step. rewrite (open_construct_app s c l b Hl).
  destruct (dollar_quote_tag s) as [tag|] eqn:Hq; [|done].
  unfold starts_with_chars. change (c :: l ++ b) with ((c :: l) ++ b).
  by rewrite (tag_not_cut tag (c :: l) b (Ht tag Hq) Hl).
Qed.

Lemma step_app inner s c l b :
  tag_ok s -> ends_safely (c :: l) -> step inner s c (l ++ b) = step inner s c l.
Proof. intros Ht Hl. unfold step. by rewrite (sql_step_app s c l b Ht Hl). Qed.

(** ** What an iteration reads and leaves *)

Lemma sql_step_extra s c l s' out n :
  tag_ok s -> sql_step s c l = (s', out, n) -> n <= length l.
Proof.
  intros Ht. unfold sql_step.
  assert (forall tag r, dollar_tag tag -> c :: l = tag ++ r -> pred (length tag) <= length l) as Htag.
  { intros tag r (mid & -> & _) Heq. apply (f_equal length) in Heq.
    rewrite length_app in Heq. simpl in *. rewrite length_app in *. simpl in *. lia. }
  assert (forall s1 s2 o2 k, plain_char c s1 = (s2, o2, k) -> k <= length l) as Hplain.
  { intros s1 s2 o2 k. unfold plain_char. destruct (match_char c s1), (after_match c t0).
    intros [= <- <- <-]. lia. }
  destruct (dollar_quote_tag s) as [tag|] eqn:Hq.
  { destruct (starts_with_chars (c :: l) tag) eqn:Hs; intros [= <- <- <-]; [|lia].
    apply starts_with_app in Hs as [r Hr]. by eapply Htag; [apply Ht|]. }
  destruct (in_line_comment s); [intros [= <- <- <-]; lia|].
  destruct (block_comment_depth s); [|repeat case_match; intros [= <- <- <-]; lia].
  destruct (OracleQQuoteState.is_open _); [intros [= <- <- <-]; lia|].
  destruct (outside_quotes s); [|by apply Hplain].
  destruct (open_construct c l s) as [[s1 k]|] eqn:Hoc; [|by apply Hplain].
  intros [= <- <- <-]. revert Hoc. unfold open_construct.
  repeat (destruct (_ && _); [intros [= <- <-]; lia|]).
  destruct (supports_dollar_quoted_strings _); [|done].
  destruct (dollar_quote_tag_at (c :: l)) as [tag|] eqn:Htg; [|done].
  destruct (_ && _); [|done]. intros [= <- <-].
  apply dollar_quote_tag_at_shape in Htg as [Hshape [r Hr]]. by eapply Htag.
Qed.

Lemma plain_char_dashes c s s' out n :
  pending_mysql_line_comment_dashes s = false -> plain_char c s = (s', out, n) ->
  pending_mysql_line_comment_dashes s' = false.
Proof.
  intros Hs. unfold plain_char. destruct (match_char c s) as [s1 o1] eqn:H1.
  apply (emits_match_char (options s)) in H1 as [_ [_ _ _ _ Hf]]; [|done].
  assert (pending_mysql_line_comment_dashes s1 = false) as Hs1
    by (destruct (pending_mysql_line_comment_dashes s1); [by rewrite Hf in Hs|done]).
  destruct (after_match c s1) as [s2 o2] eqn:H2. intros [= <- <- <-]. revert H2.
  unfold after_match, after_newline, after_delimiter.
  repeat case_match; intros ?; simplify_eq/=; try done;
    match goal with Hp : push_current_statement _ = _ |- _ => by injection Hp as <- <- end.
Qed.

Lemma sql_step_dashes s c l s' out n :
  pending_mysql_line_comment_dashes s = false -> ends_safely (c :: l) ->
  sql_step s c l = (s', out, n) -> pending_mysql_line_comment_dashes s' = false.
Proof.
  intros Hs Hl. unfold sql_step.
  assert (forall tag s1, pending_mysql_line_comment_dashes s1 = false ->
            pending_mysql_line_comment_dashes (push_tag tag s1) = false) as Htag.
  { intros tag s1 H1. pose proof (push_tag_frame tag s1) as [_ _ _ _ Hf].
    destruct (pending_mysql_line_comment_dashes (push_tag tag s1)); [by rewrite Hf in H1|done]. }
  destruct (dollar_quote_tag s) as [tag|]; [case_match; intros [= <- <- <-]; simpl; auto|].
  destruct (in_line_comment s); [intros [= <- <- <-]; by destruct (c =? nl)%N|].
  destruct (block_comment_depth s); [|by repeat case_match; intros [= <- <- <-]].
  destruct (OracleQQuoteState.is_open _); [by intros [= <- <- <-]|].
  destruct (outside_quotes s); [|by apply plain_char_dashes].
  destruct (open_construct c l s) as [[s1 k]|] eqn:Hoc; [|by apply plain_char_dashes].
  intros [= <- <- <-]. revert Hoc. unfold open_construct.
  destruct (_ && ends_with_oracle_q_quote_prefix _); [by intros [= <- <-]|].
  destruct (_ && match head l with Some _ => _ | None => _ end) eqn:Hlast.
  { exfalso. apply andb_true_iff in Hlast as [[[_ Hc]%andb_true_iff _]%andb_true_iff Hhead].
    destruct l; [|done]. apply ends_safely_single, safe_boundary_spec in Hl as (Hc' & _). congruence. }
  repeat match goal with |- (if ?b then _ else _) = _ -> _ => destruct b; [by intros [= <- <-]|] end.
  destruct (if supports_dollar_quoted_strings _ then _ else _); [|done].
  match goal with |- (if ?b then _ else _) = _ -> _ => destruct b; [|done] end.
  intros [= <- <-]. simpl. apply Htag. by repeat case_match.
Qed.

(** ** Cutting a chunk *)

(** The state between two iterations of a chunk that ends safely. *)
Definition between (s : t) : Prop := tag_ok s /\ pending_mysql_line_comment_dashes s = false.

(** A recursive call on a text that ends safely leaves such a state. *)
Definition SettlesSafely (run : t -> text -> t * list SqlStatementWithControl) : Prop :=
  forall s chunk s' out, between s -> ends_safely chunk -> run s chunk = (s', out) -> between s'.

Lemma newline_safe a : ends_safely (a ++ [nl]).
Proof. by exists a, nl. Qed.

Lemma sql_step_tag s c l s' out n : tag_ok s -> sql_step s c l = (s', out, n) -> tag_ok s'.
Proof.
  intros Ht Hs. eapply (emits_sql_step (options s)) in Hs as [_ [_ _ Hk]]; [|done..].
  intros tag Htag. destruct (Hk tag Htag); auto.
Qed.

Lemma step_between inner s c l :
  SettlesSafely inner -> between s -> ends_safely (c :: l) ->
  let '(s', _, extra) := step inner s c l in between s' /\ extra <= length l.
Proof.
  intros Hinner [Ht Hp] Hl. destruct (step inner s c l) as [[s' out] n] eqn:Hs. revert Hs. unfold step.
  destruct (pending_psql_command s) as [command|].
  - destruct (c =? nl)%N eqn:Hc; [|intros [= <- <- <-]; split; [done|lia]].
    unfold finish_psql_command.
    destruct (parse_ignorable_psql_control_command _); [intros [= <- <- <-]; split; [done|lia]|].
    destruct (inner _ (command ++ [c])) as [s1 out1] eqn:Hi. intros [= <- <- <-].
    apply N.eqb_eq in Hc as ->. apply Hinner in Hi as [H1 H2]; [|done|apply newline_safe]. split; [done|lia].
  - destruct (_ && is_empty _); [intros [= <- <- <-]; split; [done|lia]|].
    intros Hs. split; [split; [by eapply sql_step_tag|by eapply sql_step_dashes]|by eapply sql_step_extra].
Qed.

Lemma resolve_pending_between chunk s : tag_ok s -> chunk <> [] -> between (resolve_pending_dashes chunk s).
Proof.
  intros Ht Hne. unfold resolve_pending_dashes. destruct chunk; [done|].
  destruct (pending_mysql_line_comment_dashes s) eqn:Hp; split; done.
Qed.

Lemma ends_safely_ne a : ends_safely a -> a <> [].
Proof. by intros ([|] & c & -> & _). Qed.

Lemma scan_between inner chunk s s' out :
  SettlesSafely inner -> tag_ok s -> ends_safely chunk ->
  scan_loop (step inner) (resolve_pending_dashes chunk s) 0 chunk = (s', out) -> between s'.
Proof.
  intros Hinner Ht Hl Hrun.
  eapply (scan_loop_invariant _ chunk (fun _ s _ => between s) _ chunk [] _ []) in Hrun;
    [exact Hrun|done|]. { by apply resolve_pending_between; [|apply ends_safely_ne]. }
  Unshelve. intros done s1 out1 c rest s2 out2 n Hwhole Hb Hstep.
  assert (ends_safely (c :: rest)) as Hl' by (eapply ends_safely_suffix; [exact Hl|by exists done]).
  pose proof (step_between inner s1 c rest Hinner Hb Hl') as Hs. rewrite Hstep in Hs. by destruct Hs.
Qed.

Lemma push_chunk_nested_settles nesting : SettlesSafely (push_chunk_nested nesting).
Proof.
  induction nesting as [|n IH]; intros s chunk s' out [Ht Hp] Hl Hrun; simpl in Hrun;
    (eapply scan_between; [|exact Ht|exact Hl|exact Hrun]); [|exact IH].
  by intros s1 c1 s2 o2 H1 _ [= <- <-].
Qed.

(** Cutting a chunk after a safe character changes neither the statements
    emitted nor the state reached. *)
Lemma push_chunk_app s a b :
  tag_ok s -> ends_safely a ->
  push_chunk_with_control s (a ++ b) =
  let '(s1, o1) := push_chunk_with_control s a in
  let '(s2, o2) := push_chunk_with_control s1 b in (s2, o1 ++ o2).
Proof.
  intros Ht Ha. pose (inner := push_chunk_nested 0).
  change push_chunk_with_control
    with (fun s chunk => scan_loop (step inner) (resolve_pending_dashes chunk s) 0 chunk). cbv beta. pose proof (ends_safely_ne a Ha) as Hne.
  replace (resolve_pending_dashes (a ++ b) s) with (resolve_pending_dashes a s) by (by destruct a).
  rewrite (scan_loop_app (step inner) between b a).
  - destruct (scan_loop (step inner) (resolve_pending_dashes a s) 0 a) as [s1 o1] eqn:Hrun.
    apply scan_between in Hrun as [Ht1 Hp1]; [|apply push_chunk_nested_settles|done..].
    unfold resolve_pending_dashes. destruct b as [|x b]; [done|]. by rewrite Hp1.
  - intros s0 c l Hb Hsuf. pose proof (ends_safely_suffix _ _ _ Ha Hsuf) as Hl. split.
    + apply step_app; [by destruct Hb|done].
    + apply step_between; [apply push_chunk_nested_settles|done..].
  - by apply resolve_pending_between.
Qed.

Lemma push_chunk_tag s chunk s' out :
  same_options (options s) (options s) -> tag_ok s -> push_chunk_with_control s chunk = (s', out) -> tag_ok s'.
Proof.
  intros Hs Ht Hrun. eapply (sane_push_chunk_nested (options s) 1) in Hrun as [[_ Ht'] _]; [done|by split].
Qed.

(** The same for a whole list of chunks. *)
Lemma push_chunks_concat chunks last s :
  tag_ok s -> Forall ends_safely chunks ->
  push_chunks s (chunks ++ [last]) = push_chunk_with_control s (concat chunks ++ last).
Proof.
  revert s. induction chunks as [|c cs IH]; intros s Ht Hcs; cbn [app push_chunks concat].
  - destruct (push_chunk_with_control s last) as [s1 o1]. by rewrite app_nil_r.
  - apply Forall_cons in Hcs as [Hc Hcs]. rewrite <- app_assoc, push_chunk_app by done.
    destruct (push_chunk_with_control s c) as [s1 o1] eqn:H1.
    rewrite IH; [done| |done]. eapply push_chunk_tag; [apply same_options_refl|done..].
Qed.

End ChunkBoundary.

(** * the contract of the statement splitter.

    The theorems about [SqlStatementSplitter] as a whole, each with a witness on
    a concrete script, and the two places where the lexer departs from what its
    comments promise. *)

Import SqlDialectProfile SqlStatementSplitter.

Section Contract.

Context `{CharTable} `{OracleTokenizer}.

(** C1: splitting loses no SQL.  However a script is cut into chunks, for every
    profile without psql commands the script is, from its beginning to its end, a
    sequence of the statements emitted, in order, and of pieces that are no SQL:
    blanks and comments (the grammar [Inert]), terminators ([;], or the delimiter in
    force instead of it), and command lines, each alone on its line: a [/] where the
    profile ends blocks with it, and [DELIMITER x], which puts [x] in force.  The
    comments of the script are plain: no [/*/], and no [*/*] where comments nest
    ([nested_close_loses_statement] and [slash_star_slash_reopens_statement] show
    what happens there). *)
Theorem split_stream_conserves (o : SqlParsingOptions.t) (chunks : list text)
    (Hpsql : supports_psql_control_commands (SqlParsingOptions.profile o) = false)
    (Hplain : plain_comments (SqlParsingOptions.profile o) (concat chunks) = true) :
  ReadsScript o (Inert (SqlParsingOptions.profile o)) None (concat chunks) (map sql (split_stream o chunks)).
Proof. by apply split_stream_reads_plain. Qed.

(** C2: no statement without SQL is sent.  For every profile, psql commands
    included, and every chunking, an emitted statement is trimmed and is not made of
    blanks and comments only (the grammar [Inert], which knows nothing of the lexer).
    The claim is for statements with plain comments: [/*/ DROP TABLE t; *] followed by
    [/] is a comment, and is emitted in two parts
    ([slash_star_slash_reopens_statement]). *)
Theorem split_stream_only_executable (o : SqlParsingOptions.t) (chunks : list text) (st : SqlStatementWithControl)
    (Hst : st ∈ split_stream o chunks) (Hplain : plain_comments (SqlParsingOptions.profile o) (sql st) = true) :
  trim (sql st) = sql st /\ ~ Inert (SqlParsingOptions.profile o) (sql st).
Proof.
  pose proof (split_stream_executable o chunks) as Hall. rewrite Forall_forall in Hall. destruct (Hall st Hst) as [Hx Ht].
  split; [done|]. rewrite <- not_executable_inert by done. congruence.
Qed.

(** C3: chunk boundaries are invisible.  If every chunk but the last ends with a
    character that cannot begin a longer token, streaming the chunks gives
    exactly the statements of the whole text, for every profile. *)
Theorem split_stream_chunk_invariant (o : SqlParsingOptions.t) (chunks : list text) (last : text)
    (Hsafe : Forall ends_safely chunks) :
  split_stream o (chunks ++ [last]) = split_stream o [concat chunks ++ last].
Proof.
  unfold split_stream. rewrite push_chunks_concat by done. cbn [push_chunks].
  destruct (push_chunk_with_control _ _) as [s out]. by rewrite app_nil_r.
Qed.

End Contract.

(** ** Witnesses *)

#[local] Existing Instance latin1_table.
#[local] Existing Instance fallback_tokenizer.

Definition mysql_options : SqlParsingOptions.t := SqlParsingOptions.for_database_type Mysql.

Definition delimiter_script : list text :=
  [%"DELIMITER $$
CREATE PROCEDURE p() BEGIN SELECT 1; EN"; %"D$$
DELIMITER ;
SELECT ';'; -- done"].

Lemma split_stream_conserves_witness :
  map sql (split_stream mysql_options delimiter_script)
    = [%"CREATE PROCEDURE p() BEGIN SELECT 1; END"; %"SELECT ';'"]
  /\ ReadsScript mysql_options (Inert (SqlParsingOptions.profile mysql_options)) None (concat delimiter_script)
       (map sql (split_stream mysql_options delimiter_script)).
Proof. split; [by vm_compute|]. by apply split_stream_conserves. Defined.

Lemma split_stream_only_executable_witness :
  trim (sql (mk_stmt %"SELECT ';'" false)) = %"SELECT ';'"
  /\ ~ Inert (SqlParsingOptions.profile mysql_options) (sql (mk_stmt %"SELECT ';'" false)).
Proof.
  apply (split_stream_only_executable mysql_options delimiter_script); [|by vm_compute].
  replace (split_stream mysql_options delimiter_script)
    with [mk_stmt %"CREATE PROCEDURE p() BEGIN SELECT 1; END" false; mk_stmt %"SELECT ';'" false] by (by vm_compute).
  apply list_elem_of_further, list_elem_of_here.
Defined.

Lemma split_stream_chunk_invariant_witness :
  Forall ends_safely [%"SELECT 1; SELECT '"]
  /\ split_stream mysql_options ([%"SELECT 1; SELECT '"] ++ [%";' FROM t"])
     = split_stream mysql_options [concat [%"SELECT 1; SELECT '"] ++ %";' FROM t"]
  /\ map sql (split_stream mysql_options [%"SELECT 1; SELECT '"; %";' FROM t"])
     = [%"SELECT 1"; %"SELECT ';' FROM t"].
Proof.
  assert (Forall ends_safely [%"SELECT 1; SELECT '"]) as Hs.
  { constructor; [|constructor]. by exists (%"SELECT 1; SELECT "), squote. }
  split; [exact Hs|]. split; [by apply split_stream_chunk_invariant|by vm_compute].
Defined.

(** ** Where the lexer departs from its comments *)

(** A dollar-quote tag that is cut by a chunk boundary is not recognised, so the
    routine body is split at its inner semicolon; the uncut script is not. *)
Lemma dollar_tag_cut_by_chunk :
  let o := SqlParsingOptions.for_database_type Vastbase in
  map sql (split_stream o [%"CREATE FUNCTION f() AS $"; %"$ BEGIN; END $$"])
    = [%"CREATE FUNCTION f() AS $$ BEGIN"; %"END $$"]
  /\ map sql (split_stream o [%"CREATE FUNCTION f() AS $$ BEGIN; END $$"])
    = [%"CREATE FUNCTION f() AS $$ BEGIN; END $$"].
Proof. by vm_compute. Qed.

(** The opener [/*/] is taken for a complete comment: the asterisk of the opener
    pairs with the slash after it.  A statement inside the comment is emitted for
    execution; [leading_executable_sql], which reads the same comment, agrees with
    the servers that the comment is still open, and so does the splitter itself
    when a chunk boundary separates the slash from the asterisk. *)
Lemma slash_star_slash_reopens_statement :
  split_sql_statements %"SELECT 1 /*/; DROP TABLE t; */" = [%"SELECT 1 /*/"; %"DROP TABLE t"; %"*/"]
  /\ has_executable_sql %"/*/ DROP TABLE t */" = true
  /\ leading_executable_sql %"/*/ DROP TABLE t */" = []
  /\ map sql (split_stream SqlParsingOptions.default [%"SELECT 1 /"; %"*/; DROP TABLE t; */"])
     = [%"SELECT 1 /*/; DROP TABLE t; */"].
Proof. by vm_compute. Qed.

(** Where comments nest, an inner end followed by an asterisk is taken for an end and
    a new beginning: the comment is over, but the statement behind it is dropped. *)
Lemma nested_close_loses_statement :
  let o := SqlParsingOptions.for_database_type Postgres in
  split_sql_statements_with_options %"/* a /* b */* c */ DROP TABLE t" o = []
  /\ split_sql_statements_with_options %"/* a /* b */ * c */ DROP TABLE t" o = [%"/* a /* b */ * c */ DROP TABLE t"].
Proof. by vm_compute. Qed.
