(* ===== verification/StateStore.v ===== *)
(** * StateStore: persisted states with optimistic locking.

    The [state_store] table of [crates/dbx-core/src/persistence/storage.rs], the
    [StateBackend] trait with its SQLite implementation, and the [StateMachine]
    of [persistence/state_persistence.rs].

    An [async fn] that returns [Result<A, String>] is a function of type
    [M W A]: it maps a world to a world and a result, and [?] is the monadic
    bind.  Every [with_conn] closure runs on one locked connection, so it is one
    atomic step of the store; [faults] says which of the coming closures fail
    (and change nothing).  The [serde_json] crate is the class [Json]. *)

From stdpp Require Import gmap.
From S2P Require Import Prelude.

Abbreviation bytes := (list N) (only parsing).

Inductive result (A : Type) : Type :=
| Ok (a : A)
| Err (e : text).
Arguments Ok {A} a.
Arguments Err {A} e.

Definition M (W A : Type) : Type := W -> W * result A.

#[export] Instance M_ret W : MRet (M W) := fun A a w => (w, Ok a).
#[export] Instance M_bind W : MBind (M W) := fun A B f m w =>
  match m w with
  | (w', Ok a) => f a w'
  | (w', Err e) => (w', Err e)
  end.

Definition fail {W A} (e : text) : M W A := fun w => (w, Err e).

(** [let _ = m.await;]. *)
Definition ignore {W A} (m : M W A) : M W unit := fun w => (fst (m w), Ok tt).

(** [result.map_err(|e| e.to_string())?] on a pure result. *)
Definition lift_result {W A} (r : result A) : M W A := fun w => (w, r).

Class Json (A : Type) := {
  to_vec : A -> result bytes;
  from_slice : bytes -> result A
}.

(** What the code relies on: a value that was written is read back. *)
Class JsonRoundTrip (A : Type) `{Json A} :=
  from_slice_to_vec : forall (a : A) b, to_vec a = Ok b -> from_slice b = Ok a.

(** ** The table *)

Module Storage.

Record Row : Set := mk_row { row_value : bytes; row_content_type : text; row_version : N }.

Record t : Set := mk { rows : gmap text Row; faults : list (option text) }.

Definition with_conn {A} (f : gmap text Row -> gmap text Row * result A) : M t A := fun s =>
  match faults s with
  | Some e :: later => (mk (rows s) later, Err e)
  | None :: later => let '(rows', r) := f (rows s) in (mk rows' later, r)
  | [] => let '(rows', r) := f (rows s) in (mk rows' [], r)
  end.

Definition save_state (key : text) (value : bytes) (content_type : text) : M t unit :=
  with_conn (fun rows =>
    (<[key := mk_row value content_type
                (match rows !! key with Some row => row_version row + 1 | None => 1 end)%N]> rows, Ok tt)).

Definition load_state (key : text) : M t (option (bytes * text)) :=
  with_conn (fun rows => (rows, Ok ((fun row => (row_value row, row_content_type row)) <$> rows !! key))).

Definition delete_state (key : text) : M t unit := with_conn (fun rows => (delete key rows, Ok tt)).

Definition state_exists (key : text) : M t bool :=
  with_conn (fun rows => (rows, Ok (match rows !! key with Some _ => true | None => false end))).

Definition get_state_version (key : text) : M t (option N) :=
  with_conn (fun rows => (rows, Ok (row_version <$> rows !! key))).

Definition compare_and_swap_state (key : text) (expected_version : option N) (new_value : bytes) (content_type : text)
    : M t bool :=
  with_conn (fun rows =>
    match rows !! key, expected_version with
    | None, None => (<[key := mk_row new_value content_type 1%N]> rows, Ok true)
    | Some row, Some expected =>
        if (row_version row =? expected)%N
        then (<[key := mk_row new_value content_type (row_version row + 1)%N]> rows, Ok true)
        else (rows, Ok false)
    | _, _ => (rows, Ok false)
    end).

End Storage.

(** ** Backends *)

(** The trait [StateBackend]. *)
Class StateBackend (B : Type) := {
  save : text -> bytes -> M B unit;
  save_with_content_type : text -> bytes -> text -> M B unit;
  load : text -> M B (option bytes);
  delete_key : text -> M B unit;
  key_exists : text -> M B bool;
  compare_and_swap : text -> option bytes -> bytes -> M B bool
}.

(** The trait's default [compare_and_swap]. *)
Definition default_compare_and_swap {B} (key : text) (old : option bytes) (new : bytes) : M B bool :=
  fail %"CAS not supported by this backend".

(** What a backend promises to its clients, stated on the bytes [stored] under
    each key: a save that succeeds is visible, one that fails happened or did
    not; loading returns what is stored and changes nothing; every operation
    leaves the other keys alone. *)
Class BackendLaws (B : Type) `{StateBackend B} := {
  stored : B -> text -> option bytes;
  save_spec k v b b' r :
    save k v b = (b', r) ->
    match r with
    | Ok _ => stored b' k = Some v
    | Err _ => stored b' k = stored b k \/ stored b' k = Some v
    end /\ (forall k', k' <> k -> stored b' k' = stored b k');
  load_spec k b b' r :
    load k b = (b', r) -> (forall v, r = Ok v -> v = stored b k) /\ (forall k', stored b' k' = stored b k');
  cas_spec k old new b b' r :
    compare_and_swap k old new b = (b', r) -> forall k', k' <> k -> stored b' k' = stored b k'
}.

Record StateEntry (Value : Type) : Type := mk_entry {
  entry_key : text;
  current_state : text;
  version : N;
  metadata : Value
}.
Arguments mk_entry {Value} _ _ _ _.
Arguments entry_key {Value} _.
Arguments current_state {Value} _.
Arguments version {Value} _.
Arguments metadata {Value} _.

Section LocalBackend.

Context {Value : Type} `{Json (StateEntry Value)}.

Definition local_compare_and_swap (key : text) (old : option bytes) (new : bytes) : M Storage.t bool :=
  expected_version ←
    match old with
    | Some data =>
        match from_slice data with
        | Ok entry => mret (Some (version (Value := Value) entry))
        | Err e => fail (%"CAS deserialize error: " ++ e)
        end
    | None => mret None
    end;
  Storage.compare_and_swap_state key expected_version new %"application/json".

Definition LocalBackend : StateBackend Storage.t := {|
  save key value := Storage.save_state key value %"application/octet-stream";
  save_with_content_type key value content_type := Storage.save_state key value content_type;
  load key := opt ← Storage.load_state key; mret (fst <$> opt);
  delete_key key := Storage.delete_state key;
  key_exists key := Storage.state_exists key;
  compare_and_swap := local_compare_and_swap
|}.

End LocalBackend.

(** ** States and transitions *)

Inductive StateTransition : Set :=
| Created
| Running
| Paused
| OscSyncing
| Completed
| Failed
| Cancelled
| RollingBack
| FullyRolledBack
| PartiallyRolledBack
| RecoveryRequired.

#[export] Instance StateTransition_eq_dec : EqDecision StateTransition.
Proof. solve_decision. Defined.

Definition state_as_str (s : StateTransition) : text :=
  match s with
  | Created => %"created"
  | Running => %"running"
  | Paused => %"paused"
  | OscSyncing => %"osc_syncing"
  | Completed => %"completed"
  | Failed => %"failed"
  | Cancelled => %"cancelled"
  | RollingBack => %"rolling_back"
  | FullyRolledBack => %"fully_rolled_back"
  | PartiallyRolledBack => %"partially_rolled_back"
  | RecoveryRequired => %"recovery_required"
  end.

Definition state_from_str (s : text) : option StateTransition :=
  if text_eqb s %"created" then Some Created
  else if text_eqb s %"running" then Some Running
  else if text_eqb s %"paused" then Some Paused
  else if text_eqb s %"osc_syncing" then Some OscSyncing
  else if text_eqb s %"completed" then Some Completed
  else if text_eqb s %"failed" then Some Failed
  else if text_eqb s %"cancelled" then Some Cancelled
  else if text_eqb s %"rolling_back" then Some RollingBack
  else if text_eqb s %"fully_rolled_back" then Some FullyRolledBack
  else if text_eqb s %"partially_rolled_back" then Some PartiallyRolledBack
  else if text_eqb s %"recovery_required" then Some RecoveryRequired
  else None.

Definition ALLOWED_TRANSITIONS : list (StateTransition * list StateTransition) :=
  [(Created, [Running; Cancelled]);
   (Running, [Paused; OscSyncing; Completed; Failed]);
   (Paused, [Running; Cancelled]);
   (OscSyncing, [Completed; Failed]);
   (Completed, [RollingBack; FullyRolledBack]);
   (Failed, [Running; Cancelled; RollingBack; RecoveryRequired]);
   (Cancelled, []);
   (RollingBack, [FullyRolledBack; PartiallyRolledBack; RecoveryRequired]);
   (FullyRolledBack, []);
   (PartiallyRolledBack, [RecoveryRequired]);
   (RecoveryRequired, [])].

Definition is_valid_transition (from to : StateTransition) : bool :=
  existsb (fun '(state, allowed) => bool_decide (state = from) && bool_decide (to ∈ allowed)) ALLOWED_TRANSITIONS.

Definition STATE_KEY_PREFIX : text := %"state:".

Module StateMachine.

Section Machine.

Context {B Value : Type} `{StateBackend B} `{Json (StateEntry Value)} (null : Value).

Definition create_state (key : text) (metadata : Value) : M B (StateEntry Value) :=
  let entry := mk_entry key (state_as_str Created) 1%N metadata in
  data ← lift_result (to_vec entry);
  _ ← save (STATE_KEY_PREFIX ++ key) data;
  mret entry.

Definition get_state (key : text) : M B (option (StateEntry Value)) :=
  raw ← load (STATE_KEY_PREFIX ++ key);
  match raw with
  | Some data => entry ← lift_result (from_slice data); mret (Some entry)
  | None => mret None
  end.

Definition compare_and_swap_state (key : text) (expected_version : N) (new_state : StateEntry Value) : M B bool :=
  let old_entry := mk_entry key [] expected_version null in
  old_data ← lift_result (to_vec old_entry);
  new_data ← lift_result (to_vec new_state);
  compare_and_swap (STATE_KEY_PREFIX ++ key) (Some old_data) new_data.

Definition delete_state (key : text) : M B unit := delete_key (STATE_KEY_PREFIX ++ key).

(** The first half of an iteration of [transition]: load the entry, check the
    transition, and compute the entry to store. *)
Definition next_entry (key : text) (to : StateTransition) : M B (StateEntry Value * StateEntry Value) :=
  raw ← load (STATE_KEY_PREFIX ++ key);
  entry ← match raw with
          | Some data => lift_result (from_slice data)
          | None => fail (%"State not found: " ++ key)
          end;
  current ← match state_from_str (current_state entry) with
            | Some current => mret current
            | None => fail (%"Invalid current state: " ++ current_state entry)
            end;
  if negb (is_valid_transition current to)
  then fail (%"Invalid transition: " ++ state_as_str current ++ %" -> " ++ state_as_str to)
  else mret (entry, mk_entry (entry_key entry) (state_as_str to) (version entry + 1)%N (metadata entry)).

(** [attempts] is the number of iterations left of [0..=max_retries]. *)
Fixpoint transition_attempts (attempts : nat) (key : text) (to : StateTransition) : M B (StateEntry Value) :=
  match attempts with
  | O => fail (%"CAS failed after 3 retries for state key: " ++ key)
  | S attempts' =>
      '(entry, new) ← next_entry key to;
      success ← compare_and_swap_state key (version entry) new;
      if success : bool then mret new else transition_attempts attempts' key to
  end.

Definition transition (key : text) (to : StateTransition) : M B (StateEntry Value) := transition_attempts 4 key to.

End Machine.

End StateMachine.
