(* ===== verification/StateMachineFacts.v ===== *)
(** * StateMachineFacts: concurrent transitions follow the transition table.

    [transition] is two atomic accesses to the store, a load and a
    compare-and-swap, with a retry when another process was faster.  [proc_step]
    is that program cut at its accesses; [runs_alone] shows that running the
    pieces of one process in a row is [transition].  [Step] interleaves any
    number of them with accesses to other keys, and [Path] is what the store may
    go through. *)

From stdpp Require Import gmap sets relations.
From S2P Require Import Prelude StateStore.
Import StateMachine.

(** ** Names of states *)

Lemma state_round_trip s : state_from_str (state_as_str s) = Some s.
Proof. by destruct s; vm_compute. Qed.

Section Processes.

Context {Value : Type} `{JsonRoundTrip (StateEntry Value)} (null : Value) (key : text).

#[local] Instance backend : StateBackend Storage.t := LocalBackend (Value := Value).

Abbreviation state_key := (STATE_KEY_PREFIX ++ key).

(** The entry after a transition. *)
Definition moved (e : StateEntry Value) (to : StateTransition) : StateEntry Value :=
  mk_entry (entry_key e) (state_as_str to) (version e + 1)%N (metadata e).

(** The table allows [e] to move to [to]. *)
Definition may_move (e : StateEntry Value) (to : StateTransition) : Prop :=
  exists st, state_from_str (current_state e) = Some st /\ is_valid_transition st to = true.

(** The store holds [e], and the version of the row is that of the entry. *)
Definition holds (s : Storage.t) (e : StateEntry Value) : Prop :=
  exists row, Storage.rows s !! state_key = Some row
    /\ from_slice (Storage.row_value row) = Ok e /\ Storage.row_version row = version e.

(** [n] transitions of the table lead from [e0] to [e]. *)
Inductive Path (e0 : StateEntry Value) : nat -> StateEntry Value -> Prop :=
| path_start : Path e0 0 e0
| path_move n e to : Path e0 n e -> may_move e to -> Path e0 (S n) (moved e to).

(** ** A process *)

Inductive proc : Type :=
| Loading (attempts : nat) (to : StateTransition)
| Swapping (attempts : nat) (to : StateTransition) (entry new : StateEntry Value)
| Finished (r : result (StateEntry Value)).

Definition proc_step (s : Storage.t) (p : proc) : Storage.t * proc :=
  match p with
  | Loading O to => (s, Finished (Err (%"CAS failed after 3 retries for state key: " ++ key)))
  | Loading (S attempts) to =>
      match next_entry key to s with
      | (s', Ok (entry, new)) => (s', Swapping attempts to entry new)
      | (s', Err e) => (s', Finished (Err e))
      end
  | Swapping attempts to entry new =>
      match compare_and_swap_state null key (version entry) new s with
      | (s', Ok true) => (s', Finished (Ok new))
      | (s', Ok false) => (s', Loading attempts to)
      | (s', Err e) => (s', Finished (Err e))
      end
  | Finished r => (s, Finished r)
  end.

Fixpoint run_alone (fuel : nat) (s : Storage.t) (p : proc) : Storage.t * proc :=
  match fuel with
  | O => (s, p)
  | S fuel' => let '(s', p') := proc_step s p in run_alone fuel' s' p'
  end.

Lemma run_alone_S fuel s p : run_alone (S fuel) s p = let '(s', p') := proc_step s p in run_alone fuel s' p'.
Proof. done. Qed.

Lemma run_alone_finished fuel s r : run_alone fuel s (Finished r) = (s, Finished r).
Proof. by induction fuel. Qed.

(** Running one process alone is [transition]: two accesses per attempt. *)
Lemma runs_alone attempts s to :
  run_alone (S (2 * attempts)) s (Loading attempts to)
  = (let '(s', r) := transition_attempts null attempts key to s in (s', Finished r)).
Proof.
  revert s. induction attempts as [|n IH]; intros s; [done|].
  replace (S (2 * S n)) with (S (S (S (2 * n)))) by lia.
  rewrite run_alone_S. cbn [proc_step transition_attempts]. unfold mbind, M_bind.
  destruct (next_entry key to s) as [s1 [[entry new]|e]]; [|by rewrite run_alone_finished].
  rewrite run_alone_S. cbn [proc_step]. destruct (compare_and_swap_state _ _ _ _ s1) as [s2 [[|]|e]].
  - by rewrite run_alone_finished.
  - apply IH.
  - by rewrite run_alone_finished.
Qed.

(** ** Interleavings *)

(** A process makes its next access, or something else happens to the store:
    other keys, and which of the coming accesses fail. *)
Inductive Step : Storage.t * list proc -> Storage.t * list proc -> Prop :=
| step_proc s procs i p s' p' :
    procs !! i = Some p -> proc_step s p = (s', p') -> Step (s, procs) (s', <[i := p']> procs)
| step_environment s procs s' :
    Storage.rows s' !! state_key = Storage.rows s !! state_key -> Step (s, procs) (s', procs).

Definition succeeded (p : proc) : bool := match p with Finished (Ok _) => true | _ => false end.

Definition successes (procs : list proc) : nat := length (List.filter succeeded procs).

(** What a process that is about to swap knows about the entry [e] stored now. *)
Definition proc_ok (e0 : StateEntry Value) (n : nat) (e : StateEntry Value) (p : proc) : Prop :=
  match p with
  | Loading _ _ => True
  | Swapping _ to entry new =>
      may_move entry to /\ new = moved entry to
      /\ (version entry <= version e)%N /\ (version entry = version e -> entry = e)
  | Finished (Ok new) => exists k, k <= n /\ Path e0 k new
  | Finished (Err _) => True
  end.

Lemma with_conn_rows {A} (f : gmap text Storage.Row -> gmap text Storage.Row * result A) s s' r :
  Storage.with_conn f s = (s', r) ->
  (Storage.rows s' = Storage.rows s /\ exists e, r = Err e) 
  \/ (Storage.rows s' = fst (f (Storage.rows s)) /\ r = snd (f (Storage.rows s))).
Proof.
  unfold Storage.with_conn. destruct (Storage.faults s) as [|[e|] later].
  - destruct (f (Storage.rows s)) as [rows' r']. intros [= <- <-]. by right.
  - intros [= <- <-]. left. eauto.
  - destruct (f (Storage.rows s)) as [rows' r']. intros [= <- <-]. by right.
Qed.

Lemma next_entry_spec to s s' r e :
  holds s e -> next_entry key to s = (s', r) ->
  Storage.rows s' = Storage.rows s
  /\ forall entry new, r = Ok (entry, new) -> entry = e /\ may_move e to /\ new = moved e to.
Proof.
  intros (row & Hrow & Hdec & _). unfold next_entry. cbn [load backend LocalBackend].
  unfold mbind, M_bind, mret, M_ret, lift_result, fail.
  destruct (Storage.load_state state_key s) as [s1 r1] eqn:Hload.
  apply with_conn_rows in Hload as [[Hrows [err ->]]|[Hrows ->]]; [by intros [= <- <-]|].
  cbn [fst snd] in *. rewrite Hrow. cbn [fmap option_fmap option_map fst]. rewrite Hdec.
  destruct (state_from_str (current_state e)) as [st|] eqn:Hst; [|by intros [= <- <-]].
  destruct (is_valid_transition st to) eqn:Hv; cbn [negb]; [|by intros [= <- <-]].
  intros [= <- <-]. split; [done|]. intros entry new [= <- <-]. split_and!; [done| |done]. by exists st.
Qed.

Lemma compare_and_swap_spec expected new s s' r e :
  holds s e -> compare_and_swap_state null key expected new s = (s', r) ->
  (Storage.rows s' = Storage.rows s /\ r <> Ok true)
  \/ (r = Ok true /\ expected = version e
      /\ exists row, Storage.rows s' !! state_key = Some row
         /\ from_slice (Storage.row_value row) = Ok new /\ Storage.row_version row = (version e + 1)%N).
Proof.
  intros (row & Hrow & Hdec & Hver). unfold compare_and_swap_state. cbn [compare_and_swap backend LocalBackend].
  unfold local_compare_and_swap, mbind, M_bind, mret, M_ret, lift_result, fail.
  destruct (to_vec (mk_entry key [] expected null)) as [old|err] eqn:Hold; [|intros [= <- <-]; by left].
  destruct (to_vec new) as [data|err] eqn:Hnew; [|intros [= <- <-]; by left].
  rewrite (from_slice_to_vec _ _ Hold). cbn [version].
  intros [[Hrows [err ->]]|[Hrows ->]]%with_conn_rows; [by left|].
  rewrite Hrow in *. destruct (Storage.row_version row =? expected)%N eqn:Heq; cbn [fst snd] in *; [|by left].
  apply N.eqb_eq in Heq. right. split_and!; [done|congruence|]. eexists. split_and!.
  - rewrite Hrows. apply lookup_insert_eq.
  - by apply from_slice_to_vec.
  - cbn. by rewrite Hver.
Qed.

Lemma successes_insert procs i p p' :
  procs !! i = Some p ->
  successes (<[i := p']> procs) + Nat.b2n (succeeded p) = successes procs + Nat.b2n (succeeded p').
Proof.
  unfold successes. revert i. induction procs as [|q procs IH]; intros [|i] Hi; [done..| |]; simpl in Hi |- *.
  - injection Hi as ->. destruct (succeeded p), (succeeded p'); simpl; lia.
  - specialize (IH i Hi). destruct (succeeded q); simpl; lia.
Qed.

(** A process keeps what it knows when another one moves the entry. *)
Lemma proc_ok_mono e0 n e n' e' p :
  n <= n' -> (version e < version e')%N -> proc_ok e0 n e p -> proc_ok e0 n' e' p.
Proof.
  intros Hn Hv. destruct p as [|attempts to entry new|[new|err]]; cbn; [done| | |done].
  - intros (H1 & H2 & H3 & H4). split_and!; [done..|lia|]. intros ?. exfalso. lia.
  - intros (k & Hk & Hp). exists k. split; [lia|done].
Qed.

Definition StoreInv (e0 : StateEntry Value) (c : Storage.t * list proc) : Prop :=
  exists n e, holds (fst c) e /\ Path e0 n e /\ n = successes (snd c) /\ Forall (proc_ok e0 n e) (snd c).

(** An access that does not swap leaves the entry, and the process knows it. *)
Lemma inv_keep e0 n e s s' procs i p p' :
  holds s e -> Path e0 n e -> n = successes procs -> Forall (proc_ok e0 n e) procs ->
  procs !! i = Some p -> Storage.rows s' = Storage.rows s -> succeeded p = succeeded p' -> proc_ok e0 n e p' ->
  StoreInv e0 (s', <[i := p']> procs).
Proof.
  intros (row & Hrow & Hdec) Hp Hn Hall Hi Hrows Hsucc Hok. exists n, e. cbn [fst snd]. split_and!.
  - exists row. by rewrite Hrows.
  - done.
  - pose proof (successes_insert procs i p p' Hi). rewrite Hsucc in *. lia.
  - by apply Forall_insert.
Qed.

Lemma inv_Step e0 c c' : Step c c' -> StoreInv e0 c -> StoreInv e0 c'.
Proof.
  intros Hstep (n & e & Hholds & Hpath & Hn & Hall). destruct Hstep as [s procs i p s' p' Hi Hp|s procs s' Hrows]; cbn [fst snd] in *.
  2: { exists n, e. cbn [fst snd]. split_and!; [|done..]. destruct Hholds as (row & Hrow & Hdec). exists row. by rewrite Hrows. }
  assert (proc_ok e0 n e p) as Hok by (eapply Forall_lookup_1; done).
  destruct p as [[|attempts] to|attempts to entry new|r]; cbn [proc_step] in Hp.
  - simplify_eq. by eapply inv_keep.
  - destruct (next_entry key to s) as [s1 r] eqn:Hnext. eapply next_entry_spec in Hnext as [Hrows Hr]; [|done].
    destruct r as [[entry new]|err]; simplify_eq; eapply inv_keep; try done.
    destruct (Hr entry new eq_refl) as (-> & Hmay & ->). by split_and!.
  - destruct Hok as (Hmay & -> & Hle & Heq).
    destruct (compare_and_swap_state null key (version entry) (moved entry to) s) as [s1 r] eqn:Hcas.
    eapply compare_and_swap_spec in Hcas as [[Hrows Hr]|(-> & Hexp & row & Hrow & Hdec & Hver)]; [| |done].
    { destruct r as [[|]|err]; simplify_eq; eapply inv_keep; try done. }
    simplify_eq. rewrite (Heq Hexp) in *. clear Heq Hle Hexp entry.
    assert (Path e0 (S (successes procs)) (moved e to)) as Hpath' by by constructor.
    exists (S (successes procs)), (moved e to). cbn [fst snd]. split_and!.
    + exists row. split_and!; [done..|]. by rewrite Hver.
    + done.
    + pose proof (successes_insert procs i _ (Finished (Ok (moved e to))) Hi) as Hs. cbn in Hs. lia.
    + apply Forall_insert; [|by exists (S (successes procs))].
      eapply Forall_impl; [exact Hall|]. intros q. apply proc_ok_mono; cbn; lia.
  - simplify_eq. by eapply inv_keep.
Qed.

(** The version counts the transitions, and the states form a path of the table. *)
Lemma path_version e0 n e : Path e0 n e -> version e = (version e0 + N.of_nat n)%N.
Proof. induction 1 as [|n e to _ IH]; cbn; lia. Qed.

(** C9: concurrent transitions never lose an update and never leave the table.
    Whatever the interleaving of any number of [transition] calls on one key, of
    accesses to other keys and of failing accesses: the stored entry is reached
    from the initial one by exactly as many valid transitions as calls have
    reported success, its version counts them, and every entry a call returned
    is one of the entries on that path. *)
Theorem concurrent_transitions_serialize (e0 : StateEntry Value) (s0 s : Storage.t) (targets : list StateTransition)
    (procs : list proc) (Hinit : holds s0 e0) (Hrun : rtc Step (s0, Loading 4 <$> targets) (s, procs)) :
  exists e, holds s e /\ Path e0 (successes procs) e
    /\ version e = (version e0 + N.of_nat (successes procs))%N
    /\ Forall (fun p => forall new, p = Finished (Ok new) -> exists k, k <= successes procs /\ Path e0 k new) procs.
Proof.
  assert (StoreInv e0 (s, procs)) as (n & e & Hholds & Hpath & Hn & Hall).
  { eapply (rtc_ind_r (fun c => StoreInv e0 c) (s0, Loading 4 <$> targets)); [|by intros; eapply inv_Step|exact Hrun].
    exists 0, e0. split_and!; [done|constructor| |].
    - unfold successes. cbn [snd]. clear Hrun. by induction targets.
    - cbn [snd]. apply Forall_fmap, Forall_true. done. }
  cbn [fst snd] in *. subst n. exists e. split_and!; [done..|by apply path_version|].
  eapply Forall_impl; [exact Hall|]. intros p Hp new ->. exact Hp.
Qed.

End Processes.

(** ** The SQLite backend keeps the promises of a backend *)

Section LocalLaws.

Context {Value : Type} `{Json (StateEntry Value)}.

#[local] Existing Instance LocalBackend.

Definition local_stored (s : Storage.t) (k : text) : option bytes := Storage.row_value <$> Storage.rows s !! k.

Lemma local_stored_rows s s' k : Storage.rows s' = Storage.rows s -> local_stored s' k = local_stored s k.
Proof. unfold local_stored. by intros ->. Qed.

#[export] Program Instance LocalBackend_laws : @BackendLaws Storage.t (LocalBackend (Value := Value)) :=
  {| stored := local_stored |}.
Next Obligation.
  intros k v s s' r. cbn [save LocalBackend]. unfold Storage.save_state.
  intros [[Hrows [e ->]]|[Hrows ->]]%with_conn_rows; cbn [fst snd] in *.
  - split; [left|intros k' _]; by apply local_stored_rows.
  - unfold local_stored. rewrite Hrows. split; [by rewrite lookup_insert_eq|].
    intros k' Hk. by rewrite lookup_insert_ne.
Qed.
Next Obligation.
  intros k s s' r. cbn [load LocalBackend]. unfold Storage.load_state, mbind, M_bind, mret, M_ret.
  destruct (Storage.with_conn _ s) as [s1 r1] eqn:Hw.
  apply with_conn_rows in Hw as [[Hrows [e ->]]|[Hrows ->]]; cbn [fst snd] in *; intros [= <- <-].
  - split; [done|]. intros k'. by apply local_stored_rows.
  - split; [|intros k'; by apply local_stored_rows]. intros v [= <-]. unfold local_stored.
    by destruct (Storage.rows s !! k).
Qed.
Next Obligation.
  intros k old new s s' r. cbn [compare_and_swap LocalBackend].
  unfold local_compare_and_swap, mbind, M_bind, mret, M_ret, fail.
  assert (forall expected, Storage.compare_and_swap_state k expected new %"application/json" s = (s', r) ->
            forall k', k' <> k -> local_stored s' k' = local_stored s k') as Hcas.
  { intros expected. unfold Storage.compare_and_swap_state.
    intros [[Hrows [e ->]]|[Hrows ->]]%with_conn_rows k' Hk; [by apply local_stored_rows|].
    unfold local_stored. rewrite Hrows. f_equal.
    repeat case_match; cbn [fst]; try done; by rewrite lookup_insert_ne. }
  destruct old as [data|]; [destruct (from_slice data) as [entry|e]|]; [apply Hcas|by intros [= <- <-]|apply Hcas].
Qed.

End LocalLaws.

(** ** Witnesses *)

(** A schedule: the indices of the processes that make an access. *)
Fixpoint schedule {Value} `{Json (StateEntry Value)} (null : Value) (key : text) (order : list nat)
    (c : Storage.t * list (@proc Value)) : Storage.t * list (@proc Value) :=
  match order with
  | [] => c
  | i :: order' =>
      match snd c !! i with
      | Some p => let '(s', p') := proc_step null key (fst c) p in schedule null key order' (s', <[i := p']> (snd c))
      | None => schedule null key order' c
      end
  end.

Lemma schedule_runs {Value} `{JsonRoundTrip (StateEntry Value)} (null : Value) key order c :
  rtc (Step null key) c (schedule null key order c).
Proof.
  revert c. induction order as [|i order IH]; intros [s procs]; cbn; [done|].
  destruct (procs !! i) as [p|] eqn:Hi; [|apply IH]. destruct (proc_step null key s p) as [s' p'] eqn:Hp.
  eapply rtc_l; [by eapply step_proc|apply IH].
Qed.

(** A serialisation of entries without metadata. *)
Definition encode_entry (e : StateEntry unit) : bytes :=
  N.of_nat (length (entry_key e)) :: entry_key e
  ++ N.of_nat (length (current_state e)) :: current_state e ++ [version e].

Definition decode_entry (b : bytes) : result (StateEntry unit) :=
  match b with
  | n :: b1 =>
      match drop (N.to_nat n) b1 with
      | m :: b2 =>
          match drop (N.to_nat m) b2 with
          | [v] => Ok (mk_entry (take (N.to_nat n) b1) (take (N.to_nat m) b2) v tt)
          | _ => Err %"trailing data"
          end
      | [] => Err %"truncated"
      end
  | [] => Err %"truncated"
  end.

#[export] Instance entry_json : Json (StateEntry unit) :=
  {| to_vec e := Ok (encode_entry e); from_slice := decode_entry |}.

#[export] Instance entry_json_round_trip : JsonRoundTrip (StateEntry unit).
Proof.
  intros [k st v []] b [= <-]. unfold from_slice, entry_json, decode_entry, encode_entry.
  cbn [entry_key current_state version].
  rewrite !Nat2N.id, drop_app_length, take_app_length, !Nat2N.id, drop_app_length, take_app_length. done.
Qed.

Definition job_store : Storage.t :=
  fst (create_state (B := Storage.t) (H := LocalBackend (Value := unit)) %"job" tt (Storage.mk ∅ [])).

(** Two workers start the same job: both load it, one swaps first, the other
    finds a new version, loads again and is refused. *)
Lemma concurrent_transitions_serialize_witness :
  let c := schedule tt %"job" [0; 1; 0; 1; 1] (job_store, Loading 4 <$> [Running; Running]) in
  successes (snd c) = 1
  /\ exists e, holds %"job" (fst c) e /\ Path (mk_entry %"job" %"created" 1 tt) (successes (snd c)) e
     /\ version e = (1 + N.of_nat (successes (snd c)))%N
     /\ Forall (fun p => forall new, p = Finished (Ok new) ->
                 exists k, k <= successes (snd c) /\ Path (mk_entry %"job" %"created" 1 tt) k new) (snd c).
Proof.
  intros c. split; [by vm_compute|].
  apply (concurrent_transitions_serialize tt %"job" (mk_entry %"job" %"created" 1 tt) job_store (fst c)
           [Running; Running] (snd c)).
  - exists (Storage.mk_row (encode_entry (mk_entry %"job" %"created" 1 tt)) %"application/octet-stream" 1).
    split_and!; by vm_compute.
  - rewrite <- surjective_pairing. apply schedule_runs.
Defined.

(** Creating a state whose key exists resets the entry to version 1 while the
    row goes on to version 2: no compare-and-swap can succeed any more, and the
    state is stuck. *)
Lemma recreated_state_is_stuck :
  let _ := LocalBackend (Value := unit) in
  let '(s, _) := create_state %"job" tt job_store in
  snd (transition tt %"job" Running s) = Err %"CAS failed after 3 retries for state key: job".
Proof. by vm_compute. Qed.
