(* ===== verification/TwoPhaseCommit.v ===== *)
(** * TwoPhaseCommit: the coordinator of [crates/dbx-core/src/query/two_phase_commit.rs].

    The coordinator persists a transaction log through a [StateBackend] and
    calls the participants.  Participants are outside the program: [answer] says
    how a call is answered, given everything that was called before, so the
    theorems hold for every behaviour of the participants.  The world records
    each call together with the backend as it was at that moment: what a
    coordinator that is restarted there would find.  [now] gives the timestamps. *)

From stdpp Require Import gmap.
From S2P Require Import Prelude StateStore.

Inductive TransactionStatus : Set :=
| Preparing
| Prepared
| Committing
| Committed
| StRollingBack
| RolledBack
| Mixed
| Unknown.

#[export] Instance TransactionStatus_eq_dec : EqDecision TransactionStatus.
Proof. solve_decision. Defined.

Definition status_as_str (s : TransactionStatus) : text :=
  match s with
  | Preparing => %"preparing"
  | Prepared => %"prepared"
  | Committing => %"committing"
  | Committed => %"committed"
  | StRollingBack => %"rolling_back"
  | RolledBack => %"rolled_back"
  | Mixed => %"mixed"
  | Unknown => %"unknown"
  end.

Definition status_from_str (s : text) : TransactionStatus :=
  if text_eqb s %"preparing" then Preparing
  else if text_eqb s %"prepared" then Prepared
  else if text_eqb s %"committing" then Committing
  else if text_eqb s %"committed" then Committed
  else if text_eqb s %"rolling_back" then StRollingBack
  else if text_eqb s %"rolled_back" then RolledBack
  else if text_eqb s %"mixed" then Mixed
  else Unknown.

Record VoteResult : Set := mk_vote { vote_participant_id : text; vote : bool; reason : option text }.

Record ParticipantCommitResult : Set :=
  mk_commit { commit_participant_id : text; committed : bool; commit_error : option text }.

Record ParticipantInfo : Set := mk_info { info_id : text; info_name : text; info_role : text }.

#[export] Instance ParticipantInfo_eq_dec : EqDecision ParticipantInfo.
Proof. solve_decision. Defined.

Record TransactionLog (Value : Type) : Type := mk_log {
  transaction_id : text;
  status : text;
  participants : list ParticipantInfo;
  created_at : text;
  updated_at : text;
  log_metadata : Value
}.
Arguments mk_log {Value} _ _ _ _ _ _.
Arguments transaction_id {Value} _.
Arguments status {Value} _.
Arguments participants {Value} _.
Arguments created_at {Value} _.
Arguments updated_at {Value} _.
Arguments log_metadata {Value} _.

(** The methods of the trait [Participant]. *)
Inductive Call : Set :=
| CallPrepare (p : ParticipantInfo)
| CallCommit (p : ParticipantInfo)
| CallRollback (p : ParticipantInfo).

Record Event (B : Type) : Type := mk_event { snapshot : B; call : Call; reply : result unit }.
Arguments mk_event {B} _ _ _.
Arguments snapshot {B} _.
Arguments call {B} _.
Arguments reply {B} _.

Record World (B : Type) : Type := mk_world { backend : B; ticks : nat; events : list (Event B) }.
Arguments mk_world {B} _ _ _.
Arguments backend {B} _.
Arguments ticks {B} _.
Arguments events {B} _.

Definition on_backend {B A} (m : M B A) : M (World B) A := fun w =>
  let '(b', r) := m (backend w) in (mk_world b' (ticks w) (events w), r).

(** [match m.await { Ok(..) => .., Err(..) => .. }]. *)
Definition try {W A} (m : M W A) : M W (result A) := fun w => let '(w', r) := m w in (w', Ok r).

Definition join_errors (sep : text) (errors : list text) : text := join sep errors.

Section Coordinator.

Context {B Value : Type} `{StateBackend B} `{Json (StateEntry Value)} `{Json (TransactionLog Value)}.
Variable null : Value.
(** [serde_json::json!({"phase": "begin"})]. *)
Variable phase_begin : Value.
Variable now : nat -> text.
Variable answer : list (Event B) -> Call -> result unit.

Definition timestamp : M (World B) text := fun w =>
  (mk_world (backend w) (S (ticks w)) (events w), Ok (now (ticks w))).

Definition perform (c : Call) : M (World B) unit := fun w =>
  let r := answer (events w) c in
  (mk_world (backend w) (ticks w) (events w ++ [mk_event (backend w) c r]), r).

Definition log_key (tx : text) : text := %"2pc:tx:" ++ tx.

Definition save_log (log : TransactionLog Value) : M (World B) unit :=
  data ← lift_result (to_vec log);
  on_backend (save (log_key (transaction_id log)) data).

Definition load_log (tx : text) : M (World B) (option (TransactionLog Value)) :=
  raw ← on_backend (load (log_key tx));
  match raw with
  | Some data => log ← lift_result (from_slice data); mret (Some log)
  | None => mret None
  end.

(** [TransactionLog::new]. *)
Definition new_log (tx : text) (infos : list ParticipantInfo) (metadata : Value) : M (World B) (TransactionLog Value) :=
  created ← timestamp;
  updated ← timestamp;
  mret (mk_log tx (status_as_str Preparing) infos created updated metadata).

Definition update_status (tx : text) (st : TransactionStatus) : M (World B) (TransactionLog Value) :=
  found ← load_log tx;
  log ← match found with
        | Some log => mret log
        | None => fail (%"Transaction not found: " ++ tx)
        end;
  updated ← timestamp;
  let log := mk_log (transaction_id log) (status_as_str st) (participants log) (created_at log) updated (log_metadata log) in
  _ ← save_log log;
  mret log.

Fixpoint prepare_votes (ps : list ParticipantInfo) : M (World B) (list VoteResult * bool) :=
  match ps with
  | [] => mret ([], true)
  | p :: later =>
      r ← try (perform (CallPrepare p));
      match r with
      | Ok _ =>
          '(votes, finished) ← prepare_votes later;
          mret (mk_vote (info_id p) true None :: votes, finished)
      | Err e => mret ([mk_vote (info_id p) false (Some e)], false)
      end
  end.

Definition prepare_phase (tx : text) (ps : list ParticipantInfo) : M (World B) (list VoteResult) :=
  _ ← update_status tx Preparing;
  '(results, finished) ← prepare_votes ps;
  if finished : bool then _ ← update_status tx Prepared; mret results else mret results.

(** The inner loop of [commit_phase]: the results pushed and [next_pending]. *)
Fixpoint commit_round (last_attempt : bool) (pending : list ParticipantInfo)
    : M (World B) (list ParticipantCommitResult * list ParticipantInfo) :=
  match pending with
  | [] => mret ([], [])
  | p :: later =>
      r ← try (perform (CallCommit p));
      '(results, next) ← commit_round last_attempt later;
      mret (match r with
            | Ok _ => (mk_commit (info_id p) true None :: results, next)
            | Err e =>
                if last_attempt then (mk_commit (info_id p) false (Some e) :: results, next)
                else (results, p :: next)
            end)
  end.

(** The attempts [attempt..=max_retries], [retries] of them after this one. *)
Fixpoint commit_attempts (retries : nat) (pending : list ParticipantInfo) : M (World B) (list ParticipantCommitResult) :=
  '(results, next) ← commit_round (retries =? 0) pending;
  match retries with
  | O => mret results
  | S retries' =>
      if is_empty next then mret results
      else rest ← commit_attempts retries' next; mret (results ++ rest)
  end.

Definition commit_phase (ps : list ParticipantInfo) (max_retries : nat) : M (World B) (list ParticipantCommitResult) :=
  commit_attempts max_retries ps.

Fixpoint rollback_errors (ps : list ParticipantInfo) : M (World B) (list text) :=
  match ps with
  | [] => mret []
  | p :: later =>
      r ← try (perform (CallRollback p));
      errors ← rollback_errors later;
      mret (match r with Ok _ => errors | Err e => (info_id p ++ %": " ++ e) :: errors end)
  end.

Definition rollback_phase (ps : list ParticipantInfo) : M (World B) unit :=
  errors ← rollback_errors ps;
  if is_empty errors then mret tt else fail (join_errors %"; " errors).

Definition all_committed (ps : list ParticipantInfo) (results : list ParticipantCommitResult) : bool :=
  is_empty ps || (negb (is_empty results) && forallb committed results).

Definition failures (results : list ParticipantCommitResult) : text :=
  join_errors %"; "
    (map (fun r => commit_participant_id r ++ %": " ++ from_option id %"unknown" (commit_error r))
       (List.filter (fun r => negb (committed r)) results)).

Definition rejections (votes : list VoteResult) : text :=
  join_errors %", "
    (map (fun v => vote_participant_id v ++ %": " ++ from_option id %"no reason" (reason v))
       (List.filter (fun v => negb (vote v)) votes)).

(** [self.state_machine.transition(&format!("2pc_{transaction_id}"), to)], its result dropped. *)
Definition finish_state (tx : text) (to : StateTransition) : M (World B) unit :=
  ignore (on_backend (StateMachine.transition null (%"2pc_" ++ tx) to)).

Definition final_status (results : list ParticipantCommitResult) : TransactionStatus :=
  if existsb committed results then Mixed else RolledBack.

(** What the two failing branches of [execute] share: roll back, and record the outcome. *)
Definition abort (tx : text) (ps : list ParticipantInfo) (outcome : TransactionStatus) : M (World B) (TransactionLog Value) :=
  _ ← update_status tx StRollingBack;
  _ ← ignore (rollback_phase ps);
  log ← update_status tx outcome;
  _ ← finish_state tx Failed;
  mret log.

(** The branch of [execute] taken when every participant agreed. *)
Definition commit_agreed (tx : text) (ps : list ParticipantInfo) : M (World B) (TransactionLog Value) :=
  _ ← update_status tx Committing;
  results ← commit_phase ps 2;
  if all_committed ps results then
    log ← update_status tx Committed;
    _ ← finish_state tx Completed;
    mret log
  else
    log ← abort tx ps (final_status results);
    fail (%"Commit phase failed: " ++ failures results ++ %". Status: " ++ status log).

Definition execute (tx : text) (ps : list ParticipantInfo) (metadata : Value) : M (World B) (TransactionLog Value) :=
  log ← new_log tx ps metadata;
  _ ← save_log log;
  _ ← on_backend (StateMachine.create_state (%"2pc_" ++ tx) phase_begin);
  votes ← prepare_phase tx ps;
  if forallb vote votes then commit_agreed tx ps
  else
    log ← abort tx ps RolledBack;
    fail (%"Prepare phase failed: participants did not agree. Rejections: [" ++ rejections votes
          ++ %"]. Status: " ++ status log).

Definition recover (tx : text) (ps : list ParticipantInfo) : M (World B) (TransactionLog Value) :=
  found ← load_log tx;
  log ← match found with
        | Some log => mret log
        | None => fail (%"No transaction log found for: " ++ tx)
        end;
  match status_from_str (status log) with
  | Preparing | Prepared =>
      _ ← rollback_phase ps; update_status tx RolledBack
  | Committing =>
      results ← commit_phase ps 2;
      if all_committed ps results then update_status tx Committed
      else
        _ ← rollback_phase ps;
        _ ← update_status tx (final_status results);
        fail (%"Recovery failed during commit: " ++ failures results)
  | StRollingBack =>
      _ ← rollback_phase ps; update_status tx RolledBack
  | Committed | RolledBack | Mixed => mret log
  | Unknown => fail (%"Unknown transaction status for " ++ tx ++ %": cannot recover")
  end.

End Coordinator.
