(* ===== verification/TwoPhaseFacts.v ===== *)
(** * TwoPhaseFacts: what the coordinator's log says is true.

    The theorems are proved against the interface [BackendLaws]: for every
    backend that keeps it, every behaviour of the participants and every failing
    access to the backend.  [has_log] is the coordinator's invariant on the
    stored log; each phase has a lemma on the events it adds and on the status it
    leaves, on the error paths too, and [execute] is their composition. *)

From stdpp Require Import gmap sets.
From S2P Require Import Prelude StateStore StateMachineFacts TwoPhaseCommit.

Lemma status_round_trip s : status_from_str (status_as_str s) = s.
Proof. by destruct s; vm_compute. Qed.

Lemma log_key_inj tx tx' : log_key tx = log_key tx' -> tx = tx'.
Proof. unfold log_key. apply app_inv_head. Qed.

(** ** Events *)

Definition answered_ok {B} (ev : Event B) : bool := match reply ev with Ok _ => true | Err _ => false end.

Definition committer (c : Call) : option ParticipantInfo := match c with CallCommit p => Some p | _ => None end.

(** The participants whose commit was answered [Ok], in order. *)
Definition committed_by {B} (evs : list (Event B)) : list ParticipantInfo :=
  omap (fun ev => if answered_ok ev then committer (call ev) else None) evs.

Lemma committed_by_app {B} (a b : list (Event B)) : committed_by (a ++ b) = committed_by a ++ committed_by b.
Proof. apply omap_app. Qed.

(** The participants whose commit was answered with an error, in order. *)
Definition refused_by {B} (evs : list (Event B)) : list ParticipantInfo :=
  omap (fun ev => if answered_ok ev then None else committer (call ev)) evs.

Lemma calls_of_map {B} (f : ParticipantInfo -> Call) (ps : list ParticipantInfo) (evs : list (Event B)) :
  map call evs = map f ps -> Forall (fun ev => exists p, p ∈ ps /\ call ev = f p) evs.
Proof.
  intros Hc. apply Forall_forall. intros ev Hin.
  assert (call ev ∈ map f ps) as Hm by (rewrite <- Hc; by apply list_elem_of_fmap_2).
  apply list_elem_of_fmap in Hm as (q & -> & Hq). by exists q.
Qed.

(** No participant is asked again to commit once it has. *)
Definition never_recalled {B} (evs : list (Event B)) : Prop :=
  forall a ev b p, evs = a ++ ev :: b -> call ev = CallCommit p -> answered_ok ev = true ->
    Forall (fun ev' => call ev' <> CallCommit p) b.

Lemma never_recalled_app {B} (a b : list (Event B)) :
  never_recalled a -> never_recalled b ->
  (forall p, p ∈ committed_by a -> Forall (fun ev => call ev <> CallCommit p) b) -> never_recalled (a ++ b).
Proof.
  intros Ha Hb Hab x ev y p Heq Hc Ho. apply app_eq_app in Heq as [l [[-> Hl]|[-> Hl]]].
  - destruct l as [|ev' l]; cbn in Hl.
    + apply (Hb [] ev y p); by rewrite ?Hl.
    + injection Hl as <- ->. apply Forall_app. split; [by eapply Ha|]. apply Hab.
      rewrite committed_by_app, elem_of_app. right. unfold committed_by. cbn. rewrite Ho, Hc. cbn. apply elem_of_cons. by left.
  - by eapply Hb.
Qed.

Section Coordinator.

Context {B Value : Type} `{BackendLaws B} `{Json (StateEntry Value)} `{JsonRoundTrip (TransactionLog Value)}.
Context (null phase_begin : Value) (now : nat -> text) (answer : list (Event B) -> Call -> result unit).

Definition stored_log (b : B) (tx : text) : option (TransactionLog Value) :=
  match stored b (log_key tx) with
  | Some data => match from_slice data with Ok log => Some log | Err _ => None end
  | None => None
  end.

(** The status a restarted coordinator reads. *)
Definition log_status (b : B) (tx : text) : option TransactionStatus :=
  (fun log => status_from_str (status log)) <$> stored_log b tx.

Definition logged (tx : text) (st : TransactionStatus) (b : B) : Prop :=
  exists log, stored_log b tx = Some log /\ transaction_id log = tx /\ status_from_str (status log) = st.

Definition has_log (tx : text) (st : TransactionStatus) (w : World B) : Prop := logged tx st (backend w).

Lemma logged_status tx st b : logged tx st b -> log_status b tx = Some st.
Proof. intros (log & Hl & _ & <-). unfold log_status. by rewrite Hl. Qed.

Lemma has_log_status tx st w : has_log tx st w -> log_status (backend w) tx = Some st.
Proof. apply logged_status. Qed.

(** An operation on another key. *)
Definition same_log (tx : text) (b b' : B) : Prop := stored b' (log_key tx) = stored b (log_key tx).

Lemma same_log_status tx b b' : same_log tx b b' -> log_status b' tx = log_status b tx.
Proof. unfold log_status, stored_log, same_log. by intros ->. Qed.

Lemma same_log_has tx st w w' : same_log tx (backend w) (backend w') -> has_log tx st w -> has_log tx st w'.
Proof. unfold has_log, logged, stored_log, same_log. by intros ->. Qed.

Lemma state_key_ne tx key : log_key tx <> STATE_KEY_PREFIX ++ key.
Proof. done. Qed.

(** ** Operations on the backend *)

Lemma load_log_spec tx (w w' : World B) r :
  load_log tx w = (w', r) ->
  events w' = events w /\ same_log tx (backend w) (backend w')
  /\ (forall log, r = Ok (Some log) -> stored_log (backend w) tx = Some log).
Proof.
  unfold load_log, on_backend, mbind, M_bind, mret, M_ret, lift_result.
  destruct (load (log_key tx) (backend w)) as [b r1] eqn:Hl. apply load_spec in Hl as [Hv Hs].
  assert (same_log tx (backend w) b) as Hsame by apply Hs.
  destruct r1 as [[data|]|e]; [|by intros [= <- <-]..].
  specialize (Hv _ eq_refl). unfold stored_log. rewrite <- Hv.
  destruct (from_slice data) as [log|e]; intros [= <- <-]; (split_and!; [done..|]); by intros log' [= ->].
Qed.

Lemma save_log_spec log (w w' : World B) r :
  save_log log w = (w', r) ->
  events w' = events w
  /\ match r with
     | Ok _ => stored_log (backend w') (transaction_id log) = Some log
     | Err _ => same_log (transaction_id log) (backend w) (backend w')
                \/ stored_log (backend w') (transaction_id log) = Some log
     end.
Proof.
  unfold save_log, on_backend, mbind, M_bind, lift_result.
  destruct (to_vec log) as [data|e] eqn:Hd; [|intros [= <- <-]; split; [done|by left]].
  destruct (save _ data (backend w)) as [b r1] eqn:Hs. apply save_spec in Hs as [Hv _].
  intros [= <- <-]. split; [done|]. unfold stored_log, same_log. cbn [backend].
  pose proof (from_slice_to_vec _ _ Hd) as Hround.
  destruct r1 as [u|e]; [by rewrite Hv, Hround|]. destruct Hv as [Hv|Hv]; [by left|right]. by rewrite Hv, Hround.
Qed.

(** Writing a status: it is in the log afterwards, or the old one still is. *)
Lemma update_status_spec tx st old (w w' : World B) r :
  has_log tx old w -> update_status now tx st w = (w', r) ->
  events w' = events w
  /\ match r with
     | Ok log => has_log tx st w' /\ status log = status_as_str st
     | Err _ => has_log tx old w' \/ has_log tx st w'
     end.
Proof.
  intros Hold. unfold update_status, timestamp, mbind, M_bind, mret, M_ret, fail.
  destruct (load_log tx w) as [w1 r1] eqn:Hl. apply load_log_spec in Hl as (He & Hsame & Hlog).
  apply (same_log_has tx old w w1) in Hold as Hold1; [|done].
  destruct r1 as [[log|]|e]; [|intros [= <- <-]; by auto..].
  destruct Hold as (log' & Hs & Hid & _). rewrite (Hlog log eq_refl) in Hs. injection Hs as ->.
  set (updated := mk_log _ _ _ _ _ _).
  destruct (save_log updated _) as [w2 r2] eqn:Hsave. apply save_log_spec in Hsave as [He2 Hr2].
  replace (transaction_id updated) with tx in Hr2 by done. cbn [events backend] in *.
  assert (stored_log (backend w2) tx = Some updated -> has_log tx st w2) as Hdone.
  { intros Hu. exists updated. split_and!; [done..|]. apply status_round_trip. }
  destruct r2 as [u|e]; intros [= <- <-]; (split; [by rewrite He2, He|]).
  - by auto.
  - destruct Hr2 as [Hr2|Hr2]; [left|right; auto]. by apply (same_log_has tx old w1).
Qed.

(** An operation of the state machine leaves the transaction log alone. *)
Definition frames {A} (m : M B A) : Prop := forall tx b, same_log tx b (fst (m b)).

Lemma frames_bind {A C} (m : M B A) (f : A -> M B C) : frames m -> (forall a, frames (f a)) -> frames (m ≫= f).
Proof.
  intros Hm Hf tx b. specialize (Hm tx b). unfold mbind, M_bind. destruct (m b) as [b1 [a|e]]; cbn in *; [|done].
  specialize (Hf a tx b1). unfold same_log in *. congruence.
Qed.

Lemma frames_pure {A} (r : result A) : frames (lift_result r).
Proof. by intros tx b. Qed.

Lemma frames_ret {A} (a : A) : frames (mret a : M B A).
Proof. by intros tx b. Qed.

Lemma frames_fail {A} e : frames (fail e : M B A).
Proof. by intros tx b. Qed.

Lemma frames_load k : frames (load k).
Proof. intros tx b. destruct (load k b) as [b' r] eqn:Hl. apply load_spec in Hl as [_ Hs]. apply Hs. Qed.

Lemma frames_save k v : (forall tx, log_key tx <> k) -> frames (save k v).
Proof. intros Hk tx b. destruct (save k v b) as [b' r] eqn:Hl. apply save_spec in Hl as [_ Hs]. apply Hs, Hk. Qed.

Lemma frames_cas k o n : (forall tx, log_key tx <> k) -> frames (compare_and_swap k o n).
Proof. intros Hk tx b. destruct (compare_and_swap k o n b) as [b' r] eqn:Hl. eapply cas_spec in Hl; [done|apply Hk]. Qed.

Create HintDb frames discriminated.
#[local] Hint Resolve frames_pure frames_ret frames_fail frames_load : frames.

Lemma frames_create_state key md : frames (StateMachine.create_state (Value := Value) key md).
Proof.
  unfold StateMachine.create_state. apply frames_bind; [apply frames_pure|]. intros data.
  apply frames_bind; [by apply frames_save|]. intros u. apply frames_ret.
Qed.

Lemma frames_transition key to : frames (StateMachine.transition null key to).
Proof.
  unfold StateMachine.transition. generalize 4 as n.
  induction n as [|n IH]; cbn [StateMachine.transition_attempts]; [apply frames_fail|].
  apply frames_bind.
  - unfold StateMachine.next_entry. apply frames_bind; [apply frames_load|]. intros raw.
    apply frames_bind; [destruct raw; auto with frames|]. intros entry.
    apply frames_bind; [destruct (state_from_str _); auto with frames|]. intros current.
    destruct (negb _); auto with frames.
  - intros [entry new]. apply frames_bind; [|intros [|]; auto with frames].
    unfold StateMachine.compare_and_swap_state. apply frames_bind; [apply frames_pure|]. intros old.
    apply frames_bind; [apply frames_pure|]. intros data. by apply frames_cas.
Qed.

Lemma on_backend_frames {A} (m : M B A) tx (w w' : World B) r :
  frames m -> on_backend m w = (w', r) -> events w' = events w /\ same_log tx (backend w) (backend w').
Proof.
  intros Hm. unfold on_backend. specialize (Hm tx (backend w)). destruct (m (backend w)) as [b r1]. by intros [= <- <-].
Qed.

Lemma finish_state_spec tx to (w w' : World B) r :
  finish_state null tx to w = (w', r) -> events w' = events w /\ same_log tx (backend w) (backend w').
Proof.
  unfold finish_state, ignore.
  destruct (on_backend (StateMachine.transition null (%"2pc_" ++ tx) to) w) as [w1 r1] eqn:Hw. cbn [fst].
  apply (on_backend_frames _ tx) in Hw; [|apply frames_transition]. by intros [= <- <-].
Qed.

(** ** The phases *)

(** Events that start in the backend state [b]. *)
Definition from_state (b : B) (evs : list (Event B)) : Prop := Forall (fun ev => snapshot ev = b) evs.

Lemma try_perform c (w : World B) :
  let ev := mk_event (backend w) c (answer (events w) c) in
  try (perform answer c) w = (mk_world (backend w) (ticks w) (events w ++ [ev]), Ok (reply ev)).
Proof. done. Qed.

Lemma prepare_votes_spec ps : forall (w w' : World B) r,
  prepare_votes answer ps w = (w', r) ->
  backend w' = backend w
  /\ exists votes finished evs, r = Ok (votes, finished) /\ events w' = events w ++ evs
     /\ from_state (backend w) evs /\ Forall (fun ev => exists p, call ev = CallPrepare p) evs
     /\ forallb vote votes = finished
     /\ (finished = true -> map call evs = map CallPrepare ps /\ Forall (fun ev => answered_ok ev = true) evs).
Proof.
  induction ps as [|p ps IH]; intros w w' r; cbn [prepare_votes]; unfold mbind, M_bind, mret, M_ret.
  { intros [= <- <-]. split; [done|]. exists [], true, []. rewrite app_nil_r. by repeat constructor. }
  rewrite try_perform. set (ev := mk_event _ _ _). set (w1 := mk_world _ _ _). destruct (reply ev) as [u|e] eqn:Hr.
  - destruct (prepare_votes answer ps w1) as [w2 r2] eqn:Hp.
    apply IH in Hp as (Hb & votes & finished & evs & -> & He & Hs & Hc & Hv & Hf). intros [= <- <-].
    split; [done|]. exists (mk_vote (info_id p) true None :: votes), finished, (ev :: evs).
    split_and!; [done| | | |done|].
    + rewrite He. cbn [w1 events]. by rewrite <- app_assoc.
    + by constructor.
    + constructor; [by exists p|done].
    + intros Ht. destruct (Hf Ht) as [Hm Ho]. cbn. rewrite Hm. split; [done|].
      constructor; [|done]. unfold answered_ok. by rewrite Hr.
  - intros [= <- <-]. split; [done|]. exists [mk_vote (info_id p) false (Some e)], false, [ev].
    split_and!; [done..|by repeat constructor| |done|done]. constructor; [by exists p|constructor].
Qed.

Lemma commit_round_spec last_attempt pending : forall (w w' : World B) r,
  commit_round answer last_attempt pending w = (w', r) ->
  backend w' = backend w
  /\ exists results next evs, r = Ok (results, next) /\ events w' = events w ++ evs
     /\ from_state (backend w) evs /\ map call evs = map CallCommit pending
     /\ pending ≡ₚ committed_by evs ++ refused_by evs
     /\ next = (if last_attempt then [] else refused_by evs)
     /\ existsb committed results = negb (is_empty (committed_by evs))
     /\ forallb committed results = (if last_attempt then is_empty (refused_by evs) else true)
     /\ is_empty results = is_empty (if last_attempt then pending else committed_by evs).
Proof.
  induction pending as [|p pending IH]; intros w w' r; cbn [commit_round]; unfold mbind, M_bind, mret, M_ret.
  { intros [= <- <-]. split; [done|]. exists [], [], []. rewrite app_nil_r. by destruct last_attempt; repeat constructor. }
  rewrite try_perform. set (ev := mk_event _ _ _). set (w1 := mk_world _ _ _).
  destruct (commit_round answer last_attempt pending w1) as [w2 r2] eqn:Hp.
  apply IH in Hp as (Hb & results & next & evs & -> & He & Hs & Hc & Hperm & Hn & Hx & Hf & Hl). clear IH.
  intros [= <- <-]. split; [done|].
  assert (committed_by (ev :: evs) = (if answered_ok ev then [p] else []) ++ committed_by evs) as Hcb
    by (unfold committed_by; cbn; by destruct (answered_ok ev)).
  assert (refused_by (ev :: evs) = (if answered_ok ev then [] else [p]) ++ refused_by evs) as Hrb
    by (unfold refused_by; cbn; by destruct (answered_ok ev)).
  assert (events w2 = events w ++ ev :: evs) as He' by (rewrite He; cbn [w1 events]; by rewrite <- app_assoc).
  assert (from_state (backend w) (ev :: evs)) as Hs' by by constructor.
  assert (map call (ev :: evs) = map CallCommit (p :: pending)) as Hc' by (cbn; by rewrite Hc).
  assert (p :: pending ≡ₚ committed_by (ev :: evs) ++ refused_by (ev :: evs)) as Hperm'.
  { rewrite Hcb, Hrb. destruct (answered_ok ev); cbn; rewrite Hperm; [done|]. by rewrite Permutation_middle. }
  change (reply ev) with (answer (events w) (CallCommit p)).
  assert (answered_ok ev = match answer (events w) (CallCommit p) with Ok _ => true | Err _ => false end) as Ho by done.
  destruct (answer (events w) (CallCommit p)) as [u|e]; rewrite Ho in Hcb, Hrb; cbn in Hcb, Hrb.
  - eexists _, _, (ev :: evs). split_and!; [done..| | | |]; rewrite ?Hcb, ?Hrb; cbn.
    + done.
    + done.
    + by rewrite Hf.
    + by destruct last_attempt.
  - destruct last_attempt; (eexists _, _, (ev :: evs); split_and!; [done..| | | |]; rewrite ?Hcb, ?Hrb; cbn); try done.
    by rewrite Hn.
Qed.

Lemma commit_calls_never_recalled (evs : list (Event B)) pending :
  NoDup pending -> map call evs = map CallCommit pending -> never_recalled evs.
Proof.
  intros Hnd Hc a ev b p -> Hp _. rewrite map_app in Hc. cbn in Hc.
  symmetry in Hc. apply map_eq_app in Hc as (l1 & l2 & -> & _ & Hl2). destruct l2 as [|q l2]; [done|].
  injection Hl2 as Hq Hl2. rewrite Hp in Hq. injection Hq as ->.
  apply NoDup_app in Hnd as (_ & _ & Hnd). apply NoDup_cons in Hnd as [Hnot _].
  apply Forall_forall. intros ev' Hin Hcall.
  assert (call ev' ∈ map CallCommit l2) as Hmem by (rewrite Hl2; by apply list_elem_of_fmap_2).
  rewrite Hcall in Hmem. apply list_elem_of_fmap in Hmem as (q & [= <-] & Hq). done.
Qed.

(** All the attempts: each participant ends up committed or refused; the results
    say which; and no participant is called more than [S retries] times. *)
Lemma commit_attempts_spec retries : forall pending (w w' : World B) r,
  commit_attempts answer retries pending w = (w', r) ->
  backend w' = backend w
  /\ exists results evs refused, r = Ok results /\ events w' = events w ++ evs
     /\ from_state (backend w) evs /\ Forall (fun ev => exists p, p ∈ pending /\ call ev = CallCommit p) evs
     /\ pending ≡ₚ committed_by evs ++ refused
     /\ existsb committed results = negb (is_empty (committed_by evs))
     /\ forallb committed results = is_empty refused
     /\ is_empty results = is_empty pending
     /\ length evs <= S retries * length pending
     /\ (NoDup pending -> never_recalled evs).
Proof using answer.
  induction retries as [|retries IH]; intros pending w w' r; cbn [commit_attempts]; unfold mbind, M_bind, mret, M_ret;
    destruct (commit_round answer _ pending w) as [w1 r1] eqn:Hround;
    apply commit_round_spec in Hround as (Hb & results & next & evs & -> & He & Hs & Hc & Hperm & Hn & Hx & Hf & Hl);
    assert (length evs = length pending) as Hlen
      by (apply (f_equal length) in Hc; by rewrite !length_map in Hc);
    pose proof (calls_of_map CallCommit pending evs Hc) as Hcalls;
    pose proof (fun Hnd => commit_calls_never_recalled evs pending Hnd Hc) as Hnever.
  { intros [= <- <-]. split; [done|]. exists results, evs, (refused_by evs). cbn in *. split_and!; try done. lia. }
  cbn [Nat.eqb] in *. subst next. destruct (is_empty (refused_by evs)) eqn:Hr.
  { intros [= <- <-]. apply is_empty_nil in Hr. split; [done|]. exists results, evs, []. rewrite Hr, app_nil_r in *.
    split_and!; try done; [|lia]. rewrite Hl.
    destruct (committed_by evs), pending; try done;
      by (apply Permutation_length in Hperm). }
  destruct (commit_attempts answer retries (refused_by evs) w1) as [w2 r2] eqn:Hrest.
  apply IH in Hrest as (Hb2 & results2 & evs2 & refused & -> & He2 & Hs2 & Hc2 & Hperm2 & Hx2 & Hf2 & Hl2 & Hlen2 & Hnever2).
  intros [= <- <-]. split; [by rewrite Hb2|]. exists (results ++ results2), (evs ++ evs2), refused.
  assert (refused_by evs ⊆ pending) as Hsub by (intros q Hq; rewrite Hperm; by apply elem_of_app; right).
  split_and!.
  - done.
  - by rewrite He2, He, app_assoc.
  - apply Forall_app. split; [done|]. by rewrite Hb in Hs2.
  - apply Forall_app. split; [done|]. eapply Forall_impl; [exact Hc2|]. intros ev (q & Hq & Hcall). exists q. auto.
  - rewrite committed_by_app, <- app_assoc. by rewrite <- Hperm2.
  - rewrite committed_by_app, existsb_app, Hx, Hx2. by destruct (committed_by evs), (committed_by evs2).
  - by rewrite forallb_app, Hf, Hf2.
  - assert (is_empty (results ++ results2) = is_empty results && is_empty results2) as -> by (by destruct results).
    rewrite Hl2, Hr, andb_false_r. destruct pending; [|done].
    apply Permutation_nil_l in Hperm. symmetry in Hperm. apply app_nil in Hperm as [_ Hnil]. by rewrite Hnil in Hr.
  - rewrite length_app. apply Permutation_length in Hperm. rewrite length_app in Hperm.
    clear -Hperm Hlen Hlen2. nia.
  - intros Hnd. rewrite Hperm in Hnd. apply NoDup_app in Hnd as Hparts. destruct Hparts as (_ & Hdisj & Hnd2).
    apply never_recalled_app; [apply Hnever; by rewrite Hperm|by apply Hnever2|].
    intros q Hq. eapply Forall_impl; [exact Hc2|]. intros ev (q' & Hq' & ->) [= ->]. by eapply Hdisj.
Qed.

Lemma rollback_phase_spec ps (w w' : World B) r :
  rollback_phase answer ps w = (w', r) ->
  backend w' = backend w
  /\ exists evs, events w' = events w ++ evs /\ from_state (backend w) evs /\ map call evs = map CallRollback ps.
Proof.
  assert (forall w w' r, rollback_errors answer ps w = (w', r) ->
    backend w' = backend w /\ (exists errors, r = Ok errors)
    /\ exists evs, events w' = events w ++ evs /\ from_state (backend w) evs /\ map call evs = map CallRollback ps) as Herr.
  { clear w w' r. induction ps as [|p ps IH]; intros w w' r; cbn [rollback_errors]; unfold mbind, M_bind, mret, M_ret.
    { intros [= <- <-]. split; [done|]. split; [eauto|]. exists []. rewrite app_nil_r. by repeat constructor. }
    rewrite try_perform. set (ev := mk_event _ _ _). set (w1 := mk_world _ _ _).
    destruct (rollback_errors answer ps w1) as [w2 r2] eqn:Hp. apply IH in Hp as (Hb & [errors ->] & evs & He & Hs & Hc).
    intros [= <- <-]. split; [done|]. split; [eauto|]. exists (ev :: evs). split_and!.
    - rewrite He. cbn [w1 events]. by rewrite <- app_assoc.
    - by constructor.
    - cbn. by rewrite Hc. }
  unfold rollback_phase, mbind, M_bind, mret, M_ret, fail. destruct (rollback_errors answer ps w) as [w1 r1] eqn:He.
  apply Herr in He as (Hb & [errors ->] & Hevs). destruct (is_empty errors); by intros [= <- <-].
Qed.

End Coordinator.
