(* ===== verification/TwoPhaseTheorems.v ===== *)
(** * TwoPhaseTheorems: the coordinator as a whole.

    [execute] is a sequence of votes, commits and rollbacks; [Trace] is what is
    known about it, and [truthful] relates the status that is left in the log to
    what the participants were told.  [recover] starts from the status a crash
    left behind. *)

From stdpp Require Import gmap sets.
From S2P Require Import Prelude StateStore StateMachineFacts TwoPhaseCommit TwoPhaseFacts.

Section Coordinator.

Context {B Value : Type} `{BackendLaws B} `{Json (StateEntry Value)} `{JsonRoundTrip (TransactionLog Value)}.
Context (null phase_begin : Value) (now : nat -> text) (answer : list (Event B) -> Call -> result unit).

Abbreviation log_status := (log_status (Value := Value)).
Abbreviation logged := (logged (Value := Value)).
Abbreviation has_log := (has_log (Value := Value)).

(** All of [evs] happen while the log says [st]. *)
Definition during (tx : text) (st : TransactionStatus) (evs : list (Event B)) : Prop :=
  Forall (fun ev => logged tx st (snapshot ev)) evs.

Lemma from_state_during tx st (w : World B) evs : has_log tx st w -> from_state (backend w) evs -> during tx st evs.
Proof. intros Hl Hs. eapply Forall_impl; [exact Hs|]. by intros ev ->. Qed.

Definition unanimous (ps : list ParticipantInfo) (votes : list (Event B)) : Prop :=
  map call votes = map CallPrepare ps /\ Forall (fun ev => answered_ok ev = true) votes.

(** What the status in the log says about the commits and the rollbacks. *)
Definition truthful (ps : list ParticipantInfo) (st : option TransactionStatus) (commits rollbacks : list (Event B)) : Prop :=
  match st with
  | None | Some Preparing | Some Prepared => commits = [] /\ rollbacks = []
  | Some Committing => rollbacks = []
  | Some Committed => committed_by commits ≡ₚ ps /\ rollbacks = []
  | Some StRollingBack => length (committed_by commits) < length ps
  | Some RolledBack => committed_by commits = [] /\ map call rollbacks = map CallRollback ps
  | Some Mixed =>
      0 < length (committed_by commits) < length ps /\ map call rollbacks = map CallRollback ps
  | Some Unknown => False
  end.

Record Trace (tx : text) (ps : list ParticipantInfo) (w w' : World B) (votes commits rollbacks : list (Event B)) : Prop := {
  trace_events : events w' = events w ++ votes ++ commits ++ rollbacks;
  trace_votes : during tx Preparing votes /\ Forall (fun ev => exists p, call ev = CallPrepare p) votes;
  trace_commits : during tx Committing commits /\ Forall (fun ev => exists p, p ∈ ps /\ call ev = CallCommit p) commits;
  trace_rollbacks : during tx StRollingBack rollbacks /\ Forall (fun ev => exists p, call ev = CallRollback p) rollbacks;
  trace_decided : commits <> [] -> unanimous ps votes;
  trace_bounded : length commits <= 3 * length ps;
  trace_once : NoDup ps -> never_recalled commits;
  trace_truthful : truthful ps (log_status (backend w') tx) commits rollbacks
}.

Lemma rollback_calls ps (evs : list (Event B)) :
  map call evs = map CallRollback ps -> Forall (fun ev => exists p, call ev = CallRollback p) evs.
Proof. intros Hc%calls_of_map. eapply Forall_impl; [exact Hc|]. intros ev (p & _ & Hp). eauto. Qed.

Lemma never_recalled_nil : never_recalled (B := B) [].
Proof. by intros [|??] ev b p Heq. Qed.

Lemma no_events tx st (P : Event B -> Prop) : during tx st [] /\ Forall P [].
Proof. split; apply Forall_nil_2. Qed.

(** The fields of a [Trace] that are at hand; leaves the events and the status. *)
Ltac trace :=
  constructor; try first [done | by split | apply no_events | apply Nat.le_0_l | by intros; apply never_recalled_nil].

(** ** The phases with their log *)

Lemma prepare_phase_spec tx ps (w w' : World B) r :
  has_log tx Preparing w -> prepare_phase now answer tx ps w = (w', r) ->
  exists votes, events w' = events w ++ votes
    /\ during tx Preparing votes /\ Forall (fun ev => exists p, call ev = CallPrepare p) votes
    /\ match r with
       | Ok vs => if forallb vote vs then has_log tx Prepared w' /\ unanimous ps votes else has_log tx Preparing w' /\ ps <> []
       | Err _ => has_log tx Preparing w' \/ has_log tx Prepared w'
       end.
Proof.
  intros Hlog. unfold prepare_phase, mbind, M_bind, mret, M_ret.
  destruct (update_status now tx Preparing w) as [w1 r1] eqn:Hu. eapply update_status_spec in Hu as [He1 Hr1]; [|done].
  destruct r1 as [log|e]; [|intros [= <- <-]; exists []; rewrite He1, app_nil_r; split_and!; [done|apply Forall_nil_2..|tauto]].
  destruct Hr1 as [Hlog1 _].
  destruct (prepare_votes answer ps w1) as [w2 r2] eqn:Hp.
  pose proof Hp as Hne. apply prepare_votes_spec in Hp as (Hb & vs & finished & evs & -> & He2 & Hs & Hc & Hv & Hf).
  assert (has_log tx Preparing w2) as Hlog2 by (apply (same_log_has tx Preparing w1); [unfold same_log; by rewrite Hb|done]).
  assert (during tx Preparing evs) as Hd by (eapply from_state_during; [exact Hlog1|exact Hs]).
  rewrite He1 in He2. destruct finished.
  - destruct (update_status now tx Prepared w2) as [w3 r3] eqn:Hu. eapply update_status_spec in Hu as [He3 Hr3]; [|done].
    destruct r3 as [log'|e]; intros [= <- <-]; exists evs; rewrite He3; split_and!; try done.
    rewrite Hv. destruct Hr3 as [Hr3 _]. split; [done|]. by apply Hf.
  - intros [= <- <-]. exists evs. rewrite Hv. split_and!; try done. intros ->. by injection Hne as _ <-.
Qed.

(** Rolling back: the outcome is written only after every participant was told. *)
Lemma abort_spec tx ps old outcome (w w' : World B) r :
  has_log tx old w -> abort null now answer tx ps outcome w = (w', r) ->
  exists rollbacks, events w' = events w ++ rollbacks
    /\ during tx StRollingBack rollbacks /\ Forall (fun ev => exists p, call ev = CallRollback p) rollbacks
    /\ (rollbacks = [] /\ has_log tx old w' \/ has_log tx StRollingBack w'
        \/ map call rollbacks = map CallRollback ps /\ has_log tx outcome w').
Proof.
  intros Hlog. unfold abort, ignore, mbind, M_bind, mret, M_ret.
  destruct (update_status now tx StRollingBack w) as [w1 r1] eqn:Hu. eapply update_status_spec in Hu as [He1 Hr1]; [|done].
  destruct r1 as [log|e]; [|intros [= <- <-]; exists []; rewrite He1, app_nil_r; split_and!; [done|apply Forall_nil_2..|tauto]].
  destruct Hr1 as [Hlog1 _].
  destruct (rollback_phase answer ps w1) as [w2 r2] eqn:Hp. cbn [fst].
  apply rollback_phase_spec in Hp as (Hb & evs & He2 & Hs & Hc).
  assert (has_log tx StRollingBack w2) as Hlog2 by (apply (same_log_has tx StRollingBack w1); [unfold same_log; by rewrite Hb|done]).
  assert (during tx StRollingBack evs) as Hd by (eapply from_state_during; [exact Hlog1|exact Hs]).
  pose proof (rollback_calls ps evs Hc) as Hcalls.
  rewrite He1 in He2.
  destruct (update_status now tx outcome w2) as [w3 r3] eqn:Hu. eapply update_status_spec in Hu as [He3 Hr3]; [|done].
  destruct r3 as [log'|e]; [|intros [= <- <-]; exists evs; rewrite He3; tauto].
  destruct (finish_state null tx Failed w3) as [w4 r4] eqn:Hfin. apply finish_state_spec in Hfin as [He4 Hs4].
  destruct Hr3 as [Hr3 _]. apply (same_log_has tx outcome w3 w4) in Hr3; [|done].
  destruct r4; intros [= <- <-]; exists evs; rewrite He4, He3; tauto.
Qed.

(** What the results of [commit_phase] say is what happened. *)
Lemma commit_phase_spec tx ps (w w' : World B) r :
  has_log tx Committing w -> commit_phase answer ps 2 w = (w', r) ->
  has_log tx Committing w' /\ exists results commits, r = Ok results /\ events w' = events w ++ commits
    /\ during tx Committing commits /\ Forall (fun ev => exists p, p ∈ ps /\ call ev = CallCommit p) commits
    /\ length commits <= 3 * length ps /\ (NoDup ps -> never_recalled commits)
    /\ (if all_committed ps results then committed_by commits ≡ₚ ps else length (committed_by commits) < length ps)
    /\ final_status results = (if is_empty (committed_by commits) then RolledBack else Mixed).
Proof.
  intros Hlog Hc. apply commit_attempts_spec in Hc
    as (Hb & results & evs & refused & -> & He & Hs & Hc & Hperm & Hx & Hf & Hl & Hlen & Hnever).
  assert (length ps = length (committed_by evs) + length refused) as Hsum
    by (rewrite <- length_app; by apply Permutation_length).
  split; [apply (same_log_has tx Committing w); [unfold same_log; by rewrite Hb|done]|].
  exists results, evs. split_and!; try done.
  - by eapply from_state_during.
  - unfold all_committed. rewrite Hf, Hl. destruct ps as [|p ps]; cbn.
    + apply Permutation_nil_l in Hperm. symmetry in Hperm. by apply app_nil in Hperm as [-> _].
    + destruct refused as [|q refused]; cbn in *; [by rewrite Hperm, app_nil_r|lia].
  - unfold final_status. rewrite Hx. by destruct (committed_by evs).
Qed.

Lemma commit_agreed_spec tx ps (w0 w w' : World B) votes r :
  has_log tx Prepared w -> events w = events w0 ++ votes -> unanimous ps votes ->
  during tx Preparing votes -> Forall (fun ev => exists p, call ev = CallPrepare p) votes ->
  commit_agreed null now answer tx ps w = (w', r) ->
  (exists commits rollbacks, Trace tx ps w0 w' votes commits rollbacks)
  /\ (forall log, r = Ok log -> has_log tx Committed w').
Proof.
  intros Hlog Hw Hun Hvotes Hprep. unfold commit_agreed, fail, mbind, M_bind, mret, M_ret.
  destruct (update_status now tx Committing w) as [w1 r1] eqn:Hu. eapply update_status_spec in Hu as [He1 Hr1]; [|done].
  destruct r1 as [log|e].
  2: { intros [= <- <-]. split; [|done]. exists [], []. trace; [by rewrite He1, Hw, !app_nil_r|].
       by destruct Hr1 as [->%has_log_status| ->%has_log_status]. }
  destruct Hr1 as [Hlog1 _]. destruct (commit_phase answer ps 2 w1) as [w2 r2] eqn:Hcp.
  eapply commit_phase_spec in Hcp as (Hlog2 & results & commits & -> & He2 & Hd & Hcalls & Hlen & Hnever & Hall & Hfinal); [|done].
  assert (events w2 = events w0 ++ votes ++ commits) as He by (by rewrite He2, He1, Hw, app_assoc).
  destruct (all_committed ps results).
  - destruct (update_status now tx Committed w2) as [w3 r3] eqn:Hu. eapply update_status_spec in Hu as [He3 Hr3]; [|done].
    assert (forall w'' : World B, events w'' = events w2 -> has_log tx Committing w'' \/ has_log tx Committed w'' ->
              Trace tx ps w0 w'' votes commits []) as Htrace.
    { intros w'' He'' Hst. trace; [by rewrite He'', He, app_nil_r|].
      by destruct Hst as [->%has_log_status| ->%has_log_status]. }
    destruct r3 as [log'|e]; [|intros [= <- <-]; split; [exists commits, []; by apply Htrace|done]].
    destruct (finish_state null tx Completed w3) as [w4 r4] eqn:Hfin. apply finish_state_spec in Hfin as [He4 Hs4].
    destruct Hr3 as [Hr3 _]. apply (same_log_has tx Committed w3 w4) in Hr3; [|done].
    destruct r4; intros [= <- <-]; (split; [exists commits, []; apply Htrace; [by rewrite He4|by right]|done]).
  - destruct (abort null now answer tx ps (final_status results) w2) as [w3 r3] eqn:Hab.
    eapply abort_spec in Hab as (rollbacks & He3 & Hd3 & Hc3 & Hst); [|done].
    destruct r3; intros [= <- <-]; (split; [|done]); exists commits, rollbacks; trace;
      [by rewrite He3, He, <- !app_assoc| |by rewrite He3, He, <- !app_assoc|];
      rewrite Hfinal in Hst;
      destruct Hst as [[-> ->%has_log_status]|[->%has_log_status|[Hm ->%has_log_status]]]; try done;
      destruct (committed_by commits) eqn:Hcb; cbn; rewrite ?Hcb; cbn in *; split_and!; try done; lia.
Qed.

Lemma execute_trace tx ps metadata (w w' : World B) r :
  stored_log (Value := Value) (backend w) tx = None -> execute null phase_begin now answer tx ps metadata w = (w', r) ->
  (exists votes commits rollbacks, Trace tx ps w w' votes commits rollbacks)
  /\ (forall log, r = Ok log -> has_log tx Committed w').
Proof.
  intros Hfresh. unfold execute, new_log, timestamp, fail, mbind, M_bind, mret, M_ret.
  destruct (save_log _ _) as [w1 r1] eqn:Hsave. apply save_log_spec in Hsave as [He1 Hr1]. cbn [events backend transaction_id] in *.
  assert (forall st : option TransactionStatus, st = None \/ st = Some Preparing -> truthful ps st [] []) as Hquiet
    by (by intros st [-> | ->]).
  destruct r1 as [u|e].
  2: { intros [= <- <-]. split; [|done]. exists [], [], []. trace; [by rewrite He1, app_nil_r|]. apply Hquiet.
       unfold log_status. destruct Hr1 as [Hr1|Hr1]; [|rewrite Hr1; by right].
       left. unfold stored_log, same_log in *. rewrite Hr1. by rewrite Hfresh. }
  assert (has_log tx Preparing w1) as Hlog1 by (eexists; split_and!; [exact Hr1|done|by vm_compute]). clear Hr1.
  destruct (on_backend _ w1) as [w2 r2] eqn:Hcreate.
  apply (on_backend_frames _ tx) in Hcreate as [He2 Hs2]; [|apply frames_create_state].
  apply (same_log_has tx Preparing w1 w2) in Hlog1 as Hlog2; [|done].
  destruct r2 as [entry|e].
  2: { intros [= <- <-]. split; [|done]. exists [], [], []. trace; [by rewrite He2, He1, app_nil_r|]. apply Hquiet.
       apply has_log_status in Hlog2 as ->. by right. }
  destruct (prepare_phase now answer tx ps w2) as [w3 r3] eqn:Hp.
  eapply prepare_phase_spec in Hp as (votes & He3 & Hd & Hc & Hr3); [|done].
  rewrite He2, He1 in He3. destruct r3 as [vs|e].
  2: { intros [= <- <-]. split; [|done]. exists votes, [], []. trace; [by rewrite He3, !app_nil_r|].
       by destruct Hr3 as [->%has_log_status| ->%has_log_status]. }
  destruct (forallb vote vs); destruct Hr3 as [Hlog3 Hr3].
  - intros Hag. eapply commit_agreed_spec in Hag as [(commits & rollbacks & Htrace) Hok]; [|done..]. by eauto.
  - destruct (abort null now answer tx ps RolledBack w3) as [w4 r4] eqn:Hab.
    eapply abort_spec in Hab as (rollbacks & He4 & Hd4 & Hc4 & Hst); [|done].
    assert (truthful ps (log_status (backend w4) tx) [] rollbacks) as Htrue.
    { destruct Hst as [[-> ->%has_log_status]|[->%has_log_status|[Hm ->%has_log_status]]]; try done.
      destruct ps; [done|]. cbn. lia. }
    destruct r4; intros [= <- <-]; (split; [|done]); exists votes, [], rollbacks; trace; by rewrite He4, He3, <- app_assoc.
Qed.

(** ** Restarting *)

(** What [recover] does, given the status it finds. *)
Lemma recover_spec tx ps st (w w' : World B) log :
  has_log tx st w -> recover now answer tx ps w = (w', Ok log) ->
  exists evs, events w' = events w ++ evs
    /\ match st with
       | Preparing | Prepared | StRollingBack =>
           status log = status_as_str RolledBack /\ has_log tx RolledBack w' /\ map call evs = map CallRollback ps
       | Committing =>
           status log = status_as_str Committed /\ has_log tx Committed w' /\ committed_by evs ≡ₚ ps
       | Committed | RolledBack | Mixed => evs = [] /\ status_from_str (status log) = st /\ has_log tx st w'
       | Unknown => False
       end.
Proof.
  intros Hlog. unfold recover, fail, mbind, M_bind, mret, M_ret.
  destruct (load_log tx w) as [w1 r1] eqn:Hl. apply load_log_spec in Hl as (He1 & Hsame & Hr1).
  destruct r1 as [[found|]|e]; [|done..].
  apply (same_log_has tx st w w1) in Hlog as Hlog1; [|done].
  destruct Hlog as (log' & Hs & _ & Hst). rewrite (Hr1 found eq_refl) in Hs. injection Hs as ->. rewrite Hst.
  assert (forall w w' log, has_log tx st w ->
    match rollback_phase answer ps w with
    | (w', Ok _) => update_status now tx RolledBack w'
    | (w', Err e) => (w', Err e)
    end = (w', Ok log) -> exists evs, events w' = events w ++ evs
      /\ status log = status_as_str RolledBack /\ has_log tx RolledBack w' /\ map call evs = map CallRollback ps) as Hroll.
  { clear - H3. intros w w' log Hlog. destruct (rollback_phase answer ps w) as [w1 [u|e]] eqn:Hp; [|done].
    apply rollback_phase_spec in Hp as (Hb & evs & He & _ & Hc). intros Hu.
    eapply update_status_spec in Hu as [He2 [Hl2 Hs2]];
      [|apply (same_log_has tx st w); [unfold same_log; by rewrite Hb|done]].
    exists evs. by rewrite He2, He. }
  rewrite <- He1. destruct st; [by apply Hroll..| | |by apply Hroll| | |done].
  2-4: intros [= <- <-]; exists []; by rewrite app_nil_r.
  destruct (commit_phase answer ps 2 w1) as [w2 r2] eqn:Hcp.
  eapply commit_phase_spec in Hcp as (Hlog2 & results & commits & -> & He2 & _ & _ & _ & _ & Hall & _); [|done].
  destruct (all_committed ps results).
  - intros Hu. eapply update_status_spec in Hu as [He3 [Hl3 Hs3]]; [|done]. exists commits. by rewrite He3, He2.
  - destruct (rollback_phase answer ps w2) as [w3 [u|e]]; [|done].
    by destruct (update_status now tx (final_status results) w3) as [w4 [log''|e]].
Qed.

(** Events that are not commits commit nobody. *)
Lemma committed_by_other (evs : list (Event B)) : Forall (fun ev => committer (call ev) = None) evs -> committed_by evs = [].
Proof.
  unfold committed_by. induction 1 as [|ev evs Hev _ IH]; cbn; [done|]. rewrite Hev. by destruct (answered_ok ev).
Qed.

Lemma votes_commit_nobody (evs : list (Event B)) : Forall (fun ev => exists p, call ev = CallPrepare p) evs -> committed_by evs = [].
Proof. intros Hv. apply committed_by_other. eapply Forall_impl; [exact Hv|]. by intros ev (p & ->). Qed.

Lemma rollbacks_commit_nobody (evs : list (Event B)) : Forall (fun ev => exists p, call ev = CallRollback p) evs -> committed_by evs = [].
Proof. intros Hv. apply committed_by_other. eapply Forall_impl; [exact Hv|]. by intros ev (p & ->). Qed.

Lemma trace_committed_by tx ps w w' votes commits rollbacks :
  Trace tx ps w w' votes commits rollbacks -> committed_by (votes ++ commits ++ rollbacks) = committed_by commits.
Proof.
  intros Ht. rewrite !committed_by_app, (votes_commit_nobody votes), (rollbacks_commit_nobody rollbacks), app_nil_r.
  - done.
  - apply (trace_rollbacks _ _ _ _ _ _ _ Ht).
  - apply (trace_votes _ _ _ _ _ _ _ Ht).
Qed.

(** The calls up to an event that is not a rollback: before the decision nobody
    has committed, and the log says so. *)
Lemma trace_before_rollbacks tx ps w w' votes commits rollbacks pre ev post :
  Trace tx ps w w' votes commits rollbacks -> votes ++ commits ++ rollbacks = pre ++ ev :: post ->
  (forall p, call ev <> CallRollback p) ->
  logged tx Preparing (snapshot ev) /\ committed_by (pre ++ [ev]) = [] \/ logged tx Committing (snapshot ev).
Proof.
  intros [_ [Hvd Hv] [Hcd _] [_ Hr] _ _ _ _] Heq Hnot. unfold during in *. rewrite Forall_forall in Hvd, Hcd, Hr.
  assert (ev ∈ commits ++ rollbacks -> logged tx Committing (snapshot ev)) as Hlater.
  { intros [Hin|Hin]%elem_of_app; [by apply Hcd|]. destruct (Hr ev Hin) as [p Hp]. by destruct (Hnot p). }
  apply app_eq_app in Heq as [l [[-> Hl]|[-> Hl]]].
  - destruct l as [|ev' l]; cbn in Hl.
    + right. apply Hlater. rewrite <- Hl. by left.
    + injection Hl as -> _. left. split; [apply Hvd; set_solver|]. apply votes_commit_nobody.
      apply Forall_app in Hv as [Hv1 Hv2]. apply Forall_app. split; [done|]. apply Forall_cons in Hv2 as [Hv2 _]. by constructor.
  - right. apply Hlater. rewrite Hl. set_solver.
Qed.

(** C10: the two phases, on every run of [execute] and whatever the participants
    answer and the backend fails at.  The calls are votes, then commits, then
    rollbacks.  Nobody is told to commit unless every participant was asked to
    prepare, in order, and agreed; and at each call the log on disk already says
    which phase it belongs to ("preparing", "committing", "rolling_back").
    There are at most three commit calls per participant, and none to a
    participant that has committed. *)
Theorem two_phase_order (tx : text) (ps : list ParticipantInfo) (metadata : Value) (w w' : World B)
    (r : result (TransactionLog Value)) (Hfresh : stored_log (Value := Value) (backend w) tx = None)
    (Hrun : execute null phase_begin now answer tx ps metadata w = (w', r)) :
  exists votes commits rollbacks,
    events w' = events w ++ votes ++ commits ++ rollbacks
    /\ Forall (fun ev => log_status (snapshot ev) tx = Some Preparing /\ exists p, call ev = CallPrepare p) votes
    /\ Forall (fun ev => log_status (snapshot ev) tx = Some Committing /\ exists p, p ∈ ps /\ call ev = CallCommit p) commits
    /\ Forall (fun ev => log_status (snapshot ev) tx = Some StRollingBack /\ exists p, call ev = CallRollback p) rollbacks
    /\ (commits <> [] -> map call votes = map CallPrepare ps /\ Forall (fun ev => answered_ok ev = true) votes)
    /\ length commits <= 3 * length ps
    /\ (NoDup ps -> never_recalled commits).
Proof.
  eapply execute_trace in Hrun as [(votes & commits & rollbacks & [He Hv Hc Hr Hd Hb Ho _]) _]; [|done].
  exists votes, commits, rollbacks. split_and!; try done; apply Forall_and; (split; [|by destruct Hv, Hc, Hr]).
  - eapply Forall_impl; [exact (proj1 Hv)|]. intros ev. apply logged_status.
  - eapply Forall_impl; [exact (proj1 Hc)|]. intros ev. apply logged_status.
  - eapply Forall_impl; [exact (proj1 Hr)|]. intros ev. apply logged_status.
Qed.

(** C8: the log never lies.  After [execute], also when it gave up because the
    backend failed, the status a restarted coordinator reads tells which commits
    the participants acknowledged: "committed" when all of them did, "rolled_back"
    when none did and all were told to roll back, "mixed" when some but not all
    did, and before "committing" none did.  [Ok] is returned only when the log
    says "committed". *)
Theorem two_phase_log_is_truthful (tx : text) (ps : list ParticipantInfo) (metadata : Value) (w w' : World B)
    (r : result (TransactionLog Value)) (Hfresh : stored_log (Value := Value) (backend w) tx = None)
    (Hrun : execute null phase_begin now answer tx ps metadata w = (w', r)) :
  exists evs, events w' = events w ++ evs
    /\ (forall log, r = Ok log -> log_status (backend w') tx = Some Committed)
    /\ match log_status (backend w') tx with
       | None | Some Preparing | Some Prepared => committed_by evs = []
       | Some Committing => True
       | Some Committed => committed_by evs ≡ₚ ps
       | Some StRollingBack => length (committed_by evs) < length ps
       | Some RolledBack => committed_by evs = [] /\ (forall p, p ∈ ps -> CallRollback p ∈ map call evs)
       | Some Mixed => 0 < length (committed_by evs) < length ps /\ (forall p, p ∈ ps -> CallRollback p ∈ map call evs)
       | Some Unknown => False
       end.
Proof.
  eapply execute_trace in Hrun as [(votes & commits & rollbacks & Ht) Hok]; [|done].
  exists (votes ++ commits ++ rollbacks). rewrite (trace_committed_by _ _ _ _ _ _ _ Ht).
  destruct Ht as [He _ _ _ _ _ _ Htrue]. split_and!; [done|intros log Hr; by eapply has_log_status, Hok|].
  assert (map call rollbacks = map CallRollback ps ->
            forall p, p ∈ ps -> CallRollback p ∈ map call (votes ++ commits ++ rollbacks)) as Hall.
  { intros Hm p Hp. rewrite !map_app, Hm. do 2 (apply elem_of_app; right). by apply list_elem_of_fmap_2. }
  destruct (log_status (backend w') tx) as [[]|]; cbn in Htrue |- *; try done;
    try (destruct Htrue as [Hc Hr]; rewrite ?Hc; auto).
Qed.

(** C11: a crash before the rollback phase is atomic.  Stop [execute] right after
    any call to prepare or to commit and restart: when [recover] succeeds, either
    every participant has acknowledged a commit and the log says "committed", or
    no participant ever did, all were told to roll back and the log says
    "rolled_back". *)
Theorem crash_recovery_is_atomic (tx : text) (ps : list ParticipantInfo) (metadata : Value) (w w' w'' : World B)
    (r : result (TransactionLog Value)) (pre post : list (Event B)) (ev : Event B) (t : nat) (log : TransactionLog Value)
    (Hfresh : stored_log (Value := Value) (backend w) tx = None)
    (Hrun : execute null phase_begin now answer tx ps metadata w = (w', r))
    (Hcrash : events w' = events w ++ pre ++ ev :: post)
    (Hphase : forall p, call ev <> CallRollback p)
    (Hrecover : recover now answer tx ps (mk_world (snapshot ev) t (events w ++ pre ++ [ev])) = (w'', Ok log)) :
  exists evs, events w'' = events w ++ (pre ++ [ev]) ++ evs
    /\ (status log = %"committed" /\ log_status (backend w'') tx = Some Committed /\ committed_by evs ≡ₚ ps
        \/ status log = %"rolled_back" /\ log_status (backend w'') tx = Some RolledBack
           /\ map call evs = map CallRollback ps /\ committed_by ((pre ++ [ev]) ++ evs) = []).
Proof.
  eapply execute_trace in Hrun as [(votes & commits & rollbacks & Ht) _]; [|done].
  pose proof (trace_events _ _ _ _ _ _ _ Ht) as He. rewrite Hcrash in He. apply app_inv_head in He. symmetry in He.
  set (w1 := mk_world (snapshot ev) t _) in *.
  assert (forall evs, events w'' = events w1 ++ evs -> events w'' = events w ++ (pre ++ [ev]) ++ evs) as Hev
    by (intros evs ->; cbn [w1 events]; by rewrite <- !app_assoc).
  destruct (trace_before_rollbacks _ _ _ _ _ _ _ _ _ _ Ht He Hphase) as [[Hs Hnone]|Hs].
  - apply (recover_spec _ _ Preparing) in Hrecover as (evs & Hevs & Hl & Hlog & Hcalls); [|exact Hs].
    exists evs. split; [by apply Hev|]. right. split_and!; [done|by apply has_log_status|done|].
    rewrite committed_by_app, Hnone. by eapply rollbacks_commit_nobody, rollback_calls.
  - apply (recover_spec _ _ Committing) in Hrecover as (evs & Hevs & Hl & Hlog & Hcalls); [|exact Hs].
    exists evs. split; [by apply Hev|]. left. split_and!; [done|by apply has_log_status|done].
Qed.

End Coordinator.

(** ** Runs *)

(** A serialisation of logs without metadata: the texts one after the other. *)
Definition encode_texts (l : list text) : bytes := l ≫= fun t => N.of_nat (length t) :: t.

Fixpoint decode_texts (fuel : nat) (b : bytes) : option (list text) :=
  match b, fuel with
  | [], _ => Some []
  | _ :: _, O => None
  | n :: b', S fuel' => (cons (take (N.to_nat n) b')) <$> decode_texts fuel' (drop (N.to_nat n) b')
  end.

Lemma decode_encode_texts l : forall fuel, length l <= fuel -> decode_texts fuel (encode_texts l) = Some l.
Proof.
  induction l as [|t l IH]; intros [|fuel] Hf; cbn in *; try done; try lia.
  rewrite Nat2N.id, take_app_length, drop_app_length. fold (encode_texts l). rewrite IH; [done|lia].
Qed.

Lemma encode_texts_length l : length l <= length (encode_texts l).
Proof. induction l as [|t l IH]; cbn; [lia|]. rewrite length_app. fold (encode_texts l). lia. Qed.

Fixpoint infos_of_texts (l : list text) : list ParticipantInfo :=
  match l with
  | a :: b :: c :: l' => mk_info a b c :: infos_of_texts l'
  | _ => []
  end.

Definition texts_of_infos (ps : list ParticipantInfo) : list text := ps ≫= fun p => [info_id p; info_name p; info_role p].

Definition log_texts (log : TransactionLog unit) : list text :=
  transaction_id log :: status log :: created_at log :: updated_at log :: texts_of_infos (participants log).

#[export] Instance log_json : Json (TransactionLog unit) := {|
  to_vec log := Ok (encode_texts (log_texts log));
  from_slice b :=
    match decode_texts (length b) b with
    | Some (tx :: st :: created :: updated :: infos) => Ok (mk_log tx st (infos_of_texts infos) created updated tt)
    | _ => Err %"invalid log"
    end
|}.

#[export] Instance log_json_round_trip : JsonRoundTrip (TransactionLog unit).
Proof.
  intros log b Hb. assert (b = encode_texts (log_texts log)) as -> by by injection Hb. clear Hb.
  cbn [from_slice log_json]. rewrite decode_encode_texts by apply encode_texts_length.
  destruct log as [tx st ps created updated []]. cbn [log_texts transaction_id status participants created_at updated_at].
  do 2 f_equal. induction ps as [|[a b c] ps IH]; [done|]. cbn. by f_equal.
Qed.

Definition ledger : ParticipantInfo := mk_info %"1" %"ledger" %"primary".
Definition stock : ParticipantInfo := mk_info %"2" %"stock" %"replica".

Definition empty_world : World Storage.t := mk_world (Storage.mk ∅ []) 0 [].

(** [stock] accepts to prepare and then refuses every commit. *)
Definition stock_refuses (evs : list (Event Storage.t)) (c : Call) : result unit :=
  match c with
  | CallCommit p => if text_eqb (info_id p) %"2" then Err %"disk full" else Ok tt
  | _ => Ok tt
  end.

(** [stock] refuses its first two commits only. *)
Definition stock_hesitates (evs : list (Event Storage.t)) (c : Call) : result unit :=
  match c with
  | CallCommit p => if text_eqb (info_id p) %"2" && (length evs <=? 4) then Err %"busy" else Ok tt
  | _ => Ok tt
  end.

#[local] Existing Instance LocalBackend.

Definition run (answer : list (Event Storage.t) -> Call -> result unit) : World Storage.t * result (TransactionLog unit) :=
  execute tt tt (fun n => [N.of_nat n]) answer %"t1" [ledger; stock] tt empty_world.

Definition restart (answer : list (Event Storage.t) -> Call -> result unit) (n : nat)
    : World Storage.t * result (TransactionLog unit) :=
  match events (fst (run answer)) !! n with
  | Some ev =>
      recover (fun n => [N.of_nat n]) answer %"t1" [ledger; stock]
        (mk_world (snapshot ev) 9 (take (S n) (events (fst (run answer)))))
  | None => (empty_world, Err [])
  end.

Lemma two_phase_order_witness :
  length (committed_by (events (fst (run stock_hesitates)))) = 2
  /\ exists votes commits rollbacks,
    events (fst (run stock_hesitates)) = [] ++ votes ++ commits ++ rollbacks
    /\ Forall (fun ev => log_status (Value := unit) (snapshot ev) %"t1" = Some Preparing /\ exists p, call ev = CallPrepare p) votes
    /\ Forall (fun ev => log_status (Value := unit) (snapshot ev) %"t1" = Some Committing
                         /\ exists p, p ∈ [ledger; stock] /\ call ev = CallCommit p) commits
    /\ Forall (fun ev => log_status (Value := unit) (snapshot ev) %"t1" = Some StRollingBack
                         /\ exists p, call ev = CallRollback p) rollbacks
    /\ (commits <> [] -> map call votes = map CallPrepare [ledger; stock] /\ Forall (fun ev => answered_ok ev = true) votes)
    /\ length commits <= 3 * length [ledger; stock]
    /\ (NoDup [ledger; stock] -> never_recalled commits).
Proof.
  split; [by vm_compute|].
  apply (two_phase_order tt tt (fun n => [N.of_nat n]) stock_hesitates %"t1" [ledger; stock] tt empty_world
           (fst (run stock_hesitates)) (snd (run stock_hesitates))); [by vm_compute|].
  exact (surjective_pairing (run stock_hesitates)).
Defined.

Lemma two_phase_log_is_truthful_witness :
  log_status (Value := unit) (backend (fst (run stock_refuses))) %"t1" = Some Mixed
  /\ exists evs, events (fst (run stock_refuses)) = [] ++ evs
    /\ (forall log, snd (run stock_refuses) = Ok log ->
          log_status (Value := unit) (backend (fst (run stock_refuses))) %"t1" = Some Committed)
    /\ 0 < length (committed_by evs) < 2 /\ (forall p, p ∈ [ledger; stock] -> CallRollback p ∈ map call evs).
Proof.
  split; [by vm_compute|].
  exact (two_phase_log_is_truthful tt tt (fun n => [N.of_nat n]) stock_refuses %"t1" [ledger; stock] tt empty_world
           (fst (run stock_refuses)) (snd (run stock_refuses)) eq_refl (surjective_pairing (run stock_refuses))).
Defined.

(** The coordinator stops after the first commit and is restarted. *)
Lemma crash_recovery_is_atomic_witness :
  let evs := events (fst (run stock_hesitates)) in
  exists ev log, evs !! 2 = Some ev /\ call ev = CallCommit ledger /\ snd (restart stock_hesitates 2) = Ok log
    /\ exists later, events (fst (restart stock_hesitates 2)) = [] ++ (take 2 evs ++ [ev]) ++ later
       /\ (status log = %"committed"
           /\ log_status (Value := unit) (backend (fst (restart stock_hesitates 2))) %"t1" = Some Committed
           /\ committed_by later ≡ₚ [ledger; stock]
           \/ status log = %"rolled_back"
              /\ log_status (Value := unit) (backend (fst (restart stock_hesitates 2))) %"t1" = Some RolledBack
              /\ map call later = map CallRollback [ledger; stock] /\ committed_by ((take 2 evs ++ [ev]) ++ later) = []).
Proof.
  intros evs. destruct (evs !! 2) as [ev|] eqn:Hev; [|by vm_compute in Hev].
  destruct (snd (restart stock_hesitates 2)) as [log|e] eqn:Hlog; [|by vm_compute in Hlog].
  assert (call ev = CallCommit ledger) as Hcall by (vm_compute in Hev; by injection Hev as <-).
  exists ev, log. split_and!; [done..|].
  apply (crash_recovery_is_atomic tt tt (fun n => [N.of_nat n]) stock_hesitates %"t1" [ledger; stock] tt empty_world
           (fst (run stock_hesitates)) (fst (restart stock_hesitates 2)) (snd (run stock_hesitates))
           (take 2 evs) (drop 3 evs) ev 9 log).
  - by vm_compute.
  - exact (surjective_pairing (run stock_hesitates)).
  - rewrite (take_drop_middle evs 2 ev Hev). reflexivity.
  - intros p. by rewrite Hcall.
  - rewrite <- Hlog. transitivity (restart stock_hesitates 2); [|exact (surjective_pairing (restart stock_hesitates 2))].
    unfold restart. fold evs. rewrite Hev. f_equal. f_equal. symmetry. exact (take_S_r evs 2 ev Hev).
Defined.

(** Restarted during the rollback phase of a transaction that [ledger] has
    committed, [recover] reports and records that it was rolled back, where the
    run itself would have recorded "mixed". *)
Lemma recover_while_rolling_back_forgets_commits :
  (events (fst (run stock_refuses)) !! 6) ≫= (fun ev => Some (call ev)) = Some (CallRollback ledger)
  /\ committed_by (events (fst (restart stock_refuses 6))) = [ledger]
  /\ log_status (Value := unit) (backend (fst (restart stock_refuses 6))) %"t1" = Some RolledBack
  /\ log_status (Value := unit) (backend (fst (run stock_refuses))) %"t1" = Some Mixed.
Proof. by vm_compute. Qed.

(** The entry that [execute] creates for the state machine never leaves
    "created": neither "completed" nor "failed" can follow it. *)
Lemma finish_state_is_refused :
  is_valid_transition Created Completed = false /\ is_valid_transition Created Failed = false
  /\ snd (StateMachine.get_state (Value := unit) %"2pc_t1" (backend (fst (run stock_hesitates))))
     = Ok (Some (mk_entry %"2pc_t1" %"created" 1 tt)).
Proof. by vm_compute. Qed.
