(* ===== verification/SchemaCache.v ===== *)
(** * SchemaCache: the persisted schema cache and its invalidation.

    The [schema_cache] table of [crates/dbx-core/src/persistence/storage.rs] (a
    least-recently-used cache with a byte budget per connection and in total)
    and the keys and invalidation of [query/object_cache.rs].

    The table is a finite map from [cache_key].  An SQL statement is the function
    it denotes: [ORDER BY .. LIMIT 1] is the minimum for [row_leb] (SQLite
    compares text by its UTF-8 bytes, which is the order of the code points), and
    [SUM] of integers is an error when it leaves 64 bits.  A transaction that
    fails leaves the table as it was; [faults] says which of the coming ones fail
    for a reason outside the program.  The clock ([now_ms], and [stamp] for
    [datetime('now')]) is an argument.  [serde_json] is the class [JsonText]. *)

From stdpp Require Import gmap.
From S2P Require Import Prelude StateStore.

#[local] Open Scope Z_scope.

(** ** 64-bit integers *)

Definition i64_max : Z := 2 ^ 63 - 1.
Definition i64_min : Z := - 2 ^ 63.

(** [n as i64]. *)
Definition as_i64 (n : Z) : Z := (n + 2 ^ 63) mod 2 ^ 64 - 2 ^ 63.

Definition saturating_sub (a b : Z) : Z := Z.max i64_min (Z.min i64_max (a - b)).

Class JsonText (V : Type) := {
  to_string : V -> result text;
  from_str : text -> result V
}.

(** What the code relies on: a value that was written is read back. *)
Class JsonTextRoundTrip (V : Type) `{JsonText V} :=
  from_str_to_string : forall (v : V) s, to_string v = Ok s -> from_str s = Ok v.

(** ** The table *)

Record Row : Set := mk_row {
  payload_json : text;
  updated_at : text;
  updated_at_ms : Z;
  last_accessed_at_ms : Z;
  byte_size : Z;
  owner_id : text
}.

Abbreviation Table := (gmap text Row).

Record db : Set := mk_db { rows : Table; faults : list (option text) }.

(** [with_conn] around a transaction, or around one statement. *)
Definition transaction {A} (m : M Table A) : M db A := fun s =>
  match faults s with
  | Some e :: later => (mk_db (rows s) later, Err e)
  | _ =>
      match m (rows s) with
      | (rows', Ok a) => (mk_db rows' (tail (faults s)), Ok a)
      | (_, Err e) => (mk_db (rows s) (tail (faults s)), Err e)
      end
  end.

(** [str::split]. *)
Fixpoint split_char (c : char) (s : text) : list text :=
  match s with
  | [] => [[]]
  | x :: s' =>
      if (x =? c)%N then [] :: split_char c s'
      else match split_char c s' with
           | part :: parts => (x :: part) :: parts
           | [] => [[x]]
           end
  end.


Definition schema_cache_owner (cache_key : text) : text :=
  match split_char colon cache_key with
  | kind :: version :: owner :: _ =>
      if (text_eqb kind %"object-ddl" || text_eqb kind %"object-meta") && text_eqb version %"v1" then owner else []
  | _ => []
  end.

(** ** Queries *)

(** The lexicographic order of [ORDER BY] with ascending columns. *)
Fixpoint lex_leb (a b : list Z) : bool :=
  match a, b with
  | [], _ => true
  | _ :: _, [] => false
  | x :: a', y :: b' => (x <? y) || ((x =? y) && lex_leb a' b')
  end.

(** [ORDER BY last_accessed_at_ms ASC, updated_at_ms ASC, cache_key ASC]. *)
Definition row_order (e : text * Row) : list Z :=
  last_accessed_at_ms (snd e) :: updated_at_ms (snd e) :: map Z.of_N (fst e).

Definition row_leb (a b : text * Row) : bool := lex_leb (row_order a) (row_order b).

(** [LIMIT 1] of the entries ordered by [leb]. *)
Fixpoint first_by {A} (leb : A -> A -> bool) (l : list A) : option A :=
  match l with
  | [] => None
  | x :: l' =>
      match first_by leb l' with
      | Some y => if leb x y then Some x else Some y
      | None => Some x
      end
  end.

Definition sum (l : list Z) : Z := fold_right Z.add 0 l.

(** [SUM(..)]; the terms are never negative. *)
Definition sql_sum (l : list Z) : result Z := if sum l <=? i64_max then Ok (sum l) else Err %"integer overflow".

Definition owned_by (owner : text) (e : text * Row) : bool := text_eqb (owner_id (snd e)) owner.

Definition entry_size (e : text * Row) : Z := byte_size (snd e).

Definition owner_bytes (owner : text) (t : Table) : Z :=
  sum (map entry_size (List.filter (owned_by owner) (map_to_list t))).

Definition total_bytes (t : Table) : Z := sum (map entry_size (map_to_list t)).

Definition delete_where (p : text -> Row -> bool) (t : Table) : Table :=
  filter (fun e => p (fst e) (snd e) = false) t.

(** [DELETE .. WHERE cache_key = (SELECT ..)]; the flag is [deleted > 0]. *)
Definition delete_oldest_schema_cache_entry (owner : option text) (t : Table) : Table * bool :=
  let candidates :=
    match owner with
    | Some owner => List.filter (owned_by owner) (map_to_list t)
    | None => map_to_list t
    end in
  match first_by row_leb candidates with
  | Some (key, _) => (delete key t, true)
  | None => (t, false)
  end.

(** [ORDER BY SUM(byte_size) DESC, owner_id ASC]. *)
Definition group_order (g : text * Z) : list Z := - snd g :: map Z.of_N (fst g).

Fixpoint groups (t : Table) (owners : list text) : result (list (text * Z)) :=
  match owners with
  | [] => Ok []
  | owner :: later =>
      match sql_sum (map entry_size (List.filter (owned_by owner) (map_to_list t))), groups t later with
      | Ok bytes, Ok gs => Ok ((owner, bytes) :: gs)
      | Err e, _ | _, Err e => Err e
      end
  end.

Definition over_budget_owner (limit : Z) (t : Table) : result (option text) :=
  match groups t (remove_dups (map (fun e => owner_id (snd e)) (map_to_list t))) with
  | Ok gs =>
      Ok (fst <$> first_by (fun a b => lex_leb (group_order a) (group_order b))
                    (List.filter (fun g => limit <? snd g) gs))
  | Err e => Err e
  end.

(** ** Pruning *)

Record SchemaCachePolicy : Set := mk_policy {
  max_total_bytes : Z;
  max_connection_bytes : Z;
  max_entries : Z;
  max_age_millis : Z
}.

Definition SCHEMA_CACHE_MAX_AGE_MILLIS : Z := 24 * 60 * 60 * 1000.

Definition default_policy : SchemaCachePolicy :=
  mk_policy (256 * 1024 * 1024) (64 * 1024 * 1024) 50000 SCHEMA_CACHE_MAX_AGE_MILLIS.

(** The two loops of [prune_schema_cache].  Every iteration that goes on deletes a
    row, so the number of rows is fuel enough. *)
Fixpoint evict_owners (fuel : nat) (limit : Z) : M Table unit := fun t =>
  match over_budget_owner limit t with
  | Err e => (t, Err e)
  | Ok None => (t, Ok tt)
  | Ok (Some owner) =>
      match delete_oldest_schema_cache_entry (Some owner) t, fuel with
      | (t', true), S fuel' => evict_owners fuel' limit t'
      | (t', _), _ => (t', Ok tt)
      end
  end.

Fixpoint evict_total (fuel : nat) (policy : SchemaCachePolicy) : M Table unit := fun t =>
  match sql_sum (map entry_size (map_to_list t)) with
  | Err e => (t, Err e)
  | Ok total =>
      if (Z.of_nat (size t) <=? as_i64 (max_entries policy)) && (total <=? Z.max (max_total_bytes policy) 0)
      then (t, Ok tt)
      else match delete_oldest_schema_cache_entry None t, fuel with
           | (t', true), S fuel' => evict_total fuel' policy t'
           | (t', _), _ => (t', Ok tt)
           end
  end.

Definition expires_before (policy : SchemaCachePolicy) (now_ms : Z) : Z :=
  saturating_sub now_ms (Z.max (max_age_millis policy) 0).

Definition expired (policy : SchemaCachePolicy) (now_ms : Z) (row : Row) : bool :=
  (updated_at_ms row =? 0) || (updated_at_ms row <=? expires_before policy now_ms).

Definition prune_schema_cache (policy : SchemaCachePolicy) (now_ms : Z) : M Table unit := fun t =>
  let t := delete_where (fun _ => expired policy now_ms) t in
  match evict_owners (size t) (Z.max (max_connection_bytes policy) 0) t with
  | (t', Ok _) => evict_total (size t') policy t'
  | (t', Err e) => (t', Err e)
  end.

(** ** Operations *)

Section Operations.

Context {V : Type} `{JsonText V}.

Definition new_row (cache_key json : text) (now_ms : Z) (stamp : text) : Row :=
  mk_row json stamp now_ms now_ms (Z.min (Z.of_N (byte_len json)) i64_max) (schema_cache_owner cache_key).

Definition save_schema_cache_with_policy (cache_key : text) (payload : V) (policy : SchemaCachePolicy)
    (now_ms : Z) (stamp : text) : M db unit :=
  json ← lift_result (to_string payload);
  transaction (fun t => prune_schema_cache policy now_ms (<[cache_key := new_row cache_key json now_ms stamp]> t)).

Definition save_schema_cache (cache_key : text) (payload : V) (now_ms : Z) (stamp : text) : M db unit :=
  save_schema_cache_with_policy cache_key payload default_policy now_ms stamp.

Definition touch (now_ms : Z) (row : Row) : Row :=
  mk_row (payload_json row) (updated_at row) (updated_at_ms row) now_ms (byte_size row) (owner_id row).

Definition load_schema_cache (cache_key : text) (now_ms : Z) : M db (option V) :=
  json ← transaction (fun t =>
    match t !! cache_key with
    | Some row =>
        if saturating_sub now_ms (Z.max SCHEMA_CACHE_MAX_AGE_MILLIS 0) <? updated_at_ms row
        then (<[cache_key := touch now_ms row]> t, Ok (Some (payload_json row)))
        else (t, Ok None)
    | None => (t, Ok None)
    end);
  match json with
  | Some value => v ← lift_result (from_str value); mret (Some v)
  | None => mret None
  end.

End Operations.

(** [substr(cache_key, 1, n)] counts characters, [prefix.len()] counts bytes. *)
Definition has_cache_prefix (prefix cache_key : text) : bool :=
  text_eqb cache_key prefix || text_eqb (take (N.to_nat (byte_len prefix)) cache_key) prefix.

Definition delete_schema_cache_prefix (prefix : text) : M db unit :=
  transaction (fun t => (delete_where (fun key _ => has_cache_prefix prefix key) t, Ok tt)).

(** ** Keys of object metadata *)

Definition OBJECT_METADATA_CACHE_PREFIX : text := %"object-meta:v1".
Definition OBJECT_DDL_CACHE_PREFIX : text := %"object-ddl:v1".

(** The UTF-8 bytes of a character. *)
Definition utf8_bytes (c : char) : list N :=
  (if c <? 128 then [c]
   else if c <? 2048 then [192 + c / 64; 128 + c mod 64]
   else if c <? 65536 then [224 + c / 4096; 128 + (c / 64) mod 64; 128 + c mod 64]
   else [240 + c / 262144; 128 + (c / 4096) mod 64; 128 + (c / 64) mod 64; 128 + c mod 64])%N.

(** [value.bytes()]. *)
Definition bytes_of (value : text) : list N := value ≫= utf8_bytes.

Definition is_unreserved (byte : N) : bool :=
  is_ascii_alphanumeric byte || existsb (N.eqb byte) %"-_.!~*'()".

(** [HEX[n]]. *)
Definition hex_digit (n : N) : char := (if n <? 10 then 48 + n else 55 + n)%N.

Definition encode_byte (byte : N) : text :=
  if is_unreserved byte then [byte]
  else %"%" ++ [hex_digit (N.shiftr byte 4); hex_digit (N.land byte 15)].

Definition metadata_cache_segment (value : text) : text := bytes_of value ≫= encode_byte.

Definition object_metadata_cache_prefix (connection_id database : text) : text :=
  OBJECT_METADATA_CACHE_PREFIX ++ %":" ++ metadata_cache_segment connection_id ++ %":"
  ++ metadata_cache_segment database ++ %":".

(** The prefix of a connection in a namespace. *)
Definition connection_prefix (namespace connection_id : text) : text :=
  namespace ++ %":" ++ metadata_cache_segment connection_id ++ %":".

Definition invalidate_connection_object_cache (connection_id : text) : M db unit :=
  _ ← ignore (delete_schema_cache_prefix (connection_prefix OBJECT_METADATA_CACHE_PREFIX connection_id));
  ignore (delete_schema_cache_prefix (connection_prefix OBJECT_DDL_CACHE_PREFIX connection_id)).
