(* ===== verification/SchemaCacheFacts.v ===== *)
(** * SchemaCacheFacts: the cache stays within its budget and evicts the oldest.

    [Lru t t'] says that [t'] was reached from [t] by dropping rows that are older
    than every row their owner keeps; each iteration of the two eviction loops is
    such a step, and [evict_owners_spec] and [evict_total_spec] show that the
    loops end within their fuel, at their exit condition. *)

From stdpp Require Import gmap sets.
From S2P Require Import Prelude StateStore SchemaCache.

#[local] Open Scope Z_scope.

(** ** The order *)

Lemma lex_leb_total a b : lex_leb a b = true \/ lex_leb b a = true.
Proof.
  revert b. induction a as [|x a IH]; intros [|y b]; cbn; auto.
  destruct (Z.lt_total x y) as [Hxy|[->|Hxy]].
  - left. by apply Z.ltb_lt in Hxy as ->.
  - rewrite Z.eqb_refl, !orb_true_iff, !andb_true_iff. destruct (IH b); auto.
  - right. by apply Z.ltb_lt in Hxy as ->.
Qed.

Lemma lex_leb_trans a b c : lex_leb a b = true -> lex_leb b c = true -> lex_leb a c = true.
Proof.
  revert b c. induction a as [|x a IH]; intros [|y b] [|z c]; cbn; try done.
  rewrite !orb_true_iff, !andb_true_iff, !Z.ltb_lt, !Z.eqb_eq.
  intros [Hxy|[-> Hab]] [Hyz|[-> Hbc]]; [left; lia|left; lia|left; lia|right; eauto].
Qed.

Section FirstBy.

Context {A : Type} (leb : A -> A -> bool).
Hypothesis leb_total : forall a b, leb a b = true \/ leb b a = true.
Hypothesis leb_trans : forall a b c, leb a b = true -> leb b c = true -> leb a c = true.

Lemma first_by_spec l x : first_by leb l = Some x -> x ∈ l /\ forall y, y ∈ l -> leb x y = true.
Proof using leb_total leb_trans.
  revert x. induction l as [|a l IH]; intros x; cbn; [done|].
  assert (forall b, leb b b = true) as leb_refl by (intros b; by destruct (leb_total b b)).
  destruct (first_by leb l) as [m|] eqn:Hm.
  - destruct (IH m eq_refl) as [Hin Hmin]. destruct (leb a m) eqn:Ham; intros [= <-].
    + split; [by left|]. intros y [->|Hy]%elem_of_cons; eauto.
    + split; [by right|]. intros y [->|Hy]%elem_of_cons; [|auto]. destruct (leb_total a m); congruence.
  - intros [= <-]. split; [by left|]. intros y [->|Hy]%elem_of_cons; [auto|].
    destruct l as [|b l]; [by apply not_elem_of_nil in Hy|]. cbn in Hm. destruct (first_by leb l) as [m|]; [by destruct (leb b m)|done].
Qed.

Lemma first_by_None l : first_by leb l = None -> l = [].
Proof. destruct l as [|a l]; [done|]. cbn. destruct (first_by leb l) as [m|]; [by destruct (leb a m)|done]. Qed.

End FirstBy.

Lemma row_leb_total a b : row_leb a b = true \/ row_leb b a = true.
Proof. apply lex_leb_total. Qed.

Lemma row_leb_trans a b c : row_leb a b = true -> row_leb b c = true -> row_leb a c = true.
Proof. apply lex_leb_trans. Qed.

(** ** Sizes *)

Lemma sum_app a b : sum (a ++ b) = sum a + sum b.
Proof. induction a as [|x a IH]; cbn; [done|]. unfold sum in *. lia. Qed.

Lemma sum_permutation a b : a ≡ₚ b -> sum a = sum b.
Proof. induction 1; cbn; unfold sum in *; lia. Qed.

(** The rows of an owner, or all of them. *)
Definition selects (owner : option text) (e : text * Row) : bool :=
  match owner with Some owner => owned_by owner e | None => true end.

Definition selected (owner : option text) (t : Table) : list (text * Row) :=
  List.filter (selects owner) (map_to_list t).

Definition bytes_in (owner : option text) (t : Table) : Z := sum (map entry_size (selected owner t)).

Lemma filter_true {A} (l : list A) : List.filter (fun _ => true) l = l.
Proof. induction l as [|x l IH]; cbn; congruence. Qed.

Lemma selected_None t : selected None t = map_to_list t.
Proof. apply filter_true. Qed.

Lemma bytes_in_None t : bytes_in None t = total_bytes t.
Proof. unfold bytes_in. by rewrite selected_None. Qed.

Lemma bytes_in_Some owner t : bytes_in (Some owner) t = owner_bytes owner t.
Proof. done. Qed.

Lemma list_filter_permutation {A} (f : A -> bool) l l' : l ≡ₚ l' -> List.filter f l ≡ₚ List.filter f l'.
Proof.
  induction 1 as [|x l l' _ IH|x y l|l l' l'' _ IH1 _ IH2]; cbn; [done| | |by rewrite IH1].
  - destruct (f x); by rewrite ?IH.
  - destruct (f x), (f y); try done. apply Permutation_swap.
Qed.

Lemma elem_of_list_filter_bool {A} (f : A -> bool) x l : x ∈ List.filter f l <-> f x = true /\ x ∈ l.
Proof. rewrite !list_elem_of_In, filter_In. tauto. Qed.

Lemma elem_of_selected owner t k r : (k, r) ∈ selected owner t <-> selects owner (k, r) = true /\ t !! k = Some r.
Proof. unfold selected. by rewrite elem_of_list_filter_bool, elem_of_map_to_list. Qed.

Lemma selected_delete owner t k r :
  t !! k = Some r -> selects owner (k, r) = true -> (k, r) :: selected owner (delete k t) ≡ₚ selected owner t.
Proof.
  intros Hk Hs. unfold selected. rewrite <- (list_filter_permutation _ _ _ (map_to_list_delete t k r Hk)). cbn. by rewrite Hs.
Qed.

Lemma selected_delete_other owner t k r :
  t !! k = Some r -> selects owner (k, r) = false -> selected owner (delete k t) ≡ₚ selected owner t.
Proof.
  intros Hk Hs. unfold selected. rewrite <- (list_filter_permutation _ _ _ (map_to_list_delete t k r Hk)). cbn. by rewrite Hs.
Qed.

Lemma bytes_in_delete owner t k r :
  t !! k = Some r ->
  bytes_in owner t = (if selects owner (k, r) then byte_size r else 0) + bytes_in owner (delete k t).
Proof.
  intros Hk. unfold bytes_in. destruct (selects owner (k, r)) eqn:Hs.
  - rewrite <- (sum_permutation _ _ (Permutation_map entry_size (selected_delete owner t k r Hk Hs))). done.
  - by rewrite <- (sum_permutation _ _ (Permutation_map entry_size (selected_delete_other owner t k r Hk Hs))).
Qed.

(** Sizes are lengths. *)
Definition sized (t : Table) : Prop := map_Forall (fun _ row => 0 <= byte_size row) t.

Lemma sized_subseteq t t' : t' ⊆ t -> sized t -> sized t'.
Proof. intros Hsub Hs k r Hk. eapply Hs, lookup_weaken; done. Qed.

Lemma sum_nonneg l : Forall (fun x => 0 <= x) l -> 0 <= sum l.
Proof. induction 1; cbn; unfold sum in *; lia. Qed.

Lemma bytes_in_nonneg owner t : sized t -> 0 <= bytes_in owner t.
Proof.
  intros Hs. apply sum_nonneg, Forall_fmap, Forall_forall. intros [k r] Hin. apply elem_of_selected in Hin as [_ Hk].
  exact (Hs k r Hk).
Qed.

Lemma bytes_in_delete_le owner t k : sized t -> bytes_in owner (delete k t) <= bytes_in owner t.
Proof.
  intros Hs. destruct (t !! k) as [r|] eqn:Hk; [|by rewrite delete_id].
  rewrite (bytes_in_delete owner t k r Hk). specialize (Hs k r Hk). cbn in Hs. destruct (selects owner (k, r)); lia.
Qed.

Lemma owner_le_total owner t : sized t -> bytes_in owner t <= bytes_in None t.
Proof.
  intros Hs. revert Hs. induction (map_wf t) as [t _ IH]. intros Hs.
  destruct (map_to_list t) as [|[k r] l] eqn:Hl.
  - unfold bytes_in, selected. by rewrite Hl.
  - assert (t !! k = Some r) as Hk by (apply elem_of_map_to_list; rewrite Hl; by left).
    rewrite (bytes_in_delete owner t k r Hk), (bytes_in_delete None t k r Hk).
    change (selects None (k, r)) with true. cbv iota.
    assert (bytes_in owner (delete k t) <= bytes_in None (delete k t))
      by (apply IH; [by eapply delete_subset|eapply sized_subseteq; [apply delete_subseteq|done]]).
    specialize (Hs k r Hk). cbn in Hs. destruct (selects owner (k, r)); lia.
Qed.

(** ** One eviction *)

Lemma delete_oldest_spec owner t :
  match delete_oldest_schema_cache_entry owner t with
  | (t', true) =>
      exists k r, t !! k = Some r /\ selects owner (k, r) = true /\ t' = delete k t
        /\ forall k' r', t !! k' = Some r' -> selects owner (k', r') = true -> row_leb (k, r) (k', r') = true
  | (t', false) => t' = t /\ selected owner t = []
  end.
Proof.
  unfold delete_oldest_schema_cache_entry.
  replace (match owner with Some owner => _ | None => _ end) with (selected owner t)
    by (destruct owner; [done|by rewrite selected_None]).
  destruct (first_by row_leb (selected owner t)) as [[k r]|] eqn:Hf.
  - apply (first_by_spec row_leb row_leb_total row_leb_trans) in Hf as [Hin Hmin].
    apply elem_of_selected in Hin as [Hs Hk]. exists k, r. split_and!; [done..|].
    intros k' r' Hk' Hs'. apply Hmin. by apply elem_of_selected.
  - by apply first_by_None in Hf.
Qed.

(** [t'] lacks only rows of [t] that are older than all their owner keeps. *)
Definition Lru (t t' : Table) : Prop :=
  t' ⊆ t /\ forall k r k' r', t !! k = Some r -> t' !! k = None -> t' !! k' = Some r' -> owner_id r' = owner_id r ->
    row_leb (k, r) (k', r') = true.

#[export] Instance Lru_preorder : PreOrder Lru.
Proof.
  split.
  - intros t. split; [done|]. intros k r k' r' Hk Hk'. congruence.
  - intros t1 t2 t3 [Hs1 Ho1] [Hs2 Ho2]. split; [by etrans|]. intros k r k' r' Hk Hnone Hk' Howner.
    destruct (t2 !! k) as [r2|] eqn:H2.
    + assert (r2 = r) as -> by (apply (lookup_weaken _ _ _ _ H2) in Hs1; congruence). by eapply Ho2.
    + eapply Ho1; eauto. by eapply lookup_weaken.
Qed.

Lemma Lru_delete owner t k r :
  t !! k = Some r -> selects owner (k, r) = true ->
  (forall k' r', t !! k' = Some r' -> selects owner (k', r') = true -> row_leb (k, r) (k', r') = true) ->
  Lru t (delete k t).
Proof.
  intros Hk Hs Hold. split; [apply delete_subseteq|]. intros k1 r1 k' r' Hk1 Hnone Hk' Howner.
  destruct (decide (k1 = k)) as [->|Hne]; [|rewrite lookup_delete_ne in Hnone by done; congruence].
  assert (r1 = r) as -> by congruence. apply lookup_delete_Some in Hk' as [Hne Hk'].
  apply Hold; [done|]. destruct owner as [o|]; cbn in *; [|done]. unfold owned_by in *. cbn in *. by rewrite Howner.
Qed.

(** The row under [k] is the most recent one. *)
Definition Newest (k : text) (r : Row) (t : Table) : Prop :=
  t !! k = Some r /\ forall k' r', k' <> k -> t !! k' = Some r' -> row_leb (k, r) (k', r') = false.

Lemma Newest_subseteq k r t t' : Newest k r t -> t' ⊆ t -> t' !! k = Some r -> Newest k r t'.
Proof. intros [_ Hn] Hsub Hk. split; [done|]. intros k' r' Hne Hk'. eapply Hn; [done|]. by eapply lookup_weaken. Qed.

(** The newest row goes only when it is alone. *)
Lemma newest_alone owner t k r :
  Newest k r t -> selects owner (k, r) = true ->
  (forall k' r', t !! k' = Some r' -> selects owner (k', r') = true -> row_leb (k, r) (k', r') = true) ->
  selected owner t = [(k, r)].
Proof.
  intros [Hk Hn] Hs Hold. apply Permutation_singleton_r. rewrite <- (selected_delete owner t k r Hk Hs).
  apply Permutation_skip. destruct (selected owner (delete k t)) as [|[k' r'] l] eqn:Hl; [done|].
  assert ((k', r') ∈ selected owner (delete k t)) as Hin by (rewrite Hl; by left).
  apply elem_of_selected in Hin as [Hs' [Hne Hk']%lookup_delete_Some].
  specialize (Hn k' r' (not_eq_sym Hne) Hk'). rewrite (Hold k' r') in Hn; done.
Qed.

(** ** The loops *)

Lemma sql_sum_selected owner t :
  sized t -> bytes_in None t <= i64_max -> sql_sum (map entry_size (selected owner t)) = Ok (bytes_in owner t).
Proof.
  intros Hs Ht. unfold sql_sum. fold (bytes_in owner t). pose proof (owner_le_total owner t Hs).
  by replace (bytes_in owner t <=? i64_max) with true by (symmetry; apply Z.leb_le; lia).
Qed.

Lemma groups_spec t owners :
  sized t -> bytes_in None t <= i64_max -> groups t owners = Ok (map (fun o => (o, owner_bytes o t)) owners).
Proof.
  intros Hs Ht. induction owners as [|o owners IH]; cbn [groups map]; [done|].
  change (List.filter (owned_by o) (map_to_list t)) with (selected (Some o) t).
  by rewrite (sql_sum_selected (Some o) t Hs Ht), IH.
Qed.

Lemma over_budget_owner_spec limit t :
  sized t -> bytes_in None t <= i64_max -> 0 <= limit ->
  exists found, over_budget_owner limit t = Ok found
    /\ match found with
       | Some owner => limit < owner_bytes owner t
       | None => forall owner, owner_bytes owner t <= limit
       end.
Proof.
  intros Hs Ht Hlimit. unfold over_budget_owner. rewrite groups_spec by done. set (owners := remove_dups _).
  destruct (first_by _ _) as [[o bytes]|] eqn:Hf; eexists; (split; [done|]); cbn.
  - apply first_by_spec in Hf as [Hin _]; [|intros a b; apply lex_leb_total|intros a b c; apply lex_leb_trans].
    apply elem_of_list_filter_bool in Hin as [Hlt Hin]. apply list_elem_of_fmap in Hin as (o' & [= -> ->] & _).
    by apply Z.ltb_lt in Hlt.
  - apply first_by_None in Hf. intros o. destruct (decide (o ∈ owners)) as [Hin|Hout].
    + apply Z.nlt_ge. intros Hlt.
      assert ((o, owner_bytes o t) ∈ List.filter (fun g => limit <? snd g) (map (fun o => (o, owner_bytes o t)) owners)) as Hmem.
      { apply elem_of_list_filter_bool. split; [by apply Z.ltb_lt|]. by apply (list_elem_of_fmap_2 (fun o => (o, owner_bytes o t))). }
      rewrite Hf in Hmem. by apply not_elem_of_nil in Hmem.
    + rewrite <- bytes_in_Some. unfold bytes_in. destruct (selected (Some o) t) as [|[k r] l] eqn:Hl; [done|].
      assert ((k, r) ∈ selected (Some o) t) as Hin by (rewrite Hl; by left).
      apply elem_of_selected in Hin as [Ho Hk]. cbn in Ho. apply text_eqb_eq in Ho. cbn in Ho.
      destruct Hout. apply elem_of_remove_dups. rewrite <- Ho.
      apply (list_elem_of_fmap_2 (fun e => owner_id (snd e)) _ (k, r)). by apply elem_of_map_to_list.
Qed.

Lemma size_delete t k (r : Row) : (t : Table) !! k = Some r -> size t = S (size (delete k t)).
Proof.
  intros Hk. rewrite map_size_delete_Some by (by rewrite Hk). assert (size t <> 0%nat); [|lia].
  intros Hz. apply map_size_empty_inv in Hz as ->. by rewrite lookup_empty in Hk.
Qed.

(** What an eviction loop promises, with the condition [done_at] it stops at. *)
Definition Evicts (t t' : Table) (fits : Row -> Prop) : Prop :=
  Lru t t' /\ forall k r, Newest k r t -> fits r -> t' !! k = Some r.

Lemma Evicts_step (fits : Row -> Prop) owner t t' k r :
  t !! k = Some r -> selects owner (k, r) = true ->
  (forall k' r', t !! k' = Some r' -> selects owner (k', r') = true -> row_leb (k, r) (k', r') = true) ->
  (selected owner t = [(k, r)] -> ~ fits r) ->
  Evicts (delete k t) t' fits -> Evicts t t' fits.
Proof.
  intros Hk Hs Hold Halone [Hlru Hnew]. split; [etrans; [by eapply Lru_delete|done]|].
  intros k1 r1 Hn1 Hfits. destruct (decide (k1 = k)) as [->|Hne].
  - assert (r1 = r) as -> by (destruct Hn1; congruence). destruct Halone; [by eapply newest_alone|done].
  - apply Hnew; [|done]. eapply Newest_subseteq; [done|apply delete_subseteq|].
    rewrite lookup_delete_ne by done. apply Hn1.
Qed.

Lemma evict_owners_spec limit fuel : forall t,
  sized t -> bytes_in None t <= i64_max -> 0 <= limit -> (size t <= fuel)%nat ->
  exists t', evict_owners fuel limit t = (t', Ok tt)
    /\ Evicts t t' (fun r => byte_size r <= limit) /\ forall owner, owner_bytes owner t' <= limit.
Proof.
  induction fuel as [|fuel IH]; intros t Hs Ht Hlimit Hf;
    destruct (over_budget_owner_spec limit t Hs Ht Hlimit) as ([owner|] & Hob & Hfound); cbn [evict_owners]; rewrite Hob.
  2,4: exists t; split_and!; [done|split; [done|by intros k r [Hk _]]|done].
  all: pose proof (delete_oldest_spec (Some owner) t) as Hdel;
    destruct (delete_oldest_schema_cache_entry (Some owner) t) as [t' [|]];
    [|destruct Hdel as [_ Hnil]; rewrite <- bytes_in_Some in Hfound; unfold bytes_in in Hfound; rewrite Hnil in Hfound; cbn in Hfound; lia].
  all: destruct Hdel as (k & r & Hk & Hsel & -> & Hold); pose proof (size_delete t k r Hk).
  - lia.
  - destruct (IH (delete k t)) as (t' & Hrun & Hev & Hbudget); [| |done|lia|].
    + eapply sized_subseteq; [apply delete_subseteq|done].
    + pose proof (bytes_in_delete_le None t k Hs). lia.
    + exists t'. split_and!; [done| |done]. eapply Evicts_step; [done..| |done].
      intros Hone Hfits. rewrite <- bytes_in_Some in Hfound. unfold bytes_in in Hfound. rewrite Hone in Hfound. cbn in Hfound.
      unfold entry_size in Hfound. cbn in Hfound. lia.
Qed.

Definition entries_limit (policy : SchemaCachePolicy) : Prop := 0 <= max_entries policy <= i64_max.

Lemma as_i64_id n : 0 <= n <= i64_max -> as_i64 n = n.
Proof. unfold as_i64, i64_max. intros Hn. rewrite Z.mod_small by lia. lia. Qed.

Lemma evict_total_spec policy fuel : forall t,
  entries_limit policy -> sized t -> bytes_in None t <= i64_max -> (size t <= fuel)%nat ->
  exists t', evict_total fuel policy t = (t', Ok tt)
    /\ Evicts t t' (fun r => byte_size r <= Z.max (max_total_bytes policy) 0 /\ 1 <= max_entries policy)
    /\ Z.of_nat (size t') <= max_entries policy /\ total_bytes t' <= Z.max (max_total_bytes policy) 0.
Proof.
  induction fuel as [|fuel IH]; intros t Hentries Hs Ht Hf; cbn [evict_total];
    (replace (map_to_list t) with (selected None t) by apply selected_None);
    rewrite sql_sum_selected by done; rewrite as_i64_id by done;
    destruct ((Z.of_nat (size t) <=? max_entries policy) && (bytes_in None t <=? Z.max (max_total_bytes policy) 0)) eqn:Hfit.
  1,3: apply andb_true_iff in Hfit as [H1%Z.leb_le H2%Z.leb_le]; exists t; rewrite bytes_in_None in H2;
    split_and!; [done|split; [done|by intros k r [Hk _]]|done|done].
  all: pose proof (delete_oldest_spec None t) as Hdel; destruct (delete_oldest_schema_cache_entry None t) as [t' [|]].
  2,4: destruct Hdel as [_ Hnil]; exfalso; apply andb_false_iff in Hfit; unfold bytes_in in Hfit; rewrite Hnil in Hfit;
    rewrite selected_None in Hnil; apply map_to_list_empty_iff in Hnil as ->; rewrite map_size_empty in Hfit;
    rewrite !Z.leb_gt in Hfit; cbn in Hfit; unfold entries_limit in *; lia.
  all: destruct Hdel as (k & r & Hk & Hsel & -> & Hold); pose proof (size_delete t k r Hk).
  - lia.
  - destruct (IH (delete k t)) as (t' & Hrun & Hev & Hbudget); [done| | |lia|].
    + eapply sized_subseteq; [apply delete_subseteq|done].
    + pose proof (bytes_in_delete_le None t k Hs). lia.
    + exists t'. split_and!; [done| |apply Hbudget..]. eapply Evicts_step; [done..| |done].
      intros Hone [Hfits Hmax]. apply andb_false_iff in Hfit. rewrite !Z.leb_gt in Hfit.
      assert (size t = 1%nat) as Hsize by (rewrite <- length_map_to_list, <- selected_None, Hone; done).
      unfold bytes_in in Hfit. rewrite Hone in Hfit. cbn in Hfit. unfold entry_size in Hfit. cbn in Hfit. lia.
Qed.
