(* ===== verification/SchemaCacheTheorems.v ===== *)
(** * SchemaCacheTheorems: the contract of the schema cache.

    Saving keeps the cache within its policy, evicts the least recently used rows
    first and returns; what was saved can be loaded; invalidating a connection
    removes its metadata and nothing else. *)

From stdpp Require Import gmap sets.
From S2P Require Import Prelude StateStore SchemaCache SchemaCacheFacts.

#[local] Open Scope Z_scope.

Lemma bytes_in_subseteq owner t t' : t' ⊆ t -> sized t -> bytes_in owner t' <= bytes_in owner t.
Proof.
  intros Hsub Hs. apply map_to_list_submseteq in Hsub. apply submseteq_Permutation in Hsub as [l Hl].
  assert (bytes_in owner t = bytes_in owner t' + sum (map entry_size (List.filter (selects owner) l))) as ->.
  { unfold bytes_in, selected. rewrite (sum_permutation _ _ (Permutation_map entry_size (list_filter_permutation _ _ _ Hl))).
    by rewrite List.filter_app, map_app, sum_app. }
  enough (0 <= sum (map entry_size (List.filter (selects owner) l))) by lia.
  apply sum_nonneg, Forall_fmap, Forall_forall. intros [k r] [_ Hin]%elem_of_list_filter_bool.
  apply (Hs k r). apply elem_of_map_to_list. rewrite Hl. apply elem_of_app. by right.
Qed.

Lemma lookup_delete_where (p : text -> Row -> bool) (t : Table) (k : text) (r : Row) :
  delete_where p t !! k = Some r <-> t !! k = Some r /\ p k r = false.
Proof. unfold delete_where. by rewrite map_lookup_filter_Some. Qed.

Lemma delete_where_subseteq (p : text -> Row -> bool) (t : Table) : delete_where p t ⊆ t.
Proof. apply map_filter_subseteq. Qed.

(** ** Pruning *)

Record WithinPolicy (policy : SchemaCachePolicy) (t : Table) : Prop := {
  within_entries : Z.of_nat (size t) <= max_entries policy;
  within_total : total_bytes t <= Z.max (max_total_bytes policy) 0;
  within_connection owner : owner_bytes owner t <= Z.max (max_connection_bytes policy) 0
}.

(** A row that the limits leave room for. *)
Definition fits_policy (policy : SchemaCachePolicy) (r : Row) : Prop :=
  byte_size r <= Z.max (max_connection_bytes policy) 0 /\ byte_size r <= Z.max (max_total_bytes policy) 0
  /\ 1 <= max_entries policy.

Lemma prune_spec policy now_ms t :
  entries_limit policy -> sized t -> total_bytes t <= i64_max ->
  exists t', prune_schema_cache policy now_ms t = (t', Ok tt)
    /\ Evicts (delete_where (fun _ => expired policy now_ms) t) t' (fits_policy policy) /\ WithinPolicy policy t'.
Proof.
  intros Hentries Hs Ht. unfold prune_schema_cache. set (t0 := delete_where _ t).
  assert (t0 ⊆ t) as Hsub by apply delete_where_subseteq.
  assert (sized t0) as Hs0 by by eapply sized_subseteq.
  assert (bytes_in None t0 <= i64_max) as Ht0
    by (pose proof (bytes_in_subseteq None t t0 Hsub Hs) as Hle; rewrite (bytes_in_None t) in Hle; lia).
  destruct (evict_owners_spec (Z.max (max_connection_bytes policy) 0) (size t0) t0) as (t1 & -> & [Hlru1 Hnew1] & Hown);
    [done|done|lia|lia|].
  assert (sized t1) as Hs1 by (eapply sized_subseteq; [apply Hlru1|done]).
  pose proof (bytes_in_subseteq None t0 t1 (proj1 Hlru1) Hs0).
  destruct (evict_total_spec policy (size t1) t1) as (t2 & -> & [Hlru2 Hnew2] & Hcount & Htotal); [done|done|lia|lia|].
  exists t2. split_and!; [done| |].
  - split; [by etrans|]. intros k r Hn (Hc & Hb & He). apply Hnew2; [|done].
    eapply Newest_subseteq; [exact Hn|apply Hlru1|]. by apply Hnew1.
  - split; [done..|]. intros owner. rewrite <- bytes_in_Some.
    pose proof (bytes_in_subseteq (Some owner) t1 t2 (proj1 Hlru2) Hs1) as Hle. specialize (Hown owner).
    rewrite (bytes_in_Some owner t1) in Hle. lia.
Qed.

(** ** Saving *)

Section Save.

Context {V : Type} `{JsonTextRoundTrip V}.
Context (cache_key : text) (payload : V) (json : text) (policy : SchemaCachePolicy) (now_ms : Z) (stamp : text) (s : db).

Hypothesis Hjson : to_string payload = Ok json.
Hypothesis Hfaults : faults s = [].
Hypothesis Hentries : entries_limit policy.
Hypothesis Hsized : sized (rows s).
Hypothesis Hroom : total_bytes (rows s) + Z.of_N (byte_len json) <= i64_max.

Abbreviation saved_row := (new_row cache_key json now_ms stamp).
Abbreviation offered := (<[cache_key := saved_row]> (rows s)).

Lemma sized_offered : sized offered.
Proof using Hsized. apply map_Forall_insert_2; [|done]. cbn. unfold i64_max. lia. Qed.

Lemma offered_room : total_bytes offered <= i64_max.
Proof using Hroom Hsized.
  rewrite <- bytes_in_None in *. rewrite (bytes_in_delete None offered cache_key saved_row) by apply lookup_insert_eq.
  rewrite delete_insert_eq. change (selects None (cache_key, saved_row)) with true. cbv iota.
  pose proof (bytes_in_delete_le None (rows s) cache_key Hsized). cbn [byte_size new_row]. lia.
Qed.

Lemma save_spec :
  exists t', save_schema_cache_with_policy cache_key payload policy now_ms stamp s = (mk_db t' [], Ok tt)
    /\ Evicts (delete_where (fun _ => expired policy now_ms) offered) t' (fits_policy policy) /\ WithinPolicy policy t'.
Proof using Hjson Hfaults Hentries Hsized Hroom.
  destruct (prune_spec policy now_ms offered) as (t' & Hrun & Hev & Hwithin); [done|apply sized_offered|apply offered_room|].
  exists t'. split; [|done]. unfold save_schema_cache_with_policy, lift_result, mbind, M_bind. rewrite Hjson.
  unfold transaction. rewrite Hfaults, Hrun. done.
Qed.

(** C33: saving keeps the cache within its policy.  A save on a working database
    returns, and afterwards the number of rows, the bytes in total and the bytes of
    every connection are within the policy, no row is expired, every row is the one
    saved or an unchanged row of before, and the cache is ready for the next save. *)
Theorem save_keeps_budget :
  exists s', save_schema_cache_with_policy cache_key payload policy now_ms stamp s = (s', Ok tt)
    /\ Z.of_nat (size (rows s')) <= max_entries policy
    /\ total_bytes (rows s') <= Z.max (max_total_bytes policy) 0
    /\ (forall owner, owner_bytes owner (rows s') <= Z.max (max_connection_bytes policy) 0)
    /\ (forall key row, rows s' !! key = Some row ->
          expired policy now_ms row = false /\ 0 <= byte_size row
          /\ (if decide (key = cache_key) then row = saved_row else rows s !! key = Some row)).
Proof using Hjson Hfaults Hentries Hsized Hroom.
  destruct save_spec as (t' & -> & [[Hsub _] _] & [Hc Ht Ho]). eexists. split_and!; [done..|]. cbn [rows].
  intros key row Hk. apply (lookup_weaken _ _ _ _ Hk) in Hsub. apply lookup_delete_where in Hsub as [Hoff Hexp].
  pose proof (sized_offered key row Hoff). split_and!; [done..|].
  destruct (decide (key = cache_key)) as [->|Hne]; [by rewrite lookup_insert_eq in Hoff; injection Hoff|].
  by rewrite lookup_insert_ne in Hoff.
Qed.

(** eviction is least recently used.  Of the rows of a connection that have
    not expired, the saved one included, every row that is gone after the save was
    accessed no later than every row that is still there. *)
Theorem eviction_is_lru (s' : db)
    (Hrun : save_schema_cache_with_policy cache_key payload policy now_ms stamp s = (s', Ok tt))
    (key key' : text) (row row' : Row) :
  offered !! key = Some row -> expired policy now_ms row = false -> rows s' !! key = None ->
  rows s' !! key' = Some row' -> owner_id row' = owner_id row ->
  last_accessed_at_ms row <= last_accessed_at_ms row' /\ row_leb (key, row) (key', row') = true.
Proof using Hjson Hfaults Hentries Hsized Hroom.
  intros Hk Hexp Hgone Hk' Howner. destruct save_spec as (t' & Heq & [[_ Hold] _] & _).
  rewrite Heq in Hrun. injection Hrun as <-. cbn [rows] in *.
  assert (row_leb (key, row) (key', row') = true) as Hleb by (eapply Hold; [by apply lookup_delete_where|done..]).
  split; [|done]. unfold row_leb, row_order in Hleb. cbn in Hleb.
  apply orb_true_iff in Hleb as [Hlt%Z.ltb_lt|[Heq'%Z.eqb_eq _]%andb_true_iff]; lia.
Qed.

(** What was saved is loaded.  When the other rows were last accessed before
    the save and the payload fits the policy, a load of the same key within the
    next 24 hours returns the saved value. *)
Theorem save_load_round_trip (later_ms : Z) (s' : db)
    (Hrun : save_schema_cache_with_policy cache_key payload policy now_ms stamp s = (s', Ok tt))
    (Hclock : forall key row, key <> cache_key -> rows s !! key = Some row -> last_accessed_at_ms row < now_ms)
    (Hsmall : Z.of_N (byte_len json) <= Z.max (max_connection_bytes policy) 0
              /\ Z.of_N (byte_len json) <= Z.max (max_total_bytes policy) 0 /\ 1 <= max_entries policy)
    (Hnow : 0 < now_ms <= i64_max) (Hage : 1 <= max_age_millis policy <= i64_max)
    (Hlater : later_ms < now_ms + SCHEMA_CACHE_MAX_AGE_MILLIS) (Hrange : 0 <= later_ms <= i64_max) :
  snd (load_schema_cache (V := V) cache_key later_ms s') = Ok (Some payload).
Proof using All.
  destruct save_spec as (t' & Heq & [_ Hnew] & _). rewrite Heq in Hrun. injection Hrun as <-.
  assert (t' !! cache_key = Some saved_row) as Hrow.
  { apply Hnew; [|unfold fits_policy; cbn [byte_size new_row]; lia]. split.
    - apply lookup_delete_where. rewrite lookup_insert_eq. split; [done|].
      unfold expired, expires_before, saturating_sub, i64_min, i64_max in *. cbn [updated_at_ms new_row].
      apply orb_false_iff. split; [apply Z.eqb_neq; lia|apply Z.leb_gt; lia].
    - intros key row Hne [Hk _]%lookup_delete_where. rewrite lookup_insert_ne in Hk by done.
      specialize (Hclock key row Hne Hk). unfold row_leb, row_order. cbn.
      replace (now_ms <? last_accessed_at_ms row) with false by (symmetry; apply Z.ltb_ge; lia).
      by replace (now_ms =? last_accessed_at_ms row) with false by (symmetry; apply Z.eqb_neq; lia). }
  unfold load_schema_cache, transaction, mbind, M_bind, mret, M_ret, lift_result. cbn [faults rows]. rewrite Hrow.
  replace (saturating_sub later_ms (Z.max SCHEMA_CACHE_MAX_AGE_MILLIS 0) <? updated_at_ms saved_row) with true.
  - cbn [payload_json new_row]. by rewrite (from_str_to_string payload json Hjson).
  - symmetry. apply Z.ltb_lt. cbn [updated_at_ms new_row].
    unfold saturating_sub, i64_min, i64_max, SCHEMA_CACHE_MAX_AGE_MILLIS in *. lia.
Qed.

End Save.

(** ** Keys *)

Definition valid_text (s : text) : Prop := Forall (fun c => (c < 1114112)%N) s.

(** A code no word of which starts another one. *)
Definition PrefixFree {A B} (P : A -> Prop) (f : A -> list B) : Prop :=
  forall a b x y, P a -> P b -> f a ++ x = f b ++ y -> a = b /\ x = y.

Lemma bind_prefix_free_inj {A B} (P : A -> Prop) (f : A -> list B) :
  PrefixFree P f -> (forall a, f a <> []) ->
  forall l l', Forall P l -> Forall P l' -> l ≫= f = l' ≫= f -> l = l'.
Proof.
  intros Hf Hne l. induction l as [|a l IH]; intros [|b l'] Hl Hl' Heq; cbn in Heq.
  - done.
  - symmetry in Heq. apply app_eq_nil in Heq as [Hnil _]. by destruct (Hne b).
  - apply app_eq_nil in Heq as [Hnil _]. by destruct (Hne a).
  - apply Forall_cons in Hl as [Ha Hl]. apply Forall_cons in Hl' as [Hb Hl'].
    destruct (Hf a b _ _ Ha Hb Heq) as [-> Hrest]. f_equal. by apply IH.
Qed.

Lemma utf8_prefix_free : PrefixFree (fun c => (c < 1114112)%N) utf8_bytes.
Proof.
  intros a b x y Ha Hb. cbn beta in *. unfold utf8_bytes.
  destruct (N.ltb_spec a 128), (N.ltb_spec b 128), (N.ltb_spec a 2048), (N.ltb_spec b 2048),
    (N.ltb_spec a 65536), (N.ltb_spec b 65536); try lia;
    cbn [app]; intros Heq; injection Heq; intros;
    first [split; [|done]|exfalso]; zify; Z.to_euclidean_division_equations; lia.
Qed.

Lemma utf8_bytes_bounded c : (c < 1114112)%N -> Forall (fun b => (b < 256)%N) (utf8_bytes c).
Proof.
  intros Hc. unfold utf8_bytes. destruct (N.ltb_spec c 128), (N.ltb_spec c 2048), (N.ltb_spec c 65536);
    repeat constructor; zify; Z.to_euclidean_division_equations; lia.
Qed.

Lemma encode_byte_prefix_free : PrefixFree (fun b => (b < 256)%N) encode_byte.
Proof.
  intros a b x y Ha Hb. cbn beta in *. unfold encode_byte.
  assert (forall n, is_unreserved n = true -> n <> 37%N) as Hpercent by (intros n Hn ->; by vm_compute in Hn).
  destruct (is_unreserved a) eqn:Hua, (is_unreserved b) eqn:Hub; cbn; intros Heq; injection Heq; intros.
  - done.
  - by destruct (Hpercent a).
  - by destruct (Hpercent b).
  - split; [|done].
    assert (forall n m, (n < 16)%N -> (m < 16)%N -> hex_digit n = hex_digit m -> n = m) as Hhex.
    { intros n m Hn Hm. unfold hex_digit. destruct (N.ltb_spec n 10), (N.ltb_spec m 10); lia. }
    rewrite !N.shiftr_div_pow2 in *. change 15%N with (N.ones 4) in *. rewrite !N.land_ones in *. change (2 ^ 4)%N with 16%N in *.
    assert (a / 16 = b / 16)%N by (apply Hhex; [apply N.Div0.div_lt_upper_bound; lia..|done]).
    assert (a mod 16 = b mod 16)%N by (apply Hhex; [apply N.mod_lt; lia..|done]).
    rewrite (N.div_mod a 16), (N.div_mod b 16) by done. congruence.
Qed.

Lemma bytes_of_bounded s : valid_text s -> Forall (fun b => (b < 256)%N) (bytes_of s).
Proof. induction 1 as [|c s Hc _ IH]; cbn; [constructor|]. apply Forall_app. split; [by apply utf8_bytes_bounded|done]. Qed.

Lemma metadata_cache_segment_inj a b :
  valid_text a -> valid_text b -> metadata_cache_segment a = metadata_cache_segment b -> a = b.
Proof.
  intros Ha Hb Heq. apply (bind_prefix_free_inj _ _ utf8_prefix_free); [|done..|].
  { intros c. unfold utf8_bytes. by repeat case_match. }
  apply (bind_prefix_free_inj _ _ encode_byte_prefix_free); [|by apply bytes_of_bounded..|done].
  intros c. unfold encode_byte. by case_match.
Qed.

(** Every character of a segment is ASCII and not a colon. *)
Lemma encode_byte_plain b : (b < 256)%N -> Forall (fun c => (c < 128)%N /\ c <> colon) (encode_byte b).
Proof.
  intros Hb. unfold encode_byte. destruct (is_unreserved b) eqn:Hu.
  - constructor; [|constructor]. unfold is_unreserved, is_ascii_alphanumeric, is_ascii_alphabetic, is_ascii_uppercase,
      is_ascii_lowercase, is_ascii_digit in Hu. cbn in Hu. unfold colon.
    rewrite !orb_true_iff, !andb_true_iff, !N.leb_le, !N.eqb_eq in Hu. lia.
  - assert (forall n, (n < 16)%N -> (hex_digit n < 128)%N /\ hex_digit n <> colon) as Hhex.
    { intros n Hn. unfold hex_digit, colon. destruct (N.ltb_spec n 10); lia. }
    cbn. repeat constructor; try done; apply Hhex; rewrite ?N.shiftr_div_pow2; change 15%N with (N.ones 4); rewrite ?N.land_ones;
      [apply N.Div0.div_lt_upper_bound; cbn; lia..|apply N.mod_lt; done|apply N.mod_lt; done].
Qed.

Lemma segment_plain s : valid_text s -> Forall (fun c => (c < 128)%N /\ c <> colon) (metadata_cache_segment s).
Proof.
  intros Hs%bytes_of_bounded. unfold metadata_cache_segment. induction Hs as [|b l Hb _ IH]; cbn; [constructor|].
  apply Forall_app. split; [by apply encode_byte_plain|done].
Qed.

Definition ascii_text (s : text) : Prop := Forall (fun c => (c < 128)%N) s.

Lemma byte_len_ascii s : ascii_text s -> N.to_nat (byte_len s) = length s.
Proof.
  induction 1 as [|c s Hc _ IH]; [done|]. cbn [byte_len fold_right length]. fold (byte_len s).
  rewrite N2Nat.inj_add, IH. unfold len_utf8. apply N.ltb_lt in Hc as ->. done.
Qed.

(** On an ASCII prefix, counting bytes is counting characters. *)
Lemma has_cache_prefix_ascii prefix key : ascii_text prefix -> has_cache_prefix prefix key = starts_with prefix key.
Proof.
  intros Ha. unfold has_cache_prefix. rewrite byte_len_ascii by done. apply eq_true_iff_eq.
  rewrite orb_true_iff, !text_eqb_eq, starts_with_app. split.
  - intros [->|<-]; [exists []; by rewrite app_nil_r|]. exists (drop (length prefix) key). by rewrite take_drop.
  - intros [rest ->]. right. by rewrite take_app_length.
Qed.

Lemma connection_prefix_ascii ns c : ascii_text ns -> valid_text c -> ascii_text (connection_prefix ns c).
Proof.
  intros Hns Hc. unfold connection_prefix, ascii_text. apply Forall_app. split; [done|]. cbn. constructor; [done|].
  apply Forall_app. split; [|by repeat constructor]. eapply Forall_impl; [by apply segment_plain|]. by intros x [].
Qed.

Lemma same_namespace ns c c' rest :
  valid_text c -> valid_text c' ->
  starts_with (connection_prefix ns c) (connection_prefix ns c' ++ rest) = true <-> c = c'.
Proof.
  intros Hc Hc'. rewrite starts_with_app. split; [|intros ->; by eexists].
  intros [tail Heq]. unfold connection_prefix in Heq. rewrite <- !app_assoc in Heq. apply app_inv_head in Heq.
  cbn in Heq. injection Heq as Heq. symmetry. apply metadata_cache_segment_inj; [done..|].
  eapply separator_prefix_inj; [..|exact Heq];
    (eapply Forall_impl; [by apply segment_plain|]; intros x []; done).
Qed.

Lemma other_namespace c c' rest :
  starts_with (connection_prefix OBJECT_METADATA_CACHE_PREFIX c) (connection_prefix OBJECT_DDL_CACHE_PREFIX c' ++ rest) = false
  /\ starts_with (connection_prefix OBJECT_DDL_CACHE_PREFIX c) (connection_prefix OBJECT_METADATA_CACHE_PREFIX c' ++ rest) = false.
Proof. done. Qed.

Lemma invalidate_lookup c s key row :
  faults s = [] -> valid_text c ->
  rows (fst (invalidate_connection_object_cache c s)) !! key = Some row
  <-> rows s !! key = Some row
      /\ starts_with (connection_prefix OBJECT_METADATA_CACHE_PREFIX c) key = false
      /\ starts_with (connection_prefix OBJECT_DDL_CACHE_PREFIX c) key = false.
Proof.
  intros Hf Hc. unfold invalidate_connection_object_cache, ignore, delete_schema_cache_prefix, transaction, mbind, M_bind.
  rewrite Hf. cbn [fst rows faults tail]. rewrite !lookup_delete_where.
  rewrite !has_cache_prefix_ascii by (apply connection_prefix_ascii; [by repeat constructor|done]). tauto.
Qed.

(** invalidating a connection removes its object metadata and DDL, whatever
    the characters of its id, and nothing else: the rows of other connections,
    also of those whose id starts with this one, and all other rows stay. *)
Theorem invalidation_isolates_connections (s : db) (connection_id : text) (Hworks : faults s = []) (Hid : valid_text connection_id) :
  let t := rows (fst (invalidate_connection_object_cache connection_id s)) in
  (forall other rest, valid_text other ->
     let key := connection_prefix OBJECT_METADATA_CACHE_PREFIX other ++ rest in
     t !! key = if decide (other = connection_id) then None else rows s !! key)
  /\ (forall other rest, valid_text other ->
       let key := connection_prefix OBJECT_DDL_CACHE_PREFIX other ++ rest in
       t !! key = if decide (other = connection_id) then None else rows s !! key)
  /\ (forall key, starts_with OBJECT_METADATA_CACHE_PREFIX key = false -> starts_with OBJECT_DDL_CACHE_PREFIX key = false ->
       t !! key = rows s !! key).
Proof.
  assert (forall key (b : bool),
    starts_with (connection_prefix OBJECT_METADATA_CACHE_PREFIX connection_id) key
      || starts_with (connection_prefix OBJECT_DDL_CACHE_PREFIX connection_id) key = b ->
    rows (fst (invalidate_connection_object_cache connection_id s)) !! key = if b then None else rows s !! key) as Hkey.
  { intros key b Hb. apply option_eq. intros row. rewrite invalidate_lookup by done.
    destruct (starts_with _ key), (starts_with _ key); cbn in Hb; subst b; naive_solver. }
  assert (forall ns other rest, valid_text other ->
    starts_with (connection_prefix ns connection_id) (connection_prefix ns other ++ rest) = bool_decide (other = connection_id)) as Hsame.
  { intros ns other rest Ho. apply eq_true_iff_eq. rewrite same_namespace, bool_decide_eq_true by done. naive_solver. }
  split_and!; cbn zeta.
  - intros other rest Ho. rewrite (Hkey _ (bool_decide (other = connection_id))).
    + by destruct (decide (other = connection_id)); [rewrite bool_decide_true|rewrite bool_decide_false].
    + rewrite (proj2 (other_namespace connection_id other rest)), orb_false_r. by apply Hsame.
  - intros other rest Ho. rewrite (Hkey _ (bool_decide (other = connection_id))).
    + by destruct (decide (other = connection_id)); [rewrite bool_decide_true|rewrite bool_decide_false].
    + rewrite (proj1 (other_namespace connection_id other rest)), orb_false_l. by apply Hsame.
  - intros key H1 H2. apply (Hkey key false). unfold connection_prefix.
    assert (forall ns p, starts_with ns key = false -> starts_with (ns ++ p) key = false) as Hns.
    { intros ns p Hn. apply not_true_iff_false. rewrite starts_with_app. intros [rest ->].
      rewrite <- app_assoc in Hn. apply not_true_iff_false in Hn. apply Hn, starts_with_app. by eexists. }
    by rewrite !Hns.
Qed.

(** ** Runs *)

(** Payloads that are their own serialisation. *)
#[export] Instance text_json : JsonText text := {| to_string := Ok; from_str := Ok |}.

#[export] Instance text_json_round_trip : JsonTextRoundTrip text.
Proof. by intros v s [= ->]. Qed.

(** Room for two rows. *)
Definition small_policy : SchemaCachePolicy := mk_policy 100 60 2 1000.

Definition users_key : text := connection_prefix OBJECT_METADATA_CACHE_PREFIX %"prod" ++ %"db:users".
Definition orders_key : text := connection_prefix OBJECT_METADATA_CACHE_PREFIX %"prod" ++ %"db:orders".
Definition audit_key : text := connection_prefix OBJECT_DDL_CACHE_PREFIX %"prod2" ++ %"db:audit".

(** Two rows of one connection, saved one after the other. *)
Definition two_rows : db :=
  fst (save_schema_cache_with_policy orders_key %"[1,2]" small_policy 20 []
    (fst (save_schema_cache_with_policy users_key %"[1]" small_policy 10 [] (mk_db ∅ [])))).

Lemma two_rows_sized : sized (rows two_rows).
Proof. apply map_Forall_to_list. vm_compute. by repeat constructor. Qed.

Lemma save_keeps_budget_witness :
  rows two_rows !! users_key <> None
  /\ exists s', save_schema_cache_with_policy audit_key (%"[3]" : text) small_policy 30 [] two_rows = (s', Ok tt)
    /\ Z.of_nat (size (rows s')) <= max_entries small_policy
    /\ total_bytes (rows s') <= Z.max (max_total_bytes small_policy) 0
    /\ (forall owner, owner_bytes owner (rows s') <= Z.max (max_connection_bytes small_policy) 0)
    /\ (forall key row, rows s' !! key = Some row ->
          expired small_policy 30 row = false /\ 0 <= byte_size row
          /\ (if decide (key = audit_key) then row = new_row audit_key %"[3]" 30 [] else rows two_rows !! key = Some row)).
Proof.
  split; [by vm_compute|].
  apply (save_keeps_budget audit_key (%"[3]" : text) %"[3]" small_policy 30 [] two_rows).
  - reflexivity.
  - by vm_compute.
  - by vm_compute.
  - apply two_rows_sized.
  - by vm_compute.
Defined.

Definition third_save : db * result unit :=
  save_schema_cache_with_policy audit_key (%"[3]" : text) small_policy 30 [] two_rows.

Lemma third_save_ok : third_save = (fst third_save, Ok tt).
Proof. vm_compute. reflexivity. Qed.

(** The third row pushes out the one that was not accessed for the longest time. *)
Lemma eviction_is_lru_witness :
  rows (fst third_save) !! users_key = None
  /\ last_accessed_at_ms (new_row users_key %"[1]" 10 []) <= last_accessed_at_ms (new_row orders_key %"[1,2]" 20 [])
  /\ row_leb (users_key, new_row users_key %"[1]" 10 []) (orders_key, new_row orders_key %"[1,2]" 20 []) = true.
Proof.
  split; [by vm_compute|].
  apply (eviction_is_lru audit_key (%"[3]" : text) %"[3]" small_policy 30 [] two_rows) with (s' := fst third_save).
  - reflexivity.
  - by vm_compute.
  - by vm_compute.
  - apply two_rows_sized.
  - by vm_compute.
  - exact third_save_ok.
  - by vm_compute.
  - by vm_compute.
  - by vm_compute.
  - by vm_compute.
  - by vm_compute.
Defined.

Lemma two_rows_before : map_Forall (fun _ row => last_accessed_at_ms row < 30) (rows two_rows).
Proof. apply map_Forall_to_list. vm_compute. by repeat constructor. Qed.

Lemma save_load_round_trip_witness : snd (load_schema_cache (V := text) audit_key 40 (fst third_save)) = Ok (Some %"[3]").
Proof.
  apply (save_load_round_trip audit_key (%"[3]" : text) %"[3]" small_policy 30 [] two_rows).
  - reflexivity.
  - by vm_compute.
  - by vm_compute.
  - apply two_rows_sized.
  - by vm_compute.
  - exact third_save_ok.
  - intros key row _ Hrow. exact (two_rows_before key row Hrow).
  - by vm_compute.
  - by vm_compute.
  - by vm_compute.
  - by vm_compute.
  - by vm_compute.
Defined.

Definition three_rows : db := fst (save_schema_cache audit_key (%"[3]" : text) 30 [] two_rows).

Lemma three_rows_works : faults three_rows = [] /\ rows three_rows !! users_key <> None.
Proof. by vm_compute. Qed.

Lemma prod_valid : valid_text %"prod" /\ valid_text %"prod2" /\ %"prod2" <> %"prod".
Proof. split_and!; [unfold valid_text; cbn [lit]; repeat (constructor; [reflexivity|]); constructor..|done]. Qed.

(** Invalidating [prod] keeps [prod2]. *)
Lemma invalidation_isolates_connections_witness :
  rows three_rows !! users_key <> None
  /\ rows (fst (invalidate_connection_object_cache %"prod" three_rows)) !! users_key = None
  /\ rows (fst (invalidate_connection_object_cache %"prod" three_rows)) !! audit_key = rows three_rows !! audit_key.
Proof.
  destruct three_rows_works as [Hworks Hrow], prod_valid as (Hprod & Hprod2 & Hne). split; [exact Hrow|].
  destruct (invalidation_isolates_connections three_rows %"prod" Hworks Hprod) as (Hmeta & Hddl & _). split.
  - unfold users_key. rewrite (Hmeta %"prod" %"db:users" Hprod). by rewrite decide_True.
  - unfold audit_key. rewrite (Hddl %"prod2" %"db:audit" Hprod2). by rewrite decide_False.
Defined.

(** A prefix with a character outside ASCII is longer in bytes than in characters,
    so [substr] takes too much of the key and the row is not deleted. *)
Lemma raw_prefix_survives :
  let key := [233%N] ++ %":public" in
  let s := fst (save_schema_cache key (%"[1]" : text) 10 [] (mk_db ∅ [])) in
  starts_with ([233%N] ++ %":") key = true
  /\ rows (fst (delete_schema_cache_prefix ([233%N] ++ %":") s)) = rows s /\ rows s !! key <> None.
Proof. vm_compute. split_and!; [reflexivity|reflexivity|discriminate]. Qed.
