(* ===== verification/SqlStrip.v ===== *)
(** * SqlStrip: hiding comments and literals ([query_execution_sql.rs]).

    The read-only protection looks for write verbs in the code of a statement:
    [strip_sql_comments_and_literals_with_metadata] blanks its comments and
    literals first, [strip_sql_comments] removes only the comments (and unfolds
    MySQL executable comments).  The sources keep one boolean per construct, of
    which at most one is set: a construct is entered only when all are clear.  The
    model has one [Mode] instead.  [chars.peek()] and [chars.clone()] look at the
    text after the current character. *)

From S2P Require Import Prelude.

Inductive Mode : Set :=
| Code
| InLineComment
| InBlockComment
| InSingleQuote
| InDoubleQuote
| InBacktickQuote
| InDollarQuote (delimiter : text).

(** ** Comments only *)

(** The loop of [read_mysql_executable_comment_body]: the body and the number of
    characters read. *)
Fixpoint executable_comment_body (skipping_version : bool) (chars : text) : text * nat :=
  match chars with
  | [] => ([], 0)
  | ch :: chars' =>
      if (ch =? star)%N && head_is slash chars' then ([], 2)
      else if skipping_version && (is_ascii_digit ch || is_whitespace ch) then
        let '(body, n) := executable_comment_body true chars' in (body, S n)
      else
        let '(body, n) := executable_comment_body false chars' in (ch :: body, S n)
  end.

Definition upper_m : char := 77%N.

(** The body, if the comment is executable, and the number of characters read. *)
Definition read_mysql_executable_comment_body (chars : text) : option text * nat :=
  match chars with
  | ch :: chars' =>
      if (ch =? bang)%N then let '(body, n) := executable_comment_body true chars' in (Some body, S n)
      else if (ch =? upper_m)%N then
        match chars' with
        | c :: chars'' =>
            if (c =? bang)%N then let '(body, n) := executable_comment_body true chars'' in (Some body, S (S n))
            else (None, 1)
        | [] => (None, 1)
        end
      else (None, 0)
  | [] => (None, 0)
  end.

(** One character of [strip_sql_comments]; [inner] is the recursive call. *)
Definition strip_comments_step (inner : text -> text) (mode : Mode) (ch : char) (chars : text) : Mode * text * nat :=
  match mode with
  | InLineComment => if (ch =? nl)%N then (Code, [space], 0) else (InLineComment, [], 0)
  | InBlockComment =>
      if (ch =? star)%N && head_is slash chars then (Code, [space], 1) else (InBlockComment, [], 0)
  | _ =>
      if (ch =? dash)%N && head_is dash chars then (InLineComment, [], 1)
      else if (ch =? hash)%N then (InLineComment, [], 0)
      else if (ch =? slash)%N && head_is star chars then
        match read_mysql_executable_comment_body (tail chars) with
        | (Some body, n) => (Code, [space] ++ inner body ++ [space], S n)
        | (None, n) => (InBlockComment, [], S n)
        end
      else (Code, [ch], 0)
  end.

(** [depth] bounds the recursion: a body is shorter than the text it is in. *)
Fixpoint strip_sql_comments_nested (depth : nat) (sql : text) : text :=
  snd (scan_loop
         (strip_comments_step (match depth with O => fun _ => [] | S depth' => strip_sql_comments_nested depth' end))
         Code 0 sql).

Definition strip_sql_comments (sql : text) : text := strip_sql_comments_nested (length sql) sql.

(** ** Comments and literals *)

Section Strip.

Context `{CharTable}.

Definition is_mysql_executable_comment_start (chars : text) : bool :=
  match chars with
  | c :: chars' => (c =? bang)%N || ((c =? upper_m)%N && head_is bang chars')
  | [] => false
  end.

Definition is_identifier_char (c : char) : bool := is_ascii_alphanumeric c || (c =? under)%N || (c =? dollar)%N.

Definition is_oracle_identifier_char (c : char) : bool :=
  is_alphanumeric c || (c =? under)%N || (c =? dollar)%N || (c =? hash)%N.

Definition is_q (c : char) : bool := (c =? 113)%N || (c =? 81)%N.
Definition is_n (c : char) : bool := (c =? 110)%N || (c =? 78)%N.

Definition closer_of (opener : char) : char :=
  if (opener =? lbracket)%N then rbracket
  else if (opener =? 123)%N then 125%N
  else if (opener =? lparen)%N then rparen
  else if (opener =? 60)%N then 62%N
  else opener.

(** The loop of [oracle_alternative_quote_len]. *)
Fixpoint alternative_quote_end (closer : char) (length : nat) (probe : text) : option nat :=
  match probe with
  | [] => None
  | scan :: probe' =>
      if (scan =? closer)%N && head_is squote probe' then Some (S (S length))
      else alternative_quote_end closer (S length) probe'
  end.

Definition oracle_alternative_quote_len (ch : char) (chars : text) : option nat :=
  let after_q :=
    if is_n ch then match chars with c :: chars' => if is_q c then Some (2, chars') else None | [] => None end
    else Some (1, chars) in
  match after_q with
  | Some (length, c :: opener :: probe) =>
      if negb (c =? squote)%N then None
      else if is_whitespace opener then None
      else alternative_quote_end (closer_of opener) (S (S length)) probe
  | _ => None
  end.

(** [dollar_quote_is_closed]: the window slides over the characters. *)
Definition dollar_quote_is_closed (chars delimiter : text) : bool := contains delimiter chars.

Definition is_tag_char (c : char) : bool := is_ascii_alphanumeric c || (c =? under)%N.

Definition dollar_quote_delimiter (chars : text) : option text :=
  let delimiter :=
    if head_is dollar chars then Some %"$$"
    else
      let tag := take_while is_tag_char chars in
      match tag with
      | [] => None
      | first :: _ =>
          if is_ascii_digit first || negb (head_is dollar (drop (length tag) chars)) then None
          else Some ([dollar] ++ tag ++ [dollar])
      end in
  match delimiter with
  | Some delimiter =>
      let opened :=
        (* the probe has already read the tag when it is not empty *)
        drop (length delimiter - 1) (if head_is dollar chars then chars else drop (length delimiter - 2) chars) in
      if dollar_quote_is_closed opened delimiter then Some delimiter else None
  | None => None
  end.

Record strip_state : Set := mk_strip {
  mode : Mode;
  has_mysql_executable_comment : bool;
  previous_code_char : option char
}.

Definition enter (m : Mode) (s : strip_state) : strip_state := mk_strip m (has_mysql_executable_comment s) (previous_code_char s).

(** Inside a quoted literal: a doubled quote stays inside. *)
Definition quoted_step (quote : char) (s : strip_state) (ch : char) (chars : text) : strip_state * text * nat :=
  if (ch =? quote)%N
  then (if head_is quote chars then (s, [space], 1) else (enter Code s, [space], 0))
  else (s, [space], 0).

Definition previous_is (p : char -> bool) (s : strip_state) : bool := match previous_code_char s with Some c => p c | None => false end.

(** The code position: the tests after those for the constructs. *)
Definition code_step (detect_mysql_executable_comments hash_line_comments : bool) (s : strip_state) (ch : char) (chars : text)
    : strip_state * text * nat :=
  let blank m := mk_strip m (has_mysql_executable_comment s) (Some space) in
  let plain := (mk_strip Code (has_mysql_executable_comment s) (Some ch), [ch], 0) in
  if (ch =? dash)%N && head_is dash chars then (enter InLineComment s, [], 1)
  else if hash_line_comments && (ch =? hash)%N then (enter InLineComment s, [], 0)
  else if (ch =? slash)%N && head_is star chars then
    (mk_strip InBlockComment
       (has_mysql_executable_comment s
        || (detect_mysql_executable_comments && is_mysql_executable_comment_start (tail chars)))
       (previous_code_char s), [], 1)
  else
    match (if (is_q ch || is_n ch) && negb (previous_is is_oracle_identifier_char s)
           then oracle_alternative_quote_len ch chars else None) with
    | Some n => (blank Code, repeat space n, n)
    | None =>
        if (ch =? squote)%N then (blank InSingleQuote, [space], 0)
        else if (ch =? dquote)%N then (blank InDoubleQuote, [space], 0)
        else if (ch =? backtick)%N then (blank InBacktickQuote, [space], 0)
        else
          match (if (ch =? dollar)%N && negb (previous_is is_identifier_char s)
                 then dollar_quote_delimiter chars else None) with
          | Some delimiter => (blank (InDollarQuote delimiter), [space], length delimiter - 1)
          | None => plain
          end
    end.

Definition strip_step (detect_mysql_executable_comments hash_line_comments : bool) (s : strip_state) (ch : char) (chars : text)
    : strip_state * text * nat :=
  match mode s with
  | InLineComment => if (ch =? nl)%N then (enter Code s, [space], 0) else (s, [], 0)
  | InBlockComment => if (ch =? star)%N && head_is slash chars then (enter Code s, [space], 1) else (s, [], 0)
  | InSingleQuote => quoted_step squote s ch chars
  | InDoubleQuote => quoted_step dquote s ch chars
  | InBacktickQuote => quoted_step backtick s ch chars
  | InDollarQuote delimiter =>
      if (ch =? dollar)%N && starts_with (tail delimiter) chars
      then (enter Code s, [space], length (tail delimiter))
      else (s, [space], 0)
  | Code => code_step detect_mysql_executable_comments hash_line_comments s ch chars
  end.

Definition strip_sql_comments_and_literals_with_metadata (sql : text) (detect_mysql_executable_comments hash_line_comments : bool)
    : text * bool :=
  let '(s, output) :=
    scan_loop (strip_step detect_mysql_executable_comments hash_line_comments) (mk_strip Code false None) 0 sql in
  (output, has_mysql_executable_comment s).

Definition strip_sql_comments_and_literals (sql : text) : text :=
  fst (strip_sql_comments_and_literals_with_metadata sql false true).

Definition strip_sql_comments_and_literals_keeping_hash (sql : text) : text :=
  fst (strip_sql_comments_and_literals_with_metadata sql false false).

End Strip.

(** * the safety scanner sees the code of a statement and only that.

    A statement is written from [piece]s: code, quoted literals and names, comments
    ([render]).  The theorem says what the scanner makes of it: the code character
    by character, blanks for everything else ([visible]).  [code_text] leaves out
    the characters with a meaning of their own (quotes, [#], [$], the comment
    openers); backslash escapes and alternative quotes are not pieces, see the
    findings at the end of [WriteClassFacts]. *)

Inductive piece : Set :=
| PCode (code : text)
| PSingle (value : text)
| PDouble (name : text)
| PBacktick (name : text)
| PLine (body : text)
| PBlock (body : text).

(** A literal, with its quotes doubled. *)
Definition double_quotes (quote : char) (value : text) : text :=
  value ≫= fun c => if (c =? quote)%N then [quote; quote] else [c].

Definition quoted (quote : char) (value : text) : text := quote :: double_quotes quote value ++ [quote].

Definition render_piece (p : piece) : text :=
  match p with
  | PCode code => code
  | PSingle value => quoted squote value
  | PDouble name => quoted dquote name
  | PBacktick name => quoted backtick name
  | PLine body => [dash; dash] ++ body ++ [nl]
  | PBlock body => [slash; star] ++ body ++ [star; slash]
  end.

Definition render (ps : list piece) : text := ps ≫= render_piece.

Definition blanks (n : nat) : text := repeat space n.

(** What the scanner leaves of a piece. *)
Definition visible_piece (p : piece) : text :=
  match p with
  | PCode code => code
  | PSingle value | PDouble value | PBacktick value => blanks (S (S (length value)))
  | PLine _ | PBlock _ => [space]
  end.

Definition visible (ps : list piece) : text := ps ≫= visible_piece.

(** ** Well-formed pieces *)

Definition plain_char (c : char) : bool :=
  negb (existsb (N.eqb c) [squote; dquote; backtick; hash; dollar]).

(** Code: no quote, [#] or [$]; a dash or a slash does not open a comment; and the
    last character opens nothing together with what follows. *)
Fixpoint code_text (code : text) : bool :=
  match code with
  | [] => true
  | c :: code' =>
      plain_char c && code_text code'
      && match code' with
         | [] => negb (existsb (N.eqb c) [dash; slash]) && negb (is_q c || is_n c)
         | d :: _ => negb ((c =? dash)%N && (d =? dash)%N) && negb ((c =? slash)%N && (d =? star)%N)
         end
  end.

Definition piece_ok (p : piece) : bool :=
  match p with
  | PCode code => code_text code
  | PSingle _ | PDouble _ | PBacktick _ => true
  | PLine body => forallb (fun c => negb (c =? nl)%N) body
  | PBlock body => negb (contains %"*/" body)
  end.

(** A closing quote is not followed by the same quote. *)
Definition separated (p : piece) (rest : text) : bool :=
  match p with
  | PSingle _ => negb (head_is squote rest)
  | PDouble _ => negb (head_is dquote rest)
  | PBacktick _ => negb (head_is backtick rest)
  | _ => true
  end.

Fixpoint well_formed (ps : list piece) : bool :=
  match ps with
  | [] => true
  | p :: ps' => piece_ok p && separated p (render ps') && well_formed ps'
  end.

(** An executable comment, which [detect] reports. *)
Definition is_executable (p : piece) : bool :=
  match p with PBlock body => is_mysql_executable_comment_start body | _ => false end.

Section Strip.

Context `{CharTable} (detect : bool).

Abbreviation run := (scan_loop (strip_step detect true)).

(** [run] in a code position, whatever was last read. *)
Definition at_code (s : strip_state) (executable : bool) : Prop := mode s = Code /\ has_mysql_executable_comment s = executable.

Lemma at_code_intro e c : at_code (mk_strip Code e c) e.
Proof. done. Qed.

Lemma strip_cons s c rest s' out n :
  strip_step detect true s c rest = (s', out, n) ->
  run s 0 (c :: rest) = (let '(s2, out2) := run s' 0 (drop n rest) in (s2, out ++ out2)).
Proof. intros Hs. rewrite scan_loop_cons, Hs. by destruct (run s' 0 (drop n rest)). Qed.

(** ** Quoted pieces *)

Lemma quoted_body quote value : forall s rest,
  strip_step detect true s = quoted_step quote s -> head_is quote rest = false ->
  run s 0 (double_quotes quote value ++ quote :: rest)
  = (let '(s', out) := run (enter Code s) 0 rest in (s', blanks (S (length value)) ++ out)).
Proof.
  induction value as [|c value IH]; intros s rest Hstep Hrest; cbn [double_quotes mbind list_bind app].
  - rewrite (strip_cons _ _ _ (enter Code s) [space] 0); [by rewrite drop_0|]. rewrite Hstep. unfold quoted_step.
    by rewrite N.eqb_refl, Hrest.
  - fold (double_quotes quote value). destruct (N.eqb_spec c quote) as [->|Hc]; cbn [app].
    + rewrite (strip_cons _ _ _ s [space] 1); [|rewrite Hstep; unfold quoted_step; cbn; by rewrite !N.eqb_refl].
      cbn [skipn]. rewrite drop_0, IH by done. by destruct (run (enter Code s) 0 rest).
    + rewrite (strip_cons _ _ _ s [space] 0); [|rewrite Hstep; unfold quoted_step; by apply N.eqb_neq in Hc as ->].
      rewrite drop_0, IH by done. by destruct (run (enter Code s) 0 rest).
Qed.

Lemma quoted_piece quote value (open : Mode) s e rest :
  at_code s e -> head_is quote rest = false ->
  strip_step detect true s quote (double_quotes quote value ++ quote :: rest) = (mk_strip open e (Some space), [space], 0) ->
  (forall s, mode s = open -> strip_step detect true s = quoted_step quote s) ->
  run s 0 (quoted quote value ++ rest)
  = (let '(s', out) := run (mk_strip Code e (Some space)) 0 rest in (s', blanks (S (S (length value))) ++ out)).
Proof.
  intros [_ He] Hrest Hopen Hstep. unfold quoted. cbn [app]. rewrite <- app_assoc. cbn [app].
  rewrite (strip_cons _ _ _ _ _ _ Hopen), drop_0, quoted_body by auto. unfold enter. cbn.
  by destruct (run (mk_strip Code e (Some space)) 0 rest).
Qed.

(** ** Comments *)

Lemma line_body body : forall s rest,
  mode s = InLineComment -> forallb (fun c => negb (c =? nl)%N) body = true ->
  run s 0 (body ++ nl :: rest) = (let '(s', out) := run (enter Code s) 0 rest in (s', space :: out)).
Proof.
  induction body as [|c body IH]; intros s rest Hm Hb; cbn [app].
  - rewrite (strip_cons _ _ _ (enter Code s) [space] 0); [by rewrite drop_0|]. unfold strip_step. by rewrite Hm.
  - cbn in Hb. apply andb_true_iff in Hb as [Hc%negb_true_iff Hb].
    rewrite (strip_cons _ _ _ s [] 0); [|unfold strip_step; by rewrite Hm, Hc].
    rewrite drop_0, IH by done. by destruct (run (enter Code s) 0 rest).
Qed.

Lemma block_body body : forall s rest,
  mode s = InBlockComment -> contains %"*/" body = false ->
  run s 0 (body ++ star :: slash :: rest) = (let '(s', out) := run (enter Code s) 0 rest in (s', space :: out)).
Proof.
  induction body as [|c body IH]; intros s rest Hm Hb; cbn [app].
  - rewrite (strip_cons _ _ _ (enter Code s) [space] 1); [done|]. unfold strip_step. by rewrite Hm.
  - cbn [contains] in Hb. apply orb_false_iff in Hb as [Hc Hb].
    rewrite (strip_cons _ _ _ s [] 0).
    + rewrite drop_0, IH by done. by destruct (run (enter Code s) 0 rest).
    + unfold strip_step. rewrite Hm.
      assert ((c =? star)%N && head_is slash (body ++ star :: slash :: rest) = false) as ->; [|done].
      destruct body as [|d body]; [cbn; by rewrite andb_false_r|].
      cbn in Hc |- *. rewrite andb_true_r in Hc. rewrite (N.eqb_sym c), (N.eqb_sym d). exact Hc.
Qed.

(** ** Code *)

Lemma plain_char_spec c :
  plain_char c = true ->
  (c =? squote)%N = false /\ (c =? dquote)%N = false /\ (c =? backtick)%N = false /\ (c =? hash)%N = false
  /\ (c =? dollar)%N = false.
Proof.
  unfold plain_char. cbn. rewrite negb_true_iff, !orb_false_iff. tauto.
Qed.

Lemma no_alternative_quote ch rest :
  (forall c rest', rest = c :: rest' -> (c =? squote)%N = false \/ is_q ch = false) ->
  (forall c d rest', rest = c :: d :: rest' -> is_q c = false \/ (d =? squote)%N = false) ->
  is_q ch || is_n ch = true -> oracle_alternative_quote_len ch rest = None.
Proof.
  intros H1 H2 Hqn. unfold oracle_alternative_quote_len. destruct (is_n ch) eqn:Hn.
  - destruct rest as [|c [|d rest]]; [done|by destruct (is_q c)|]. destruct (is_q c) eqn:Hq; [|done].
    destruct rest as [|opener rest]; [done|].
    destruct (H2 c d (opener :: rest) eq_refl) as [Hf|Hd]; [congruence|]. by rewrite Hd.
  - rewrite orb_false_r in Hqn. destruct rest as [|c [|opener rest]]; [done..|].
    destruct (H1 c (opener :: rest) eq_refl) as [Hc|Hf]; [by rewrite Hc|congruence].
Qed.

Lemma code_char s e c code rest :
  at_code s e -> code_text (c :: code) = true ->
  strip_step detect true s c (code ++ rest) = (mk_strip Code e (Some c), [c], 0).
Proof.
  intros [Hm <-] Hc. cbn [code_text] in Hc. rewrite !andb_true_iff in Hc. destruct Hc as [[Hplain Hcode] Hnext].
  destruct (plain_char_spec c Hplain) as (H1 & H2 & H3 & H4 & H5).
  assert ((c =? dash)%N && head_is dash (code ++ rest) = false) as Hdash.
  { destruct code as [|d code]; cbn in Hnext |- *; rewrite ?orb_false_r, ?negb_true_iff, ?andb_true_iff in Hnext.
    - destruct Hnext as [Hnext _]. rewrite negb_true_iff, orb_false_iff in Hnext. by destruct Hnext as [-> _].
    - by destruct Hnext as [->%negb_true_iff _]. }
  assert ((c =? slash)%N && head_is star (code ++ rest) = false) as Hslash.
  { destruct code as [|d code]; cbn in Hnext |- *; rewrite ?orb_false_r, ?negb_true_iff, ?andb_true_iff in Hnext.
    - destruct Hnext as [Hnext _]. rewrite negb_true_iff, orb_false_iff in Hnext. by destruct Hnext as [_ ->].
    - by destruct Hnext as [_ ->%negb_true_iff]. }
  assert (is_q c || is_n c = true -> oracle_alternative_quote_len c (code ++ rest) = None) as Hquote.
  { intros Hqn. destruct code as [|d code]; cbn in Hnext; [rewrite Hqn, andb_false_r in Hnext; done|].
    cbn in Hcode. rewrite !andb_true_iff in Hcode. destruct Hcode as [[Hd Hcode] Hdnext].
    destruct (plain_char_spec d Hd) as (Hd1 & _). apply no_alternative_quote; [| |done].
    - intros x rest' [= <- _]. by left.
    - intros x y rest' [= <- Heq]. destruct code as [|d' code]; cbn in Heq.
      + left. cbn in Hdnext. rewrite andb_true_iff, !negb_true_iff, (orb_false_iff (is_q d)) in Hdnext. by destruct Hdnext as (_ & ? & _).
      + right. injection Heq as <- _. cbn in Hcode. rewrite !andb_true_iff in Hcode. destruct Hcode as [[Hd' _] _].
        apply (plain_char_spec d' Hd'). }
  unfold strip_step. rewrite Hm. unfold code_step. rewrite Hdash, H4, Hslash. cbn [andb].
  destruct (is_q c || is_n c) eqn:Hqn; cbn [andb]; [rewrite Hquote by done|]; rewrite H1, H2, H3, H5; cbn [andb];
    [by destruct (negb (previous_is is_oracle_identifier_char s))|done].
Qed.

Lemma code_piece code : forall s e rest,
  at_code s e -> code_text code = true ->
  exists s1, at_code s1 e
    /\ run s 0 (code ++ rest) = (let '(s', out) := run s1 0 rest in (s', code ++ out)).
Proof.
  induction code as [|c code IH]; intros s e rest Hs Hc; cbn [app].
  - exists s. split; [done|]. by destruct (run s 0 rest).
  - assert (code_text code = true) as Hcode by (cbn in Hc; rewrite !andb_true_iff in Hc; tauto).
    destruct (IH (mk_strip Code e (Some c)) e rest (at_code_intro _ _) Hcode) as (s1 & Hs1 & Heq).
    exists s1. split; [done|]. rewrite (strip_cons _ _ _ _ _ _ (code_char s e c code rest Hs Hc)), drop_0, Heq.
    by destruct (run s1 0 rest).
Qed.

(** One piece. *)
Lemma piece_spec p s e rest :
  at_code s e -> piece_ok p = true -> separated p rest = true ->
  exists s1, at_code s1 (e || (detect && is_executable p))
    /\ run s 0 (render_piece p ++ rest) = (let '(s', out) := run s1 0 rest in (s', visible_piece p ++ out)).
Proof.
  intros Hs Hp Hsep. pose proof Hs as [Hm He].
  destruct p as [code|value|name|name|body|body]; cbn [render_piece visible_piece is_executable];
    rewrite ?andb_false_r, ?orb_false_r; cbn in Hp, Hsep; rewrite ?negb_true_iff in *.
  - by apply code_piece.
  - eexists. split; [apply at_code_intro|]. eapply (quoted_piece squote value InSingleQuote); [done..| |].
    + unfold strip_step. rewrite Hm. unfold code_step. cbn. by rewrite He.
    + intros s' Hm'. unfold strip_step. by rewrite Hm'.
  - eexists. split; [apply at_code_intro|]. eapply (quoted_piece dquote name InDoubleQuote); [done..| |].
    + unfold strip_step. rewrite Hm. unfold code_step. cbn. by rewrite He.
    + intros s' Hm'. unfold strip_step. by rewrite Hm'.
  - eexists. split; [apply at_code_intro|]. eapply (quoted_piece backtick name InBacktickQuote); [done..| |].
    + unfold strip_step. rewrite Hm. unfold code_step. cbn. by rewrite He.
    + intros s' Hm'. unfold strip_step. by rewrite Hm'.
  - exists (enter Code s). split; [by rewrite <- He|]. rewrite <- !app_assoc. cbn [app].
    rewrite (strip_cons _ _ _ (enter InLineComment s) [] 1); [|unfold strip_step; by rewrite Hm].
    cbn [skipn]. rewrite drop_0, line_body by done.
    change (enter Code (enter InLineComment s)) with (enter Code s). by destruct (run (enter Code s) 0 rest).
  - set (s1 := mk_strip InBlockComment (e || (detect && is_mysql_executable_comment_start body)) (previous_code_char s)).
    exists (enter Code s1). split; [done|]. rewrite <- !app_assoc. cbn [app].
    rewrite (strip_cons _ _ _ s1 [] 1).
    + cbn [skipn]. rewrite drop_0. rewrite block_body by done.
      by destruct (run (enter Code s1) 0 rest).
    + unfold strip_step. rewrite Hm. unfold code_step. cbn [tail]. unfold s1.
      replace (is_mysql_executable_comment_start (body ++ star :: slash :: rest))
        with (is_mysql_executable_comment_start body); [cbn; by rewrite He|].
      destruct body as [|c [|d body]]; [done| |done]. cbn. by rewrite andb_false_r.
Qed.

Lemma strip_render_from ps : forall s e,
  at_code s e -> well_formed ps = true ->
  exists s', run s 0 (render ps) = (s', visible ps) /\ at_code s' (e || (detect && existsb is_executable ps)).
Proof.
  induction ps as [|p ps IH]; intros s e Hs Hwf.
  - exists s. split; [done|]. cbn. by rewrite andb_false_r, orb_false_r.
  - cbn [well_formed] in Hwf. rewrite !andb_true_iff in Hwf. destruct Hwf as [[Hp Hsep] Hwf].
    destruct (piece_spec p s e (render ps) Hs Hp Hsep) as (s1 & Hs1 & Heq).
    destruct (IH s1 _ Hs1 Hwf) as (s' & Hrun & Hs'). exists s'.
    change (render (p :: ps)) with (render_piece p ++ render ps). rewrite Heq, Hrun. split; [done|].
    cbn [existsb]. by rewrite andb_orb_distrib_r, orb_assoc.
Qed.

Lemma strip_render (ps : list piece) :
  well_formed ps = true ->
  strip_sql_comments_and_literals_with_metadata (render ps) detect true = (visible ps, detect && existsb is_executable ps).
Proof.
  intros Hwf. unfold strip_sql_comments_and_literals_with_metadata.
  destruct (strip_render_from ps (mk_strip Code false None) false (at_code_intro _ _) Hwf) as (s' & -> & _ & ->). done.
Qed.

(** C15: the scanner sees exactly the code of a statement written from well-formed pieces: code without quotes, [#] and
    [$] and with nothing that opens a comment or an alternative quote; single-quoted literals and double- or back-quoted
    names with any characters in them, their own quote doubled, and not followed by the same quote; [--] comments ended
    by a line break; closed block comments.  With [#] comments recognised, as in the write classification, the scanner then returns
    the code unchanged and blanks for the rest, and reports an executable comment exactly when there is one and it was
    asked to.  Outside these pieces the claim fails: behind a backslash escape, an alternative quote [q'..'], a tagged
    dollar quote or a [#] of another meaning the scanner loses or hides code ([backslash_hides_delete],
    [alternative_quote_hides_delete], [hash_hides_delete] of WriteClassFacts). *)
Theorem strip_sees_the_code (ps : list piece) (Hwf : well_formed ps = true) :
  strip_sql_comments_and_literals_with_metadata (render ps) detect true
  = (visible ps, detect && existsb is_executable ps).
Proof. by apply strip_render. Qed.

End Strip.

(** ** A concrete statement *)

Definition delete_with_literal : list piece :=
  [PCode %"WITH c AS (SELECT "; PSingle %"it's; drop"; PCode %" FROM "; PDouble %"a--b"; PCode %") ";
   PBlock %" update "; PLine %" it's over"; PCode %"DELETE FROM t"].

Lemma strip_sees_the_code_witness :
  let _ := latin1_table in
  well_formed delete_with_literal = true
  /\ strip_sql_comments_and_literals_with_metadata (render delete_with_literal) true true
     = (visible delete_with_literal, true && existsb is_executable delete_with_literal).
Proof.
  cbv zeta. split; [vm_compute; reflexivity|].
  apply (@strip_sees_the_code latin1_table true delete_with_literal). vm_compute. reflexivity.
Defined.
