(* ===== verification/WriteClass.v ===== *)
(** * WriteClass: which statements write ([query_execution_sql.rs], [cypher_read_only.rs]).

    First the proof that a Cypher script only reads, then the write verbs of SQL and the
    pseudo-commands of the other engines.

    The Cypher scanner reduces a script to the words of each statement (quoted names and
    symbols are placeholders) and gives up, answering [false], on whatever it does
    not understand: Unicode escapes, nested or unterminated comments, unterminated
    quotes.  [chars] and [index] are the text that starts at [index]. *)

From S2P Require Import Prelude DbTypes Dialect Lexis PlSql Splitter Scanner SqlStrip.

Definition UNSAFE_WORDS : list text :=
  [%"CREATE"; %"INSERT"; %"MERGE"; %"SET"; %"REMOVE"; %"DELETE"; %"DETACH"; %"DROP"; %"ALTER"; %"RENAME"; %"GRANT";
   %"REVOKE"; %"DENY"; %"CALL"; %"FOREACH"; %"LOAD"; %"START"; %"STOP"; %"TERMINATE"].

Definition READ_CLAUSES : list text :=
  [%"MATCH"; %"OPTIONAL"; %"RETURN"; %"WITH"; %"UNWIND"; %"SHOW"; %"EXPLAIN"; %"PROFILE"].

(** The text after a line comment. *)
Definition after_line_comment (chars : text) : text := drop_while (fun c => negb ((c =? nl)%N || (c =? cr)%N)) chars.

(** The text after a block comment: [None] for a nested or an unterminated one. *)
Fixpoint after_block_comment (chars : text) : option text :=
  match chars with
  | [] => None
  | c :: chars' =>
      if (c =? slash)%N && head_is star chars' then None
      else if (c =? star)%N && head_is slash chars' then Some (tail chars')
      else after_block_comment chars'
  end.

(** The text after the closing quote: a backslash escapes a character, a doubled
    quote is one, [skip] is set on the second character of such a pair. *)
Fixpoint after_quoted (quote : char) (skip : bool) (chars : text) : option text :=
  match chars with
  | [] => None
  | c :: chars' =>
      if skip then after_quoted quote false chars'
      else if (c =? bslash)%N then after_quoted quote true chars'
      else if (c =? quote)%N then (if head_is quote chars' then after_quoted quote true chars' else Some chars')
      else after_quoted quote false chars'
  end.

Section Cypher.

Context `{CharTable}.

Definition is_word_char (c : char) : bool := is_alphanumeric c || (c =? under)%N.

(** One token at the head of the text. *)
Inductive lexeme : Set :=
| Skip (rest : text)
| Token (word : text) (rest : text)
| EndOfStatement (rest : text)
| GiveUp.

Definition is_quote (c : char) : bool := (c =? squote)%N || (c =? dquote)%N || (c =? backtick)%N.

Definition next_lexeme (ch : char) (chars : text) : lexeme :=
  if (ch =? slash)%N && head_is slash chars then Skip (after_line_comment (tail chars))
  else if (ch =? slash)%N && head_is star chars then
    match after_block_comment (tail chars) with Some rest => Skip rest | None => GiveUp end
  else if is_quote ch then
    match after_quoted ch false chars with Some rest => Token %"<quoted>" rest | None => GiveUp end
  else if (ch =? semi)%N then EndOfStatement chars
  else if is_ascii_alphabetic ch || (ch =? under)%N then
    Token (upper (ch :: take_while is_word_char chars)) (drop_while is_word_char chars)
  else if (ch =? 46)%N || (ch =? 58)%N || (ch =? dollar)%N then Token [ch] chars
  else if negb (is_whitespace ch) then Token %"<symbol>" chars
  else Skip chars.

(** The statements, each with its words; every iteration consumes a character. *)
Fixpoint cypher_statements (fuel : nat) (words : list text) (chars : text) : option (list (list text)) :=
  match chars, fuel with
  | [], _ => Some [words]
  | _ :: _, O => None
  | ch :: chars', S fuel' =>
      match next_lexeme ch chars' with
      | Skip rest => cypher_statements fuel' words rest
      | Token word rest => cypher_statements fuel' (words ++ [word]) rest
      | EndOfStatement rest =>
          match cypher_statements fuel' [] rest with Some later => Some (words :: later) | None => None end
      | GiveUp => None
      end
  end.

Definition is_read_clause (word : text) : bool := existsb (text_eqb word) READ_CLAUSES.

(** An unsafe word that is not a property, a label, a parameter or a map key. *)
Definition unsafe_at (words : list text) (index : nat) : bool :=
  match words !! index with
  | Some word =>
      existsb (text_eqb word) UNSAFE_WORDS
      && negb (match index with
               | S previous =>
                   match words !! previous with Some w => existsb (text_eqb w) [%"."; %":"; %"$"] | None => false end
               | O => false
               end)
      && negb (match words !! S index with Some w => text_eqb w %":" | None => false end)
  | None => false
  end.

Definition reads_only (words : list text) : bool :=
  match words with
  | first :: _ =>
      is_read_clause first && (text_eqb first %"SHOW" || existsb (text_eqb %"RETURN") words)
      && negb (existsb (unsafe_at words) (seq 0 (length words)))
  | [] => false
  end.

Definition is_proven_read_only_cypher (source : text) : bool :=
  if contains %"\u" source then false
  else
    match cypher_statements (length source) [] source with
    | Some statements =>
        let statements := List.filter (fun words => negb (is_empty words)) statements in
        negb (is_empty statements) && forallb reads_only statements
    | None => false
    end.

End Cypher.

(** * which statements write ([query_execution_sql.rs]).

    [is_write_sql_for_database] decides what a read-only connection may run:
    statement by statement for SQL (the first keyword, the write verbs in its
    code, the write forms of a dialect), by the request line for the REST
    databases, by the pseudo-commands for DynamoDB and Salesforce.

    Three things come from outside: the tokenizer of the [sqlparser] crate (class
    [WordTokenizer]), the JSON parser (class [JsonObject]) and the case mapping
    of non-ASCII characters (class [CaseMap]; the lower case of a sigma depends on
    its context).  Byte positions are compared at ASCII characters only, so they
    are character positions here. *)

Class CaseMap := {
  nonascii_upper : char -> text;
  nonascii_lower : text -> char -> text -> text
}.

(** [str::to_uppercase]. *)
Definition to_uppercase `{CaseMap} (s : text) : text :=
  s ≫= fun c => if (c <? 128)%N then [to_ascii_uppercase c] else nonascii_upper c.

Fixpoint lowercase_from `{CaseMap} (before s : text) : text :=
  match s with
  | [] => []
  | c :: s' =>
      (if (c <? 128)%N then [to_ascii_lowercase c] else nonascii_lower before c s') ++ lowercase_from (before ++ [c]) s'
  end.

(** [str::to_lowercase]. *)
Definition to_lowercase `{CaseMap} (s : text) : text := lowercase_from [] s.

(** The dialects handed to the tokenizer. *)
Inductive WordDialect : Set := PostgreSqlDialect | MsSqlDialect.

(** [Tokenizer::new(dialect, sql).tokenize()]: the words, each with whether it is quoted. *)
Class WordTokenizer := { tokenize_words : WordDialect -> text -> option (list (text * bool)) }.

(** [serde_json::from_str] and [body.get(field).and_then(as_str)]. *)
Class JsonObject := {
  JsonValue : Type;
  parse_json : text -> option JsonValue;
  get_str : text -> JsonValue -> option text
}.

(** ** Text *)

(** [str::split] at the characters that satisfy [p]. *)
Fixpoint split_at (p : char -> bool) (s : text) : list text :=
  match s with
  | [] => [[]]
  | c :: s' =>
      if p c then [] :: split_at p s'
      else match split_at p s' with
           | part :: parts => (c :: part) :: parts
           | [] => [[c]]
           end
  end.

Definition strip_suffix_cr (line : text) : text := if ends_with [cr] line then take (length line - 1) line else line.

(** [str::lines]: the lines ended by a newline, and the text after the last one unless it is empty. *)
Definition lines (s : text) : list text :=
  let parts := split_at (N.eqb nl) s in
  map strip_suffix_cr (removelast parts) ++ match last parts with Some (c :: rest) => [c :: rest] | _ => [] end.

Definition trim_end_matches (c : char) (s : text) : text := rev (drop_while (N.eqb c) (rev s)).

Definition non_empty (s : text) : bool := negb (is_empty s).

(** [segments.windows(n)]. *)
Fixpoint windows {A} (n : nat) (l : list A) : list (list A) :=
  match l with
  | [] => []
  | _ :: l' => if n <=? length l then take n l :: windows n l' else []
  end.

Definition position {A} (p : A -> bool) (l : list A) : option nat :=
  (fix go i l := match l with [] => None | x :: l' => if p x then Some i else go (S i) l' end) 0 l.

Definition text_in (s : text) (l : list text) : bool := existsb (text_eqb s) l.

(** ** Verbs *)

Definition DANGEROUS_SQL_KEYWORDS : list text :=
  [%"drop"; %"delete"; %"truncate"; %"alter"; %"update"; %"merge"; %"replace"; %"insert"; %"create"].

Definition WRITE_VERBS_WITH_SCALAR_FUNCTION_FORMS : list text := [%"replace"; %"insert"].

Definition READ_SQL_KEYWORDS : list text :=
  [%"SELECT"; %"WITH"; %"SHOW"; %"DESCRIBE"; %"DESC"; %"EXPLAIN"; %"FROM"].

Definition SAFE_READ_PRAGMA_NAMES : list text :=
  [%"TABLE_INFO"; %"TABLE_XINFO"; %"INDEX_LIST"; %"INDEX_INFO"; %"FOREIGN_KEY_LIST"; %"DATABASE_LIST";
   %"COMPILE_OPTIONS"; %"DATA_VERSION"].

Definition is_identifier_byte (c : option char) : bool :=
  match c with Some c => is_ascii_alphanumeric c || (c =? under)%N | None => false end.

Definition starts_with_parenthesis (rest : text) : bool := head_is lparen (drop_while is_ascii_whitespace rest).

(** The test at one position: [before] is the character before it, [source] the text from it on. *)
Definition dangerous_verb_at (keyword : text) (before : option char) (source : text) : bool :=
  let allows_function_form := text_in keyword WRITE_VERBS_WITH_SCALAR_FUNCTION_FORMS in
  starts_with keyword source && negb (is_identifier_byte before)
  && match drop (length keyword) source with
     | [] => true
     | byte :: _ as rest =>
         if (byte =? lparen)%N && allows_function_form then false
         else if is_identifier_byte (Some byte) then false
         else negb (allows_function_form && is_ascii_whitespace byte && starts_with_parenthesis rest)
     end.

Fixpoint dangerous_verb_from (keyword : text) (before : option char) (source : text) : bool :=
  dangerous_verb_at keyword before source
  || match source with [] => false | c :: source' => dangerous_verb_from keyword (Some c) source' end.

Definition contains_dangerous_sql_verb (source keyword : text) : bool :=
  negb (is_empty keyword) && dangerous_verb_from keyword None source.

Definition starts_with_keyword (upper keyword : text) : bool :=
  starts_with keyword upper
  && match drop (length keyword) upper with c :: _ => negb (is_ascii_alphanumeric c) | [] => true end.

(** [contains_word]. *)
Fixpoint word_from (word : text) (before : option char) (source : text) : bool :=
  (starts_with word source && negb (is_identifier_byte before)
   && negb (is_identifier_byte (head (drop (length word) source))))
  || match source with [] => false | c :: source' => word_from word (Some c) source' end.

Definition contains_word (source word : text) : bool := negb (is_empty word) && word_from word None source.

Section Classify.

Context `{CharTable} `{OracleTokenizer} `{CaseMap} `{WordTokenizer} `{JsonObject}.

Definition contains_dangerous_sql_keyword (sql : text) : bool :=
  let source := to_lowercase (strip_sql_comments_and_literals sql) in
  existsb (contains_dangerous_sql_verb source) DANGEROUS_SQL_KEYWORDS.

Definition starts_with_show_create (upper : text) : bool :=
  starts_with %"SHOW" upper
  && let after_show := drop 4 upper in
     match after_show with
     | c :: _ => negb (is_ascii_alphanumeric c) && starts_with_keyword (trim_start after_show) %"CREATE"
     | [] => starts_with_keyword [] %"CREATE"
     end.

(** The loop of [select_contains_top_level_into] over the characters and a final space. *)
Fixpoint top_level_into (token : text) (depth : nat) (saw_select : bool) (chars : text) : bool :=
  match chars with
  | [] => false
  | ch :: chars' =>
      if is_ascii_alphanumeric ch || (ch =? under)%N then top_level_into (token ++ [ch]) depth saw_select chars'
      else
        let at_top := non_empty token && (depth =? 0) in
        if at_top && negb (text_eqb token %"SELECT") && saw_select && text_eqb token %"INTO" then true
        else
          top_level_into []
            (if (ch =? lparen)%N then S depth else if (ch =? rparen)%N then depth - 1 else depth)
            (saw_select || (at_top && text_eqb token %"SELECT")) chars'
  end.

Definition select_contains_top_level_into (upper : text) : bool := top_level_into [] 0 false (upper ++ [space]).

Definition is_safe_read_pragma (upper_stripped : text) : bool :=
  let rest := trim_start (if starts_with %"PRAGMA" upper_stripped then drop 6 upper_stripped else []) in
  let pragma_name := take_while is_tag_char rest in
  non_empty rest && text_in pragma_name SAFE_READ_PRAGMA_NAMES
  && let after_name := trim_start (drop (length pragma_name) rest) in
     is_empty after_name || head_is lparen after_name.

Definition is_write_sql_statement (sql : text) (detect_mysql_executable_comments detect_select_into allow_mysql_checksum : bool)
    : bool :=
  let '(cleaned, has_mysql_executable_comment) :=
    strip_sql_comments_and_literals_with_metadata sql detect_mysql_executable_comments true in
  if has_mysql_executable_comment then true
  else
    let trimmed := trim_start cleaned in
    if is_empty trimmed then false
    else
      let upper := to_uppercase trimmed in
      let starts_with_read :=
        existsb (starts_with_keyword upper) READ_SQL_KEYWORDS
        || (allow_mysql_checksum && starts_with_keyword upper %"CHECKSUM TABLE") in
      if negb starts_with_read && starts_with_keyword upper %"PRAGMA" then negb (is_safe_read_pragma upper)
      else if starts_with_show_create upper then false
      else if detect_select_into && starts_with_keyword upper %"SELECT" && select_contains_top_level_into upper then true
      else negb starts_with_read || contains_dangerous_sql_keyword sql.

(** ** Dialects *)

Definition is_mysql_compatible_database (db : DatabaseType) : bool :=
  match db with Mysql | Doris | StarRocks | ManticoreSearch | Goldendb => true | _ => false end.

Definition is_postgresql_family_database (db : DatabaseType) : bool :=
  match db with
  | Postgres | Redshift | Gaussdb | OpenGauss | Kingbase | Highgo | Uxdb | Vastbase | Gbase8c | Kwdb => true
  | _ => false
  end.

(** The loop of [contains_keyword_sequence] over the words. *)
Fixpoint keyword_sequence (first second : text) (previous_matches : bool) (words : list text) : bool :=
  match words with
  | [] => false
  | word :: words' =>
      if previous_matches && eq_ignore_ascii_case word second then true
      else keyword_sequence first second (eq_ignore_ascii_case word first) words'
  end.

Definition contains_keyword_sequence (sql first second : text) : bool :=
  keyword_sequence first second false (List.filter non_empty (split_at (fun c => negb (is_tag_char c)) sql)).

Definition contains_unquoted_keyword (sql : text) (dialect : WordDialect) (keyword : text) : bool :=
  match tokenize_words dialect sql with
  | Some words => existsb (fun '(value, quoted) => negb quoted && eq_ignore_ascii_case value keyword) words
  | None => false
  end.

Definition has_dialect_specific_write_statement (sql : text) (db : DatabaseType) : bool :=
  if is_mysql_compatible_database db then
    let '(cleaned, has_executable_comment) := strip_sql_comments_and_literals_with_metadata sql true true in
    has_executable_comment || contains_keyword_sequence cleaned %"INTO" %"OUTFILE"
    || contains_keyword_sequence cleaned %"INTO" %"DUMPFILE"
  else if is_postgresql_family_database db then contains_unquoted_keyword sql PostgreSqlDialect %"INTO"
  else match db with SqlServer => contains_unquoted_keyword sql MsSqlDialect %"INTO" | _ => false end.

Definition has_dialect_specific_write (sql : text) (db : DatabaseType) : bool :=
  existsb (fun statement => has_dialect_specific_write_statement statement db) (split_sql_statements_for_database sql db).

Definition is_sqlserver_plan_capture_set (sql : text) : bool :=
  let tokens := map (fun part => upper (trim_end_matches semi part)) (split_whitespace (strip_sql_comments sql)) in
  match tokens with
  | [a; b; c] => text_eqb a %"SET" && text_eqb b %"SHOWPLAN_XML" && text_in c [%"ON"; %"OFF"]
  | [a; b; c; d] => text_eqb a %"SET" && text_eqb b %"STATISTICS" && text_eqb c %"XML" && text_in d [%"ON"; %"OFF"]
  | _ => false
  end.

Definition is_write_sql_with_database_type (sql : text) (db : option DatabaseType) : bool :=
  if match db with Some SqlServer => is_sqlserver_plan_capture_set sql | _ => false end then false
  else if match db with Some db => has_dialect_specific_write sql db | None => false end then true
  else
    let untyped := match db with None => true | Some _ => false end in
    let statements :=
      match db with Some db => split_sql_statements_for_database sql db | None => split_sql_statements sql end in
    let allow_mysql_checksum := match db with Some Mysql => true | _ => false end in
    existsb (fun statement => is_write_sql_statement statement untyped untyped allow_mysql_checksum) statements.

Definition is_write_sql (sql : text) : bool := is_write_sql_with_database_type sql None.

(** ** Pseudo-commands *)

(** [source.lines().find(|line| !line.trim().is_empty())]. *)
Definition first_line (source : text) : option text := List.find (fun line => non_empty (trim line)) (lines source).

Definition classify_dynamodb_statement_write (source : text) : option bool :=
  match first_line source with
  | Some line =>
      let header := upper (trim line) in
      if text_in header [%"DBX DYNAMODB SCAN"; %"DBX DYNAMODB QUERY / SCAN"] then Some false
      else if text_in header [%"DBX DYNAMODB INSERT ITEM"; %"DBX DYNAMODB PUT ITEM"; %"DBX DYNAMODB DELETE ITEM"] then Some true
      else if starts_with %"DBX DYNAMODB" header then Some true
      else None
  | None => None
  end.

Inductive SalesforceStatementRisk : Set := Read | ScopedWrite | OpaqueWrite.

#[export] Instance SalesforceStatementRisk_eq_dec : EqDecision SalesforceStatementRisk.
Proof. solve_decision. Defined.

Definition lbrace : char := 123%N.

(** A field that is a string with something in it. *)
Definition names (field : text) (body : JsonValue) : bool :=
  match get_str field body with Some value => non_empty (trim value) | None => false end.

Definition salesforce_dml_is_scoped (source : text) : bool :=
  let json := drop_while (fun c => negb (c =? lbrace)%N) source in
  match (if is_empty json then None else parse_json json) with
  | None => false
  | Some body =>
      names %"object" body
      && match get_str %"op" body with
         | Some op =>
             if text_eqb (lower op) %"insert" then true
             else if text_in (lower op) [%"update"; %"delete"] then names %"id" body
             else false
         | None => false
         end
  end.

Definition classify_salesforce_statement_risk (source : text) : SalesforceStatementRisk :=
  let header := trim (from_option id [] (first_line source)) in
  if starts_with %"DBX SALESFORCE" (upper header) then (if salesforce_dml_is_scoped source then ScopedWrite else OpaqueWrite)
  else
    let tokens := split_at (fun c => negb (is_alphanumeric c) && negb (c =? under)%N) (strip_sql_comments source) in
    if text_eqb (upper (from_option id [] (List.find non_empty tokens))) %"SELECT" then Read else OpaqueWrite.

(** ** REST requests *)

Inductive SearchEngineQueryRisk : Set := ReadOnly | Write | Dangerous.

#[export] Instance SearchEngineQueryRisk_eq_dec : EqDecision SearchEngineQueryRisk.
Proof. solve_decision. Defined.

(** The text after the first occurrence of [needle], or nothing. *)
Fixpoint after_first (needle s : text) : text :=
  if starts_with needle s then drop (length needle) s
  else match s with [] => [] | _ :: s' => after_first needle s' end.

(** Every iteration removes a comment, so the length is fuel enough. *)
Fixpoint strip_leading_comments (fuel : nat) (rest : text) : text :=
  let rest := trim_start rest in
  match fuel with
  | O => trim rest
  | S fuel' =>
      if starts_with %"#" rest then strip_leading_comments fuel' (after_first [nl] (drop 1 rest))
      else if starts_with %"//" rest then strip_leading_comments fuel' (after_first [nl] (drop 2 rest))
      else if starts_with %"/*" rest then strip_leading_comments fuel' (after_first %"*/" (drop 2 rest))
      else trim rest
  end.

Definition strip_leading_search_engine_comments (input : text) : text := strip_leading_comments (length input) input.

(** The method and the path of the request line. *)
Definition request_line (source : text) : option (text * text) :=
  match lines (strip_leading_search_engine_comments source) with
  | [] => None
  | line :: _ =>
      match split_whitespace (trim line) with
      | request_method :: path :: _ => Some (upper request_method, path)
      | _ => None
      end
  end.

Definition question : char := 63%N.

(** The non-empty segments of the path before the query string. *)
Definition path_segments (raw_path : text) : list text :=
  let path := trim_end_matches slash (from_option id raw_path (head (split_at (N.eqb question) raw_path))) in
  List.filter non_empty (split_at (N.eqb slash) path).

Definition segment_is (candidate segment : text) : bool := eq_ignore_ascii_case segment candidate.

Definition has_segment (segments : list text) (candidate : text) : bool := existsb (segment_is candidate) segments.

Definition has_document_id (segments : list text) (candidate : text) : bool :=
  match position (segment_is candidate) segments with
  | Some index => match segments !! S index with Some value => non_empty value | None => false end
  | None => false
  end.

Definition is_read_method (request_method : text) : bool := text_in request_method [%"GET"; %"HEAD"; %"OPTIONS"].

Definition classify_elasticsearch_query_risk (source : text) : option SearchEngineQueryRisk :=
  match request_line source with
  | None => None
  | Some (m, path) =>
      let segments := path_segments path in
      if is_read_method m then Some ReadOnly
      else if text_eqb m %"POST"
              && existsb (has_segment segments)
                   [%"_search"; %"_count"; %"_sql"; %"_msearch"; %"_field_caps"; %"_terms_enum"; %"_validate";
                    %"_explain"; %"_rank_eval"; %"_search_shards"] then Some ReadOnly
      else if text_eqb m %"POST" && existsb (has_segment segments) [%"_doc"; %"_create"; %"_update"; %"_bulk"] then Some Write
      else if text_eqb m %"PUT" && (has_document_id segments %"_doc" || has_document_id segments %"_create") then Some Write
      else if text_eqb m %"DELETE" && has_document_id segments %"_doc" then Some Write
      else if text_in m [%"POST"; %"PUT"; %"PATCH"; %"DELETE"] then Some Dangerous
      else None
  end.

Definition classify_couchdb_query_risk (source : text) : option SearchEngineQueryRisk :=
  match request_line source with
  | None => None
  | Some (m, path) =>
      let segments := path_segments path in
      if is_read_method m then Some ReadOnly
      else if text_eqb m %"POST"
              && match last segments with
                 | Some s => existsb (fun e => segment_is e s) [%"_find"; %"_explain"; %"_all_docs"; %"_bulk_get"]
                 | None => false
                 end then Some ReadOnly
      else if text_eqb m %"POST"
              && existsb (fun w => match w with
                                   | [a; _; c] => segment_is %"_design" a && segment_is %"_view" c
                                   | _ => false
                                   end) (windows 3 segments) then Some ReadOnly
      else if text_eqb m %"DELETE" && (length segments <=? 1) then Some Dangerous
      else if text_eqb m %"DELETE" then Some Write
      else if text_eqb m %"PUT" && (length segments <=? 1) then Some Dangerous
      else if text_in m [%"PUT"; %"POST"] then Some Write
      else None
  end.

Definition ampersand : char := 38%N.
Definition equals : char := 61%N.

(** The value of a parameter of the query string. *)
Definition query_parameter (key raw_path : text) : option text :=
  match split_at (N.eqb question) raw_path !! 1 with
  | None => None
  | Some query =>
      (fix go params :=
         match params with
         | [] => None
         | param :: params' =>
             match split_once equals param with
             | Some (k, value) => if eq_ignore_ascii_case k key then Some value else go params'
             | None => go params'
             end
         end) (split_at (N.eqb ampersand) query)
  end.

Definition solr_admin_request_is_mutation (raw_path : text) (segments : list text) : bool :=
  existsb (fun w => match w with
                    | [a; b] => segment_is %"admin" a && text_in (lower b) [%"cores"; %"collections"]
                    | _ => false
                    end) (windows 2 segments)
  && match query_parameter %"action" raw_path with
     | Some action => negb (text_in (upper action) [%"STATUS"; %"REQUESTSTATUS"; %"LIST"])
     | None => false
     end.

Definition solr_replication_request_is_mutation (raw_path : text) (segments : list text) : bool :=
  match last segments with Some segment => segment_is %"replication" segment | None => false end
  && match query_parameter %"command" raw_path with
     | Some command =>
         negb (existsb (fun readonly => eq_ignore_ascii_case readonly command)
                 [%"details"; %"restorestatus"; %"filelist"; %"filecontent"; %"filedownload"; %"filemtime";
                  %"indexversion"; %"showversion"])
     | None => false
     end.

Definition READ_ONLY_POST_ENDPOINTS : list text :=
  [%"select"; %"query"; %"get"; %"export"; %"terms"; %"suggest"; %"spell"; %"mlt"; %"sql"; %"graph"; %"clustering";
   %"tvrh"; %"luke"; %"elevate"; %"browse"; %"debug"].

Definition classify_solr_query_risk (source : text) : option SearchEngineQueryRisk :=
  match request_line source with
  | None => None
  | Some (m, raw_path) =>
      let segments := path_segments raw_path in
      let segments :=
        match segments with
        | s :: segments' => if segment_is %"solr" s then segments' else segments
        | [] => []
        end in
      let endpoint := from_option id [] (last segments) in
      if existsb (fun s => starts_with %"update" s || text_eqb s %"commit") segments then Some Write
      else if is_read_method m then
        (if solr_admin_request_is_mutation raw_path segments || solr_replication_request_is_mutation raw_path segments
         then Some Dangerous else Some ReadOnly)
      else if text_eqb m %"POST" && text_in endpoint READ_ONLY_POST_ENDPOINTS then Some ReadOnly
      else if text_in m [%"POST"; %"PUT"; %"PATCH"; %"DELETE"] then Some Dangerous
      else None
  end.

Definition classify_search_engine_query_risk (source : text) (db : DatabaseType) : option SearchEngineQueryRisk :=
  match db with
  | CouchDb => classify_couchdb_query_risk source
  | Solr => classify_solr_query_risk source
  | Elasticsearch | Easysearch => classify_elasticsearch_query_risk source
  | _ => None
  end.

(** ** The decision *)

Definition is_write_sql_for_database (sql : text) (db : DatabaseType) : bool :=
  if bool_decide (db = Neo4j) then negb (is_proven_read_only_cypher sql)
  else if bool_decide (db = VictoriaMetrics) then false
  else
    match (if bool_decide (db = DynamoDb) then classify_dynamodb_statement_write sql else None) with
    | Some is_write => is_write
    | None =>
        if bool_decide (db = Salesforce) then negb (bool_decide (classify_salesforce_statement_risk sql = Read))
        else
          match classify_search_engine_query_risk sql db with
          | Some risk => negb (bool_decide (risk = ReadOnly))
          | None => is_write_sql_with_database_type sql (Some db)
          end
    end.

Definition check_read_only (sql connection_name : text) (db : DatabaseType) : option text :=
  if is_write_sql_for_database sql db
  then Some (%"Read-only mode: connection '" ++ connection_name
             ++ %"' has read-only protection enabled. Write operation (including stored procedure calls) blocked.")
  else None.

(** A bare [BEGIN], [BEGIN WORK] or [START TRANSACTION]. *)
Definition mysql_statement_opens_explicit_transaction (sql : text) : bool :=
  match split_at (N.eqb semi) (strip_sql_comments sql) with
  | [] => false
  | statement :: parts =>
      let statement := trim statement in
      if is_empty statement || existsb (fun part => non_empty (trim part)) parts then false
      else
        match split_whitespace (upper statement) with
        | first :: rest =>
            if text_eqb first %"BEGIN" then match rest with [] => true | second :: _ => text_eqb second %"WORK" end
            else if text_eqb first %"START" then match rest with second :: _ => text_eqb second %"TRANSACTION" | [] => false end
            else false
        | [] => false
        end
  end.

Definition has_extra_statement_after_semicolon (sql : text) : bool :=
  existsb (fun part => non_empty (trim part)) (tail (split_at (N.eqb semi) (strip_sql_comments_and_literals sql))).

End Classify.

(** ** Parts of a split text *)

Lemma split_at_none p s : forallb (fun c => negb (p c)) s = true -> split_at p s = [s].
Proof.
  induction s as [ | c s IH]; intros Hs; [done | ]. cbn [forallb split_at] in *. apply andb_prop in Hs as [Hc Hs]. apply negb_true_iff in Hc as ->.
  by rewrite IH.
Qed.

Lemma split_at_first p s c rest : forallb (fun c => negb (p c)) s = true -> p c = true -> split_at p (s ++ c :: rest) = s :: split_at p rest.
Proof.
  intros Hs Hp. induction s as [ | d s IH]; cbn [app split_at]; [by rewrite Hp | ]. cbn [forallb] in Hs. apply andb_prop in Hs as [Hd Hs].
  apply negb_true_iff in Hd as ->. by rewrite IH.
Qed.
