(* ===== verification/WriteClassFacts.v ===== *)
(** * WriteClassFacts: a write verb in the code of a statement is found.

    [strip_render] says what the scanner sees of a statement; here the verb
    search is run on it.  Lower-casing is context dependent outside ASCII, so the
    lemmas follow the ASCII characters around the verb only. *)

From stdpp Require Import sets.
From S2P Require Import Prelude DbTypes Dialect Lexis PlSql Splitter Scanner SqlStrip WriteClass.

(** The verbs without a scalar function of the same name. *)
Definition PLAIN_WRITE_VERBS : list text :=
  [%"drop"; %"delete"; %"truncate"; %"alter"; %"update"; %"merge"; %"create"].

(** ** Lower case *)

Section Lower.

Context `{CaseMap}.

Lemma to_lowercase_ascii before v y :
  Forall (fun c => (c < 128)%N) v -> lowercase_from before (v ++ y) = lower v ++ lowercase_from (before ++ v) y.
Proof.
  revert before. induction v as [|c v IH]; intros before Hv; cbn [app]; [by rewrite app_nil_r|].
  apply Forall_cons in Hv as [Hc%N.ltb_lt Hv]. cbn [lowercase_from lower map app]. rewrite Hc, IH by done.
  by rewrite <- app_assoc.
Qed.

(** The text in front keeps its last character, if that is ASCII. *)
Lemma to_lowercase_prefix x : forall before z,
  exists x', lowercase_from before (x ++ z) = x' ++ lowercase_from (before ++ x) z
    /\ (x = [] -> x' = []) /\ (forall w, last x = Some w -> (w < 128)%N -> last x' = Some (to_ascii_lowercase w)).
Proof.
  induction x as [|c x IH]; intros before z; cbn [app].
  - exists []. by rewrite app_nil_r.
  - destruct (IH (before ++ [c]) z) as (x' & Heq & Hnil & Hlast). cbn [lowercase_from].
    rewrite Heq, <- app_assoc. cbn [app]. eexists. split; [by rewrite app_assoc|]. split; [done|].
    intros w Hw Hascii. destruct x as [|d x].
    + cbn in Hw. injection Hw as ->. rewrite Hnil by done. apply N.ltb_lt in Hascii as ->. by rewrite app_nil_r.
    + rewrite last_cons_cons in Hw. rewrite last_app, (Hlast w Hw Hascii). done.
Qed.

End Lower.

(** ** Searching *)

(** The character before the position reached after [x]. *)
Definition char_before (before : option char) (x : text) : option char :=
  match last x with Some c => Some c | None => before end.

Lemma dangerous_verb_after keyword x : forall before z,
  dangerous_verb_at keyword (char_before before x) z = true -> dangerous_verb_from keyword before (x ++ z) = true.
Proof.
  induction x as [|c x IH]; intros before z Hz; cbn [app].
  - change (char_before before []) with before in Hz. destruct z; cbn [dangerous_verb_from]; by rewrite Hz.
  - cbn [dangerous_verb_from]. apply orb_true_iff. right. apply IH. unfold char_before in *.
    destruct x as [|d x]; [done|]. rewrite last_cons_cons in Hz.
    destruct (last (d :: x)) eqn:Hl; [done|]. by apply last_None in Hl.
Qed.

(** A word ends here. *)
Definition boundary (c : option char) : bool :=
  match c with Some c => (c <? 128)%N && negb (is_identifier_byte (Some c)) | None => true end.

Lemma boundary_lower c : (c <? 128)%N && negb (is_identifier_byte (Some c)) = true ->
  (c < 128)%N /\ is_identifier_byte (Some (to_ascii_lowercase c)) = false.
Proof.
  intros [Hc Hi]%andb_true_iff. apply N.ltb_lt in Hc. split; [done|]. apply negb_true_iff in Hi. cbn in *.
  unfold to_ascii_lowercase. destruct (is_ascii_uppercase c) eqn:Hu; [|done].
  unfold is_ascii_alphanumeric, is_ascii_alphabetic in Hi. by rewrite Hu in Hi.
Qed.

Lemma plain_verb_facts verb :
  verb ∈ PLAIN_WRITE_VERBS ->
  verb ∈ DANGEROUS_SQL_KEYWORDS /\ text_in verb WRITE_VERBS_WITH_SCALAR_FUNCTION_FORMS = false
  /\ is_empty verb = false.
Proof.
  intros Hv. assert (Forall (fun v => v ∈ DANGEROUS_SQL_KEYWORDS /\ text_in v WRITE_VERBS_WITH_SCALAR_FUNCTION_FORMS = false
    /\ is_empty v = false) PLAIN_WRITE_VERBS) as Hall.
  { repeat constructor; vm_compute; try done; set_solver. }
  rewrite Forall_forall in Hall. by apply Hall.
Qed.

Section Statement.

Context `{CaseMap}.

(** A verb between two boundaries is found after lower-casing. *)
Lemma verb_found verb x v y :
  verb ∈ PLAIN_WRITE_VERBS -> Forall (fun c => (c < 128)%N) v -> lower v = verb ->
  boundary (last x) = true -> boundary (head y) = true ->
  existsb (contains_dangerous_sql_verb (to_lowercase (x ++ v ++ y))) DANGEROUS_SQL_KEYWORDS = true.
Proof.
  intros Hverb Hascii <- Hx Hy. destruct (plain_verb_facts _ Hverb) as (Hin & Hplain & Hne).
  apply existsb_exists. exists (lower v). split; [by apply list_elem_of_In|].
  unfold contains_dangerous_sql_verb. rewrite Hne. cbn [negb andb]. unfold to_lowercase.
  destruct (to_lowercase_prefix x [] (v ++ y)) as (x' & -> & Hnil & Hlast). apply dangerous_verb_after.
  rewrite to_lowercase_ascii by done. unfold dangerous_verb_at. rewrite Hplain.
  assert (starts_with (lower v) (lower v ++ lowercase_from (([] ++ x) ++ v) y) = true) as ->
    by (apply starts_with_app; by eexists).
  rewrite drop_app_length. cbn [andb].
  assert (is_identifier_byte (char_before None x') = false) as ->.
  { unfold char_before. destruct (last x) as [w|] eqn:Hw; cbn in Hx.
    - destruct (boundary_lower w Hx) as [Hw1 Hw2]. by rewrite (Hlast w eq_refl Hw1).
    - apply last_None in Hw. by rewrite (Hnil Hw). }
  cbn [negb andb]. destruct y as [|w y]; [done|]. destruct (boundary_lower w Hy) as [Hw1 Hw2].
  cbn [lowercase_from]. apply N.ltb_lt in Hw1 as ->. cbn [app]. rewrite andb_false_r, Hw2. done.
Qed.

End Statement.

Section Classify.

Context `{CharTable} `{OracleTokenizer} `{CaseMap} `{WordTokenizer} `{JsonObject}.

(** The statements that are judged by something else than the verb search. *)
Definition exempt (upper : text) : bool := starts_with_show_create upper || starts_with_keyword upper %"PRAGMA".

(** The classification of a statement reads its code only: two statements with the
    same code are classified alike, whatever their literals and comments hold. *)
Lemma is_write_sql_statement_code ps ps' cs :
  well_formed ps = true -> well_formed ps' = true -> visible ps = visible ps' ->
  is_write_sql_statement (render ps) false false cs = is_write_sql_statement (render ps') false false cs.
Proof.
  intros Hwf Hwf' Hv. unfold is_write_sql_statement, contains_dangerous_sql_keyword, strip_sql_comments_and_literals.
  rewrite !strip_render by done. by rewrite Hv.
Qed.

Lemma statement_with_verb_is_write ps x v y verb cs :
  well_formed ps = true -> visible ps = x ++ v ++ y ->
  verb ∈ PLAIN_WRITE_VERBS -> Forall (fun c => (c < 128)%N) v -> lower v = verb ->
  boundary (last x) = true -> boundary (head y) = true ->
  exempt (to_uppercase (trim_start (visible ps))) = false ->
  is_write_sql_statement (render ps) false false cs = true.
Proof.
  intros Hwf Hv Hverb Hascii Hlower Hx Hy [Hshow Hpragma]%orb_false_iff.
  unfold is_write_sql_statement, contains_dangerous_sql_keyword, strip_sql_comments_and_literals.
  rewrite strip_render by done. cbn [fst andb].
  destruct (is_empty (trim_start (visible ps))) eqn:Hempty.
  { exfalso. apply is_empty_nil in Hempty. unfold trim_start in Hempty.
    assert (Forall (fun c => is_whitespace c = true) (visible ps)) as Hws.
    { apply trim_nil_whitespace. unfold trim, trim_start. by rewrite Hempty. }
    rewrite Hv in Hws. apply Forall_app in Hws as [_ [Hws _]%Forall_app].
    assert (Forall (fun v => exists c v', v = c :: v' /\ is_whitespace c = false /\ is_ascii_lowercase c = true) PLAIN_WRITE_VERBS) as Hall
      by (repeat constructor; eexists _, _; split_and!; vm_compute; reflexivity).
    rewrite Forall_forall in Hall. destruct (Hall verb Hverb) as (c & v' & Heq & Hc & Hl). subst verb.
    destruct v as [|d v]; [done|]. injection Heq as Heq _. apply Forall_cons in Hws as [Hd _].
    unfold to_ascii_lowercase in Heq. destruct (is_ascii_uppercase d) eqn:Hu; [|congruence].
    unfold is_ascii_uppercase in Hu. apply andb_true_iff in Hu as [Hu1%N.leb_le Hu2%N.leb_le].
    unfold is_whitespace in Hd. rewrite !orb_true_iff, !andb_true_iff, !N.leb_le, !N.eqb_eq in Hd. lia. }
  rewrite Hpragma, Hshow, andb_false_r. cbn [andb]. rewrite Hv. by rewrite (verb_found verb x v y), orb_true_r.
Qed.

(** The databases whose statements are SQL. *)
Definition runs_sql (db : DatabaseType) : bool :=
  match db with
  | Neo4j | VictoriaMetrics | DynamoDb | Salesforce | CouchDb | Solr | Elasticsearch | Easysearch => false
  | _ => true
  end.

Lemma is_write_sql_for_sql_database sql db :
  runs_sql db = true -> is_write_sql_for_database sql db = is_write_sql_with_database_type sql (Some db).
Proof. by destruct db. Qed.

(** C13: a read-only connection of a database that runs SQL refuses a script in which one statement is written from
    well-formed pieces ([well_formed]: code without [#] and [$], literals and quoted names with doubled quotes only, closed
    comments; no backslash escapes, alternative or dollar quotes) and has DROP, DELETE, TRUNCATE, ALTER, UPDATE, MERGE or
    CREATE, in any case, between two word boundaries of its code.  The other statements of the script may be anything, and
    within the statement the verb may stand in a CTE, behind comments or literals.  Not covered: SHOW CREATE, PRAGMA and
    SQL Server's plan capture, which are judged differently; and statements outside the pieces, where a write can pass
    ([backslash_hides_delete], [alternative_quote_hides_delete], [hash_hides_delete]). *)
Theorem read_only_blocks_write_verbs (sql connection_name : text) (db : DatabaseType) (ps : list piece) (x v y verb : text)
    (Hdb : runs_sql db = true) (Hplan : db = SqlServer -> is_sqlserver_plan_capture_set sql = false)
    (Hstatement : render ps ∈ split_sql_statements_for_database sql db) (Hwf : well_formed ps = true)
    (Hcode : visible ps = x ++ v ++ y) (Hverb : verb ∈ PLAIN_WRITE_VERBS)
    (Hascii : Forall (fun c => (c < 128)%N) v) (Hcase : lower v = verb)
    (Hbefore : boundary (last x) = true) (Hafter : boundary (head y) = true)
    (Hexempt : exempt (to_uppercase (trim_start (visible ps))) = false) :
  exists message, check_read_only sql connection_name db = Some message.
Proof.
  unfold check_read_only. rewrite is_write_sql_for_sql_database by done. unfold is_write_sql_with_database_type.
  replace (match db with SqlServer => is_sqlserver_plan_capture_set sql | _ => false end) with false
    by (destruct db; try done; symmetry; by apply Hplan).
  destruct (has_dialect_specific_write sql db); [by eexists|].
  set (cs := match db with Mysql => true | _ => false end).
  replace (existsb _ _) with true; [by eexists|]. symmetry. apply existsb_exists. exists (render ps).
  split; [by apply list_elem_of_In|]. by eapply statement_with_verb_is_write.
Qed.

End Classify.

(** ** A concrete script *)

Section Examples.

#[local] Existing Instance latin1_table.
#[local] Existing Instance fallback_tokenizer.
#[local] Instance ascii_case : CaseMap := {| nonascii_upper c := [c]; nonascii_lower _ c _ := [c] |}.
#[local] Instance no_words : WordTokenizer := {| tokenize_words _ _ := None |}.
#[local] Instance no_json : JsonObject := {| JsonValue := unit; parse_json _ := None; get_str _ _ := None |}.

Definition delete_script : text := %"SELECT 1; " ++ render delete_with_literal.

Lemma delete_script_splits : render delete_with_literal ∈ split_sql_statements_for_database delete_script Postgres.
Proof.
  assert (split_sql_statements_for_database delete_script Postgres = [%"SELECT 1"; render delete_with_literal]) as ->
    by (vm_compute; reflexivity).
  apply list_elem_of_further, list_elem_of_here.
Qed.

Lemma read_only_blocks_write_verbs_witness : exists message, check_read_only delete_script %"prod" Postgres = Some message.
Proof.
  apply (read_only_blocks_write_verbs delete_script %"prod" Postgres delete_with_literal
           (take 46 (visible delete_with_literal)) %"DELETE" %" FROM t" %"delete").
  - reflexivity.
  - discriminate.
  - exact delete_script_splits.
  - vm_compute. reflexivity.
  - vm_compute. reflexivity.
  - vm_compute. repeat constructor.
  - vm_compute. repeat constructor.
  - vm_compute. reflexivity.
  - vm_compute. reflexivity.
  - vm_compute. reflexivity.
  - vm_compute. reflexivity.
Defined.

(** ** Writes that pass

    The scanner does not know MySQL's backslash escapes: the literal ['\''] runs on
    to the end of the text, and the DELETE behind it is blanked. *)
Lemma backslash_hides_delete :
  is_write_sql_for_database %"WITH c AS (SELECT '\'') DELETE FROM t" Mysql = false
  /\ is_write_sql_for_database %"WITH c AS (SELECT 'x') DELETE FROM t" Mysql = true.
Proof. vm_compute. split; reflexivity. Qed.

(** An alternative quote introducer of n characters is followed by a loop that skips
    n more, one too many: the character after the literal is lost, here a quote. *)
Lemma alternative_quote_hides_delete :
  is_write_sql_for_database
    (%"WITH a AS (SELECT q'[z]'" ++ [dquote] ++ %"c" ++ [dquote] ++ %"), b AS (DELETE FROM t RETURNING 1) SELECT 1") Postgres = false
  /\ is_write_sql_for_database
    (%"WITH a AS (SELECT q'[z]' " ++ [dquote] ++ %"c" ++ [dquote] ++ %"), b AS (DELETE FROM t RETURNING 1) SELECT 1") Postgres = true.
Proof. vm_compute. split; reflexivity. Qed.

(** Behind a tagged dollar quote the search for the closing delimiter starts a tag
    too late: an empty literal is read as code. *)
Lemma empty_tagged_literal_is_code :
  is_write_sql_for_database %"SELECT $drop$$drop$" Postgres = true
  /\ is_write_sql_for_database %"SELECT $drop$     $drop$" Postgres = false.
Proof. vm_compute. split; reflexivity. Qed.

(** A hash starts a comment for every database here, but only MySQL has such
    comments: behind the name of a temporary table of SQL Server, or behind
    PostgreSQL's XOR operator, the rest of the line is not seen. *)
Lemma hash_hides_delete :
  is_write_sql_for_database %"WITH c AS (SELECT * FROM #t) DELETE FROM c" SqlServer = false
  /\ is_write_sql_for_database %"WITH c AS (SELECT * FROM t) DELETE FROM c" SqlServer = true
  /\ is_write_sql_for_database %"WITH a AS (SELECT 1 # 2), b AS (DELETE FROM t RETURNING 1) SELECT 1" Postgres = false
  /\ is_write_sql_for_database %"WITH a AS (SELECT 1 + 2), b AS (DELETE FROM t RETURNING 1) SELECT 1" Postgres = true.
Proof. vm_compute. split_and!; reflexivity. Qed.

End Examples.
