(* ===== verification/CypherFacts.v ===== *)
(** * CypherFacts: what is proven about a script that passes the Cypher check.

    A script is a sequence of tokens, each with a written form; [lexed] says that
    every token ends where it must.  [read_only_script] states the policy on the
    tokens.  The scanner decides exactly this: the script has such a reading. *)

From S2P Require Import Prelude WriteClass.

(** A character, an escaped character or a doubled quote of a quoted token. *)
Inductive qitem : Set :=
| QChar (c : char)
| QEscape (c : char)
| QDouble.

Inductive token : Set :=
| TBlank (c : char)
| TLine (body : text)
| TBlock (body : text)
| TQuoted (quote : char) (items : list qitem)
| TEnd
| TWord (word : text)
| TPunct (c : char)
| TSymbol (c : char).

Definition qitem_text (quote : char) (item : qitem) : text :=
  match item with
  | QChar c => [c]
  | QEscape c => [bslash; c]
  | QDouble => [quote; quote]
  end.

Definition token_text (t : token) : text :=
  match t with
  | TBlank c | TPunct c | TSymbol c => [c]
  | TLine body => [slash; slash] ++ body
  | TBlock body => [slash; star] ++ body ++ [star; slash]
  | TQuoted quote items => [quote] ++ (items ≫= qitem_text quote) ++ [quote]
  | TEnd => [semi]
  | TWord word => word
  end.

Definition script_text (ts : list token) : text := ts ≫= token_text.

(** ** Where tokens end *)

Definition is_line_end (c : char) : bool := (c =? nl)%N || (c =? cr)%N.

Definition qitem_ok (quote : char) (item : qitem) : Prop :=
  match item with QChar c => c <> quote /\ c <> bslash | _ => True end.

Definition is_punct (c : char) : bool := (c =? 46)%N || (c =? 58)%N || (c =? dollar)%N.

(** The head of the text does not satisfy [p]. *)
Definition stops (p : char -> bool) (rest : text) : Prop := forall c rest', rest = c :: rest' -> p c = false.

Section Tokens.

Context `{CharTable}.

Definition is_word_start (c : char) : bool := is_ascii_alphabetic c || (c =? under)%N.

(** [t] is a token in front of [rest]. *)
Definition token_ok (t : token) (rest : text) : Prop :=
  match t with
  | TBlank c => is_whitespace c = true
  | TLine body => Forall (fun c => is_line_end c = false) body /\ stops (fun c => negb (is_line_end c)) rest
  | TBlock body => contains [slash; star] (body ++ [star]) = false /\ contains [star; slash] (body ++ [star]) = false
  | TQuoted quote items => is_quote quote = true /\ Forall (qitem_ok quote) items /\ stops (N.eqb quote) rest
  | TEnd => True
  | TWord word =>
      (exists c word', word = c :: word' /\ is_word_start c = true /\ Forall (fun c => is_word_char c = true) word')
      /\ stops is_word_char rest
  | TPunct c => is_punct c = true
  | TSymbol c =>
      is_quote c = false /\ c <> semi /\ is_word_start c = false /\ is_punct c = false /\ is_whitespace c = false
      /\ (c = slash -> stops (fun d => (d =? slash)%N || (d =? star)%N) rest)
  end.

Fixpoint lexed (ts : list token) : Prop :=
  match ts with
  | [] => True
  | t :: ts' => token_ok t (script_text ts') /\ lexed ts'
  end.

(** ** The policy *)

Definition token_word (t : token) : list text :=
  match t with
  | TQuoted _ _ => [%"<quoted>"]
  | TWord word => [upper word]
  | TPunct c => [[c]]
  | TSymbol _ => [%"<symbol>"]
  | TBlank _ | TLine _ | TBlock _ | TEnd => []
  end.

(** The words of the statements, after the words of the one that is open. *)
Fixpoint statements_of (words : list text) (ts : list token) : list (list text) :=
  match ts with
  | [] => [words]
  | TEnd :: ts' => words :: statements_of [] ts'
  | t :: ts' => statements_of (words ++ token_word t) ts'
  end.

Definition names_a_property (previous : option text) (words : list text) : Prop :=
  (exists w, previous = Some w /\ w ∈ [%"."; %":"; %"$"]) \/ head words = Some %":".

(** Every unsafe word is a name: after a dot, a colon or a dollar, or in front of a colon. *)
Fixpoint only_names (previous : option text) (words : list text) : Prop :=
  match words with
  | [] => True
  | w :: words' => (w ∈ UNSAFE_WORDS -> names_a_property previous words') /\ only_names (Some w) words'
  end.

Definition read_only_statement (words : list text) : Prop :=
  (exists first, head words = Some first /\ first ∈ READ_CLAUSES /\ (first = %"SHOW" \/ %"RETURN" ∈ words))
  /\ only_names None words.

Definition read_only_script (ts : list token) : Prop :=
  (exists words, words ∈ statements_of [] ts /\ words <> [])
  /\ forall words, words ∈ statements_of [] ts -> words <> [] -> read_only_statement words.

(** ** Comments and quotes *)

Lemma after_line_comment_spec body rest :
  Forall (fun c => is_line_end c = false) body -> stops (fun c => negb (is_line_end c)) rest ->
  after_line_comment (body ++ rest) = rest.
Proof.
  intros Hb Hr. unfold after_line_comment. fold is_line_end. induction Hb as [|c body Hc _ IH]; cbn [app].
  - apply drop_while_fixed. intros x l Hx. by apply (Hr x l).
  - cbn [drop_while]. unfold is_line_end in Hc. by rewrite Hc.
Qed.

Lemma contains_pair a b c s :
  contains [a; b] (c :: s) = ((c =? a)%N && head_is b s) || contains [a; b] s.
Proof. cbn [contains starts_with]. rewrite (N.eqb_sym a c). by destruct s as [|d s]; cbn; rewrite ?andb_true_r, ?(N.eqb_sym b). Qed.

Lemma head_is_body x body rest : head_is x (body ++ star :: rest) = head_is x (body ++ [star]).
Proof. by destruct body. Qed.

(** A block comment ends at the first closing pair, and no pair opens in front of it. *)
Lemma after_block_comment_iff s rest :
  after_block_comment s = Some rest
  <-> exists body, s = body ++ [star; slash] ++ rest
        /\ contains [slash; star] (body ++ [star]) = false /\ contains [star; slash] (body ++ [star]) = false.
Proof.
  induction s as [|c s IH].
  - split; [done|]. by intros ([|b body] & Heq & _).
  - cbn [after_block_comment]. split.
    + destruct ((c =? slash)%N && head_is star s) eqn:Hopen; [done|].
      destruct ((c =? star)%N && head_is slash s) eqn:Hclose.
      * intros [= <-]. exists []. split_and!; [|done..]. apply andb_true_iff in Hclose as [->%N.eqb_eq Hs].
        destruct s as [|d s]; [done|]. by apply N.eqb_eq in Hs as ->.
      * rewrite IH. intros (body & -> & Ho & Hc). exists (c :: body).
        rewrite <- !app_comm_cons, !contains_pair. cbn [app] in Hopen, Hclose.
        rewrite !(head_is_body _ body (slash :: rest)) in *. by rewrite Hopen, Hclose.
    + intros ([|b body] & Heq & Ho & Hc); injection Heq as -> ->; [done|].
      rewrite <- !app_comm_cons, !contains_pair in Ho, Hc. apply orb_false_iff in Ho as [Ho1 Ho], Hc as [Hc1 Hc].
      rewrite !(head_is_body _ body (slash :: rest)), Ho1, Hc1. apply IH. by exists body.
Qed.

Lemma after_quoted_skip quote s rest :
  after_quoted quote true s = Some rest <-> exists c s', s = c :: s' /\ after_quoted quote false s' = Some rest.
Proof. destruct s as [|c s]; cbn; split; [done|by intros (?&?&?&_)|eauto|by intros (?&?&[= -> ->]&?)]. Qed.

(** A quoted token ends at the first quote that is neither escaped nor doubled. *)
Lemma after_quoted_iff quote s rest :
  is_quote quote = true ->
  after_quoted quote false s = Some rest
  <-> exists items, s = (items ≫= qitem_text quote) ++ [quote] ++ rest /\ Forall (qitem_ok quote) items /\ stops (N.eqb quote) rest.
Proof.
  intros Hq. assert (quote <> bslash) as Hqb by (intros ->; done). split.
  - remember (length s) as n eqn:Hn. revert s Hn. induction (lt_wf n) as [n _ IH]. intros [|c s] -> Hs; [done|]. cbn in Hs.
    assert (forall c s', c :: s' = s -> after_quoted quote false s' = Some rest -> exists items,
      s' = (items ≫= qitem_text quote) ++ [quote] ++ rest /\ Forall (qitem_ok quote) items /\ stops (N.eqb quote) rest) as IH2
      by (intros d s' <-; apply (IH (length s')); [cbn; lia|done]).
    destruct (N.eqb_spec c bslash) as [->|Hcb]; [|destruct (N.eqb_spec c quote) as [->|Hcq]; [destruct (head_is quote s) eqn:Hd|]].
    + apply after_quoted_skip in Hs as (d & s' & -> & Hs). destruct (IH2 d s' eq_refl Hs) as (items & -> & Hok & Hr).
      exists (QEscape d :: items). split_and!; [done|by constructor|done].
    + apply after_quoted_skip in Hs as (d & s' & -> & Hs). destruct (IH2 d s' eq_refl Hs) as (items & -> & Hok & Hr).
      apply N.eqb_eq in Hd as ->. exists (QDouble :: items). split_and!; [done|by constructor|done].
    + injection Hs as ->. exists []. split_and!; [done..|]. intros d rest' ->. cbn in Hd. by rewrite N.eqb_sym.
    + destruct (IH (length s) (Nat.lt_succ_diag_r _) s eq_refl Hs) as (items & -> & Hok & Hr).
      exists (QChar c :: items). split_and!; [done|by constructor|done].
  - intros (items & -> & Hok & Hr). induction Hok as [|item items Hi _ IH].
    + cbn. rewrite (proj2 (N.eqb_neq quote bslash)), N.eqb_refl by done.
      destruct rest as [|c rest]; [done|]. cbn. by rewrite N.eqb_sym, (Hr c rest).
    + destruct item as [c|c|]; cbn.
      * destruct Hi as [Hcq%N.eqb_neq Hcb%N.eqb_neq]. by rewrite Hcb, Hcq.
      * done.
      * rewrite (proj2 (N.eqb_neq quote bslash)), !N.eqb_refl by done. done.
Qed.

(** ** Tokens and lexemes *)

Definition lexeme_of (t : token) (rest : text) : lexeme :=
  match t with
  | TBlank _ | TLine _ | TBlock _ => Skip rest
  | TEnd => EndOfStatement rest
  | TQuoted _ _ => Token %"<quoted>" rest
  | TWord word => Token (upper word) rest
  | TPunct c => Token [c] rest
  | TSymbol _ => Token %"<symbol>" rest
  end.

Lemma whitespace_word c : is_whitespace c = true -> is_word_start c = false.
Proof.
  unfold is_whitespace, is_word_start, is_ascii_alphabetic, is_ascii_uppercase, is_ascii_lowercase, under.
  rewrite !orb_true_iff, !andb_true_iff, !N.leb_le, !N.eqb_eq. intros Hc.
  rewrite !orb_false_iff, !andb_false_iff, !N.leb_gt, N.eqb_neq. lia.
Qed.

(** A character of one class is not the given character of another. *)
Ltac other_char :=
  match goal with
  | |- (?c =? ?d)%N = false => apply N.eqb_neq; intros ->; vm_compute in *; congruence
  end.

Lemma take_drop_word p w rest :
  Forall (fun c => p c = true) w -> stops p rest -> take_while p (w ++ rest) = w /\ drop_while p (w ++ rest) = rest.
Proof.
  intros Hw Hr. induction Hw as [|c w Hc _ [IH1 IH2]]; cbn.
  - destruct rest as [|c rest]; [done|]. cbn. by rewrite (Hr c rest).
  - by rewrite Hc, IH1, IH2.
Qed.

Lemma not_comment c (rest : text) : c <> slash ->
  (c =? slash)%N && head_is slash rest = false /\ (c =? slash)%N && head_is star rest = false.
Proof. intros Hc%N.eqb_neq. by rewrite Hc. Qed.

Lemma next_lexeme_token t rest :
  token_ok t rest -> exists ch chars, token_text t ++ rest = ch :: chars /\ next_lexeme ch chars = lexeme_of t rest.
Proof.
  unfold next_lexeme. destruct t as [c|body|body|quote items| |word|c|c]; cbn [token_ok token_text lexeme_of]; intros Hok.
  - exists c, rest. split; [done|]. assert (c <> slash) as Hs by (intros ->; done).
    destruct (not_comment c rest Hs) as [-> ->]. fold (is_word_start c). rewrite (whitespace_word c Hok), Hok.
    assert (is_quote c = false) as -> by (unfold is_quote; rewrite !orb_false_iff; split_and!; other_char).
    replace (c =? semi)%N with false by (symmetry; other_char).
    replace ((c =? 46)%N || (c =? 58)%N || (c =? dollar)%N) with false; [done|].
    symmetry. rewrite !orb_false_iff. split_and!; other_char.
  - exists slash, (slash :: body ++ rest). split; [done|]. cbn [tail head_is N.eqb andb].
    destruct Hok as [Hb Hr]. by rewrite after_line_comment_spec.
  - exists slash, (star :: body ++ [star; slash] ++ rest). split; [cbn; by rewrite <- app_assoc|]. cbn -[after_block_comment].
    replace (after_block_comment _) with (Some rest); [done|]. symmetry. apply after_block_comment_iff. by exists body.
  - destruct Hok as (Hq & Hi & Hr). exists quote, ((items ≫= qitem_text quote) ++ [quote] ++ rest).
    split; [cbn; by rewrite <- app_assoc|]. assert (quote <> slash) as Hs by (intros ->; done).
    destruct (not_comment quote ((items ≫= qitem_text quote) ++ [quote] ++ rest) Hs) as [-> ->]. rewrite Hq.
    replace (after_quoted _ _ _) with (Some rest); [done|]. symmetry. apply after_quoted_iff; [done|]. by exists items.
  - by exists semi, rest.
  - destruct Hok as [(c & word' & -> & Hc & Hw) Hr]. exists c, (word' ++ rest). split; [done|].
    assert (c <> slash) as Hs by (intros ->; done). destruct (not_comment c (word' ++ rest) Hs) as [-> ->].
    assert (is_quote c = false) as -> by (unfold is_quote; rewrite !orb_false_iff; split_and!; other_char).
    replace (c =? semi)%N with false by (symmetry; other_char). fold (is_word_start c). rewrite Hc.
    by destruct (take_drop_word is_word_char word' rest Hw Hr) as [-> ->].
  - exists c, rest. split; [done|]. assert (c <> slash) as Hs by (intros ->; done).
    destruct (not_comment c rest Hs) as [-> ->].
    assert (is_quote c = false) as -> by (unfold is_quote; rewrite !orb_false_iff; split_and!; other_char).
    replace (c =? semi)%N with false by (symmetry; other_char). fold (is_word_start c) (is_punct c). rewrite Hok.
    assert (is_word_start c = false) as ->; [|done].
    unfold is_punct in Hok. rewrite !orb_true_iff, !N.eqb_eq in Hok. by destruct Hok as [[->| ->]| ->].
  - destruct Hok as (Hq & Hsemi%N.eqb_neq & Hw & Hp & Hws & Hslash). exists c, rest. split; [done|].
    fold (is_word_start c) (is_punct c). rewrite Hq, Hsemi, Hw, Hp, Hws. cbn [negb].
    destruct (N.eqb_spec c slash) as [->|Hs]; [|done]. destruct rest as [|d rest]; [done|].
    pose proof (Hslash eq_refl d rest eq_refl) as [Hd1 Hd2]%orb_false_iff. cbn. by rewrite Hd1, Hd2.
Qed.

Lemma take_while_all {A} (p : A -> bool) l : Forall (fun x => p x = true) (take_while p l).
Proof. induction l as [|x l IH]; cbn; [done|]. destruct (p x) eqn:Hp; [by constructor|done]. Qed.

Lemma take_drop_while {A} (p : A -> bool) l : take_while p l ++ drop_while p l = l.
Proof. induction l as [|x l IH]; cbn; [done|]. destruct (p x); cbn; by rewrite ?IH. Qed.

Lemma stops_drop_while p s : stops p (drop_while p s).
Proof. intros c rest Heq. by eapply drop_while_head. Qed.

Lemma next_lexeme_complete ch chars :
  next_lexeme ch chars <> GiveUp ->
  exists t rest, ch :: chars = token_text t ++ rest /\ token_ok t rest /\ next_lexeme ch chars = lexeme_of t rest.
Proof.
  intros Hne. enough (exists t rest, ch :: chars = token_text t ++ rest /\ token_ok t rest) as (t & rest & Heq & Hok).
  { exists t, rest. split_and!; [done..|]. destruct (next_lexeme_token t rest Hok) as (ch' & chars' & Heq' & Hl).
    rewrite <- Heq in Heq'. by injection Heq' as <- <-. }
  unfold next_lexeme in Hne. fold (is_word_start ch) (is_punct ch) in Hne.
  destruct ((ch =? slash)%N && head_is slash chars) eqn:Hline; [|destruct ((ch =? slash)%N && head_is star chars) eqn:Hblock].
  - apply andb_true_iff in Hline as [->%N.eqb_eq Hh]. destruct chars as [|d chars]; [done|]. apply N.eqb_eq in Hh as ->.
    set (p := fun c => negb (is_line_end c)). exists (TLine (take_while p chars)), (drop_while p chars). split; [cbn; by rewrite take_drop_while|].
    split; [|apply stops_drop_while]. eapply Forall_impl; [apply take_while_all|]. intros c. apply negb_true_iff.
  - apply andb_true_iff in Hblock as [->%N.eqb_eq Hh]. destruct chars as [|d chars]; [done|]. apply N.eqb_eq in Hh as ->.
    cbn [tail] in Hne. destruct (after_block_comment chars) as [rest|] eqn:Hb; [|done].
    apply after_block_comment_iff in Hb as (body & -> & Ho & Hc). exists (TBlock body), rest. split; [cbn; by rewrite <- app_assoc|done].
  - destruct (is_quote ch) eqn:Hq.
    { destruct (after_quoted ch false chars) as [rest|] eqn:Hr; [|done].
      apply after_quoted_iff in Hr as (items & -> & Hi & Hr); [|done]. exists (TQuoted ch items), rest.
      split; [cbn; by rewrite <- app_assoc|done]. }
    destruct (N.eqb_spec ch semi) as [->|Hsemi]; [by exists TEnd, chars|].
    destruct (is_word_start ch) eqn:Hw.
    { exists (TWord (ch :: take_while is_word_char chars)), (drop_while is_word_char chars).
      split; [cbn; by rewrite take_drop_while|]. split; [|apply stops_drop_while]. eexists _, _. split_and!; [done..|apply take_while_all]. }
    destruct (is_punct ch) eqn:Hp; [by exists (TPunct ch), chars|].
    destruct (is_whitespace ch) eqn:Hws; [by exists (TBlank ch), chars|].
    exists (TSymbol ch), chars. split; [done|]. cbn [token_ok]. split_and!; try done. intros -> d rest' ->. cbn in Hline, Hblock. by rewrite Hline, Hblock.
Qed.

(** ** The scanner *)

Lemma token_text_nonempty t rest : token_ok t rest -> 0 < length (token_text t).
Proof.
  destruct t; cbn; try lia. intros [(c & word' & -> & _) _]. cbn. lia.
Qed.

(** One token of the text is one iteration of the loop. *)
Lemma cypher_statements_token fuel words t rest :
  token_ok t rest ->
  cypher_statements (S fuel) words (token_text t ++ rest)
  = match t with
    | TEnd => match cypher_statements fuel [] rest with Some later => Some (words :: later) | None => None end
    | _ => cypher_statements fuel (words ++ token_word t) rest
    end.
Proof.
  intros Hok. destruct (next_lexeme_token t rest Hok) as (ch & chars & -> & Hl). cbn [cypher_statements]. rewrite Hl.
  by destruct t; cbn; rewrite ?app_nil_r.
Qed.

Lemma cypher_statements_lexed ts : forall fuel words,
  lexed ts -> length (script_text ts) <= fuel -> cypher_statements fuel words (script_text ts) = Some (statements_of words ts).
Proof.
  induction ts as [|t ts IH]; intros fuel words Hts Hfuel; [by destruct fuel|]. destruct Hts as [Ht Hts].
  change (script_text (t :: ts)) with (token_text t ++ script_text ts) in *.
  pose proof (token_text_nonempty _ _ Ht) as Hpos. rewrite length_app in Hfuel. destruct fuel as [|fuel]; [lia|].
  rewrite cypher_statements_token by done. destruct t; cbn [statements_of]; rewrite IH by (done || lia); done.
Qed.

(** Whatever the loop returns is the reading of some token sequence. *)
Lemma cypher_statements_complete fuel : forall words chars statements,
  cypher_statements fuel words chars = Some statements ->
  exists ts, lexed ts /\ script_text ts = chars /\ statements = statements_of words ts.
Proof.
  induction fuel as [|fuel IH]; intros words [|ch chars] statements Hs; try done; try (injection Hs as <-; by exists []).
  destruct (next_lexeme_complete ch chars) as (t & rest & Heq & Hok & _).
  { intros Hg. cbn in Hs. by rewrite Hg in Hs. }
  rewrite Heq in Hs |- *. rewrite cypher_statements_token in Hs by done.
  assert (exists ts, lexed ts /\ script_text ts = rest /\ statements = statements_of words (t :: ts)) as (ts & Hts & <- & ->).
  { destruct t; try (by destruct (IH _ _ _ Hs) as (ts & Hts & <- & ->); exists ts).
    destruct (cypher_statements fuel [] rest) as [later|] eqn:Hl; [|done]. injection Hs as <-.
    destruct (IH _ _ _ Hl) as (ts & Hts & <- & ->). by exists ts. }
  by exists (t :: ts).
Qed.

(** ** The decision *)

Lemma text_in_elem w (l : list text) : existsb (text_eqb w) l = true <-> w ∈ l.
Proof.
  rewrite existsb_exists. setoid_rewrite list_elem_of_In. split.
  - intros (x & Hx & ->%text_eqb_eq). done.
  - intros Hw. exists w. by rewrite text_eqb_refl.
Qed.

(** The index scan over the words, and the walk with the previous word at hand. *)
Lemma unsafe_scan before words :
  existsb (unsafe_at (before ++ words)) (seq (length before) (length words)) = false <-> only_names (last before) words.
Proof.
  revert before. induction words as [|w words IH]; intros before; [done|]. cbn [length seq existsb only_names].
  rewrite orb_false_iff. specialize (IH (before ++ [w])). rewrite <- app_assoc, length_app, Nat.add_1_r, last_snoc in IH.
  cbn [app] in IH. rewrite IH. apply and_iff_compat_r.
  unfold unsafe_at. rewrite list_lookup_middle by done.
  assert ((before ++ w :: words) !! S (length before) = head words) as ->.
  { change (w :: words) with ([w] ++ words). rewrite app_assoc, lookup_app_r by (rewrite length_app; cbn; lia).
    rewrite length_app. cbn. replace (S (length before) - (length before + 1)) with 0 by lia. by destruct words. }
  set (previous := match length before with O => false | S n => _ end).
  assert (previous = true <-> exists v, last before = Some v /\ v ∈ [%"."; %":"; %"$"]) as Hprevious.
  { subst previous. destruct before as [|v before _] using rev_ind; [split; [done|by intros (?&?&_)]|].
    rewrite last_snoc, length_app, Nat.add_1_r. cbn [length].
    rewrite <- app_assoc. cbn [app]. rewrite list_lookup_middle by done. rewrite text_in_elem. split; [eauto|].
    by intros (?&[= <-]&?). }
  rewrite <- (text_in_elem w), !andb_false_iff, !negb_false_iff, Hprevious. unfold names_a_property.
  assert ((match head words with Some x => text_eqb x %":" | None => false end) = true <-> head words = Some %":") as ->.
  { destruct (head words) as [x|]; [rewrite text_eqb_eq; naive_solver|naive_solver]. }
  destruct (existsb (text_eqb w) UNSAFE_WORDS); naive_solver.
Qed.

Lemma reads_only_iff words : words <> [] -> reads_only words = true <-> read_only_statement words.
Proof.
  intros Hne. destruct words as [|first words]; [done|]. unfold reads_only, read_only_statement, is_read_clause.
  rewrite !andb_true_iff, negb_true_iff, orb_true_iff, !text_in_elem, text_eqb_eq.
  rewrite (unsafe_scan [] (first :: words)). cbn [last head]. naive_solver.
Qed.

(** C14: the Cypher check accepts exactly the scripts that read as read-only.  It
    answers yes if and only if the script has no Unicode escape and is a sequence of
    tokens, every comment and quote closed and no comment nested, with a nonempty
    statement, where each nonempty statement begins with a read clause, has a RETURN
    unless it is a SHOW, and uses the nineteen write and administration words only
    as names.  In particular whatever the scanner does not understand is refused. *)
Theorem proven_cypher_iff (source : text) :
  is_proven_read_only_cypher source = true
  <-> contains %"\u" source = false /\ exists ts, lexed ts /\ script_text ts = source /\ read_only_script ts.
Proof.
  assert (forall statements, negb (is_empty (List.filter (fun words => negb (is_empty words)) statements))
      && forallb reads_only (List.filter (fun words => negb (is_empty words)) statements) = true
    <-> (exists words, words ∈ statements /\ words <> [])
        /\ forall words, words ∈ statements -> words <> [] -> read_only_statement words) as Hdecide.
  { intros statements. set (l := List.filter _ statements).
    assert (forall words, In words l <-> words ∈ statements /\ words <> []) as Hl.
    { intros words. unfold l. rewrite filter_In, <- list_elem_of_In. destruct words; naive_solver. }
    rewrite andb_true_iff, negb_true_iff, forallb_forall. apply Morphisms_Prop.and_iff_morphism.
    - split.
      + destruct l as [|words l']; [done|]. intros _. exists words. apply Hl. by left.
      + intros (words & Hw%Hl). by destruct l.
    - split; intros Hall words.
      + intros Hw Hne. apply reads_only_iff; [done|]. apply Hall, Hl. done.
      + intros [Hw Hne]%Hl. apply reads_only_iff; [done|]. by apply Hall. }
  unfold is_proven_read_only_cypher, read_only_script. destruct (contains %"\u" source).
  { split; [done|]. by intros [? _]. }
  split.
  - destruct (cypher_statements (length source) [] source) as [statements|] eqn:Hs; [|done]. rewrite Hdecide. intros Hok. split; [done|].
    destruct (cypher_statements_complete _ _ _ _ Hs) as (ts & Hts & Htext & ->). by exists ts.
  - intros (_ & ts & Hts & <- & Hok). rewrite cypher_statements_lexed by done. by apply Hdecide.
Qed.

End Tokens.

(** Names in backticks have no backslash escapes in Cypher (a backtick is doubled),
    but the scanner skips the character after one: the name below runs on over the
    DELETE to the backtick in the comment. *)
Lemma backslash_in_backticks_hides_delete :
  let _ := latin1_table in
  is_proven_read_only_cypher %"MATCH (n:`a\`) DETACH DELETE n //` RETURN 1" = true
  /\ is_proven_read_only_cypher %"MATCH (n:`a`) DETACH DELETE n //` RETURN 1" = false.
Proof. vm_compute. split; reflexivity. Qed.
