(* ===== verification/WriteUnlock.v ===== *)
(** * WriteUnlock: temporary write windows and the read-only gate
      ([safety/write_unlock.rs], [query/mod.rs], [connection/mod.rs]).

    A read-only connection stays read-only; a confirmed session may open a window
    of one or five minutes in which the gate lets its writes through.  An [Instant]
    is a count of nanoseconds, as [Duration] keeps it (its overflow, after 584
    years, is out of reach).  The operations are functions of the map and the
    instant at which they run.  The interleaving of their parts, which await a lock
    in between, is in [ReadOnlyGate]. *)

From stdpp Require Import gmap.
From S2P Require Import Prelude DbTypes Dialect Lexis PlSql Splitter Scanner SqlStrip WriteClass StateStore.

Definition instant : Set := N.

Definition NANOS_PER_SEC : N := 1000000000%N.
Definition NANOS_PER_MILLI : N := 1000000%N.

(** [Duration::from_secs] and [Duration::as_millis]. *)
Definition from_secs (secs : N) : N := (secs * NANOS_PER_SEC)%N.
Definition as_millis (duration : N) : N := (duration / NANOS_PER_MILLI)%N.

Definition WRITE_UNLOCK_ONE_MINUTE_SECS : N := 60%N.
Definition WRITE_UNLOCK_FIVE_MINUTES_SECS : N := 300%N.

Record WriteUnlockKey : Set := mk_key { owner_scope : text; connection_id : text }.

#[export] Instance WriteUnlockKey_eq_dec : EqDecision WriteUnlockKey.
Proof. solve_decision. Defined.

#[export] Instance WriteUnlockKey_countable : Countable WriteUnlockKey.
Proof.
  refine (inj_countable' (fun k => (owner_scope k, connection_id k)) (fun p => mk_key p.1 p.2) _). by intros [].
Defined.

(** [WriteUnlockKey::current]; the owner is task local. *)
Definition current (owner : option text) (connection_id : text) : WriteUnlockKey := mk_key (default [] owner) connection_id.

(** The content of [WriteUnlockWindows::inner]. *)
Notation WriteUnlockWindows := (gmap WriteUnlockKey instant).

Definition parse_duration_secs (secs : N) : result N :=
  if (secs =? WRITE_UNLOCK_ONE_MINUTE_SECS)%N then Ok (from_secs WRITE_UNLOCK_ONE_MINUTE_SECS)
  else if (secs =? WRITE_UNLOCK_FIVE_MINUTES_SECS)%N then Ok (from_secs WRITE_UNLOCK_FIVE_MINUTES_SECS)
  else Err %"Write unlock duration must be 1 minute or 5 minutes.".

Section Windows.

Context `{CharTable}.

(** The part of [unlock] in front of the lock: the expiry, or an error. *)
Definition unlock_request (connection_id : text) (duration_secs : N) (now : instant) : result (N * instant) :=
  if is_empty (trim connection_id) then Err %"Connection id is required."
  else
    match parse_duration_secs duration_secs with
    | Ok duration => Ok (duration, now + duration)%N
    | Err e => Err e
    end.

Definition unlock (owner : option text) (connection_id : text) (duration_secs : N) (now : instant) (inner : WriteUnlockWindows)
    : WriteUnlockWindows * result N :=
  match unlock_request connection_id duration_secs now with
  | Ok (duration, expires_at) => (<[current owner connection_id := expires_at]> inner, Ok (as_millis duration))
  | Err e => (inner, Err e)
  end.

Definition lock (owner : option text) (connection_id : text) (inner : WriteUnlockWindows) : WriteUnlockWindows :=
  delete (current owner connection_id) inner.

Definition remaining_ms_from (expires_at now : instant) (inner : WriteUnlockWindows) (key : WriteUnlockKey)
    : WriteUnlockWindows * N :=
  if (expires_at <=? now)%N then (delete key inner, 0%N) else (inner, as_millis (expires_at - now)).

Definition remaining_ms_of (key : WriteUnlockKey) (now : instant) (inner : WriteUnlockWindows) : WriteUnlockWindows * N :=
  match inner !! key with
  | None => (inner, 0%N)
  | Some expires_at => remaining_ms_from expires_at now inner key
  end.

Definition remaining_ms (owner : option text) (connection_id : text) (now : instant) (inner : WriteUnlockWindows)
    : WriteUnlockWindows * N :=
  remaining_ms_of (current owner connection_id) now inner.

Definition is_active (owner : option text) (connection_id : text) (now : instant) (inner : WriteUnlockWindows)
    : WriteUnlockWindows * bool :=
  let '(inner, remaining) := remaining_ms owner connection_id now inner in (inner, (0 <? remaining)%N).

End Windows.

(** ** The configuration of a pool key *)

(** The fields of a configuration that the gate reads. *)
Record ConnectionConfig : Set := mk_config {
  config_id : text; config_name : text; config_db_type : DatabaseType; config_read_only : bool
}.

(** A [HashMap] is iterated in an order of its own. *)
Class HashOrder (V : Type) := {
  iter : gmap text V -> list (text * V);
  iter_permutation m : iter m ≡ₚ map_to_list m
}.

Definition pool_key_belongs_to_connection (pool_key connection_id : text) : bool :=
  starts_with connection_id pool_key
  && let rest := drop (length connection_id) pool_key in is_empty rest || head_is colon rest.

(** [Iterator::max_by_key]: the last of the greatest. *)
Definition max_by_key {A} (key : A -> N) (l : list A) : option A :=
  fold_left (fun best x =>
               match best with
               | None => Some x
               | Some b => if (key b <=? key x)%N then Some x else Some b
               end) l None.

Definition config_for_pool_key `{HashOrder ConnectionConfig} (pool_key : text) (configs : gmap text ConnectionConfig)
    : option ConnectionConfig :=
  snd <$> max_by_key (fun entry => byte_len entry.1)
            (List.filter (fun entry => pool_key_belongs_to_connection pool_key entry.1) (iter configs)).

(** ** The gate *)

Section Gate.

Context `{CharTable, OracleTokenizer, CaseMap, WordTokenizer, JsonObject, HashOrder ConnectionConfig}.

Definition read_only_config (pool_key : text) (configs : gmap text ConnectionConfig) : option ConnectionConfig :=
  match config_for_pool_key pool_key configs with
  | Some config => if config_read_only config then Some config else None
  | None => None
  end.

(** The statements in order, up to the first that is refused. *)
Fixpoint check_read_only_all (statements : list text) (config : ConnectionConfig) : option text :=
  match statements with
  | [] => None
  | sql :: statements' =>
      match check_read_only sql (config_name config) (config_db_type config) with
      | Some e => Some e
      | None => check_read_only_all statements' config
      end
  end.

Definition check_read_only_for_connection_multi (configs : gmap text ConnectionConfig) (owner : option text) (now : instant)
    (pool_key : text) (statements : list text) (windows : WriteUnlockWindows) : WriteUnlockWindows * option text :=
  match read_only_config pool_key configs with
  | Some config =>
      let '(windows, active) := is_active owner (config_id config) now windows in
      (windows, if active then None else check_read_only_all statements config)
  | None => (windows, None)
  end.

Definition check_read_only_for_connection (configs : gmap text ConnectionConfig) (owner : option text) (now : instant)
    (pool_key sql : text) (windows : WriteUnlockWindows) : WriteUnlockWindows * option text :=
  match read_only_config pool_key configs with
  | Some config =>
      let '(windows, active) := is_active owner (config_id config) now windows in
      (windows, if active then None else check_read_only sql (config_name config) (config_db_type config))
  | None => (windows, None)
  end.

Definition connection_readonly_name (configs : gmap text ConnectionConfig) (owner : option text) (now : instant)
    (connection_id : text) (windows : WriteUnlockWindows) : WriteUnlockWindows * option text :=
  match configs !! connection_id with
  | Some config =>
      if config_read_only config then
        let '(windows, active) := is_active owner connection_id now windows in
        (windows, if active then None else Some (config_name config))
      else (windows, None)
  | None => (windows, None)
  end.

End Gate.
