(* ===== verification/ReadOnlyGate.v ===== *)
(** * ReadOnlyGate: writes on a read-only connection need an open window.

    First which configuration a pool key stands for, then the gate among other
    tasks: every task runs in the parts between its awaits, the clock ticks and the
    configurations change in between, and a log keeps what happened to the windows. *)

From stdpp Require Import gmap.
From S2P Require Import Prelude DbTypes Dialect Lexis PlSql Splitter Scanner SqlStrip WriteClass StateStore WriteUnlock.

(** ** Pool keys *)

Section MaxByKey.

Context {A : Type} (key : A -> N).

Lemma max_by_key_spec l :
  match max_by_key key l with
  | Some x => x ∈ l /\ forall y, y ∈ l -> (key y <= key x)%N
  | None => l = []
  end.
Proof.
  unfold max_by_key. induction l as [|x l IH] using rev_ind; [done|]. rewrite fold_left_app. cbn [fold_left].
  destruct (fold_left _ l None) as [b|].
  - destruct IH as [Hb Hmax]. destruct (N.leb_spec (key b) (key x)).
    + split; [set_solver|]. intros y [Hy| ->%list_elem_of_singleton]%elem_of_app; [|lia]. specialize (Hmax y Hy). lia.
    + split; [set_solver|]. intros y [Hy| ->%list_elem_of_singleton]%elem_of_app; [by apply Hmax|lia].
  - subst l. split; [set_solver|]. intros y ->%list_elem_of_singleton. lia.
Qed.

End MaxByKey.

Lemma byte_len_zero s : byte_len s = 0%N -> s = [].
Proof. destruct s as [|c s]; [done|]. cbn. unfold len_utf8. repeat case_match; lia. Qed.

Lemma pool_key_belongs_true pool_key connection_id :
  pool_key_belongs_to_connection pool_key connection_id = true
  <-> pool_key = connection_id \/ exists rest, pool_key = connection_id ++ colon :: rest.
Proof.
  unfold pool_key_belongs_to_connection. rewrite andb_true_iff, orb_true_iff. split.
  - intros [[rest ->]%starts_with_app Hr]. rewrite drop_app_length in Hr. destruct rest as [|c rest].
    + left. by rewrite app_nil_r.
    + destruct Hr as [?|Hc]; [done|]. apply N.eqb_eq in Hc as ->. right. by exists rest.
  - intros [ -> |[rest ->]].
    + split; [apply starts_with_app; exists []; by rewrite app_nil_r|left]. by rewrite drop_all.
    + split; [apply starts_with_app; by exists (colon :: rest)|right]. by rewrite drop_app_length.
Qed.

(** Two owners of a pool key with the same number of bytes are the same. *)
Lemma owners_same_length pool_key a b :
  pool_key_belongs_to_connection pool_key a = true -> pool_key_belongs_to_connection pool_key b = true ->
  (byte_len a <= byte_len b)%N -> a `prefix_of` b.
Proof.
  rewrite !pool_key_belongs_true. intros Ha Hb Hlen.
  assert (a `prefix_of` pool_key) as Pa by (destruct Ha as [ -> |[r ->]]; [done|by apply prefix_app_r]).
  assert (b `prefix_of` pool_key) as Pb by (destruct Hb as [ -> |[r ->]]; [done|by apply prefix_app_r]).
  destruct (prefix_weak_total a b pool_key Pa Pb) as [|[r ->]]; [done|].
  rewrite byte_len_app in Hlen. rewrite (byte_len_zero r) by lia. by rewrite app_nil_r.
Qed.

Section PoolKeys.

Context `{HashOrder ConnectionConfig}.

Implicit Type configs : gmap text ConnectionConfig.

Lemma elem_of_owners pool_key configs id config :
  (id, config) ∈ List.filter (fun entry => pool_key_belongs_to_connection pool_key entry.1) (iter configs)
  <-> configs !! id = Some config /\ pool_key_belongs_to_connection pool_key id = true.
Proof.
  rewrite list_elem_of_In, filter_In, <- list_elem_of_In, iter_permutation. by rewrite elem_of_map_to_list.
Qed.

(** The configuration of a pool key is that of its longest owner, in whatever order
    the map is iterated. *)
Lemma config_for_pool_key_Some pool_key configs config :
  config_for_pool_key pool_key configs = Some config
  <-> exists id, configs !! id = Some config /\ pool_key_belongs_to_connection pool_key id = true
        /\ forall id' config', configs !! id' = Some config' -> pool_key_belongs_to_connection pool_key id' = true ->
             id' `prefix_of` id.
Proof.
  unfold config_for_pool_key. set (l := List.filter _ _). pose proof (max_by_key_spec (fun entry => byte_len entry.1) l) as Hmax.
  destruct (max_by_key _ l) as [[id config0]|]; cbn [fmap option_fmap option_map snd].
  - destruct Hmax as [[Hid Hbel]%elem_of_owners Hmax]. split.
    + intros [= ->]. exists id. split_and!; [done..|]. intros id' config' Hid' Hbel'. eapply owners_same_length; [done..|].
      apply (Hmax (id', config')). by apply elem_of_owners.
    + intros (id1 & Hid1 & Hbel1 & Hall). f_equal.
      enough (id = id1) as -> by congruence. apply (anti_symm prefix); [by eapply Hall|].
      eapply owners_same_length; [done..|]. apply (Hmax (id1, config)). by apply elem_of_owners.
  - split; [done|]. intros (id & Hid & Hbel & _). assert ((id, config) ∈ l) as Hin by by apply elem_of_owners.
    rewrite Hmax in Hin. by apply elem_of_nil in Hin.
Qed.

(** pool keys resolve to their own connection.  Connection ids without a colon
    never shadow one another: the key of a connection, with or without a suffix for
    the database, catalog, role or session, finds the configuration of that very
    connection, also when the id of another is a prefix of its own. *)
Theorem pool_key_resolves (configs : gmap text ConnectionConfig) (id rest : text)
    (Hids : map_Forall (fun id' _ => colon ∉ id') configs) (Hid : colon ∉ id) :
  config_for_pool_key id configs = configs !! id
  /\ config_for_pool_key (id ++ colon :: rest) configs = configs !! id.
Proof.
  assert (forall pool_key, (pool_key = id \/ exists rest, pool_key = id ++ colon :: rest) ->
    config_for_pool_key pool_key configs = configs !! id) as Hmain; [|by split; apply Hmain; [left|right; exists rest]].
  intros pool_key Hkey. pose proof Hkey as Hown. rewrite <- pool_key_belongs_true in Hown.
  assert (forall id' config', configs !! id' = Some config' -> pool_key_belongs_to_connection pool_key id' = true -> id' = id) as Hall.
  { intros id' config' Hc%Hids Hb%pool_key_belongs_true.
    destruct Hkey as [ -> |[r ->]], Hb as [Hb|[r' Hb]]; [done|set_solver..|]. symmetry.
    eapply separator_prefix_inj; [..|done]; by apply Forall_forall; intros x Hx ->. }
  apply option_eq. intros config. rewrite config_for_pool_key_Some. split.
  - intros (id' & Hid' & Hbel & _). by rewrite <- (Hall id' config).
  - intros Hc. exists id. split_and!; [done..|]. intros id' config' Hid' Hbel. by rewrite (Hall id' config').
Qed.

End PoolKeys.

(** ** Tasks *)

(** What happened to the windows, newest first. *)
Inductive event : Set :=
| Granted (key : WriteUnlockKey) (duration : N) (expires_at : instant)
| Removed (key : WriteUnlockKey).

(** The window of a key after these events: granted, and neither locked nor expired since. *)
Fixpoint open_window (key : WriteUnlockKey) (log : list event) : option (N * instant) :=
  match log with
  | [] => None
  | Granted k duration expires_at :: log' => if decide (k = key) then Some (duration, expires_at) else open_window key log'
  | Removed k :: log' => if decide (k = key) then None else open_window key log'
  end.

Inductive request : Set :=
| Unlock (owner : option text) (connection_id : text) (duration_secs : N)
| Lock (owner : option text) (connection_id : text)
| RemainingMs (owner : option text) (connection_id : text)
| CheckReadOnly (owner : option text) (pool_key : text) (statements : list text).

(** Who asked how long a window remains. *)
Inductive caller : Set :=
| Session
| Gate (config : ConnectionConfig) (statements : list text).

Inductive outcome : Set :=
| Unlocked (r : result N)
| Locked
| Remains (key : WriteUnlockKey) (remaining : N) (now : instant)
| Unprotected (pool_key : text)
| Decided (owner : option text) (config : ConnectionConfig) (statements : list text) (remaining : N) (now : instant) (error : option text).

(** A task between two awaits. *)
Inductive task : Set :=
| Start (r : request)
| Inserting (key : WriteUnlockKey) (duration : N) (expires_at : instant)
| Reading (owner : option text) (connection_id : text) (for_ : caller)
| Checking (owner : option text) (connection_id : text) (for_ : caller) (expires_at : instant)
| Expiring (owner : option text) (connection_id : text) (for_ : caller) (now : instant)
| Done (o : outcome).

Record system : Set := mk_system {
  clock : instant;
  configs : gmap text ConnectionConfig;
  windows : WriteUnlockWindows;
  log : list event;
  tasks : list task
}.

Section Tasks.

Context `{CharTable, OracleTokenizer, CaseMap, WordTokenizer, JsonObject, HashOrder ConnectionConfig}.

(** The caller goes on with the answer. *)
Definition answer (owner : option text) (connection_id : text) (for_ : caller) (remaining : N) (now : instant) : task :=
  match for_ with
  | Session => Done (Remains (current owner connection_id) remaining now)
  | Gate config statements =>
      Done (Decided owner config statements remaining now
              (if (0 <? remaining)%N then None else check_read_only_all statements config))
  end.

(** One part of a task: the windows, the events, the task that is left. *)
Definition task_step (now : instant) (configs : gmap text ConnectionConfig) (inner : WriteUnlockWindows) (t : task)
    : option (WriteUnlockWindows * list event * task) :=
  match t with
  | Start (Unlock owner connection_id duration_secs) =>
      match unlock_request connection_id duration_secs now with
      | Ok (duration, expires_at) => Some (inner, [], Inserting (current owner connection_id) duration expires_at)
      | Err e => Some (inner, [], Done (Unlocked (Err e)))
      end
  | Inserting key duration expires_at =>
      Some (<[key := expires_at]> inner, [Granted key duration expires_at], Done (Unlocked (Ok (as_millis duration))))
  | Start (Lock owner connection_id) =>
      Some (lock owner connection_id inner, [Removed (current owner connection_id)], Done Locked)
  | Start (RemainingMs owner connection_id) => Some (inner, [], Reading owner connection_id Session)
  | Start (CheckReadOnly owner pool_key statements) =>
      match read_only_config pool_key configs with
      | Some config => Some (inner, [], Reading owner (config_id config) (Gate config statements))
      | None => Some (inner, [], Done (Unprotected pool_key))
      end
  | Reading owner connection_id for_ =>
      match inner !! current owner connection_id with
      | None => Some (inner, [], answer owner connection_id for_ 0 now)
      | Some expires_at => Some (inner, [], Checking owner connection_id for_ expires_at)
      end
  | Checking owner connection_id for_ expires_at =>
      if (expires_at <=? now)%N then Some (inner, [], Expiring owner connection_id for_ now)
      else Some (inner, [], answer owner connection_id for_ (as_millis (expires_at - now)) now)
  | Expiring owner connection_id for_ now =>
      Some (delete (current owner connection_id) inner, [Removed (current owner connection_id)], answer owner connection_id for_ 0 now)
  | Done _ => None
  end.

Inductive Step : system -> system -> Prop :=
| step_tick c cs w l ts elapsed : Step (mk_system c cs w l ts) (mk_system (c + elapsed)%N cs w l ts)
| step_configure c cs cs' w l ts : Step (mk_system c cs w l ts) (mk_system c cs' w l ts)
| step_spawn c cs w l ts r : Step (mk_system c cs w l ts) (mk_system c cs w l (ts ++ [Start r]))
| step_task c cs w l ts i t w' new t' :
    ts !! i = Some t -> task_step c cs w t = Some (w', new, t') ->
    Step (mk_system c cs w l ts) (mk_system c cs w' (new ++ l) (<[i := t']> ts)).

Definition boot : system := mk_system 0%N ∅ ∅ [] [].

Definition Reachable (s : system) : Prop := rtc Step boot s.

(** *** The invariant *)

(** [key]'s window was open in the past of [l], and [now] lies in it. *)
Definition Authorised (l : list event) (key : WriteUnlockKey) (expires_at now : instant) : Prop :=
  exists newer older duration, l = newer ++ older
    /\ open_window key older = Some (duration, expires_at)
    /\ (duration = from_secs 60 \/ duration = from_secs 300)
    /\ (expires_at <= now + duration)%N /\ (now < expires_at)%N.

(** The same for a window that was read and not yet compared with the clock. *)
Definition WasRead (c : instant) (l : list event) (key : WriteUnlockKey) (expires_at : instant) : Prop :=
  exists newer older duration, l = newer ++ older
    /\ open_window key older = Some (duration, expires_at)
    /\ (duration = from_secs 60 \/ duration = from_secs 300) /\ (expires_at <= c + duration)%N.

Definition outcome_ok (c : instant) (l : list event) (o : outcome) : Prop :=
  match o with
  | Remains key remaining now =>
      remaining = 0%N \/ exists expires_at, Authorised l key expires_at now /\ remaining = as_millis (expires_at - now)
  | Decided owner config statements remaining now error =>
      config_read_only config = true /\
      ((remaining = 0%N /\ error = check_read_only_all statements config)
       \/ exists expires_at, Authorised l (current owner (config_id config)) expires_at now
            /\ remaining = as_millis (expires_at - now))
  | _ => True
  end.

Definition caller_ok (connection_id : text) (for_ : caller) : Prop :=
  match for_ with
  | Session => True
  | Gate config statements => config_read_only config = true /\ connection_id = config_id config
  end.

Definition task_ok (c : instant) (l : list event) (t : task) : Prop :=
  match t with
  | Start _ => True
  | Inserting key duration expires_at =>
      (duration = from_secs 60 \/ duration = from_secs 300) /\ (expires_at <= c + duration)%N
  | Reading owner connection_id for_ | Expiring owner connection_id for_ _ => caller_ok connection_id for_
  | Checking owner connection_id for_ expires_at =>
      caller_ok connection_id for_ /\ WasRead c l (current owner connection_id) expires_at
  | Done o => outcome_ok c l o
  end.

Definition GateInv (s : system) : Prop :=
  (forall key, windows s !! key = snd <$> open_window key (log s))
  /\ (forall key duration expires_at, open_window key (log s) = Some (duration, expires_at) ->
        (duration = from_secs 60 \/ duration = from_secs 300) /\ (expires_at <= clock s + duration)%N)
  /\ Forall (task_ok (clock s) (log s)) (tasks s).

Lemma authorised_later l new key expires_at now : Authorised l key expires_at now -> Authorised (new ++ l) key expires_at now.
Proof. intros (newer & older & d & -> & Hw). exists (new ++ newer), older, d. by rewrite <- app_assoc. Qed.

Lemma was_read_later c c' l new key expires_at : (c <= c')%N -> WasRead c l key expires_at -> WasRead c' (new ++ l) key expires_at.
Proof.
  intros Hc (newer & older & d & -> & Hw & Hd & He). exists (new ++ newer), older, d. rewrite <- app_assoc. split_and!; [done..|lia].
Qed.

Lemma task_ok_later c c' l new t : (c <= c')%N -> task_ok c l t -> task_ok c' (new ++ l) t.
Proof.
  intros Hc. destruct t as [r|key d e|owner id for_|owner id for_ e|owner id for_ now|o]; cbn; try done.
  - intros [Hd He]. split; [done|lia].
  - intros [Hf Hr]. split; [done|by eapply was_read_later].
  - destruct o; cbn; try done.
    + intros [?|(e & Ha & ->)]; [by left|right]. exists e. split; [by apply authorised_later|done].
    + intros [Hr [?|(e & Ha & ->)]]; (split; [done|]); [by left|right]. exists e. split; [by apply authorised_later|done].
Qed.

Lemma tasks_ok_later c c' l new ts : (c <= c')%N -> Forall (task_ok c l) ts -> Forall (task_ok c' (new ++ l)) ts.
Proof. intros Hc Hts. eapply Forall_impl; [done|]. intros t. by apply task_ok_later. Qed.

(** The answer to a caller is as good as the window it was read from. *)
Lemma answer_ok c l owner id for_ remaining now :
  caller_ok id for_ ->
  (remaining = 0%N \/ exists e, Authorised l (current owner id) e now /\ remaining = as_millis (e - now)) ->
  task_ok c l (answer owner id for_ remaining now).
Proof.
  destruct for_ as [|config statements]; cbn; [done|]. intros [Hro ->] Hr. split; [done|].
  destruct Hr as [-> |Hr]; [by left|by right].
Qed.

Lemma parse_duration_Ok secs d : parse_duration_secs secs = Ok d -> d = from_secs 60 \/ d = from_secs 300.
Proof. unfold parse_duration_secs. repeat case_match; intros [= <-]; auto. Qed.

(** The windows are what the log says, before and after a part of a task. *)
Lemma task_step_inv c cs w l ts i t w' new t' :
  GateInv (mk_system c cs w l ts) -> ts !! i = Some t -> task_step c cs w t = Some (w', new, t') ->
  (forall key, w' !! key = snd <$> open_window key (new ++ l))
  /\ (forall key d e, open_window key (new ++ l) = Some (d, e) -> (d = from_secs 60 \/ d = from_secs 300) /\ (e <= c + d)%N)
  /\ task_ok c (new ++ l) t'.
Proof.
  intros (Hw & Hl & Hts) Hi Hstep. cbn in Hw, Hl, Hts. pose proof (proj1 (Forall_lookup _ _) Hts _ _ Hi) as Ht.
  destruct t as [[owner id secs|owner id|owner id|owner pk sts]|key d e|owner id for_|owner id for_ e|owner id for_ now|o];
    cbn [task_step] in Hstep; cbn [task_ok] in Ht.
  - destruct (unlock_request id secs c) as [[d e]|err] eqn:Hu; injection Hstep as <- <- <-; cbn; [|done].
    split_and!; [done..| |]; unfold unlock_request in Hu; repeat case_match; simplify_eq; [by eapply parse_duration_Ok|lia].
  - injection Hstep as <- <- <-. cbn [app open_window]. split_and!; [..|done].
    + intros key. unfold lock. case_decide; subst; [by rewrite lookup_delete_eq|by rewrite lookup_delete_ne].
    + intros key d e. case_decide; [done|apply Hl].
  - injection Hstep as <- <- <-. by cbn.
  - destruct (read_only_config pk cs) as [config|] eqn:Hc; injection Hstep as <- <- <-; cbn; [|done].
    split_and!; [done..| |done]. unfold read_only_config in Hc. by repeat case_match; simplify_eq.
  - injection Hstep as <- <- <-. cbn [app open_window]. split_and!; [..|done].
    + intros k. case_decide; subst; [by rewrite lookup_insert_eq|by rewrite lookup_insert_ne].
    + intros k d' e'. case_decide; [by intros [= <- <-]|apply Hl].
  - pose proof (Hw (current owner id)) as Hk. destruct (w !! current owner id) as [e|]; injection Hstep as <- <- <-; cbn [app].
    + split_and!; [done..|]. split; [done|]. destruct (open_window _ l) as [[d e']|] eqn:Ho; [|done]. injection Hk as ->.
      destruct (Hl _ _ _ Ho). by exists [], l, d.
    + split_and!; [done..|]. apply answer_ok; [done|by left].
  - destruct Ht as [Hf Hr]. destruct (N.leb_spec e c); injection Hstep as <- <- <-; cbn [app]; split_and!; try done.
    apply answer_ok; [done|right]. exists e. split; [|done]. destruct Hr as (newer & older & d & -> & Ho & Hd & He).
    by exists newer, older, d.
  - injection Hstep as <- <- <-. cbn [app open_window]. split_and!.
    + intros key. case_decide; subst; [by rewrite lookup_delete_eq|by rewrite lookup_delete_ne].
    + intros key d e. case_decide; [done|apply Hl].
    + apply answer_ok; [done|by left].
  - done.
Qed.

Lemma gate_inv_step s s' : Step s s' -> GateInv s -> GateInv s'.
Proof.
  intros Hs Hinv. destruct Hs as [c cs w l ts d|c cs cs' w l ts|c cs w l ts r|c cs w l ts i t w' new t' Hi Ht].
  - destruct Hinv as (Hw & Hl & Hts). split_and!; [done| |apply (tasks_ok_later c _ l []); [cbn; lia|done]].
    cbn in *. intros key dur e Ho. destruct (Hl _ _ _ Ho). split; [done|lia].
  - done.
  - destruct Hinv as (Hw & Hl & Hts). split_and!; [done..|]. cbn. apply Forall_app. split; [done|by repeat constructor].
  - destruct (task_step_inv _ _ _ _ _ _ _ _ _ _ Hinv Hi Ht) as (Hw & Hl & Hok). split_and!; [done..|]. cbn.
    apply Forall_insert; [|done]. by apply (tasks_ok_later c); [lia|apply Hinv].
Qed.

Lemma reachable_inv s : Reachable s -> GateInv s.
Proof.
  intros Hr. refine (rtc_ind_r GateInv boot _ _ s Hr).
  - split_and!; cbn; [by intros; rewrite lookup_empty|done|constructor].
  - intros; by eapply gate_inv_step.
Qed.

(** C12: the gate lets a write through only in an open window.  In every interleaving
    of unlocks, locks, status queries and gate checks, with the clock and the
    configurations moving on in between: if a statement list with a write among
    its statements is let through on a read-only connection, then at that moment
    the clock was inside a window of one or five minutes that was granted to the
    same owner for the same connection, and that window was the latest event of
    its key (neither locked nor expired) when the gate read it. *)
Theorem gate_writes_are_authorised (s : system) (Hreach : Reachable s) (i : nat) (owner : option text)
    (config : ConnectionConfig) (statements : list text) (remaining : N) (now : instant) (sql : text)
    (Htask : tasks s !! i = Some (Done (Decided owner config statements remaining now None)))
    (Hsql : sql ∈ statements) (Hwrite : is_write_sql_for_database sql (config_db_type config) = true) :
  config_read_only config = true
  /\ exists expires_at, Authorised (log s) (current owner (config_id config)) expires_at now.
Proof.
  destruct (reachable_inv s Hreach) as (_ & _ & Hts).
  destruct (proj1 (Forall_lookup _ _) Hts _ _ Htask) as [Hro [[_ Hnone]|(e & Ha & _)]]; (split; [done|]); [exfalso|by exists e].
  clear -Hsql Hwrite Hnone. induction statements as [|x xs IH]; [by apply not_elem_of_nil in Hsql|]. cbn in Hnone.
  apply elem_of_cons in Hsql as [<-|Hsql].
  - unfold check_read_only in Hnone. by rewrite Hwrite in Hnone.
  - case_match; [done|by apply IH].
Qed.

(** *** A task that runs alone *)

Fixpoint run_alone (fuel : nat) (now : instant) (cs : gmap text ConnectionConfig) (w : WriteUnlockWindows) (t : task)
    : WriteUnlockWindows * task :=
  match fuel, task_step now cs w t with
  | S fuel', Some (w', _, t') => run_alone fuel' now cs w' t'
  | _, _ => (w, t)
  end.

(** Undisturbed, the parts of a task make up the operation. *)
Lemma remaining_alone now cs w owner id for_ :
  run_alone 3 now cs w (Reading owner id for_)
  = let '(w', remaining) := remaining_ms owner id now w in (w', answer owner id for_ remaining now).
Proof.
  unfold remaining_ms, remaining_ms_of, remaining_ms_from. cbn [run_alone task_step].
  destruct (w !! current owner id) as [e|].
  - cbn [run_alone task_step]. by destruct (e <=? now)%N, for_.
  - by destruct for_.
Qed.

Lemma unlock_alone now cs w owner id secs :
  run_alone 2 now cs w (Start (Unlock owner id secs))
  = let '(w', r) := unlock owner id secs now w in (w', Done (Unlocked r)).
Proof. unfold unlock. cbn. by destruct (unlock_request id secs now) as [[d e]|err]. Qed.

Definition verdict (t : task) : option text :=
  match t with Done (Decided _ _ _ _ _ error) => error | _ => None end.

Lemma gate_alone now cs w owner pool_key statements :
  let '(w', t) := run_alone 4 now cs w (Start (CheckReadOnly owner pool_key statements)) in
  (w', verdict t) = check_read_only_for_connection_multi cs owner now pool_key statements w
  /\ exists o, t = Done o.
Proof.
  unfold check_read_only_for_connection_multi. change 4 with (S 3). cbn [run_alone task_step].
  destruct (read_only_config pool_key cs) as [config|]; [|by split; [|eexists]].
  pose proof (remaining_alone now cs w owner (config_id config) (Gate config statements)) as Hr. cbn [run_alone] in Hr. rewrite Hr.
  unfold is_active. destruct (remaining_ms _ _ _ _) as [w' n]. by split; [|eexists].
Qed.

(** *** Schedules *)

Inductive move : Set :=
| Tick (elapsed : N)
| Configure (cs : gmap text ConnectionConfig)
| Spawn (r : request)
| Run (i : nat).

Definition make_move (m : move) (s : system) : system :=
  match m with
  | Tick elapsed => mk_system (clock s + elapsed)%N (configs s) (windows s) (log s) (tasks s)
  | Configure cs => mk_system (clock s) cs (windows s) (log s) (tasks s)
  | Spawn r => mk_system (clock s) (configs s) (windows s) (log s) (tasks s ++ [Start r])
  | Run i =>
      match tasks s !! i with
      | Some t =>
          match task_step (clock s) (configs s) (windows s) t with
          | Some (w', new, t') => mk_system (clock s) (configs s) w' (new ++ log s) (<[i := t']> (tasks s))
          | None => s
          end
      | None => s
      end
  end.

Definition run_moves (ms : list move) (s : system) : system := fold_left (fun s m => make_move m s) ms s.

Lemma run_moves_reachable ms : Reachable (run_moves ms boot).
Proof.
  unfold Reachable. induction ms as [|m ms IH] using rev_ind; [done|]. unfold run_moves in *. rewrite fold_left_app. cbn [fold_left].
  destruct (fold_left _ ms boot) as [c cs w l ts]. destruct m as [d|cs'|r|i]; cbn.
  - eapply rtc_r; [done|constructor].
  - eapply rtc_r; [done|constructor].
  - eapply rtc_r; [done|constructor].
  - destruct (ts !! i) as [t|] eqn:Hi; [|done]. destruct (task_step c cs w t) as [[[w' new] t']|] eqn:Ht; [|done].
    eapply rtc_r; [done|by econstructor].
Qed.

End Tasks.

(** ** Concrete runs *)

Section Examples.

#[local] Existing Instance latin1_table.
#[local] Existing Instance fallback_tokenizer.
#[local] Instance gate_case : CaseMap := {| nonascii_upper c := [c]; nonascii_lower _ c _ := [c] |}.
#[local] Instance gate_words : WordTokenizer := {| tokenize_words _ _ := None |}.
#[local] Instance gate_json : JsonObject := {| JsonValue := unit; parse_json _ := None; get_str _ _ := None |}.
#[local] Instance in_key_order : HashOrder ConnectionConfig := {| iter := map_to_list; iter_permutation _ := reflexivity _ |}.

Definition prod : ConnectionConfig := mk_config %"prod" %"Production" Mysql true.
Definition prod_configs : gmap text ConnectionConfig := <[%"prod" := prod]> (<[%"prod-2" := mk_config %"prod-2" %"Copy" Mysql false]> ∅).

Definition insert_row : text := %"INSERT INTO t VALUES (1)".

(** A window of a minute; after 59 seconds a write is let through. *)
Definition granted_run : list move :=
  [Configure prod_configs; Spawn (Unlock (Some %"s1") %"prod" 60%N); Run 0; Tick 5; Run 0; Tick (from_secs 59);
   Spawn (CheckReadOnly (Some %"s1") %"prod:app" [%"SELECT 1"; insert_row]); Run 1; Run 1; Run 1].

Definition granted_state : system := run_moves granted_run boot.

Lemma granted_task :
  tasks granted_state !! 1 = Some (Done (Decided (Some %"s1") prod [%"SELECT 1"; insert_row] 999%N 59000000005%N None)).
Proof. vm_compute. reflexivity. Qed.

Lemma gate_writes_are_authorised_witness :
  config_read_only prod = true
  /\ exists expires_at, Authorised (log granted_state) (current (Some %"s1") (config_id prod)) expires_at 59000000005%N.
Proof.
  apply (gate_writes_are_authorised granted_state (run_moves_reachable granted_run) 1 (Some %"s1") prod
           [%"SELECT 1"; insert_row] 999%N 59000000005%N insert_row granted_task).
  - apply list_elem_of_further, list_elem_of_here.
  - vm_compute. reflexivity.
Defined.

(** Another session, and the same one after a minute, are refused. *)
Lemma others_are_refused :
  let refused o pool_key s := check_read_only_for_connection (configs s) o (clock s) pool_key insert_row (windows s) in
  snd (refused (Some %"s1") %"prod" granted_state) = None
  /\ snd (refused (Some %"s2") %"prod" granted_state) <> None
  /\ snd (refused None %"prod:app" granted_state) <> None
  /\ snd (refused (Some %"s2") %"prod-2" granted_state) = None
  /\ snd (refused (Some %"s1") %"prod" (run_moves [Tick (from_secs 1)] granted_state)) <> None.
Proof. vm_compute. split_and!; first [reflexivity|discriminate]. Qed.

(** A status query that found an expired window removes the key later, without
    looking again: the window that was granted in between is gone. *)
Definition stale_run : list move :=
  [Configure prod_configs; Spawn (Unlock None %"prod" 60); Run 0; Run 0; Tick (from_secs 61);
   Spawn (RemainingMs None %"prod"); Run 1; Run 1; Run 1;
   Spawn (Unlock None %"prod" 300); Run 2; Run 2;
   Run 1].

Lemma stale_query_removes_a_fresh_window :
  let s := run_moves stale_run boot in
  tasks s !! 2 = Some (Done (Unlocked (Ok 300000%N))) /\ windows s = ∅
  /\ snd (check_read_only_for_connection (configs s) None (clock s) %"prod" insert_row (windows s)) <> None.
Proof. vm_compute. split_and!; first [reflexivity|discriminate]. Qed.

Lemma prod_keys : map_Forall (fun id' (_ : ConnectionConfig) => colon ∉ id') prod_configs.
Proof.
  unfold prod_configs. repeat apply map_Forall_insert_2; [..|apply map_Forall_empty];
    (intros Hin; apply list_elem_of_In in Hin; vm_compute in Hin; by repeat destruct Hin as [Hin|Hin]).
Qed.

Lemma pool_key_resolves_witness :
  config_for_pool_key %"prod" prod_configs = prod_configs !! (%"prod" : text)
  /\ config_for_pool_key (%"prod" ++ colon :: %"app") prod_configs = prod_configs !! (%"prod" : text).
Proof.
  apply (pool_key_resolves prod_configs %"prod" %"app" prod_keys).
  intros Hin. apply list_elem_of_In in Hin. vm_compute in Hin. by repeat destruct Hin as [Hin|Hin].
Defined.

End Examples.
