(* ===== verification/BatchProgress.v ===== *)
(** * BatchProgress: coalesced progress of a statement batch ([query/batch_progress.rs]).

    The core reports every statement, the coalescer forwards at most one success per
    interval and every failure at once.  [emit] appends to [emitted]; both
    operations hold the lock, so they happen one after the other.  The loop of
    [with_coalesced_execute_multi_progress] polls the batch for an interval and
    flushes, until the batch is done: it is given here by the reports of each
    interval, the last of which ends with the batch. *)

From S2P Require Import Prelude.

Section Progress.

(** [BackendError] is only passed on. *)
Context {BackendError : Type}.

Record ExecuteMultiProgress : Type := mk_progress {
  statement_index : N;
  completed : N;
  total : N;
  success : bool;
  execution_time_ms : N;
  affected_rows : N;
  error : option BackendError
}.

Record ProgressCoalescer : Type := mk_coalescer { emitted : list ExecuteMultiProgress; pending : option ExecuteMultiProgress }.

Definition emit_pending (self : ProgressCoalescer) : list ExecuteMultiProgress :=
  match pending self with Some previous => emitted self ++ [previous] | None => emitted self end.

Definition report (self : ProgressCoalescer) (progress : ExecuteMultiProgress) : ProgressCoalescer :=
  if success progress then mk_coalescer (emitted self) (Some progress)
  else mk_coalescer (emit_pending self ++ [progress]) None.

Definition flush (self : ProgressCoalescer) : ProgressCoalescer := mk_coalescer (emit_pending self) None.

(** The events that reach [emit], in order. *)
Definition with_coalesced_execute_multi_progress (intervals : list (list ExecuteMultiProgress)) : list ExecuteMultiProgress :=
  emitted (fold_left (fun self reports => flush (fold_left report reports self)) intervals (mk_coalescer [] None)).

(** ** The promise

    Of the reports of one interval, all but the successes that the next report
    supersedes. *)
Fixpoint settled (reports : list ExecuteMultiProgress) : list ExecuteMultiProgress :=
  match reports with
  | [] => []
  | p :: rest =>
      if success p && match rest with q :: _ => success q | [] => false end then settled rest else p :: settled rest
  end.

(** Only successes wait. *)
Definition waits_for_success (self : ProgressCoalescer) : Prop := forall p, pending self = Some p -> success p = true.

Lemma report_waits self p : waits_for_success (report self p).
Proof. unfold report. destruct (success p) eqn:Hp; intros q; cbn; [by intros [= <-]|done]. Qed.

Lemma reports_settled reports : forall self,
  waits_for_success self ->
  emit_pending (fold_left report reports self)
  = emitted self ++ settled (match pending self with Some p => p :: reports | None => reports end).
Proof.
  induction reports as [|p reports IH]; intros self Hself; cbn [fold_left].
  - unfold emit_pending. destruct (pending self) as [q|]; cbn; [by rewrite andb_false_r|by rewrite app_nil_r].
  - rewrite IH by apply report_waits. unfold report, emit_pending. destruct (pending self) as [q|] eqn:Hq.
    + assert (success q = true) as Hs by by apply Hself.
      destruct (success p) eqn:Hp; cbn [emitted pending settled]; rewrite Hs, Hp; cbn [andb]; by rewrite <- ?app_assoc.
    + destruct (success p) eqn:Hp; cbn [emitted pending settled]; rewrite Hp; cbn [andb]; by rewrite <- ?app_assoc.
Qed.

Lemma intervals_settled intervals : forall self,
  pending self = None ->
  emitted (fold_left (fun self reports => flush (fold_left report reports self)) intervals self)
  = emitted self ++ (intervals ≫= settled).
Proof.
  induction intervals as [|reports intervals IH]; intros self Hself; cbn [fold_left]; [by rewrite app_nil_r|].
  rewrite IH by done. cbn [flush emitted]. rewrite reports_settled by by intros p; rewrite Hself.
  rewrite Hself, <- app_assoc. done.
Qed.

Lemma settled_sublist reports : settled reports `sublist_of` reports.
Proof.
  induction reports as [|p reports IH]; cbn; [done|]. destruct (success p && _); [by apply sublist_cons|by apply sublist_skip].
Qed.

Definition failures (reports : list ExecuteMultiProgress) : list ExecuteMultiProgress :=
  List.filter (fun p => negb (success p)) reports.

Lemma settled_failures reports : failures (settled reports) = failures reports.
Proof.
  unfold failures. induction reports as [|p reports IH]; [done|]. cbn [settled List.filter].
  destruct (success p && _) eqn:Hc; [apply andb_true_iff in Hc as [-> _]; exact IH|].
  cbn [List.filter]. by rewrite IH.
Qed.

Lemma settled_last reports : last (settled reports) = last reports.
Proof.
  induction reports as [|p reports IH]; [done|]. cbn [settled]. destruct (success p && _) eqn:Hc.
  - destruct reports as [|q reports]; [by rewrite andb_false_r in Hc|done].
  - by rewrite !last_cons, IH.
Qed.

(** C37: progress is settled.  After every interval, the last one included, exactly
    the settled reports have been forwarded: in the order of the reports, every
    failure among them, and the latest report of all last, so that the outcome of
    every statement reported so far is known. *)
Theorem progress_is_settled (intervals : list (list ExecuteMultiProgress)) :
  let forwarded := with_coalesced_execute_multi_progress intervals in
  forwarded = intervals ≫= settled
  /\ forwarded `sublist_of` concat intervals
  /\ failures forwarded = failures (concat intervals)
  /\ last forwarded = last (concat intervals).
Proof.
  cbv zeta. unfold with_coalesced_execute_multi_progress. rewrite intervals_settled by done. cbn [emitted app].
  split; [done|]. induction intervals as [|reports intervals (IHs & IHf & IHl)]; [done|]. cbn [mbind list_bind concat]. split_and!.
  - apply sublist_app; [apply settled_sublist|done].
  - unfold failures in *. rewrite !List.filter_app. f_equal; [apply settled_failures|done].
  - rewrite !last_app. fold (mbind settled intervals). by rewrite settled_last; setoid_rewrite IHl.
Qed.

(** Reports of an interval without a failure make one event at most. *)
Lemma one_success_per_interval reports : failures reports = [] -> length (settled reports) <= 1.
Proof.
  unfold failures. induction reports as [|p reports IH]; cbn; [lia|]. destruct (success p); [|done]. cbn. intros Hf.
  destruct reports as [|q reports]; [cbn; lia|]. cbn in Hf. destruct (success q) eqn:Hq; [|done]. apply IH. cbn. by rewrite Hq.
Qed.

End Progress.
