(* ===== verification/CsvExport.v ===== *)
(** * CsvExport: delimited text ([dbx-formats], [csv_export.rs]).

    The sources append to a buffer ([out: &mut String]); here a function returns what
    it appends.  Formula guards: a cell that a spreadsheet would evaluate gets an
    apostrophe in front, once per cell.

    A JSON value comes from serde_json: numbers and trees (arrays and objects) are
    given by how they are displayed (class [JsonDisplay]; a tree is written in
    fragments).  Byte tests are for ASCII characters only, so they are tests of
    characters. *)

From S2P Require Import Prelude.

Inductive CsvQuoteMode : Set := All | Necessary.

#[export] Instance CsvQuoteMode_eq_dec : EqDecision CsvQuoteMode.
Proof. solve_decision. Defined.

Definition DEFAULT_CSV_NULL_LITERAL : text := %"\N".

Definition csv_null_literal (raw : text) : option text := if is_empty raw then None else Some raw.

Definition default_csv_null_literal : text := DEFAULT_CSV_NULL_LITERAL.

(** ** Formula guards *)

Definition tab : char := 9%N.
Definition plus : char := 43%N.
Definition at_sign : char := 64%N.
Definition dot : char := 46%N.
Definition equal_sign : char := 61%N.

Definition FORMULA_TRIGGER_BYTES : list char := [equal_sign; plus; dash; at_sign; tab; cr].

Definition EXCEL_SIGNIFICANT_DIGIT_LIMIT : nat := 15.

Definition at_sign_begins_excel_formula (rest : text) : bool :=
  match rest with c :: _ => (c <? 128)%N | [] => false end.

Definition valid_digits (part : text) : bool := negb (is_empty part) && forallb is_ascii_digit part.

Definition is_excel_exact_decimal_literal (value : text) : bool :=
  let digits :=
    match value with
    | c :: value' => if (c =? plus)%N || (c =? dash)%N then value' else value
    | [] => value
    end in
  let before := take_while (fun c => negb (c =? dot)%N) digits in
  let valid :=
    match drop (length before) digits with
    | _ :: after => valid_digits before && valid_digits after
    | [] => valid_digits digits
    end in
  valid
  && (length (drop_while (N.eqb 48) (List.filter (fun c => negb (c =? dot)%N) digits)) <=? EXCEL_SIGNIFICANT_DIGIT_LIMIT).

Definition needs_formula_guard (value : text) : bool :=
  match drop_while (N.eqb space) value with
  | c :: rest =>
      if (c =? dash)%N && is_excel_exact_decimal_literal rest then false
      else if (c =? at_sign)%N && negb (at_sign_begins_excel_formula rest) then false
      else existsb (N.eqb c) FORMULA_TRIGGER_BYTES
  | [] => false
  end.

(** The guard in front of a value: nothing or an apostrophe. *)
Definition push_formula_guard (value : text) : text :=
  match value with
  | c :: value' =>
      if (c =? squote)%N then (if head_is squote value' || needs_formula_guard value' then [squote] else [])
      else if needs_formula_guard value then [squote] else []
  | [] => []
  end.

Definition strip_formula_guard (value : text) : text :=
  match value with
  | c :: value' => if (c =? squote)%N && (head_is squote value' || needs_formula_guard value') then value' else value
  | [] => value
  end.

(** ** Fields *)

(** Quotes doubled. *)
Definition push_csv_escaped_content (value : text) : text :=
  value ≫= fun c => if (c =? dquote)%N then [dquote; dquote] else [c].

Definition push_csv_escaped (value : text) : text := [dquote] ++ push_csv_escaped_content value ++ [dquote].

Definition csv_field_needs_quotes (value : text) : bool :=
  existsb (fun c => existsb (N.eqb c) [comma; dquote; nl; cr]) value.

Definition push_csv_field (value : text) (quote_mode : CsvQuoteMode) : text :=
  if bool_decide (quote_mode = All) || csv_field_needs_quotes value
  then [dquote] ++ push_formula_guard value ++ push_csv_escaped_content value ++ [dquote]
  else push_formula_guard value ++ value.

(** ** Values *)

Class JsonDisplay := {
  JNumber : Type;
  JTree : Type;
  display_number : JNumber -> text;
  display_tree : JTree -> list text
}.

Section Values.

Context `{JsonDisplay}.

Inductive Value : Type :=
| Null
| Bool (b : bool)
| Number (n : JNumber)
| String (s : text)
| Tree (t : JTree).

Definition is_null (value : Value) : bool := match value with Null => true | _ => false end.

Definition display_bool (b : bool) : text := if b then %"true" else %"false".

Definition push_csv_text_value (value : Value) : text :=
  [dquote]
  ++ match value with
     | Null => []
     | String s => push_formula_guard s ++ push_csv_escaped_content s
     | Bool b => display_bool b
     | Number n => display_number n
     | Tree t => display_tree t ≫= push_csv_escaped_content
     end
  ++ [dquote].

Definition push_csv_value_with_quote_mode (value : Value) (quote_mode : CsvQuoteMode) (quote_null : bool) (null_literal : option text)
    : text :=
  match value, null_literal with
  | Null, Some literal => push_csv_field literal Necessary
  | _, _ =>
      if bool_decide (quote_mode = All) then (if is_null value && negb quote_null then [] else push_csv_text_value value)
      else
        match value with
        | Null => []
        | String s => push_csv_field s quote_mode
        | Bool b => display_bool b
        | Number n => display_number n
        | Tree t => push_csv_field (concat (display_tree t)) quote_mode
        end
  end.

Definition push_tsv_escaped (value : text) : text :=
  if existsb (fun c => existsb (N.eqb c) [tab; nl; cr; dquote]) value
  then [dquote] ++ push_formula_guard value ++ push_csv_escaped_content value ++ [dquote]
  else push_formula_guard value ++ value.

Definition push_tsv_value (value : Value) (null_literal : option text) : text :=
  match value, null_literal with
  | Null, Some literal => push_tsv_escaped literal
  | Null, None => []
  | String s, _ => push_tsv_escaped s
  | Bool b, _ => display_bool b
  | Number n, _ => display_number n
  | Tree t, _ => push_tsv_escaped (concat (display_tree t))
  end.

(** ** Rows *)

Definition push_tsv_row (row : list Value) (null_literal : option text) : text :=
  join [tab] (map (fun cell => push_tsv_value cell null_literal) row).

Definition push_query_result_csv_row_with_options (row : list Value) (quote_mode : CsvQuoteMode) (null_literal : option text) : text :=
  join [comma] (map (fun cell => push_csv_value_with_quote_mode cell quote_mode false null_literal) row).

Definition push_query_result_csv_row_with_quote_mode (row : list Value) (quote_mode : CsvQuoteMode) : text :=
  push_query_result_csv_row_with_options row quote_mode None.

Definition push_query_result_csv_row (row : list Value) : text := push_query_result_csv_row_with_quote_mode row All.

Definition push_table_csv_row_with_options (row : list Value) (quote_mode : CsvQuoteMode) (null_literal : option text) : text :=
  join [comma] (map (fun cell => push_csv_value_with_quote_mode cell quote_mode true null_literal) row).

Definition push_table_csv_row_with_quote_mode (row : list Value) (quote_mode : CsvQuoteMode) : text :=
  push_table_csv_row_with_options row quote_mode None.

Definition push_table_csv_row (row : list Value) : text := push_table_csv_row_with_quote_mode row All.

Definition push_tsv_rows (rows : list (list Value)) (null_literal : option text) : text :=
  join [nl] (map (fun row => push_tsv_row row null_literal) rows).

Definition format_tsv_rows (rows : list (list Value)) : text := push_tsv_rows rows None.

Definition format_tsv (columns : list text) (rows : list (list Value)) : text :=
  join [tab] (map push_tsv_escaped columns) ++ [nl] ++ push_tsv_rows rows None.

Definition push_query_result_csv_rows (rows : list (list Value)) : text := join [nl] (map push_query_result_csv_row rows).

Definition format_csv (columns : list text) (rows : list (list Value)) : text :=
  join [comma] (map (fun column => push_csv_field column All) columns) ++ [nl] ++ push_query_result_csv_rows rows.

Definition format_csv_with_options (columns : list text) (rows : list (list Value)) (quote_mode : CsvQuoteMode)
    (null_literal : option text) : text :=
  join [comma] (map (fun column => push_csv_field column quote_mode) columns) ++ [nl]
  ++ join [nl] (map (fun row => push_query_result_csv_row_with_options row quote_mode null_literal) rows).

Definition format_csv_with_quote_mode (columns : list text) (rows : list (list Value)) (quote_mode : CsvQuoteMode) : text :=
  format_csv_with_options columns rows quote_mode None.

(** [write_csv_value_row_with_options] writes the cells one by one; a writer that
    fails ends it, here all that was written. *)
Definition write_csv_value_row_with_options (values : list Value) (quote_mode : CsvQuoteMode) (null_literal : option text) : text :=
  join [comma] (map (fun value => push_csv_value_with_quote_mode value quote_mode false null_literal) values).

Definition write_csv_text_row (values : list text) (quote_mode : CsvQuoteMode) : text :=
  join [comma] (map (fun value => push_csv_field value quote_mode) values).

End Values.
