(* ===== verification/CsvImport.v ===== *)
(** * CsvImport: reading delimited text back ([data/table_import.rs], [data/mongodb_import_export.rs]).

    The records come from the csv crate (class [CsvReader], with the part of RFC 4180
    that the importers rely on); what is modelled is what the importers make of them:
    the effective configuration, the row range, the headers, the cells. *)

From S2P Require Import Prelude StateStore WriteClass CsvExport.

Inductive TableImportSourceFormat : Set := Csv | Tsv | Delimited | Json | Excel | Sql | Parquet.

(** The options the delimited formats use. *)
Record TableImportParseOptions : Set := mk_options {
  opt_delimiter : option text;
  opt_decimal_separator : option text;
  opt_has_header : option bool;
  opt_title_row : option nat;
  opt_data_start_row : option nat;
  opt_last_data_row : option nat;
  opt_trim_values : option bool;
  opt_empty_string_as_null : option bool;
  opt_null_literal : option text
}.

Definition default_options : TableImportParseOptions :=
  mk_options None None None None None None (Some false) (Some true) None.

Record ImportRowRange : Set := mk_range { title_row : option nat; data_start_row : nat; last_data_row : option nat }.

Record DelimitedParseConfig : Set := mk_config {
  delimiter : char;
  decimal_separator : char;
  trim_values : bool;
  empty_string_as_null : bool;
  null_literal : option text;
  row_range : ImportRowRange
}.

Definition effective_delimited_null_literal (raw : option text) : option text :=
  match raw with
  | None => Some DEFAULT_CSV_NULL_LITERAL
  | Some raw => csv_null_literal raw
  end.

Definition effective_import_row_range (options : TableImportParseOptions) : result ImportRowRange :=
  let title_row :=
    match opt_title_row options with
    | Some 0 => None
    | Some row => Some row
    | None => if default true (opt_has_header options) then Some 1 else None
    end in
  let data_start_row := default (match title_row with Some row => S row | None => 1 end) (opt_data_start_row options) in
  let last_data_row := match opt_last_data_row options with Some (S row) => Some (S row) | _ => None end in
  if data_start_row =? 0 then Err %"Data start row must be at least 1"
  else if match title_row with Some row => data_start_row <=? row | None => false end
  then Err %"Title row must be before the data start row"
  else if match last_data_row with Some last => last <? data_start_row | None => false end
  then Err %"Last data row must be 0 or not less than the data start row"
  else Ok (mk_range title_row data_start_row last_data_row).

Definition effective_delimiter (source_format : TableImportSourceFormat) (raw : option text) : result char :=
  let default_delimiter := match source_format with Tsv => tab | _ => comma end in
  match raw with
  | None | Some [] => Ok default_delimiter
  | Some value =>
      if text_in value [%"\t"; %"tab"; %"TAB"] then Ok tab
      else match value with
           | [c] => if (c <? 128)%N then Ok c else Err %"Delimiter must be a single-byte character"
           | _ => Err %"Delimiter must be a single-byte character"
           end
  end.

Definition effective_delimited_config (source_format : TableImportSourceFormat) (options : TableImportParseOptions)
    : result DelimitedParseConfig :=
  match effective_delimiter source_format (opt_delimiter options) with
  | Err e => Err e
  | Ok delimiter =>
      let null_literal := effective_delimited_null_literal (opt_null_literal options) in
      match (match opt_decimal_separator options with
             | None => Some dot
             | Some s => if text_eqb s [dot] then Some dot else if text_eqb s [comma] then Some comma else None
             end) with
      | None => Err %"Decimal separator must be '.' or ','"
      | Some decimal_separator =>
          match effective_import_row_range options with
          | Err e => Err e
          | Ok row_range =>
              Ok (mk_config delimiter decimal_separator (default false (opt_trim_values options))
                    (match null_literal with None => default true (opt_empty_string_as_null options) | Some _ => false end)
                    null_literal row_range)
          end
      end
  end.

(** ** Cells *)

Definition unwrap_csv_force_text (value : text) : text :=
  if starts_with [equal_sign; dquote] value && ends_with [dquote] (drop 2 value)
  then let inner := take (length value - 3) (drop 2 value) in if existsb (N.eqb dquote) inner then value else inner
  else value.

(** The expression [COMMA_DECIMAL]: a sign, digits with a comma among them or around
    them, an exponent; sign and exponent are optional. *)
Definition skip_sign (s : text) : text :=
  match s with c :: s' => if (c =? plus)%N || (c =? dash)%N then s' else s | [] => [] end.

Definition is_exponent (s : text) : bool :=
  match s with
  | [] => true
  | c :: s' => ((c =? 101)%N || (c =? 69)%N) && valid_digits (skip_sign s')
  end.

Definition is_comma_decimal_text (value : text) : bool :=
  let s := skip_sign value in
  let whole := take_while is_ascii_digit s in
  let rest := drop_while is_ascii_digit s in
  match rest with
  | c :: rest' =>
      if (c =? comma)%N then
        negb (is_empty whole && is_empty (take_while is_ascii_digit rest')) && is_exponent (drop_while is_ascii_digit rest')
      else negb (is_empty whole) && is_exponent rest
  | [] => negb (is_empty whole)
  end.

Section Importing.

Context `{CharTable, CaseMap, JsonDisplay}.

Definition csv_value_with_config (value : text) (config : DelimitedParseConfig) : Value :=
  let value := if trim_values config then trim value else value in
  let value := unwrap_csv_force_text value in
  if bool_decide (null_literal config = Some value) then Null
  else if empty_string_as_null config && is_empty value then Null
  else
    let is_comma_decimal := (decimal_separator config =? comma)%N && existsb (N.eqb comma) value && is_comma_decimal_text value in
    String (if is_comma_decimal then map (fun c => if (c =? comma)%N then dot else c) value else value).

Definition csv_value (value : text) : Value :=
  csv_value_with_config value (mk_config comma dot false true None (mk_range (Some 1) 2 None)).

Definition delimited_record_to_row (record : list text) (columns_len : nat) (config : DelimitedParseConfig) : list Value :=
  map (fun index => match record !! index with Some value => csv_value_with_config value config | None => Null end)
    (seq 0 columns_len).

(** ** Headers *)

(** [format!("{n}")]. *)
Fixpoint decimal_digits (fuel n : nat) : text :=
  match fuel with
  | O => []
  | S fuel' => (if n <? 10 then [] else decimal_digits fuel' (n / 10)) ++ [N.of_nat (48 + n mod 10)]
  end.

Definition decimal (n : nat) : text := decimal_digits (S n) n.

Definition normalize_header (value : text) (index : nat) : text :=
  let trimmed := trim value in if is_empty trimmed then %"column_" ++ decimal (S index) else trimmed.

Definition candidate (header : text) (suffix : nat) : text :=
  match suffix with O => header | S _ => header ++ %"_" ++ decimal suffix end.

(** The loop for one header: the candidate and the next suffix.  The candidates with a
    positive suffix differ, so one of [length seen + 1] of them is new. *)
Fixpoint first_unseen (fuel : nat) (seen : list text) (header : text) (suffix : nat) : option (text * nat) :=
  match fuel with
  | O => None
  | S fuel' =>
      let c := candidate header suffix in
      if text_in (to_lowercase c) seen then first_unseen fuel' seen header (S suffix) else Some (c, S suffix)
  end.

(** [next_suffix] by lower-case header, [0] where there is no entry. *)
Fixpoint unique_from (seen : list text) (next_suffix : text -> nat) (headers : list text) : option (list text) :=
  match headers with
  | [] => Some []
  | header :: headers' =>
      let key := to_lowercase header in
      match first_unseen (S (S (length seen))) seen header (next_suffix key) with
      | None => None
      | Some (c, next) =>
          match unique_from (to_lowercase c :: seen) (fun k => if text_eqb k key then next else next_suffix k) headers' with
          | None => None
          | Some rest => Some (c :: rest)
          end
      end
  end.

Definition unique_import_headers (headers : list text) : option (list text) := unique_from [] (fun _ => 0) headers.

Definition bom : char := 65279%N.

Definition header_columns (record : list text) : option (list text) :=
  unique_import_headers
    (map (fun '(index, header) => normalize_header (drop_while (N.eqb bom) header) index) (zip (seq 0 (length record)) record)).

(** ** Files *)

Record ParsedImportFile : Type := mk_parsed { columns : list text; rows : list (list Value); total_rows : nat }.

Inductive parse_result : Type :=
| Parsed (file : ParsedImportFile)
| ParseError (message : text)
| HeadersOutOfFuel.

Definition finish_rows (file : ParsedImportFile) : parse_result :=
  if is_empty (columns file) then ParseError %"Import file has no columns in the selected row range"
  else if total_rows file =? 0 then ParseError %"Import file has no data rows in the selected row range"
  else Parsed file.

(** The record loop; [index] counts the records read. *)
Fixpoint read_rows (config : DelimitedParseConfig) (preview_limit : nat) (count_all_rows : bool) (index : nat)
    (file : ParsedImportFile) (records : list (list text)) : parse_result :=
  match records with
  | [] => finish_rows file
  | record :: records' =>
      let row_number := S index in
      let range := row_range config in
      if bool_decide (title_row range = Some row_number) then
        match header_columns record with
        | Some names => read_rows config preview_limit count_all_rows row_number (mk_parsed names (rows file) (total_rows file)) records'
        | None => HeadersOutOfFuel
        end
      else if row_number <? data_start_row range then read_rows config preview_limit count_all_rows row_number file records'
      else if match last_data_row range with Some last => last <? row_number | None => false end
      then finish_rows file
      else
        let names :=
          if is_empty (columns file) then map (fun index => %"column_" ++ decimal (S index)) (seq 0 (length record))
          else columns file in
        let read :=
          if length (rows file) <? preview_limit then rows file ++ [delimited_record_to_row record (length names) config]
          else rows file in
        let file := mk_parsed names read (S (total_rows file)) in
        if negb count_all_rows && (preview_limit <=? length read)
        then finish_rows file
        else read_rows config preview_limit count_all_rows row_number file records'
  end.

Definition parse_csv_reader_inner (records : list (list text)) (config : DelimitedParseConfig) (preview_limit : nat)
    (count_all_rows : bool) : parse_result :=
  read_rows config preview_limit count_all_rows 0 (mk_parsed [] [] 0) records.

(** ** MongoDB *)

Definition normalize_cell (value : text) (do_trim : bool) : text := if do_trim then trim value else value.

Definition csv_cell_text (value : text) (do_trim : bool) : option text :=
  let value := strip_formula_guard (drop_while (N.eqb bom) (normalize_cell value do_trim)) in
  if is_empty value then None else Some value.

End Importing.
