(* ===== verification/CsvTheorems.v ===== *)
(** * CsvTheorems: exported text reads back, and no cell of it is a formula.

    RFC 4180 as a grammar ([csv_field], [record_text]), the law of a reader of it, a
    reader that satisfies the law, and the export as a text of the grammar. *)

From stdpp Require Import sets.
From S2P Require Import Prelude DbTypes Dialect Lexis PlSql Splitter Scanner StateStore SqlStrip WriteClass WriteClassFacts CsvExport CsvImport.

(** ** Guards *)

(** A text as it is exported. *)
Definition guarded (value : text) : text := push_formula_guard value ++ value.

Lemma apostrophe_is_no_formula value : needs_formula_guard (squote :: value) = false.
Proof. done. Qed.

Lemma guarded_is_no_formula value : needs_formula_guard (guarded value) = false.
Proof.
  unfold guarded, push_formula_guard. destruct value as [|c value]; [done|].
  destruct (N.eqb_spec c squote) as [->|Hc]; [by destruct (head_is squote value || _)|].
  destruct (needs_formula_guard (c :: value)) eqn:Hn; done.
Qed.

Lemma strip_guarded value : strip_formula_guard (guarded value) = value.
Proof.
  unfold guarded, push_formula_guard. destruct value as [|c value]; [done|].
  destruct (N.eqb_spec c squote) as [->|Hc].
  - destruct (head_is squote value || _) eqn:Hn; cbn; [done|]. by rewrite Hn.
  - destruct (needs_formula_guard (c :: value)) eqn:Hn; cbn.
    + by rewrite Hn, orb_true_r.
    + by apply N.eqb_neq in Hc as ->.
Qed.

(** ** The grammar *)

Inductive csv_field : Set :=
| Bare (value : text)
| Quoted (value : text).

Definition field_text (f : csv_field) : text := match f with Bare value => value | Quoted value => push_csv_escaped value end.

Definition field_value (f : csv_field) : text := match f with Bare value | Quoted value => value end.

Definition is_line_break (c : char) : bool := (c =? nl)%N || (c =? cr)%N.

Definition field_ok (delimiter : char) (f : csv_field) : Prop :=
  match f with
  | Bare value => Forall (fun c => c <> delimiter /\ c <> dquote /\ is_line_break c = false) value
  | Quoted _ => True
  end.

Definition delimiter_ok (delimiter : char) : Prop := delimiter <> dquote /\ is_line_break delimiter = false.

(** An empty line is no record. *)
Definition record_ok (delimiter : char) (fields : list csv_field) : Prop :=
  Forall (field_ok delimiter) fields /\ fields <> [] /\ fields <> [Bare []].

Definition record_text (delimiter : char) (fields : list csv_field) : text := join [delimiter] (map field_text fields).

Class CsvReader := { read_records : char -> text -> list (list text) }.

(** The records of a text of the grammar are its fields. *)
Class CsvReaderLaw `{CsvReader} := {
  reads_records delimiter records :
    delimiter_ok delimiter -> Forall (record_ok delimiter) records ->
    read_records delimiter (join [nl] (map (record_text delimiter) records)) = map (map field_value) records
}.

(** ** A reader *)

Inductive reader_state : Set := StartRecord | StartField | InBare | InQuotes | AfterQuote.

Fixpoint rfc_read (delimiter : char) (st : reader_state) (field : text) (record : list text) (s : text) : list (list text) :=
  match s with
  | [] => match st with StartRecord => [] | _ => [record ++ [field]] end
  | c :: s' =>
      match st with
      | InQuotes =>
          if (c =? dquote)%N then rfc_read delimiter AfterQuote field record s'
          else rfc_read delimiter InQuotes (field ++ [c]) record s'
      | AfterQuote =>
          if (c =? dquote)%N then rfc_read delimiter InQuotes (field ++ [dquote]) record s'
          else if (c =? delimiter)%N then rfc_read delimiter StartField [] (record ++ [field]) s'
          else if is_line_break c then (record ++ [field]) :: rfc_read delimiter StartRecord [] [] s'
          else rfc_read delimiter InBare (field ++ [c]) record s'
      | _ =>
          if (c =? delimiter)%N then rfc_read delimiter StartField [] (record ++ [field]) s'
          else if is_line_break c then
            match st with
            | StartRecord => rfc_read delimiter StartRecord [] [] s'
            | _ => (record ++ [field]) :: rfc_read delimiter StartRecord [] [] s'
            end
          else if (c =? dquote)%N && match st with InBare => false | _ => true end
          then rfc_read delimiter InQuotes field record s'
          else rfc_read delimiter InBare (field ++ [c]) record s'
      end
  end.

Section Reader.

Context (delimiter : char) (Hd : delimiter_ok delimiter).

(** The state after a field. *)
Definition after_field (st : reader_state) (f : csv_field) : reader_state :=
  match f with Bare [] => st | Bare _ => InBare | Quoted _ => AfterQuote end.

Definition starts (st : reader_state) : Prop := st = StartRecord \/ st = StartField.

Lemma read_bare value : forall field record rest,
  field_ok delimiter (Bare value) ->
  rfc_read delimiter InBare field record (value ++ rest) = rfc_read delimiter InBare (field ++ value) record rest.
Proof.
  induction value as [|c value IH]; intros field record rest Hok; [by rewrite app_nil_r|].
  apply Forall_cons in Hok as [(Hc1%N.eqb_neq & Hc2 & Hc3) Hok]. cbn [app rfc_read].
  rewrite Hc1, Hc3, andb_false_r, IH by done. by rewrite <- app_assoc.
Qed.

Lemma read_quoted value : forall field record rest,
  rfc_read delimiter InQuotes field record (push_csv_escaped_content value ++ dquote :: rest)
  = rfc_read delimiter AfterQuote (field ++ value) record rest.
Proof.
  induction value as [|c value IH]; intros field record rest; [by rewrite app_nil_r|].
  change (push_csv_escaped_content (c :: value)) with
    ((if (c =? dquote)%N then [dquote; dquote] else [c]) ++ push_csv_escaped_content value).
  destruct (N.eqb_spec c dquote) as [->|Hc]; cbn [app rfc_read].
  - rewrite N.eqb_refl, IH. by rewrite <- app_assoc.
  - apply N.eqb_neq in Hc as ->. rewrite IH. by rewrite <- app_assoc.
Qed.

Lemma read_field st f record rest :
  starts st -> field_ok delimiter f ->
  rfc_read delimiter st [] record (field_text f ++ rest) = rfc_read delimiter (after_field st f) (field_value f) record rest.
Proof.
  intros Hst Hok. destruct f as [[|c value]|value]; cbn [field_text field_value after_field]; [done|..].
  - pose proof Hok as [(Hc1%N.eqb_neq & Hc2%N.eqb_neq & Hc3) Hv]%Forall_cons. cbn [app rfc_read].
    destruct Hst as [-> | ->]; rewrite Hc1, Hc2, Hc3; cbn [andb]; by rewrite read_bare.
  - unfold push_csv_escaped. rewrite <- !app_assoc. cbn [app rfc_read]. destruct Hd as [Hq%not_eq_sym%N.eqb_neq _].
    destruct Hst as [-> | ->]; rewrite Hq, (N.eqb_refl dquote); cbn; by rewrite read_quoted.
Qed.

(** The end of a field: the delimiter, a line break, the end of the text. *)
Lemma read_delimiter st f record rest :
  starts st -> rfc_read delimiter (after_field st f) (field_value f) record (delimiter :: rest)
  = rfc_read delimiter StartField [] (record ++ [field_value f]) rest.
Proof.
  intros Hst. destruct Hd as [Hq%N.eqb_neq _].
  destruct f as [[|c value]|value]; cbn; destruct Hst as [-> | ->]; cbn; by rewrite ?Hq, N.eqb_refl.
Qed.

Lemma read_end st f record rest :
  starts st -> (st = StartField \/ f <> Bare []) ->
  rfc_read delimiter (after_field st f) (field_value f) record (nl :: rest)
    = (record ++ [field_value f]) :: rfc_read delimiter StartRecord [] [] rest
  /\ rfc_read delimiter (after_field st f) (field_value f) record [] = [record ++ [field_value f]].
Proof.
  intros Hst Hne. destruct Hd as [_ Hb]. assert ((nl =? delimiter)%N = false) as Hn.
  { apply N.eqb_neq. intros <-. by cbn in Hb. }
  destruct f as [[|c value]|value]; cbn [after_field field_value]; destruct Hst as [-> | ->]; cbn [rfc_read]; rewrite ?Hn;
    try done; by destruct Hne.
Qed.

(** A record, from its first field or from a later one. *)
Lemma read_fields fields : forall st record rest,
  starts st -> Forall (field_ok delimiter) fields -> fields <> [] -> (st = StartField \/ fields <> [Bare []]) ->
  (rfc_read delimiter st [] record (record_text delimiter fields ++ nl :: rest)
     = (record ++ map field_value fields) :: rfc_read delimiter StartRecord [] [] rest)
  /\ rfc_read delimiter st [] record (record_text delimiter fields) = [record ++ map field_value fields].
Proof.
  induction fields as [|f fields IH]; intros st record rest Hst Hok Hne Hline; [done|].
  apply Forall_cons in Hok as [Hf Hok]. unfold record_text. destruct fields as [|g fields].
  - cbn [map join]. rewrite <- (app_nil_r (field_text f)) at 2. rewrite !read_field by done.
    apply read_end; [done|]. destruct Hline as [?|Hline]; [by left|right]. congruence.
  - cbn [map]. rewrite join_cons, <- !app_assoc, !read_field by done. cbn [app]. rewrite !read_delimiter by done.
    destruct (IH StartField (record ++ [field_value f]) rest) as [IH1 IH2]; [by right|done..|by left|].
    unfold record_text in IH1, IH2. cbn [map] in IH1, IH2. rewrite IH1, IH2. by rewrite <- app_assoc.
Qed.

Lemma rfc_reads_records records :
  Forall (record_ok delimiter) records ->
  rfc_read delimiter StartRecord [] [] (join [nl] (map (record_text delimiter) records)) = map (map field_value) records.
Proof.
  induction records as [|r records IH]; intros Hok; [done|]. apply Forall_cons in Hok as [(Hf & Hne & Hline) Hok].
  destruct (read_fields r StartRecord [] (join [nl] (map (record_text delimiter) records))) as [H1 H2]; [by left|done..|by right|].
  destruct records as [|r' records]; [done|]. cbn [map] in H1 |- *. rewrite join_cons. cbn [app]. rewrite H1. cbn [app]. f_equal. by apply IH.
Qed.

End Reader.

Definition rfc_reader : CsvReader := {| read_records delimiter s := rfc_read delimiter StartRecord [] [] s |}.

Lemma rfc_reader_law : @CsvReaderLaw rfc_reader.
Proof. constructor. intros delimiter records Hd Hok. by apply rfc_reads_records. Qed.

(** * the contract of CSV export and import. *)

(** ** Decimal numbers *)

Definition digit_value (c : char) : nat := N.to_nat c - 48.

Definition decimal_value (s : text) : nat := fold_left (fun v c => 10 * v + digit_value c) s 0.

Lemma decimal_digits_value fuel : forall n, n < fuel -> decimal_value (decimal_digits fuel n) = n.
Proof.
  unfold decimal_value. induction fuel as [|fuel IH]; intros n Hn; [lia|]. cbn [decimal_digits]. rewrite fold_left_app. cbn [fold_left].
  unfold digit_value. rewrite Nat2N.id. replace (48 + n mod 10 - 48) with (n mod 10) by lia.
  destruct (Nat.ltb_spec n 10) as [Hs|Hs]; cbn [fold_left].
  - rewrite Nat.mod_small by lia. lia.
  - rewrite IH by (apply Nat.Div0.div_lt_upper_bound; lia). pose proof (Nat.div_mod_eq n 10). lia.
Qed.

Lemma decimal_inj n m : decimal n = decimal m -> n = m.
Proof. intros Heq. apply (f_equal decimal_value) in Heq. unfold decimal in Heq. by rewrite !decimal_digits_value in Heq by lia. Qed.

Lemma decimal_digits_are_digits fuel n : Forall (fun c => is_ascii_digit c = true) (decimal_digits fuel n).
Proof.
  revert n. induction fuel as [|fuel IH]; intros n; cbn [decimal_digits]; [constructor|]. apply Forall_app. split.
  - destruct (n <? 10); [constructor|apply IH].
  - constructor; [|constructor]. unfold is_ascii_digit. pose proof (Nat.mod_upper_bound n 10). rewrite andb_true_iff, !N.leb_le. lia.
Qed.

(** ** Headers *)

Section Headers.

Context `{CaseMap}.

Lemma lower_candidate header k : exists x, to_lowercase (candidate header (S k)) = x ++ under :: decimal (S k).
Proof.
  unfold to_lowercase, candidate. destruct (to_lowercase_prefix header [] (%"_" ++ decimal (S k))) as (x & -> & _). exists x. f_equal.
  rewrite <- (app_nil_r (%"_" ++ _)), to_lowercase_ascii; cbn [lowercase_from]; rewrite ?app_nil_r.
  - cbn. f_equal. rewrite <- (map_id (decimal (S k))) at 2. apply map_ext_Forall. eapply Forall_impl; [apply decimal_digits_are_digits|].
    intros c Hc. unfold to_ascii_lowercase. unfold is_ascii_digit in Hc. apply andb_true_iff in Hc as [_ Hc%N.leb_le].
    unfold is_ascii_uppercase. by rewrite (proj2 (N.leb_gt 65 c)) by lia.
  - constructor; [by vm_compute|]. eapply Forall_impl; [apply decimal_digits_are_digits|].
    intros c Hc. unfold is_ascii_digit in Hc. apply andb_true_iff in Hc as [_ Hc%N.leb_le]. lia.
Qed.

Lemma lower_candidate_inj header k j :
  to_lowercase (candidate header (S k)) = to_lowercase (candidate header (S j)) -> k = j.
Proof.
  destruct (lower_candidate header k) as [x ->], (lower_candidate header j) as [y ->]. intros Heq.
  apply (f_equal (@rev N)) in Heq. rewrite !rev_app_distr in Heq. cbn [rev] in Heq. rewrite <- !app_assoc in Heq.
  apply separator_prefix_inj in Heq.
  - apply (f_equal (@rev N)) in Heq. rewrite !rev_involutive in Heq. apply decimal_inj in Heq. lia.
  - apply Forall_rev. eapply Forall_impl; [apply decimal_digits_are_digits|]. by intros c Hc ->.
  - apply Forall_rev. eapply Forall_impl; [apply decimal_digits_are_digits|]. by intros c Hc ->.
Qed.

Lemma text_in_true w (l : list text) : text_in w l = true <-> w ∈ l.
Proof.
  unfold text_in. rewrite existsb_exists. setoid_rewrite list_elem_of_In. split.
  - by intros (x & Hx & ->%text_eqb_eq).
  - intros Hw. exists w. by rewrite text_eqb_refl.
Qed.

Lemma first_unseen_spec fuel seen header : forall suffix c next,
  first_unseen fuel seen header suffix = Some (c, next) ->
  to_lowercase c ∉ seen /\ exists k, c = candidate header k.
Proof.
  induction fuel as [|fuel IH]; intros suffix c next; cbn [first_unseen]; [done|].
  destruct (text_in _ seen) eqn:Hin; [apply IH|]. intros [= <- <-]. split; [|by eexists].
  intros Hs%text_in_true. congruence.
Qed.

Lemma first_unseen_None fuel seen header : forall suffix,
  first_unseen fuel seen header suffix = None -> forall k, k < fuel -> to_lowercase (candidate header (suffix + k)) ∈ seen.
Proof.
  induction fuel as [|fuel IH]; intros suffix; cbn [first_unseen]; [lia|].
  destruct (text_in _ seen) eqn:Hin; [|done]. intros Hnone [|k] Hk.
  - rewrite Nat.add_0_r. by apply text_in_true.
  - rewrite <- Nat.add_succ_comm. apply IH; [done|lia].
Qed.

(** The loop for a header ends. *)
Lemma first_unseen_ends seen header suffix : first_unseen (S (S (length seen))) seen header suffix <> None.
Proof.
  intros Hnone. pose proof (first_unseen_None _ _ _ _ Hnone) as Hall.
  set (l := map (fun k => to_lowercase (candidate header (S (suffix + k)))) (seq 0 (S (length seen)))).
  assert (NoDup l) as Hnd.
  { apply NoDup_fmap_2; [|apply NoDup_seq]. intros j k Heq%lower_candidate_inj. lia. }
  assert (l ⊆ seen) as Hin.
  { intros w Hw. apply list_elem_of_fmap in Hw as (k & -> & Hk%elem_of_seq). rewrite <- Nat.add_succ_r. apply Hall. lia. }
  pose proof (submseteq_length _ _ (NoDup_submseteq _ _ Hnd Hin)) as Hlen. unfold l in Hlen. rewrite length_map, length_seq in Hlen. lia.
Qed.

Lemma unique_from_spec headers : forall seen next_suffix,
  exists names, unique_from seen next_suffix headers = Some names
    /\ NoDup (map to_lowercase names) /\ (forall n, n ∈ names -> to_lowercase n ∉ seen)
    /\ Forall2 (fun header name => exists k, name = candidate header k) headers names.
Proof.
  induction headers as [|header headers IH]; intros seen next_suffix; cbn [unique_from].
  - exists []. split_and!; [done|constructor|by intros ? ?%elem_of_nil|constructor].
  - destruct (first_unseen _ seen header _) as [[c next]|] eqn:Hf; [|by apply first_unseen_ends in Hf].
    destruct (first_unseen_spec _ _ _ _ _ _ Hf) as [Hc Hk].
    edestruct (IH (to_lowercase c :: seen)) as (names & -> & Hnd & Hnew & Hall). exists (c :: names). split_and!; [done|..].
    + cbn. apply NoDup_cons. split; [|done]. intros (n & Heq & Hn)%list_elem_of_fmap. apply (Hnew n Hn). rewrite <- Heq. by left.
    + intros n [->|Hn]%elem_of_cons; [done|]. intros Hs. apply (Hnew n Hn). by right.
    + by constructor.
Qed.

Lemma unique_from_distinct headers : forall seen next_suffix,
  NoDup (map to_lowercase headers) ->
  (forall h, h ∈ headers -> to_lowercase h ∉ seen /\ next_suffix (to_lowercase h) = 0) ->
  unique_from seen next_suffix headers = Some headers.
Proof.
  induction headers as [|header headers IH]; intros seen next_suffix Hnd Hnew; [done|].
  cbn in Hnd. apply NoDup_cons in Hnd as [Hh Hnd]. destruct (Hnew header) as [Hs Hz]; [by left|].
  cbn [unique_from first_unseen]. rewrite Hz. cbn [candidate].
  destruct (text_in (to_lowercase header) seen) eqn:Hin; [by apply text_in_true in Hin|].
  rewrite IH; [done|done|]. intros h Hin'. destruct (Hnew h) as [Hs' Hz']; [by right|].
  assert (to_lowercase h <> to_lowercase header) as Hne.
  { intros Heq. apply Hh. rewrite <- Heq. by apply list_elem_of_fmap_2. }
  split; [by intros [?|?]%elem_of_cons|]. destruct (text_eqb _ _) eqn:Heq; [|done]. by apply text_eqb_eq in Heq.
Qed.

(** C38: import headers are unique.  The loop that renames duplicate column headers
    ends and yields as many names as there are headers, no two of which differ only
    in case, each the header itself or the header with a numeric suffix; headers that
    are distinct already are left as they are. *)
Theorem import_headers_unique (headers : list text) :
  (exists names, unique_import_headers headers = Some names
     /\ length names = length headers
     /\ NoDup (map to_lowercase names)
     /\ Forall2 (fun header name => name = header \/ exists k, name = header ++ %"_" ++ decimal (S k)) headers names)
  /\ (NoDup (map to_lowercase headers) -> unique_import_headers headers = Some headers).
Proof.
  unfold unique_import_headers. split.
  - destruct (unique_from_spec headers [] (fun _ => 0)) as (names & -> & Hnd & _ & Hall). exists names. split_and!; [done|..|done|].
    + symmetry. by eapply Forall2_length.
    + eapply Forall2_impl; [exact Hall|]. intros header name [[|k] ->]; [by left|right; by exists k].
  - intros Hnd. apply unique_from_distinct; [done|]. intros h _. split; [apply not_elem_of_nil|done].
Qed.

End Headers.

(** ** Exported rows in the grammar *)

(** How serde_json displays numbers and trees. *)
Class JsonDisplayLaws `{JsonDisplay} := {
  number_text n : Forall (fun c => is_ascii_digit c = true \/ c ∈ [plus; dash; dot; 69; 101]%N) (display_number n);
  number_nonempty n : display_number n <> [];
  tree_text t : exists c s, concat (display_tree t) = c :: s /\ (c = lbracket \/ c = lbrace)
}.

Section Exporting.

Context `{CharTable, CaseMap, JsonDisplay, !JsonDisplayLaws, CsvReader, !CsvReaderLaw}.

(** The text of a cell, when NULL is written as the default literal. *)
Definition cell_text (value : Value) : text :=
  match value with
  | Null => DEFAULT_CSV_NULL_LITERAL
  | Bool b => display_bool b
  | Number n => display_number n
  | String s => guarded s
  | Tree t => concat (display_tree t)
  end.

Definition quote_field (quote_mode : CsvQuoteMode) (value : text) : csv_field :=
  if bool_decide (quote_mode = All) || csv_field_needs_quotes value then Quoted value else Bare value.

Definition cell_field (quote_mode : CsvQuoteMode) (value : Value) : csv_field :=
  match value with
  | Null => Bare DEFAULT_CSV_NULL_LITERAL
  | Bool _ | Number _ => if bool_decide (quote_mode = All) then Quoted (cell_text value) else Bare (cell_text value)
  | String s => if bool_decide (quote_mode = All) || csv_field_needs_quotes s then Quoted (guarded s) else Bare (guarded s)
  | Tree t => quote_field quote_mode (cell_text value)
  end.

Lemma escaped_app a b : push_csv_escaped_content (a ++ b) = push_csv_escaped_content a ++ push_csv_escaped_content b.
Proof. apply bind_app. Qed.

Lemma escaped_concat l : (l ≫= push_csv_escaped_content) = push_csv_escaped_content (concat l).
Proof. induction l as [|a l IH]; [done|]. cbn [concat]. rewrite escaped_app, <- IH. done. Qed.

Lemma escaped_plain s : Forall (fun c => c <> dquote) s -> push_csv_escaped_content s = s.
Proof. induction 1 as [|c s Hc%N.eqb_neq _ IH]; [done|]. cbn. unfold push_csv_escaped_content in IH. rewrite Hc, IH. done. Qed.

Lemma guard_shape s : push_formula_guard s = [] \/ push_formula_guard s = [squote].
Proof. destruct s as [|c s]; cbn; repeat case_match; auto. Qed.

Lemma push_csv_field_text value quote_mode :
  push_csv_field value quote_mode
  = field_text (if bool_decide (quote_mode = All) || csv_field_needs_quotes value then Quoted (guarded value) else Bare (guarded value)).
Proof.
  unfold push_csv_field. destruct (_ || _); [|done]. cbn [field_text]. unfold push_csv_escaped, guarded. rewrite escaped_app, <- !app_assoc.
  do 2 f_equal. by destruct (guard_shape value) as [-> | ->].
Qed.

Lemma plain_field_ok value : csv_field_needs_quotes value = false -> field_ok comma (Bare value).
Proof.
  unfold csv_field_needs_quotes. intros Hn. apply Forall_forall. intros c Hc.
  assert (existsb (N.eqb c) [comma; dquote; nl; cr] = false) as Hc'.
  { apply not_true_iff_false. intros Ht. apply not_true_iff_false in Hn. apply Hn, existsb_exists. exists c. by rewrite <- list_elem_of_In. }
  cbn [existsb] in Hc'. rewrite !orb_false_iff in Hc'. unfold is_line_break. rewrite orb_false_iff, <- !N.eqb_neq. naive_solver.
Qed.

Lemma guarded_field_ok s : csv_field_needs_quotes s = false -> field_ok comma (Bare (guarded s)).
Proof.
  intros Hs%plain_field_ok. unfold guarded. apply Forall_app. split; [|done].
  destruct (guard_shape s) as [-> | ->]; repeat constructor; discriminate.
Qed.

Lemma display_ok (value : Value) : match value with Bool _ | Number _ => field_ok comma (Bare (cell_text value)) /\ cell_text value <> [] | _ => True end.
Proof.
  destruct value as [|b|n|s|t]; cbn [cell_text]; try done.
  - destruct b; (split; [apply plain_field_ok; by vm_compute|done]).
  - split; [|apply number_nonempty]. eapply Forall_impl; [apply number_text|]. intros c [Hc|Hc].
    + unfold is_ascii_digit in Hc. apply andb_true_iff in Hc as [Hlo%N.leb_le Hhi%N.leb_le]. unfold is_line_break, comma, dquote, nl, cr.
      rewrite orb_false_iff, !N.eqb_neq. lia.
    + repeat (apply elem_of_cons in Hc as [->|Hc]; [done|]). by apply elem_of_nil in Hc.
Qed.

Lemma cell_field_value quote_mode value : field_value (cell_field quote_mode value) = cell_text value.
Proof. destruct value; cbn [cell_field]; unfold quote_field; repeat case_match; done. Qed.

Lemma cell_field_ok quote_mode value : field_ok comma (cell_field quote_mode value).
Proof.
  pose proof (display_ok value) as Hd. destruct value as [|b|n|s|t]; cbn [cell_field].
  - apply plain_field_ok. by vm_compute.
  - destruct (bool_decide _); [done|apply Hd].
  - destruct (bool_decide _); [done|apply Hd].
  - destruct (_ || _) eqn:Hn; [done|]. apply orb_false_iff in Hn as [_ Hn]. by apply guarded_field_ok.
  - unfold quote_field. destruct (_ || _) eqn:Hn; [done|]. apply orb_false_iff in Hn as [_ Hn]. by apply plain_field_ok.
Qed.

(** A tree is not taken for a formula. *)
Lemma tree_not_guarded t : push_formula_guard (concat (display_tree t)) = [].
Proof. destruct (tree_text t) as (c & s & -> & [-> | ->]); done. Qed.

Lemma plain_not_escaped value : field_ok comma (Bare value) -> push_csv_escaped_content value = value.
Proof. intros Hv. apply escaped_plain. eapply Forall_impl; [exact Hv|]. naive_solver. Qed.

Lemma push_csv_value_text value quote_mode :
  push_csv_value_with_quote_mode value quote_mode false (Some DEFAULT_CSV_NULL_LITERAL) = field_text (cell_field quote_mode value).
Proof.
  pose proof (display_ok value) as Hd.
  destruct value as [|b|n|s|t]; cbn [push_csv_value_with_quote_mode cell_field is_null andb]; [by vm_compute|..].
  - destruct (bool_decide _); [|done]. cbn. unfold push_csv_escaped. destruct Hd as [Hd _]. by rewrite plain_not_escaped.
  - destruct (bool_decide _); [|done]. cbn. unfold push_csv_escaped. destruct Hd as [Hd _]. by rewrite plain_not_escaped.
  - destruct (bool_decide (quote_mode = All)) eqn:Hq.
    + cbn. unfold push_csv_escaped, guarded. rewrite escaped_app. by destruct (guard_shape s) as [-> | ->].
    + rewrite push_csv_field_text, Hq. done.
  - unfold quote_field. destruct (bool_decide (quote_mode = All)) eqn:Hq.
    + cbn. unfold push_csv_escaped. by rewrite escaped_concat.
    + rewrite push_csv_field_text, Hq. unfold guarded. rewrite tree_not_guarded. done.
Qed.

Definition row_record (quote_mode : CsvQuoteMode) (row : list Value) : list csv_field := map (cell_field quote_mode) row.

Definition header_record (quote_mode : CsvQuoteMode) (columns : list text) : list csv_field :=
  map (fun column => cell_field quote_mode (String column)) columns.

Lemma format_csv_records columns rows quote_mode :
  rows <> [] ->
  format_csv_with_options columns rows quote_mode (Some DEFAULT_CSV_NULL_LITERAL)
  = join [nl] (map (record_text comma) (header_record quote_mode columns :: map (row_record quote_mode) rows)).
Proof.
  intros Hne. destruct rows as [|row rows]; [done|]. unfold format_csv_with_options. cbn [map]. rewrite join_cons.
  f_equal; [|f_equal].
  - unfold record_text, header_record. rewrite map_map. f_equal. apply map_ext. intros column. by rewrite push_csv_field_text.
  - f_equal. assert (forall r, push_query_result_csv_row_with_options r quote_mode (Some DEFAULT_CSV_NULL_LITERAL)
      = record_text comma (row_record quote_mode r)) as Hr.
    { intros r. unfold push_query_result_csv_row_with_options, record_text, row_record. rewrite map_map. f_equal.
      apply map_ext. intros value. apply push_csv_value_text. }
    rewrite Hr. f_equal. rewrite map_map. apply map_ext. apply Hr.
Qed.

(** ** Import *)

(** What the importer uses for a CSV file when nothing is configured. *)
Definition default_config : DelimitedParseConfig :=
  mk_config comma dot false false (Some DEFAULT_CSV_NULL_LITERAL) (mk_range (Some 1) 2 None).

Lemma default_config_effective : effective_delimited_config Csv default_options = Ok default_config.
Proof. done. Qed.

(** The value a cell comes back as. *)
Definition imported (value : Value) : Value :=
  if bool_decide (cell_text value = DEFAULT_CSV_NULL_LITERAL) then Null else String (cell_text value).

Lemma no_formula_head s : needs_formula_guard s = false -> head_is equal_sign s = false.
Proof. destruct s as [|c s]; [done|]. intros Hn. cbn [head_is]. apply not_true_iff_false. intros ->%N.eqb_eq. done. Qed.

Lemma cell_text_head value : head_is equal_sign (cell_text value) = false.
Proof.
  destruct value as [|[]|n|s|t]; try done.
  - pose proof (number_text n) as Hn. cbn. destruct (display_number n) as [|c s]; [done|]. apply Forall_cons in Hn as [Hc _].
    cbn. apply not_true_iff_false. intros ->%N.eqb_eq. destruct Hc as [Hc|Hc]; [done|].
    repeat (apply elem_of_cons in Hc as [Hc|Hc]; [done|]). by apply elem_of_nil in Hc.
  - apply no_formula_head, guarded_is_no_formula.
  - cbn. by destruct (tree_text t) as (c & s & -> & [-> | ->]).
Qed.

Lemma unwrap_plain value : head_is equal_sign value = false -> unwrap_csv_force_text value = value.
Proof. unfold unwrap_csv_force_text. destruct value as [|c value]; [done|]. cbn [head_is starts_with]. rewrite N.eqb_sym. by intros ->. Qed.

Lemma csv_value_imported value : csv_value_with_config (cell_text value) default_config = imported value.
Proof.
  unfold csv_value_with_config, imported. cbn [trim_values default_config null_literal empty_string_as_null andb decimal_separator].
  rewrite unwrap_plain by apply cell_text_head. change (dot =? comma)%N with false. cbn [andb].
  destruct (decide (cell_text value = DEFAULT_CSV_NULL_LITERAL)) as [Heq|Hne].
  - rewrite Heq. by rewrite !bool_decide_true.
  - rewrite !bool_decide_false by congruence. done.
Qed.

Lemma record_to_row (row : list Value) :
  delimited_record_to_row (map cell_text row) (length row) default_config = map imported row.
Proof.
  unfold delimited_record_to_row. apply list_eq. intros i. rewrite !list_lookup_fmap.
  destruct (decide (i < length row)) as [Hi|Hi].
  - rewrite lookup_seq_lt by done. cbn. rewrite list_lookup_fmap. destruct (lookup_lt_is_Some_2 row i Hi) as [value ->].
    cbn. by rewrite csv_value_imported.
  - rewrite lookup_seq_ge, lookup_ge_None_2 by lia. done.
Qed.

Lemma read_rows_data names limit rows : forall k (acc : list (list Value)) n,
  names <> [] -> Forall (fun row => length row = length names) rows -> length acc + length rows <= limit ->
  read_rows default_config limit true (S k) (mk_parsed names acc n) (map (map cell_text) rows)
  = finish_rows (mk_parsed names (acc ++ map (map imported) rows) (n + length rows)).
Proof.
  induction rows as [|row rows IH]; intros k acc n Hne Hw Hlimit.
  - cbn [map read_rows length]. by rewrite app_nil_r, Nat.add_0_r.
  - apply Forall_cons in Hw as [Hrow Hw]. cbn [map read_rows length] in Hlimit |- *. cbn [default_config row_range title_row data_start_row last_data_row].
    rewrite bool_decide_false by done. change (S (S k) <? 2) with false. cbn [columns CsvImport.rows total_rows].
    replace (is_empty names) with false by (by destruct names). rewrite (proj2 (Nat.ltb_lt (length acc) limit)) by lia. cbn [negb andb].
    rewrite IH; [|done|done|rewrite length_app; cbn; lia]. rewrite <- Hrow, record_to_row, <- app_assoc. f_equal. cbn. f_equal. lia.
Qed.

Lemma cell_field_line quote_mode value : quote_mode = All -> cell_field quote_mode value <> Bare [].
Proof. intros ->. by destruct value. Qed.

Lemma records_ok quote_mode (cells : list Value) :
  cells <> [] -> (quote_mode = All \/ 2 <= length cells) -> record_ok comma (map (cell_field quote_mode) cells).
Proof.
  intros Hne Hline. split_and!.
  - apply Forall_map. apply Forall_true. intros value. apply cell_field_ok.
  - by destruct cells.
  - destruct cells as [|a [|b cells]]; [done| |done]. intros [= Heq]. destruct Hline as [Hq|Hl]; [by eapply cell_field_line|cbn in Hl; lia].
Qed.

Lemma header_columns_ends (record : list text) :
  exists names, header_columns record = Some names /\ length names = length record.
Proof.
  unfold header_columns, unique_import_headers. edestruct unique_from_spec as (names & -> & _ & _ & Hall). exists names. split; [done|].
  apply Forall2_length in Hall. rewrite <- Hall, length_map, length_zip_with, length_seq. lia.
Qed.

(** A text that a spreadsheet cannot take for a formula: its first character after spaces starts none, and it does not
    begin with an apostrophe. *)
Definition plain_start (s : text) : bool :=
  negb (head_is squote s)
  && match drop_while (N.eqb space) s with
     | c :: _ => negb (existsb (N.eqb c) [equal_sign; plus; dash; at_sign; tab; cr])
     | [] => true
     end.

(** What a cell comes back as: NULL as NULL, a truth value, a number or a tree as its text, a plain string as itself.  The
    string that spells NULL comes back as NULL, and a string that is not plain keeps the guard it was written with, an
    apostrophe or nothing. *)
Inductive Arrives : Value -> Value -> Prop :=
| arrives_null : Arrives Null Null
| arrives_bool b : Arrives (Bool b) (String (if b then %"true" else %"false"))
| arrives_number n : Arrives (Number n) (String (display_number n))
| arrives_tree t : Arrives (Tree t) (String (concat (display_tree t)))
| arrives_text s : plain_start s = true -> s <> %"\N" -> Arrives (String s) (String s)
| arrives_null_text : Arrives (String %"\N") Null
| arrives_guarded s : plain_start s = false -> Arrives (String s) (String (push_formula_guard s ++ s)).

Lemma plain_start_unguarded s : plain_start s = true -> guarded s = s.
Proof.
  unfold plain_start, guarded, push_formula_guard. destruct s as [|c s]; [done|]. intros [Hq Hc]%andb_true_iff.
  cbn [head_is] in Hq. apply negb_true_iff in Hq. rewrite Hq. unfold needs_formula_guard.
  destruct (drop_while (N.eqb space) (c :: s)) as [|d rest]; [done|]. apply negb_true_iff in Hc.
  change FORMULA_TRIGGER_BYTES with [equal_sign; plus; dash; at_sign; tab; cr]. rewrite Hc. by repeat case_match.
Qed.

Lemma shown_not_null value : match value with Bool _ | Number _ | Tree _ => cell_text value <> DEFAULT_CSV_NULL_LITERAL | _ => True end.
Proof.
  destruct value as [|[]|n|s|t]; cbn [cell_text]; try done.
  - pose proof (number_text n) as Hn. intros Heq. rewrite Heq in Hn. apply Forall_cons in Hn as [[Hc|Hc] _]; [done|].
    repeat (apply elem_of_cons in Hc as [Hc|Hc]; [done|]). by apply elem_of_nil in Hc.
  - destruct (tree_text t) as (c & s & Heq & [-> | ->]); by rewrite Heq.
Qed.

Lemma guard_not_null s : plain_start s = false -> guarded s <> DEFAULT_CSV_NULL_LITERAL.
Proof.
  unfold guarded. intros Hs. destruct (guard_shape s) as [-> | ->]; [|done]. cbn [app]. intros ->. done.
Qed.

Lemma imported_arrives value : Arrives value (imported value).
Proof.
  pose proof (shown_not_null value) as Hshown. unfold imported. destruct value as [|b|n|s|t]; cbn [cell_text] in *.
  - rewrite bool_decide_true by done. apply arrives_null.
  - rewrite bool_decide_false by done. replace (display_bool b) with (if b then %"true" else %"false") by by destruct b. apply arrives_bool.
  - rewrite bool_decide_false by done. apply arrives_number.
  - destruct (plain_start s) eqn:Hs.
    + rewrite plain_start_unguarded by done. case_bool_decide as Hn; [rewrite Hn; apply arrives_null_text|by apply arrives_text].
    + rewrite bool_decide_false by by apply guard_not_null. by apply arrives_guarded.
  - rewrite bool_decide_false by done. apply arrives_tree.
Qed.

Lemma rows_arrive (rows : list (list Value)) : Forall2 (Forall2 Arrives) rows (map (map imported) rows).
Proof.
  apply Forall2_fmap_r, Forall_Forall2_diag, Forall_true. intros row.
  apply Forall2_fmap_r, Forall_Forall2_diag, Forall_true. intros value. apply imported_arrives.
Qed.

(** C36: an exported table imports again.  The text written for a table (with the default NULL literal, in either quote
    mode) is read back by the importer with its default configuration as as many rows in the same order, each cell as
    [Arrives] says: NULL as NULL, a string exactly as it was unless it spells the NULL literal (it becomes NULL) or begins
    like a formula or with an apostrophe (it may keep an apostrophe in front), every other cell as its text.  A table of one
    column has to be quoted, since an empty line is no record. *)
Theorem csv_export_imports (columns : list text) (rows : list (list Value)) (quote_mode : CsvQuoteMode) (limit : nat)
    (Hcolumns : columns <> []) (Hrows : rows <> []) (Hwidth : Forall (fun row => length row = length columns) rows)
    (Hline : quote_mode = All \/ 2 <= length columns) (Hlimit : length rows <= limit) :
  exists names rows', length names = length columns /\ header_columns (map guarded columns) = Some names
    /\ Forall2 (Forall2 Arrives) rows rows'
    /\ parse_csv_reader_inner
         (read_records comma (format_csv_with_options columns rows quote_mode (Some %"\N")))
         default_config limit true
       = Parsed (mk_parsed names rows' (length rows)).
Proof.
  destruct (header_columns_ends (map guarded columns)) as (names & Hnames & Hlen). rewrite length_map in Hlen.
  exists names, (map (map imported) rows). split_and!; [done|done|apply rows_arrive|]. change (%"\N") with DEFAULT_CSV_NULL_LITERAL.
  rewrite format_csv_records by done. rewrite reads_records; [|done|].
  - cbn [map]. unfold header_record, row_record. rewrite !map_map.
    assert (map (fun column => field_value (cell_field quote_mode (String column))) columns = map guarded columns) as ->
      by (apply map_ext; intros column; apply cell_field_value).
    assert (map (fun row => map field_value (map (cell_field quote_mode) row)) rows = map (map cell_text) rows) as ->.
    { apply map_ext. intros row. rewrite map_map. apply map_ext. intros value. apply cell_field_value. }
    unfold parse_csv_reader_inner. cbn [read_rows default_config row_range title_row]. rewrite bool_decide_true by done.
    rewrite Hnames. fold default_config. rewrite (read_rows_data names limit rows 0); cbn [CsvImport.rows total_rows length app]; [|..|lia].
    + unfold finish_rows. cbn. destruct names; [by destruct columns|]. by destruct rows.
    + by destruct names, columns.
    + by rewrite Hlen.
  - constructor.
    + unfold header_record. rewrite <- (map_map String (cell_field quote_mode)). apply records_ok; [by destruct columns|by rewrite length_map].
    + apply Forall_map. eapply Forall_impl; [exact Hwidth|]. intros row Hrow. apply records_ok; [by destruct row, columns|by rewrite Hrow].
Qed.

(** Formula guards.  No exported text is taken for a formula by a spreadsheet,
    and stripping the guard gives back the text, whatever it starts with; so a string
    cell of a MongoDB import is the string that was exported. *)
Theorem formula_guard_round_trip (value : text) :
  needs_formula_guard (guarded value) = false
  /\ strip_formula_guard (guarded value) = value
  /\ (value <> [] -> head_is bom value = false -> csv_cell_text (guarded value) false = Some value).
Proof.
  split_and!; [apply guarded_is_no_formula|apply strip_guarded|]. intros Hne Hbom. unfold csv_cell_text, normalize_cell.
  rewrite drop_while_fixed.
  - rewrite strip_guarded. by destruct value.
  - unfold guarded. destruct (guard_shape value) as [-> | ->]; intros c rest; cbn [app]; [intros ->|by intros [= <- _]].
    cbn [head_is] in Hbom. by rewrite N.eqb_sym.
Qed.

End Exporting.

(** ** A concrete table *)

Section Examples.

#[local] Existing Instance latin1_table.
#[local] Existing Instance rfc_reader.
#[local] Existing Instance rfc_reader_law.
#[local] Instance csv_case : CaseMap := {| nonascii_upper c := [c]; nonascii_lower _ c _ := [c] |}.

(** Natural numbers and one tree. *)
#[local] Instance small_json : JsonDisplay :=
  {| JNumber := nat; JTree := unit; display_number := decimal; display_tree _ := [[lbrace; dquote]; %"a,b"; [dquote]; %":1}"] |}.

#[local] Instance small_json_laws : JsonDisplayLaws.
Proof.
  constructor.
  - intros n. eapply Forall_impl; [apply decimal_digits_are_digits|]. by left.
  - intros n. cbn. unfold decimal. cbn [decimal_digits]. intros []%app_eq_nil. done.
  - intros t. eexists _, _. split; [reflexivity|by right].
Qed.

Definition people : list (list Value) :=
  [[Number 1; String %"Ada, Countess"; Null]; [Number 2; String []; Tree tt]; [Null; String %"=1+1"; Bool true]].

Lemma csv_export_imports_witness :
  exists names rows', length names = length [%"id"; %"name"; %"note"] /\ header_columns (map guarded [%"id"; %"name"; %"note"]) = Some names
    /\ Forall2 (Forall2 Arrives) people rows'
    /\ parse_csv_reader_inner
         (read_records comma (format_csv_with_options [%"id"; %"name"; %"note"] people Necessary (Some %"\N")))
         default_config 10 true
       = Parsed (mk_parsed names rows' (length people)).
Proof.
  apply (csv_export_imports [%"id"; %"name"; %"note"] people Necessary 10).
  - discriminate.
  - discriminate.
  - repeat constructor.
  - right. cbn. lia.
  - cbn. lia.
Defined.

(** The table importer does not strip the guard: the string comes back with it. *)
Lemma guard_survives_import : imported (String %"=1+1") = String (squote :: %"=1+1").
Proof. vm_compute. reflexivity. Qed.

(** In [Necessary] mode an empty string is written as nothing, so a row with nothing
    but an empty string is an empty line, and is not read back. *)
Lemma empty_string_row_is_lost :
  exists file, parse_csv_reader_inner
      (read_records comma (format_csv_with_options [%"c"] [[String []]; [String %"x"]] Necessary (Some DEFAULT_CSV_NULL_LITERAL)))
      default_config 10 true = Parsed file /\ rows file = [[String %"x"]].
Proof. eexists. split; vm_compute; reflexivity. Qed.

(** A literal for NULL that looks like a formula is guarded when it is written, and
    the importer that is given the same literal does not recognise it. *)
Lemma guarded_null_literal_is_text :
  let config := mk_config comma dot false false (Some [dash]) (mk_range (Some 1) 2 None) in
  exists file, parse_csv_reader_inner
      (read_records comma (format_csv_with_options [%"c"] [[Null]] All (Some [dash]))) config 10 true = Parsed file
    /\ rows file = [[String [squote; dash]]].
Proof. eexists. split; vm_compute; reflexivity. Qed.

End Examples.
