(* ===== verification/RunningQueries.v ===== *)
(** * RunningQueries: the registry of cancellable executions ([query/query_cancel.rs]).

    An execution is registered under an id and holds a guard ([RegisteredQuery]); its
    driver hands over an interrupt later; a cancellation sets the token and runs the
    interrupt; the guard removes the registration when the execution ends.  Every
    operation is one critical section of the mutex around [inner] ([completed] is
    locked inside it); what it does after the lock is released, running an interrupt
    and signalling the completion channel, only adds to [fired] and [signalled].

    Tokens and completion channels are named by the registration they are made for,
    interrupts (closures) by a number.  [handed], [fired] and [events] record what
    happened: the interrupts handed over, those that were run, the registrations and
    their ends.  [register_task_with_token] draws the registration id before the lock
    and cancels the execution it replaces after it; the model takes the three as one
    step (ids only have to differ, and the replaced task is out of the map by then). *)

From stdpp Require Import gmap.
From S2P Require Import Prelude WriteUnlock.

Definition DETACHED_REGISTRATION_GRACE_PERIOD : N := from_secs (30 * 60).

Inductive RunningTaskKind : Set := Query | Count | Explain | Export | Unknown.

Record RunningTaskMetadata : Set := mk_metadata {
  kind : RunningTaskKind;
  task_connection_id : option text;
  database : option text;
  client_session_id : option text;
  task_owner_scope : option text
}.

Definition default_metadata : RunningTaskMetadata := mk_metadata Unknown None None None None.

Record CancellationToken : Set := mk_token { token_id : N; parent : option N }.

Record RunningTask : Set := mk_task {
  registration_id : N;
  token : CancellationToken;
  remember_completion : bool;
  metadata : RunningTaskMetadata;
  pool_key : option text;
  interrupt : option N
}.

Record RegisteredQuery : Set := mk_registered {
  execution_id : text; guard_registration_id : N; detached : bool; database_terminal : bool
}.

Record CancellationWaitResult : Set := mk_wait {
  requested : bool; terminal : bool; result_database_terminal : option bool
}.

(** Newest first. *)
Inductive event : Set :=
| Registered (id : text) (rid : N)
| Finished (id : text) (rid : N) (database_terminal : bool) (at_ : instant).

Record world : Set := mk_world {
  inner : gmap text RunningTask;
  completed : gmap text (instant * bool);
  next_registration_id : N;
  now : instant;
  cancelled : list N;
  cancelled_parents : list N;
  signalled : list N;
  handed : list N;
  fired : list N;
  events : list event
}.

Definition empty_world : world := mk_world ∅ ∅ 0%N 0%N [] [] [] [] [] [].

(** ** Session ids *)

Section Sessions.

Context `{CharTable}.

Definition task_kind_from_client_session_id (client_session_id : option text) : RunningTaskKind :=
  match client_session_id with
  | None => Query
  | Some session_id =>
      let session_id := lower (trim session_id) in
      if ends_with %":count" session_id then Count
      else if ends_with %":explain" session_id then Explain
      else if ends_with %":export" session_id then Export
      else Query
  end.

Definition owner_scope_from_client_session_id (client_session_id : text) : option text :=
  let owner := trim (take_while (fun c => negb (c =? colon)%N) (trim client_session_id)) in
  if is_empty owner then None else Some owner.

Definition query_metadata (connection_id database : text) (client_session_id : option text) : RunningTaskMetadata :=
  mk_metadata (task_kind_from_client_session_id client_session_id) (Some connection_id) (Some database) client_session_id
    (match client_session_id with Some id => owner_scope_from_client_session_id id | None => None end).

End Sessions.

(** ** Registration *)

Definition option_list {A} (o : option A) : list A := match o with Some a => [a] | None => [] end.

(** [completed.retain]: what completed less than the grace period ago. *)
Definition retain_completed (t : instant) (completed : gmap text (instant * bool)) : gmap text (instant * bool) :=
  filter (fun '(_, (completed_at, _)) => (t - completed_at < DETACHED_REGISTRATION_GRACE_PERIOD)%N) completed.

Definition register_task_with_token (id : text) (metadata : RunningTaskMetadata) (remember_completion : bool) (parent : option N) (w : world)
    : world * RegisteredQuery :=
  let rid := (next_registration_id w + 1)%N in
  let previous := inner w !! id in
  (mk_world
     (<[id := mk_task rid (mk_token rid parent) remember_completion metadata None None]> (inner w))
     (delete id (retain_completed (now w) (completed w)))
     rid (now w)
     (match previous with Some task => token_id (token task) :: cancelled w | None => cancelled w end)
     (cancelled_parents w)
     (match previous with Some task => registration_id task :: signalled w | None => signalled w end)
     (handed w)
     (match previous with Some task => option_list (interrupt task) | None => [] end ++ fired w)
     (Registered id rid :: events w),
   mk_registered id rid false false).

Definition register_task (id : text) (metadata : RunningTaskMetadata) : world -> world * RegisteredQuery :=
  register_task_with_token id metadata false None.

Definition register_task_for_terminal_confirmation (id : text) (metadata : RunningTaskMetadata) : world -> world * RegisteredQuery :=
  register_task_with_token id metadata true None.

Definition register_task_for_terminal_confirmation_with_parent (id : text) (metadata : RunningTaskMetadata) (parent : N)
    : world -> world * RegisteredQuery :=
  register_task_with_token id metadata true (Some parent).

Definition register (id : text) : world -> world * RegisteredQuery := register_task id default_metadata.

Definition is_cancelled (w : world) (tok : CancellationToken) : bool :=
  bool_decide (token_id tok ∈ cancelled w)
  || match parent tok with Some p => bool_decide (p ∈ cancelled_parents w) | None => false end.

(** ** Interrupts and cancellation *)

Definition set_task (id : text) (task : RunningTask) (w : world) : world :=
  mk_world (<[id := task]> (inner w)) (completed w) (next_registration_id w) (now w) (cancelled w) (cancelled_parents w) (signalled w)
    (handed w) (fired w) (events w).

Definition with_interrupt (i : option N) (task : RunningTask) : RunningTask :=
  mk_task (registration_id task) (token task) (remember_completion task) (metadata task) (pool_key task) i.

(** An interrupt for a task that is gone or cancelled runs at once; a second
    interrupt replaces the first, which is dropped. *)
Definition register_interrupt (id : text) (i : N) (w : world) : world :=
  match inner w !! id with
  | Some task =>
      if is_cancelled w (token task)
      then mk_world (inner w) (completed w) (next_registration_id w) (now w) (cancelled w) (cancelled_parents w) (signalled w)
             (i :: handed w) (i :: fired w) (events w)
      else mk_world (<[id := with_interrupt (Some i) task]> (inner w)) (completed w) (next_registration_id w) (now w) (cancelled w)
             (cancelled_parents w) (signalled w) (i :: handed w) (fired w) (events w)
  | None =>
      mk_world (inner w) (completed w) (next_registration_id w) (now w) (cancelled w) (cancelled_parents w) (signalled w)
        (i :: handed w) (i :: fired w) (events w)
  end.

Definition cancel (id : text) (w : world) : world * bool :=
  match inner w !! id with
  | None => (w, false)
  | Some task =>
      (mk_world
         (if remember_completion task then <[id := with_interrupt None task]> (inner w) else delete id (inner w))
         (completed w) (next_registration_id w) (now w)
         (token_id (token task) :: cancelled w) (cancelled_parents w)
         (if remember_completion task then signalled w else registration_id task :: signalled w)
         (handed w) (option_list (interrupt task) ++ fired w) (events w),
       true)
  end.

(** [cancel_matching]: the ids are collected first, then cancelled one by one. *)
Definition matching_ids (predicate : RunningTask -> bool) (w : world) : list text :=
  map fst (List.filter (fun entry => predicate entry.2) (map_to_list (inner w))).

Fixpoint cancel_ids (ids : list text) (w : world) : world * nat :=
  match ids with
  | [] => (w, 0)
  | id :: ids' =>
      let '(w1, ok) := cancel id w in
      let '(w2, n) := cancel_ids ids' w1 in
      (w2, (if ok then 1 else 0) + n)
  end.

Definition cancel_matching (predicate : RunningTask -> bool) (w : world) : world * nat := cancel_ids (matching_ids predicate w) w.

Definition cancel_connection (id : text) : world -> world * nat :=
  cancel_matching (fun task => bool_decide (task_connection_id (metadata task) = Some id)).

Definition cancel_client_session (id : text) : world -> world * nat :=
  cancel_matching (fun task => bool_decide (client_session_id (metadata task) = Some id)).

Definition cancel_owner_scope (scope : text) : world -> world * nat :=
  cancel_matching (fun task => bool_decide (task_owner_scope (metadata task) = Some scope)).

Definition cancel_all : world -> world * nat := cancel_matching (fun _ => true).

(** ** Completion *)

Definition remove (id : text) (rid : N) (database_terminal : bool) (w : world) : world :=
  match inner w !! id with
  | Some task =>
      if (registration_id task =? rid)%N then
        mk_world (delete id (inner w))
          (if remember_completion task then <[id := (now w, database_terminal)]> (completed w) else completed w)
          (next_registration_id w) (now w) (cancelled w) (cancelled_parents w) (registration_id task :: signalled w)
          (handed w) (fired w)
          (Finished id rid database_terminal (now w) :: events w)
      else w
  | None => w
  end.

(** [Drop for RegisteredQuery]. *)
Definition drop_guard (g : RegisteredQuery) (w : world) : world :=
  if detached g then w else remove (execution_id g) (guard_registration_id g) (database_terminal g) w.

(** The task that [detach] spawns, after the grace period. *)
Definition expire_detached (g : RegisteredQuery) (w : world) : world := remove (execution_id g) (guard_registration_id g) false w.

Definition set_completed (c : gmap text (instant * bool)) (w : world) : world :=
  mk_world (inner w) c (next_registration_id w) (now w) (cancelled w) (cancelled_parents w) (signalled w) (handed w) (fired w)
    (events w).

Definition completed_execution_result (id : text) (w : world) : world * CancellationWaitResult :=
  match inner w !! id with
  | Some _ => (w, mk_wait false false (Some false))
  | None =>
      let c := retain_completed (now w) (completed w) in
      (set_completed c w,
       mk_wait false (bool_decide (c !! id <> None)) (Some (match c !! id with Some (_, proven) => proven | None => false end)))
  end.

Definition set_pool_key (id key : text) (w : world) : world :=
  match inner w !! id with
  | Some task =>
      set_task id (mk_task (registration_id task) (token task) (remember_completion task) (metadata task) (Some key) (interrupt task)) w
  | None => w
  end.

Definition is_pool_active (key : text) (w : world) : bool :=
  existsb (fun entry => bool_decide (pool_key entry.2 = Some key)) (map_to_list (inner w)).

(** ** The outcome of an execution *)

Inductive AgentErrorCategory : Set := CConnection | CSql | CResource | CProtocol | CTimeout | CCanceled.
Inductive AgentErrorStage : Set := SRequest | SCheckout | SConnect | SValidate | SExecute | SFetch | SCancel | SClose.
Inductive AgentOperationOutcome : Set := NotStarted | OutcomeUnknown.

#[export] Instance AgentErrorCategory_eq_dec : EqDecision AgentErrorCategory.
Proof. solve_decision. Defined.
#[export] Instance AgentErrorStage_eq_dec : EqDecision AgentErrorStage.
Proof. solve_decision. Defined.
#[export] Instance AgentOperationOutcome_eq_dec : EqDecision AgentOperationOutcome.
Proof. solve_decision. Defined.

Inductive AgentCallError : Set :=
| Structured (category : AgentErrorCategory) (stage : AgentErrorStage) (operation_outcome : AgentOperationOutcome)
| LegacyCall
| ContractViolation
| Transport
| CallTimeout (stage : AgentErrorStage) (operation_outcome : AgentOperationOutcome)
| CallCanceled (stage : AgentErrorStage) (operation_outcome : AgentOperationOutcome).

Inductive QueryExecutionError : Set :=
| Agent (e : AgentCallError)
| DuckDb (code message : text)
| Canceled (stage : AgentErrorStage) (operation_outcome : AgentOperationOutcome)
| Timeout (message : text)
| SqlError (message : text)
| SqlWithPosition (message : text)
| Legacy (message : text).

(** [None] is [Ok]. *)
Definition proves_database_terminal (r : option QueryExecutionError) : bool :=
  match r with
  | None => true
  | Some (Agent (Structured category stage outcome)) =>
      bool_decide (outcome = NotStarted) || (bool_decide (category = CSql) && bool_decide (stage = SExecute))
  | Some (Canceled _ NotStarted) => true
  | _ => false
  end.

(** [finish_with_database_result]: the guard is dropped with the verdict. *)
Definition finish_with_database_result (g : RegisteredQuery) (r : option QueryExecutionError) (w : world) : world * bool :=
  let proven := proves_database_terminal r in
  (drop_guard (mk_registered (execution_id g) (guard_registration_id g) (detached g) proven) w, proven).

(** [finish_with_late_cancel]: the world, and the guard if it is detached. *)
Definition finish_with_late_cancel (g : RegisteredQuery) (r : option QueryExecutionError) (keep_timeout_reachable : bool) (w : world)
    : world * option RegisteredQuery :=
  if keep_timeout_reachable && match r with Some (Timeout _) => true | _ => false end
  then (w, Some (mk_registered (execution_id g) (guard_registration_id g) true (database_terminal g)))
  else (drop_guard g w, None).

Definition finish (g : RegisteredQuery) (r : option QueryExecutionError) (w : world) : world * option RegisteredQuery :=
  finish_with_late_cancel g r true w.

(** ** Diagnostics *)

Record RunningQueryDiagnostics : Set := mk_diagnostics {
  active_execution_ids : list text;
  active_by_connection : gmap text nat;
  interrupt_registrations : nat
}.

Definition count_connection (counts : gmap text nat) (task : RunningTask) : gmap text nat :=
  match task_connection_id (metadata task) with
  | Some id => <[id := S (default 0 (counts !! id))]> counts
  | None => counts
  end.

(** The ids sorted by [sort], as the sources do. *)
Definition diagnostics (sort : list text -> list text) (w : world) : RunningQueryDiagnostics :=
  let tasks := map snd (map_to_list (inner w)) in
  mk_diagnostics (sort (map fst (map_to_list (inner w)))) (fold_left count_connection tasks ∅)
    (length (List.filter (fun task => match interrupt task with Some _ => true | None => false end) tasks)).
