(* ===== verification/RunningFacts.v ===== *)
(** * RunningFacts: interrupts are run once, and answers about completion are true. *)

From stdpp Require Import gmap.
From S2P Require Import Prelude WriteUnlock RunningQueries.

(** ** Steps *)

Inductive Step : world -> world -> Prop :=
| step_register w id metadata remember parent : Step w (fst (register_task_with_token id metadata remember parent w))
| step_interrupt w id i : i ∉ handed w -> Step w (register_interrupt id i w)
| step_cancel w id : Step w (fst (cancel id w))
| step_drop w g : Step w (drop_guard g w)
| step_expire w g : detached g = true -> Step w (expire_detached g w)
| step_result w id : Step w (fst (completed_execution_result id w))
| step_pool w id key : Step w (set_pool_key id key w)
| step_tick w elapsed :
    Step w (mk_world (inner w) (completed w) (next_registration_id w) (now w + elapsed)%N (cancelled w) (cancelled_parents w) (signalled w)
              (handed w) (fired w) (events w))
| step_parent w p :
    Step w (mk_world (inner w) (completed w) (next_registration_id w) (now w) (cancelled w) (p :: cancelled_parents w) (signalled w)
              (handed w) (fired w) (events w)).

Definition Reachable (w : world) : Prop := rtc Step empty_world w.

(** The other operations are sequences of steps. *)
Lemma cancel_ids_steps ids : forall w, rtc Step w (fst (cancel_ids ids w)).
Proof.
  induction ids as [|id ids IH]; intros w; [done|]. cbn [cancel_ids]. destruct (cancel id w) as [w1 ok] eqn:Hc.
  specialize (IH w1). destruct (cancel_ids ids w1) as [w2 n]. eapply rtc_l; [|exact IH]. replace w1 with (fst (cancel id w)) by by rewrite Hc.
  constructor.
Qed.

Lemma cancel_matching_steps predicate w : rtc Step w (fst (cancel_matching predicate w)).
Proof. apply cancel_ids_steps. Qed.

Lemma finish_steps g r keep w : rtc Step w (fst (finish_with_late_cancel g r keep w)) /\ rtc Step w (fst (finish_with_database_result g r w)).
Proof.
  unfold finish_with_late_cancel, finish_with_database_result. cbn [fst].
  split; [destruct (keep && _); [done|]|]; cbn [fst]; apply rtc_once, step_drop.
Qed.

(** ** Stored interrupts *)

Definition stored (m : gmap text RunningTask) : list N := map_to_list m ≫= fun entry => option_list (interrupt entry.2).

Lemma stored_insert_fresh m id task : m !! id = None -> stored (<[id := task]> m) ≡ₚ option_list (interrupt task) ++ stored m.
Proof. intros Hm. unfold stored. by rewrite (map_to_list_insert m id task Hm). Qed.

Lemma stored_split m id task : m !! id = Some task -> stored m ≡ₚ option_list (interrupt task) ++ stored (delete id m).
Proof. intros Hm. rewrite <- (insert_delete_id m id task Hm) at 1. apply stored_insert_fresh, lookup_delete_eq. Qed.

Lemma stored_insert m id task : stored (<[id := task]> m) ≡ₚ option_list (interrupt task) ++ stored (delete id m).
Proof. rewrite <- insert_delete_eq. apply stored_insert_fresh, lookup_delete_eq. Qed.

(** ** The invariant *)

(** The last registration of an id. *)
Fixpoint latest (id : text) (events : list event) : option N :=
  match events with
  | [] => None
  | Registered k rid :: events' => if decide (k = id) then Some rid else latest id events'
  | Finished _ _ _ _ :: events' => latest id events'
  end.

Definition task_wf (w : world) (task : RunningTask) : Prop :=
  token_id (token task) = registration_id task /\ (registration_id task <= next_registration_id w)%N
  /\ (registration_id task ∈ cancelled w -> interrupt task = None).

(** The interrupts that were run and those that are stored. *)
Definition kept (w : world) : list N := fired w ++ stored (inner w).

Record Inv (w : world) : Prop := {
  inv_once : NoDup (kept w);
  inv_handed i : i ∈ kept w -> i ∈ handed w;
  inv_tasks : map_Forall (fun _ task => task_wf w task) (inner w);
  inv_unique id id' task task' :
    inner w !! id = Some task -> inner w !! id' = Some task' -> registration_id task = registration_id task' -> id = id';
  inv_cancelled : Forall (fun rid => (rid <= next_registration_id w)%N) (cancelled w);
  inv_latest : map_Forall (fun id task => latest id (events w) = Some (registration_id task)) (inner w);
  inv_completed : map_Forall (fun id entry => inner w !! id = None
    /\ exists rid, latest id (events w) = Some rid /\ Finished id rid (snd entry) (fst entry) ∈ events w) (completed w)
}.

Section Preservation.

Context (w : world) (Hinv : Inv w).

Lemma kept_split id task :
  inner w !! id = Some task -> kept w ≡ₚ option_list (interrupt task) ++ fired w ++ stored (delete id (inner w)).
Proof. intros Hid. unfold kept. rewrite (stored_split _ _ _ Hid). apply Permutation_app_swap_app. Qed.

Lemma task_facts id task : inner w !! id = Some task -> task_wf w task.
Proof. intros Hid. exact (inv_tasks w Hinv id task Hid). Qed.

Lemma retain_lookup t c id entry : retain_completed t c !! id = Some entry -> c !! id = Some entry /\ (t - fst entry < DETACHED_REGISTRATION_GRACE_PERIOD)%N.
Proof. unfold retain_completed. intros [Hc Ht]%map_lookup_filter_Some. by destruct entry. Qed.

Lemma inv_register id metadata remember par : Inv (fst (register_task_with_token id metadata remember par w)).
Proof.
  destruct Hinv as [Hh Hn Ht Hu Hc Hl Hcm].
  assert (Hsame : kept (fst (register_task_with_token id metadata remember par w)) ≡ₚ kept w).
  { unfold kept at 1, register_task_with_token. cbn [fst fired inner]. rewrite stored_insert. cbn [interrupt option_list app].
    destruct (inner w !! id) as [task|] eqn:Hid; [by rewrite (kept_split id task Hid), <- app_assoc|by rewrite delete_id]. }
  constructor; cbn [handed fired inner next_registration_id cancelled events completed]; [by rewrite Hsame|by intros i; rewrite Hsame; apply Hn|..]; cbn [fst register_task_with_token inner cancelled next_registration_id events completed].
  - intros k task [[-> <-]|[Hk Htask]]%lookup_insert_Some; [split_and!; cbn; [done|lia|done]|].
    destruct (Ht k task Htask) as (Htok & Hle & Hcan). split_and!; cbn; [done|lia|]. intros Hin. apply Hcan.
    destruct (inner w !! id) as [previous|] eqn:Hid; [|done]. apply elem_of_cons in Hin as [Heq|]; [|done].
    destruct (task_facts id previous Hid) as (Hptok & _ & _). destruct Hk. apply (Hu id k previous task); congruence.
  - intros k k' task task' [[<- <-]|[Hk Htask]]%lookup_insert_Some [[<- <-]|[Hk' Htask']]%lookup_insert_Some; cbn; [done|..].
    + destruct (task_facts k' task' Htask') as (_ & Hle & _). lia.
    + destruct (task_facts k task Htask) as (_ & Hle & _). lia.
    + by apply Hu.
  - assert (Forall (fun rid => (rid <= next_registration_id w + 1)%N) (cancelled w)) as Hc' by (eapply Forall_impl; [exact Hc|cbn; lia]).
    destruct (inner w !! id) as [previous|] eqn:Hid; [|done]. constructor; [|done].
    destruct (task_facts id previous Hid) as (-> & Hle & _). lia.
  - intros k task [[-> <-]|[Hk Htask]]%lookup_insert_Some; cbn; [by rewrite decide_True|].
    rewrite decide_False by done. by apply Hl.
  - intros k entry [Hk Hentry]%lookup_delete_Some. apply retain_lookup in Hentry as [Hentry _].
    destruct (Hcm k entry Hentry) as (Hin & rid & Hlat & Hfin). rewrite lookup_insert_ne by done. split; [done|]. exists rid. cbn.
    rewrite decide_False by done. split; [done|by right].
Qed.

(** A task that keeps its registration. *)
Lemma inv_same_registration id task task' f h c :
  inner w !! id = Some task -> registration_id task' = registration_id task -> token task' = token task ->
  (forall rid, rid ∈ c -> rid ∈ cancelled w \/ rid = registration_id task) ->
  (registration_id task' ∈ c -> interrupt task' = None) ->
  NoDup (option_list (interrupt task') ++ f ++ stored (delete id (inner w))) ->
  (forall i, i ∈ option_list (interrupt task') ++ f ++ stored (delete id (inner w)) -> i ∈ h) ->
  forall s p, Inv (mk_world (<[id := task']> (inner w)) (completed w) (next_registration_id w) (now w) c p s h f (events w)).
Proof.
  intros Hid Hrid Htok Hc' Hint Hnd Hsub s p. destruct Hinv as [Hh Hn Ht Hu Hc Hl Hcm].
  destruct (task_facts id task Hid) as (Htid & Hle & Hcan).
  assert (Hkept : f ++ stored (<[id := task']> (inner w)) ≡ₚ option_list (interrupt task') ++ f ++ stored (delete id (inner w))).
  { rewrite stored_insert. apply Permutation_app_swap_app. }
  constructor; unfold kept; cbn [handed fired inner next_registration_id cancelled events completed]; [by rewrite Hkept|by intros i; rewrite Hkept; apply Hsub|..].
  - intros k t [[-> <-]|[Hk Htask]]%lookup_insert_Some.
    + split_and!; cbn; [congruence|congruence|done].
    + destruct (Ht k t Htask) as (Htok' & Hle' & Hcan'). split_and!; cbn; [done..|]. intros Hin.
      destruct (Hc' _ Hin) as [?|Heq]; [by apply Hcan'|]. destruct Hk. by apply (Hu id k task t).
  - intros k k' t t' [[<- <-]|[Hk Htask]]%lookup_insert_Some [[<- <-]|[Hk' Htask']]%lookup_insert_Some; cbn; [done|..].
    + rewrite Hrid. by apply Hu.
    + rewrite Hrid. by apply Hu.
    + by apply Hu.
  - apply Forall_forall. intros rid Hin. destruct (Hc' _ Hin) as [Hr| ->]; [|done]. by apply (proj1 (Forall_forall _ _) Hc).
  - intros k t [[-> <-]|[Hk Htask]]%lookup_insert_Some; [rewrite Hrid|]; by apply Hl.
  - intros k entry Hentry. destruct (Hcm k entry Hentry) as (Hin & Hrest). split; [|done].
    apply lookup_insert_None. split; [done|]. intros ->. congruence.
Qed.

(** A task that is gone. *)
Lemma inv_removed id task f h c cm ev :
  inner w !! id = Some task ->
  (forall rid, rid ∈ c -> rid ∈ cancelled w \/ rid = registration_id task) ->
  h = handed w -> NoDup (f ++ stored (delete id (inner w))) -> (forall i, i ∈ f ++ stored (delete id (inner w)) -> i ∈ kept w) ->
  (forall k, latest k ev = latest k (events w)) ->
  map_Forall (fun k entry => (k = id \/ completed w !! k = Some entry)
    /\ (k = id -> Finished id (registration_id task) (snd entry) (fst entry) ∈ ev)) cm ->
  events w ⊆ ev ->
  forall s p, Inv (mk_world (delete id (inner w)) cm (next_registration_id w) (now w) c p s h f ev).
Proof.
  intros Hid Hc' -> Hnd Hsub Hlat Hcm' Hev s p. destruct Hinv as [Hh Hn Ht Hu Hc Hl Hcm].
  destruct (task_facts id task Hid) as (Htid & Hle & Hcan).
  constructor; cbn [handed fired inner next_registration_id cancelled events completed]; [done|intros i Hi; by apply Hn, Hsub|..].
  - intros k t [Hk Htask]%lookup_delete_Some. destruct (Ht k t Htask) as (Htok' & Hle' & Hcan'). split_and!; cbn; [done..|]. intros Hin.
    destruct (Hc' _ Hin) as [?|Heq]; [by apply Hcan'|]. destruct Hk. by apply (Hu id k task t).
  - intros k k' t t' [Hk Htask]%lookup_delete_Some [Hk' Htask']%lookup_delete_Some. by apply Hu.
  - apply Forall_forall. intros rid Hin. destruct (Hc' _ Hin) as [Hr| ->]; [|done]. by apply (proj1 (Forall_forall _ _) Hc).
  - intros k t [Hk Htask]%lookup_delete_Some. cbn. rewrite Hlat. by apply Hl.
  - intros k entry Hentry. destruct (Hcm' k entry Hentry) as [Hold Hfin]. destruct (decide (k = id)) as [->|Hk].
    + split; [apply lookup_delete_eq|]. exists (registration_id task). rewrite Hlat. split; [by apply Hl|by apply Hfin].
    + destruct Hold as [?|Hold]; [done|]. destruct (Hcm k entry Hold) as (Hin & rid & Hr & Hf).
      rewrite lookup_delete_ne by done. split; [done|]. exists rid. rewrite Hlat. split; [done|by apply Hev].
Qed.

Lemma inv_interrupt id i : i ∉ handed w -> Inv (register_interrupt id i w).
Proof.
  intros Hi. assert (i ∉ kept w) as Hik by (intros Hin; by apply Hi, (inv_handed w Hinv)).
  assert (forall s p, Inv (mk_world (inner w) (completed w) (next_registration_id w) (now w) (cancelled w) p s
    (i :: handed w) (i :: fired w) (events w))) as Hfire.
  { intros s p. destruct Hinv as [Hh Hn Ht Hu Hc Hl Hcm]. constructor; try done.
    - unfold kept. cbn. by apply NoDup_cons.
    - unfold kept. cbn. intros j [->|Hj]%elem_of_cons; [left|right]. by apply Hn. }
  unfold register_interrupt. destruct (inner w !! id) as [task|] eqn:Hid; [|apply Hfire].
  destruct (is_cancelled w (token task)) eqn:Hcan; [apply Hfire|].
  pose proof (inv_once w Hinv) as Hnd. rewrite (kept_split id task Hid) in Hnd, Hik. apply NoDup_app in Hnd as (_ & _ & Hnd).
  apply (inv_same_registration id task); [done|done|done|by left| | | ].
  - cbn. intros Hin. apply orb_false_iff in Hcan as [Hcan _]. apply bool_decide_eq_false in Hcan. destruct Hcan.
    by rewrite (proj1 (task_facts id task Hid)).
  - cbn. apply NoDup_cons. split; [|done]. rewrite elem_of_app in Hik. tauto.
  - cbn. intros j [->|Hj]%elem_of_cons; [left|right]. apply (inv_handed w Hinv). rewrite (kept_split id task Hid), elem_of_app. by right.
Qed.

Lemma inv_cancel id : Inv (fst (cancel id w)).
Proof.
  unfold cancel. destruct (inner w !! id) as [task|] eqn:Hid; [|done]. cbn [fst].
  assert (forall rid, rid ∈ token_id (token task) :: cancelled w -> rid ∈ cancelled w \/ rid = registration_id task) as Hc.
  { intros rid [->|?]%elem_of_cons; [right; apply (task_facts id task Hid)|by left]. }
  pose proof (inv_once w Hinv) as Hnd. pose proof (kept_split id task Hid) as Hk. rewrite Hk in Hnd.
  destruct (remember_completion task).
  - apply (inv_same_registration id task); [done|done|done|done|done| |]; cbn [with_interrupt interrupt option_list]; rewrite app_nil_l, <- app_assoc.
    + done.
    + intros i. rewrite <- Hk. apply (inv_handed w Hinv).
  - apply (inv_removed id task); [done|done|done| | |done| |done]; rewrite <- ?app_assoc.
    + done.
    + intros i. by rewrite Hk.
    + intros k entry Hentry. split; [by right|]. intros ->. destruct (inv_completed w Hinv id entry Hentry). congruence.
Qed.

Lemma inv_remove id rid dt : Inv (remove id rid dt w).
Proof.
  unfold remove. destruct (inner w !! id) as [task|] eqn:Hid; [|done]. destruct (N.eqb_spec (registration_id task) rid) as [<-|]; [|done].
  pose proof (inv_once w Hinv) as Hnd. pose proof (kept_split id task Hid) as Hk. rewrite Hk in Hnd. apply NoDup_app in Hnd as (_ & _ & Hnd).
  apply (inv_removed id task); [done|by left|done|done| |done| |by right].
  - intros i Hi. rewrite Hk, elem_of_app. by right.
  - intros k entry Hentry. destruct (remember_completion task).
    + apply lookup_insert_Some in Hentry as [[<- <-]|[Hk' Hentry]]; [split; [by left|intros _; by left]|]. split; [by right|]. by intros ->.
    + split; [by right|]. intros ->. destruct (inv_completed w Hinv id entry Hentry). congruence.
Qed.

Lemma inv_drop g : Inv (drop_guard g w).
Proof. unfold drop_guard. destruct (detached g); [done|by apply inv_remove]. Qed.

Lemma inv_result id : Inv (fst (completed_execution_result id w)).
Proof.
  unfold completed_execution_result. destruct (inner w !! id); [done|]. destruct Hinv as [Hh Hn Ht Hu Hc Hl Hcm]. constructor; try done.
  intros k entry [Hentry _]%retain_lookup. by apply Hcm.
Qed.

Lemma inv_pool id key : Inv (set_pool_key id key w).
Proof.
  unfold set_pool_key. destruct (inner w !! id) as [task|] eqn:Hid; [|done]. unfold set_task.
  pose proof (kept_split id task Hid) as Hk.
  apply (inv_same_registration id task); [done|done|done|by left| | |]; cbn [interrupt].
  - intros Hin. by apply (task_facts id task Hid).
  - rewrite <- Hk. by apply inv_once.
  - intros i. rewrite <- Hk. by apply inv_handed.
Qed.

End Preservation.

Lemma inv_empty : Inv empty_world.
Proof. constructor; cbn; try done; try apply map_Forall_empty; constructor. Qed.

Lemma inv_reachable w : Reachable w -> Inv w.
Proof.
  intros Hr. refine (rtc_ind_r Inv empty_world inv_empty _ w Hr). clear. intros w w' _ Hstep Hinv.
  destruct Hstep; [by apply inv_register|by apply inv_interrupt|by apply inv_cancel|by apply inv_drop|by apply inv_remove|by apply inv_result|by apply inv_pool|..];
    destruct Hinv; by constructor.
Qed.

(** ** What becomes of an interrupt *)

(** A cancellation runs the interrupt of the execution, and no other. *)
Lemma cancel_runs w id task : inner w !! id = Some task -> fired (fst (cancel id w)) = option_list (interrupt task) ++ fired w.
Proof. unfold cancel. by intros ->. Qed.

Lemma cancel_elsewhere w id id' : id' <> id -> inner (fst (cancel id' w)) !! id = inner w !! id.
Proof.
  intros Hne. unfold cancel. destruct (inner w !! id') as [task|]; [|done]. cbn [fst inner].
  destruct (remember_completion task); [by rewrite lookup_insert_ne|by rewrite lookup_delete_ne].
Qed.

Lemma cancel_fired_grows w id i : i ∈ fired w -> i ∈ fired (fst (cancel id w)).
Proof. intros Hi. unfold cancel. destruct (inner w !! id); [|done]. cbn. apply elem_of_app. by right. Qed.

Lemma cancel_ids_runs ids w i :
  i ∈ fired w \/ (exists id task, id ∈ ids /\ inner w !! id = Some task /\ interrupt task = Some i) -> i ∈ fired (fst (cancel_ids ids w)).
Proof.
  revert w. induction ids as [|id' ids IH]; intros w Hi; [by destruct Hi as [?|(id & task & ?%not_elem_of_nil & _)]|].
  cbn [cancel_ids]. destruct (cancel id' w) as [w1 ok] eqn:Hc. specialize (IH w1). destruct (cancel_ids ids w1) as [w2 n]. cbn [fst] in *.
  apply IH. replace w1 with (fst (cancel id' w)) by by rewrite Hc.
  destruct Hi as [Hi|(id & task & Hin & Hid & Htask)]; [left; by apply cancel_fired_grows|].
  destruct (decide (id = id')) as [<-|Hne].
  - left. rewrite (cancel_runs w id task Hid), Htask. left.
  - right. exists id, task. rewrite cancel_elsewhere by done. apply elem_of_cons in Hin as [|]; done.
Qed.

Lemma cancel_matching_runs predicate w id task i :
  inner w !! id = Some task -> predicate task = true -> interrupt task = Some i -> i ∈ fired (fst (cancel_matching predicate w)).
Proof.
  intros Hid Hp Hi. apply cancel_ids_runs. right. exists id, task. split_and!; [|done|done].
  unfold matching_ids. apply list_elem_of_fmap. exists (id, task). split; [done|].
  apply list_elem_of_In, filter_In. split; [apply list_elem_of_In; by apply elem_of_map_to_list|done].
Qed.

(** The execution [rid] of [id] still stores the interrupt [i]. *)
Definition stores (w : world) (id : text) (rid i : N) : Prop :=
  exists task, inner w !! id = Some task /\ registration_id task = rid /\ interrupt task = Some i.

(** A step that loses a stored interrupt without running it. *)
Inductive Forgets (w : world) (id : text) (rid : N) : world -> Prop :=
| forgets_ended g : execution_id g = id -> guard_registration_id g = rid -> detached g = false -> Forgets w id rid (drop_guard g w)
| forgets_expired g : execution_id g = id -> guard_registration_id g = rid -> detached g = true -> Forgets w id rid (expire_detached g w)
| forgets_replaced task j :
    inner w !! id = Some task -> is_cancelled w (token task) = false -> stores (register_interrupt id j w) id rid j ->
    Forgets w id rid (register_interrupt id j w).

Lemma remove_keeps w id rid i id' rid' dt : stores w id rid i -> (id', rid') <> (id, rid) -> stores (remove id' rid' dt w) id rid i.
Proof.
  intros (task & Hid & Hrid & Hi) Hne. unfold remove. destruct (inner w !! id') as [task'|] eqn:Hid'; [|by exists task].
  destruct (N.eqb_spec (registration_id task') rid') as [Heq|]; [|by exists task]. exists task. cbn.
  rewrite lookup_delete_ne; [done|]. intros ->. apply Hne. congruence.
Qed.

(** No other step loses one. *)
Lemma step_keeps w w' id rid i : Step w w' -> stores w id rid i -> i ∈ fired w' \/ stores w' id rid i \/ Forgets w id rid w'.
Proof.
  intros Hstep Hst. pose proof Hst as (task & Hid & Hrid & Hi).
  destruct Hstep as [w id' metadata remember par|w id' j Hj|w id'|w g|w g Hdet|w id'|w id' key|w elapsed|w p].
  - destruct (decide (id' = id)) as [->|Hne].
    + left. cbn. rewrite Hid, Hi. left.
    + right. left. exists task. cbn. by rewrite lookup_insert_ne.
  - unfold register_interrupt. destruct (inner w !! id') as [task'|] eqn:Hid'; [|by right; left].
    destruct (is_cancelled w (token task')) eqn:Hc; [by right; left|]. destruct (decide (id' = id)) as [->|Hne].
    + right. right. assert (task' = task) as -> by congruence.
      assert (Heq : forall w', w' = register_interrupt id j w -> stores w' id rid j -> Forgets w id rid w')
        by (intros w' ->; by apply (forgets_replaced _ _ _ task)).
      apply Heq; [unfold register_interrupt; by rewrite Hid, Hc|]. exists (with_interrupt (Some j) task). cbn. by rewrite lookup_insert_eq.
    + right. left. exists task. cbn. by rewrite lookup_insert_ne.
  - destruct (decide (id' = id)) as [->|Hne]; [left; by rewrite (cancel_runs w id task Hid), Hi; left|].
    right. left. exists task. by rewrite cancel_elsewhere.
  - destruct (detached g) eqn:Hd; [unfold drop_guard; rewrite Hd; by right; left|].
    destruct (decide ((execution_id g, guard_registration_id g) = (id, rid))) as [[= He Hr]|Hne]; [right; right; by apply forgets_ended|].
    right. left. unfold drop_guard. rewrite Hd. by apply remove_keeps.
  - destruct (decide ((execution_id g, guard_registration_id g) = (id, rid))) as [[= He Hr]|Hne]; [right; right; by apply forgets_expired|].
    right. left. by apply remove_keeps.
  - right. left. unfold completed_execution_result. by destruct (inner w !! id').
  - right. left. unfold set_pool_key. destruct (inner w !! id') as [task'|] eqn:Hid'; [|done]. unfold stores, set_task. cbn.
    destruct (decide (id' = id)) as [->|Hne]; [|exists task; by rewrite lookup_insert_ne].
    rewrite lookup_insert_eq. eexists. split; [done|]. cbn. by assert (task' = task) as -> by congruence.
  - by right; left.
  - by right; left.
Qed.

(** C34: an interrupt is run at most once, and a cancellation runs it.  In every interleaving of registrations, interrupts,
    cancellations, ends and expiries:
    no interrupt is run twice, and none that is stored was run; one handed over for an execution that is gone or cancelled
    (also by its parent token) runs at once, for a running one it is stored;
    cancelling an execution, by its id or by any of the scopes, runs the interrupt it stores, and so does a newer execution
    that takes its id; an execution whose own token was cancelled stores none (one cancelled by its parent token may still
    store the one it had);
    a stored interrupt is given up without being run only when its execution ends, expires, or hands over another one. *)
Theorem interrupts_run_once (w : world) (Hreach : Reachable w) :
  NoDup (fired w ++ stored (inner w))
  /\ (forall id i, i ∉ handed w ->
        match inner w !! id with
        | Some task => if is_cancelled w (token task) then i ∈ fired (register_interrupt id i w)
                       else stores (register_interrupt id i w) id (registration_id task) i
        | None => i ∈ fired (register_interrupt id i w)
        end)
  /\ (forall id task i, inner w !! id = Some task -> interrupt task = Some i ->
        fired (fst (cancel id w)) = i :: fired w
        /\ (forall predicate, predicate task = true -> i ∈ fired (fst (cancel_matching predicate w)))
        /\ (forall metadata remember parent, fired (fst (register_task_with_token id metadata remember parent w)) = i :: fired w)
        /\ token_id (token task) ∉ cancelled w)
  /\ (forall w' id rid i, Step w w' -> stores w id rid i -> i ∈ fired w' \/ stores w' id rid i \/ Forgets w id rid w').
Proof.
  destruct (inv_reachable w Hreach) as [Hnd Hh Ht _ _ _ _]. split_and!; [done|..].
  - intros id i Hi. unfold register_interrupt. destruct (inner w !! id) as [task|] eqn:Hid; [|left].
    destruct (is_cancelled w (token task)); [left|]. exists (with_interrupt (Some i) task). cbn. by rewrite lookup_insert_eq.
  - intros id task i Hid Hi. split_and!.
    + by rewrite (cancel_runs w id task Hid), Hi.
    + intros predicate Hp. by eapply cancel_matching_runs.
    + intros metadata remember par. cbn. by rewrite Hid, Hi.
    + intros Hc. destruct (Ht id task Hid) as (Htok & _ & Hcan). rewrite Htok in Hc. specialize (Hcan Hc). congruence.
  - intros w' id rid i. apply step_keeps.
Qed.

Lemma finished_answer id rid dt w task :
  inner w !! id = Some task -> registration_id task = rid -> remember_completion task = true ->
  snd (completed_execution_result id (remove id rid dt w)) = mk_wait false true (Some dt).
Proof.
  intros Hid <- Hrem. unfold remove. rewrite Hid, N.eqb_refl, Hrem. unfold completed_execution_result. cbn [inner completed now].
  rewrite lookup_delete_eq. cbn [snd]. set (c := retain_completed _ _).
  assert (c !! id = Some (now w, dt)) as ->.
  { unfold c, retain_completed. apply map_lookup_filter_Some. rewrite lookup_insert_eq. split; [done|]. cbn. rewrite N.sub_diag. by vm_compute. }
  by rewrite bool_decide_true.
Qed.

(** C35: what an answer about completion says.  When an execution is reported terminal, no registration of its id runs, and
    the latest one was removed less than thirty minutes ago; the database part of the answer is the verdict it was removed
    with.  A registration that remembers completion is reported terminal with the verdict of its guard once the guard is
    dropped, and with a negative verdict once a detached one expires, so a positive verdict always comes from a guard.
    While a registration runs, nothing is reported terminal, and the guard of an older one changes nothing. *)
Theorem completion_answers_are_true (w : world) (Hreach : Reachable w) (id : text) :
  let r := snd (completed_execution_result id w) in
  (terminal r = true ->
     inner w !! id = None
     /\ exists rid dt at_, latest id (events w) = Some rid /\ Finished id rid dt at_ ∈ events w
        /\ (now w - at_ < from_secs (30 * 60))%N /\ result_database_terminal r = Some dt)
  /\ (result_database_terminal r = Some true -> terminal r = true)
  /\ (forall g task, inner w !! id = Some task -> execution_id g = id -> guard_registration_id g = registration_id task ->
        remember_completion task = true ->
        if detached g then snd (completed_execution_result id (expire_detached g w)) = mk_wait false true (Some false)
        else snd (completed_execution_result id (drop_guard g w)) = mk_wait false true (Some (database_terminal g)))
  /\ (forall g, execution_id g = id -> latest id (events w) <> Some (guard_registration_id g) -> drop_guard g w = w /\ expire_detached g w = w).
Proof.
  destruct (inv_reachable w Hreach) as [_ _ _ _ _ Hl Hcm]. cbn zeta.
  assert (Hanswer : forall g task, inner w !! id = Some task -> execution_id g = id -> guard_registration_id g = registration_id task ->
    remember_completion task = true ->
    if detached g then snd (completed_execution_result id (expire_detached g w)) = mk_wait false true (Some false)
    else snd (completed_execution_result id (drop_guard g w)) = mk_wait false true (Some (database_terminal g))).
  { intros g task Hid <- Hrid Hrem. unfold expire_detached, drop_guard. destruct (detached g); by eapply finished_answer. }
  assert (Hstale : forall g, execution_id g = id -> latest id (events w) <> Some (guard_registration_id g) ->
    drop_guard g w = w /\ expire_detached g w = w).
  { intros g <- Hg. assert (Hsame : forall dt, remove (execution_id g) (guard_registration_id g) dt w = w).
    { intros dt. unfold remove. destruct (inner w !! execution_id g) as [task|] eqn:Hid; [|done]. specialize (Hl _ task Hid). cbn in Hl.
      destruct (N.eqb_spec (registration_id task) (guard_registration_id g)); [congruence|done]. }
    unfold drop_guard, expire_detached. rewrite !Hsame. by destruct (detached g). }
  unfold completed_execution_result in *. destruct (inner w !! id) as [task|] eqn:Hid; cbn [snd terminal result_database_terminal]; [done|].
  set (c := retain_completed _ (completed w)). destruct (c !! id) as [[at_ dt]|] eqn:Hc.
  - destruct (retain_lookup _ _ _ _ Hc) as [Hentry Hage]. destruct (Hcm id _ Hentry) as (_ & rid & Hlat & Hfin).
    split_and!; [|by rewrite bool_decide_true|done|done]. intros _. split; [done|]. exists rid, dt, at_. done.
  - rewrite bool_decide_false by congruence. done.
Qed.

(** ** Concrete runs *)

Definition q1 : text := %"q1".

(** An execution is registered, hands over an interrupt, is cancelled, hands over
    another one, and ends with a proof that the database is done. *)
Definition started : world := fst (register_task_for_terminal_confirmation q1 default_metadata empty_world).
Definition stopped : world := fst (cancel q1 (register_interrupt q1 7 started)).
Definition ended : world := drop_guard (mk_registered q1 1 false true) (register_interrupt q1 8 stopped).

Lemma ended_reachable : Reachable ended.
Proof.
  unfold Reachable, ended, stopped, started.
  eapply rtc_r; [|apply step_drop]. eapply rtc_r; [|apply step_interrupt].
  - eapply rtc_r; [|apply step_cancel]. eapply rtc_r; [|apply step_interrupt]; [eapply rtc_once, step_register|].
    intros Hin. apply list_elem_of_In in Hin. by vm_compute in Hin.
  - intros Hin. apply list_elem_of_In in Hin. vm_compute in Hin. by destruct Hin.
Qed.

(** The execution while it runs, with its interrupt. *)
Definition interruptible : world := register_interrupt q1 7 started.

Lemma interruptible_reachable : Reachable interruptible.
Proof.
  eapply rtc_r; [eapply rtc_once, step_register|apply step_interrupt]. intros Hin. apply list_elem_of_In in Hin. by vm_compute in Hin.
Qed.

Definition interruptible_task : RunningTask := mk_task 1 (mk_token 1 None) true default_metadata None (Some 7%N).

Lemma interrupts_run_once_witness :
  fired ended = [8; 7]%N /\ NoDup (fired ended ++ stored (inner ended)) /\ fired (fst (cancel q1 interruptible)) = 7%N :: fired interruptible.
Proof.
  split; [vm_compute; reflexivity|]. split; [apply (interrupts_run_once ended ended_reachable)|].
  destruct (interrupts_run_once interruptible interruptible_reachable) as (_ & _ & Hruns & _).
  exact (proj1 (Hruns q1 interruptible_task 7%N eq_refl eq_refl)).
Defined.

(** An execution that its parent token cancelled keeps the interrupt it had. *)
Example parent_keeps_interrupt :
  let w := register_interrupt q1 7 (fst (register_task_for_terminal_confirmation_with_parent q1 default_metadata 5 empty_world)) in
  let w := mk_world (inner w) (completed w) (next_registration_id w) (now w) (cancelled w) (5%N :: cancelled_parents w) (signalled w)
             (handed w) (fired w) (events w) in
  match inner w !! q1 with Some task => is_cancelled w (token task) = true /\ interrupt task = Some 7%N | None => False end.
Proof. vm_compute. split; reflexivity. Qed.

Lemma ended_terminal : terminal (snd (completed_execution_result q1 ended)) = true.
Proof. vm_compute. reflexivity. Qed.

Lemma completion_answers_are_true_witness :
  exists rid dt at_, latest q1 (events ended) = Some rid /\ Finished q1 rid dt at_ ∈ events ended
    /\ (now ended - at_ < from_secs (30 * 60))%N
    /\ result_database_terminal (snd (completed_execution_result q1 ended)) = Some dt.
Proof. apply (completion_answers_are_true ended ended_reachable q1). apply ended_terminal. Defined.

(** An execution that timed out and was detached is reported terminal once its
    registration expires, although nothing is known about it. *)
Lemma expired_registration_reports_terminal :
  let '(w, g) := register_task_for_terminal_confirmation q1 default_metadata empty_world in
  let '(w, g') := finish g (Some (Timeout [])) w in
  match g' with
  | Some g' =>
      let r := snd (completed_execution_result q1 (expire_detached g' w)) in
      detached g' = true /\ terminal r = true /\ result_database_terminal r = Some false
  | None => False
  end.
Proof. vm_compute. split_and!; reflexivity. Qed.
