(* ===== verification/SchemaTypes.v ===== *)
(** * SchemaTypes: the data of a schema comparison ([dbx-types/types.rs], [schema_diff.rs]).

    The metadata records a driver reports, the difference records the comparison
    produces and the options that drive it, field by field.  A record that the
    sources only copy keeps its fields all the same: rollback and code generation
    read them.  [f64] values are binary64 numbers of the Standard Library's
    executable IEEE specification. *)

From stdpp Require Import pretty.
From Stdlib Require Import SpecFloat.
From S2P Require Import Prelude DbTypes.

(** ** Binary64 *)

Module F64.

Definition prec : Z := 53%Z.
Definition emax : Z := 1024%Z.

Definition t : Set := spec_float.

Definition zero : t := S754_zero false.
Definition one : t := S754_finite false 4503599627370496 (-52).
Definition mul (a b : t) : t := SFmul prec emax a b.
Definition add (a b : t) : t := SFadd prec emax a b.
Definition div (a b : t) : t := SFdiv prec emax a b.
Definition lt (a b : t) : bool := SFltb a b.
Definition le (a b : t) : bool := SFleb a b.
Definition compare (a b : t) : option comparison := SFcompare a b.

(** [n as f64], for the integers the sources convert (far below 2^53). *)
Definition of_N (n : N) : t := binary_normalize prec emax (Z.of_N n) 0 false.

(** The decimal literals of the sources, as their nearest binary64 numbers. *)
Definition lit_0_3 : t := S754_finite false 5404319552844595 (-54).
Definition lit_0_4 : t := S754_finite false 7205759403792794 (-54).
Definition lit_0_5 : t := S754_finite false 4503599627370496 (-53).
Definition lit_0_6 : t := S754_finite false 5404319552844595 (-53).
Definition lit_0_7 : t := S754_finite false 6305039478318694 (-53).
Definition lit_0_8 : t := S754_finite false 7205759403792794 (-53).
Definition lit_0_9 : t := S754_finite false 8106479329266893 (-53).

End F64.

(** Decimal rendering of an integer ([to_string] of [i32], [usize]). *)
Definition show_Z (z : Z) : text := lit (pretty z).
Definition show_nat (n : nat) : text := lit (pretty (N.of_nat n)).

(** The separator of a change description, [" → "]. *)
Definition arrow : text := [space; 8594%N; space].

(** [o.as_deref().unwrap_or_default()]. *)
Definition or_default (o : option text) : text := default [] o.

(** ** Driver metadata *)

Module ColumnMetadataCapabilities.
Record t : Set := mk { default : bool; length : bool; precision : bool; scale : bool }.
End ColumnMetadataCapabilities.

Module ColumnInfo.
Record t : Set := mk {
  name : text; data_type : text;
  resolved_schema : option text; resolved_table : option text; resolved_object_type : option text;
  is_nullable : bool; column_default : option text; is_primary_key : bool; is_unique : bool;
  extra : option text; comment : option text;
  numeric_precision : option Z; numeric_scale : option Z; character_maximum_length : option Z;
  enum_values : option (list text); character_set : option text; collation : option text;
  metadata_capabilities : option ColumnMetadataCapabilities.t
}.

(** A nullable column with nothing but a name and a type. *)
Definition plain (name data_type : text) : t :=
  mk name data_type None None None true None false false None None None None None None None None None.
End ColumnInfo.

Module IndexInfo.
Record t : Set := mk {
  owner : option text; name : text; columns : list text; is_unique : bool; is_primary : bool;
  filter : option text; index_type : option text; included_columns : option (list text); comment : option text;
  key_is_expression : list bool; key_directions : list text; visibility : option text;
  key_metadata_complete : bool; column_opclasses : list (option text); key_options : list Z;
  constraint_backed : bool
}.
End IndexInfo.

Module ForeignKeyInfo.
Record t : Set := mk {
  name : text; column : text; ref_schema : option text; ref_table : text; ref_column : text;
  on_update : option text; on_delete : option text
}.
End ForeignKeyInfo.

Module TriggerInfo.
Record t : Set := mk {
  name : text; event : text; timing : text; level : option text; condition : option text;
  language : option text; enabled : option bool; valid : option bool; comment : option text;
  created_at : option text; statement : option text
}.
End TriggerInfo.

Module FunctionInfo.
Record t : Set := mk { name : text; function_type : text; data_type : text; definition : text; arguments : text }.
End FunctionInfo.

Module SequenceInfo.
Record t : Set := mk {
  name : text; data_type : text; start_value : text; min_value : text; max_value : text; increment : text;
  cycle : bool; last_value : option text
}.
End SequenceInfo.

Module RuleInfo.
Record t : Set := mk { name : text; table_name : text; definition : text }.
End RuleInfo.

Module OwnerInfo.
Record t : Set := mk { object_name : text; object_type : text; owner : text }.
End OwnerInfo.

Module TableInfo.
Record t : Set := mk {
  name : text; table_type : text; valid : option bool; comment : option text;
  parent_schema : option text; parent_name : option text
}.
End TableInfo.

Inductive ObjectSourceKind : Set :=
| OView | OMaterializedView | OProcedure | OFunction | OTrigger | OEvent | OSequence | OSynonym | OJob
| OPackage | OPackageBody | OType | OTypeBody.

(** ** Dialects *)

Inductive DialectKind : Set :=
| DMysql | DPostgres | DSqlite | DDuckDb | DSqlServer | DOracle | DH2 | DClickHouse | DManticoreSearch
| DInformix | DQuestdb | DSoql | DUnsupported.

#[export] Instance dialect_kind_eq_dec : EqDecision DialectKind.
Proof. solve_decision. Defined.

(** ** Differences *)

Inductive ColumnAddPosition : Set := First | After (column : text).

(** A complete foreign key; the scalar fields of [info] are for display. *)
Module SchemaForeignKeyInfo.
Record t : Set := mk { info : ForeignKeyInfo.t; column_pairs : list (text * text) }.

Definition from_info (info : ForeignKeyInfo.t) : t := mk info [].

Definition columns (fk : t) : list text :=
  if is_empty (column_pairs fk) then [ForeignKeyInfo.column (info fk)] else map fst (column_pairs fk).

Definition ref_columns (fk : t) : list text :=
  if is_empty (column_pairs fk) then [ForeignKeyInfo.ref_column (info fk)] else map snd (column_pairs fk).
End SchemaForeignKeyInfo.

(** [IndexDiff], [ForeignKeyDiff], [TriggerDiff], [SequenceDiff], [RuleDiff] and
    [OwnerDiff] have the same five fields. *)
Module ObjectDiff.
Record t (Info : Type) : Type := mk {
  diff_type : text; name : text; source : option Info; target : option Info; changes : list text
}.
Arguments mk {Info} _ _ _ _ _.
Arguments diff_type {Info} _.
Arguments name {Info} _.
Arguments source {Info} _.
Arguments target {Info} _.
Arguments changes {Info} _.
End ObjectDiff.

Notation IndexDiff := (ObjectDiff.t IndexInfo.t).
Notation ForeignKeyDiff := (ObjectDiff.t SchemaForeignKeyInfo.t).
Notation TriggerDiff := (ObjectDiff.t TriggerInfo.t).
Notation SequenceDiff := (ObjectDiff.t SequenceInfo.t).
Notation RuleDiff := (ObjectDiff.t RuleInfo.t).
Notation OwnerDiff := (ObjectDiff.t OwnerInfo.t).

Module ColumnDiff.
Record t : Set := mk {
  diff_type : text; name : text; source : option ColumnInfo.t; target : option ColumnInfo.t;
  changes : list text; add_position : option ColumnAddPosition
}.
End ColumnDiff.

Module FunctionDiff.
Record t : Set := mk {
  diff_type : text; name : text; program_kind : option ObjectSourceKind;
  source : option FunctionInfo.t; target : option FunctionInfo.t; changes : list text
}.
End FunctionDiff.

Module TableDiff.
Record t : Set := mk {
  diff_type : text; object_type : option text; name : text; target_name : option text;
  columns : option (list ColumnDiff.t); indexes : option (list IndexDiff);
  foreign_keys : option (list ForeignKeyDiff); triggers : option (list TriggerDiff);
  ddl : option text; target_ddl : option text;
  source_table_comment : option (option text); target_table_comment : option (option text);
  sync_sql : option text
}.
End TableDiff.

Module TableSchemaDetail.
Record t : Set := mk {
  name : text; columns : list ColumnInfo.t; indexes : list IndexInfo.t; foreign_keys : list ForeignKeyInfo.t;
  triggers : list TriggerInfo.t; ddl : option text
}.
End TableSchemaDetail.

(** ** Options *)

Inductive ParamStrategy : Set := Preserve | Strip | Custom.

Module FieldMapping.
Record t : Set := mk {
  source_type : text; target_type : text; param_strategy : ParamStrategy; custom_params : option text
}.
End FieldMapping.

Module SchemaDiffTableMapping.
Record t : Set := mk { source_table : text; target_table : text }.
End SchemaDiffTableMapping.

Module PermissionInfo.
Record t : Set := mk {
  grantee : text; object_type : text; object_name : text; privilege : text; is_grantable : bool
}.
End PermissionInfo.

Module PermissionDiff.
Record t : Set := mk {
  diff_type : text; grantee : text; object_name : text; privilege : text;
  source : option PermissionInfo.t; target : option PermissionInfo.t
}.
End PermissionDiff.

Module RenameCandidate.
Record t : Set := mk {
  source_name : text; target_name : text; score : F64.t; column_jaccard : F64.t; type_similarity : F64.t
}.
End RenameCandidate.
