(* ===== verification/Kahn.v ===== *)
(** * Kahn: what a run of Kahn's algorithm promises.

    Two routines of [schema_diff.rs] order objects by repeatedly emitting one with
    no unplaced predecessor: [DependencyGraph::topological_sort] with a queue and
    [order_diffs_for_execution] with the smallest ready position.  [step] is the
    common rule, stated on the set of ready nodes and without a representation of
    the in-degrees; each routine is proved to follow it, and the guarantees below
    are then its guarantees. *)

From stdpp Require Import relations.
From S2P Require Import Prelude.

(** Two predicates that agree on a list select the same sublist. *)
Lemma filter_ext_elem {A} (P Q : A -> Prop) `{!forall x, Decision (P x), !forall x, Decision (Q x)} (l : list A) :
  (forall x, x ∈ l -> P x <-> Q x) -> filter P l = filter Q l.
Proof.
  induction l as [|x l IH]; intros Heq; [done|]. rewrite !filter_cons, IH by (intros; apply Heq; by right).
  pose proof (Heq x (list_elem_of_here _ _)). by repeat case_decide; try tauto.
Qed.

Lemma filter_bool {A} (p : A -> bool) (l : list A) : List.filter p l = filter (fun x => p x = true) l.
Proof.
  induction l as [|x l IH]; [done|]. rewrite filter_cons. cbn. rewrite IH.
  destruct (p x); by case_decide.
Qed.

Lemma filter_fst_nodup {A B} (p : A * B -> bool) (l : list (A * B)) : NoDup l.*1 -> NoDup (List.filter p l).*1.
Proof. intros Hl. eapply sublist_NoDup; [exact Hl|]. rewrite filter_bool. apply fmap_sublist, sublist_filter. Qed.

(** [a] occurs, and before every occurrence of [b]. *)
Definition before {A} (l : list A) (a b : A) : Prop :=
  exists l1 l2, l = l1 ++ l2 /\ a ∈ l1 /\ b ∉ l1.

Lemma before_app_l {A} (l k : list A) a b : before l a b -> before (l ++ k) a b.
Proof. intros (l1 & l2 & -> & Ha & Hb). exists l1, (l2 ++ k). by rewrite app_assoc. Qed.

Lemma before_snoc {A} (l : list A) a b : a ∈ l -> b ∉ l -> before (l ++ [b]) a b.
Proof. intros Ha Hb. by exists l, [b]. Qed.

(** Reversing a duplicate-free list reverses the order of two of its elements. *)
Lemma before_reverse {A} (l : list A) a b : NoDup l -> b ∈ l -> before l a b -> before (reverse l) b a.
Proof.
  intros Hl Hb (l1 & l2 & -> & Ha & Hb1). exists (reverse l2), (reverse l1).
  rewrite reverse_app, !elem_of_reverse. apply NoDup_app in Hl as (_ & Hl & _).
  apply elem_of_app in Hb as [?|Hb]; [done|]. repeat split; [done|]. by apply Hl.
Qed.

Section Kahn.

Context {A : Type} `{EqDecision A}.
Variable nodes : list A.
Variable edge : A -> A -> Prop.
Context `{!RelDecision edge}.

(** The in-degree left when the nodes [out] are placed. *)
Definition pending (out : list A) (v : A) : nat :=
  length (filter (fun u => edge u v /\ u ∉ out) nodes).

Definition newly (u : A) (out : list A) : list A :=
  filter (fun v => edge u v /\ pending out v = 0) nodes.

(** A state is the ready nodes and the nodes placed so far. *)
Inductive initial : list A * list A -> Prop :=
| initial_intro ready : ready ≡ₚ filter (fun v => pending [] v = 0) nodes -> initial (ready, []).

Inductive step : list A * list A -> list A * list A -> Prop :=
| step_intro u ready ready1 ready' out :
    ready ≡ₚ u :: ready1 ->
    ready' ≡ₚ ready1 ++ newly u (out ++ [u]) ->
    step (ready, out) (ready', out ++ [u]).

Hypothesis nodes_nodup : NoDup nodes.
Hypothesis edge_nodes : forall u v, edge u v -> u ∈ nodes /\ v ∈ nodes.

Record inv (st : list A * list A) : Prop := {
  inv_nodup : NoDup (st.2 ++ st.1);
  inv_nodes v : v ∈ st.2 ++ st.1 <-> v ∈ nodes /\ pending st.2 v = 0;
  inv_sorted u v : edge u v -> v ∈ st.2 -> before st.2 u v
}.

Lemma pending_0 out v : pending out v = 0 <-> forall u, edge u v -> u ∈ out.
Proof.
  unfold pending. rewrite length_zero_iff_nil. split.
  - intros Hnil u Huv. destruct (decide (u ∈ out)) as [|Hu]; [done|exfalso].
    cut (u ∈ filter (fun u => edge u v /\ u ∉ out) nodes); [rewrite Hnil; apply not_elem_of_nil|].
    apply list_elem_of_filter. naive_solver.
  - intros Hall. destruct (filter _ nodes) as [|u l] eqn:Hf; [done|exfalso].
    assert (Hu : u ∈ filter (fun u => edge u v /\ u ∉ out) nodes) by (rewrite Hf; left).
    apply list_elem_of_filter in Hu as [[He Hu] _]. by apply Hu, Hall.
Qed.

Lemma pending_mono out out' v : out ⊆ out' -> pending out v = 0 -> pending out' v = 0.
Proof. rewrite !pending_0. intros Hsub H u Hu. by apply Hsub, H. Qed.

(** Placing [u] takes one from the in-degree of each of its successors. *)
Lemma pending_snoc out u v :
  u ∉ out -> pending out v = (if decide (edge u v) then 1 else 0) + pending (out ++ [u]) v.
Proof.
  intros Hu. unfold pending.
  set (P := fun w => edge w v /\ w ∉ out). set (Q := fun w => edge w v /\ w ∉ out ++ [u]).
  assert (Hrest : forall l, u ∉ l -> length (filter P l) = length (filter Q l)).
  { intros l Hl. f_equal. apply filter_ext_elem. intros w Hw. subst P Q; cbn.
    rewrite elem_of_app, list_elem_of_singleton. assert (w <> u) by (by intros ->). tauto. }
  destruct (decide (edge u v)) as [He|He].
  - destruct (edge_nodes _ _ He) as [Hn _]. apply list_elem_of_split in Hn as (l1 & l2 & Hl).
    pose proof nodes_nodup as Hnd. rewrite Hl in Hnd |- *. apply NoDup_app in Hnd as (_ & Hd & Hnd).
    apply NoDup_cons in Hnd as [Hu2 _]. assert (Hu1 : u ∉ l1) by (intros H; eapply Hd; [done|left]).
    rewrite !filter_app, !filter_cons, !length_app, (Hrest l1) by done.
    rewrite (decide_True (P := P u)) by done. rewrite (decide_False (P := Q u)) by (unfold Q; set_solver).
    cbn [length]. rewrite (Hrest l2) by done. lia.
  - cbn. f_equal. apply filter_ext_elem. intros w Hw. subst P Q; cbn.
    rewrite elem_of_app, list_elem_of_singleton. assert (edge w v -> w <> u) by (by intros ? ->). tauto.
Qed.

Lemma initial_inv st : initial st -> inv st.
Proof.
  intros [ready Hr]. split; cbn.
  - rewrite Hr. by apply NoDup_filter.
  - intros v. rewrite Hr, list_elem_of_filter. tauto.
  - intros u v _ Hv. by apply not_elem_of_nil in Hv.
Qed.

(** A node that becomes ready was not ready and not placed. *)
Lemma newly_fresh u ready1 out v :
  inv (u :: ready1, out) -> v ∈ newly u (out ++ [u]) -> v ∉ out ++ u :: ready1.
Proof.
  intros Hinv [[Huv _] _]%list_elem_of_filter Hv.
  pose proof (inv_nodup _ Hinv) as Hnd. cbn in Hnd. apply (inv_nodes _ Hinv) in Hv as [_ Hv]. cbn in Hv.
  rewrite pending_0 in Hv. apply Hv in Huv. apply NoDup_app in Hnd as (_ & Hd & _). eapply Hd; [done|left].
Qed.

Lemma inv_perm r r' out : r ≡ₚ r' -> inv (r, out) -> inv (r', out).
Proof.
  intros Hr [Hn Hv Hs]; split; cbn in *.
  - by rewrite <- Hr.
  - intros v. rewrite <- Hv. by rewrite Hr.
  - done.
Qed.

Lemma inv_step_nodup u ready1 out : inv (u :: ready1, out) -> NoDup ((out ++ [u]) ++ ready1 ++ newly u (out ++ [u])).
Proof.
  intros Hinv. rewrite app_assoc. apply NoDup_app. rewrite <- app_assoc. split_and!.
  - exact (inv_nodup _ Hinv).
  - intros v Hold Hnew. eapply newly_fresh; [done..|]. exact Hold.
  - by apply NoDup_filter.
Qed.

Lemma inv_step_nodes u ready1 out v :
  inv (u :: ready1, out) ->
  v ∈ (out ++ [u]) ++ ready1 ++ newly u (out ++ [u]) <-> v ∈ nodes /\ pending (out ++ [u]) v = 0.
Proof.
  intros Hinv. pose proof (inv_nodes _ Hinv v) as Hv. cbn in Hv.
  assert (out ⊆ out ++ [u]) by set_solver.
  rewrite app_assoc, elem_of_app. split.
  - intros [Hold|[[_ ?] ?]%list_elem_of_filter]; [|done].
    rewrite <- app_assoc in Hold. cbn in Hold. apply Hv in Hold as [? ?]. eauto using pending_mono.
  - intros [Hn Hp]. destruct (decide (edge u v)) as [He|He].
    + right. by apply list_elem_of_filter.
    + left. rewrite <- app_assoc. cbn. apply Hv. split; [done|].
      rewrite pending_0 in Hp |- *. intros w Hw. apply Hp in Hw as Hw'.
      apply elem_of_app in Hw' as [?|?%list_elem_of_singleton]; [done|]. by subst.
Qed.

Lemma step_inv st st' : step st st' -> inv st -> inv st'.
Proof.
  intros [u ready ready1 ready' out Hr Hr'] Hinv. apply (inv_perm _ _ _ Hr) in Hinv.
  apply (inv_perm (ready1 ++ newly u (out ++ [u]))); [done|]. split; cbn.
  - by apply inv_step_nodup.
  - intros v. by apply inv_step_nodes.
  - intros w v Hwv Hv. apply elem_of_app in Hv as [Hv|Hv%list_elem_of_singleton].
    + apply before_app_l. by apply (inv_sorted _ Hinv).
    + subst v. assert (Hu : u ∈ out ++ u :: ready1) by set_solver.
      apply (inv_nodes _ Hinv) in Hu as [_ Hu]. cbn in Hu. rewrite pending_0 in Hu.
      pose proof (inv_nodup _ Hinv) as Hnd. cbn in Hnd. apply NoDup_app in Hnd as (_ & Hd & _).
      apply before_snoc; [by apply Hu|]. intros Hin. eapply Hd; [done|left].
Qed.

Lemma steps_inv st st' : rtc step st st' -> inv st -> inv st'.
Proof. induction 1; eauto using step_inv. Qed.

(** A run places one more node per step, so it is at most as long as the nodes. *)
Lemma inv_length st : inv st -> length st.2 + length st.1 <= length nodes.
Proof.
  intros Hinv. rewrite <- length_app. apply submseteq_length. apply NoDup_submseteq; [apply Hinv|].
  intros v Hv. by apply (inv_nodes _ Hinv) in Hv as [? _].
Qed.

(** No cycle reaches [v]. *)
Definition cycle_free (v : A) : Prop := forall w, rtc edge w v -> ~ tc edge w w.

Lemma cycle_free_pred u v : edge u v -> cycle_free v -> cycle_free u.
Proof. intros He Hv w Hw. apply Hv. eapply rtc_r; eauto. Qed.

(** Edges that climb a rank make no cycle. *)
Lemma cycle_free_rank (rank : A -> nat) v : (forall u w, edge u w -> rank u < rank w) -> cycle_free v.
Proof.
  intros Hrank w _ Hw. assert (Hlt : forall a b, tc edge a b -> rank a < rank b); [|by apply Hlt in Hw; lia].
  intros a b Hab. induction Hab as [a b Hab|a b c Hab _ IH]; apply Hrank in Hab; lia.
Qed.

(** When no node is ready, every node that no cycle reaches is placed: its
    ancestors are finitely many and each has fewer of them. *)
Lemma cycle_free_placed out v : inv ([], out) -> v ∈ nodes -> cycle_free v -> v ∈ out.
Proof.
  intros Hinv.
  assert (Hfin : forall u, tc edge u v -> u ∈ nodes).
  { intros u Hu. destruct Hu as [? ? Hu|? ? ? Hu _]; by apply edge_nodes in Hu as [? _]. }
  revert v Hfin. generalize nodes at 1 as xs. intros xs. remember (length xs) as n eqn:Hn. revert xs Hn.
  induction (lt_wf n) as [n _ IH]. intros xs -> v Hxs Hv Hc.
  cut (v ∈ out ++ []); [by rewrite app_nil_r|]. apply (inv_nodes _ Hinv). split; [done|]. cbn.
  apply pending_0. intros u Huv. assert (Hu : u ∈ xs) by (apply Hxs; by apply tc_once).
  apply list_elem_of_split in Hu as (xs1 & xs2 & ->).
  apply (IH (length (xs1 ++ xs2))) with (xs := xs1 ++ xs2); [rewrite !length_app; cbn; lia|done| | |].
  - intros w Hw. assert (Hwv : w ∈ xs1 ++ u :: xs2) by (apply Hxs; by eapply tc_r).
    assert (w <> u) by (intros ->; apply (Hc u); [by apply rtc_once | done]). set_solver.
  - by apply edge_nodes in Huv as [? _].
  - by eapply cycle_free_pred.
Qed.

Theorem finished_before out u v :
  inv ([], out) -> edge u v -> cycle_free v -> before out u v.
Proof.
  intros Hinv He Hc. apply (inv_sorted _ Hinv); [done|]. cbn.
  apply cycle_free_placed; [done| |done]. by apply edge_nodes in He as [_ ?].
Qed.

(** The nodes left out, appended in any order, complete the placed ones. *)
Lemma finished_permutation out rest :
  inv ([], out) -> rest ≡ₚ filter (fun v => v ∉ out) nodes -> out ++ rest ≡ₚ nodes.
Proof.
  intros Hinv ->. pose proof (inv_nodup _ Hinv) as Hnd. cbn in Hnd. rewrite app_nil_r in Hnd.
  apply NoDup_Permutation; [|done|].
  - apply NoDup_app. split_and!; [done| |by apply NoDup_filter].
    intros v Hv [? _]%list_elem_of_filter. done.
  - intros v. rewrite elem_of_app, list_elem_of_filter. split.
    + intros [Hv|[_ ?]]; [|done]. assert (H : v ∈ out ++ []) by (by rewrite app_nil_r).
      by apply (inv_nodes _ Hinv) in H as [? _].
    + intros Hv. destruct (decide (v ∈ out)); auto.
Qed.

End Kahn.
