(* ===== verification/SchemaGraph.v ===== *)
(** * SchemaGraph: the dependency graph of a schema ([schema_diff.rs], [DependencyGraph]).

    One node per table or view; foreign keys, view definitions and trigger bodies
    give the edges, stored at both ends ([depends_on], [depended_by]), and
    [topological_sort] orders the nodes.  Hash sets and maps are iterated in an
    order of their own, given by [SetOrder] and [HashOrder].  A decrement of an
    in-degree that is zero panics in a build with overflow checks and wraps in
    one without; [overflow_checks] says which. *)

From stdpp Require Import gmap.
From S2P Require Import Prelude DbTypes WriteClass WriteUnlock SchemaTypes.

(** The order in which a [HashSet<&str>] is iterated; the number tells apart the
    sets of one function. *)
Class SetOrder := {
  iter_set : N -> gset text -> list text;
  iter_set_permutation i s : iter_set i s ≡ₚ elements s
}.

(** [iter.collect::<HashMap<_, _>>()]: the last entry of a key stays. *)
Definition collect_map `{Countable K} {V} (entries : list (K * V)) : gmap K V :=
  foldl (fun m e => <[e.1 := e.2]> m) ∅ entries.

(** [let candidate = it.next(); candidate.filter(|_| it.next().is_none())]. *)
Definition sole {A} (candidates : list A) : option A :=
  match candidates with [x] => Some x | _ => None end.

Definition USIZE_MAX : N := 18446744073709551615%N.

(** [*deg -= 1]. *)
Definition usize_dec (overflow_checks : bool) (deg : N) : outcome N :=
  if (deg =? 0)%N then (if overflow_checks then Panics else Returns USIZE_MAX) else Returns (deg - 1)%N.

Record DependencyNode : Set := mk_node { table_name : text; depends_on : list text; depended_by : list text }.

Record DependencyGraph : Set := mk_graph { nodes : gmap text DependencyNode; topological_order : list text }.

Record UncoveredEdge : Set := mk_uncovered { from_table : text; to_table : text; level : N }.

Record CoverageReport : Set := mk_report {
  level1_score : F64.t; level2_score : F64.t; composite_score : F64.t;
  level1_covered : N; level1_total : N; level2_covered : N; level2_total : N;
  uncovered_edges : list UncoveredEdge
}.

(** [if !names.contains(name) { names.push(name) }]. *)
Definition push_unique (name : text) (names : list text) : list text :=
  if existsb (text_eqb name) names then names else names ++ [name].

Definition add_depends_on (dep : text) (n : DependencyNode) : DependencyNode :=
  mk_node (table_name n) (push_unique dep (depends_on n)) (depended_by n).
Definition add_depended_by (dependent : text) (n : DependencyNode) : DependencyNode :=
  mk_node (table_name n) (depends_on n) (push_unique dependent (depended_by n)).

(** The pair of [if let Some(node) = nodes.get_mut(..)] blocks that records one reference. *)
Definition link (m : gmap text DependencyNode) (from to : text) : gmap text DependencyNode :=
  alter (add_depended_by from) to (alter (add_depends_on to) from m).

Definition is_view (t : TableInfo.t) : bool := contains %"VIEW" (TableInfo.table_type t).

Section Build.

Context `{CaseMap} `{SetOrder} `{HashOrder DependencyNode} `{HashOrder N}.
Context `{HashOrder FunctionInfo.t}.
Variable overflow_checks : bool.

(** The substrings that announce a reference to a table. *)
Definition reference_patterns (table_up : text) : list text :=
  [%" FROM " ++ table_up; %" JOIN " ++ table_up; %" INTO " ++ table_up; %" TABLE " ++ table_up;
   %" REFERENCES " ++ table_up; %" UPDATE " ++ table_up; %"DELETE FROM " ++ table_up;
   %"FROM " ++ table_up ++ %" ("; %" " ++ table_up ++ %"."].

Definition extract_ddl_references (sql : text) (known_tables : list text) : list text :=
  let upper := to_uppercase sql in
  List.filter (fun table => existsb (fun p => contains p upper) (reference_patterns (to_uppercase table))) known_tables.

(** Phase 1: the table a foreign key refers to. *)
Definition referenced_table (table_names : gset text) (names : list text) (ignore_table_name_case : bool) (fk : ForeignKeyInfo.t)
    : option text :=
  let ref := ForeignKeyInfo.ref_table fk in
  if bool_decide (ref ∈ table_names) then Some ref
  else if ignore_table_name_case then sole (List.filter (fun name => eq_ignore_ascii_case name ref) names)
  else None.

Definition link_all (m : gmap text DependencyNode) (edges : list (text * text)) : gmap text DependencyNode :=
  foldl (fun m e => link m e.1 e.2) m edges.

(** The references of phase 1, in the order the loops record them. *)
Definition foreign_key_references (detail_map : gmap text TableSchemaDetail.t) (table_names : gset text)
    (ignore_table_name_case : bool) : list (text * text) :=
  let names := iter_set 0 table_names in
  names ≫= fun table_name =>
    match detail_map !! table_name with
    | None => []
    | Some detail =>
        TableSchemaDetail.foreign_keys detail ≫= fun fk =>
          match referenced_table table_names names ignore_table_name_case fk with
          | None => []
          | Some r => [(table_name, r)]
          end
    end.

(** Phase 2: the tables a view definition mentions. *)
Definition view_references (detail_map : gmap text TableSchemaDetail.t) (table_names view_names : gset text)
    : list (text * text) :=
  iter_set 1 view_names ≫= fun view_name =>
    match (detail_map !! view_name) ≫= TableSchemaDetail.ddl with
    | None => []
    | Some ddl => map (pair view_name) (extract_ddl_references ddl (iter_set 0 table_names))
    end.

(** Phase 3: the tables a trigger body mentions. *)
Definition trigger_references (detail_map : gmap text TableSchemaDetail.t) (table_names all_names : gset text)
    : list (text * text) :=
  iter_set 2 all_names ≫= fun table_name =>
    match detail_map !! table_name with
    | None => []
    | Some detail =>
        TableSchemaDetail.triggers detail ≫= fun trigger =>
          match TriggerInfo.statement trigger with
          | None => []
          | Some stmt => map (pair table_name) (extract_ddl_references stmt (iter_set 0 table_names))
          end
    end.

(** Phase 4: a function is recorded at the tables its definition mentions only. *)
Definition link_functions (table_names : gset text) (functions : list FunctionInfo.t) (m : gmap text DependencyNode)
    : gmap text DependencyNode :=
  foldl (fun m f =>
           foldl (fun m ref_table => alter (add_depended_by f.1) ref_table m) m
                 (extract_ddl_references (FunctionInfo.definition f.2) (iter_set 0 table_names)))
        m (iter (collect_map (map (fun f => (FunctionInfo.name f, f)) functions))).

(** [topological_sort]: the in-degrees. *)
Definition in_degrees (nodes : gmap text DependencyNode) : gmap text N :=
  foldl (fun m node =>
           let m0 := match m !! table_name node with Some _ => m | None => <[table_name node := 0%N]> m end in
           foldl (fun m _ => <[table_name node := (default 0 (m !! table_name node) + 1)%N]> m) m0 (depends_on node))
        ((fun _ => 0%N) <$> nodes) (map snd (iter nodes)).

(** One pass over the dependents of a placed node. *)
Fixpoint release (dependents : list text) (in_degree : gmap text N) : outcome (gmap text N * list text) :=
  match dependents with
  | [] => Returns (in_degree, [])
  | dependent :: rest =>
      match in_degree !! dependent with
      | None => release rest in_degree
      | Some deg =>
          do deg' <- usize_dec overflow_checks deg;
          do r <- release rest (<[dependent := deg']> in_degree);
          Returns (r.1, if (deg' =? 0)%N then dependent :: r.2 else r.2)
      end
  end.

(** [while let Some(name) = queue.pop_front()]. *)
Fixpoint drain (fuel : nat) (nodes : gmap text DependencyNode) (in_degree : gmap text N) (queue result : list text)
    : outcome (list text) :=
  match queue with
  | [] => Returns result
  | name :: queue' =>
      match fuel with
      | O => OutOfFuel
      | S fuel' =>
          match nodes !! name with
          | None => drain fuel' nodes in_degree queue' (result ++ [name])
          | Some node =>
              do r <- release (depended_by node) in_degree;
              drain fuel' nodes r.1 (queue' ++ r.2) (result ++ [name])
          end
      end
  end.

Definition topological_sort (nodes : gmap text DependencyNode) : outcome (list text) :=
  let in_degree := in_degrees nodes in
  let queue := map fst (List.filter (fun e => (e.2 =? 0)%N) (iter in_degree)) in
  do result <- drain (size nodes) nodes in_degree queue [];
  Returns (if length result =? size nodes then result
           else result ++ List.filter (fun k => negb (existsb (text_eqb k) result)) (map fst (iter nodes))).

Definition initial_nodes (all_names : gset text) : gmap text DependencyNode :=
  collect_map (map (fun name => (name, mk_node name [] [])) (iter_set 2 all_names)).

Definition build_with_functions_and_options (details : list TableSchemaDetail.t) (tables : list TableInfo.t)
    (functions : list FunctionInfo.t) (ignore_table_name_case : bool) : outcome DependencyGraph :=
  let table_names : gset text := list_to_set (map TableInfo.name (List.filter (fun t => negb (is_view t)) tables)) in
  let view_names : gset text := list_to_set (map TableInfo.name (List.filter is_view tables)) in
  let all_names : gset text := list_to_set (map TableInfo.name tables) in
  let detail_map := collect_map (map (fun d => (TableSchemaDetail.name d, d)) details) in
  let nodes := initial_nodes all_names in
  let nodes := link_all nodes (foreign_key_references detail_map table_names ignore_table_name_case) in
  let nodes := link_all nodes (view_references detail_map table_names view_names) in
  let nodes := link_all nodes (trigger_references detail_map table_names all_names) in
  let nodes := link_functions table_names functions nodes in
  do order <- topological_sort nodes;
  Returns (mk_graph nodes order).

Definition build_with_functions (details : list TableSchemaDetail.t) (tables : list TableInfo.t)
    (functions : list FunctionInfo.t) : outcome DependencyGraph :=
  build_with_functions_and_options details tables functions false.

Definition build_with_options (details : list TableSchemaDetail.t) (tables : list TableInfo.t) (ignore_table_name_case : bool)
    : outcome DependencyGraph :=
  build_with_functions_and_options details tables [] ignore_table_name_case.

Definition build (details : list TableSchemaDetail.t) (tables : list TableInfo.t) : outcome DependencyGraph :=
  build_with_functions details tables [].

Definition build_order (g : DependencyGraph) : list text := topological_order g.

Definition drop_order (g : DependencyGraph) : list text := reverse (topological_order g).

(** ** Coverage of the graph by the compared tables *)

Definition in_set (diffed : gset text) (name : text) : bool := bool_decide (name ∈ diffed).

Definition values (g : DependencyGraph) : list DependencyNode := map snd (iter (nodes g)).

(** The dependency edges of one node, and its two-step paths. *)
Definition direct (node : DependencyNode) : list (text * text) := map (pair (table_name node)) (depends_on node).

Definition transitive (g : DependencyGraph) (node : DependencyNode) : list (text * text) :=
  depends_on node ≫= fun indirect =>
    match nodes g !! indirect with
    | None => []
    | Some inner => map (pair (table_name node)) (depends_on inner)
    end.

Definition both_covered (diffed : gset text) (e : text * text) : bool := in_set diffed e.1 && in_set diffed e.2.

(** [covered] and [total] of a list of edges. *)
Definition tally (diffed : gset text) (edges : list (text * text)) : N * N :=
  (N.of_nat (length (List.filter (both_covered diffed) edges)), N.of_nat (length edges)).

Definition count_edges (g : DependencyGraph) (diffed : gset text) : N * N := tally diffed (values g ≫= direct).

Definition count_transitive_edges (g : DependencyGraph) (diffed : gset text) : N * N :=
  tally diffed (values g ≫= fun node => if in_set diffed (table_name node) then transitive g node else []).

Definition uncovered_of (diffed : gset text) (level : N) (edges : list (text * text)) : list UncoveredEdge :=
  map (fun e => mk_uncovered e.1 e.2 level) (List.filter (fun e => negb (both_covered diffed e)) edges).

Definition collect_uncovered_edges (g : DependencyGraph) (diffed : gset text) : list UncoveredEdge :=
  values g ≫= fun node => uncovered_of diffed 1 (direct node) ++ uncovered_of diffed 2 (transitive g node).

Definition ratio (counts : N * N) : F64.t :=
  if (counts.2 =? 0)%N then F64.one else F64.div (F64.of_N counts.1) (F64.of_N counts.2).

Definition coverage_score_level1 (g : DependencyGraph) (diffed_tables : list text) : F64.t :=
  if bool_decide (nodes g = ∅) then F64.one else ratio (count_edges g (list_to_set diffed_tables)).

Definition coverage_score (g : DependencyGraph) (diffed_tables : list text) : F64.t := coverage_score_level1 g diffed_tables.

Definition coverage_score_level2 (g : DependencyGraph) (diffed_tables : list text) : F64.t :=
  if bool_decide (nodes g = ∅) then F64.one else ratio (count_transitive_edges g (list_to_set diffed_tables)).

Definition composite_coverage_score (g : DependencyGraph) (diffed_tables : list text) : CoverageReport :=
  let diffed_set : gset text := list_to_set diffed_tables in
  let l1 := count_edges g diffed_set in
  let l2 := count_transitive_edges g diffed_set in
  let l1_score := ratio l1 in
  let l2_score := ratio l2 in
  mk_report l1_score l2_score (F64.add (F64.mul F64.lit_0_6 l1_score) (F64.mul F64.lit_0_4 l2_score))
    l1.1 l1.2 l2.1 l2.2 (collect_uncovered_edges g diffed_set).

End Build.
