(* ===== verification/SchemaGraphTheorems.v ===== *)
(** * SchemaGraphTheorems: the dependency graph is consistent and its order topological.

    [graph_wf]: both ends of every edge agree, without duplicates.  Every phase
    that builds the graph keeps it, so the in-degrees [topological_sort] starts
    from are the numbers of unplaced predecessors and each round of its queue is a
    [step] of [Kahn]. *)

From stdpp Require Import gmap relations.
From S2P Require Import Prelude DbTypes WriteClass WriteUnlock SchemaTypes Kahn SchemaGraph.

(** ** Collected maps *)

Lemma collect_map_snoc `{Countable K} {V} (l : list (K * V)) e : collect_map (l ++ [e]) = <[e.1 := e.2]> (collect_map l).
Proof. unfold collect_map. by rewrite foldl_app. Qed.

Lemma collect_map_fun {V} (f : text -> V) (l : list text) k :
  collect_map (map (fun n => (n, f n)) l) !! k = if decide (k ∈ l) then Some (f k) else None.
Proof.
  induction l as [|x l IH] using rev_ind; [done|].
  rewrite map_app. cbn [map]. rewrite collect_map_snoc. cbn. destruct (decide (k = x)) as [->|Hk].
  - rewrite lookup_insert_eq, decide_True by set_solver. done.
  - rewrite lookup_insert_ne, IH by done. repeat case_decide; set_solver.
Qed.

(** Entries with distinct keys are all in the map. *)
Lemma collect_map_nodup `{Countable K} {V} (l : list (K * V)) k v :
  NoDup l.*1 -> (k, v) ∈ l -> collect_map l !! k = Some v.
Proof.
  induction l as [|e l IH] using rev_ind; intros Hnd Hin; [by apply not_elem_of_nil in Hin|].
  rewrite collect_map_snoc. rewrite fmap_app in Hnd. apply NoDup_app in Hnd as (Hnd & Hd & _).
  apply elem_of_app in Hin as [Hin|Hin%list_elem_of_singleton]; [|subst e; apply lookup_insert_eq].
  rewrite lookup_insert_ne; [by apply IH|]. intros Heq. eapply (Hd k).
  - apply list_elem_of_fmap. by exists (k, v).
  - cbn. rewrite Heq. by left.
Qed.

Lemma collect_map_elem `{Countable K} {V} (l : list (K * V)) k v : collect_map l !! k = Some v -> (k, v) ∈ l.
Proof.
  induction l as [|[k' v'] l IH] using rev_ind; [done|]. rewrite collect_map_snoc. cbn.
  rewrite elem_of_app, list_elem_of_singleton.
  destruct (decide (k = k')) as [->|Hk]; [rewrite lookup_insert_eq|rewrite lookup_insert_ne by done]; naive_solver.
Qed.

Lemma collect_map_is_Some `{Countable K} {V} (l : list (K * V)) k v : (k, v) ∈ l -> is_Some (collect_map l !! k).
Proof.
  induction l as [|[k' v'] l IH] using rev_ind; [by intros ?%not_elem_of_nil|].
  rewrite collect_map_snoc, elem_of_app, list_elem_of_singleton. cbn.
  destruct (decide (k = k')) as [->|Hk]; [rewrite lookup_insert_eq; eauto|rewrite lookup_insert_ne by done]; naive_solver.
Qed.

Lemma text_eqb_elem x l : existsb (text_eqb x) l = true <-> x ∈ l.
Proof.
  rewrite existsb_exists, list_elem_of_In. split; [by intros (z & Hz & ->%text_eqb_eq)|].
  intros Hx. exists x. by rewrite text_eqb_refl.
Qed.

Lemma push_unique_elem x y l : x ∈ push_unique y l <-> x = y \/ x ∈ l.
Proof.
  unfold push_unique. destruct (existsb (text_eqb y) l) eqn:He.
  - apply text_eqb_elem in He. naive_solver.
  - set_solver.
Qed.

Lemma push_unique_nodup y l : NoDup l -> NoDup (push_unique y l).
Proof.
  intros Hl. unfold push_unique. destruct (existsb (text_eqb y) l) eqn:He; [done|].
  apply NoDup_app. split_and!; [done| |by apply NoDup_singleton].
  intros z Hz ->%list_elem_of_singleton. apply text_eqb_elem in Hz. congruence.
Qed.

(** ** Consistency *)

Notation node_map := (gmap text DependencyNode).

(** [v] depends on [u]. *)
Definition edge (m : node_map) (u v : text) : Prop :=
  match m !! v with Some n => u ∈ depends_on n | None => False end.

#[export] Instance edge_decision m : RelDecision (edge m).
Proof. intros u v. unfold edge. destruct (m !! v); apply _. Defined.

Record graph_wf (m : node_map) : Prop := {
  wf_name k n : m !! k = Some n -> table_name n = k;
  wf_nodup k n : m !! k = Some n -> NoDup (depends_on n) /\ NoDup (depended_by n);
  wf_closed u v : edge m u v -> is_Some (m !! u);
  wf_both u v n : m !! u = Some n -> v ∈ depended_by n <-> edge m u v
}.

Section Facts.

Context `{CaseMap} `{SetOrder} `{HashOrder DependencyNode} `{HashOrder N} `{HashOrder FunctionInfo.t}.

Lemma iter_set_elem (i : N) (s : gset text) (k : text) : k ∈ iter_set i s <-> k ∈ s.
Proof. by rewrite iter_set_permutation, elem_of_elements. Qed.

Lemma initial_nodes_lookup (s : gset text) k :
  initial_nodes s !! k = if decide (k ∈ s) then Some (mk_node k [] []) else None.
Proof.
  unfold initial_nodes. rewrite collect_map_fun. repeat case_decide; try done; by rewrite iter_set_elem in *.
Qed.

Lemma initial_nodes_wf (s : gset text) : graph_wf (initial_nodes s).
Proof.
  assert (Hl : forall k n, initial_nodes s !! k = Some n -> n = mk_node k [] []).
  { intros k n. rewrite initial_nodes_lookup. case_decide; naive_solver. }
  assert (He : forall u v, ~ edge (initial_nodes s) u v).
  { intros u v. unfold edge. destruct (initial_nodes s !! v) as [n|] eqn:Hn; [|auto].
    apply Hl in Hn as ->. cbn. apply not_elem_of_nil. }
  split.
  - by intros k n ->%Hl.
  - intros k n ->%Hl. cbn. split; constructor.
  - intros u v []%He.
  - intros u v n ->%Hl. cbn. split; [by intros ?%not_elem_of_nil | intros []%He].
Qed.

Lemma link_lookup (m : node_map) a b k :
  link m a b !! k =
  (fun n => (if decide (k = b) then add_depended_by a else id) ((if decide (k = a) then add_depends_on b else id) n))
    <$> m !! k.
Proof.
  unfold link. rewrite !lookup_alter. repeat case_decide; try congruence; subst;
    destruct (m !! _); try done; cbn; repeat case_decide; congruence.
Qed.

Lemma link_edge (m : node_map) a b u v :
  is_Some (m !! a) -> edge (link m a b) u v <-> edge m u v \/ (u = b /\ v = a).
Proof.
  intros [na Ha]. unfold edge. rewrite link_lookup.
  destruct (m !! v) as [n|] eqn:Hv; cbn; [|naive_solver].
  destruct (decide (v = a)) as [->|Hva]; destruct (decide (_ = b)); cbn; rewrite ?push_unique_elem; naive_solver.
Qed.

Lemma link_wf (m : node_map) a b : graph_wf m -> is_Some (m !! a) -> is_Some (m !! b) -> graph_wf (link m a b).
Proof.
  intros [Hname Hnd Hcl Hboth] Ha Hb. split.
  - intros k n. rewrite link_lookup. destruct (m !! k) as [n0|] eqn:Hk; [|done]. intros [= <-].
    apply Hname in Hk. by repeat case_decide.
  - intros k n. rewrite link_lookup. destruct (m !! k) as [n0|] eqn:Hk; [|done]. intros [= <-].
    apply Hnd in Hk as [? ?]. repeat case_decide; cbn; auto using push_unique_nodup.
  - intros u v. rewrite link_edge, link_lookup by done.
    intros [Huv|[-> ->]]; [apply Hcl in Huv|]; by apply fmap_is_Some.
  - intros u v n. rewrite link_edge, link_lookup by done.
    destruct (m !! u) as [n0|] eqn:Hu; [|done]. intros [= <-]. rewrite <- (Hboth u v n0 Hu).
    destruct (decide (u = b)) as [->|]; destruct (decide (_ = a)); cbn; rewrite ?push_unique_elem; naive_solver.
Qed.

Lemma link_all_wf (edges : list (text * text)) (m : node_map) :
  graph_wf m -> Forall (fun e => is_Some (m !! e.1) /\ is_Some (m !! e.2)) edges -> graph_wf (link_all m edges).
Proof.
  revert m. induction edges as [|[a b] edges IH]; intros m Hm Hall; [done|].
  apply Forall_cons in Hall as [[Ha Hb] Hall]. cbn [fst snd] in *. apply (IH (link m a b)); [by apply link_wf|].
  eapply Forall_impl; [exact Hall|]. intros [x y] [Hx Hy]. cbn [fst snd] in *.
  by rewrite !link_lookup, !fmap_is_Some.
Qed.

Lemma link_all_dom (edges : list (text * text)) (m : node_map) k : is_Some (link_all m edges !! k) <-> is_Some (m !! k).
Proof.
  revert m. induction edges as [|[a b] edges IH]; intros m; [done|].
  change (link_all m ((a, b) :: edges)) with (link_all (link m a b) edges). rewrite IH, link_lookup. apply fmap_is_Some.
Qed.

Lemma link_all_edge (edges : list (text * text)) (m : node_map) u v :
  Forall (fun e => is_Some (m !! e.1)) edges ->
  edge (link_all m edges) u v <-> edge m u v \/ (v, u) ∈ edges.
Proof.
  revert m. induction edges as [|[a b] edges IH]; intros m Hall; [set_solver|].
  apply Forall_cons in Hall as [Ha Hall]. change (link_all m ((a, b) :: edges)) with (link_all (link m a b) edges). cbn [fst] in Ha.
  rewrite IH, link_edge; [set_solver|done|].
  eapply Forall_impl; [exact Hall|]. intros [x y] Hx. cbn [fst snd] in *. by rewrite link_lookup, fmap_is_Some.
Qed.

(** ** The references that become edges *)

Lemma sole_elem {A} (l : list A) x : sole l = Some x -> x ∈ l.
Proof. destruct l as [|y [|? ?]]; try done. intros [= ->]. by apply list_elem_of_singleton. Qed.

Lemma list_filter_elem {A} (p : A -> bool) l x : x ∈ List.filter p l <-> x ∈ l /\ p x = true.
Proof. rewrite !list_elem_of_In. apply filter_In. Qed.

Lemma referenced_table_in tn ic fk r : referenced_table tn (iter_set 0 tn) ic fk = Some r -> r ∈ tn.
Proof.
  unfold referenced_table. case_bool_decide; [by intros [= <-]|]. destruct ic; [|done].
  intros [Hr _]%sole_elem%list_filter_elem. by apply iter_set_elem in Hr.
Qed.

Lemma foreign_key_references_elem dm tn ic a b :
  (a, b) ∈ foreign_key_references dm tn ic <->
  a ∈ tn /\ exists d fk, dm !! a = Some d /\ fk ∈ TableSchemaDetail.foreign_keys d
    /\ referenced_table tn (iter_set 0 tn) ic fk = Some b.
Proof.
  unfold foreign_key_references. rewrite list_elem_of_bind. split.
  - intros (t & Hin & Ht). apply iter_set_elem in Ht. destruct (dm !! t) as [d|] eqn:Hd; [|by apply not_elem_of_nil in Hin].
    apply list_elem_of_bind in Hin as (fk & Hin & Hfk).
    destruct (referenced_table _ _ _ fk) as [r|] eqn:Hr; [|by apply not_elem_of_nil in Hin].
    apply list_elem_of_singleton in Hin as [= -> ->]. eauto 10.
  - intros (Ha & d & fk & Hd & Hfk & Hr). exists a. rewrite iter_set_elem, Hd. split; [|done].
    apply list_elem_of_bind. exists fk. rewrite Hr. split; [by apply list_elem_of_singleton|done].
Qed.

Lemma extract_ddl_references_in sql known r : r ∈ extract_ddl_references sql known -> r ∈ known.
Proof. unfold extract_ddl_references. by intros [? _]%list_filter_elem. Qed.

Lemma pair_map_elem {A B} (x : A) (l : list B) a b : (a, b) ∈ map (pair x) l -> a = x /\ b ∈ l.
Proof. intros (y & [= -> ->] & Hy)%list_elem_of_fmap. done. Qed.

Lemma view_references_in dm tn vn a b : (a, b) ∈ view_references dm tn vn -> a ∈ vn /\ b ∈ tn.
Proof.
  unfold view_references. intros (v & Hin & Hv)%list_elem_of_bind. apply iter_set_elem in Hv.
  destruct ((dm !! v) ≫= _) as [ddl|]; [|by apply not_elem_of_nil in Hin].
  apply pair_map_elem in Hin as [-> Hb%extract_ddl_references_in]. by rewrite iter_set_elem in Hb.
Qed.

Lemma trigger_references_in dm tn an a b : (a, b) ∈ trigger_references dm tn an -> a ∈ an /\ b ∈ tn.
Proof.
  unfold trigger_references. intros (v & Hin & Hv)%list_elem_of_bind. apply iter_set_elem in Hv.
  destruct (dm !! v) as [d|]; [|by apply not_elem_of_nil in Hin].
  apply list_elem_of_bind in Hin as (tr & Hin & _).
  destruct (TriggerInfo.statement tr); [|by apply not_elem_of_nil in Hin].
  apply pair_map_elem in Hin as [-> Hb%extract_ddl_references_in]. by rewrite iter_set_elem in Hb.
Qed.

End Facts.

(** * the order of a dependency graph.

    [topological_sort] refines [Kahn]; the graph [build_with_options] returns
    lists every table once and each table after the ones it depends on. *)

Definition names (m : gmap text DependencyNode) : list text := (map_to_list m).*1.

Lemma names_nodup m : NoDup (names m).
Proof. apply NoDup_fst_map_to_list. Qed.

Lemma names_elem m k : k ∈ names m <-> is_Some (m !! k).
Proof.
  unfold names. rewrite list_elem_of_fmap. split.
  - intros ([k' n] & -> & Hin). apply elem_of_map_to_list in Hin. eauto.
  - intros [n Hn]. exists (k, n). by rewrite elem_of_map_to_list.
Qed.

Lemma wf_edge_names m u v : graph_wf m -> edge m u v -> u ∈ names m /\ v ∈ names m.
Proof.
  intros Hwf He. rewrite !names_elem. split; [by eapply wf_closed|].
  unfold edge in He. destruct (m !! v); naive_solver.
Qed.

Section Order.

Context `{CaseMap} `{SetOrder} `{HashOrder DependencyNode} `{HashOrder N} `{HashOrder FunctionInfo.t}.
Variable overflow_checks : bool.

(** ** In-degrees *)

Definition bump (key : text) (m : gmap text N) (l : list text) : gmap text N :=
  foldl (fun m _ => <[key := (default 0 (m !! key) + 1)%N]> m) m l.

Lemma bump_lookup key l m d k :
  m !! key = Some d ->
  bump key m l !! k = if decide (k = key) then Some (d + N.of_nat (length l))%N else m !! k.
Proof.
  revert m d. induction l as [|x l IH]; intros m d Hd.
  - cbn. case_decide; subst; [|done]. rewrite Hd. f_equal. lia.
  - cbn [bump foldl]. fold (bump key (<[key := (default 0 (m !! key) + 1)%N]> m) l).
    rewrite (IH _ (d + 1)%N) by (rewrite Hd; apply lookup_insert_eq).
    case_decide; [f_equal; cbn; lia|]. by rewrite lookup_insert_ne.
Qed.

Definition degree_step (m : gmap text N) (node : DependencyNode) : gmap text N :=
  let m0 := match m !! table_name node with Some _ => m | None => <[table_name node := 0%N]> m end in
  bump (table_name node) m0 (depends_on node).

Lemma degree_steps_lookup l m k :
  NoDup (map table_name l) -> (forall n, n ∈ l -> is_Some (m !! table_name n)) ->
  foldl degree_step m l !! k =
  match List.find (fun n => text_eqb (table_name n) k) l with
  | Some n => (fun d => d + N.of_nat (length (depends_on n)))%N <$> m !! k
  | None => m !! k
  end.
Proof.
  revert m. induction l as [|n l IH]; intros m Hnd Hin; [done|].
  cbn [map] in Hnd. apply NoDup_cons in Hnd as [Hn Hnd].
  destruct (Hin n (list_elem_of_here _ _)) as [d Hd].
  assert (Hstep : forall k, degree_step m n !! k =
      if decide (k = table_name n) then Some (d + N.of_nat (length (depends_on n)))%N else m !! k).
  { intros k'. unfold degree_step. rewrite Hd. by apply bump_lookup. }
  cbn [foldl]. rewrite IH; [|done|].
  - cbn [List.find]. rewrite Hstep. destruct (text_eqb (table_name n) k) eqn:Hk.
    + apply text_eqb_eq in Hk as <-. rewrite decide_True, Hd by done.
      destruct (List.find _ l) as [n'|] eqn:Hf; [|done]. exfalso.
      apply find_some in Hf as [Hf Heq%text_eqb_eq]. apply Hn. rewrite <- Heq.
      apply list_elem_of_fmap. exists n'. split; [done|]. by apply list_elem_of_In.
    + rewrite decide_False; [done|]. intros ->. by rewrite text_eqb_refl in Hk.
  - intros n' Hn'. rewrite Hstep. case_decide; [done|]. apply Hin. by right.
Qed.

Lemma iter_values_names m : graph_wf m -> map table_name (map snd (iter m)) ≡ₚ names m.
Proof.
  intros Hwf. unfold names. rewrite map_map.
  assert (Heq : map (fun e => table_name e.2) (iter m) = map fst (iter m)).
  { apply map_ext_in. intros [k n] Hin%list_elem_of_In.
    rewrite iter_permutation, elem_of_map_to_list in Hin. by apply (wf_name _ Hwf) in Hin. }
  rewrite Heq. change (map fst (iter m)) with ((iter m).*1). by rewrite iter_permutation.
Qed.

Lemma in_degrees_lookup m k :
  graph_wf m -> in_degrees m !! k = (fun n => N.of_nat (length (depends_on n))) <$> m !! k.
Proof.
  intros Hwf. unfold in_degrees. change (foldl _ _ ?l) with (foldl degree_step ((fun _ => 0%N) <$> m) l).
  assert (Hin : forall n, n ∈ map snd (iter m) <-> exists k, m !! k = Some n).
  { intros n. split.
    - intros ([k' n'] & -> & Hn)%list_elem_of_fmap. rewrite iter_permutation, elem_of_map_to_list in Hn. eauto.
    - intros [k' Hk]. apply list_elem_of_fmap. exists (k', n). by rewrite iter_permutation, elem_of_map_to_list. }
  rewrite degree_steps_lookup, !lookup_fmap.
  - destruct (List.find _ _) as [n|] eqn:Hf.
    + apply find_some in Hf as [Hn%list_elem_of_In%Hin Heq%text_eqb_eq]. destruct Hn as [k' Hk].
      rewrite (wf_name _ Hwf _ _ Hk) in Heq. subst k'. by rewrite Hk.
    + destruct (m !! k) as [n|] eqn:Hk; [|done]. exfalso.
      eapply find_none in Hf; [|apply list_elem_of_In, Hin; eauto].
      by rewrite (wf_name _ Hwf _ _ Hk), text_eqb_refl in Hf.
  - rewrite iter_values_names by done. apply names_nodup.
  - intros n [k' Hk]%Hin. rewrite lookup_fmap, (wf_name _ Hwf _ _ Hk), Hk. done.
Qed.

Lemma pending_nil m k n :
  graph_wf m -> m !! k = Some n -> pending (names m) (edge m) [] k = length (depends_on n).
Proof.
  intros Hwf Hk. unfold pending. apply Permutation_length, NoDup_Permutation.
  - apply NoDup_filter, names_nodup.
  - by eapply wf_nodup.
  - intros u. rewrite list_elem_of_filter. split.
    + intros [[He _] _]. unfold edge in He. by rewrite Hk in He.
    + intros Hu. assert (He : edge m u k) by (unfold edge; by rewrite Hk).
      split; [split; [done|apply not_elem_of_nil]|]. by apply (wf_edge_names m u k).
Qed.

(** ** The loop *)

Lemma release_spec (f : text -> nat) ds deg :
  NoDup ds -> (forall v, v ∈ ds -> deg !! v = Some (N.of_nat (S (f v)))) ->
  exists deg', release overflow_checks ds deg = Returns (deg', filter (fun v => f v = 0) ds)
    /\ forall v, deg' !! v = if decide (v ∈ ds) then Some (N.of_nat (f v)) else deg !! v.
Proof.
  revert deg. induction ds as [|d ds IH]; intros deg Hnd Hdeg; [by exists deg|].
  apply NoDup_cons in Hnd as [Hd Hnd].
  assert (Hdd := Hdeg d (list_elem_of_here _ _)).
  destruct (IH (<[d := N.of_nat (f d)]> deg)) as (deg' & Hrel & Hdeg'); [done| |].
  { intros v Hv. rewrite lookup_insert_ne by (intros ->; done). apply Hdeg. by right. }
  exists deg'. split.
  - cbn [release]. rewrite Hdd. unfold usize_dec. rewrite (proj2 (N.eqb_neq _ _)) by lia.
    cbn [outcome_bind]. replace (N.of_nat (S (f d)) - 1)%N with (N.of_nat (f d)) by lia.
    rewrite Hrel. cbn [outcome_bind fst snd]. rewrite filter_cons.
    case_decide as Hz; [rewrite Hz; done|]. rewrite (proj2 (N.eqb_neq _ _)) by lia. done.
  - intros v. rewrite Hdeg'. destruct (decide (v = d)) as [->|Hvd].
    + rewrite decide_False, decide_True by set_solver. by rewrite lookup_insert_eq.
    + rewrite lookup_insert_ne by done. repeat case_decide; set_solver.
Qed.

Lemma drain_spec m fuel queue out deg :
  graph_wf m -> inv (names m) (edge m) (queue, out) ->
  (forall v, is_Some (m !! v) -> deg !! v = Some (N.of_nat (pending (names m) (edge m) out v))) ->
  length (names m) <= fuel + length out ->
  exists out', drain overflow_checks fuel m deg queue out = Returns out' /\ inv (names m) (edge m) ([], out').
Proof.
  intros Hwf. revert queue out deg.
  induction fuel as [|fuel IH]; intros [|u queue] out deg Hinv Hdeg Hfuel; try by exists out.
  - apply inv_length in Hinv. cbn in *; lia.
  - assert (Hu : u ∈ out ++ u :: queue) by set_solver.
    apply (inv_nodes _ _ _ Hinv) in Hu as [Hu _]. apply names_elem in Hu as [n Hn].
    assert (Hout : u ∉ out).
    { pose proof (inv_nodup _ _ _ Hinv) as Hnd. cbn in Hnd. apply NoDup_app in Hnd as (_ & Hd & _).
      intros Hin. eapply Hd; [done|left]. }
    destruct (release_spec (pending (names m) (edge m) (out ++ [u])) (depended_by n) deg) as (deg' & Hrel & Hdeg').
    { by eapply wf_nodup. }
    { intros v Hv. apply (wf_both _ Hwf _ _ _ Hn) in Hv. destruct (wf_edge_names _ _ _ Hwf Hv) as [_ Hvn].
      rewrite Hdeg by (by apply names_elem). do 2 f_equal.
      rewrite (pending_snoc (names m) (edge m) (names_nodup m) (fun a b => wf_edge_names m a b Hwf) out u v) by done.
      by rewrite decide_True. }
    cbn [drain]. rewrite Hn, Hrel. cbn [outcome_bind fst snd]. apply IH.
    + apply (step_inv _ _ (names_nodup m) (fun a b => wf_edge_names m a b Hwf) (u :: queue, out)); [|exact Hinv].
      econstructor; [done|].
      apply Permutation_app_head, NoDup_Permutation.
      * apply NoDup_filter. by eapply wf_nodup.
      * apply NoDup_filter, names_nodup.
      * intros v. unfold newly. rewrite !list_elem_of_filter, (wf_both _ Hwf _ _ _ Hn). split; [|tauto].
        intros [? He]. pose proof (wf_edge_names _ _ _ Hwf He). tauto.
    + intros v Hv. rewrite Hdeg'. rewrite (Hdeg v Hv).
      rewrite (pending_snoc (names m) (edge m) (names_nodup m) (fun a b => wf_edge_names m a b Hwf) out u v) by done.
      pose proof (wf_both _ Hwf u v n Hn). repeat case_decide; tauto || done.
    + rewrite length_app. cbn. lia.
Qed.

Lemma topological_sort_spec m :
  graph_wf m ->
  exists order, topological_sort overflow_checks m = Returns order /\ order ≡ₚ names m
    /\ forall u v, edge m u v -> cycle_free (edge m) v -> before order u v.
Proof.
  intros Hwf. pose proof (names_nodup m) as Hnd.
  set (queue := map fst (List.filter (fun e => (e.2 =? 0)%N) (iter (in_degrees m)))).
  assert (Hq : queue ≡ₚ filter (fun v => pending (names m) (edge m) [] v = 0) (names m)).
  { apply NoDup_Permutation; [|by apply NoDup_filter|].
    - apply filter_fst_nodup. rewrite iter_permutation. apply NoDup_fst_map_to_list.
    - intros v. unfold queue. rewrite list_elem_of_filter, names_elem. split.
      + intros ([k d] & -> & [Hin Hz]%list_filter_elem)%list_elem_of_fmap. cbn in *.
        rewrite iter_permutation, elem_of_map_to_list, in_degrees_lookup in Hin by done.
        destruct (m !! k) as [n|] eqn:Hk; [|done]. injection Hin as <-. apply N.eqb_eq in Hz.
        rewrite (pending_nil m k n) by done. split; [lia|eauto].
      + intros [Hp [n Hn]]. rewrite (pending_nil m v n) in Hp by done. apply list_elem_of_fmap.
        exists (v, 0%N). split; [done|]. apply list_filter_elem. split; [|done].
        rewrite iter_permutation, elem_of_map_to_list, in_degrees_lookup, Hn by done. cbn. by rewrite Hp. }
  destruct (drain_spec m (size m) queue [] (in_degrees m)) as (out & Hdr & Hinv); [done| | | |].
  - apply initial_inv; [done|]. by constructor.
  - intros v [n Hn]. rewrite in_degrees_lookup, Hn, (pending_nil m v n) by done. done.
  - unfold names. rewrite length_fmap, length_map_to_list. lia.
  - unfold topological_sort. fold queue. rewrite Hdr. cbn [outcome_bind].
    set (rest := List.filter (fun k => negb (existsb (text_eqb k) out)) (map fst (iter m))).
    exists (if length out =? size m then out else out ++ rest).
    assert (Hrest : out ++ rest ≡ₚ names m).
    { apply (finished_permutation _ (edge m) Hnd); [done|]. unfold rest. rewrite filter_bool.
      change (map fst (iter m)) with ((iter m).*1). rewrite iter_permutation.
      erewrite (filter_ext_elem _ (fun v => v ∉ out)); [done|]. intros v _.
      rewrite negb_true_iff, <- not_true_iff_false, text_eqb_elem. done. }
    split; [done|]. destruct (length out =? size m) eqn:Hlen.
    + apply Nat.eqb_eq in Hlen. split; [|intros; eapply finished_before; eauto using wf_edge_names].
      assert (length rest = 0) as ->%nil_length_inv; [|by rewrite app_nil_r in Hrest].
      apply Permutation_length in Hrest. unfold names in Hrest.
      rewrite length_app, length_fmap, length_map_to_list in Hrest. lia.
    + split; [done|]. intros. apply before_app_l. eapply finished_before; eauto using wf_edge_names.
Qed.

(** ** The graph of a comparison *)

Lemma link_functions_nil tn m : link_functions tn [] m = m.
Proof.
  unfold link_functions. cbn [map]. pose proof (iter_permutation (collect_map (V := FunctionInfo.t) [])) as Hp.
  change (collect_map []) with (∅ : gmap text FunctionInfo.t) in *. rewrite map_to_list_empty in Hp.
  by apply Permutation_nil_r in Hp as ->.
Qed.

Definition base_tables (tables : list TableInfo.t) : list text :=
  map TableInfo.name (List.filter (fun t => negb (is_view t)) tables).

(** The node map of [build_with_functions_and_options] before the functions. *)
Definition linked_nodes (details : list TableSchemaDetail.t) (tables : list TableInfo.t) (ignore_case : bool)
    : gmap text DependencyNode :=
  let table_names : gset text := list_to_set (base_tables tables) in
  let view_names : gset text := list_to_set (map TableInfo.name (List.filter is_view tables)) in
  let all_names : gset text := list_to_set (map TableInfo.name tables) in
  let detail_map := collect_map (map (fun d => (TableSchemaDetail.name d, d)) details) in
  link_all (link_all (link_all (initial_nodes all_names) (foreign_key_references detail_map table_names ignore_case))
                     (view_references detail_map table_names view_names))
           (trigger_references detail_map table_names all_names).

Lemma initial_nodes_dom (s : gset text) k : is_Some (initial_nodes s !! k) <-> k ∈ s.
Proof. rewrite initial_nodes_lookup. case_decide; split; naive_solver. Qed.

Lemma sublist_names (p : TableInfo.t -> bool) tables k :
  k ∈ (list_to_set (map TableInfo.name (List.filter p tables)) : gset text) ->
  k ∈ (list_to_set (map TableInfo.name tables) : gset text).
Proof.
  rewrite !elem_of_list_to_set, !list_elem_of_fmap. intros (t & -> & [Ht _]%list_filter_elem). eauto.
Qed.

Lemma linked_nodes_refs details tables ic :
  let all : gset text := list_to_set (map TableInfo.name tables) in
  let tn : gset text := list_to_set (base_tables tables) in
  let vn : gset text := list_to_set (map TableInfo.name (List.filter is_view tables)) in
  let dm := collect_map (map (fun d => (TableSchemaDetail.name d, d)) details) in
  Forall (fun e : text * text => e.1 ∈ all /\ e.2 ∈ all)
    (foreign_key_references dm tn ic ++ view_references dm tn vn ++ trigger_references dm tn all).
Proof.
  intros all tn vn dm. rewrite !Forall_app, !Forall_forall. split_and!; intros [a b]; cbn.
  - intros (Ha & d & fk & _ & _ & Hr%referenced_table_in)%foreign_key_references_elem.
    split; by eapply sublist_names.
  - intros [? ?]%view_references_in. split; by eapply sublist_names.
  - intros [? ?]%trigger_references_in. split; [done|]. by eapply sublist_names.
Qed.

Lemma link_all_app m e1 e2 : link_all (link_all m e1) e2 = link_all m (e1 ++ e2).
Proof. unfold link_all. by rewrite foldl_app. Qed.

Lemma linked_nodes_wf details tables ic :
  graph_wf (linked_nodes details tables ic)
  /\ forall k, is_Some (linked_nodes details tables ic !! k) <-> k ∈ map TableInfo.name tables.
Proof.
  pose proof (linked_nodes_refs details tables ic) as Hr. unfold linked_nodes. rewrite !link_all_app, <- ?app_assoc.
  split.
  - apply link_all_wf; [apply initial_nodes_wf|]. eapply Forall_impl; [exact Hr|].
    intros [a b]. by rewrite !initial_nodes_dom.
  - intros k. by rewrite link_all_dom, initial_nodes_dom, elem_of_list_to_set.
Qed.

Lemma linked_nodes_fk details tables ic d fk :
  NoDup (map TableSchemaDetail.name details) -> d ∈ details -> fk ∈ TableSchemaDetail.foreign_keys d ->
  TableSchemaDetail.name d ∈ base_tables tables -> ForeignKeyInfo.ref_table fk ∈ base_tables tables ->
  edge (linked_nodes details tables ic) (ForeignKeyInfo.ref_table fk) (TableSchemaDetail.name d).
Proof.
  intros Hnd Hd Hfk Ht Hr. pose proof (linked_nodes_refs details tables ic) as Hrefs. cbn in Hrefs.
  unfold linked_nodes. rewrite !link_all_app, <- ?app_assoc, link_all_edge.
  - right. apply elem_of_app. left. apply foreign_key_references_elem. rewrite elem_of_list_to_set. split; [done|].
    exists d, fk. split_and!; [|done|].
    + apply collect_map_nodup.
      * change (NoDup (fst <$> map (fun d => (TableSchemaDetail.name d, d)) details)).
        rewrite <- list_fmap_compose. exact Hnd.
      * apply list_elem_of_fmap. by exists d.
    + unfold referenced_table. rewrite bool_decide_true; [done|]. by apply elem_of_list_to_set.
  - eapply Forall_impl; [exact Hrefs|]. intros [a b] [Ha _]. by rewrite initial_nodes_dom.
Qed.

Lemma build_with_options_returns details tables ic :
  exists order, build_with_options overflow_checks details tables ic
    = Returns (mk_graph (linked_nodes details tables ic) order)
    /\ order ≡ₚ names (linked_nodes details tables ic)
    /\ forall u v, edge (linked_nodes details tables ic) u v -> cycle_free (edge (linked_nodes details tables ic)) v ->
         before order u v.
Proof.
  destruct (linked_nodes_wf details tables ic) as [Hwf _].
  destruct (topological_sort_spec _ Hwf) as (order & Hsort & Hrest).
  exists order. split; [|done]. unfold build_with_options, build_with_functions_and_options.
  rewrite link_functions_nil. change (link_all _ (trigger_references _ _ _)) with (linked_nodes details tables ic).
  by rewrite Hsort.
Qed.

(** [DependencyGraph::build_with_options] returns, whatever the hash orders: its
    build order lists every table and view exactly once; a table stands after
    everything it depends on (and is dropped before it) unless a cycle reaches it;
    and every foreign key between two known tables is such a dependency. *)
Theorem dependency_order_is_topological details tables ignore_case :
  exists g, build_with_options overflow_checks details tables ignore_case = Returns g
    /\ NoDup (build_order g)
    /\ (forall k, k ∈ build_order g <-> k ∈ map TableInfo.name tables)
    /\ (forall u v, edge (nodes g) u v -> cycle_free (edge (nodes g)) v ->
           before (build_order g) u v /\ before (drop_order g) v u)
    /\ (NoDup (map TableSchemaDetail.name details) ->
        forall d fk, d ∈ details -> fk ∈ TableSchemaDetail.foreign_keys d ->
          TableSchemaDetail.name d ∈ base_tables tables -> ForeignKeyInfo.ref_table fk ∈ base_tables tables ->
          edge (nodes g) (ForeignKeyInfo.ref_table fk) (TableSchemaDetail.name d)).
Proof.
  destruct (build_with_options_returns details tables ignore_case) as (order & Hb & Hp & Hbefore).
  destruct (linked_nodes_wf details tables ignore_case) as [Hwf Hdom].
  eexists. split; [exact Hb|]. unfold build_order, drop_order. cbn [topological_order nodes].
  assert (Hnd : NoDup order) by (rewrite Hp; apply names_nodup). split_and!; [done| | |].
  - intros k. by rewrite Hp, names_elem.
  - intros u v He Hc. split; [by apply Hbefore|]. apply before_reverse; [done| |by apply Hbefore].
    rewrite Hp. by apply (wf_edge_names _ u v).
  - intros Hndd d fk. by apply linked_nodes_fk.
Qed.

End Order.

(** ** Examples *)

Section Examples.

#[local] Instance graph_case : CaseMap := {| nonascii_upper c := [c]; nonascii_lower _ c _ := [c] |}.
#[local] Instance graph_sets : SetOrder := {| iter_set _ := elements; iter_set_permutation _ _ := reflexivity _ |}.
#[local] Instance graph_maps {V} : HashOrder V := {| iter := map_to_list; iter_permutation _ := reflexivity _ |}.

Definition table (name : text) : TableInfo.t := TableInfo.mk name %"TABLE" None None None None.
Definition fk_to (name ref : text) : ForeignKeyInfo.t := ForeignKeyInfo.mk name %"ref_id" None ref %"id" None None.
Definition detail (name : text) (fks : list ForeignKeyInfo.t) : TableSchemaDetail.t :=
  TableSchemaDetail.mk name [] [] fks [] None.

Definition shop : list TableSchemaDetail.t :=
  [detail %"orders" [fk_to %"fk_user" %"users"]; detail %"users" [];
   detail %"items" [fk_to %"fk_order" %"orders"; fk_to %"fk_self" %"items"]].

Example shop_order :
  build_with_options true shop (map table [%"items"; %"orders"; %"users"]) false
  = Returns (mk_graph (linked_nodes shop (map table [%"items"; %"orders"; %"users"]) false) [%"users"; %"orders"; %"items"]).
Proof. vm_compute. reflexivity. Qed.

Lemma dependency_order_witness :
  exists g, build_with_options true shop (map table [%"items"; %"orders"; %"users"]) false = Returns g
    /\ before (build_order g) %"users" %"orders".
Proof.
  destruct (dependency_order_is_topological true shop (map table [%"items"; %"orders"; %"users"]) false)
    as (g & Hg & _). exists g. split; [exact Hg|]. rewrite shop_order in Hg. injection Hg as <-.
  exists [%"users"], [%"orders"; %"items"]. split; [reflexivity|]. split; [left|].
  intros H%list_elem_of_singleton. discriminate.
Defined.

(** A table that refers to itself is in a cycle, and everything below it is then
    placed in the order of the hash table: here [z] before the [a] it refers to. *)
Example self_reference_loses_the_order :
  (exists g, build_with_options true [detail %"a" [fk_to %"parent" %"a"]; detail %"z" [fk_to %"fk" %"a"]]
               (map table [%"a"; %"z"]) false = Returns g
     /\ edge (nodes g) %"a" %"z" /\ build_order g = [%"z"; %"a"]).
Proof. eexists. split; [vm_compute; reflexivity|]. split; [apply (bool_decide_unpack _); vm_compute; exact I|reflexivity]. Qed.

(** A function that shares its name with a table is counted against the table's
    in-degree: with overflow checks the sort panics. *)
Example function_name_clash_panics :
  build_with_functions true [] (map table [%"report"; %"sales"])
    [FunctionInfo.mk %"report" %"FUNCTION" %"int" %"SELECT count(*) FROM sales" []] = Panics.
Proof. vm_compute. reflexivity. Qed.

End Examples.
