(* ===== verification/DiffOrder.v ===== *)
(** * DiffOrder: the order of a synchronisation script ([schema_diff.rs],
      [diff_referenced_objects], [order_diffs_for_execution]).

    A script creates a table before the tables that refer to it and drops it
    after them.  Positions index vectors; an index out of range and a decrement
    below zero are the panics of the model.  A [BTreeSet] of positions is its
    ascending list. *)

From stdpp Require Import gmap relations.
From Stdlib Require Import Sorted.
From S2P Require Import Prelude DbTypes WriteClass WriteUnlock SchemaTypes Kahn SchemaGraph SchemaGraphTheorems.

Section Order.

Context `{CaseMap} `{SetOrder}.
Variable overflow_checks : bool.

(** [push_unique] of [diff_referenced_objects]: the empty name is skipped. *)
Definition push_reference (names : list text) (name : text) : list text :=
  if negb (is_empty name) && negb (existsb (text_eqb name) names) then names ++ [name] else names.

(** The side that owns the definition of a foreign key. *)
Definition owning_side (diff_type : text) (fk : ForeignKeyDiff) : option SchemaForeignKeyInfo.t :=
  if text_eqb diff_type %"removed"
  then match ObjectDiff.target fk with Some t => Some t | None => ObjectDiff.source fk end
  else match ObjectDiff.source fk with Some s => Some s | None => ObjectDiff.target fk end.

Definition ref_table (fk : SchemaForeignKeyInfo.t) : text := ForeignKeyInfo.ref_table (SchemaForeignKeyInfo.info fk).

Definition is_identifier_quote (c : char) : bool :=
  (c =? backtick)%N || (c =? dquote)%N || (c =? lbracket)%N || (c =? rbracket)%N.

Definition diff_foreign_keys (diff : TableDiff.t) : list ForeignKeyDiff := default [] (TableDiff.foreign_keys diff).

Definition diff_referenced_objects (diff : TableDiff.t) (known : gset text) : list text :=
  let names :=
    foldl (fun names fk =>
             match owning_side (TableDiff.diff_type diff) fk with
             | Some info => push_reference names (ref_table info)
             | None => names
             end) [] (diff_foreign_keys diff) in
  if bool_decide (TableDiff.object_type diff = Some %"view") then
    match (match TableDiff.ddl diff with Some d => Some d | None => TableDiff.target_ddl diff end) with
    | None => names
    | Some ddl =>
        foldl push_reference names
          (extract_ddl_references (List.filter (fun c => negb (is_identifier_quote c)) ddl) (iter_set 3 known))
    end
  else names.

(** The positions of the diffs of one kind by name; a later one replaces an earlier one. *)
Definition positions_of (kind : text) (diffs : list TableDiff.t) : gmap text nat :=
  collect_map (omap (fun e => if text_eqb (TableDiff.diff_type e.2) kind then Some (TableDiff.name e.2, e.1) else None)
                    (imap pair diffs)).

Definition parent_edge (positions : gmap text nat) (mk : nat -> nat * nat) (name : text) : list (nat * nat) :=
  match positions !! name with Some parent => [mk parent] | None => [] end.

(** The edges one diff asks for: [(from, to)] means [from] runs first. *)
Definition edges_of (added removed : gmap text nat) (known : gset text) (index : nat) (diff : TableDiff.t) : list (nat * nat) :=
  if text_eqb (TableDiff.diff_type diff) %"added" then
    diff_referenced_objects diff known ≫= parent_edge added (fun parent => (parent, index))
  else if text_eqb (TableDiff.diff_type diff) %"removed" then
    diff_referenced_objects diff known ≫= parent_edge removed (fun parent => (index, parent))
  else
    diff_foreign_keys diff ≫= fun fk =>
      match (match ObjectDiff.source fk with Some s => Some s | None => ObjectDiff.target fk end) with
      | None => []
      | Some info =>
          if text_eqb (ObjectDiff.diff_type fk) %"added" then parent_edge added (fun parent => (parent, index)) (ref_table info)
          else if text_eqb (ObjectDiff.diff_type fk) %"removed" then parent_edge removed (fun parent => (index, parent)) (ref_table info)
          else []
      end.

Definition known_names (diffs : list TableDiff.t) : gset text := list_to_set (map TableDiff.name diffs).

Definition diff_edges (diffs : list TableDiff.t) : list (nat * nat) :=
  let added := positions_of %"added" diffs in
  let removed := positions_of %"removed" diffs in
  concat (imap (edges_of added removed (known_names diffs)) diffs).

Record adjacency : Type := mk_adjacency {
  successors : list (list nat); in_degree : list N; seen_edges : gset (nat * nat)
}.

(** The closure [add_edge]. *)
Definition add_edge (g : outcome adjacency) (e : nat * nat) : outcome adjacency :=
  do g <- g;
  if (e.1 =? e.2) || bool_decide (e ∈ seen_edges g) then Returns g
  else
    match successors g !! e.1, in_degree g !! e.2 with
    | Some next, Some deg =>
        Returns (mk_adjacency (<[e.1 := next ++ [e.2]]> (successors g)) (<[e.2 := (deg + 1)%N]> (in_degree g))
                   ({[e]} ∪ seen_edges g))
    | _, _ => Panics
    end.

Definition adjacency_of (n : nat) (edges : list (nat * nat)) : outcome adjacency :=
  foldl add_edge (Returns (mk_adjacency (replicate n []) (replicate n 0%N) ∅)) edges.

(** [BTreeSet::insert] on the ascending list. *)
Fixpoint btree_insert (x : nat) (l : list nat) : list nat :=
  match l with
  | [] => [x]
  | y :: l' => if x <? y then x :: l else if x =? y then l else y :: btree_insert x l'
  end.

(** One pass over the successors of a placed diff. *)
Fixpoint unblock (nexts : list nat) (in_degree : list N) (ready : list nat) : outcome (list N * list nat) :=
  match nexts with
  | [] => Returns (in_degree, ready)
  | next :: rest =>
      match in_degree !! next with
      | None => Panics
      | Some deg =>
          do deg' <- usize_dec overflow_checks deg;
          unblock rest (<[next := deg']> in_degree) (if (deg' =? 0)%N then btree_insert next ready else ready)
      end
  end.

(** [while let Some(&index) = ready.iter().next()]. *)
Fixpoint place (fuel : nat) (successors : list (list nat)) (in_degree : list N) (ready ordered : list nat) (placed : list bool)
    : outcome (list nat * list bool) :=
  match ready with
  | [] => Returns (ordered, placed)
  | index :: ready' =>
      match fuel, placed !! index, successors !! index with
      | O, _, _ => OutOfFuel
      | S fuel', Some _, Some nexts =>
          do r <- unblock nexts in_degree ready';
          place fuel' successors r.1 r.2 (ordered ++ [index]) (<[index := true]> placed)
      | _, _, _ => Panics
      end
  end.

(** The positions not placed, in order. *)
Definition unplaced (placed : list bool) : list nat := concat (imap (fun index was => if was : bool then [] else [index]) placed).

Definition execution_order (diffs : list TableDiff.t) : outcome (list nat) :=
  let n := length diffs in
  if bool_decide (positions_of %"added" diffs = ∅) && bool_decide (positions_of %"removed" diffs = ∅)
  then Returns (seq 0 n)
  else
    do g <- adjacency_of n (diff_edges diffs);
    let ready := List.filter (fun index => match in_degree g !! index with Some d => (d =? 0)%N | None => false end) (seq 0 n) in
    do r <- place n (successors g) (in_degree g) ready [] (replicate n false);
    Returns (r.1 ++ unplaced r.2).

(** [ordered.into_iter().map(|index| &diffs[index]).collect()]. *)
Fixpoint fetch (diffs : list TableDiff.t) (ordered : list nat) : outcome (list TableDiff.t) :=
  match ordered with
  | [] => Returns []
  | index :: rest =>
      match diffs !! index with
      | None => Panics
      | Some d => do ds <- fetch diffs rest; Returns (d :: ds)
      end
  end.

Definition order_diffs_for_execution (diffs : list TableDiff.t) : outcome (list TableDiff.t) :=
  do ordered <- execution_order diffs; fetch diffs ordered.

End Order.

(** * a synchronisation script runs in dependency order.

    [adjacency_of] records every edge once at both ends; [place] refines [Kahn]
    with the smallest ready position chosen first. *)

(** [v] must not run before [u]. *)
Definition dep (edges : list (nat * nat)) (u v : nat) : Prop := (u, v) ∈ edges /\ u <> v.

#[export] Instance dep_decision edges : RelDecision (dep edges).
Proof. intros u v. unfold dep. apply _. Defined.

Definition in_range (n : nat) (edges : list (nat * nat)) : Prop := Forall (fun e => e.1 < n /\ e.2 < n) edges.

Lemma elem_of_concat {A} (x : A) ls : x ∈ concat ls <-> exists l, x ∈ l /\ l ∈ ls.
Proof.
  rewrite list_elem_of_In, in_concat. setoid_rewrite list_elem_of_In. firstorder.
Qed.

Lemma omap_lookup_seq {A} (diffs : list A) : omap (diffs !!.) (seq 0 (length diffs)) = diffs.
Proof.
  induction diffs as [|d diffs IH] using rev_ind; [done|].
  rewrite length_app. cbn. rewrite Nat.add_1_r, seq_S, omap_app. cbn. rewrite list_lookup_middle by done. f_equal.
  rewrite <- IH at 2. apply list_omap_ext. apply Forall2_same_length_lookup. split; [done|].
  intros i x y Hx Hy. simplify_eq. apply lookup_seq in Hx as [-> Hi]. by rewrite lookup_app_l.
Qed.

(** ** The adjacency lists *)

Lemma seq_map_lookup {B} (f : nat -> B) n i : map f (seq 0 n) !! i = if decide (i < n) then Some (f i) else None.
Proof.
  change (map f (seq 0 n)) with (f <$> seq 0 n). rewrite list_lookup_fmap. case_decide as Hi.
  - rewrite lookup_seq_lt by done. done.
  - by rewrite lookup_seq_ge by lia.
Qed.

Lemma seq_map_insert {B} (f g : nat -> B) n k :
  k < n -> (forall i, i <> k -> g i = f i) -> <[k := g k]> (map f (seq 0 n)) = map g (seq 0 n).
Proof.
  intros Hk Hfg. apply list_eq. intros i. destruct (decide (i = k)) as [->|Hik].
  - rewrite list_lookup_insert_eq by (by rewrite length_map, length_seq).
    by rewrite seq_map_lookup, decide_True.
  - rewrite list_lookup_insert_ne, !seq_map_lookup by done. by rewrite Hfg.
Qed.

Definition out_edges (l : list (nat * nat)) (u : nat) : list nat := (filter (fun e => e.1 = u) l).*2.
Definition in_count (l : list (nat * nat)) (v : nat) : N := N.of_nat (length (filter (fun e => e.2 = v) l)).

(** The recorded edges, in the order they were recorded. *)
Record adjacent (n : nat) (edges : list (nat * nat)) (l : list (nat * nat)) (g : adjacency) : Prop := {
  adj_nodup : NoDup l;
  adj_elem e : e ∈ l <-> dep edges e.1 e.2;
  adj_seen e : e ∈ seen_edges g <-> e ∈ l;
  adj_succ : successors g = map (out_edges l) (seq 0 n);
  adj_deg : in_degree g = map (in_count l) (seq 0 n)
}.

Lemma adjacent_skip n edges l g e :
  adjacent n edges l g -> e.1 = e.2 \/ e ∈ l -> adjacent n (edges ++ [e]) l g.
Proof.
  intros [Hnd Hel Hs Hsu Hd] He. split; try done. intros [a b]. rewrite Hel. unfold dep. cbn.
  rewrite elem_of_app, list_elem_of_singleton. split; [tauto|]. intros [[?|<-] ?]; [done|].
  destruct He as [He|He]; [done|]. by apply Hel in He.
Qed.

Lemma adjacent_add n edges l g e next deg :
  adjacent n edges l g -> e.1 <> e.2 -> e ∉ l -> e.1 < n -> e.2 < n ->
  successors g !! e.1 = Some next -> in_degree g !! e.2 = Some deg ->
  adjacent n (edges ++ [e]) (l ++ [e])
    (mk_adjacency (<[e.1 := next ++ [e.2]]> (successors g)) (<[e.2 := (deg + 1)%N]> (in_degree g)) ({[e]} ∪ seen_edges g)).
Proof.
  intros [Hnd Hel Hs Hsu Hd] Hne Hl H1 H2 Hn Hdeg. split; cbn [successors in_degree seen_edges].
  - apply NoDup_app. split_and!; [done| |apply NoDup_singleton]. by intros x Hx ->%list_elem_of_singleton.
  - intros [a b]. rewrite elem_of_app, Hel. unfold dep. cbn. rewrite elem_of_app, !list_elem_of_singleton.
    split; [|tauto]. intros [?|<-]; [tauto|]. by split; [right|].
  - intros x. rewrite elem_of_union, elem_of_singleton, Hs. set_solver.
  - rewrite Hsu, seq_map_lookup, decide_True in Hn by done. injection Hn as <-. rewrite Hsu.
    assert (Hk : out_edges (l ++ [e]) e.1 = out_edges l e.1 ++ [e.2]).
    { unfold out_edges. rewrite filter_app, filter_cons, decide_True, fmap_app by done. done. }
    rewrite <- Hk. apply seq_map_insert; [done|]. intros i Hi.
    unfold out_edges. rewrite filter_app, filter_cons, decide_False by done. by rewrite app_nil_r.
  - rewrite Hd, seq_map_lookup, decide_True in Hdeg by done. injection Hdeg as <-. rewrite Hd.
    assert (Hk : in_count (l ++ [e]) e.2 = (in_count l e.2 + 1)%N).
    { unfold in_count. rewrite filter_app, filter_cons, decide_True, length_app by done. cbn. lia. }
    rewrite <- Hk. apply seq_map_insert; [done|]. intros i Hi.
    unfold in_count. rewrite filter_app, filter_cons, decide_False by done. by rewrite app_nil_r.
Qed.

Lemma adjacency_of_spec n edges :
  in_range n edges -> exists g l, adjacency_of n edges = Returns g /\ adjacent n edges l g.
Proof.
  induction edges as [|e edges IH] using rev_ind; intros Hr.
  - eexists _, []. split; [done|]. assert (Hrep : forall {B} (x : B), replicate n x = map (fun _ => x) (seq 0 n)).
    { intros B x. apply list_eq. intros i. rewrite seq_map_lookup. case_decide; [by apply lookup_replicate_2|].
      apply lookup_replicate_None. lia. }
    split; cbn; [constructor| |set_solver|by rewrite Hrep|by rewrite Hrep]. unfold dep. set_solver.
  - apply Forall_app in Hr as [Hr [[H1 H2] _]%Forall_cons]. destruct (IH Hr) as (g & l & Hg & Ha).
    unfold adjacency_of in *. rewrite foldl_app, Hg. cbn [foldl add_edge outcome_bind].
    destruct ((e.1 =? e.2) || bool_decide (e ∈ seen_edges g)) eqn:Hskip.
    + exists g, l. split; [done|]. apply adjacent_skip; [done|].
      apply orb_true_iff in Hskip as [?%Nat.eqb_eq|Hin%bool_decide_eq_true]; [by left|right]. by apply (adj_seen _ _ _ _ Ha).
    + apply orb_false_iff in Hskip as [Hne%Nat.eqb_neq Hin%bool_decide_eq_false].
      rewrite (adj_seen _ _ _ _ Ha) in Hin.
      assert (exists next, successors g !! e.1 = Some next) as [next Hn].
      { rewrite (adj_succ _ _ _ _ Ha), seq_map_lookup, decide_True by done. eauto. }
      assert (exists deg, in_degree g !! e.2 = Some deg) as [deg Hd].
      { rewrite (adj_deg _ _ _ _ Ha), seq_map_lookup, decide_True by done. eauto. }
      rewrite Hn, Hd. do 2 eexists. split; [done|]. by eapply adjacent_add.
Qed.

Lemma out_edges_elem n edges l g u v : adjacent n edges l g -> v ∈ out_edges l u <-> dep edges u v.
Proof.
  intros Ha. unfold out_edges. rewrite list_elem_of_fmap. split.
  - intros ([a b] & -> & [Hau Hin]%list_elem_of_filter). cbn in *. subst. by apply (adj_elem _ _ _ _ Ha) in Hin.
  - intros Hd. exists (u, v). rewrite list_elem_of_filter. split; [done|]. split; [done|]. by apply (adj_elem _ _ _ _ Ha).
Qed.

Lemma out_edges_nodup n edges l g u : adjacent n edges l g -> NoDup (out_edges l u).
Proof.
  intros Ha. unfold out_edges. apply NoDup_fmap_2_strong; [|apply NoDup_filter, Ha].
  intros [a b] [c d] [Hx _]%list_elem_of_filter [Hy _]%list_elem_of_filter. cbn in *. congruence.
Qed.

Lemma dep_range n edges u v : in_range n edges -> dep edges u v -> u ∈ seq 0 n /\ v ∈ seq 0 n.
Proof.
  intros Hr [Hin _]. unfold in_range in Hr. rewrite Forall_forall in Hr. apply Hr in Hin as [? ?]. cbn in *.
  rewrite !elem_of_seq. lia.
Qed.

Lemma in_count_pending n edges l g v :
  in_range n edges -> adjacent n edges l g -> in_count l v = N.of_nat (pending (seq 0 n) (dep edges) [] v).
Proof.
  intros Hr Ha. unfold in_count, pending. f_equal. rewrite <- (length_fmap fst).
  apply Permutation_length, NoDup_Permutation.
  - apply NoDup_fmap_2_strong; [|apply NoDup_filter, Ha].
    intros [a b] [c d] [Hx _]%list_elem_of_filter [Hy _]%list_elem_of_filter. cbn in *. congruence.
  - apply NoDup_filter, NoDup_seq.
  - intros u. rewrite list_elem_of_fmap, list_elem_of_filter. split.
    + intros ([a b] & -> & [Hau Hin]%list_elem_of_filter). cbn in *. subst. apply (adj_elem _ _ _ _ Ha) in Hin. cbn in Hin.
      split; [split; [done|apply not_elem_of_nil]|]. by apply (dep_range n edges a v).
    + intros [[Hd _] _]. exists (u, v). rewrite list_elem_of_filter. split; [done|]. split; [done|].
      by apply (adj_elem _ _ _ _ Ha).
Qed.

(** ** The ready set *)

Definition ascending (l : list nat) : Prop := StronglySorted lt l.

Lemma btree_insert_elem x y l : y ∈ btree_insert x l <-> y = x \/ y ∈ l.
Proof.
  induction l as [|z l IH]; cbn [btree_insert]; [set_solver|].
  destruct (x <? z); [by rewrite !elem_of_cons|].
  destruct (Nat.eqb_spec x z) as [->|]; rewrite !elem_of_cons, ?IH; tauto.
Qed.

Lemma btree_insert_ascending x l : ascending l -> ascending (btree_insert x l).
Proof.
  induction l as [|z l IH]; intros Hl; cbn [btree_insert]; [by repeat constructor|].
  apply StronglySorted_inv in Hl as [Hl Hz].
  destruct (x <? z) eqn:Hxz.
  - apply Nat.ltb_lt in Hxz. constructor; [by constructor|]. constructor; [done|].
    eapply Forall_impl; [exact Hz|]. cbn. lia.
  - destruct (x =? z) eqn:Heq; [by constructor|]. apply Nat.ltb_ge in Hxz. apply Nat.eqb_neq in Heq.
    constructor; [by apply IH|]. apply Forall_forall. intros y [->|Hy]%btree_insert_elem; [lia|].
    rewrite Forall_forall in Hz. by apply Hz.
Qed.

Lemma ascending_nodup l : ascending l -> NoDup l.
Proof.
  induction 1 as [|x l Hl IH Hx]; constructor; [|done]. intros Hin. rewrite Forall_forall in Hx.
  apply Hx in Hin. lia.
Qed.

Lemma ascending_insert_all ready new :
  ascending ready -> ascending (foldl (fun r x => btree_insert x r) ready new)
    /\ forall y, y ∈ foldl (fun r x => btree_insert x r) ready new <-> y ∈ ready \/ y ∈ new.
Proof.
  revert ready. induction new as [|x new IH]; intros ready Hr; [split; [done|set_solver]|].
  cbn. destruct (IH _ (btree_insert_ascending x _ Hr)) as [Ha He]. split; [done|].
  intros y. rewrite He, btree_insert_elem. set_solver.
Qed.

Lemma seq_ascending n : ascending (seq 0 n).
Proof.
  generalize 0 as k. induction n as [|n IH]; intros k; constructor; [apply IH|].
  apply Forall_forall. intros x Hx%elem_of_seq. lia.
Qed.

Lemma StronglySorted_filter_bool (p : nat -> bool) l : ascending l -> ascending (List.filter p l).
Proof.
  induction 1 as [|x l Hl IH Hx]; cbn; [constructor|]. destruct (p x); [|done]. constructor; [done|].
  apply Forall_forall. intros y [Hy _]%list_filter_elem. rewrite Forall_forall in Hx. by apply Hx.
Qed.

(** The first element of an ascending list is its least. *)
Lemma head_ascending l k : ascending l -> k ∈ l -> (forall j, j ∈ l -> k <= j) -> head l = Some k.
Proof.
  intros Hl Hk Hge. destruct l as [|j l]; [by apply not_elem_of_nil in Hk|]. cbn. f_equal.
  apply StronglySorted_inv in Hl as [_ Hl]. apply elem_of_cons in Hk as [->|Hk]; [done|].
  rewrite Forall_forall in Hl. apply Hl in Hk. specialize (Hge j (list_elem_of_here _ _)). lia.
Qed.

(** * what a synchronisation script's order promises. *)

Section Loop.

Variable overflow_checks : bool.

Lemma unblock_spec (f : nat -> nat) nexts deg ready :
  NoDup nexts -> (forall v, v ∈ nexts -> deg !! v = Some (N.of_nat (S (f v)))) ->
  exists deg', unblock overflow_checks nexts deg ready
      = Returns (deg', foldl (fun r x => btree_insert x r) ready (filter (fun v => f v = 0) nexts))
    /\ forall v, deg' !! v = if decide (v ∈ nexts) then Some (N.of_nat (f v)) else deg !! v.
Proof.
  revert deg ready. induction nexts as [|d ds IH]; intros deg ready Hnd Hdeg; [by exists deg|].
  apply NoDup_cons in Hnd as [Hd Hnd].
  assert (Hdd := Hdeg d (list_elem_of_here _ _)).
  destruct (IH (<[d := N.of_nat (f d)]> deg) (if (N.of_nat (f d) =? 0)%N then btree_insert d ready else ready))
    as (deg' & Hrel & Hdeg'); [done| |].
  { intros v Hv. rewrite list_lookup_insert_ne by (intros ->; done). apply Hdeg. by right. }
  exists deg'. split.
  - cbn [unblock]. rewrite Hdd. unfold usize_dec. rewrite (proj2 (N.eqb_neq _ _)) by lia.
    cbn [outcome_bind]. replace (N.of_nat (S (f d)) - 1)%N with (N.of_nat (f d)) by lia.
    rewrite Hrel, filter_cons. case_decide as Hz; [by rewrite Hz|].
    by rewrite (proj2 (N.eqb_neq _ _)) by lia.
  - intros v. rewrite Hdeg'. destruct (decide (v = d)) as [->|Hvd].
    + rewrite decide_False, decide_True by set_solver. apply list_lookup_insert_eq.
      by apply lookup_lt_Some in Hdd.
    + rewrite list_lookup_insert_ne by done. repeat case_decide; set_solver.
Qed.

Section Run.

Context (n : nat) (edges l : list (nat * nat)) (g : adjacency).
Hypothesis Hr : in_range n edges.
Hypothesis Ha : adjacent n edges l g.

Notation pend := (pending (seq 0 n) (dep edges)).
Notation kinv := (inv (seq 0 n) (dep edges)).

Lemma edges_in u v : dep edges u v -> u ∈ seq 0 n /\ v ∈ seq 0 n.
Proof. by apply dep_range. Qed.

Lemma succ_nexts u nexts : successors g !! u = Some nexts -> NoDup nexts /\ forall v, v ∈ nexts <-> dep edges u v.
Proof.
  rewrite (adj_succ _ _ _ _ Ha), seq_map_lookup. case_decide; [|done]. intros [= <-].
  split; [by eapply out_edges_nodup|]. intros v. by eapply out_edges_elem.
Qed.

(** A diff that waits for nothing. *)
Definition unconstrained (i : nat) : Prop := i < n /\ forall u, ~ dep edges u i.

Record running (ready out : list nat) (deg : list N) (placed : list bool) : Prop := {
  run_kahn : kinv (ready, out);
  run_ready : ascending ready;
  run_deg v : v < n -> deg !! v = Some (N.of_nat (pend out v));
  run_placed : placed = map (fun i => bool_decide (i ∈ out)) (seq 0 n);
  run_first i j : unconstrained i -> i < j -> j ∈ out -> before out i j
}.

Lemma unconstrained_in ready out i : kinv (ready, out) -> unconstrained i -> i ∈ out ++ ready.
Proof.
  intros Hk [Hi Hu]. apply (inv_nodes _ _ _ Hk). split; [apply elem_of_seq; lia|].
  apply pending_0; [exact edges_in|]. intros u Hd. by apply Hu in Hd.
Qed.

Lemma run_step u ready out deg placed nexts deg' :
  running (u :: ready) out deg placed -> successors g !! u = Some nexts ->
  (forall v, deg' !! v = if decide (v ∈ nexts) then Some (N.of_nat (pend (out ++ [u]) v)) else deg !! v) ->
  running (foldl (fun r x => btree_insert x r) ready (filter (fun v => pend (out ++ [u]) v = 0) nexts))
    (out ++ [u]) deg' (<[u := true]> placed).
Proof.
  intros [Hk Hasc Hdeg Hpl Hf] Hn Hdeg'. destruct (succ_nexts _ _ Hn) as [Hnd Hel].
  apply StronglySorted_inv in Hasc as [Hasc Hmin].
  assert (Hu : u ∈ out ++ u :: ready) by set_solver.
  assert (Hun : u ∈ seq 0 n) by (by apply (inv_nodes _ _ _ Hk) in Hu as [? _]).
  assert (Hout : u ∉ out).
  { pose proof (inv_nodup _ _ _ Hk) as Hd. cbn in Hd. apply NoDup_app in Hd as (_ & Hd & _).
    intros Hin. eapply Hd; [done|left]. }
  destruct (ascending_insert_all ready (filter (fun v => pend (out ++ [u]) v = 0) nexts) Hasc) as [Hasc' Hel'].
  assert (Hperm : foldl (fun r x => btree_insert x r) ready (filter (fun v => pend (out ++ [u]) v = 0) nexts)
                  ≡ₚ ready ++ newly (seq 0 n) (dep edges) u (out ++ [u])).
  { apply NoDup_Permutation; [by apply ascending_nodup| |].
    - pose proof (inv_step_nodup _ _ (NoDup_seq 0 n) edges_in _ _ _ Hk) as H. by apply NoDup_app in H as (_ & _ & ?).
    - intros v. rewrite Hel', elem_of_app. unfold newly. rewrite !list_elem_of_filter, Hel.
      pose proof (edges_in u v). tauto. }
  split.
  - apply (step_inv _ _ (NoDup_seq 0 n) edges_in (u :: ready, out)); [|done]. by econstructor.
  - done.
  - intros v Hv. rewrite Hdeg', (Hdeg v Hv).
    rewrite (pending_snoc _ _ (NoDup_seq 0 n) edges_in out u v Hout). pose proof (Hel v).
    repeat case_decide; tauto || done.
  - rewrite Hpl. apply elem_of_seq in Hun. 
    rewrite <- (seq_map_insert (fun i => bool_decide (i ∈ out)) (fun i => bool_decide (i ∈ out ++ [u])) n u); [|lia|].
    + f_equal. symmetry. apply bool_decide_eq_true. set_solver.
    + intros i Hi. apply bool_decide_ext. set_solver.
  - intros i j Hi Hij [Hj|Hj%list_elem_of_singleton]%elem_of_app; [by apply before_app_l, Hf|]. subst j.
    apply before_snoc; [|done].
    pose proof (unconstrained_in _ _ _ Hk Hi) as Hin. apply elem_of_app in Hin as [Hin|[->|Hin]%elem_of_cons]; [done|lia|].
    rewrite Forall_forall in Hmin. apply Hmin in Hin. lia.
Qed.

Lemma running_done out deg placed :
  running [] out deg placed -> running [] out (map (fun v => N.of_nat (pend out v)) (seq 0 n)) placed.
Proof. intros []. split; try done. intros v Hv. by rewrite seq_map_lookup, decide_True. Qed.

Lemma place_spec fuel ready out deg placed :
  running ready out deg placed -> n <= fuel + length out ->
  exists out' placed', place overflow_checks fuel (successors g) deg ready out placed = Returns (out', placed')
    /\ running [] out' (map (fun v => N.of_nat (pend out' v)) (seq 0 n)) placed'.
Proof.
  revert ready out deg placed. induction fuel as [|fuel IH]; intros [|u ready] out deg placed Hrun Hfuel;
    try (exists out, placed; split; [done|by eapply running_done]).
  - apply run_kahn, inv_length in Hrun. cbn in Hrun. rewrite length_seq in Hrun. lia.
  - assert (Hu : u ∈ out ++ u :: ready) by set_solver.
      apply (inv_nodes _ _ _ (run_kahn _ _ _ _ Hrun)) in Hu as [Hu _]. apply elem_of_seq in Hu.
      assert (exists nexts, successors g !! u = Some nexts) as [nexts Hn].
      { rewrite (adj_succ _ _ _ _ Ha), seq_map_lookup, decide_True by lia. eauto. }
      destruct (succ_nexts _ _ Hn) as [Hnd Hel].
      assert (Hout : u ∉ out).
      { pose proof (inv_nodup _ _ _ (run_kahn _ _ _ _ Hrun)) as Hd. cbn in Hd. apply NoDup_app in Hd as (_ & Hd & _).
        intros Hin. eapply Hd; [done|left]. }
      destruct (unblock_spec (pend (out ++ [u])) nexts deg ready Hnd) as (deg' & Hub & Hdeg').
      { intros v Hv. apply Hel in Hv. rewrite (run_deg _ _ _ _ Hrun).
        - rewrite (pending_snoc _ _ (NoDup_seq 0 n) edges_in out u v Hout), decide_True by done. done.
        - apply edges_in in Hv as [_ Hv%elem_of_seq]. lia. }
      cbn [place]. rewrite (run_placed _ _ _ _ Hrun), seq_map_lookup, decide_True, Hn, Hub by lia.
      cbn [outcome_bind fst snd]. rewrite <- (run_placed _ _ _ _ Hrun). apply IH.
      * by eapply run_step.
      * rewrite length_app. cbn. lia.
Qed.

Lemma initial_running :
  running (List.filter (fun i => match in_degree g !! i with Some d => (d =? 0)%N | None => false end) (seq 0 n))
    [] (in_degree g) (replicate n false).
Proof.
  assert (Hd : forall v, v < n -> in_degree g !! v = Some (N.of_nat (pend [] v))).
  { intros v Hv. rewrite (adj_deg _ _ _ _ Ha), seq_map_lookup, decide_True by done. f_equal. by eapply in_count_pending. }
  split.
  - apply initial_inv; [apply NoDup_seq|]. constructor. rewrite filter_bool.
    erewrite filter_ext_elem; [done|]. intros v Hv%elem_of_seq. cbn. rewrite Hd by lia. rewrite N.eqb_eq. lia.
  - apply StronglySorted_filter_bool, seq_ascending.
  - exact Hd.
  - apply list_eq. intros i. rewrite seq_map_lookup. case_decide.
    + rewrite lookup_replicate_2 by done. f_equal.
    + apply lookup_replicate_None. lia.
  - intros i j _ _ Hj. by apply not_elem_of_nil in Hj.
Qed.

Lemma unplaced_spec (out : list nat) : unplaced (map (fun i => bool_decide (i ∈ out)) (seq 0 n)) = filter (fun i => i ∉ out) (seq 0 n).
Proof.
  cut (forall m k, concat (imap (fun i was => if was : bool then [] else [k + i])
                          (map (fun i => bool_decide (i ∈ out)) (seq k m))) = filter (fun i => i ∉ out) (seq k m)).
  { intros Hgen. exact (Hgen n 0). }
  induction m as [|m IH]; intros k; [done|]. cbn [seq map]. rewrite imap_cons, filter_cons. cbn [concat].
  rewrite Nat.add_0_r, <- IH. erewrite (imap_ext _ (fun i was => if was : bool then [] else [S k + i])).
  - case_bool_decide; by case_decide.
  - intros i x _. cbn. by rewrite Nat.add_succ_r.
Qed.

Lemma order_of_edges :
  exists out placed,
    place overflow_checks n (successors g) (in_degree g)
      (List.filter (fun i => match in_degree g !! i with Some d => (d =? 0)%N | None => false end) (seq 0 n))
      [] (replicate n false) = Returns (out, placed)
    /\ out ++ unplaced placed ≡ₚ seq 0 n
    /\ (forall u v, dep edges u v -> cycle_free (dep edges) v -> before (out ++ unplaced placed) u v)
    /\ (forall i j, unconstrained i -> i < j -> before (out ++ unplaced placed) i j).
Proof.
  destruct (place_spec n _ _ _ _ initial_running) as (out & placed & Hp & Hrun); [lia|].
  exists out, placed. split; [done|]. destruct Hrun as [Hk _ _ Hpl Hf]. rewrite Hpl, unplaced_spec. split_and!.
  - by eapply finished_permutation; [apply NoDup_seq| |].
  - intros u v Hd Hc. apply before_app_l. by eapply finished_before; [apply NoDup_seq|exact edges_in|..].
  - intros i j Hi Hij. destruct (decide (j ∈ out)) as [Hj|Hj]; [by apply before_app_l, Hf|].
    eexists out, _. split; [done|]. split; [|done].
    pose proof (unconstrained_in _ _ _ Hk Hi) as Hin. by rewrite app_nil_r in Hin.
Qed.

End Run.
End Loop.

(** ** The edges a list of diffs asks for *)

Lemma positions_elem kind diffs k i :
  (k, i) ∈ omap (fun e => if text_eqb (TableDiff.diff_type e.2) kind then Some (TableDiff.name e.2, e.1) else None)
              (imap pair diffs)
  <-> exists d, diffs !! i = Some d /\ TableDiff.diff_type d = kind /\ TableDiff.name d = k.
Proof.
  rewrite list_elem_of_omap. split.
  - intros ([j d] & Hin & Heq). apply elem_of_lookup_imap in Hin as (j' & d' & [= -> ->] & Hd). cbn in Heq.
    destruct (text_eqb _ _) eqn:Ht; [|done]. apply text_eqb_eq in Ht. injection Heq as <- <-. eauto.
  - intros (d & Hd & Ht & Hk). exists (i, d). split; [apply elem_of_lookup_imap; eauto|]. cbn.
    by rewrite (proj2 (text_eqb_eq _ _) Ht), Hk.
Qed.

Lemma positions_of_Some kind diffs k i :
  positions_of kind diffs !! k = Some i -> exists d, diffs !! i = Some d /\ TableDiff.diff_type d = kind /\ TableDiff.name d = k.
Proof. intros Hp%collect_map_elem. by apply positions_elem. Qed.

Lemma push_reference_elem x names name : x ∈ push_reference names name <-> x ∈ names \/ (x = name /\ name <> []).
Proof.
  unfold push_reference. destruct name as [|c name]; cbn [is_empty negb andb]; [naive_solver|].
  destruct (existsb _ names) eqn:He; cbn [negb].
  - apply text_eqb_elem in He. naive_solver.
  - rewrite elem_of_app, list_elem_of_singleton. naive_solver.
Qed.

(** The diff at position [i] is the last one of its kind with its name: the one its name stands for. *)
Definition last_of_kind (diffs : list TableDiff.t) (kind name : text) (i : nat) : Prop :=
  (exists d, diffs !! i = Some d /\ TableDiff.diff_type d = kind /\ TableDiff.name d = name)
  /\ forall j d, i < j -> diffs !! j = Some d -> TableDiff.diff_type d = kind -> TableDiff.name d <> name.

Lemma positions_of_snoc kind diffs d :
  positions_of kind (diffs ++ [d])
  = if text_eqb (TableDiff.diff_type d) kind then <[TableDiff.name d := length diffs]> (positions_of kind diffs) else positions_of kind diffs.
Proof.
  unfold positions_of. rewrite imap_app, omap_app. cbn [imap omap list_omap]. rewrite Nat.add_0_r. cbn [fst snd].
  destruct (text_eqb _ _); cbn [app]; [by rewrite collect_map_snoc | by rewrite app_nil_r].
Qed.

Lemma positions_of_last kind diffs name i : positions_of kind diffs !! name = Some i <-> last_of_kind diffs kind name i.
Proof.
  induction diffs as [ | d diffs IH] using rev_ind; [split; [done | by intros [(d & Hd & _) _]] | ].
  assert (Hold : forall j d', (diffs ++ [d]) !! j = Some d' <-> diffs !! j = Some d' \/ j = length diffs /\ d = d').
  { intros j d'. rewrite lookup_app_Some, list_lookup_singleton_Some. split.
    - intros [? | (? & ? & <-)]; [by left | right]. split; [lia | done].
    - intros [? | [-> <-]]; [by left | right]. rewrite Nat.sub_diag. done. }
  assert (Hshort : forall j d', diffs !! j = Some d' -> j < length diffs) by (intros j d'; apply lookup_lt_Some).
  assert (Hiff : last_of_kind (diffs ++ [d]) kind name i
                 <-> if decide (TableDiff.diff_type d = kind /\ TableDiff.name d = name) then i = length diffs else last_of_kind diffs kind name i).
  { unfold last_of_kind. setoid_rewrite Hold. case_decide as Hd; [split | split].
    - intros [(d' & [Hd' | [-> _]] & _) Hlast]; [ | done]. apply Hshort in Hd' as Hlt.
      destruct Hd. by destruct (Hlast (length diffs) d); [ | right | | ].
    - intros ->. split; [exists d; tauto | ]. intros j d' Hj [Hd' | [-> _]]; [apply Hshort in Hd'; lia | lia].
    - intros [(d' & [Hd' | [-> <-]] & ?) Hlast]; [ | tauto]. split; [by exists d' | ]. intros j d'' ? ?. apply (Hlast j); auto.
    - intros [(d' & Hd' & ?) Hlast]. split; [exists d'; tauto | ]. intros j d'' Hj [Hd'' | [-> <-]]; [by apply (Hlast j) | tauto]. }
  rewrite Hiff, positions_of_snoc. destruct (text_eqb _ _) eqn:Hkind.
  - apply text_eqb_eq in Hkind. destruct (decide (TableDiff.name d = name)) as [<- | Hname].
    + rewrite lookup_insert_eq, decide_True by done. naive_solver.
    + rewrite lookup_insert_ne, decide_False by tauto. done.
  - rewrite decide_False; [done | ]. intros [Hk _]. by rewrite Hk, text_eqb_refl in Hkind.
Qed.

Section Claims.

Context `{CaseMap} `{SetOrder}.
Variable overflow_checks : bool.

Lemma edges_of_range diffs i d e :
  diffs !! i = Some d ->
  e ∈ edges_of (positions_of %"added" diffs) (positions_of %"removed" diffs) (known_names diffs) i d ->
  e.1 < length diffs /\ e.2 < length diffs.
Proof.
  intros Hi. apply lookup_lt_Some in Hi as Hlt.
  assert (Hpe : forall kind mk name, (forall p, mk p = (p, i) \/ mk p = (i, p)) ->
            e ∈ parent_edge (positions_of kind diffs) mk name -> e.1 < length diffs /\ e.2 < length diffs).
  { intros kind mk name Hmk. unfold parent_edge. destruct (positions_of kind diffs !! name) as [p|] eqn:Hp;
      [|by intros ?%not_elem_of_nil].
    apply positions_of_Some in Hp as (d' & Hp%lookup_lt_Some & _). intros ->%list_elem_of_singleton.
    destruct (Hmk p) as [-> | ->]; done. }
  unfold edges_of. repeat case_match; intros He; apply list_elem_of_bind in He as (x & He & _);
    repeat case_match; try (by apply not_elem_of_nil in He); (eapply Hpe; [|exact He]); cbn; auto.
Qed.

Lemma diff_edges_elem diffs e :
  e ∈ diff_edges diffs <-> exists i d, diffs !! i = Some d /\
    e ∈ edges_of (positions_of %"added" diffs) (positions_of %"removed" diffs) (known_names diffs) i d.
Proof.
  unfold diff_edges. rewrite elem_of_concat. split.
  - intros (l & He & Hl). apply elem_of_lookup_imap in Hl as (i & d & -> & Hd). eauto.
  - intros (i & d & Hd & He). eexists. split; [exact He|]. apply elem_of_lookup_imap. eauto.
Qed.

Lemma diff_edges_range diffs : in_range (length diffs) (diff_edges diffs).
Proof. apply Forall_forall. intros e (i & d & Hd & He)%diff_edges_elem. by eapply edges_of_range. Qed.

(** Without an added or a removed object nothing has to move. *)
Lemma diff_edges_nil diffs :
  positions_of %"added" diffs = ∅ -> positions_of %"removed" diffs = ∅ -> diff_edges diffs = [].
Proof.
  intros Ha Hr. destruct (diff_edges diffs) as [|e l] eqn:He; [done|exfalso].
  assert (Hin : e ∈ diff_edges diffs) by (rewrite He; left). apply diff_edges_elem in Hin as (i & d & _ & Hin).
  rewrite Ha, Hr in Hin. unfold edges_of, parent_edge in Hin.
  repeat case_match; apply list_elem_of_bind in Hin as (x & Hx & _); repeat case_match; simplify_map_eq;
    by apply not_elem_of_nil in Hx.
Qed.

Lemma fetch_returns diffs ps :
  Forall (fun i => i < length diffs) ps -> fetch diffs ps = Returns (omap (diffs !!.) ps).
Proof.
  induction 1 as [|i ps Hi _ IH]; [done|]. cbn. apply lookup_lt_is_Some in Hi as [d Hd]. by rewrite Hd, IH.
Qed.

Lemma execution_order_spec diffs :
  exists ps, execution_order overflow_checks diffs = Returns ps /\ ps ≡ₚ seq 0 (length diffs)
    /\ (forall u v, dep (diff_edges diffs) u v -> cycle_free (dep (diff_edges diffs)) v -> before ps u v)
    /\ (forall i j, i < j -> j < length diffs -> (forall u, ~ dep (diff_edges diffs) u i) -> before ps i j).
Proof.
  unfold execution_order. destruct (_ && _) eqn:Hnone.
  - apply andb_true_iff in Hnone as [Ha%bool_decide_eq_true Hr%bool_decide_eq_true].
    rewrite diff_edges_nil by done. eexists. split; [done|]. split; [done|]. split.
    + intros u v [Hin _]. by apply not_elem_of_nil in Hin.
    + intros i j Hij Hj _. exists (seq 0 j), (seq j (length diffs - j)).
      replace (length diffs) with (j + (length diffs - j)) at 1 by lia. rewrite seq_app, !elem_of_seq.
      split; [done|]. lia.
  - destruct (adjacency_of_spec _ _ (diff_edges_range diffs)) as (g & l & Hg & Ha). rewrite Hg.
    destruct (order_of_edges overflow_checks _ _ _ _ (diff_edges_range diffs) Ha) as (out & placed & Hp & Hperm & Hb & Hf).
    cbn [outcome_bind]. rewrite Hp. eexists. split; [done|]. split; [done|]. split; [done|].
    intros i j Hij Hj Hu. apply Hf; [|done]. split; [lia|done].
Qed.

(** ** What a script must respect *)

(** A definition names a table: its upper-case text has the name after one of the words, or before a dot. *)
Definition Mentions (ddl name : text) : Prop :=
  let sql := to_uppercase (List.filter (fun c => negb (is_identifier_quote c)) ddl) in
  let name := to_uppercase name in
  (exists word, word ∈ [%" FROM "; %" JOIN "; %" INTO "; %" TABLE "; %" REFERENCES "; %" UPDATE "; %"DELETE FROM "]
    /\ contains (word ++ name) sql = true)
  \/ contains (%"FROM " ++ name ++ %" (") sql = true \/ contains (%" " ++ name ++ %".") sql = true.

(** A diff refers to an object: by a foreign key, of the definition that the script creates or drops, or by the text of a view. *)
Inductive Refers (diffs : list TableDiff.t) (d : TableDiff.t) (name : text) : Prop :=
| refers_dropped_key fk info :
    TableDiff.diff_type d = %"removed" -> fk ∈ diff_foreign_keys d ->
    ObjectDiff.target fk = Some info \/ ObjectDiff.target fk = None /\ ObjectDiff.source fk = Some info ->
    name = ref_table info -> name <> [] -> Refers diffs d name
| refers_created_key fk info :
    TableDiff.diff_type d <> %"removed" -> fk ∈ diff_foreign_keys d ->
    ObjectDiff.source fk = Some info \/ ObjectDiff.source fk = None /\ ObjectDiff.target fk = Some info ->
    name = ref_table info -> name <> [] -> Refers diffs d name
| refers_view ddl :
    TableDiff.object_type d = Some %"view" ->
    TableDiff.ddl d = Some ddl \/ TableDiff.ddl d = None /\ TableDiff.target_ddl d = Some ddl ->
    name ∈ map TableDiff.name diffs -> Mentions ddl name -> name <> [] -> Refers diffs d name.

(** The diff at [v] has to wait for the one at [u]: an object is created after the ones it refers to and dropped before
    them; a foreign key is added to a table after its parent is created and removed before its parent is dropped. *)
Inductive Waits (diffs : list TableDiff.t) : nat -> nat -> Prop :=
| waits_create i p d name :
    diffs !! i = Some d -> TableDiff.diff_type d = %"added" -> Refers diffs d name -> last_of_kind diffs %"added" name p -> p <> i ->
    Waits diffs p i
| waits_drop i p d name :
    diffs !! i = Some d -> TableDiff.diff_type d = %"removed" -> Refers diffs d name -> last_of_kind diffs %"removed" name p -> p <> i ->
    Waits diffs i p
| waits_add_key i p d fk info :
    diffs !! i = Some d -> TableDiff.diff_type d <> %"added" -> TableDiff.diff_type d <> %"removed" ->
    fk ∈ diff_foreign_keys d -> ObjectDiff.diff_type fk = %"added" ->
    ObjectDiff.source fk = Some info \/ ObjectDiff.source fk = None /\ ObjectDiff.target fk = Some info ->
    last_of_kind diffs %"added" (ref_table info) p -> p <> i -> Waits diffs p i
| waits_drop_key i p d fk info :
    diffs !! i = Some d -> TableDiff.diff_type d <> %"added" -> TableDiff.diff_type d <> %"removed" ->
    fk ∈ diff_foreign_keys d -> ObjectDiff.diff_type fk = %"removed" ->
    ObjectDiff.source fk = Some info \/ ObjectDiff.source fk = None /\ ObjectDiff.target fk = Some info ->
    last_of_kind diffs %"removed" (ref_table info) p -> p <> i -> Waits diffs i p.

Lemma not_text_eqb a b : a <> b -> text_eqb a b = false.
Proof. rewrite <- text_eqb_eq. by destruct (text_eqb a b). Qed.

Lemma first_of {A} (a b : option A) x :
  match a with Some x => Some x | None => b end = Some x <-> a = Some x \/ a = None /\ b = Some x.
Proof. destruct a; naive_solver. Qed.

Lemma extract_mentions ddl name known :
  name ∈ extract_ddl_references (List.filter (fun c => negb (is_identifier_quote c)) ddl) known <-> name ∈ known /\ Mentions ddl name.
Proof.
  unfold extract_ddl_references. rewrite list_filter_elem. apply and_iff_compat_l. unfold Mentions, reference_patterns. cbn zeta.
  rewrite <- Exists_exists, !Exists_cons, Exists_nil. cbn [existsb]. rewrite orb_false_r, !orb_true_iff. tauto.
Qed.

Lemma foldl_references l names x : x ∈ foldl push_reference names l <-> x ∈ names \/ (x ∈ l /\ x <> []).
Proof.
  revert names. induction l as [ | k l IH]; intros names; cbn [foldl]; [set_solver | ].
  rewrite IH, push_reference_elem. set_unfold. naive_solver.
Qed.

Lemma foldl_key_references kind fks names x :
  x ∈ foldl (fun names fk => match owning_side kind fk with Some info => push_reference names (ref_table info) | None => names end) names fks
  <-> x ∈ names \/ exists fk info, fk ∈ fks /\ owning_side kind fk = Some info /\ x = ref_table info /\ x <> [].
Proof.
  revert names. induction fks as [ | fk fks IH]; intros names; cbn [foldl]; [set_solver | ].
  rewrite IH. destruct (owning_side kind fk) eqn:Hown; rewrite ?push_reference_elem; set_unfold; naive_solver.
Qed.

(** The names the code collects are those the diff refers to. *)
Lemma referenced_iff diffs d name : name ∈ diff_referenced_objects d (known_names diffs) <-> Refers diffs d name.
Proof.
  assert (Hkeys : (exists fk info, fk ∈ diff_foreign_keys d /\ owning_side (TableDiff.diff_type d) fk = Some info /\ name = ref_table info /\ name <> [])
                  -> Refers diffs d name).
  { intros (fk & info & Hfk & Hown & Hname & Hne). unfold owning_side in Hown. destruct (text_eqb _ _) eqn:Hkind.
    - apply text_eqb_eq in Hkind. apply first_of in Hown. by eapply refers_dropped_key.
    - apply first_of in Hown. eapply refers_created_key; [ | done..]. intros Hk. by rewrite Hk in Hkind. }
  assert (Hview : forall ddl,
    name ∈ extract_ddl_references (List.filter (fun c => negb (is_identifier_quote c)) ddl) (iter_set 3 (known_names diffs))
    <-> name ∈ map TableDiff.name diffs /\ Mentions ddl name).
  { intros ddl. rewrite extract_mentions, iter_set_elem. unfold known_names. by rewrite elem_of_list_to_set. }
  unfold diff_referenced_objects. set (names := foldl _ [] _).
  assert (Hnames : name ∈ names <-> exists fk info,
    fk ∈ diff_foreign_keys d /\ owning_side (TableDiff.diff_type d) fk = Some info /\ name = ref_table info /\ name <> []).
  { unfold names. rewrite foldl_key_references. set_solver. }
  split.
  - case_bool_decide as Ht; [ | by rewrite Hnames].
    destruct (match TableDiff.ddl d with Some _ => _ | None => _ end) as [ddl | ] eqn:Hddl; [ | by rewrite Hnames].
    rewrite foldl_references, Hnames, Hview. intros [? | [[Hknown Hm] Hne]]; [auto | ].
    apply first_of in Hddl. by eapply refers_view.
  - intros Hrefers. assert (Hin : name ∈ names \/ exists ddl,
      TableDiff.object_type d = Some %"view" /\ match TableDiff.ddl d with Some ddl => Some ddl | None => TableDiff.target_ddl d end = Some ddl
      /\ name ∈ map TableDiff.name diffs /\ Mentions ddl name /\ name <> []).
    { rewrite Hnames. destruct Hrefers as [fk info Hk ? Hown%first_of | fk info Hk ? Hown%first_of | ddl ? Hddl%first_of]; [left | left | eauto 10];
        exists fk, info; (split_and!; [done | | done | done]); unfold owning_side.
      - by rewrite Hk, text_eqb_refl.
      - destruct (text_eqb _ _) eqn:Hkind; [ | done]. by apply text_eqb_eq in Hkind. }
    destruct Hin as [Hin | (ddl & Ht & Hddl & Hknown & Hm & Hne)].
    + case_bool_decide; [ | done]. destruct (match TableDiff.ddl d with Some _ => _ | None => _ end); [ | done]. apply foldl_references. by left.
    + rewrite bool_decide_true, Hddl by done. apply foldl_references. right. split; [ | done]. by apply Hview.
Qed.

Lemma parent_edge_elem kind diffs mk name e :
  e ∈ parent_edge (positions_of kind diffs) mk name <-> exists p, last_of_kind diffs kind name p /\ e = mk p.
Proof.
  setoid_rewrite <- positions_of_last. unfold parent_edge. destruct (positions_of kind diffs !! name); set_solver.
Qed.

(** The edges of the code are the waits. *)
Lemma dep_waits diffs u v : dep (diff_edges diffs) u v <-> Waits diffs u v.
Proof.
  unfold dep. rewrite diff_edges_elem. split.
  - intros [(i & d & Hi & He) Huv]. unfold edges_of in He.
    destruct (text_eqb (TableDiff.diff_type d) %"added") eqn:Ha; [ | destruct (text_eqb (TableDiff.diff_type d) %"removed") eqn:Hr].
    + apply text_eqb_eq in Ha. apply list_elem_of_bind in He as (name & (p & Hp & [= -> ->])%parent_edge_elem & Hname%referenced_iff).
      by eapply waits_create.
    + apply text_eqb_eq in Hr. apply list_elem_of_bind in He as (name & (p & Hp & [= -> ->])%parent_edge_elem & Hname%referenced_iff).
      eapply waits_drop; eauto.
    + apply list_elem_of_bind in He as (fk & He & Hfk).
      assert (TableDiff.diff_type d <> %"added") as Hna by (intros Hk; by rewrite Hk in Ha).
      assert (TableDiff.diff_type d <> %"removed") as Hnr by (intros Hk; by rewrite Hk in Hr).
      destruct (match ObjectDiff.source fk with Some _ => _ | None => _ end) as [info | ] eqn:Hinfo; [ | by apply not_elem_of_nil in He].
      apply first_of in Hinfo.
      destruct (text_eqb (ObjectDiff.diff_type fk) %"added") eqn:Hfa; [ | destruct (text_eqb (ObjectDiff.diff_type fk) %"removed") eqn:Hfr].
      * apply text_eqb_eq in Hfa. apply parent_edge_elem in He as (p & Hp & [= -> ->]). by eapply waits_add_key.
      * apply text_eqb_eq in Hfr. apply parent_edge_elem in He as (p & Hp & [= -> ->]). eapply waits_drop_key; eauto.
      * by apply not_elem_of_nil in He.
  - intros Hw. assert (Hne : u <> v) by (destruct Hw; congruence). split; [ | done].
    destruct Hw as [i p d name Hi Hk Hname%referenced_iff Hp _ | i p d name Hi Hk Hname%referenced_iff Hp _
                   | i p d fk info Hi Hna Hnr Hfk Hk Hinfo%first_of Hp _ | i p d fk info Hi Hna Hnr Hfk Hk Hinfo%first_of Hp _];
      exists i, d; (split; [done | ]); unfold edges_of.
    + rewrite Hk. cbn -[diff_referenced_objects]. apply list_elem_of_bind. exists name. rewrite parent_edge_elem. eauto.
    + rewrite Hk. cbn -[diff_referenced_objects]. apply list_elem_of_bind. exists name. rewrite parent_edge_elem. eauto.
    + rewrite (not_text_eqb _ _ Hna), (not_text_eqb _ _ Hnr). apply list_elem_of_bind. exists fk. split; [ | done].
      rewrite Hinfo, Hk. cbn. apply parent_edge_elem. eauto.
    + rewrite (not_text_eqb _ _ Hna), (not_text_eqb _ _ Hnr). apply list_elem_of_bind. exists fk. split; [ | done].
      rewrite Hinfo, Hk. cbn. apply parent_edge_elem. eauto.
Qed.

Lemma cycle_free_waits diffs v : cycle_free (dep (diff_edges diffs)) v <-> cycle_free (Waits diffs) v.
Proof.
  unfold cycle_free. split; intros Hfree w Hrtc Htc; apply (Hfree w);
    first [apply (rtc_subrel _ _ _ _ (fun a b => proj1 (dep_waits diffs a b)) Hrtc) | apply (rtc_subrel _ _ _ _ (fun a b => proj2 (dep_waits diffs a b)) Hrtc)
          | apply (tc_congruence id _ _ _ (fun a b => proj1 (dep_waits diffs a b)) Htc) | apply (tc_congruence id _ _ _ (fun a b => proj2 (dep_waits diffs a b)) Htc)].
Qed.

(** C26: [order_diffs_for_execution] returns for every list of diffs; the script it orders is a permutation of the diffs.
    A diff runs after every diff it waits for ([Waits]: an object is created after the ones its foreign keys or, for a view,
    its text refer to, and dropped before them; a foreign key is added after its parent is created and removed before its
    parent is dropped), unless the waiting diff is on a cycle of waits or is reached from one.  A diff that waits for
    nothing is not overtaken by a later one. *)
Theorem script_runs_in_dependency_order diffs :
  exists ps, execution_order overflow_checks diffs = Returns ps
    /\ order_diffs_for_execution overflow_checks diffs = Returns (omap (diffs !!.) ps)
    /\ ps ≡ₚ seq 0 (length diffs) /\ omap (diffs !!.) ps ≡ₚ diffs
    /\ (forall u v, Waits diffs u v -> cycle_free (Waits diffs) v -> before ps u v)
    /\ (forall i j, i < j -> j < length diffs -> (forall u, ~ Waits diffs u i) -> before ps i j).
Proof.
  destruct (execution_order_spec diffs) as (ps & Ho & Hp & Hb & Hf). exists ps. split_and!; [done | | done | | | ].
  - unfold order_diffs_for_execution. rewrite Ho. cbn [outcome_bind]. apply fetch_returns.
    apply Forall_forall. intros i Hi. rewrite Hp in Hi. apply elem_of_seq in Hi. lia.
  - rewrite Hp at 1. by rewrite omap_lookup_seq.
  - intros u v Hw Hfree. apply Hb; [by apply dep_waits | by apply cycle_free_waits].
  - intros i j Hij Hj Hnone. apply Hf; [done | done | ]. intros u Hd. apply (Hnone u). by apply dep_waits.
Qed.

End Claims.

(** ** Examples *)

Section Examples.

#[local] Instance order_case : CaseMap := {| nonascii_upper c := [c]; nonascii_lower _ c _ := [c] |}.
#[local] Instance order_sets : SetOrder := {| iter_set _ := elements; iter_set_permutation _ _ := reflexivity _ |}.

Definition fk_info (ref : text) : SchemaForeignKeyInfo.t :=
  SchemaForeignKeyInfo.mk (ForeignKeyInfo.mk %"fk" %"ref_id" None ref %"id" None None) [].

Definition fk_added (ref : text) : ForeignKeyDiff := ObjectDiff.mk %"added" %"fk" (Some (fk_info ref)) None [].

Definition table_added (name : text) (fks : list ForeignKeyDiff) : TableDiff.t :=
  TableDiff.mk %"added" (Some %"table") name None None None (Some fks) None None None None None None.

Definition fk_removed (ref : text) : ForeignKeyDiff := ObjectDiff.mk %"removed" %"fk" None (Some (fk_info ref)) [].

Definition table_removed (name : text) (fks : list ForeignKeyDiff) : TableDiff.t :=
  TableDiff.mk %"removed" (Some %"table") name None None None (Some fks) None None None None None None.

(** The child comes first in the comparison, its parent and an unrelated table later. *)
Definition new_shop : list TableDiff.t :=
  [table_added %"orders" [fk_added %"users"]; table_added %"tags" []; table_added %"users" []].

Example new_shop_edges : diff_edges new_shop = [(2, 0)].
Proof. vm_compute. reflexivity. Qed.

Example new_shop_order : execution_order true new_shop = Returns [1; 2; 0].
Proof. vm_compute. reflexivity. Qed.

(** The parent comes first in the comparison; its child has to be dropped before it. *)
Definition old_shop : list TableDiff.t :=
  [table_removed %"users" []; table_removed %"orders" [fk_removed %"users"]].

Example old_shop_edges : diff_edges old_shop = [(1, 0)].
Proof. vm_compute. reflexivity. Qed.

Lemma one_edge_cycle_free diffs u v : diff_edges diffs = [(u, v)] -> u <> v -> cycle_free (Waits diffs) v.
Proof.
  intros Hedges Huv. apply cycle_free_rank with (rank := fun i => if i =? u then 0 else 1).
  intros a b [Hin _]%dep_waits. rewrite Hedges in Hin. apply list_elem_of_singleton in Hin as [= -> ->].
  rewrite Nat.eqb_refl, (proj2 (Nat.eqb_neq v u)) by congruence. lia.
Qed.

Lemma orders_wait : Waits new_shop 2 0.
Proof.
  apply (waits_create new_shop 0 2 (table_added %"orders" [fk_added %"users"]) %"users"); [done | done | | | done].
  - apply (refers_created_key _ _ _ (fk_added %"users") (fk_info %"users")); [done | left | by left | done | done].
  - split; [by eexists | ]. intros [ | [ | [ | j]]] d Hj Hd; [lia | lia | lia | done].
Qed.

Lemma old_users_wait : Waits old_shop 1 0.
Proof.
  apply (waits_drop old_shop 1 0 (table_removed %"orders" [fk_removed %"users"]) %"users"); [done | done | | | done].
  - apply (refers_dropped_key _ _ _ (fk_removed %"users") (fk_info %"users")); [done | left | by left | done | done].
  - split; [by eexists | ]. intros [ | [ | j]] d Hj Hd; [lia | by injection Hd as <- | done].
Qed.

Lemma script_order_witness :
  (exists ps, execution_order true new_shop = Returns ps
     /\ order_diffs_for_execution true new_shop = Returns (omap (new_shop !!.) ps) /\ before ps 2 0)
  /\ exists ps, execution_order true old_shop = Returns ps
     /\ order_diffs_for_execution true old_shop = Returns (omap (old_shop !!.) ps) /\ before ps 1 0.
Proof.
  split.
  - destruct (script_runs_in_dependency_order true new_shop) as (ps & Ho & Hd & _ & _ & Hb & _).
    exists ps. split; [exact Ho | ]. split; [exact Hd | ]. apply Hb; [apply orders_wait | by eapply one_edge_cycle_free; [apply new_shop_edges | ]].
  - destruct (script_runs_in_dependency_order true old_shop) as (ps & Ho & Hd & _ & _ & Hb & _).
    exists ps. split; [exact Ho | ]. split; [exact Hd | ]. apply Hb; [apply old_users_wait | by eapply one_edge_cycle_free; [apply old_shop_edges | ]].
Defined.

(** The exception of the order is more than the diffs on a cycle: [d] refers to [c] and [c] to [b], which is on a cycle with
    [a]; [d] is created before [c], though neither is on the cycle. *)
Example reached_from_a_cycle :
  execution_order true [table_added %"d" [fk_added %"c"]; table_added %"c" [fk_added %"b"]; table_added %"b" [fk_added %"a"];
                        table_added %"a" [fk_added %"b"]] = Returns [0; 1; 2; 3].
Proof. vm_compute. reflexivity. Qed.

End Examples.
