(* ===== verification/SchemaNames.v ===== *)
(** * SchemaNames: which objects of two schemas are compared with each other
      ([schema_diff.rs], [resolve_schema_diff_table_names], [resolve_column_matches],
      [diff_names]).

    Tables are paired by the user's mappings first, then by equal names, then, when
    asked for, by names that differ in ASCII case only and are unambiguous; columns
    by equal names and then by case. *)

From stdpp Require Import gmap.
From Stdlib Require Import Sorted.
From S2P Require Import Prelude DbTypes WriteClass WriteUnlock SchemaTypes Kahn SchemaGraph SchemaGraphTheorems DiffOrder.

Definition identifiers_equal (left right : text) (ignore_case : bool) : bool :=
  if ignore_case then eq_ignore_ascii_case left right else text_eqb left right.

(** ** Tables *)

Record SchemaDiffTableNameResolution : Set := mk_resolution {
  pairs : list (text * text); source_only : list text; target_only : list text
}.

(** [resolved_targets_by_source] and [used_targets]. *)
Record matching : Set := mk_matching { resolved : gmap text text; used : gset text }.

Definition assign (m : matching) (source_name target_name : text) : matching :=
  mk_matching (<[source_name := target_name]> (resolved m)) ({[target_name]} ∪ used m).

(** [explicit_by_source]: the first mapping of a source with two names stays. *)
Definition explicit_by_source (mappings : list SchemaDiffTableMapping.t) : gmap text text :=
  foldl (fun m mapping =>
           let s := SchemaDiffTableMapping.source_table mapping in
           let t := SchemaDiffTableMapping.target_table mapping in
           if negb (is_empty s) && negb (is_empty t) then
             match m !! s with Some _ => m | None => <[s := t]> m end
           else m) ∅ mappings.

Definition explicit_step (explicit : gmap text text) (target_set : gset text) (m : matching) (source_name : text) : matching :=
  match explicit !! source_name with
  | None => m
  | Some target_name =>
      if bool_decide (target_name ∈ target_set) && negb (bool_decide (target_name ∈ used m))
      then assign m source_name target_name else m
  end.

Definition is_resolved (m : matching) (source_name : text) : bool := bool_decide (is_Some (resolved m !! source_name)).

Definition exact_step (target_set : gset text) (m : matching) (source_name : text) : matching :=
  if is_resolved m source_name then m
  else if bool_decide (source_name ∈ target_set) && negb (bool_decide (source_name ∈ used m))
  then assign m source_name source_name else m.

Definition case_step (target_names : list text) (m : matching) (source_name : text) : matching :=
  if is_resolved m source_name then m
  else
    match sole (List.filter (fun t => negb (bool_decide (t ∈ used m)) && identifiers_equal source_name t true) target_names) with
    | Some target_name => assign m source_name target_name
    | None => m
    end.

Definition resolve_matching (source_names target_names : list text) (mappings : list SchemaDiffTableMapping.t)
    (ignore_table_name_case : bool) : matching :=
  let target_set : gset text := list_to_set target_names in
  let m := foldl (explicit_step (explicit_by_source mappings) target_set) (mk_matching ∅ ∅) source_names in
  let m := foldl (exact_step target_set) m source_names in
  if ignore_table_name_case then foldl (case_step target_names) m source_names else m.

Definition resolve_schema_diff_table_names (source_names target_names : list text) (mappings : list SchemaDiffTableMapping.t)
    (ignore_table_name_case : bool) : SchemaDiffTableNameResolution :=
  let m := resolve_matching source_names target_names mappings ignore_table_name_case in
  mk_resolution
    (omap (fun s => pair s <$> resolved m !! s) source_names)
    (List.filter (fun s => negb (is_resolved m s)) source_names)
    (List.filter (fun t => negb (bool_decide (t ∈ used m))) target_names).

(** ** Columns *)

(** [matches] and [used_targets]. *)
Record column_matching : Set := mk_columns { matches : list (option nat); used_targets : list nat }.

Definition is_used (m : column_matching) (target_index : nat) : bool := bool_decide (target_index ∈ used_targets m).

Definition match_column (m : column_matching) (source_index target_index : nat) : column_matching :=
  mk_columns (<[source_index := Some target_index]> (matches m)) (target_index :: used_targets m).

(** The positions of [target] that pass the test, in order. *)
Definition positions (test : nat -> ColumnInfo.t -> bool) (target : list ColumnInfo.t) : list nat :=
  List.filter (fun i => match target !! i with Some t => test i t | None => false end) (seq 0 (length target)).

Definition exact_column (target : list ColumnInfo.t) (m : column_matching) (source : nat * ColumnInfo.t) : column_matching :=
  match positions (fun i t => text_eqb (ColumnInfo.name t) (ColumnInfo.name source.2) && negb (is_used m i)) target with
  | target_index :: _ => match_column m source.1 target_index
  | [] => m
  end.

Definition case_column (target : list ColumnInfo.t) (m : column_matching) (source : nat * ColumnInfo.t) : column_matching :=
  match matches m !! source.1 with
  | Some (Some _) => m
  | _ =>
      match sole (positions (fun i t => negb (is_used m i) && eq_ignore_ascii_case (ColumnInfo.name t) (ColumnInfo.name source.2)) target) with
      | Some target_index => match_column m source.1 target_index
      | None => m
      end
  end.

Definition resolve_column_matches (source target : list ColumnInfo.t) (ignore_column_name_case : bool) : list (option nat) :=
  let m := foldl (exact_column target) (mk_columns (replicate (length source) None) []) (imap pair source) in
  matches (if ignore_column_name_case then foldl (case_column target) m (imap pair source) else m).

(** ** Names *)

Definition diff_names (source target : list text) : list text * list text * list text :=
  let source_set : gset text := list_to_set source in
  let target_set : gset text := list_to_set target in
  (List.filter (fun name => negb (bool_decide (name ∈ target_set))) source,
   List.filter (fun name => negb (bool_decide (name ∈ source_set))) target,
   List.filter (fun name => bool_decide (name ∈ target_set)) source).

(** * the pairing of tables and columns is a matching. *)

Lemma foldl_invariant {A B} (P : B -> Prop) (f : B -> A -> B) l b :
  (forall b x, x ∈ l -> P b -> P (f b x)) -> P b -> P (foldl f b l).
Proof.
  revert b. induction l as [|x l IH]; intros b Hstep Hb; [done|]. cbn. apply IH.
  - intros b' y Hy. apply Hstep. by right.
  - apply Hstep; [left|done].
Qed.

(** What a step over [x] establishes and every step keeps holds for all of [l]. *)
Lemma foldl_establishes {A B} (I : B -> Prop) (Q : A -> B -> Prop) (f : B -> A -> B) l b :
  (forall b x, x ∈ l -> I b -> I (f b x) /\ Q x (f b x) /\ forall y, Q y b -> Q y (f b x)) ->
  I b -> forall x, x ∈ l -> Q x (foldl f b l).
Proof.
  intros Hstep Hb.
  cut (I (foldl f b l) /\ (forall x, x ∈ l -> Q x (foldl f b l)) /\ forall y, Q y b -> Q y (foldl f b l)); [by intros (_ & ? & _)|].
  revert b Hb. induction l as [|x l IH]; intros b Hb; [split; [done|]; split; [by intros ? ?%not_elem_of_nil|done]|].
  destruct (Hstep b x (list_elem_of_here _ _) Hb) as (HI & HQ & Hk). cbn.
  destruct (IH (fun b y Hy => Hstep b y (list_elem_of_further _ _ _ Hy)) _ HI) as (HI' & HQ' & Hk').
  split; [done|]. split; [|auto]. intros y [->|Hy]%elem_of_cons; auto.
Qed.

(** ** Tables *)

Section Tables.

Context (sources targets : list text) (explicit : gmap text text) (ignore_case : bool).

Definition justified (s t : text) : Prop :=
  explicit !! s = Some t \/ s = t \/ (ignore_case = true /\ eq_ignore_ascii_case s t = true).

Record good (m : matching) : Prop := {
  good_used t : t ∈ used m <-> exists s, resolved m !! s = Some t;
  good_inj s s' t : resolved m !! s = Some t -> resolved m !! s' = Some t -> s = s';
  good_pair s t : resolved m !! s = Some t -> s ∈ sources /\ t ∈ targets /\ justified s t
}.

Lemma good_empty : good (mk_matching ∅ ∅).
Proof. split; cbn; set_solver. Qed.

Lemma assign_good m s t :
  good m -> resolved m !! s = None -> t ∉ used m -> s ∈ sources -> t ∈ targets -> justified s t -> good (assign m s t).
Proof.
  intros [Hu Hi Hp] Hs Ht Hss Htt Hj. split; cbn.
  - intros t'. rewrite elem_of_union, elem_of_singleton, Hu. split.
    + intros [->|[s' Hs']]; [exists s; apply lookup_insert_eq|]. exists s'. rewrite lookup_insert_ne; [done|congruence].
    + intros [s' Hs']. destruct (decide (s' = s)) as [->|Hne].
      * rewrite lookup_insert_eq in Hs'. left. congruence.
      * rewrite lookup_insert_ne in Hs' by done. eauto.
  - intros s1 s2 t' H1 H2.
    assert (Hno : forall s', s' <> s -> <[s:=t]> (resolved m) !! s' = Some t -> False).
    { intros s' Hne. rewrite lookup_insert_ne by done. intros Hl. apply Ht, Hu. eauto. }
    destruct (decide (s1 = s)) as [->|H1s]; destruct (decide (s2 = s)) as [->|H2s]; try done.
    + rewrite lookup_insert_eq in H1. injection H1 as <-. by apply Hno in H2.
    + rewrite lookup_insert_eq in H2. injection H2 as <-. by apply Hno in H1.
    + rewrite lookup_insert_ne in H1, H2 by done. eauto.
  - intros s' t'. destruct (decide (s' = s)) as [->|Hne].
    + rewrite lookup_insert_eq. intros [= <-]. done.
    + rewrite lookup_insert_ne by done. apply Hp.
Qed.

Lemma assign_extends m s t : resolved m !! s = None -> resolved m ⊆ resolved (assign m s t).
Proof. intros Hs. cbn. by apply insert_subseteq. Qed.

(** The first pass works inside the explicit mappings. *)
Definition explicit_only (m : matching) : Prop := forall s t, resolved m !! s = Some t -> explicit !! s = Some t.

Lemma explicit_step_good m s :
  s ∈ sources -> good m /\ explicit_only m ->
  let m' := explicit_step explicit (list_to_set targets) m s in
  (good m' /\ explicit_only m') /\ (forall t, explicit !! s = Some t -> t ∈ targets -> t ∈ used m')
  /\ used m ⊆ used m'.
Proof.
  intros Hs [Hg He]. cbn. unfold explicit_step. destruct (explicit !! s) as [t|] eqn:Ht; [|done].
  case_bool_decide as Hin; cbn [andb].
  - rewrite elem_of_list_to_set in Hin. case_bool_decide as Hu; cbn [negb]; [naive_solver|].
    assert (Hnone : resolved m !! s = None).
    { destruct (resolved m !! s) as [t'|] eqn:Hr; [exfalso|done]. apply He in Hr as Hr'. rewrite Ht in Hr'.
      injection Hr' as <-. apply Hu, (good_used _ Hg). eauto. }
    split; [split|split].
    + apply assign_good; try done. by left.
    + intros s' t'. cbn. destruct (decide (s' = s)) as [->|]; [rewrite lookup_insert_eq; congruence|].
      rewrite lookup_insert_ne by done. apply He.
    + intros t' [= <-] _. cbn. set_solver.
    + cbn. set_solver.
  - split; [done|]. split; [|done]. intros t' [= <-] Ht'. by rewrite elem_of_list_to_set in Hin.
Qed.

Lemma exact_step_good m s :
  s ∈ sources -> good m ->
  let m' := exact_step (list_to_set targets) m s in
  good m' /\ resolved m ⊆ resolved m' /\ (resolved m' !! s = None -> s ∈ targets -> s ∈ used m').
Proof.
  intros Hs Hg. cbn. unfold exact_step, is_resolved. case_bool_decide as Hr.
  - split; [done|]. split; [done|]. intros Hn. rewrite Hn in Hr. by destruct Hr.
  - assert (Hnone : resolved m !! s = None) by (by apply eq_None_not_Some).
    case_bool_decide as Hin; cbn [andb].
    + rewrite elem_of_list_to_set in Hin. case_bool_decide as Hu; cbn [negb]; [done|].
      split; [|split; [by apply assign_extends|]].
      * apply assign_good; try done. by right; left.
      * cbn. by rewrite lookup_insert_eq.
    + split; [done|]. split; [done|]. intros _ Ht. by rewrite elem_of_list_to_set in Hin.
Qed.

Lemma case_step_good m s :
  ignore_case = true -> s ∈ sources -> good m -> good (case_step targets m s) /\ resolved m ⊆ resolved (case_step targets m s).
Proof.
  intros Hic Hs Hg. unfold case_step, is_resolved. case_bool_decide as Hr; [done|].
  assert (Hnone : resolved m !! s = None) by (by apply eq_None_not_Some).
  destruct (sole _) as [t|] eqn:Ht; [|done].
  apply sole_elem, list_filter_elem in Ht as [Htt [Hu He]%andb_true_iff].
  apply negb_true_iff, bool_decide_eq_false in Hu. split; [|by apply assign_extends].
  apply assign_good; try done. right; right. done.
Qed.

End Tables.

Lemma filter_none {A} (p : A -> bool) (l : list A) : (forall x, x ∈ l -> p x = false) -> List.filter p l = [].
Proof.
  induction l as [|x l IH]; intros Hp; [done|]. cbn. rewrite Hp by left. apply IH. intros y Hy. apply Hp. by right.
Qed.

Section Matching.

Context (sources targets : list text) (mappings : list SchemaDiffTableMapping.t) (ignore_case : bool).

Notation explicit := (explicit_by_source mappings).
Notation target_set := (list_to_set targets : gset text).
Notation final := (resolve_matching sources targets mappings ignore_case).

Definition after_explicit : matching := foldl (explicit_step explicit target_set) (mk_matching ∅ ∅) sources.
Definition after_exact : matching := foldl (exact_step target_set) after_explicit sources.

Lemma after_explicit_good : good sources targets explicit ignore_case after_explicit /\ explicit_only explicit after_explicit.
Proof.
  apply (foldl_invariant (fun m => good sources targets explicit ignore_case m /\ explicit_only explicit m)).
  - intros m s Hs Hm. by apply explicit_step_good.
  - split; [apply good_empty|]. intros s t. cbn. by rewrite lookup_empty.
Qed.

Lemma after_explicit_used s t : s ∈ sources -> explicit !! s = Some t -> t ∈ targets -> t ∈ used after_explicit.
Proof.
  intros Hs. revert t. 
  apply (foldl_establishes (fun m => good sources targets explicit ignore_case m /\ explicit_only explicit m)
           (fun s m => forall t, explicit !! s = Some t -> t ∈ targets -> t ∈ used m)); [| |done].
  - intros m x Hx Hm. destruct (explicit_step_good _ _ _ _ _ _ Hx Hm) as (? & ? & ?). split; [done|]. split; [done|]. set_solver.
  - split; [apply good_empty|]. intros s' t. cbn. by rewrite lookup_empty.
Qed.

Lemma after_exact_good :
  good sources targets explicit ignore_case after_exact /\ resolved after_explicit ⊆ resolved after_exact.
Proof.
  apply (foldl_invariant (fun m => good sources targets explicit ignore_case m /\ resolved after_explicit ⊆ resolved m)).
  - intros m s Hs [Hm Hsub]. destruct (exact_step_good _ _ _ _ _ _ Hs Hm) as (? & ? & ?). split; [done|]. by etrans.
  - split; [apply after_explicit_good|done].
Qed.

(** After the second pass an unpaired source has no free target of its own name. *)
Lemma after_exact_used s : s ∈ sources -> s ∈ targets -> resolved after_exact !! s = None -> s ∈ used after_exact.
Proof.
  intros Hs Ht Hn. revert Ht Hn.
  apply (foldl_establishes (good sources targets explicit ignore_case)
           (fun s m => s ∈ targets -> resolved m !! s = None -> s ∈ used m)); [| |done].
  - intros m x Hx Hm. destruct (exact_step_good _ _ _ _ _ _ Hx Hm) as (Hg & Hsub & Hu). split; [done|]. split; [auto|].
    intros y Hy Hyt Hyn. apply (good_used _ _ _ _ _ Hg).
    assert (Hyn' : resolved m !! y = None).
    { destruct (resolved m !! y) eqn:Hr; [|done]. eapply lookup_weaken in Hr; [|done]. congruence. }
    apply (good_used _ _ _ _ _ Hm) in Hy as [s' Hs']; [|done..]. exists s'. by eapply lookup_weaken.
  - apply after_explicit_good.
Qed.

Lemma final_good : good sources targets explicit ignore_case final /\ resolved after_exact ⊆ resolved final.
Proof.
  unfold resolve_matching. fold after_explicit. fold after_exact. destruct ignore_case eqn:Hic; [|split; [|done]].
  - apply (foldl_invariant (fun m => good sources targets explicit true m /\ resolved after_exact ⊆ resolved m)).
    + intros m s Hs [Hm Hsub]. destruct (case_step_good sources targets explicit true m s eq_refl Hs Hm) as [? ?].
      split; [done|]. by etrans.
    + rewrite <- Hic. split; [apply after_exact_good|done].
  - rewrite <- Hic. apply after_exact_good.
Qed.

End Matching.

(** Equal names resolve to each other unless a mapping involves them. *)
Lemma equal_names_resolve sources targets mappings ignore_case s :
  s ∈ sources -> s ∈ targets -> explicit_by_source mappings !! s = None ->
  (forall s', s' ∈ sources -> explicit_by_source mappings !! s' <> Some s) ->
  resolved (resolve_matching sources targets mappings ignore_case) !! s = Some s.
Proof.
  intros Hs Ht Hnone Huniq. destruct (final_good sources targets mappings ignore_case) as [_ Hsub].
  eapply lookup_weaken; [|exact Hsub].
  destruct (after_exact_good sources targets mappings false) as [Hgf _].
  destruct (resolved (after_exact sources targets mappings) !! s) as [t|] eqn:Hr.
  - apply (good_pair _ _ _ _ _ Hgf) in Hr as (_ & _ & [He|[->|[? _]]]); [congruence|done..].
  - pose proof (after_exact_used sources targets mappings false s Hs Ht Hr) as Hu.
    apply (good_used _ _ _ _ _ Hgf) in Hu as [s' Hs']. apply (good_pair _ _ _ _ _ Hgf) in Hs' as Hj.
    destruct Hj as (Hin & _ & [He|[->|[? _]]]); [by apply Huniq in He|congruence|done].
Qed.

(** Without mappings every table of two equal lists is paired with itself. *)
Lemma resolve_self names ignore_case :
  resolve_schema_diff_table_names names names [] ignore_case = mk_resolution (map (fun s => (s, s)) names) [] [].
Proof.
  assert (Hr : forall s, s ∈ names -> resolved (resolve_matching names names [] ignore_case) !! s = Some s).
  { intros s Hs. apply equal_names_resolve; [done..|]. intros s' _. cbn. by rewrite lookup_empty. }
  unfold resolve_schema_diff_table_names. destruct (final_good names names [] ignore_case) as [Hg _].
  set (m := resolve_matching names names [] ignore_case) in *. f_equal.
  - clear Hg. clearbody m. induction names as [|s names IH]; [done|]. cbn. rewrite Hr by left. cbn. f_equal.
    apply IH. intros x Hx. apply Hr. by right.
  - apply filter_none. intros s Hs. unfold is_resolved. rewrite Hr by done. by rewrite bool_decide_true by eauto.
  - apply filter_none. intros s Hs. rewrite bool_decide_true; [done|]. apply (good_used _ _ _ _ _ Hg). eauto.
Qed.

(** A list splits into the elements that pass a test and the others. *)
Lemma filter_split {A} (p : A -> bool) (l : list A) : List.filter p l ++ List.filter (fun x => negb (p x)) l ≡ₚ l.
Proof.
  induction l as [|x l IH]; [done|]. cbn. destruct (p x); cbn; [by rewrite IH|].
  rewrite <- Permutation_middle. by rewrite IH.
Qed.

Lemma pairs_fst (m : matching) (l : list text) :
  map fst (omap (fun s => pair s <$> resolved m !! s) l) = List.filter (is_resolved m) l.
Proof.
  induction l as [|s l IH]; [done|]. cbn. unfold is_resolved at 1.
  destruct (resolved m !! s) as [t|] eqn:Hs; cbn [fmap option_fmap option_map]; [rewrite bool_decide_true by eauto|rewrite bool_decide_false by (by intros [])].
  - cbn. by rewrite IH.
  - done.
Qed.

Lemma pairs_elem (m : matching) (l : list text) s t :
  (s, t) ∈ omap (fun s => pair s <$> resolved m !! s) l <-> s ∈ l /\ resolved m !! s = Some t.
Proof.
  rewrite list_elem_of_omap. split.
  - intros (s' & Hs & Heq). destruct (resolved m !! s') eqn:Hr; [|done]. injection Heq as -> ->. done.
  - intros [Hs Hr]. exists s. by rewrite Hr.
Qed.

Lemma pairs_snd_nodup sources targets explicit ic m :
  good sources targets explicit ic m -> NoDup sources ->
  NoDup (map snd (omap (fun s => pair s <$> resolved m !! s) sources)).
Proof.
  intros Hg Hnd. apply (NoDup_fmap_2_strong snd).
  - intros [s t] [s' t'] [_ H1]%pairs_elem [_ H2]%pairs_elem Heq. cbn in Heq. subst t'.
    by rewrite (good_inj _ _ _ _ _ Hg _ _ _ H1 H2).
  - apply (NoDup_fmap_1 fst). change (NoDup (map fst (omap (fun s => pair s <$> resolved m !! s) sources))).
    rewrite pairs_fst, filter_bool. by apply NoDup_filter.
Qed.

(** The tables of two schemas are paired one to one: every source is paired or
    source-only and every target paired or target-only, exactly once; a pair comes
    from the user's mapping, from equal names or, when case is ignored, from names
    equal up to ASCII case; a mapping to an existing target that no other source
    claims is honoured, and equal names are paired unless a mapping involves them. *)
Theorem table_names_are_matched sources targets mappings ignore_case :
  NoDup sources -> NoDup targets ->
  let r := resolve_schema_diff_table_names sources targets mappings ignore_case in
  let explicit := explicit_by_source mappings in
  map fst (pairs r) ++ source_only r ≡ₚ sources
  /\ map snd (pairs r) ++ target_only r ≡ₚ targets
  /\ (forall s t, (s, t) ∈ pairs r -> justified explicit ignore_case s t)
  /\ (forall s t, s ∈ sources -> t ∈ targets -> explicit !! s = Some t ->
        (forall s', s' ∈ sources -> explicit !! s' = Some t -> s' = s) -> (s, t) ∈ pairs r)
  /\ (forall s, s ∈ sources -> s ∈ targets -> explicit !! s = None ->
        (forall s', s' ∈ sources -> explicit !! s' <> Some s) -> (s, s) ∈ pairs r).
Proof.
  intros Hns Hnt r explicit. subst explicit.
  destruct (final_good sources targets mappings ignore_case) as [Hg Hsub2].
  destruct (after_exact_good sources targets mappings ignore_case) as [Hge Hsub1].
  destruct (after_explicit_good sources targets mappings ignore_case) as [_ Heo].
  unfold r, resolve_schema_diff_table_names. cbn [pairs source_only target_only].
  set (m := resolve_matching sources targets mappings ignore_case) in *. split_and!.
  - rewrite pairs_fst. apply filter_split.
  - apply NoDup_Permutation; [|done|].
    + apply NoDup_app. split_and!; [by eapply pairs_snd_nodup| |rewrite filter_bool; by apply NoDup_filter].
      intros t ([s t'] & -> & [_ Hr]%pairs_elem)%list_elem_of_fmap [_ Hu]%list_filter_elem.
      apply negb_true_iff, bool_decide_eq_false in Hu. apply Hu, (good_used _ _ _ _ _ Hg). eauto.
    + intros t. rewrite elem_of_app, list_elem_of_fmap, list_filter_elem. split.
      * intros [([s t'] & -> & [_ Hr]%pairs_elem)|[? _]]; [|done]. by apply (good_pair _ _ _ _ _ Hg) in Hr as (_ & ? & _).
      * intros Ht. destruct (decide (t ∈ used m)) as [Hu|Hu]; [left|right; split; [done|by rewrite bool_decide_false]].
        apply (good_used _ _ _ _ _ Hg) in Hu as [s Hs]. exists (s, t). split; [done|]. apply pairs_elem. split; [|done].
        by apply (good_pair _ _ _ _ _ Hg) in Hs as [? _].
  - intros s t [_ Hr]%pairs_elem. by apply (good_pair _ _ _ _ _ Hg) in Hr as (_ & _ & ?).
  - intros s t Hs Ht He Huniq. apply pairs_elem. split; [done|].
    pose proof (after_explicit_used sources targets mappings ignore_case s t Hs He Ht) as Hu.
    destruct (after_explicit_good sources targets mappings ignore_case) as [Hg1 _].
    apply (good_used _ _ _ _ _ Hg1) in Hu as [s' Hs']. assert (s' = s) as ->.
    { apply Huniq; [by apply (good_pair _ _ _ _ _ Hg1) in Hs' as [? _]|by apply Heo]. }
    eapply lookup_weaken; [|done]. by eapply lookup_weaken.
  - intros s Hs Ht Hnone Huniq. apply pairs_elem. split; [done|]. by apply equal_names_resolve.
Qed.

Example mapped_and_case :
  resolve_schema_diff_table_names [%"Users"; %"orders"; %"old"] [%"users"; %"orders"; %"new"]
    [SchemaDiffTableMapping.mk %"old" %"new"] true
  = mk_resolution [(%"Users", %"users"); (%"orders", %"orders"); (%"old", %"new")] [] [].
Proof. vm_compute. reflexivity. Qed.

Lemma table_names_witness :
  (%"old", %"new") ∈ pairs (resolve_schema_diff_table_names [%"orders"; %"old"] [%"orders"; %"new"]
                              [SchemaDiffTableMapping.mk %"old" %"new"] false).
Proof.
  assert (Hs : NoDup [%"orders"; %"old"]) by (apply (bool_decide_unpack _); vm_compute; exact I).
  assert (Ht : NoDup [%"orders"; %"new"]) by (apply (bool_decide_unpack _); vm_compute; exact I).
  destruct (table_names_are_matched _ _ [SchemaDiffTableMapping.mk %"old" %"new"] false Hs Ht) as (_ & _ & _ & He & _).
  apply He; [right; left|right; left|vm_compute; reflexivity|].
  intros s' [->|[->|Hn%not_elem_of_nil]%elem_of_cons]%elem_of_cons Hl; [vm_compute in Hl; discriminate|reflexivity|done].
Defined.

(** ** Columns *)

Section Columns.

Context (source target : list ColumnInfo.t) (ignore_case : bool).

Definition same_column (i j : nat) : Prop :=
  exists s t, source !! i = Some s /\ target !! j = Some t
    /\ (ColumnInfo.name t = ColumnInfo.name s
        \/ (ignore_case = true /\ eq_ignore_ascii_case (ColumnInfo.name t) (ColumnInfo.name s) = true)).

Record columns_good (m : column_matching) : Prop := {
  cols_length : length (matches m) = length source;
  cols_used j : j ∈ used_targets m <-> exists i, matches m !! i = Some (Some j);
  cols_inj i i' j : matches m !! i = Some (Some j) -> matches m !! i' = Some (Some j) -> i = i';
  cols_pair i j : matches m !! i = Some (Some j) -> same_column i j
}.

Lemma positions_in test i : i ∈ positions test target <-> exists t, target !! i = Some t /\ test i t = true.
Proof.
  unfold positions. rewrite list_filter_elem, elem_of_seq. split.
  - intros [_ Ht]. destruct (target !! i) as [t|]; [eauto|done].
  - intros (t & Ht & Hte). rewrite Ht. apply lookup_lt_Some in Ht. split; [lia|done].
Qed.

Lemma positions_ascending test : ascending (positions test target).
Proof. apply StronglySorted_filter_bool, seq_ascending. Qed.

(** The source at [i] has no target yet. *)
Definition open_at (m : column_matching) (i : nat) : Prop := matches m !! i = Some None.

Lemma match_column_good m i j :
  columns_good m -> open_at m i -> j ∉ used_targets m -> same_column i j -> columns_good (match_column m i j).
Proof.
  intros [Hlen Hu Hinj Hp] Ho Hj Hs.
  assert (Hlt : i < length (matches m)) by (by apply lookup_lt_Some in Ho).
  assert (Hl : forall k, <[i := Some j]> (matches m) !! k = if decide (k = i) then Some (Some j) else matches m !! k).
  { intros k. case_decide; [subst; by apply list_lookup_insert_eq|by apply list_lookup_insert_ne]. }
  split; cbn [matches used_targets match_column].
  - by rewrite length_insert.
  - intros j'. rewrite elem_of_cons, Hu. split.
    + intros [->|[k Hk]]; [exists i; by rewrite Hl, decide_True|]. exists k. rewrite Hl. case_decide; [|done].
      subst. unfold open_at in Ho. congruence.
    + intros [k Hk]. rewrite Hl in Hk. case_decide; [left; congruence|right; eauto].
  - assert (Hno : forall k, k <> i -> matches m !! k = Some (Some j) -> False) by (intros k _ Hk; apply Hj, Hu; eauto).
    intros a b j' H1 H2. rewrite Hl in H1, H2. repeat case_decide; subst; [done|..|eauto];
      simplify_eq; exfalso; eapply Hno; eauto.
  - intros k j' Hk. rewrite Hl in Hk. case_decide; [simplify_eq; done|eauto].
Qed.

Lemma is_used_spec m j : is_used m j = false <-> j ∉ used_targets m.
Proof. apply bool_decide_eq_false. Qed.

Lemma exact_column_good m i s :
  columns_good m -> open_at m i -> source !! i = Some s -> columns_good (exact_column target m (i, s)).
Proof.
  intros Hg Ho Hs. unfold exact_column. cbn [fst snd]. destruct (positions _ _) as [|j l] eqn:Hp; [done|].
  assert (Hj : j ∈ positions (fun k t => text_eqb (ColumnInfo.name t) (ColumnInfo.name s) && negb (is_used m k)) target)
    by (rewrite Hp; left).
  apply positions_in in Hj as (t & Ht & [Hn%text_eqb_eq Hu%negb_true_iff%is_used_spec]%andb_true_iff).
  apply match_column_good; [done..|]. exists s, t. auto.
Qed.

Lemma case_column_good m i s :
  ignore_case = true -> columns_good m -> source !! i = Some s -> columns_good (case_column target m (i, s)).
Proof.
  intros Hic Hg Hs. unfold case_column. cbn [fst snd].
  assert (Hlt : is_Some (matches m !! i)).
  { apply lookup_lt_is_Some. rewrite (cols_length _ Hg). by apply lookup_lt_Some in Hs. }
  destruct Hlt as [o Ho]. rewrite Ho. destruct o as [j|]; [done|].
  destruct (sole _) as [j|] eqn:Hj; [|done].
  apply sole_elem, positions_in in Hj as (t & Ht & [Hu%negb_true_iff%is_used_spec He]%andb_true_iff).
  apply match_column_good; [done..|]. exists s, t. auto.
Qed.

(** The first pass reads each source position once, before it is written. *)
Lemma exact_columns_good k :
  k <= length source ->
  let m := foldl (exact_column target) (mk_columns (replicate (length source) None) []) (take k (imap pair source)) in
  columns_good m /\ forall i, k <= i -> i < length source -> open_at m i.
Proof.
  induction k as [|k IH]; intros Hk; cbn.
  - split; [split; cbn|].
    + apply length_replicate.
    + intros j. split; [by intros ?%not_elem_of_nil|]. intros [i [? _]%lookup_replicate]. done.
    + intros i i' j [? _]%lookup_replicate. done.
    + intros i j [? _]%lookup_replicate. done.
    + intros i _ Hi. by apply lookup_replicate_2.
  - destruct (lookup_lt_is_Some_2 source k) as [s Hs]; [lia|].
    assert (Hi : imap pair source !! k = Some (k, s)) by (by rewrite list_lookup_imap, Hs).
    rewrite (take_S_r _ _ _ Hi), foldl_app. cbn [foldl]. destruct IH as [Hg Ho]; [lia|].
    split; [apply exact_column_good; auto with lia|].
    intros i Hki Hil. specialize (Ho i ltac:(lia) Hil). unfold exact_column. destruct (positions _ _); [done|].
    unfold open_at in *. cbn [matches match_column fst]. rewrite list_lookup_insert_ne by lia. done.
Qed.

Lemma resolve_columns_good : exists m, matches m = resolve_column_matches source target ignore_case /\ columns_good m.
Proof.
  destruct (exact_columns_good (length source) (le_n _)) as [Hg _].
  rewrite take_ge in Hg by (by rewrite length_imap).
  eexists. split; [reflexivity|]. destruct ignore_case eqn:Hic; [|exact Hg].
  apply foldl_invariant; [|exact Hg]. intros m [i s] Hin Hm.
  apply elem_of_lookup_imap in Hin as (i' & s' & [= -> ->] & Hs). by apply case_column_good.
Qed.

(** Every source column has at most one target column of the same name, and no
    target column serves two. *)
Lemma column_matches_spec :
  let ms := resolve_column_matches source target ignore_case in
  length ms = length source
  /\ (forall i j, ms !! i = Some (Some j) -> same_column i j)
  /\ (forall i i' j, ms !! i = Some (Some j) -> ms !! i' = Some (Some j) -> i = i').
Proof.
  destruct resolve_columns_good as (m & <- & Hg). split; [apply Hg|]. split; [apply Hg|]. apply Hg.
Qed.

End Columns.

(** Against itself every column is matched with itself: the columns before it have
    taken the earlier positions of its name. *)
Lemma diagonal_step (source : list ColumnInfo.t) m k s :
  source !! k = Some s -> (forall j, j ∈ used_targets m <-> j < k) ->
  exact_column source m (k, s) = match_column m k k.
Proof.
  intros Hs Hu. unfold exact_column. cbn [fst snd].
  set (test := fun i t => text_eqb (ColumnInfo.name t) (ColumnInfo.name s) && negb (is_used m i)).
  assert (Hk : k ∈ positions test source).
  { apply positions_in. exists s. split; [done|]. unfold test. rewrite text_eqb_refl. cbn.
    apply negb_true_iff, is_used_spec. rewrite Hu. lia. }
  assert (Hge : forall j, j ∈ positions test source -> k <= j).
  { intros j (t & _ & [_ Hn%negb_true_iff%is_used_spec]%andb_true_iff)%positions_in. rewrite Hu in Hn. lia. }
  assert (Hasc : ascending (positions test source)).
  { apply positions_ascending. }
  apply (head_ascending _ k) in Hasc; [|done..]. destruct (positions test source) as [|j l]; [done|]. by injection Hasc as ->.
Qed.

Lemma diagonal_prefix (source : list ColumnInfo.t) k :
  k <= length source ->
  let m := foldl (exact_column source) (mk_columns (replicate (length source) None) []) (take k (imap pair source)) in
  matches m = map Some (seq 0 k) ++ replicate (length source - k) None /\ forall j, j ∈ used_targets m <-> j < k.
Proof.
  induction k as [|k IH]; intros Hk m; subst m.
  - cbn. rewrite Nat.sub_0_r. split; [done|]. intros j. split; [by intros ?%not_elem_of_nil|lia].
  - destruct (lookup_lt_is_Some_2 source k) as [s Hs]; [lia|].
    assert (Hi : imap pair source !! k = Some (k, s)) by (by rewrite list_lookup_imap, Hs).
    rewrite (take_S_r _ _ _ Hi), foldl_app. cbn [foldl]. destruct IH as [Hm Hu]; [lia|].
    rewrite diagonal_step by done. cbn [match_column matches used_targets]. split.
    + rewrite Hm. replace (length source - k) with (S (length source - S k)) by lia. cbn [replicate].
      rewrite insert_app_r_alt by (by rewrite length_map, length_seq). rewrite length_map, length_seq, Nat.sub_diag.
      rewrite seq_S, map_app, <- app_assoc. done.
    + intros j. rewrite elem_of_cons, Hu. lia.
Qed.

Lemma column_matches_diagonal source ic :
  resolve_column_matches source source ic = map Some (seq 0 (length source)).
Proof.
  destruct (diagonal_prefix source (length source) (le_n _)) as [Hm _].
  rewrite take_ge, Nat.sub_diag, app_nil_r in Hm by (by rewrite length_imap).
  unfold resolve_column_matches. destruct ic; [|exact Hm].
  set (m := foldl (exact_column source) _ _) in *.
  assert (Hfix : foldl (case_column source) m (imap pair source) = m); [|by rewrite Hfix].
  apply (foldl_invariant (fun m' => m' = m)); [|done]. intros m' [i s] Hin ->.
  apply elem_of_lookup_imap in Hin as (i' & s' & [= -> ->] & Hs%lookup_lt_Some).
  unfold case_column. cbn [fst]. rewrite Hm, seq_map_lookup, decide_True by done. done.
Qed.
