(* ===== verification/ViewDdl.v ===== *)
(** * ViewDdl: comparing captured view definitions ([schema_diff.rs],
      [view_definitions_differ] and the MySQL and Oracle normalizers).

    The sources walk bytes and cut at ASCII characters only; the model walks
    characters.  A walk is a [scan_loop]: at each character the rest of the text
    gives the length of the token that starts there. *)

From S2P Require Import Prelude DbTypes SchemaTypes.

(** ** Lexical helpers *)

Definition view_ddl_symbol (c : char) : bool :=
  existsb (N.eqb c) (lit "()[]{},.;+-*/%<>=!|&^~?:@").

(** [s.replace(from, to)] for a non-empty [from]. *)
Fixpoint replace_from (fuel : nat) (from to s : text) : text :=
  match fuel, s with
  | S fuel', c :: s' =>
      if starts_with from s then to ++ replace_from fuel' from to (drop (length from) s)
      else c :: replace_from fuel' from to s'
  | _, _ => s
  end.
Definition replace (from to s : text) : text := replace_from (length s) from to s.

Definition skip_ascii_whitespace (l : text) : text := drop_while is_ascii_whitespace l.

(** [ddl[index..].find('\n')]: the characters before the next newline. *)
Definition to_newline (l : text) : nat := length (take_while (fun c => negb (c =? nl)%N) l).

(** [ddl[index..].find(needle)]. *)
Fixpoint find_at (needle l : text) : option nat :=
  if starts_with needle l then Some 0
  else match l with [] => None | _ :: l' => S <$> find_at needle l' end.

(** After the [/] of a block comment: the characters up to its end. *)
Definition block_comment_extra (rest : text) : nat :=
  match find_at %"*/" (drop 1 rest) with Some offset => 1 + offset + 2 | None => length rest end.

Inductive ViewTokenKind : Set := Atom | Symbol.

#[export] Instance view_token_kind_eq_dec : EqDecision ViewTokenKind.
Proof. solve_decision. Defined.

(** ** MySQL *)

(** [mysql_quoted_token_end], counted after the opening quote. *)
Fixpoint mysql_quoted_len (quote : char) (l : text) : nat :=
  match l with
  | [] => 0
  | c :: l' =>
      if (c =? bslash)%N && negb (quote =? backtick)%N then
        match l' with [] => 1 | _ :: l'' => 2 + mysql_quoted_len quote l'' end
      else if (c =? quote)%N then
        match l' with
        | [] => 1
        | d :: l'' => if (d =? quote)%N then 2 + mysql_quoted_len quote l'' else 1
        end
      else 1 + mysql_quoted_len quote l'
  end.

Definition is_mysql_quote (c : char) : bool := (c =? squote)%N || (c =? dquote)%N || (c =? backtick)%N.

(** [strip_prefix(q).and_then(strip_suffix(q)).unwrap_or(identifier)] with [qq] read as [q]. *)
Definition decode_quoted (quote : char) (identifier : text) : text :=
  let inner :=
    match identifier with
    | c :: rest =>
        if (c =? quote)%N && ends_with [quote] rest then take (length rest - 1) rest else identifier
    | [] => []
    end in
  replace [quote; quote] [quote] inner.

Definition decode_mysql_quoted_identifier (identifier : text) : text := decode_quoted backtick identifier.

Definition is_header_word (c : char) : bool := is_ascii_alphanumeric c || (c =? under)%N || (c =? dollar)%N.

(** [find_mysql_header_keyword] from position [index], where the text is [l]. *)
Fixpoint find_header_keyword_from (fuel : nat) (keyword : text) (limit index : nat) (l : text) : option nat :=
  match fuel, l with
  | S fuel', c :: rest =>
      if limit <=? index then None
      else if is_mysql_quote c then
        let n := mysql_quoted_len c rest in
        find_header_keyword_from fuel' keyword limit (index + 1 + n) (drop n rest)
      else if is_ascii_alphabetic c || (c =? under)%N then
        let tail := take_while is_header_word (take (limit - index - 1) rest) in
        if eq_ignore_ascii_case (c :: tail) keyword then Some index
        else find_header_keyword_from fuel' keyword limit (index + 1 + length tail) (drop (length tail) rest)
      else find_header_keyword_from fuel' keyword limit (index + 1) rest
  | _, _ => None
  end.

Definition find_mysql_header_keyword (ddl keyword : text) (limit : nat) : option nat :=
  find_header_keyword_from (length ddl) keyword limit 0 ddl.

(** The principal at the front of [l]: its length. *)
Definition parse_mysql_definer_principal (l : text) : option nat :=
  match l with
  | [] => None
  | c :: rest =>
      if is_mysql_quote c then Some (1 + mysql_quoted_len c rest)
      else
        let n := length (take_while (fun c => negb (is_ascii_whitespace c || (c =? 64)%N || (c =? lparen)%N || (c =? rparen)%N)) l) in
        if 0 <? n then Some n else None
  end.

Definition parse_mysql_identifier (l : text) : option (text * nat) :=
  if head_is backtick l then
    let n := 1 + mysql_quoted_len backtick (drop 1 l) in
    Some (decode_mysql_quoted_identifier (take n l), n)
  else
    let word := take_while (fun c => negb (is_ascii_whitespace c || view_ddl_symbol c)) l in
    if 0 <? length word then Some (word, length word) else None.

Definition mysql_view_schema (ddl : text) : option text :=
  view ← find_mysql_header_keyword ddl %"VIEW" (length ddl);
  let l := skip_ascii_whitespace (drop (view + 4) ddl) in
  p ← parse_mysql_identifier l;
  if head_is 46%N (skip_ascii_whitespace (drop p.2 l)) then Some p.1 else None.

(** The text after the definer clause whose principal starts at [l]. *)
Definition after_definer (l : text) : option text :=
  n ← parse_mysql_definer_principal l;
  let rest := skip_ascii_whitespace (drop n l) in
  if head_is 64%N rest then
    let host := skip_ascii_whitespace (drop 1 rest) in
    h ← parse_mysql_definer_principal host;
    Some (drop h host)
  else if eq_ignore_ascii_case (take (length l - length rest) l) %"CURRENT_USER" then
    let open := skip_ascii_whitespace rest in
    if head_is lparen open then
      let close := skip_ascii_whitespace (drop 1 open) in
      Some (if head_is rparen close then drop 1 close else rest)
    else Some rest
  else None.

Definition strip_mysql_view_definer (ddl : text) : text :=
  default ddl
    (view ← find_mysql_header_keyword ddl %"VIEW" (length ddl);
     definer ← find_mysql_header_keyword ddl %"DEFINER" view;
     let l := skip_ascii_whitespace (drop (definer + 7) ddl) in
     if head_is 61%N l then
       rest ← after_definer (skip_ascii_whitespace (drop 1 l));
       Some (take definer ddl ++ skip_ascii_whitespace rest)
     else None).

(** The token that starts at [c]: the characters after [c] it takes, its kind and what replaces it. *)
Definition mysql_view_token (schema : option text) (c : char) (rest : text) : nat * ViewTokenKind * option text :=
  if (c =? squote)%N || (c =? dquote)%N then (mysql_quoted_len c rest, Atom, None)
  else if (c =? backtick)%N then
    let n := mysql_quoted_len c rest in
    let identifier := decode_mysql_quoted_identifier (c :: take n rest) in
    let qualifies := bool_decide (schema = Some identifier) && head_is 46%N (trim_start (drop n rest)) in
    (n, Atom, if qualifies then Some %"`__dbx_schema__`" else None)
  else if (c =? hash)%N then (to_newline rest, Atom, None)
  else if (c =? dash)%N && head_is dash rest && match drop 1 rest with d :: _ => is_ascii_whitespace d | [] => false end
  then (to_newline rest, Atom, None)
  else if (c =? slash)%N && head_is star rest then (block_comment_extra rest, Atom, None)
  else if view_ddl_symbol c then (0, Symbol, None)
  else (length (take_while (fun c => negb (is_ascii_whitespace c || is_mysql_quote c || (c =? hash)%N || view_ddl_symbol c)) rest), Atom, None).

(** [previous] and [pending_whitespace]. *)
Definition mysql_view_step (schema : option text) (st : option ViewTokenKind * bool) (c : char) (rest : text)
    : (option ViewTokenKind * bool) * text * nat :=
  if is_ascii_whitespace c then ((st.1, true), [], 0)
  else
    let '(extra, kind, replacement) := mysql_view_token schema c rest in
    ((Some kind, false),
     (if st.2 && bool_decide (st.1 = Some kind) then [space] else []) ++ default (c :: take extra rest) replacement,
     extra).

Definition normalize_mysql_view_ddl (ddl : text) : text :=
  let ddl := strip_mysql_view_definer ddl in
  snd (scan_loop (mysql_view_step (mysql_view_schema ddl)) (None, false) 0 ddl).

(** ** Oracle *)

Record OracleViewToken : Set := mk_token {
  kind : ViewTokenKind; token_text : text; identifier : bool; quoted : bool; spaced : bool
}.

(** [oracle_quoted_token_end], counted after the opening quote. *)
Fixpoint oracle_quoted_len (quote : char) (l : text) : nat :=
  match l with
  | [] => 0
  | c :: l' =>
      if (c =? quote)%N then
        match l' with
        | [] => 1
        | d :: l'' => if (d =? quote)%N then 2 + oracle_quoted_len quote l'' else 1
        end
      else 1 + oracle_quoted_len quote l'
  end.

Definition decode_oracle_quoted_identifier (identifier : text) : text := decode_quoted dquote identifier.

(** The token that starts at [c], without its [spaced] flag, and [None] for a comment. *)
Definition oracle_view_token (c : char) (rest : text) : nat * option (bool -> OracleViewToken) :=
  if (c =? squote)%N then
    let n := oracle_quoted_len c rest in (n, Some (mk_token Atom (c :: take n rest) false false))
  else if (c =? dquote)%N then
    let n := oracle_quoted_len c rest in
    (n, Some (mk_token Atom (decode_oracle_quoted_identifier (c :: take n rest)) true true))
  else if (c =? dash)%N && head_is dash rest then (to_newline rest, None)
  else if (c =? slash)%N && head_is star rest then (block_comment_extra rest, None)
  else if view_ddl_symbol c then (0, Some (mk_token Symbol [c] false false))
  else
    let n := length (take_while (fun c => negb (is_ascii_whitespace c || (c =? squote)%N || (c =? dquote)%N || view_ddl_symbol c)) rest) in
    (n, Some (mk_token Atom (c :: take n rest) true false)).

Definition oracle_view_step (spaced : bool) (c : char) (rest : text) : bool * list OracleViewToken * nat :=
  if is_ascii_whitespace c then (true, [], 0)
  else
    let '(extra, token) := oracle_view_token c rest in
    (false, match token with Some t => [t spaced] | None => [] end, extra).

Definition oracle_view_tokens (ddl : text) : list OracleViewToken := snd (scan_loop oracle_view_step false 0 ddl).

(** The tokens after a position go on with a dot. *)
Definition continue_with_dot (after : list OracleViewToken) : bool :=
  match after with next :: _ => bool_decide (kind next = Symbol) && text_eqb (token_text next) %"." | [] => false end.

Fixpoint oracle_view_owner (tokens : list OracleViewToken) : option text :=
  match tokens with
  | [] => None
  | token :: after =>
      if negb (quoted token) && eq_ignore_ascii_case (token_text token) %"VIEW" then
        match after with
        | [] => None
        | name :: after' => if continue_with_dot after' then Some (token_text name) else None
        end
      else oracle_view_owner after
  end.

Definition oracle_view_schemas (source_ddl target_ddl : text) : list text :=
  foldl (fun schemas ddl =>
           match oracle_view_owner (oracle_view_tokens ddl) with
           | None => schemas
           | Some owner => if existsb (fun known => eq_ignore_ascii_case known owner) schemas then schemas else schemas ++ [owner]
           end) [] [source_ddl; target_ddl].

Fixpoint render_oracle (schemas : list text) (previous : option ViewTokenKind) (tokens : list OracleViewToken) : text :=
  match tokens with
  | [] => []
  | token :: after =>
      let replacement :=
        if identifier token && existsb (fun schema => eq_ignore_ascii_case (token_text token) schema) schemas && continue_with_dot after
        then %"__dbx_schema__" else token_text token in
      (if spaced token && bool_decide (previous = Some (kind token)) then [space] else [])
      ++ replacement ++ render_oracle schemas (Some (kind token)) after
  end.

Definition normalize_oracle_view_ddl_with_schemas (ddl : text) (schemas : list text) : text :=
  let ddl := trim_end ddl in
  let ddl := if ends_with %";" ddl then trim_end (take (length ddl - 1) ddl) else ddl in
  render_oracle schemas None (oracle_view_tokens ddl).

(** ** The comparison *)

Definition view_definitions_differ (source_ddl target_ddl : text) (source_dialect target_dialect : option DialectKind) : bool :=
  if negb (bool_decide (source_dialect = target_dialect)) then false
  else
    match source_dialect with
    | Some DMysql => negb (text_eqb (normalize_mysql_view_ddl source_ddl) (normalize_mysql_view_ddl target_ddl))
    | Some DOracle =>
        let schemas := oracle_view_schemas source_ddl target_ddl in
        negb (text_eqb (normalize_oracle_view_ddl_with_schemas source_ddl schemas)
                       (normalize_oracle_view_ddl_with_schemas target_ddl schemas))
    | _ => false
    end.

(** ** Facts *)

Lemma view_definitions_differ_refl ddl sd td : view_definitions_differ ddl ddl sd td = false.
Proof.
  unfold view_definitions_differ. case_bool_decide; cbn [negb]; [|done].
  destruct sd as [[]|]; try done; by rewrite text_eqb_refl.
Qed.

Example definer_is_dropped :
  normalize_mysql_view_ddl %"CREATE DEFINER=`root`@`%` SQL SECURITY DEFINER VIEW `a`.`v` AS select `a`.`t`.`id`  AS `id` from `a`.`t`"
  = normalize_mysql_view_ddl %"CREATE SQL SECURITY DEFINER VIEW `b`.`v` AS  select `b`.`t`.`id` AS `id` from  `b` . `t`".
Proof. vm_compute. reflexivity. Qed.

(** [CURRENT_USER()] is dropped, the keyword without parentheses is not: the
    compared slice ends after the whitespace that follows it. *)
Example current_user_needs_parentheses :
  strip_mysql_view_definer %"CREATE DEFINER=CURRENT_USER() VIEW v AS SELECT 1" = %"CREATE VIEW v AS SELECT 1"
  /\ strip_mysql_view_definer %"CREATE DEFINER=CURRENT_USER VIEW v AS SELECT 1" = %"CREATE DEFINER=CURRENT_USER VIEW v AS SELECT 1".
Proof. split; vm_compute; reflexivity. Qed.

(** A view of one schema and its copy in another, which still reads from the first. *)
Example oracle_owner_is_ignored :
  let q := [dquote] in
  view_definitions_differ
    (%"CREATE OR REPLACE FORCE VIEW " ++ q ++ %"DEV" ++ q ++ %"." ++ q ++ %"V" ++ q ++ %" AS SELECT id FROM dev.t;")
    (%"CREATE OR REPLACE FORCE VIEW PROD.V AS SELECT id -- same" ++ [nl] ++ %" FROM dev . t")
    (Some DOracle) (Some DOracle) = false.
Proof. vm_compute. reflexivity. Qed.
