(* ===== verification/ColumnCompare.v ===== *)
(** * ColumnCompare: comparing the columns of two tables ([schema_diff.rs],
      [declared_column_type] to [diff_columns_with_identifier_options];
      [dbx-sql-dialect/inference.rs], [ColumnType::parse] and its scores).

    Columns are paired by [resolve_column_matches]; a pair whose declared type,
    nullability, default, character set, collation, comment or position differ is a
    modification, the others are additions and removals, of which a type and a
    nullability that fit make a rename. *)

From stdpp Require Import gmap.
From S2P Require Import Prelude DbTypes WriteClass WriteUnlock SchemaTypes SchemaGraph SchemaNames ViewDdl.

(** ** Declared types *)

Definition canonical_type_name (base : text) : text :=
  let up := upper (trim base) in
  if text_eqb up %"CHARACTER VARYING" then %"VARCHAR"
  else if text_eqb up %"CHARACTER" then %"CHAR"
  else up.

Definition find_mapping (mappings : list FieldMapping.t) (base_type : text) : option FieldMapping.t :=
  match List.find (fun m => eq_ignore_ascii_case (FieldMapping.source_type m) base_type) mappings with
  | Some m => Some m
  | None =>
      List.find (fun m => text_eqb (canonical_type_name (FieldMapping.source_type m)) (canonical_type_name base_type)) mappings
  end.

(** [s.split('(').next()]. *)
Definition before_char (c : char) (s : text) : text := take_while (fun d => negb (d =? c)%N) s.

Definition apply_mapping (mappings : list FieldMapping.t) (source_type : text) : option text :=
  FieldMapping.target_type <$> find_mapping mappings (trim (before_char lparen source_type)).

Definition has_char (c : char) (s : text) : bool := existsb (N.eqb c) s.

Definition LENGTH_TYPES : list text :=
  [%"VARCHAR"; %"CHARACTER VARYING"; %"NVARCHAR"; %"CHAR"; %"CHARACTER"; %"NCHAR"; %"VARCHAR2"; %"NVARCHAR2"].

Definition with_known_length (source_type : text) (character_maximum_length : option Z) : text :=
  let trimmed := trim source_type in
  if has_char lparen trimmed then trimmed
  else if negb (text_in (upper trimmed) LENGTH_TYPES) then trimmed
  else
    match character_maximum_length with
    | Some len => if (0 <? len)%Z then trimmed ++ %"(" ++ show_Z len ++ %")" else trimmed
    | None => trimmed
    end.

Definition NUMERIC_TYPES_WITH_DECLARED_PRECISION : list text := [%"NUMBER"; %"NUMERIC"; %"DECIMAL"; %"DEC"; %"FIXED"].

Definition with_known_numeric_precision (source_type : text) (numeric_precision numeric_scale : option Z) : text :=
  let trimmed := trim source_type in
  if has_char lparen trimmed then trimmed
  else
    let base := upper (take_while (fun c => negb ((c =? space)%N || (c =? lparen)%N)) trimmed) in
    if negb (text_in base NUMERIC_TYPES_WITH_DECLARED_PRECISION) then trimmed
    else
      match numeric_precision with
      | Some precision =>
          if (0 <? precision)%Z then
            match numeric_scale with
            | Some scale =>
                if (scale =? 0)%Z then trimmed ++ %"(" ++ show_Z precision ++ %")"
                else trimmed ++ %"(" ++ show_Z precision ++ %"," ++ show_Z scale ++ %")"
            | None => trimmed ++ %"(" ++ show_Z precision ++ %")"
            end
          else trimmed
      | None => trimmed
      end.

Definition declared_column_type (column : ColumnInfo.t) : text :=
  with_known_numeric_precision
    (with_known_length (ColumnInfo.data_type column) (ColumnInfo.character_maximum_length column))
    (ColumnInfo.numeric_precision column) (ColumnInfo.numeric_scale column).

(** ** Type equality *)

Definition U32_MAX : N := 4294967295%N.

Definition digits_value (s : text) : N := fold_left (fun n c => (n * 10 + (c - 48))%N) s 0%N.

(** [s.parse::<u32>().ok()]: digits with an optional plus sign. *)
Definition parse_u32 (s : text) : option N :=
  let digits := match s with c :: s' => if (c =? 43)%N then s' else s | [] => [] end in
  if negb (is_empty digits) && forallb is_ascii_digit digits && (digits_value digits <=? U32_MAX)%N
  then Some (digits_value digits) else None.

(** [normalized], [integer_key] and [width]. *)
Record MysqlIntegerTypeSignature : Set := mk_signature {
  normalized : text; integer_key : option text; width : option N
}.

Definition squeeze (s : text) : text := lower (join [space] (split_whitespace s)).

Definition is_integer_base (base : text) : bool :=
  text_in base [%"tinyint"; %"smallint"; %"mediumint"; %"int"; %"integer"; %"bigint"; %"year"].

Definition parse_mysql_integer_type (data_type : text) : MysqlIntegerTypeSignature :=
  let normalized := squeeze data_type in
  match split_once lparen normalized with
  | None =>
      mk_signature normalized (if is_integer_base (before_char space normalized) then Some normalized else None) None
  | Some (before, rest) =>
      match split_once rparen rest with
      | None => mk_signature normalized None None
      | Some (inside, after) =>
          let base := trim before in
          let width_str := trim inside in
          if negb (is_integer_base base) || is_empty width_str || negb (forallb is_ascii_digit width_str)
          then mk_signature normalized None None
          else
            let suffix := trim after in
            mk_signature normalized (Some (if is_empty suffix then base else base ++ [space] ++ suffix)) (parse_u32 width_str)
      end
  end.

(** [s.replacen(from, "", 1)]. *)
Definition remove_first (from s : text) : text :=
  match find_at from s with Some i => take i s ++ drop (i + length from) s | None => s end.

Definition normalize_postgres_temporal_type (data_type : text) : text :=
  let normalized := squeeze data_type in
  let base := take_while (fun c => negb ((c =? lparen)%N || (c =? space)%N || (c =? lbracket)%N)) normalized in
  if text_in base [%"timestamp"; %"timestamptz"; %"time"; %"timetz"; %"interval"] then remove_first %"(6)" normalized
  else normalized.

Definition is_dialect (d : option DialectKind) (k : DialectKind) : bool := bool_decide (d = Some k).

Definition column_types_equal_for_dialects (source_type target_type : text) (source_dialect target_dialect : option DialectKind) : bool :=
  if eq_ignore_ascii_case source_type target_type then true
  else if is_dialect source_dialect DSqlServer && is_dialect target_dialect DPostgres
          && eq_ignore_ascii_case source_type %"uniqueidentifier" && eq_ignore_ascii_case target_type %"uuid" then true
  else if is_dialect source_dialect DPostgres && is_dialect target_dialect DSqlServer
          && eq_ignore_ascii_case source_type %"uuid" && eq_ignore_ascii_case target_type %"uniqueidentifier" then true
  else if is_dialect source_dialect DPostgres && is_dialect target_dialect DPostgres then
    text_eqb (normalize_postgres_temporal_type source_type) (normalize_postgres_temporal_type target_type)
  else if negb (is_dialect source_dialect DMysql) || negb (is_dialect target_dialect DMysql) then false
  else
    let source := parse_mysql_integer_type source_type in
    let target := parse_mysql_integer_type target_type in
    match integer_key source, integer_key target with
    | Some source_key, Some target_key =>
        text_eqb source_key target_key
        && match width source, width target with Some a, Some b => (a =? b)%N | _, _ => true end
    | None, None => text_eqb (normalized source) (normalized target)
    | _, _ => false
    end.

Definition mysql_charset_value (value : option text) : option text :=
  v ← value; if is_empty (trim v) then None else Some (trim v).

Definition mysql_charset_values_differ (source target : option text) : bool :=
  match mysql_charset_value source, mysql_charset_value target with
  | Some s, Some t => negb (eq_ignore_ascii_case s t)
  | _, _ => false
  end.

(** ** Column types and their similarity *)

Module ColumnType.

Record t : Set := mk {
  base_type : text; precision : option N; scale : option N; length : option N;
  is_array : bool; is_unsigned : bool; extras : list text
}.

(** [(base_type, params_str)]. *)
Definition split_params (trimmed : text) : text * option text :=
  match split_once lparen trimmed with
  | Some (base, rest) =>
      if ends_with %")" trimmed then (trim base, Some (trim (take (List.length rest - 1) rest))) else (trimmed, None)
  | None => (trimmed, None)
  end.

Definition parse (type_str : text) : t :=
  let trimmed := trim type_str in
  let '(base_type, params_str) := split_params trimmed in
  let is_unsigned := contains %"unsigned" (lower base_type) in
  let is_array := ends_with %"[]" trimmed || contains %" array" (lower trimmed) in
  let base_type_clean := trim (replace %"[]" [] (replace %" UNSIGNED" [] (replace %" unsigned" [] base_type))) in
  let '(precision, scale, length) :=
    match params_str with
    | Some params =>
        if has_char comma params then
          match split_at (N.eqb comma) params with
          | p :: s :: _ => (parse_u32 (trim p), parse_u32 (trim s), None)
          | _ => (None, None, parse_u32 params)
          end
        else (None, None, parse_u32 params)
    | None => (None, None, None)
    end in
  mk base_type_clean precision scale length is_array is_unsigned [].

End ColumnType.

Definition SYNONYMS : list (text * text) :=
  [(%"int", %"integer"); (%"integer", %"int"); (%"float", %"real"); (%"real", %"float");
   (%"double", %"double precision"); (%"double precision", %"double"); (%"bool", %"boolean"); (%"boolean", %"bool");
   (%"timestamp", %"datetime"); (%"datetime", %"timestamp"); (%"uniqueidentifier", %"uuid"); (%"uuid", %"uniqueidentifier")].

Definition INTEGER_FAMILY : list text :=
  [%"tinyint"; %"smallint"; %"mediumint"; %"int"; %"integer"; %"bigint"; %"serial"; %"bigserial"].
Definition TEXT_FAMILY : list text :=
  [%"char"; %"varchar"; %"text"; %"tinytext"; %"mediumtext"; %"longtext"; %"clob"; %"nclob"].

Definition are_synonyms (s t : text) : bool := existsb (fun p => text_eqb p.1 s && text_eqb p.2 t) SYNONYMS.
Definition same_family (family : list text) (s t : text) : bool := text_in s family && text_in t family.

(** [DefaultTypeInferenceEngine::type_compatibility_score]. *)
Definition type_compatibility_score (source target : ColumnType.t) : F64.t :=
  let s := lower (ColumnType.base_type source) in
  let t := lower (ColumnType.base_type target) in
  if text_eqb s t then F64.one
  else if are_synonyms s t then F64.lit_0_9
  else if same_family INTEGER_FAMILY s t then F64.lit_0_8
  else if same_family TEXT_FAMILY s t then F64.lit_0_7
  else F64.lit_0_3.

Definition column_type_similarity_score (source_type target_type : text) : F64.t :=
  let s := lower (ColumnType.base_type (ColumnType.parse source_type)) in
  let t := lower (ColumnType.base_type (ColumnType.parse target_type)) in
  if text_eqb s t then F64.one
  else if are_synonyms s t then F64.one
  else if same_family INTEGER_FAMILY s t then F64.lit_0_8
  else if same_family TEXT_FAMILY s t then F64.lit_0_8
  else F64.zero.

(** ** Column differences *)

Definition column_add_position (columns : list ColumnInfo.t) (index : nat) : ColumnAddPosition :=
  match index with
  | O => First
  | S previous => match columns !! previous with Some c => After (ColumnInfo.name c) | None => First end
  end.

Definition yes_no (b : bool) : text := if b then %"YES" else %"NO".

(** One comparison: the change description if the values differ. *)
Definition change (differ : bool) (label from to : text) : list text :=
  if differ then [label ++ %": " ++ from ++ arrow ++ to] else [].

Definition differs (a b : text) : bool := negb (text_eqb a b).

Record column_options : Set := mk_column_options {
  ignore_comments : bool; compare_column_order : bool; detect_renames : bool; rename_threshold : F64.t;
  source_dialect : option DialectKind; target_dialect : option DialectKind;
  ignore_column_name_case : bool; compare_charset : bool
}.

Definition column_changes (o : column_options) (can_compare_order : bool) (si ti : nat) (s t : ColumnInfo.t) : list text :=
  let source_type := declared_column_type s in
  let target_type := declared_column_type t in
  change (negb (column_types_equal_for_dialects source_type target_type (source_dialect o) (target_dialect o)))
    %"type" target_type source_type
  ++ change (negb (Bool.eqb (ColumnInfo.is_nullable s) (ColumnInfo.is_nullable t)))
       %"nullable" (yes_no (ColumnInfo.is_nullable t)) (yes_no (ColumnInfo.is_nullable s))
  ++ change (differs (or_default (ColumnInfo.column_default s)) (or_default (ColumnInfo.column_default t)))
       %"default" (default %"NULL" (ColumnInfo.column_default t)) (default %"NULL" (ColumnInfo.column_default s))
  ++ change (compare_charset o && mysql_charset_values_differ (ColumnInfo.character_set s) (ColumnInfo.character_set t))
       %"character set" (or_default (mysql_charset_value (ColumnInfo.character_set t)))
       (or_default (mysql_charset_value (ColumnInfo.character_set s)))
  ++ change (compare_charset o && mysql_charset_values_differ (ColumnInfo.collation s) (ColumnInfo.collation t))
       %"collation" (or_default (mysql_charset_value (ColumnInfo.collation t)))
       (or_default (mysql_charset_value (ColumnInfo.collation s)))
  ++ change (negb (ignore_comments o) && differs (or_default (ColumnInfo.comment s)) (or_default (ColumnInfo.comment t)))
       %"comment" (or_default (ColumnInfo.comment t)) (or_default (ColumnInfo.comment s))
  ++ change (can_compare_order && negb (si =? ti)) %"order" (show_nat (ti + 1)) (show_nat (si + 1)).

(** The difference of one source column. *)
Definition source_column_diff (o : column_options) (source target : list ColumnInfo.t) (column_matches : list (option nat))
    (can_compare_order : bool) (si : nat) (s : ColumnInfo.t) : list ColumnDiff.t :=
  match column_matches !! si ≫= fun m => m with
  | Some ti =>
      match target !! ti with
      | Some t =>
          match column_changes o can_compare_order si ti s t with
          | [] => []
          | changes => [ColumnDiff.mk %"modified" (ColumnInfo.name s) (Some s) (Some t) changes None]
          end
      | None => []
      end
  | None => [ColumnDiff.mk %"added" (ColumnInfo.name s) (Some s) None [] (Some (column_add_position source si))]
  end.

Definition target_column_diff (target : list ColumnInfo.t) (column_matches : list (option nat)) (ti : nat) (t : ColumnInfo.t)
    : list ColumnDiff.t :=
  if existsb (fun m => bool_decide (m = Some ti)) column_matches then []
  else [ColumnDiff.mk %"removed" (ColumnInfo.name t) None (Some t) [] (Some (column_add_position target ti))].

(** The differences before renames are detected. *)
Definition basic_column_diffs (o : column_options) (source target : list ColumnInfo.t) : list ColumnDiff.t :=
  let column_matches := resolve_column_matches source target (ignore_column_name_case o) in
  let can_compare_order :=
    compare_column_order o && (length source =? length target) && forallb (fun m => bool_decide (is_Some m)) column_matches in
  concat (imap (source_column_diff o source target column_matches can_compare_order) source)
  ++ concat (imap (target_column_diff target column_matches) target).

(** ** Renames *)

Definition has_type (kind : text) (d : ColumnDiff.t) : bool := text_eqb (ColumnDiff.diff_type d) kind.

Definition indices_of (kind : text) (diffs : list ColumnDiff.t) : list nat :=
  List.filter (fun i => match diffs !! i with Some d => has_type kind d | None => false end) (seq 0 (length diffs)).

Definition rename_score (removed_col added_col : ColumnInfo.t) : F64.t :=
  F64.mul (column_type_similarity_score (ColumnInfo.data_type removed_col) (ColumnInfo.data_type added_col))
    (if Bool.eqb (ColumnInfo.is_nullable removed_col) (ColumnInfo.is_nullable added_col) then F64.one else F64.lit_0_8).

(** [best_score] and [best_ai] after the added columns. *)
Definition best_added (threshold : F64.t) (diffs : list ColumnDiff.t) (matched_added added_indices : list nat) (removed_col : ColumnInfo.t)
    : F64.t * option nat :=
  foldl (fun best ai =>
           if bool_decide (ai ∈ matched_added) then best
           else
             match diffs !! ai ≫= ColumnDiff.source with
             | None => best
             | Some added_col =>
                 if F64.lt (column_type_similarity_score (ColumnInfo.data_type removed_col) (ColumnInfo.data_type added_col)) threshold then best
                 else if F64.lt best.1 (rename_score removed_col added_col) then (rename_score removed_col added_col, Some ai)
                 else best
             end) (F64.zero, None) added_indices.

(** [rename_pairs] and [matched_added]. *)
Definition rename_step (threshold : F64.t) (diffs : list ColumnDiff.t) (added_indices : list nat)
    (st : list (nat * nat) * list nat) (ri : nat) : list (nat * nat) * list nat :=
  match diffs !! ri ≫= ColumnDiff.target with
  | None => st
  | Some removed_col =>
      match snd (best_added threshold diffs st.2 added_indices removed_col) with
      | None => st
      | Some ai => (st.1 ++ [(ri, ai)], ai :: st.2)
      end
  end.

Definition rename_pairs (threshold : F64.t) (diffs : list ColumnDiff.t) : list (nat * nat) :=
  fst (foldl (rename_step threshold diffs (indices_of %"added" diffs)) ([], []) (indices_of %"removed" diffs)).

Definition matched_rename : ColumnDiff.t := ColumnDiff.mk %"_matched_rename" [] None None [] None.

Definition apply_rename (diffs : list ColumnDiff.t) (p : nat * nat) : list ColumnDiff.t :=
  match diffs !! p.1, diffs !! p.2 with
  | Some removed, Some added =>
      match ColumnDiff.target removed, ColumnDiff.source added with
      | Some old_col, Some new_col =>
          <[p.2 := matched_rename]>
            (<[p.1 := ColumnDiff.mk %"renamed" (ColumnInfo.name new_col) (Some new_col) (Some old_col)
                        [ColumnDiff.name removed ++ arrow ++ ColumnInfo.name new_col] None]> diffs)
      | _, _ => diffs
      end
  | _, _ => diffs
  end.

Definition detect_column_renames (threshold : F64.t) (diffs : list ColumnDiff.t) : list ColumnDiff.t :=
  List.filter (fun d => negb (has_type %"_matched_rename" d)) (foldl apply_rename diffs (rename_pairs threshold diffs)).

Definition diff_columns_with_identifier_options (o : column_options) (source target : list ColumnInfo.t) : list ColumnDiff.t :=
  let diffs := basic_column_diffs o source target in
  if detect_renames o && F64.lt F64.zero (rename_threshold o) then detect_column_renames (rename_threshold o) diffs else diffs.

Definition both_mysql (source_dialect target_dialect : option DialectKind) : bool :=
  is_dialect source_dialect DMysql && is_dialect target_dialect DMysql.

Definition diff_columns_with_dialect_options (source target : list ColumnInfo.t) (ignore_comments compare_column_order detect_renames : bool)
    (rename_threshold : F64.t) (source_dialect target_dialect : option DialectKind) : list ColumnDiff.t :=
  diff_columns_with_identifier_options
    (mk_column_options ignore_comments compare_column_order detect_renames rename_threshold source_dialect target_dialect false
       (both_mysql source_dialect target_dialect)) source target.

Definition diff_columns_with_options (source target : list ColumnInfo.t) (ignore_comments compare_column_order detect_renames : bool)
    (rename_threshold : F64.t) : list ColumnDiff.t :=
  diff_columns_with_dialect_options source target ignore_comments compare_column_order detect_renames rename_threshold None None.

Definition diff_columns (source target : list ColumnInfo.t) : list ColumnDiff.t :=
  diff_columns_with_options source target false false false F64.lit_0_5.
