(* ===== verification/ColumnCompareFacts.v ===== *)
(** * ColumnCompareFacts: column differences are exact.

    A table has no column difference with itself; a detected rename replaces one
    added and one removed column and loses none. *)

From stdpp Require Import gmap.
From S2P Require Import Prelude DbTypes WriteClass WriteUnlock SchemaTypes Kahn SchemaGraph SchemaGraphTheorems SchemaNames DiffOrder ViewDdl ColumnCompare.

Lemma eq_ignore_ascii_case_refl s : eq_ignore_ascii_case s s = true.
Proof. apply text_eqb_refl. Qed.

(** ** A table against itself *)

Lemma column_types_equal_refl ty sd td : column_types_equal_for_dialects ty ty sd td = true.
Proof. unfold column_types_equal_for_dialects. by rewrite eq_ignore_ascii_case_refl. Qed.

Lemma mysql_charset_values_same v : mysql_charset_values_differ v v = false.
Proof. unfold mysql_charset_values_differ. destruct (mysql_charset_value v); [|done]. by rewrite eq_ignore_ascii_case_refl. Qed.

Lemma differs_refl s : differs s s = false.
Proof. unfold differs. by rewrite text_eqb_refl. Qed.

Lemma column_changes_refl o cmp i c : column_changes o cmp i i c c = [].
Proof.
  unfold column_changes.
  rewrite column_types_equal_refl, eqb_reflx, !mysql_charset_values_same, !differs_refl, Nat.eqb_refl, !andb_false_r.
  done.
Qed.

Lemma concat_imap_nil {A B} (f : nat -> A -> list B) l : (forall i x, l !! i = Some x -> f i x = []) -> concat (imap f l) = [].
Proof.
  intros Hf. destruct (concat (imap f l)) as [|y ys] eqn:Hc; [done|exfalso].
  assert (Hy : y ∈ concat (imap f l)) by (rewrite Hc; left).
  apply elem_of_concat in Hy as (k & Hy & (i & x & -> & Hx)%elem_of_lookup_imap).
  rewrite (Hf _ _ Hx) in Hy. by apply not_elem_of_nil in Hy.
Qed.

Lemma basic_column_diffs_refl o columns : basic_column_diffs o columns columns = [].
Proof.
  unfold basic_column_diffs. rewrite column_matches_diagonal. set (cmp := _ && _).
  rewrite !concat_imap_nil; [done| |].
  - intros i c Hc. apply lookup_lt_Some in Hc. unfold target_column_diff.
    assert (existsb (fun m => bool_decide (m = Some i)) (map Some (seq 0 (length columns))) = true) as ->; [|done].
    apply existsb_exists. exists (Some i). rewrite bool_decide_true by done. split; [|done].
    apply list_elem_of_In, list_elem_of_fmap. exists i. rewrite elem_of_seq. split; [done|lia].
  - intros i c Hc. unfold source_column_diff. apply lookup_lt_Some in Hc as Hlt.
    rewrite seq_map_lookup, decide_True by done. cbn [mbind option_bind]. rewrite Hc, column_changes_refl. done.
Qed.

Lemma diff_columns_refl o columns : diff_columns_with_identifier_options o columns columns = [].
Proof.
  unfold diff_columns_with_identifier_options. rewrite basic_column_diffs_refl.
  by destruct (detect_renames o && _).
Qed.

(** ** Renames *)

Lemma elem_of_insert_inv {A} (l : list A) i x y : x ∈ <[i := y]> l -> x ∈ l \/ x = y.
Proof.
  revert i. induction l as [|a l IH]; intros [|i]; cbn; [by left..| |]; rewrite !elem_of_cons; [tauto|].
  intros [->|Hin%IH]; tauto.
Qed.

Lemma insert_swap_perm {A} (l : list A) i x y : l !! i = Some x -> x :: <[i := y]> l ≡ₚ y :: l.
Proof.
  revert i. induction l as [|a l IH]; intros [|i] Hi; [done..| |]; cbn in *.
  - injection Hi as ->. constructor.
  - rewrite Permutation_swap, IH by done. constructor.
Qed.

(** The rename of a removed and an added column moves values, it loses none. *)
Lemma rename_conserves {B} (f : ColumnDiff.t -> option B) (l : list ColumnDiff.t) i j a b ren m :
  l !! i = Some a -> l !! j = Some b -> i <> j ->
  omap f [a; b] ≡ₚ omap f [m; ren] ->
  omap f (<[j := m]> (<[i := ren]> l)) ≡ₚ omap f l.
Proof.
  intros Hi Hj Hij Heq.
  assert (Hp : a :: b :: <[j := m]> (<[i := ren]> l) ≡ₚ m :: ren :: l).
  { rewrite (insert_swap_perm (<[i := ren]> l) j b m) by (by rewrite list_lookup_insert_ne).
    rewrite Permutation_swap, (insert_swap_perm l i a ren) by done. done. }
  apply (Permutation_app_inv_l (omap f [a; b])). rewrite <- omap_app. rewrite Heq, <- omap_app.
  cbn [app]. by rewrite Hp.
Qed.

(** The three kinds of entries before renames. *)
Definition plain_diff (d : ColumnDiff.t) : Prop :=
  (ColumnDiff.diff_type d = %"added" /\ is_Some (ColumnDiff.source d) /\ ColumnDiff.target d = None)
  \/ (ColumnDiff.diff_type d = %"removed" /\ ColumnDiff.source d = None /\ is_Some (ColumnDiff.target d))
  \/ (ColumnDiff.diff_type d = %"modified" /\ is_Some (ColumnDiff.source d) /\ is_Some (ColumnDiff.target d)).

Lemma basic_column_diffs_plain o source target : Forall plain_diff (basic_column_diffs o source target).
Proof.
  unfold basic_column_diffs. apply Forall_app. split; apply Forall_forall;
    intros d (k & Hd & (i & x & -> & Hx)%elem_of_lookup_imap)%elem_of_concat.
  - unfold source_column_diff in Hd. repeat case_match; try (by apply not_elem_of_nil in Hd);
      apply list_elem_of_singleton in Hd as ->; unfold plain_diff; cbn; eauto 10.
  - unfold target_column_diff in Hd. repeat case_match; try (by apply not_elem_of_nil in Hd).
    apply list_elem_of_singleton in Hd as ->. unfold plain_diff. cbn. eauto 10.
Qed.

Lemma indices_of_elem kind diffs i :
  i ∈ indices_of kind diffs <-> exists d, diffs !! i = Some d /\ ColumnDiff.diff_type d = kind.
Proof.
  unfold indices_of. rewrite list_filter_elem, elem_of_seq. split.
  - intros [_ Hd]. destruct (diffs !! i) as [d|]; [|done]. apply text_eqb_eq in Hd. eauto.
  - intros (d & Hd & Ht). rewrite Hd. split; [apply lookup_lt_Some in Hd; lia|]. by apply text_eqb_eq.
Qed.

Lemma best_added_spec th diffs matched added_indices c ai :
  snd (best_added th diffs matched added_indices c) = Some ai -> ai ∈ added_indices /\ ai ∉ matched.
Proof.
  unfold best_added.
  apply (foldl_invariant (fun best => snd best = Some ai -> ai ∈ added_indices /\ ai ∉ matched)); [|done].
  intros best x Hx IH. repeat case_match; try done. cbn. intros [= <-]. split; [done|].
  by apply bool_decide_eq_false in H.
Qed.

(** The pairs link distinct removed entries with distinct added ones. *)
Record pairing (diffs : list ColumnDiff.t) (ps : list (nat * nat)) : Prop := {
  pairing_fst : NoDup ps.*1;
  pairing_snd : NoDup ps.*2;
  pairing_kind p : p ∈ ps -> p.1 ∈ indices_of %"removed" diffs /\ p.2 ∈ indices_of %"added" diffs
}.

Lemma rename_fold th diffs ris st :
  NoDup ris -> (forall ri, ri ∈ ris -> ri ∈ indices_of %"removed" diffs /\ ri ∉ st.1.*1) ->
  pairing diffs st.1 -> (forall ai, ai ∈ st.2 <-> ai ∈ st.1.*2) ->
  pairing diffs (foldl (rename_step th diffs (indices_of %"added" diffs)) st ris).1.
Proof.
  revert st. induction ris as [|ri ris IH]; intros st Hnd Hri Hp Hm; [done|].
  apply NoDup_cons in Hnd as [Hni Hnd]. cbn [foldl].
  assert (Hskip : forall ri', ri' ∈ ris -> ri' ∈ indices_of %"removed" diffs /\ ri' ∉ st.1.*1) by (intros; apply Hri; by right).
  unfold rename_step at 2. destruct (diffs !! ri ≫= ColumnDiff.target) as [c|]; [|by apply IH].
  destruct (snd (best_added _ _ _ _ _)) as [ai|] eqn:Hai; [|by apply IH].
  apply best_added_spec in Hai as [Hai Hfresh]. destruct (Hri ri (list_elem_of_here _ _)) as [Hr Hrf].
  apply IH; cbn [fst snd]; [done| | |].
  - intros ri' Hin. rewrite fmap_app. split; [by apply Hskip|]. intros [?|?%list_elem_of_singleton]%elem_of_app.
    + by apply Hskip in Hin as [_ ?].
    + by subst.
  - split.
    + rewrite fmap_app. apply NoDup_app. split_and!; [apply Hp| |apply NoDup_singleton]. by intros x Hx ->%list_elem_of_singleton.
    + rewrite fmap_app. apply NoDup_app. split_and!; [apply Hp| |apply NoDup_singleton].
      intros x Hx ->%list_elem_of_singleton. by apply Hfresh, Hm.
    + intros p [Hin| ->%list_elem_of_singleton]%elem_of_app; [by apply (pairing_kind _ _ Hp)|done].
  - intros x. rewrite fmap_app, elem_of_app, elem_of_cons, Hm. cbn. rewrite list_elem_of_singleton. tauto.
Qed.

Lemma rename_pairs_pairing th diffs : pairing diffs (rename_pairs th diffs).
Proof.
  unfold rename_pairs. apply rename_fold.
  - unfold indices_of. rewrite filter_bool. apply NoDup_filter, NoDup_seq.
  - intros ri Hri. split; [done|]. apply not_elem_of_nil.
  - split; [constructor..|]. by intros p ?%not_elem_of_nil.
  - done.
Qed.

Lemma removed_added_distinct diffs i j : i ∈ indices_of %"removed" diffs -> j ∈ indices_of %"added" diffs -> i <> j.
Proof. intros (d & Hd & Ht)%indices_of_elem (e & He & Ht')%indices_of_elem ->. simplify_eq. rewrite Ht in Ht'. discriminate. Qed.

(** A reading of entries under which a rename counts once. *)
Definition conserved {B} (f : ColumnDiff.t -> option B) : Prop :=
  f matched_rename = None /\
  forall a b old new nm ch, ColumnDiff.source a = None -> ColumnDiff.target a = Some old ->
    ColumnDiff.source b = Some new -> ColumnDiff.target b = None ->
    omap f [a; b] ≡ₚ omap f [matched_rename; ColumnDiff.mk %"renamed" nm (Some new) (Some old) ch None].

Lemma source_conserved : conserved ColumnDiff.source.
Proof. split; [done|]. intros a b old new nm ch Ha _ Hb _. cbn. by rewrite Ha, Hb. Qed.

Lemma target_conserved : conserved ColumnDiff.target.
Proof. split; [done|]. intros a b old new nm ch _ Ha _ Hb. cbn. by rewrite Ha, Hb. Qed.

Lemma removed_shape diffs i :
  Forall plain_diff diffs -> i ∈ indices_of %"removed" diffs ->
  exists d c, diffs !! i = Some d /\ ColumnDiff.source d = None /\ ColumnDiff.target d = Some c.
Proof.
  intros Hall (d & Hd & Ht)%indices_of_elem. rewrite Forall_forall in Hall.
  destruct (Hall d (list_elem_of_lookup_2 _ _ _ Hd)) as [(H & _)|[(_ & Hs & [c Hc])|(H & _)]];
    [rewrite Ht in H; discriminate|eauto|rewrite Ht in H; discriminate].
Qed.

Lemma added_shape diffs i :
  Forall plain_diff diffs -> i ∈ indices_of %"added" diffs ->
  exists d c, diffs !! i = Some d /\ ColumnDiff.source d = Some c /\ ColumnDiff.target d = None.
Proof.
  intros Hall (d & Hd & Ht)%indices_of_elem. rewrite Forall_forall in Hall.
  destruct (Hall d (list_elem_of_lookup_2 _ _ _ Hd)) as [(_ & [c Hc] & Hs)|[(H & _)|(H & _)]];
    [eauto|rewrite Ht in H; discriminate|rewrite Ht in H; discriminate].
Qed.

Lemma apply_renames_conserve {B} (f : ColumnDiff.t -> option B) diffs ps cur :
  conserved f -> Forall plain_diff diffs -> pairing diffs ps ->
  (forall p, p ∈ ps -> cur !! p.1 = diffs !! p.1 /\ cur !! p.2 = diffs !! p.2) ->
  omap f (foldl apply_rename cur ps) ≡ₚ omap f cur.
Proof.
  intros Hf Hall. revert cur. induction ps as [|[ri ai] ps IH]; intros cur Hp Hcur; [done|].
  destruct Hp as [H1 H2 Hk]. cbn in H1, H2. apply NoDup_cons in H1 as [Hr1 H1]. apply NoDup_cons in H2 as [Ha2 H2].
  destruct (Hk _ (list_elem_of_here _ _)) as [Hri Hai]. cbn [fst snd] in Hri, Hai.
  destruct (removed_shape _ _ Hall Hri) as (a & old & Hda & Has & Hat).
  destruct (added_shape _ _ Hall Hai) as (b & new & Hdb & Hbs & Hbt).
  destruct (Hcur _ (list_elem_of_here _ _)) as [Hca Hcb]. cbn [fst snd] in Hca, Hcb. rewrite Hda in Hca. rewrite Hdb in Hcb.
  assert (Hne : ri <> ai) by (by eapply removed_added_distinct).
  cbn [foldl]. unfold apply_rename at 2. cbn [fst snd]. rewrite Hca, Hcb, Hat, Hbs. rewrite IH.
  - apply (rename_conserves f cur ri ai a b); [done..|]. by apply (proj2 Hf).
  - split; [done|done|]. intros p Hin. apply Hk. by right.
  - intros p Hin. destruct (Hk p (list_elem_of_further _ _ _ Hin)) as [Hp1 Hp2].
    assert (p.1 <> ri) by (intros Heq; apply Hr1; rewrite <- Heq; by apply list_elem_of_fmap_2).
    assert (p.2 <> ai) by (intros Heq; apply Ha2; rewrite <- Heq; by apply list_elem_of_fmap_2).
    pose proof (removed_added_distinct _ _ _ Hp1 Hai). pose proof (removed_added_distinct _ _ _ Hri Hp2).
    rewrite !list_lookup_insert_ne by done. apply Hcur. by right.
Qed.

Lemma filter_matched_conserve {B} (f : ColumnDiff.t -> option B) diffs :
  (forall d, d ∈ diffs -> has_type %"_matched_rename" d = true -> f d = None) ->
  omap f (List.filter (fun d => negb (has_type %"_matched_rename" d)) diffs) = omap f diffs.
Proof.
  induction diffs as [|d diffs IH]; intros Hd; [done|]. cbn [List.filter].
  assert (IH' := IH (fun d' Hin => Hd d' (list_elem_of_further _ _ _ Hin))).
  destruct (has_type %"_matched_rename" d) eqn:Ht; cbn [negb].
  - rewrite IH'. cbn. by rewrite (Hd d (list_elem_of_here _ _) Ht).
  - change (omap f (d :: ?l)) with (match f d with Some y => y :: omap f l | None => omap f l end). by rewrite IH'.
Qed.

(** Only the placeholder of a matched rename has that type. *)
Lemma apply_renames_types diffs ps :
  Forall plain_diff diffs -> forall d, d ∈ foldl apply_rename diffs ps -> has_type %"_matched_rename" d = true -> d = matched_rename.
Proof.
  intros Hall. apply (foldl_invariant (fun cur => forall d, d ∈ cur -> has_type %"_matched_rename" d = true -> d = matched_rename)).
  - intros cur p _ IH d. unfold apply_rename. repeat case_match; try apply IH.
    intros [[Hin| ->]%elem_of_insert_inv| ->]%elem_of_insert_inv Ht; [by apply IH|discriminate|done].
  - intros d Hd Ht. rewrite Forall_forall in Hall. apply text_eqb_eq in Ht.
    destruct (Hall d Hd) as [(H & _)|[(H & _)|(H & _)]]; rewrite Ht in H; discriminate.
Qed.

Lemma detect_renames_conserve {B} (f : ColumnDiff.t -> option B) th diffs :
  conserved f -> Forall plain_diff diffs -> omap f (detect_column_renames th diffs) ≡ₚ omap f diffs.
Proof.
  intros Hf Hall. unfold detect_column_renames. rewrite filter_matched_conserve.
  - apply (apply_renames_conserve f diffs); [done|done|apply rename_pairs_pairing|done].
  - intros d Hd Ht. rewrite (apply_renames_types _ _ Hall d Hd Ht). apply Hf.
Qed.

(** ** Every column is accounted for *)

Lemma concat_imap_perm {A B C D} (p : B -> option D) (q : C -> D) (f : nat -> A -> list B) (g : nat -> A -> list C) (h : nat -> A -> list D) l :
  (forall i x, l !! i = Some x -> omap p (f i x) ++ map q (g i x) ≡ₚ h i x) ->
  omap p (concat (imap f l)) ++ map q (concat (imap g l)) ≡ₚ concat (imap h l).
Proof.
  revert f g h. induction l as [|x l IH]; intros f g h Hx; [done|].
  rewrite !imap_cons. cbn [concat]. rewrite omap_app, map_app, <- (Hx 0 x eq_refl).
  rewrite <- (IH (f ∘ S) (g ∘ S) (h ∘ S)) by (intros i y; apply (Hx (S i))). solve_Permutation.
Qed.

Lemma concat_imap_single {A} (l : list A) : concat (imap (fun _ x => [x]) l) = l.
Proof. induction l as [|x l IH]; [done|]. rewrite imap_cons. cbn. f_equal. exact IH. Qed.

Lemma concat_imap_options {A B} (l : list (option A)) (k : list B) :
  length l = length k -> concat (imap (fun i _ => option_list (l !! i ≫= fun m => m)) k) = omap id l.
Proof.
  revert k. induction l as [|m l IH]; intros [|x k] Hlen; try done. rewrite imap_cons. cbn [concat].
  change (omap id (m :: l)) with (match id m with Some y => y :: omap id l | None => omap id l end).
  rewrite <- (IH k) by (cbn in Hlen; lia). by destruct m.
Qed.

Lemma omap_id_nodup {A} (l : list (option A)) :
  (forall i i' j, l !! i = Some (Some j) -> l !! i' = Some (Some j) -> i = i') -> NoDup (omap id l).
Proof.
  induction l as [|m l IH]; intros Hinj; [constructor|].
  assert (NoDup (omap id l)) by (apply IH; intros i i' j H1 H2; by apply (Hinj (S i) (S i') j) in H1 as [= ->]).
  destruct m as [j|]; [|done]. apply (NoDup_cons_2 j); [|done].
  intros (m & Hm & Heq)%list_elem_of_omap. unfold id in Heq. subst m. apply list_elem_of_lookup in Hm as [i Hi].
  by specialize (Hinj 0 (S i) j eq_refl Hi).
Qed.

Section Account.

Context (o : column_options) (source target : list ColumnInfo.t).

Notation ms := (resolve_column_matches source target (ignore_column_name_case o)).

Definition order_compared : bool :=
  compare_column_order o && (length source =? length target) && forallb (fun m => bool_decide (is_Some m)) ms.

(** The pair of a source column without a difference. *)
Definition unchanged_at (si : nat) (s : ColumnInfo.t) : list (ColumnInfo.t * ColumnInfo.t) :=
  match ms !! si ≫= fun m => m with
  | Some ti =>
      match target !! ti with
      | Some t => match column_changes o order_compared si ti s t with [] => [(s, t)] | _ => [] end
      | None => []
      end
  | None => []
  end.

Definition unchanged : list (ColumnInfo.t * ColumnInfo.t) := concat (imap unchanged_at source).

Definition source_part : list ColumnDiff.t := concat (imap (source_column_diff o source target ms order_compared) source).
Definition target_part : list ColumnDiff.t := concat (imap (target_column_diff target ms) target).

Definition matched_at (si : nat) (_ : ColumnInfo.t) : list nat := option_list (ms !! si ≫= fun m => m).

Lemma match_valid si ti : ms !! si = Some (Some ti) -> is_Some (target !! ti).
Proof.
  destruct (column_matches_spec source target (ignore_column_name_case o)) as (_ & Hp & _).
  intros Hm. apply Hp in Hm as (s & t & _ & Ht & _). eauto.
Qed.

Lemma source_part_sources : omap ColumnDiff.source source_part ++ map fst unchanged ≡ₚ source.
Proof.
  transitivity (concat (imap (fun _ x => [x]) source)); [|by rewrite concat_imap_single].
  apply concat_imap_perm. intros si s Hs.
  unfold source_column_diff, unchanged_at. destruct (ms !! si) as [[ti|]|] eqn:Hm; cbn [mbind option_bind]; try done.
  destruct (match_valid _ _ Hm) as [t Ht]. rewrite Ht. by destruct (column_changes _ _ _ _ _ _).
Qed.

Lemma source_part_targets :
  omap ColumnDiff.target source_part ++ map snd unchanged ≡ₚ omap (target !!.) (concat (imap matched_at source)).
Proof.
  assert (Heq : omap (target !!.) (concat (imap matched_at source))
                = concat (imap (fun i s => omap (target !!.) (matched_at i s)) source)).
  { generalize matched_at as f. generalize source as l. induction l as [|x l IH]; intros f; [done|].
    rewrite !imap_cons. cbn [concat]. rewrite omap_app. f_equal. apply (IH (f ∘ S)). }
  rewrite Heq. apply concat_imap_perm. intros si s Hs.
  unfold source_column_diff, unchanged_at, matched_at. destruct (ms !! si) as [[ti|]|] eqn:Hm; cbn [mbind option_bind]; try done.
  destruct (match_valid _ _ Hm) as [t Ht]. cbn. rewrite Ht. by destruct (column_changes _ _ _ _ _ _).
Qed.

Definition is_matched (ti : nat) : bool := existsb (fun m => bool_decide (m = Some ti)) ms.

Lemma is_matched_spec ti : is_matched ti = true <-> exists si, ms !! si = Some (Some ti).
Proof.
  unfold is_matched. rewrite existsb_exists. split.
  - intros (m & Hin%list_elem_of_In & ->%bool_decide_eq_true). by apply list_elem_of_lookup in Hin.
  - intros Hm%list_elem_of_lookup. exists (Some ti). rewrite bool_decide_true by done. split; [|done]. by apply list_elem_of_In.
Qed.

Lemma matched_positions :
  concat (imap matched_at source) ++ List.filter (fun ti => negb (is_matched ti)) (seq 0 (length target)) ≡ₚ seq 0 (length target).
Proof.
  destruct (column_matches_spec source target (ignore_column_name_case o)) as (Hlen & Hp & Hinj).
  assert (Hel : forall ti, ti ∈ concat (imap matched_at source) <-> exists si, ms !! si = Some (Some ti)).
  { intros ti. rewrite elem_of_concat. split.
    - intros (k & Hk & (si & s & -> & _)%elem_of_lookup_imap). exists si. unfold matched_at in Hk.
      destruct (ms !! si) as [[x|]|]; cbn in Hk; [|by apply not_elem_of_nil in Hk..].
      apply list_elem_of_singleton in Hk. congruence.
    - intros [si Hsi]. exists [ti]. split; [by left|]. apply elem_of_lookup_imap.
      destruct (lookup_lt_is_Some_2 source si) as [s Hs]; [rewrite <- Hlen; by apply lookup_lt_Some in Hsi|].
      exists si, s. unfold matched_at. by rewrite Hsi. }
  apply NoDup_Permutation; [|apply NoDup_seq|].
  - apply NoDup_app. split_and!; [| |rewrite filter_bool; apply NoDup_filter, NoDup_seq].
    + unfold matched_at. rewrite concat_imap_options by done. by apply omap_id_nodup.
    + intros ti Hti%Hel%is_matched_spec [_ Hn]%list_filter_elem. by rewrite Hti in Hn.
  - intros ti. rewrite elem_of_app, list_filter_elem, elem_of_seq. split.
    + intros [[si Hsi]%Hel|[? _]]; [|done]. destruct (match_valid _ _ Hsi) as [t Ht%lookup_lt_Some]. lia.
    + intros Hti. destruct (is_matched ti) eqn:Hm; [left; by apply Hel, is_matched_spec|right]. done.
Qed.

Lemma target_part_targets :
  omap ColumnDiff.target target_part = omap (target !!.) (List.filter (fun ti => negb (is_matched ti)) (seq 0 (length target))).
Proof.
  unfold target_part, target_column_diff.
  cut (forall l k, (forall i, l !! i = target !! (k + i)) ->
    omap ColumnDiff.target (concat (imap (fun i t => if is_matched (k + i) then []
        else [ColumnDiff.mk %"removed" (ColumnInfo.name t) None (Some t) [] (Some (column_add_position target (k + i)))]) l))
    = omap (target !!.) (List.filter (fun ti => negb (is_matched ti)) (seq k (length l)))).
  { intros Hgen. exact (Hgen target 0 (fun i => eq_refl)). }
  induction l as [|t l IH]; intros k Hl; [done|].
  rewrite imap_cons. cbn [concat length seq List.filter]. rewrite omap_app, Nat.add_0_r.
  pose proof (Hl 0) as Ht. cbn in Ht. rewrite Nat.add_0_r in Ht.
  specialize (IH (S k) (fun i => eq_trans (Hl (S i)) (f_equal (target !!.) (Nat.add_succ_r k i)))).
  erewrite (imap_ext _ (fun i t => if is_matched (S k + i) then [] else _)).
  - rewrite IH. destruct (is_matched k); cbn; [done|]. by rewrite <- Ht.
  - intros i x _. cbn. by rewrite Nat.add_succ_r.
Qed.

Lemma target_part_sources : omap ColumnDiff.source target_part = [].
Proof.
  assert (Hnone : forall d, d ∈ target_part -> ColumnDiff.source d = None).
  { intros d (k & Hd & (i & x & -> & _)%elem_of_lookup_imap)%elem_of_concat. unfold target_column_diff in Hd.
    destruct (existsb _ _); [by apply not_elem_of_nil in Hd|]. by apply list_elem_of_singleton in Hd as ->. }
  induction target_part as [|d l IH]; [done|]. cbn. rewrite Hnone by left. apply IH. intros d' Hd'. apply Hnone. by right.
Qed.

Lemma basic_account :
  omap ColumnDiff.source (basic_column_diffs o source target) ++ map fst unchanged ≡ₚ source
  /\ omap ColumnDiff.target (basic_column_diffs o source target) ++ map snd unchanged ≡ₚ target.
Proof.
  change (basic_column_diffs o source target) with (source_part ++ target_part). rewrite !omap_app. split.
  - rewrite target_part_sources, app_nil_r. apply source_part_sources.
  - rewrite <- app_assoc, (Permutation_app_comm (omap _ target_part)), app_assoc, source_part_targets, target_part_targets.
    rewrite <- omap_app, matched_positions, omap_lookup_seq. done.
Qed.

End Account.

(** A column pair that is not reported: same name, no change. *)
Definition unreported (o : column_options) (source target : list ColumnInfo.t) (p : ColumnInfo.t * ColumnInfo.t) : Prop :=
  exists si ti, source !! si = Some p.1 /\ target !! ti = Some p.2
    /\ same_column source target (ignore_column_name_case o) si ti
    /\ column_changes o (order_compared o source target) si ti p.1 p.2 = [].

Lemma unchanged_unreported o source target : Forall (unreported o source target) (unchanged o source target).
Proof.
  apply Forall_forall. intros p (k & Hp & (si & s & -> & Hs)%elem_of_lookup_imap)%elem_of_concat.
  unfold unchanged_at in Hp. destruct (_ !! si) as [[ti|]|] eqn:Hm; cbn [mbind option_bind] in Hp; try by apply not_elem_of_nil in Hp.
  destruct (target !! ti) as [t|] eqn:Ht; [|by apply not_elem_of_nil in Hp].
  destruct (column_changes _ _ _ _ _ _) eqn:Hc; [|by apply not_elem_of_nil in Hp]. apply list_elem_of_singleton in Hp as ->.
  exists si, ti. split_and!; try done.
  by destruct (column_matches_spec source target (ignore_column_name_case o)) as (_ & Hpair & _); apply Hpair.
Qed.

(** With any options, renames included, the column differences account for every
    column once: the source columns are those of the reported differences plus the
    unreported pairs', the target columns likewise, and an unreported pair has one
    name (up to case when it is ignored) and no change at all. *)
Theorem columns_are_accounted_for o source target :
  let diffs := diff_columns_with_identifier_options o source target in
  exists same, Forall (unreported o source target) same
    /\ omap ColumnDiff.source diffs ++ map fst same ≡ₚ source
    /\ omap ColumnDiff.target diffs ++ map snd same ≡ₚ target.
Proof.
  intros diffs. destruct (basic_account o source target) as [Hs Ht].
  exists (unchanged o source target). split; [apply unchanged_unreported|].
  unfold diffs, diff_columns_with_identifier_options. destruct (detect_renames o && _); [|done].
  pose proof (basic_column_diffs_plain o source target) as Hp.
  by rewrite (detect_renames_conserve _ _ _ source_conserved Hp), (detect_renames_conserve _ _ _ target_conserved Hp).
Qed.

Definition rename_options : column_options :=
  mk_column_options false false true F64.lit_0_5 (Some DMysql) (Some DMysql) false true.

(** A renamed integer column, an added text column. *)
Example rename_is_found :
  map (fun d => (ColumnDiff.diff_type d, ColumnDiff.name d))
    (diff_columns_with_identifier_options rename_options
       [ColumnInfo.plain %"id" %"int(11)"; ColumnInfo.plain %"label" %"text"; ColumnInfo.plain %"amount" %"bigint"]
       [ColumnInfo.plain %"id" %"int"; ColumnInfo.plain %"total" %"int"])
  = [(%"added", %"label"); (%"renamed", %"amount")].
Proof. vm_compute. reflexivity. Qed.
