(* ===== verification/ObjectCompare.v ===== *)
(** * ObjectCompare: comparing indexes, foreign keys, triggers, routines, sequences,
      rules, owners and permissions ([schema_diff.rs], [group_foreign_keys],
      [diff_indexes_with_options] to [diff_owners], [diff_permissions]). *)

From stdpp Require Import gmap.
From S2P Require Import Prelude DbTypes WriteClass WriteUnlock SchemaTypes SchemaGraph SchemaNames ViewDdl ColumnCompare.

(** ** Objects with a key *)

(** The loops that [diff_triggers], [diff_functions], [diff_sequences] and
    [diff_rules] share: look the source up in a map of the target, then report the
    target objects whose key no source object has. *)
Section Keyed.

Context {Info : Type} `{Countable K}.
Variable key : Info -> K.
Variable object_name : Info -> text.
Variable object_changes : Info -> Info -> list text.

Definition by_key (objects : list Info) : gmap K Info := collect_map (map (fun x => (key x, x)) objects).

Definition keyed_source (target : list Info) (s : Info) : list (ObjectDiff.t Info) :=
  match by_key target !! key s with
  | None => [ObjectDiff.mk %"added" (object_name s) (Some s) None []]
  | Some t =>
      match object_changes s t with
      | [] => []
      | changes => [ObjectDiff.mk %"modified" (object_name s) (Some s) (Some t) changes]
      end
  end.

Definition keyed_target (source : list Info) (t : Info) : list (ObjectDiff.t Info) :=
  match by_key source !! key t with
  | Some _ => []
  | None => [ObjectDiff.mk %"removed" (object_name t) None (Some t) []]
  end.

Definition keyed_diff (source target : list Info) : list (ObjectDiff.t Info) :=
  (source ≫= keyed_source target) ++ (target ≫= keyed_target source).

End Keyed.

(** ** Triggers, routines, sequences, rules, owners *)

Definition trigger_changes (s t : TriggerInfo.t) : list text :=
  change (differs (TriggerInfo.event s) (TriggerInfo.event t)) %"event" (TriggerInfo.event t) (TriggerInfo.event s)
  ++ change (differs (TriggerInfo.timing s) (TriggerInfo.timing t)) %"timing" (TriggerInfo.timing t) (TriggerInfo.timing s).

Definition diff_triggers (source target : list TriggerInfo.t) : list TriggerDiff :=
  keyed_diff TriggerInfo.name TriggerInfo.name trigger_changes source target.

(** [def.replace("\r\n", "\n").split('\n')], each line with its blanks collapsed. *)
Definition normalize_definition (def : text) : text :=
  join [nl] (map (fun line => join [space] (split_whitespace line)) (split_at (N.eqb nl) (replace [cr; nl] [nl] def))).

Definition function_changes (s t : FunctionInfo.t) : list text :=
  change (differs (FunctionInfo.function_type s) (FunctionInfo.function_type t)) %"type"
    (FunctionInfo.function_type t) (FunctionInfo.function_type s)
  ++ change (differs (FunctionInfo.data_type s) (FunctionInfo.data_type t)) %"return type"
       (FunctionInfo.data_type t) (FunctionInfo.data_type s)
  ++ (if differs (normalize_definition (FunctionInfo.definition s)) (normalize_definition (FunctionInfo.definition t))
      then [%"definition changed"] else []).

Definition function_diff (d : ObjectDiff.t FunctionInfo.t) : FunctionDiff.t :=
  FunctionDiff.mk (ObjectDiff.diff_type d) (ObjectDiff.name d) None (ObjectDiff.source d) (ObjectDiff.target d) (ObjectDiff.changes d).

Definition function_key (f : FunctionInfo.t) : text * text := (FunctionInfo.name f, FunctionInfo.arguments f).

Definition diff_functions (source target : list FunctionInfo.t) : list FunctionDiff.t :=
  map function_diff (keyed_diff function_key FunctionInfo.name function_changes source target).

Definition show_bool (b : bool) : text := if b then %"true" else %"false".

Definition sequence_changes (s t : SequenceInfo.t) : list text :=
  change (differs (SequenceInfo.data_type s) (SequenceInfo.data_type t)) %"data_type" (SequenceInfo.data_type t) (SequenceInfo.data_type s)
  ++ change (differs (SequenceInfo.start_value s) (SequenceInfo.start_value t)) %"start" (SequenceInfo.start_value t) (SequenceInfo.start_value s)
  ++ change (differs (SequenceInfo.min_value s) (SequenceInfo.min_value t)) %"min" (SequenceInfo.min_value t) (SequenceInfo.min_value s)
  ++ change (differs (SequenceInfo.max_value s) (SequenceInfo.max_value t)) %"max" (SequenceInfo.max_value t) (SequenceInfo.max_value s)
  ++ change (differs (SequenceInfo.increment s) (SequenceInfo.increment t)) %"increment" (SequenceInfo.increment t) (SequenceInfo.increment s)
  ++ change (negb (Bool.eqb (SequenceInfo.cycle s) (SequenceInfo.cycle t))) %"cycle"
       (show_bool (SequenceInfo.cycle t)) (show_bool (SequenceInfo.cycle s))
  ++ match SequenceInfo.last_value s, SequenceInfo.last_value t with
     | Some a, Some b => change (differs a b) %"last_value" b a
     | _, _ => []
     end.

Definition diff_sequences (source target : list SequenceInfo.t) : list SequenceDiff :=
  keyed_diff SequenceInfo.name SequenceInfo.name sequence_changes source target.

Definition rule_changes (s t : RuleInfo.t) : list text :=
  if differs (RuleInfo.definition s) (RuleInfo.definition t) then [%"definition changed"] else [].

Definition diff_rules (source target : list RuleInfo.t) : list RuleDiff :=
  keyed_diff RuleInfo.name RuleInfo.name rule_changes source target.

(** Objects of one side only are not owners' business. *)
Definition diff_owners (source target : list OwnerInfo.t) : list OwnerDiff :=
  source ≫= fun s =>
    match by_key OwnerInfo.object_name target !! OwnerInfo.object_name s with
    | None => []
    | Some t =>
        match change (differs (OwnerInfo.owner s) (OwnerInfo.owner t)) %"owner" (OwnerInfo.owner t) (OwnerInfo.owner s) with
        | [] => []
        | changes => [ObjectDiff.mk %"modified" (OwnerInfo.object_name s) (Some s) (Some t) changes]
        end
    end.

(** ** Permissions *)

Definition permission_key (p : PermissionInfo.t) : text * text * text :=
  (PermissionInfo.grantee p, PermissionInfo.object_name p, PermissionInfo.privilege p).

Definition permission_diff (diff_type : text) (p : PermissionInfo.t) (source target : option PermissionInfo.t) : PermissionDiff.t :=
  PermissionDiff.mk diff_type (PermissionInfo.grantee p) (PermissionInfo.object_name p) (PermissionInfo.privilege p) source target.

Definition diff_permissions (source target : list PermissionInfo.t) : list PermissionDiff.t :=
  (source ≫= fun sp =>
     match by_key permission_key target !! permission_key sp with
     | Some _ => []
     | None => [permission_diff %"added" sp (Some sp) None]
     end)
  ++ (target ≫= fun tp =>
        match by_key permission_key source !! permission_key tp with
        | Some _ => []
        | None => [permission_diff %"removed" tp None (Some tp)]
        end).

(** ** Indexes *)

(** [l.get(i).copied().unwrap_or(false)]. *)
Definition flag_at (l : list bool) (i : nat) : bool := default false (l !! i).

Definition index_columns_equal (source target : IndexInfo.t) (ignore_column_name_case : bool) : bool :=
  (length (IndexInfo.columns source) =? length (IndexInfo.columns target))
  && forallb (fun b => b)
       (imap (fun i source_column =>
                let target_column := default [] (IndexInfo.columns target !! i) in
                if flag_at (IndexInfo.key_is_expression source) i || flag_at (IndexInfo.key_is_expression target) i
                then text_eqb source_column target_column
                else identifiers_equal source_column target_column ignore_column_name_case) (IndexInfo.columns source)).

Fixpoint identifier_lists_equal (left right : list text) (ignore_column_name_case : bool) : bool :=
  match left, right with
  | [], [] => true
  | l :: left', r :: right' => identifiers_equal l r ignore_column_name_case && identifier_lists_equal left' right' ignore_column_name_case
  | _, _ => false
  end.

Definition strip_prefix (prefix s : text) : option text :=
  if starts_with prefix s then Some (drop (length prefix) s) else None.

Definition index_name_is_server_generated (name : text) : bool :=
  let up := upper (trim name) in
  match strip_prefix %"SYS_C" up with
  | Some digits => negb (is_empty digits) && forallb is_ascii_digit digits
  | None => starts_with %"SQLITE_AUTOINDEX_" up
  end.

Definition included (i : IndexInfo.t) : list text := default [] (IndexInfo.included_columns i).

Definition index_signatures_equal (source target : IndexInfo.t) (ignore_column_name_case : bool) : bool :=
  Bool.eqb (IndexInfo.is_unique source) (IndexInfo.is_unique target)
  && bool_decide (IndexInfo.index_type source = IndexInfo.index_type target)
  && bool_decide (IndexInfo.filter source = IndexInfo.filter target)
  && bool_decide (IndexInfo.column_opclasses source = IndexInfo.column_opclasses target)
  && bool_decide (IndexInfo.key_options source = IndexInfo.key_options target)
  && index_columns_equal source target ignore_column_name_case
  && identifier_lists_equal (included source) (included target) ignore_column_name_case.

Definition index_names (l : list IndexInfo.t) : gset text := list_to_set (map IndexInfo.name l).

(** The target of one source index that only a server-generated name hides. *)
Definition server_generated_target (source target : list IndexInfo.t) (ignore_column_name_case : bool) (matched_targets : list nat)
    (source_index : IndexInfo.t) : option nat :=
  head (List.filter (fun position =>
          match target !! position with
          | None => false
          | Some target_index =>
              negb (bool_decide (position ∈ matched_targets) || IndexInfo.is_primary target_index
                    || bool_decide (IndexInfo.name target_index ∈ index_names source))
              && (index_name_is_server_generated (IndexInfo.name source_index)
                  || index_name_is_server_generated (IndexInfo.name target_index))
              && index_signatures_equal source_index target_index ignore_column_name_case
          end) (seq 0 (length target))).

Definition server_generated_step (source target : list IndexInfo.t) (ignore_column_name_case : bool)
    (st : list (option nat) * list nat) (source_index : IndexInfo.t) : list (option nat) * list nat :=
  if IndexInfo.is_primary source_index || bool_decide (IndexInfo.name source_index ∈ index_names target) then (st.1 ++ [None], st.2)
  else
    match server_generated_target source target ignore_column_name_case st.2 source_index with
    | None => (st.1 ++ [None], st.2)
    | Some position => (st.1 ++ [Some position], position :: st.2)
    end.

Definition match_server_generated_indexes (source target : list IndexInfo.t) (ignore_column_name_case : bool) : list (option nat) :=
  fst (foldl (server_generated_step source target ignore_column_name_case) ([], []) source).

Definition none_or_joined (l : list text) : text := if is_empty l then %"none" else join %", " l.

Definition show_opclass (o : option text) : text :=
  match o with Some v => if is_empty v then %"default" else v | None => %"default" end.

Definition index_changes (ignore_column_name_case : bool) (s t : IndexInfo.t) : list text :=
  change (negb (Bool.eqb (IndexInfo.is_unique s) (IndexInfo.is_unique t))) %"unique" (yes_no (IndexInfo.is_unique t)) (yes_no (IndexInfo.is_unique s))
  ++ change (negb (index_columns_equal s t ignore_column_name_case)) %"columns"
       (join %", " (IndexInfo.columns t)) (join %", " (IndexInfo.columns s))
  ++ change (differs (or_default (IndexInfo.index_type s)) (or_default (IndexInfo.index_type t))) %"type"
       (default %"default" (IndexInfo.index_type t)) (default %"default" (IndexInfo.index_type s))
  ++ change (differs (or_default (IndexInfo.filter s)) (or_default (IndexInfo.filter t))) %"filter"
       (default %"none" (IndexInfo.filter t)) (default %"none" (IndexInfo.filter s))
  ++ change (negb (identifier_lists_equal (included s) (included t) ignore_column_name_case)) %"include"
       (none_or_joined (included t)) (none_or_joined (included s))
  ++ change (negb (bool_decide (IndexInfo.column_opclasses s = IndexInfo.column_opclasses t))) %"opclass"
       (join %", " (map show_opclass (IndexInfo.column_opclasses t))) (join %", " (map show_opclass (IndexInfo.column_opclasses s))).

Definition source_index_diff (ignore_column_name_case : bool) (target : list IndexInfo.t) (generated : list (option nat))
    (position : nat) (s : IndexInfo.t) : list IndexDiff :=
  if IndexInfo.is_primary s then []
  else
    match by_key IndexInfo.name target !! IndexInfo.name s with
    | None =>
        match generated !! position ≫= fun p => p with
        | Some _ => []
        | None => [ObjectDiff.mk %"added" (IndexInfo.name s) (Some s) None []]
        end
    | Some t =>
        match index_changes ignore_column_name_case s t with
        | [] => []
        | changes => [ObjectDiff.mk %"modified" (IndexInfo.name s) (Some s) (Some t) changes]
        end
    end.

Definition target_index_diff (source : list IndexInfo.t) (generated : list (option nat)) (position : nat) (t : IndexInfo.t) : list IndexDiff :=
  if IndexInfo.is_primary t || existsb (fun p => bool_decide (p = Some position)) generated then []
  else
    match by_key IndexInfo.name source !! IndexInfo.name t with
    | Some _ => []
    | None => [ObjectDiff.mk %"removed" (IndexInfo.name t) None (Some t) []]
    end.

Definition diff_indexes_with_options (source target : list IndexInfo.t) (ignore_column_name_case : bool) : list IndexDiff :=
  let generated := match_server_generated_indexes source target ignore_column_name_case in
  concat (imap (source_index_diff ignore_column_name_case target generated) source)
  ++ concat (imap (target_index_diff source generated) target).

Definition diff_indexes (source target : list IndexInfo.t) : list IndexDiff := diff_indexes_with_options source target false.
