(* ===== verification/ForeignKeyCompare.v ===== *)
(** * ForeignKeyCompare: foreign keys of two tables ([schema_diff.rs],
      [group_foreign_keys], [normalize_mapped_foreign_key],
      [diff_foreign_keys_with_options]).

    A driver reports one row per column pair; rows with one name are one
    constraint, rows without a name stay apart.  Named constraints are compared by
    name, unnamed ones matched one to one with an equal one. *)

From stdpp Require Import gmap.
From S2P Require Import Prelude DbTypes WriteClass WriteUnlock SchemaTypes Kahn SchemaGraph SchemaGraphTheorems DiffOrder SchemaNames ViewDdl ColumnCompare ColumnCompareFacts ObjectCompare.

(** ** Grouping *)

Definition add_pair (row : ForeignKeyInfo.t) (fk : SchemaForeignKeyInfo.t) : SchemaForeignKeyInfo.t :=
  SchemaForeignKeyInfo.mk (SchemaForeignKeyInfo.info fk)
    (SchemaForeignKeyInfo.column_pairs fk ++ [(ForeignKeyInfo.column row, ForeignKeyInfo.ref_column row)]).

(** [constraints] and [positions]. *)
Definition group_step (st : list SchemaForeignKeyInfo.t * gmap text nat) (row : ForeignKeyInfo.t)
    : list SchemaForeignKeyInfo.t * gmap text nat :=
  if is_empty (ForeignKeyInfo.name row) then (st.1 ++ [SchemaForeignKeyInfo.from_info row], st.2)
  else
    match st.2 !! ForeignKeyInfo.name row with
    | Some position => (alter (add_pair row) position st.1, st.2)
    | None =>
        (st.1 ++ [add_pair row (SchemaForeignKeyInfo.from_info row)],
         <[ForeignKeyInfo.name row := length st.1]> st.2)
    end.

(** The last loop: the scalar fields list the columns. *)
Definition display (fk : SchemaForeignKeyInfo.t) : SchemaForeignKeyInfo.t :=
  let info := SchemaForeignKeyInfo.info fk in
  let column := join %", " (SchemaForeignKeyInfo.columns fk) in
  let with_column :=
    SchemaForeignKeyInfo.mk
      (ForeignKeyInfo.mk (ForeignKeyInfo.name info) column (ForeignKeyInfo.ref_schema info) (ForeignKeyInfo.ref_table info)
         (ForeignKeyInfo.ref_column info) (ForeignKeyInfo.on_update info) (ForeignKeyInfo.on_delete info))
      (SchemaForeignKeyInfo.column_pairs fk) in
  let ref_column := join %", " (SchemaForeignKeyInfo.ref_columns with_column) in
  SchemaForeignKeyInfo.mk
    (ForeignKeyInfo.mk (ForeignKeyInfo.name info) column (ForeignKeyInfo.ref_schema info) (ForeignKeyInfo.ref_table info)
       ref_column (ForeignKeyInfo.on_update info) (ForeignKeyInfo.on_delete info))
    (SchemaForeignKeyInfo.column_pairs fk).

Definition group_foreign_keys (rows : list ForeignKeyInfo.t) : list SchemaForeignKeyInfo.t :=
  map display (fst (foldl group_step ([], ∅) rows)).

(** ** Normalisation *)

(** [action.split_whitespace().join(" ").to_ascii_uppercase()], [None] when empty. *)
Definition normalized_foreign_key_action (action : option text) : option text :=
  value ← action;
  let up := upper (join [space] (split_whitespace value)) in
  if is_empty up then None else Some up.

Definition comparable_foreign_key_action (action : option text) (mysql_actions : bool) : option text :=
  let normalized := normalized_foreign_key_action action in
  if negb mysql_actions then normalized
  else
    match normalized with
    | None => Some %"NO ACTION"
    | Some a => if text_in a [%"RESTRICT"; %"NO ACTION"] then Some %"NO ACTION" else Some a
    end.

Definition set_reference (fk : ForeignKeyInfo.t) (ref_schema : option text) (ref_table : text) : ForeignKeyInfo.t :=
  ForeignKeyInfo.mk (ForeignKeyInfo.name fk) (ForeignKeyInfo.column fk) ref_schema ref_table (ForeignKeyInfo.ref_column fk)
    (ForeignKeyInfo.on_update fk) (ForeignKeyInfo.on_delete fk).

Definition normalize_self_referencing_fk (fk : ForeignKeyInfo.t) (own_table_names : list text) (ignore_table_name_case : bool)
    : ForeignKeyInfo.t :=
  if bool_decide (is_Some (ForeignKeyInfo.ref_schema fk))
     && existsb (fun table_name => identifiers_equal table_name (ForeignKeyInfo.ref_table fk) ignore_table_name_case) own_table_names
  then set_reference fk None (ForeignKeyInfo.ref_table fk)
  else fk.

Definition mapped_target (ref_table : text) (target_table_names : list text) (table_pairs : list (text * text))
    (mappings : list SchemaDiffTableMapping.t) (ignore_table_name_case : bool) : option text :=
  match List.find (fun m => text_eqb (SchemaDiffTableMapping.source_table m) ref_table
                            && text_in (SchemaDiffTableMapping.target_table m) target_table_names) mappings with
  | Some m => Some (SchemaDiffTableMapping.target_table m)
  | None => snd <$> List.find (fun p => identifiers_equal p.1 ref_table ignore_table_name_case) table_pairs
  end.

Definition normalize_mapped_foreign_key (fk : ForeignKeyInfo.t) (source_table_names target_table_names : list text)
    (table_pairs : list (text * text)) (mappings : list SchemaDiffTableMapping.t) (ignore_table_name_case : bool) : ForeignKeyInfo.t :=
  let normalized := normalize_self_referencing_fk fk source_table_names ignore_table_name_case in
  match mapped_target (ForeignKeyInfo.ref_table normalized) target_table_names table_pairs mappings ignore_table_name_case with
  | Some target => set_reference normalized None target
  | None => normalized
  end.

(** ** Comparison *)

Record fk_options : Set := mk_fk_options {
  ignore_table_case : bool; ignore_column_case : bool; mysql_actions : bool
}.

Definition fk_info (fk : SchemaForeignKeyInfo.t) : ForeignKeyInfo.t := SchemaForeignKeyInfo.info fk.
Definition fk_name (fk : SchemaForeignKeyInfo.t) : text := ForeignKeyInfo.name (fk_info fk).

Definition foreign_key_changes (o : fk_options) (s t : SchemaForeignKeyInfo.t) : list text :=
  let source_on_delete := comparable_foreign_key_action (ForeignKeyInfo.on_delete (fk_info s)) (mysql_actions o) in
  let target_on_delete := comparable_foreign_key_action (ForeignKeyInfo.on_delete (fk_info t)) (mysql_actions o) in
  let source_on_update := comparable_foreign_key_action (ForeignKeyInfo.on_update (fk_info s)) (mysql_actions o) in
  let target_on_update := comparable_foreign_key_action (ForeignKeyInfo.on_update (fk_info t)) (mysql_actions o) in
  change (negb (identifier_lists_equal (SchemaForeignKeyInfo.columns s) (SchemaForeignKeyInfo.columns t) (ignore_column_case o)))
    %"column" (ForeignKeyInfo.column (fk_info t)) (ForeignKeyInfo.column (fk_info s))
  ++ change (negb (identifiers_equal (ForeignKeyInfo.ref_table (fk_info s)) (ForeignKeyInfo.ref_table (fk_info t)) (ignore_table_case o)))
       %"ref table" (ForeignKeyInfo.ref_table (fk_info t)) (ForeignKeyInfo.ref_table (fk_info s))
  ++ change (negb (bool_decide (ForeignKeyInfo.ref_schema (fk_info s) = ForeignKeyInfo.ref_schema (fk_info t))))
       %"ref schema" (or_default (ForeignKeyInfo.ref_schema (fk_info t))) (or_default (ForeignKeyInfo.ref_schema (fk_info s)))
  ++ change (negb (identifier_lists_equal (SchemaForeignKeyInfo.ref_columns s) (SchemaForeignKeyInfo.ref_columns t) (ignore_column_case o)))
       %"ref column" (ForeignKeyInfo.ref_column (fk_info t)) (ForeignKeyInfo.ref_column (fk_info s))
  ++ change (negb (bool_decide (source_on_delete = target_on_delete))) %"delete" (or_default target_on_delete) (or_default source_on_delete)
  ++ change (negb (bool_decide (source_on_update = target_on_update))) %"update" (or_default target_on_update) (or_default source_on_update).

(** The target constraint a source constraint is compared with. *)
Definition fk_target_index (o : fk_options) (target : list SchemaForeignKeyInfo.t) (matched : list bool) (s : SchemaForeignKeyInfo.t)
    : option nat :=
  if is_empty (fk_name s) then
    head (List.filter (fun index =>
            match target !! index with
            | None => false
            | Some t => negb (flag_at matched index) && is_empty (fk_name t) && is_empty (foreign_key_changes o s t)
            end) (seq 0 (length target)))
  else
    collect_map (omap (fun e => if is_empty (fk_name e.2) then None else Some (fk_name e.2, e.1)) (imap pair target)) !! fk_name s.

(** The diffs so far and [matched]. *)
Definition fk_step (o : fk_options) (target : list SchemaForeignKeyInfo.t) (st : list ForeignKeyDiff * list bool) (s : SchemaForeignKeyInfo.t)
    : list ForeignKeyDiff * list bool :=
  match fk_target_index o target st.2 s with
  | None => (st.1 ++ [ObjectDiff.mk %"added" (fk_name s) (Some s) None []], st.2)
  | Some index =>
      let matched := <[index := true]> st.2 in
      match target !! index with
      | None => (st.1, matched)
      | Some t =>
          match foreign_key_changes o s t with
          | [] => (st.1, matched)
          | changes => (st.1 ++ [ObjectDiff.mk %"modified" (fk_name s) (Some s) (Some t) changes], matched)
          end
      end
  end.

Definition fk_removed (matched : list bool) (index : nat) (t : SchemaForeignKeyInfo.t) : list ForeignKeyDiff :=
  if flag_at matched index then [] else [ObjectDiff.mk %"removed" (fk_name t) None (Some t) []].

Definition diff_foreign_keys_with_options (o : fk_options) (source target : list ForeignKeyInfo.t) : list ForeignKeyDiff :=
  let source := group_foreign_keys source in
  let target := group_foreign_keys target in
  let st := foldl (fk_step o target) ([], replicate (length target) false) source in
  st.1 ++ concat (imap (fk_removed st.2) target).

Definition diff_foreign_keys (source target : list ForeignKeyInfo.t) : list ForeignKeyDiff :=
  diff_foreign_keys_with_options (mk_fk_options false false false) source target.

(** * grouping rows and comparing equal constraints. *)

Lemma identifiers_equal_refl s ic : identifiers_equal s s ic = true.
Proof. destruct ic; [apply eq_ignore_ascii_case_refl|apply text_eqb_refl]. Qed.

Lemma identifier_lists_equal_refl l ic : identifier_lists_equal l l ic = true.
Proof. induction l as [|x l IH]; [done|]. cbn. by rewrite identifiers_equal_refl. Qed.

(** ** Grouping *)

(** The position table is exact: a name is at the position of the only constraint with it. *)
Definition grouped (st : list SchemaForeignKeyInfo.t * gmap text nat) : Prop :=
  forall name i, name <> [] -> st.2 !! name = Some i <-> exists fk, st.1 !! i = Some fk /\ fk_name fk = name.

Lemma group_step_grouped st row : grouped st -> grouped (group_step st row).
Proof.
  intros Hg. unfold group_step. destruct (is_empty (ForeignKeyInfo.name row)) eqn:He.
  - apply is_empty_nil in He. intros name i Hne. cbn [fst snd]. rewrite (Hg name i Hne). split.
    + intros (fk & Hfk & Hn). exists fk. split; [|done]. by apply lookup_app_l_Some.
    + intros (fk & [Hfk|[_ Hfk]]%lookup_app_Some & Hn); [eauto|].
      apply list_lookup_singleton_Some in Hfk as [_ <-]. unfold fk_name in Hn. cbn in Hn. congruence.
  - assert (Hrow : ForeignKeyInfo.name row <> []) by (intros Hn; by rewrite Hn in He).
    destruct (st.2 !! ForeignKeyInfo.name row) as [p|] eqn:Hp; intros name i Hne; cbn [fst snd].
    + rewrite (Hg name i Hne). destruct (decide (i = p)) as [->|Hip]; [|by rewrite list_lookup_alter_ne by congruence].
      rewrite list_lookup_alter_eq. split.
      * intros (fk & Hfk & Hn). rewrite Hfk. eexists. split; [done|]. done.
      * intros (fk & (fk0 & -> & Hfk)%fmap_Some & Hn). exists fk0. by subst.
    + destruct (decide (name = ForeignKeyInfo.name row)) as [->|Hnn].
      * rewrite lookup_insert_eq. split.
        -- intros [= <-]. eexists. split; [by apply list_lookup_middle|]. done.
        -- intros (fk & [Hfk|[Hle Hfk]]%lookup_app_Some & Hn).
           ++ assert (Hs : st.2 !! ForeignKeyInfo.name row = Some i) by (apply Hg; eauto). congruence.
           ++ apply list_lookup_singleton_Some in Hfk as [Hi _]. f_equal. lia.
      * rewrite lookup_insert_ne, (Hg name i Hne) by done. split.
        -- intros (fk & Hfk & Hn). exists fk. split; [|done]. by apply lookup_app_l_Some.
        -- intros (fk & [Hfk|[_ Hfk]]%lookup_app_Some & Hn); [eauto|].
           apply list_lookup_singleton_Some in Hfk as [_ <-]. unfold fk_name in Hn. cbn in Hn. congruence.
Qed.

Lemma group_fold_grouped rows : grouped (foldl group_step ([], ∅) rows).
Proof.
  apply foldl_invariant; [intros st row _; apply group_step_grouped|].
  intros name i _. cbn. rewrite lookup_empty. split; [done|]. by intros (fk & ? & _).
Qed.

Lemma fk_name_display fk : fk_name (display fk) = fk_name fk.
Proof. done. Qed.

(** A name occurs at most once among the grouped constraints. *)
Lemma group_names_unique rows i j a b :
  group_foreign_keys rows !! i = Some a -> group_foreign_keys rows !! j = Some b ->
  fk_name a = fk_name b -> fk_name a <> [] -> i = j.
Proof.
  unfold group_foreign_keys. change (map display ?l) with (display <$> l). rewrite !list_lookup_fmap.
  intros (a' & Ha & ->)%fmap_Some (b' & Hb & ->)%fmap_Some. rewrite !fk_name_display. intros Heq Hne.
  assert (H1 : (foldl group_step ([], ∅) rows).2 !! fk_name a' = Some i) by (apply group_fold_grouped; eauto).
  assert (H2 : (foldl group_step ([], ∅) rows).2 !! fk_name a' = Some j) by (apply group_fold_grouped; eauto). congruence.
Qed.

(** ** Similar rows *)

(** Rows that differ at most in the spelling of the referenced table. *)
Record row_similar (ic : bool) (a b : ForeignKeyInfo.t) : Prop := {
  sim_name : ForeignKeyInfo.name a = ForeignKeyInfo.name b;
  sim_column : ForeignKeyInfo.column a = ForeignKeyInfo.column b;
  sim_schema : ForeignKeyInfo.ref_schema a = ForeignKeyInfo.ref_schema b;
  sim_ref_column : ForeignKeyInfo.ref_column a = ForeignKeyInfo.ref_column b;
  sim_update : ForeignKeyInfo.on_update a = ForeignKeyInfo.on_update b;
  sim_delete : ForeignKeyInfo.on_delete a = ForeignKeyInfo.on_delete b;
  sim_table : identifiers_equal (ForeignKeyInfo.ref_table a) (ForeignKeyInfo.ref_table b) ic = true
}.

Definition fk_similar (ic : bool) (a b : SchemaForeignKeyInfo.t) : Prop :=
  row_similar ic (fk_info a) (fk_info b) /\ SchemaForeignKeyInfo.column_pairs a = SchemaForeignKeyInfo.column_pairs b.

Lemma from_info_similar ic a b : row_similar ic a b -> fk_similar ic (SchemaForeignKeyInfo.from_info a) (SchemaForeignKeyInfo.from_info b).
Proof. done. Qed.

Lemma add_pair_similar ic ra rb a b : row_similar ic ra rb -> fk_similar ic a b -> fk_similar ic (add_pair ra a) (add_pair rb b).
Proof.
  intros Hr [Hi Hp]. split; [done|]. cbn. by rewrite Hp, (sim_column _ _ _ Hr), (sim_ref_column _ _ _ Hr).
Qed.

Lemma columns_similar ic a b :
  fk_similar ic a b -> SchemaForeignKeyInfo.columns a = SchemaForeignKeyInfo.columns b
    /\ SchemaForeignKeyInfo.ref_columns a = SchemaForeignKeyInfo.ref_columns b.
Proof.
  intros [Hi Hp]. unfold SchemaForeignKeyInfo.columns, SchemaForeignKeyInfo.ref_columns.
  destruct Hi. unfold fk_info in *. rewrite Hp. split; case_match; congruence.
Qed.

Lemma display_similar ic a b : fk_similar ic a b -> fk_similar ic (display a) (display b).
Proof.
  intros Hs. destruct (columns_similar _ _ _ Hs) as [Hc Hrc]. destruct Hs as [Hi Hp]. destruct Hi. unfold fk_info in *. split; [|done].
  split; cbn; try done; [by rewrite Hc|].
  unfold SchemaForeignKeyInfo.ref_columns in *. cbn. rewrite Hp in *. by f_equal.
Qed.

Lemma group_step_similar ic st st' ra rb :
  Forall2 (fk_similar ic) st.1 st'.1 -> st.2 = st'.2 -> row_similar ic ra rb ->
  Forall2 (fk_similar ic) (group_step st ra).1 (group_step st' rb).1 /\ (group_step st ra).2 = (group_step st' rb).2.
Proof.
  intros Hf Hp Hr. unfold group_step. rewrite (sim_name _ _ _ Hr), Hp, (Forall2_length _ _ _ Hf).
  destruct (is_empty _); [split; [apply Forall2_app; [done|]; by constructor|done]|].
  destruct (st'.2 !! _) as [p|]; cbn; split; try done.
  - apply Forall2_alter; [done|]. intros a b _ _ Hs. by apply add_pair_similar.
  - apply Forall2_app; [done|]. constructor; [|constructor]. by apply add_pair_similar.
Qed.

Lemma group_similar ic rows rows' :
  Forall2 (row_similar ic) rows rows' -> Forall2 (fk_similar ic) (group_foreign_keys rows) (group_foreign_keys rows').
Proof.
  intros Hr. apply Forall2_fmap.
  assert (Hgen : forall st st', Forall2 (fk_similar ic) st.1 st'.1 -> st.2 = st'.2 ->
            Forall2 (fk_similar ic) (foldl group_step st rows).1 (foldl group_step st' rows').1).
  { induction Hr as [|a b rows rows' Hab Hr IH]; intros st st' Hf Hp; [done|]. cbn.
    destruct (group_step_similar _ _ _ _ _ Hf Hp Hab). by apply IH. }
  eapply Forall2_impl; [apply Hgen; [constructor|done]|]. intros a b. apply display_similar.
Qed.

Lemma foreign_key_changes_similar o a b : fk_similar (ignore_table_case o) a b -> foreign_key_changes o a b = [].
Proof.
  intros Hs. destruct (columns_similar _ _ _ Hs) as [Hc Hrc]. destruct Hs as [[] Hp]. unfold foreign_key_changes.
  rewrite Hc, Hrc, sim_table0, sim_schema0, sim_update0, sim_delete0, !identifier_lists_equal_refl, !bool_decide_true by done. done.
Qed.

(** ** Similar lists have no difference *)

Section Same.

Context (o : fk_options) (source target : list SchemaForeignKeyInfo.t).
Hypothesis Hsim : Forall2 (fk_similar (ignore_table_case o)) source target.
Hypothesis Huniq : forall i j a b, target !! i = Some a -> target !! j = Some b -> fk_name a = fk_name b -> fk_name a <> [] -> i = j.

Definition matched_prefix (k : nat) : list bool := map (fun i => i <? k) (seq 0 (length target)).

Lemma flag_at_prefix k i : i < length target -> flag_at (matched_prefix k) i = (i <? k).
Proof. intros Hi. unfold flag_at, matched_prefix. by rewrite seq_map_lookup, decide_True by done. Qed.

Lemma similar_target_index k s : source !! k = Some s -> fk_target_index o target (matched_prefix k) s = Some k.
Proof.
  intros Hs. destruct (Forall2_lookup_l _ _ _ _ _ Hsim Hs) as (t & Ht & Hst).
  assert (Hname : fk_name s = fk_name t) by (by destruct Hst as [[] _]).
  unfold fk_target_index. destruct (is_empty (fk_name s)) eqn:He.
  - set (test := fun index => _).
    assert (Hk : k ∈ List.filter test (seq 0 (length target))).
    { apply list_filter_elem. rewrite elem_of_seq. split; [apply lookup_lt_Some in Ht; lia|]. unfold test. rewrite Ht.
      rewrite flag_at_prefix by (by apply lookup_lt_Some in Ht). rewrite Nat.ltb_irrefl, <- Hname, He, foreign_key_changes_similar by done. done. }
    assert (Hge : forall j, j ∈ List.filter test (seq 0 (length target)) -> k <= j).
    { intros j [Hj%elem_of_seq Htest]%list_filter_elem. unfold test in Htest. destruct (target !! j) as [t'|]; [|done].
      rewrite flag_at_prefix in Htest by lia.
      destruct (Nat.ltb_spec j k); [done|lia]. }
    apply head_ascending; [apply StronglySorted_filter_bool, seq_ascending|done..].
  - assert (Hne : fk_name t <> []) by (rewrite <- Hname; intros Hn; by rewrite Hn in He).
    set (entries := omap _ _).
    assert (Hent : forall n i, (n, i) ∈ entries <-> exists fk, target !! i = Some fk /\ fk_name fk = n /\ n <> []).
    { intros n i. unfold entries. rewrite list_elem_of_omap. split.
      - intros ([j fk] & (j' & fk' & [= -> ->] & Hfk)%elem_of_lookup_imap & Heq). cbn in Heq.
        destruct (is_empty (fk_name fk')) eqn:Hnil; [done|]. injection Heq as <- <-. exists fk'. split_and!; [done..|].
        intros Hn. by rewrite Hn in Hnil.
      - intros (fk & Hfk & <- & Hn). exists (i, fk). split; [apply elem_of_lookup_imap; eauto|]. cbn.
        destruct (is_empty (fk_name fk)) eqn:Hnil; [by apply is_empty_nil in Hnil|done]. }
    destruct (collect_map_is_Some entries (fk_name s) k) as [j Hj]; [apply Hent; exists t; rewrite Hname; done|].
    rewrite Hj. f_equal. apply collect_map_elem, Hent in Hj as (fk & Hfk & Hn & _).
    eapply Huniq; [exact Hfk|exact Ht|congruence|congruence].
Qed.

Lemma fk_fold_same k :
  k <= length source -> foldl (fk_step o target) ([], replicate (length target) false) (take k source) = ([], matched_prefix k).
Proof.
  induction k as [|k IH]; intros Hk.
  - change (take 0 source) with (@nil SchemaForeignKeyInfo.t). cbn [foldl]. f_equal. apply list_eq. intros i. unfold matched_prefix. rewrite seq_map_lookup.
    case_decide; [by apply lookup_replicate_2|]. apply lookup_replicate_None. lia.
  - destruct (lookup_lt_is_Some_2 source k) as [s Hs]; [lia|].
    rewrite (take_S_r _ _ _ Hs), foldl_app, IH by lia. cbn [foldl]. unfold fk_step. cbn [fst snd].
    rewrite (similar_target_index k s Hs). destruct (Forall2_lookup_l _ _ _ _ _ Hsim Hs) as (t & Ht & Hst).
    rewrite Ht, foreign_key_changes_similar by done. f_equal. apply lookup_lt_Some in Ht.
    unfold matched_prefix. rewrite <- (seq_map_insert (fun i => i <? k) (fun i => i <? S k) _ k Ht).
    + f_equal. symmetry. apply Nat.ltb_lt. lia.
    + intros i Hi. destruct (Nat.ltb_spec i k), (Nat.ltb_spec i (S k)); lia || done.
Qed.

Lemma fk_diff_same :
  let st := foldl (fk_step o target) ([], replicate (length target) false) source in
  st.1 ++ concat (imap (fk_removed st.2) target) = [].
Proof.
  pose proof (fk_fold_same (length source) (le_n _)) as Hf. rewrite take_ge in Hf by done. rewrite Hf. cbn.
  apply concat_imap_nil. intros i t Ht. apply lookup_lt_Some in Ht. unfold fk_removed.
  rewrite flag_at_prefix, (Forall2_length _ _ _ Hsim) by done.
  destruct (Nat.ltb_spec i (length target)); [done|lia].
Qed.

End Same.

Lemma diff_foreign_keys_similar o rows rows' :
  Forall2 (row_similar (ignore_table_case o)) rows rows' -> diff_foreign_keys_with_options o rows rows' = [].
Proof.
  intros Hr. apply fk_diff_same; [by apply group_similar|]. intros i j a b. apply group_names_unique.
Qed.
