(* ===== verification/ObjectCompareFacts.v ===== *)
(** * ObjectCompareFacts: what the differences of keyed objects, indexes and
      permissions amount to. *)

From stdpp Require Import gmap.
From S2P Require Import Prelude DbTypes WriteClass WriteUnlock SchemaTypes Kahn SchemaGraph SchemaGraphTheorems SchemaNames DiffOrder ViewDdl ColumnCompare ColumnCompareFacts ObjectCompare ForeignKeyCompare.

Lemma bind_nil {A B} (f : A -> list B) (l : list A) : (forall x, x ∈ l -> f x = []) -> l ≫= f = [].
Proof.
  induction l as [|x l IH]; intros Hf; [done|]. cbn. rewrite Hf by left. apply IH. intros y Hy. apply Hf. by right.
Qed.

(** ** Keyed objects *)

Section Keyed.

Context {Info : Type} `{Countable K} (key : Info -> K) (object_name : Info -> text) (object_changes : Info -> Info -> list text).

Lemma by_key_nodup (l : list Info) x : NoDup (map key l) -> x ∈ l -> by_key key l !! key x = Some x.
Proof.
  intros Hnd Hx. apply collect_map_nodup.
  - change (map (fun x => (key x, x)) l) with ((fun x => (key x, x)) <$> l). by rewrite <- list_fmap_compose.
  - apply list_elem_of_fmap. eauto.
Qed.

Lemma by_key_elem (l : list Info) k x : by_key key l !! k = Some x -> x ∈ l /\ key x = k.
Proof. intros (y & [= -> ->] & Hy)%collect_map_elem%list_elem_of_fmap. done. Qed.

Lemma by_key_None (l : list Info) k : by_key key l !! k = None <-> forall x, x ∈ l -> key x <> k.
Proof.
  split.
  - intros Hn x Hx <-. destruct (collect_map_is_Some (map (fun x => (key x, x)) l) (key x) x) as [y Hy].
    + apply list_elem_of_fmap. eauto.
    + unfold by_key in Hn. congruence.
  - intros Hn. destruct (by_key key l !! k) as [x|] eqn:Hk; [|done]. by apply by_key_elem in Hk as [? ?%Hn].
Qed.

Lemma keyed_diff_refl (l : list Info) :
  (forall x, object_changes x x = []) -> NoDup (map key l) -> keyed_diff key object_name object_changes l l = [].
Proof.
  intros Hrefl Hnd. unfold keyed_diff. rewrite !bind_nil; [done| |]; intros x Hx;
    unfold keyed_source, keyed_target; rewrite (by_key_nodup l x Hnd Hx); [done|]. by rewrite Hrefl.
Qed.

End Keyed.

(** ** What a difference asks for *)

Section Script.

Context {Info : Type} `{Countable K} (key : Info -> K) (object_name : Info -> text).

(** The objects of a database, by key. *)
Definition store (objects : list Info) : gmap K Info := list_to_map (map (fun x => (key x, x)) objects).

Lemma by_key_store (l : list Info) : NoDup (map key l) -> by_key key l = store l.
Proof.
  intros Hnd. apply map_eq. intros k. unfold store.
  assert (Hfst : (map (fun x => (key x, x)) l).*1 = map key l) by (induction l as [ | x l' IH]; [done | cbn; f_equal; apply IH; by apply NoDup_cons in Hnd as []]).
  destruct (by_key key l !! k) as [x | ] eqn:Hk; symmetry.
  - apply by_key_elem in Hk as [Hx <-]. apply elem_of_list_to_map_1; [by rewrite Hfst | ]. apply list_elem_of_fmap. eauto.
  - apply not_elem_of_list_to_map_1. rewrite by_key_None in Hk. rewrite Hfst. by intros (x & -> & Hx%Hk)%list_elem_of_fmap.
Qed.

(** What a difference asks of the target, by its label, as the script generators read it: create the object of the source
    where there is none of its key, drop the named object, or drop it and create the object of the source.  [None]: the
    statement fails. *)
Definition obey (m : gmap K Info) (d : ObjectDiff.t Info) : option (gmap K Info) :=
  let named x := text_eqb (ObjectDiff.name d) (object_name x) in
  let exists_in x := match m !! key x with Some _ => true | None => false end in
  let label := ObjectDiff.diff_type d in
  if text_eqb label %"added" then
    match ObjectDiff.source d with
    | Some s => if named s && negb (exists_in s) then Some (<[key s := s]> m) else None
    | None => Some m
    end
  else if text_eqb label %"removed" then
    match ObjectDiff.target d with
    | Some t => if named t && exists_in t then Some (delete (key t) m) else None
    | None => None
    end
  else if text_eqb label %"modified" then
    match ObjectDiff.source d with
    | Some s => if named s && exists_in s then Some (<[key s := s]> m) else None
    | None => Some m
    end
  else Some m.

Fixpoint obey_all (m : gmap K Info) (ds : list (ObjectDiff.t Info)) : option (gmap K Info) :=
  match ds with
  | [] => Some m
  | d :: ds => m ← obey m d; obey_all m ds
  end.

(** The key a difference is about. *)
Definition diff_key (d : ObjectDiff.t Info) : option K :=
  key <$> match ObjectDiff.source d with Some s => Some s | None => ObjectDiff.target d end.

(** The label of a difference says which sides it has. *)
Inductive labelled : ObjectDiff.t Info -> Prop :=
| labelled_added s changes : labelled (ObjectDiff.mk %"added" (object_name s) (Some s) None changes)
| labelled_removed t changes : labelled (ObjectDiff.mk %"removed" (object_name t) None (Some t) changes)
| labelled_modified s t changes :
    key s = key t -> object_name s = object_name t -> labelled (ObjectDiff.mk %"modified" (object_name s) (Some s) (Some t) changes).

Lemma labelled_key d : labelled d -> is_Some (diff_key d).
Proof. intros []; eauto. Qed.

Lemma obey_labelled m d k :
  labelled d -> diff_key d = Some k -> ObjectDiff.target d = m !! k ->
  exists m', obey m d = Some m' /\ m' !! k = ObjectDiff.source d /\ forall k', k' <> k -> m' !! k' = m !! k'.
Proof.
  intros Hd Hk Ht. destruct Hd as [s c | t c | s t c Hkey Hname]; cbn in Hk, Ht; injection Hk as <-; unfold obey; cbn -[lookup];
    rewrite text_eqb_refl, <- Ht; cbn; eexists; (split; [done | ]); split.
  - apply lookup_insert_eq.
  - intros k' Hk'. by apply lookup_insert_ne.
  - apply lookup_delete_eq.
  - intros k' Hk'. by apply lookup_delete_ne.
  - apply lookup_insert_eq.
  - intros k' Hk'. by apply lookup_insert_ne.
Qed.

(** Labelled differences about distinct keys, each with what the target has. *)
Definition records (m : gmap K Info) (ds : list (ObjectDiff.t Info)) : Prop :=
  NoDup (omap diff_key ds) /\ Forall labelled ds /\ forall d k, d ∈ ds -> diff_key d = Some k -> ObjectDiff.target d = m !! k.

(** They can all be obeyed; then the target has what the source has under their keys, and what it had elsewhere. *)
Lemma obey_all_spec ds : forall m, records m ds ->
  exists m', obey_all m ds = Some m' /\ (forall k, k ∉ omap diff_key ds -> m' !! k = m !! k)
    /\ forall d k, d ∈ ds -> diff_key d = Some k -> m' !! k = ObjectDiff.source d.
Proof.
  induction ds as [ | x ds IH]; intros m (Hnd & Hlab & Hrec); [exists m; split_and!; [done | done | by intros d k ?%not_elem_of_nil] | ].
  apply Forall_cons in Hlab as [Hx Hlab]. destruct (labelled_key x Hx) as [kx Hkx]. cbn in Hnd. rewrite Hkx in Hnd.
  apply NoDup_cons in Hnd as [Hnot Hnd].
  destruct (obey_labelled m x kx Hx Hkx) as (m1 & Hobey & Hat & Helse); [apply Hrec; [left | done] | ].
  assert (Hother : forall d k, d ∈ ds -> diff_key d = Some k -> k <> kx).
  { intros d k Hd Hk ->. apply Hnot, list_elem_of_omap. eauto. }
  destruct (IH m1) as (m' & Hall & Hout & Hin).
  { split_and!; [done | done | ]. intros d k Hd Hk. rewrite Helse by by eapply Hother. apply Hrec; [by right | done]. }
  exists m'. cbn [obey_all]. rewrite Hobey. split_and!; [done | | ].
  - intros k Hk. cbn in Hk. rewrite Hkx in Hk. apply not_elem_of_cons in Hk as [Hne Hk]. rewrite Hout by done. by apply Helse.
  - intros d k [-> | Hd]%elem_of_cons Hk; [ | by apply Hin]. assert (k = kx) as -> by congruence. by rewrite Hout.
Qed.

(** At most one difference per element, about its key. *)
Lemma about_sublist f l :
  (forall i x, x ∈ l -> f i x = [] \/ exists d, f i x = [d] /\ diff_key d = Some (key x)) ->
  omap diff_key (concat (imap f l)) `sublist_of` map key l.
Proof.
  revert f. induction l as [ | x l IH]; intros f Hf; [done | ]. rewrite imap_cons. cbn [concat map]. rewrite omap_app.
  destruct (Hf 0 x) as [-> | (d & -> & Hd)]; [left | | ]; cbn.
  - apply sublist_cons, IH. intros i y Hy. apply (Hf (S i)). by right.
  - rewrite Hd. cbn. apply sublist_skip, IH. intros i y Hy. apply (Hf (S i)). by right.
Qed.

Section Passes.

Context (source target : list Info) (f g : nat -> Info -> list (ObjectDiff.t Info)).
Context (Hns : NoDup (map key source)) (Hnt : NoDup (map key target)).
Context (Hf : forall i s, s ∈ source ->
  f i s = [] \/ exists d, f i s = [d] /\ labelled d /\ ObjectDiff.source d = Some s /\ ObjectDiff.target d = by_key key target !! key s).
Context (Hg : forall i t, t ∈ target ->
  g i t = []
  \/ exists d, g i t = [d] /\ labelled d /\ ObjectDiff.source d = None /\ ObjectDiff.target d = Some t /\ by_key key source !! key t = None).

Lemma first_pass d : d ∈ concat (imap f source) ->
  exists s, s ∈ source /\ labelled d /\ ObjectDiff.source d = Some s /\ ObjectDiff.target d = by_key key target !! key s.
Proof.
  intros (l & Hd & (i & s & -> & Hs%list_elem_of_lookup_2)%elem_of_lookup_imap)%elem_of_concat. exists s. split; [done | ].
  destruct (Hf i s Hs) as [Heq | (e & Heq & He)]; rewrite Heq in Hd; [by apply not_elem_of_nil in Hd | ]. by apply list_elem_of_singleton in Hd as ->.
Qed.

Lemma second_pass d : d ∈ concat (imap g target) ->
  exists t, t ∈ target /\ labelled d /\ ObjectDiff.source d = None /\ ObjectDiff.target d = Some t /\ by_key key source !! key t = None.
Proof.
  intros (l & Hd & (i & t & -> & Ht%list_elem_of_lookup_2)%elem_of_lookup_imap)%elem_of_concat. exists t. split; [done | ].
  destruct (Hg i t Ht) as [Heq | (e & Heq & He)]; rewrite Heq in Hd; [by apply not_elem_of_nil in Hd | ]. by apply list_elem_of_singleton in Hd as ->.
Qed.

(** Two passes, over the source and over the target: the second reports only keys the source does not have. *)
Lemma two_passes_record : records (by_key key target) (concat (imap f source) ++ concat (imap g target)).
Proof.
  split_and!.
  - rewrite omap_app. apply NoDup_app. split_and!.
    + eapply sublist_NoDup; [ | apply about_sublist]; [done | ]. intros i s Hs.
      destruct (Hf i s Hs) as [-> | (d & -> & _ & Hsrc & _)]; [by left | right]. exists d. unfold diff_key. by rewrite Hsrc.
    + intros k (d & (s & Hs & _ & Hds & _)%first_pass & Hk)%list_elem_of_omap (e & (t & _ & _ & Hes & Het & Hnone)%second_pass & Hk')%list_elem_of_omap.
      unfold diff_key in Hk, Hk'. rewrite Hds in Hk. rewrite Hes, Het in Hk'. cbn in Hk, Hk'.
      rewrite by_key_None in Hnone. apply (Hnone s Hs). congruence.
    + eapply sublist_NoDup; [ | apply about_sublist]; [done | ]. intros i t Ht.
      destruct (Hg i t Ht) as [-> | (d & -> & _ & Hsrc & Htgt & _)]; [by left | right]. exists d. unfold diff_key. by rewrite Hsrc, Htgt.
  - apply Forall_forall. intros d [(? & _ & ? & _)%first_pass | (? & _ & ? & _)%second_pass]%elem_of_app; done.
  - intros d k Hd Hk. unfold diff_key in Hk.
    apply elem_of_app in Hd as [(s & Hs & _ & Hsrc & Htgt)%first_pass | (t & Ht & _ & Hsrc & Htgt & _)%second_pass];
      rewrite Hsrc, ?Htgt in *; cbn in Hk; injection Hk as <-; [done | ]. symmetry. by apply by_key_nodup.
Qed.

End Passes.

Lemma bind_imap {A B} (h : A -> list B) (l : list A) : l ≫= h = concat (imap (fun _ => h) l).
Proof. induction l as [ | x l IH]; [done | ]. rewrite imap_cons. cbn [concat]. cbn. by rewrite IH. Qed.

Context (object_changes : Info -> Info -> list text).
Context (Hkeyed : forall s t, key s = key t -> object_name s = object_name t).

Lemma keyed_diff_records (source target : list Info) :
  NoDup (map key source) -> NoDup (map key target) ->
  records (by_key key target) (keyed_diff key object_name object_changes source target).
Proof.
  intros Hs Ht. unfold keyed_diff. rewrite !bind_imap. apply two_passes_record; [done | done | | ].
  - intros _ s _. unfold keyed_source. destruct (by_key key target !! key s) as [t | ] eqn:Hk.
    + apply by_key_elem in Hk as [_ Hk]. destruct (object_changes s t); [by left | right]. eexists. split_and!; [done | | done | done].
      apply labelled_modified; [done | by apply Hkeyed].
    + right. eexists. split_and!; [done | apply labelled_added | done | done].
  - intros _ t _. unfold keyed_target. destruct (by_key key source !! key t); [by left | right].
    eexists. split_and!; [done | apply labelled_removed | done | done | done].
Qed.

(** Both sides have an object, and the two are the same, or neither has one. *)
Definition same_on (same : Info -> Info -> Prop) (s t : option Info) : Prop :=
  match s, t with
  | Some s, Some t => same s t
  | None, None => True
  | _, _ => False
  end.

Section Patch.

Context (source target : list Info) (Hs : NoDup (map key source)) (Ht : NoDup (map key target)).
Notation ds := (keyed_diff key object_name object_changes source target).

Lemma keyed_source_elem s d : d ∈ keyed_source key object_name object_changes target s -> ObjectDiff.source d = Some s.
Proof.
  unfold keyed_source. destruct (by_key key target !! key s) as [t | ]; [destruct (object_changes s t) | ];
    first [by intros ?%not_elem_of_nil | by intros ->%list_elem_of_singleton].
Qed.

Lemma keyed_target_elem t d : d ∈ keyed_target key object_name source t ->
  ObjectDiff.source d = None /\ ObjectDiff.target d = Some t /\ by_key key source !! key t = None.
Proof.
  unfold keyed_target. destruct (by_key key source !! key t); [by intros ?%not_elem_of_nil | by intros ->%list_elem_of_singleton].
Qed.

(** A key no difference is about: the sides have the same there. *)
Lemma unreported_key k :
  k ∉ omap diff_key ds ->
  match by_key key source !! k, by_key key target !! k with
  | Some s, Some t => object_changes s t = []
  | None, None => True
  | _, _ => False
  end.
Proof.
  intros Hno. assert (Hnone : forall d, d ∈ ds -> diff_key d <> Some k) by (intros d Hd Hk; apply Hno, list_elem_of_omap; eauto).
  destruct (by_key key source !! k) as [s | ] eqn:Hks.
  - apply by_key_elem in Hks as [Hin <-].
    destruct (keyed_source key object_name object_changes target s) as [ | d l] eqn:Hd.
    + unfold keyed_source in Hd. destruct (by_key key target !! key s) as [t | ]; [by destruct (object_changes s t) | done].
    + destruct (Hnone d); [ | unfold diff_key; rewrite (keyed_source_elem s d); [done | rewrite Hd; left]].
      apply elem_of_app. left. apply list_elem_of_bind. exists s. rewrite Hd. split; [left | done].
  - destruct (by_key key target !! k) as [t | ] eqn:Hkt; [ | done]. apply by_key_elem in Hkt as [Hin <-].
    destruct (Hnone (ObjectDiff.mk %"removed" (object_name t) None (Some t) [])); [ | done].
    apply elem_of_app. right. apply list_elem_of_bind. exists t. split; [ | done]. unfold keyed_target. rewrite Hks. left.
Qed.

(** A difference carries the object of the source. *)
Lemma reported_source d k : d ∈ ds -> diff_key d = Some k -> ObjectDiff.source d = by_key key source !! k.
Proof.
  unfold diff_key.
  intros [(s & Hsrc%keyed_source_elem & Hin)%list_elem_of_bind | (t & (Hsrc & Htgt & Hnone)%keyed_target_elem & _)%list_elem_of_bind]%elem_of_app;
    rewrite Hsrc, ?Htgt; cbn; intros [= <-]; [by rewrite by_key_nodup | done].
Qed.

(** Obeying the differences turns the target's objects into the source's. *)
Lemma keyed_diff_patches (same : Info -> Info -> Prop) :
  (forall x, same x x) -> (forall s t, object_changes s t = [] -> key s = key t -> same s t) ->
  exists m, obey_all (store target) ds = Some m /\ forall k, same_on same (store source !! k) (m !! k).
Proof.
  intros Hrefl Hsame. rewrite <- !by_key_store by done.
  destruct (obey_all_spec ds _ (keyed_diff_records source target Hs Ht)) as (m & Hm & Hout & Hin). exists m. split; [done | ]. intros k.
  destruct (decide (k ∈ omap diff_key ds)) as [(d & Hd & Hk)%list_elem_of_omap | Hk].
  - rewrite (Hin d k), (reported_source d k) by done. destruct (by_key key source !! k); [apply Hrefl | done].
  - rewrite Hout by done. pose proof (unreported_key k Hk) as Hsides.
    destruct (by_key key source !! k) as [s | ] eqn:Hks, (by_key key target !! k) as [t | ] eqn:Hkt; try done.
    apply by_key_elem in Hks as [_ <-], Hkt as [_ Hkt]. by apply Hsame.
Qed.

End Patch.

End Script.

(** ** The kinds of objects *)

Lemma change_nil b label from to : change b label from to = [] <-> b = false.
Proof. by destruct b. Qed.

Lemma differs_false a b : differs a b = false <-> a = b.
Proof. unfold differs. by rewrite negb_false_iff, text_eqb_eq. Qed.

(** Two triggers fire on the same event at the same time. *)
Definition same_trigger (s t : TriggerInfo.t) : Prop :=
  TriggerInfo.name s = TriggerInfo.name t /\ TriggerInfo.event s = TriggerInfo.event t /\ TriggerInfo.timing s = TriggerInfo.timing t.

Lemma trigger_changes_nil s t :
  trigger_changes s t = [] <-> TriggerInfo.event s = TriggerInfo.event t /\ TriggerInfo.timing s = TriggerInfo.timing t.
Proof. unfold trigger_changes. by rewrite !app_nil, !change_nil, !differs_false. Qed.

(** The words of a definition, line by line. *)
Definition words_by_line (definition : text) : list (list text) :=
  map split_whitespace (split_at (N.eqb nl) (replace [cr; nl] [nl] definition)).

(** A word: not empty, no blank in it. *)
Definition is_word (w : text) : bool := negb (is_empty w) && forallb (fun c => negb (is_whitespace c)) w.

Lemma split_whitespace_from_word w s cur :
  forallb (fun c => negb (is_whitespace c)) w = true -> split_whitespace_from cur (w ++ s) = split_whitespace_from (rev w ++ cur) s.
Proof.
  revert cur. induction w as [ | c w IH]; intros cur Hw; [done | ]. cbn [forallb app split_whitespace_from rev] in *.
  apply andb_true_iff in Hw as [Hc%negb_true_iff Hw]. rewrite Hc, IH by done. by rewrite <- app_assoc.
Qed.

Lemma split_whitespace_words s : forall cur,
  forallb (fun c => negb (is_whitespace c)) cur = true -> forallb is_word (split_whitespace_from cur s) = true.
Proof.
  assert (Hrev : forall cur, forallb (fun c => negb (is_whitespace c)) cur = true -> is_empty cur = false -> is_word (rev cur) = true).
  { intros cur Hcur Hne. unfold is_word. rewrite forallb_forall in Hcur. apply andb_true_iff. split.
    - destruct cur; [done | ]. cbn. by destruct (rev cur).
    - apply forallb_forall. intros c Hc%in_rev. auto. }
  induction s as [ | c s IH]; intros cur Hcur; cbn [split_whitespace_from].
  - destruct (is_empty cur) eqn:Hne; [done | ]. cbn. by rewrite Hrev.
  - destruct (is_whitespace c) eqn:Hc; [ | apply IH; cbn; by rewrite Hc].
    destruct (is_empty cur) eqn:Hne; [by apply IH | ]. cbn. by rewrite Hrev, IH.
Qed.

(** The words of words joined by blanks are those words. *)
Lemma split_join_words ws : forallb is_word ws = true -> split_whitespace (join [space] ws) = ws.
Proof.
  unfold split_whitespace. induction ws as [ | w ws IH]; intros Hws; [done | ]. cbn [forallb] in Hws. apply andb_true_iff in Hws as [Hw Hws].
  unfold is_word in Hw. apply andb_true_iff in Hw as [Hne Hw].
  assert (Hcur : is_empty (rev w ++ []) = false) by (rewrite app_nil_r; destruct w as [ | c w]; [done | cbn; by destruct (rev w)]).
  destruct ws as [ | w' ws].
  - cbn [join]. rewrite <- (app_nil_r w) at 1. rewrite split_whitespace_from_word by done. cbn [split_whitespace_from]. rewrite Hcur.
    by rewrite app_nil_r, rev_involutive.
  - rewrite join_cons, split_whitespace_from_word by done. cbn [app split_whitespace_from]. change (is_whitespace space) with true. cbn iota.
    rewrite Hcur, app_nil_r, rev_involutive. f_equal. by apply IH.
Qed.

Lemma split_join_lines ls :
  ls <> [] -> Forall (fun l => forallb (fun c => negb (nl =? c)%N) l = true) ls -> split_at (N.eqb nl) (join [nl] ls) = ls.
Proof.
  intros Hne Hls. induction Hls as [ | l ls Hl Hls IH]; [done | ]. destruct ls as [ | l' ls]; [by apply split_at_none | ].
  rewrite join_cons. cbn [app]. rewrite split_at_first by done. f_equal. by apply IH.
Qed.

Lemma joined_words_one_line ws : forallb is_word ws = true -> forallb (fun c => negb (nl =? c)%N) (join [space] ws) = true.
Proof.
  assert (Hword : forall w, is_word w = true -> forallb (fun c => negb (nl =? c)%N) w = true).
  { intros w [_ Hw]%andb_true_iff. rewrite forallb_forall in Hw |- *. intros c Hc%Hw. destruct (N.eqb_spec nl c) as [<- | ]; done. }
  induction ws as [ | w ws IH]; [done | ]. cbn [forallb]. intros [Hw Hws]%andb_true_iff. destruct ws as [ | w' ws]; [by apply Hword | ].
  rewrite join_cons, !forallb_app, (Hword w Hw), IH by done. done.
Qed.

Lemma split_at_nonempty p s : split_at p s <> [].
Proof. destruct s as [ | c s]; cbn; [done | ]. destruct (p c); [done | ]. by destruct (split_at p s). Qed.

(** Normalised definitions agree exactly when the words of their lines do. *)
Lemma normalize_words a b : normalize_definition a = normalize_definition b <-> words_by_line a = words_by_line b.
Proof.
  assert (Hshape : forall def, normalize_definition def = join [nl] (map (join [space]) (words_by_line def))).
  { intros def. unfold normalize_definition, words_by_line. by rewrite map_map. }
  assert (Hread : forall def, map split_whitespace (split_at (N.eqb nl) (normalize_definition def)) = words_by_line def).
  { intros def. assert (Hwords : Forall (fun ws => forallb is_word ws = true) (words_by_line def)).
    { unfold words_by_line. apply Forall_map, Forall_true. intros line. by apply split_whitespace_words. }
    rewrite Hshape, split_join_lines.
    - rewrite map_map. rewrite <- (map_id (words_by_line def)) at 2. apply map_ext_in. intros ws Hws. apply split_join_words.
      rewrite Forall_forall in Hwords. by apply Hwords, list_elem_of_In.
    - unfold words_by_line. pose proof (split_at_nonempty (N.eqb nl) (replace [cr; nl] [nl] def)). by destruct (split_at _ _).
    - apply Forall_map. eapply Forall_impl; [exact Hwords | ]. intros ws. apply joined_words_one_line. }
  split; [ | intros Heq; by rewrite !Hshape, Heq]. intros Heq. by rewrite <- !Hread, Heq.
Qed.

(** Two routines of one signature are of one kind, return one type and have the same words on every line. *)
Definition same_function (s t : FunctionInfo.t) : Prop :=
  function_key s = function_key t /\ FunctionInfo.function_type s = FunctionInfo.function_type t
  /\ FunctionInfo.data_type s = FunctionInfo.data_type t
  /\ words_by_line (FunctionInfo.definition s) = words_by_line (FunctionInfo.definition t).

Lemma function_changes_nil s t :
  function_changes s t = []
  <-> FunctionInfo.function_type s = FunctionInfo.function_type t /\ FunctionInfo.data_type s = FunctionInfo.data_type t
      /\ words_by_line (FunctionInfo.definition s) = words_by_line (FunctionInfo.definition t).
Proof.
  unfold function_changes. rewrite !app_nil, !change_nil, !differs_false, <- normalize_words, <- (differs_false (normalize_definition _)).
  destruct (differs (normalize_definition _) _); naive_solver.
Qed.

(** Two sequences count alike; the current values agree when both are known. *)
Definition same_sequence (s t : SequenceInfo.t) : Prop :=
  SequenceInfo.name s = SequenceInfo.name t /\ SequenceInfo.data_type s = SequenceInfo.data_type t
  /\ SequenceInfo.start_value s = SequenceInfo.start_value t /\ SequenceInfo.min_value s = SequenceInfo.min_value t
  /\ SequenceInfo.max_value s = SequenceInfo.max_value t /\ SequenceInfo.increment s = SequenceInfo.increment t
  /\ SequenceInfo.cycle s = SequenceInfo.cycle t
  /\ forall a b, SequenceInfo.last_value s = Some a -> SequenceInfo.last_value t = Some b -> a = b.

Lemma sequence_changes_nil s t : sequence_changes s t = [] -> SequenceInfo.name s = SequenceInfo.name t -> same_sequence s t.
Proof.
  unfold sequence_changes, same_sequence. rewrite !app_nil, !change_nil, !differs_false, negb_false_iff, eqb_true_iff.
  intros (? & ? & ? & ? & ? & ? & Hlast) ?. split_and!; [done.. | ]. intros a b Ha Hb. rewrite Ha, Hb, change_nil, differs_false in Hlast. done.
Qed.

(** Two rules have one definition. *)
Definition same_rule (s t : RuleInfo.t) : Prop := RuleInfo.name s = RuleInfo.name t /\ RuleInfo.definition s = RuleInfo.definition t.

Lemma rule_changes_nil s t : rule_changes s t = [] <-> RuleInfo.definition s = RuleInfo.definition t.
Proof. unfold rule_changes. rewrite <- differs_false. by destruct (differs _ _). Qed.

Lemma trigger_changes_refl x : trigger_changes x x = [].
Proof. by apply trigger_changes_nil. Qed.

Lemma function_changes_refl x : function_changes x x = [].
Proof. by apply function_changes_nil. Qed.

Lemma sequence_changes_refl x : sequence_changes x x = [].
Proof. unfold sequence_changes. rewrite !differs_refl, eqb_reflx. cbn. destruct (SequenceInfo.last_value x); by rewrite ?differs_refl. Qed.

Lemma rule_changes_refl x : rule_changes x x = [].
Proof. by apply rule_changes_nil. Qed.

Definition of_function_diff (d : FunctionDiff.t) : ObjectDiff.t FunctionInfo.t :=
  ObjectDiff.mk (FunctionDiff.diff_type d) (FunctionDiff.name d) (FunctionDiff.source d) (FunctionDiff.target d) (FunctionDiff.changes d).

Lemma of_function_diffs source target :
  map of_function_diff (diff_functions source target) = keyed_diff function_key FunctionInfo.name function_changes source target.
Proof.
  unfold diff_functions. rewrite map_map. rewrite <- (map_id (keyed_diff _ _ _ _ _)) at 2. apply map_ext. by intros [].
Qed.

Definition of_permission_diff (d : PermissionDiff.t) : ObjectDiff.t PermissionInfo.t :=
  ObjectDiff.mk (PermissionDiff.diff_type d) (PermissionDiff.privilege d) (PermissionDiff.source d) (PermissionDiff.target d) [].

Lemma map_bind {A B C} (g : B -> C) (f : A -> list B) (l : list A) : map g (l ≫= f) = l ≫= fun x => map g (f x).
Proof. induction l as [|x l IH]; [done|]. cbn. by rewrite map_app, IH. Qed.

Lemma of_permission_diffs source target :
  map of_permission_diff (diff_permissions source target)
  = keyed_diff permission_key PermissionInfo.privilege (fun _ _ => []) source target.
Proof.
  unfold diff_permissions, keyed_diff. rewrite map_app, !map_bind. f_equal; apply list_bind_ext; try done; intros x;
    unfold keyed_source, keyed_target; by destruct (by_key _ _ !! _).
Qed.

(** C27: the reported differences say how to make the target's objects the source's.  Following them in order by their
    labels ([obey]: an added object is created where there is none of its key, a removed one dropped, a modified one
    dropped and created) never fails, for triggers, routines, sequences, rules and permissions with distinct keys on each
    side; then under every key the target has an object if and only if the source has one, and the two agree: triggers in
    event and timing, routines in kind, return type and the words of every line, sequences in every number, in type and
    cycle, rules in definition; of the permissions the same grantee, object and privilege triples are left. *)
Theorem object_diffs_patch_the_target :
  (forall s t, NoDup (map TriggerInfo.name s) -> NoDup (map TriggerInfo.name t) ->
     exists m, obey_all TriggerInfo.name TriggerInfo.name (store TriggerInfo.name t) (diff_triggers s t) = Some m
       /\ forall k, same_on same_trigger (store TriggerInfo.name s !! k) (m !! k))
  /\ (forall s t, NoDup (map function_key s) -> NoDup (map function_key t) ->
     exists m, obey_all function_key FunctionInfo.name (store function_key t) (map of_function_diff (diff_functions s t)) = Some m
       /\ forall k, same_on same_function (store function_key s !! k) (m !! k))
  /\ (forall s t, NoDup (map SequenceInfo.name s) -> NoDup (map SequenceInfo.name t) ->
     exists m, obey_all SequenceInfo.name SequenceInfo.name (store SequenceInfo.name t) (diff_sequences s t) = Some m
       /\ forall k, same_on same_sequence (store SequenceInfo.name s !! k) (m !! k))
  /\ (forall s t, NoDup (map RuleInfo.name s) -> NoDup (map RuleInfo.name t) ->
     exists m, obey_all RuleInfo.name RuleInfo.name (store RuleInfo.name t) (diff_rules s t) = Some m
       /\ forall k, same_on same_rule (store RuleInfo.name s !! k) (m !! k))
  /\ (forall s t, NoDup (map permission_key s) -> NoDup (map permission_key t) ->
     exists m,
       obey_all permission_key PermissionInfo.privilege (store permission_key t) (map of_permission_diff (diff_permissions s t)) = Some m
       /\ dom m = list_to_set (map permission_key s)).
Proof.
  split_and!; intros s t Hs Ht.
  - apply keyed_diff_patches; [done | done | done | done | ]. intros x y []%trigger_changes_nil ?. done.
  - rewrite of_function_diffs. apply keyed_diff_patches; [by intros ? ? [=] | done | done | done | ].
    intros x y (? & ? & ?)%function_changes_nil ?. done.
  - apply keyed_diff_patches; [done | done | done | | by apply sequence_changes_nil]. intros x. by apply sequence_changes_nil; [apply sequence_changes_refl | ].
  - apply keyed_diff_patches; [done | done | done | done | ]. intros x y ?%rule_changes_nil ?. done.
  - rewrite of_permission_diffs.
    destruct (keyed_diff_patches permission_key PermissionInfo.privilege (fun _ _ => []) (fun s t Hk => f_equal snd Hk) s t Hs Ht (fun _ _ => True))
      as (m & Hm & Hsame); [done | done | ]. exists m. split; [done | ].
    apply set_eq. intros k. rewrite elem_of_dom, elem_of_list_to_set. specialize (Hsame k). rewrite <- (by_key_store _ _ Hs) in Hsame.
    rewrite <- not_eq_None_Some. destruct (by_key permission_key s !! k) as [x | ] eqn:Hk.
    + apply by_key_elem in Hk as [Hx <-]. split; [intros _; apply list_elem_of_fmap; eauto | ]. by destruct (m !! _).
    + rewrite by_key_None in Hk. split; [by destruct (m !! k) | ]. by intros (x & -> & Hx%Hk)%list_elem_of_fmap.
Qed.

Definition audit_trigger (event : text) (body : option text) : TriggerInfo.t :=
  TriggerInfo.mk %"audit" event %"AFTER" None None None None None None None body.

Definition named_trigger (name event : text) : TriggerInfo.t :=
  TriggerInfo.mk name event %"AFTER" None None None None None None None None.

(** One trigger changed, one new, one gone. *)
Definition new_triggers : list TriggerInfo.t := [named_trigger %"audit" %"UPDATE"; named_trigger %"fresh" %"INSERT"].
Definition old_triggers : list TriggerInfo.t := [named_trigger %"stale" %"DELETE"; named_trigger %"audit" %"INSERT"].

Lemma new_triggers_distinct : NoDup (map TriggerInfo.name new_triggers).
Proof. apply NoDup_cons. split; [by intros ?%list_elem_of_singleton | apply NoDup_singleton]. Qed.

Lemma old_triggers_distinct : NoDup (map TriggerInfo.name old_triggers).
Proof. apply NoDup_cons. split; [by intros ?%list_elem_of_singleton | apply NoDup_singleton]. Qed.

Lemma object_diffs_witness :
  map ObjectDiff.diff_type (diff_triggers new_triggers old_triggers) = [%"modified"; %"added"; %"removed"]
  /\ exists m, obey_all TriggerInfo.name TriggerInfo.name (store TriggerInfo.name old_triggers) (diff_triggers new_triggers old_triggers) = Some m
    /\ forall k, same_on same_trigger (store TriggerInfo.name new_triggers !! k) (m !! k).
Proof.
  split; [vm_compute; reflexivity | ]. destruct object_diffs_patch_the_target as [Ht _].
  exact (Ht new_triggers old_triggers new_triggers_distinct old_triggers_distinct).
Defined.

(** Two triggers with different bodies count as equal. *)
Example trigger_bodies_are_not_compared :
  diff_triggers [audit_trigger %"INSERT" (Some %"INSERT INTO log VALUES (1)")]
    [audit_trigger %"INSERT" (Some %"DELETE FROM log")] = [].
Proof. vm_compute. reflexivity. Qed.

(** ** Indexes *)

Lemma index_columns_equal_refl i ic : index_columns_equal i i ic = true.
Proof.
  unfold index_columns_equal. rewrite Nat.eqb_refl. cbn [andb]. apply forallb_forall. intros b Hb%list_elem_of_In.
  apply elem_of_lookup_imap in Hb as (k & c & -> & Hc). rewrite Hc. cbn [default from_option].
  destruct (_ || _); [apply text_eqb_refl|apply identifiers_equal_refl].
Qed.

Lemma index_changes_refl ic i : index_changes ic i i = [].
Proof.
  unfold index_changes. by rewrite eqb_reflx, index_columns_equal_refl, !differs_refl, identifier_lists_equal_refl, bool_decide_true by done.
Qed.

Lemma diff_indexes_refl ic l : NoDup (map IndexInfo.name l) -> diff_indexes_with_options l l ic = [].
Proof.
  intros Hnd. unfold diff_indexes_with_options. rewrite !concat_imap_nil; [done| |]; intros p i Hi%list_elem_of_lookup_2.
  - unfold target_index_diff. rewrite (by_key_nodup _ _ _ Hnd Hi). by destruct (_ || _).
  - unfold source_index_diff. rewrite (by_key_nodup _ _ _ Hnd Hi), index_changes_refl. by destruct (IndexInfo.is_primary i).
Qed.
