(* ===== verification/SchemaCompare.v ===== *)
(** * SchemaCompare: comparing two schemas ([schema_diff.rs], [diff_schema],
      [shard_diff]; [dbx-sql-dialect/descriptor.rs], [DialectKind]).

    Tables and views are paired by [resolve_schema_diff_table_names]; unpaired ones
    are added or removed, paired tables compared part by part, paired views by
    their normalised definitions.  The dialect label of a database comes from the
    manifest the build generates and is a parameter ([ManifestDialects]). *)

From stdpp Require Import gmap.
From S2P Require Import Prelude DbTypes WriteClass WriteUnlock SchemaTypes Kahn SchemaGraph SchemaGraphTheorems DiffOrder SchemaNames ViewDdl ColumnCompare ColumnCompareFacts ObjectCompare ForeignKeyCompare ObjectCompareFacts.

(** ** Dialects *)

(** [database_manifest::dialect_name]. *)
Class ManifestDialects := { dialect_name : DatabaseType -> option text }.

Definition dialect_from_label (label : text) : option DialectKind :=
  let l := lower label in
  if text_in l [%"mysql"; %"doris"; %"starrocks"; %"goldendb"; %"sundb"; %"databend"; %"gbase"] then Some DMysql
  else if text_in l [%"postgresql"; %"postgres"; %"gaussdb"; %"kwdb"; %"opengauss"; %"highgo"; %"vastbase"; %"kingbase";
                     %"firebird"; %"redshift"; %"vertica"; %"exasol"] then Some DPostgres
  else if text_in l [%"sqlite"; %"rqlite"; %"turso"] then Some DSqlite
  else if text_in l [%"duckdb"] then Some DDuckDb
  else if text_in l [%"sqlserver"; %"sql_server"; %"mssql"; %"sql server"; %"access"] then Some DSqlServer
  else if text_in l [%"oracle"; %"dameng"; %"oceanbaseoracle"; %"oceanbase"; %"iris"; %"yashandb"; %"xugu"] then Some DOracle
  else if text_in l [%"h2"] then Some DH2
  else if text_in l [%"clickhouse"] then Some DClickHouse
  else if text_in l [%"manticoresearch"] then Some DManticoreSearch
  else if text_in l [%"informix"] then Some DInformix
  else if text_in l [%"questdb"] then Some DQuestdb
  else if text_in l [%"soql"; %"salesforce"] then Some DSoql
  else None.

Definition dialect_label (d : DialectKind) : text :=
  match d with
  | DMysql => %"mysql" | DPostgres => %"postgres" | DSqlite => %"sqlite" | DDuckDb => %"duckdb"
  | DSqlServer => %"sqlserver" | DOracle => %"oracle" | DH2 => %"h2" | DClickHouse => %"clickhouse"
  | DManticoreSearch => %"manticoresearch" | DInformix => %"informix" | DQuestdb => %"questdb" | DSoql => %"soql"
  | DUnsupported => %"unsupported"
  end.

Definition dialect_from_database_type `{ManifestDialects} (db : DatabaseType) : DialectKind :=
  default DUnsupported (dialect_name db ≫= dialect_from_label).

(** ** Options *)

(** The fields of [SchemaDiffPreparationOptions] the comparison of tables reads. *)
Module Options.
Record t : Set := mk {
  source_tables : list TableInfo.t; target_tables : list TableInfo.t;
  source_details : list TableSchemaDetail.t; target_details : list TableSchemaDetail.t;
  database_type : DatabaseType; ignore_comments : bool; compare_column_order : bool; compare_charset : bool;
  ignore_table_name_case : bool; ignore_column_name_case : bool; detect_renames : bool; rename_threshold : F64.t;
  source_dialect : option DialectKind; target_dialect : option DialectKind;
  table_mappings : list SchemaDiffTableMapping.t
}.
End Options.

Section Compare.

Context `{ManifestDialects}.

(** Both dialects of a comparison are MySQL's. *)
Definition mysql_foreign_key_actions (o : Options.t) : bool :=
  let target_dialect := default (dialect_from_database_type (Options.database_type o)) (Options.target_dialect o) in
  let source_dialect := default target_dialect (Options.source_dialect o) in
  bool_decide (source_dialect = DMysql) && bool_decide (target_dialect = DMysql).

Definition compare_mysql_column_charset (o : Options.t) : bool :=
  if negb (Options.compare_charset o)
     || negb (bool_decide (Options.database_type o = Mysql) || bool_decide (Options.database_type o = Goldendb))
  then false else mysql_foreign_key_actions o.

Definition names_of (view : bool) (tables : list TableInfo.t) : list text :=
  map TableInfo.name (List.filter (fun t => Bool.eqb (is_view t) view) tables).

Definition details_by_name (details : list TableSchemaDetail.t) : gmap text TableSchemaDetail.t :=
  by_key TableSchemaDetail.name details.

Definition comments_by_name (tables : list TableInfo.t) : gmap text (option text) :=
  collect_map (map (fun t => (TableInfo.name t, TableInfo.comment t)) tables).

Definition table_resolution (o : Options.t) : SchemaDiffTableNameResolution :=
  resolve_schema_diff_table_names (names_of false (Options.source_tables o)) (names_of false (Options.target_tables o))
    (Options.table_mappings o) (Options.ignore_table_name_case o).

Definition view_resolution (o : Options.t) : SchemaDiffTableNameResolution :=
  resolve_schema_diff_table_names (names_of true (Options.source_tables o)) (names_of true (Options.target_tables o))
    (Options.table_mappings o) (Options.ignore_table_name_case o).

(** The columns, indexes and triggers of a table that exists on one side only. *)
Definition one_sided_columns (kind : text) (mk : ColumnInfo.t -> option ColumnInfo.t * option ColumnInfo.t) (columns : list ColumnInfo.t)
    : list ColumnDiff.t :=
  imap (fun index c => ColumnDiff.mk kind (ColumnInfo.name c) (mk c).1 (mk c).2 [] (Some (column_add_position columns index))) columns.

Definition one_sided {Info} (kind : text) (name : Info -> text) (mk : Info -> option Info * option Info) (objects : list Info)
    : list (ObjectDiff.t Info) :=
  map (fun x => ObjectDiff.mk kind (name x) (mk x).1 (mk x).2 []) objects.

Definition on_source {A} (x : A) : option A * option A := (Some x, None).
Definition on_target {A} (x : A) : option A * option A := (None, Some x).

Definition normalize_source_fks (o : Options.t) (fks : list ForeignKeyInfo.t) : list ForeignKeyInfo.t :=
  map (fun fk => normalize_mapped_foreign_key fk (names_of false (Options.source_tables o)) (names_of false (Options.target_tables o))
                   (pairs (table_resolution o)) (Options.table_mappings o) (Options.ignore_table_name_case o)) fks.

Definition normalize_target_fks (o : Options.t) (fks : list ForeignKeyInfo.t) : list ForeignKeyInfo.t :=
  map (fun fk => normalize_self_referencing_fk fk (names_of false (Options.target_tables o)) (Options.ignore_table_name_case o)) fks.

Definition added_table (o : Options.t) (name : text) : TableDiff.t :=
  let detail := details_by_name (Options.source_details o) !! name in
  TableDiff.mk %"added" (Some %"table") name None
    ((fun d => one_sided_columns %"added" on_source (TableSchemaDetail.columns d)) <$> detail)
    ((fun d => one_sided %"added" IndexInfo.name on_source (TableSchemaDetail.indexes d)) <$> detail)
    ((fun d => diff_foreign_keys (normalize_source_fks o (TableSchemaDetail.foreign_keys d)) []) <$> detail)
    (detail ≫= fun d => if is_empty (TableSchemaDetail.triggers d) then None
                        else Some (one_sided %"added" TriggerInfo.name on_source (TableSchemaDetail.triggers d)))
    (detail ≫= TableSchemaDetail.ddl) None None None None.

Definition removed_table (o : Options.t) (name : text) : TableDiff.t :=
  let detail := details_by_name (Options.target_details o) !! name in
  TableDiff.mk %"removed" (Some %"table") name None
    ((fun d => one_sided_columns %"removed" on_target (TableSchemaDetail.columns d)) <$> detail)
    ((fun d => one_sided %"removed" IndexInfo.name on_target (TableSchemaDetail.indexes d)) <$> detail)
    ((fun d => diff_foreign_keys [] (TableSchemaDetail.foreign_keys d)) <$> detail)
    ((fun d => one_sided %"removed" TriggerInfo.name on_target (TableSchemaDetail.triggers d)) <$> detail)
    None (detail ≫= TableSchemaDetail.ddl) None (comments_by_name (Options.target_tables o) !! name) None.

Definition view_diff (kind name : text) (target_name ddl target_ddl : option text) : TableDiff.t :=
  TableDiff.mk kind (Some %"view") name target_name None None None None ddl target_ddl None None None.

Definition added_view (o : Options.t) (name : text) : TableDiff.t :=
  view_diff %"added" name None (details_by_name (Options.source_details o) !! name ≫= TableSchemaDetail.ddl) None.

Definition removed_view (o : Options.t) (name : text) : TableDiff.t :=
  view_diff %"removed" name None None (details_by_name (Options.target_details o) !! name ≫= TableSchemaDetail.ddl).

(** [(name != target_name).then_some(target_name)]. *)
Definition mapped_name (name target_name : text) : option text := if text_eqb name target_name then None else Some target_name.

Definition paired_view (o : Options.t) (p : text * text) : list TableDiff.t :=
  match details_by_name (Options.source_details o) !! p.1 ≫= TableSchemaDetail.ddl,
        details_by_name (Options.target_details o) !! p.2 ≫= TableSchemaDetail.ddl with
  | Some source_ddl, Some target_ddl =>
      if view_definitions_differ source_ddl target_ddl (Options.source_dialect o) (Options.target_dialect o)
      then [view_diff %"modified" p.1 (mapped_name p.1 p.2) (Some source_ddl) (Some target_ddl)] else []
  | _, _ => []
  end.

Definition column_options_of (o : Options.t) : column_options :=
  mk_column_options (Options.ignore_comments o) (Options.compare_column_order o) (Options.detect_renames o) (Options.rename_threshold o)
    (Options.source_dialect o) (Options.target_dialect o) (Options.ignore_column_name_case o) (compare_mysql_column_charset o).

Definition fk_options_of (o : Options.t) : fk_options :=
  mk_fk_options (Options.ignore_table_name_case o) (Options.ignore_column_name_case o) (mysql_foreign_key_actions o).

Definition non_empty_list {A} (l : list A) : option (list A) := if is_empty l then None else Some l.

Definition paired_table (o : Options.t) (p : text * text) : list TableDiff.t :=
  match details_by_name (Options.source_details o) !! p.1, details_by_name (Options.target_details o) !! p.2 with
  | Some source, Some target =>
      let column_diffs :=
        diff_columns_with_identifier_options (column_options_of o) (TableSchemaDetail.columns source) (TableSchemaDetail.columns target) in
      let index_diffs :=
        diff_indexes_with_options (TableSchemaDetail.indexes source) (TableSchemaDetail.indexes target) (Options.ignore_column_name_case o) in
      let foreign_key_diffs :=
        diff_foreign_keys_with_options (fk_options_of o) (normalize_source_fks o (TableSchemaDetail.foreign_keys source))
          (normalize_target_fks o (TableSchemaDetail.foreign_keys target)) in
      let trigger_diffs := diff_triggers (TableSchemaDetail.triggers source) (TableSchemaDetail.triggers target) in
      let source_comment := default None (comments_by_name (Options.source_tables o) !! p.1) in
      let target_comment := default None (comments_by_name (Options.target_tables o) !! p.2) in
      let comment_changed := negb (Options.ignore_comments o) && differs (or_default source_comment) (or_default target_comment) in
      let has_diff :=
        negb (is_empty column_diffs) || negb (is_empty index_diffs) || negb (is_empty foreign_key_diffs)
        || negb (is_empty trigger_diffs) || comment_changed in
      [TableDiff.mk (if has_diff then %"modified" else %"none") (Some %"table") p.1 (mapped_name p.1 p.2)
         (if has_diff then non_empty_list column_diffs else None) (if has_diff then non_empty_list index_diffs else None)
         (if has_diff then non_empty_list foreign_key_diffs else None) (if has_diff then non_empty_list trigger_diffs else None)
         (TableSchemaDetail.ddl source) (TableSchemaDetail.ddl target)
         (if has_diff then (if comment_changed then Some source_comment else None) else None)
         (if has_diff then (if comment_changed then Some target_comment else None) else None) None]
  | _, _ => []
  end.

Definition is_difference (d : TableDiff.t) : bool := negb (text_eqb (TableDiff.diff_type d) %"none").

Definition diff_schema (o : Options.t) : list TableDiff.t :=
  List.filter is_difference
    (map (added_table o) (source_only (table_resolution o))
     ++ map (removed_table o) (target_only (table_resolution o))
     ++ map (added_view o) (source_only (view_resolution o))
     ++ map (removed_view o) (target_only (view_resolution o))
     ++ (pairs (view_resolution o) ≫= paired_view o)
     ++ (pairs (table_resolution o) ≫= paired_table o)).

End Compare.

(** * a schema does not differ from itself. *)

(** ** Foreign keys after normalisation *)

Lemma find_self_pair names ref ic p :
  List.find (fun p => identifiers_equal p.1 ref ic) (map (fun s : text => (s, s)) names) = Some p ->
  p.1 = p.2 /\ p.1 ∈ names /\ identifiers_equal p.1 ref ic = true.
Proof.
  intros [Hin He]%find_some. apply list_elem_of_In, list_elem_of_fmap in Hin as (s & -> & Hs). done.
Qed.

Lemma normalized_rows_similar fk names ic :
  row_similar ic (normalize_mapped_foreign_key fk names names (map (fun s => (s, s)) names) [] ic)
    (normalize_self_referencing_fk fk names ic).
Proof.
  unfold normalize_mapped_foreign_key, mapped_target. cbn [List.find].
  set (n := normalize_self_referencing_fk fk names ic).
  destruct (List.find _ _) as [p|] eqn:Hf; cbn [fmap option_fmap option_map]; [|split; try done; apply identifiers_equal_refl].
  apply find_self_pair in Hf as (Heq & Hin & He). rewrite <- Heq.
  split; try done; cbn.
  unfold n, normalize_self_referencing_fk. case_bool_decide as Hs; cbn [andb]; [|by destruct (ForeignKeyInfo.ref_schema fk); [destruct Hs|]].
  assert (Hex : existsb (fun t => identifiers_equal t (ForeignKeyInfo.ref_table fk) ic) names = true).
  { apply existsb_exists. exists p.1. split; [by apply list_elem_of_In|].
    unfold n, normalize_self_referencing_fk in He. by destruct (_ && _) in He. }
  by rewrite Hex.
Qed.

(** ** One table *)

Definition distinct_parts (d : TableSchemaDetail.t) : Prop :=
  NoDup (map IndexInfo.name (TableSchemaDetail.indexes d)) /\ NoDup (map TriggerInfo.name (TableSchemaDetail.triggers d)).

Section Same.

Context `{ManifestDialects} (o : Options.t).
Hypothesis Htables : Options.target_tables o = Options.source_tables o.
Hypothesis Hdetails : Options.target_details o = Options.source_details o.
Hypothesis Hmappings : Options.table_mappings o = [].
Hypothesis Hparts : Forall distinct_parts (Options.source_details o).

Lemma table_resolution_self :
  table_resolution o = mk_resolution (map (fun s => (s, s)) (names_of false (Options.source_tables o))) [] [].
Proof. unfold table_resolution. by rewrite Htables, Hmappings, resolve_self. Qed.

Lemma view_resolution_self :
  view_resolution o = mk_resolution (map (fun s => (s, s)) (names_of true (Options.source_tables o))) [] [].
Proof. unfold view_resolution. by rewrite Htables, Hmappings, resolve_self. Qed.

Lemma foreign_keys_same fks :
  diff_foreign_keys_with_options (fk_options_of o) (normalize_source_fks o fks) (normalize_target_fks o fks) = [].
Proof.
  apply diff_foreign_keys_similar. unfold normalize_source_fks, normalize_target_fks.
  rewrite table_resolution_self, Htables, Hmappings. cbn [pairs]. apply Forall2_fmap_l, Forall2_fmap_r, Forall2_same_length_lookup.
  split; [done|]. intros i x y Hx Hy. simplify_eq. apply normalized_rows_similar.
Qed.

Lemma paired_view_same n : paired_view o (n, n) = [].
Proof.
  unfold paired_view. rewrite Hdetails. cbn. destruct (_ ≫= _); [|done]. by rewrite view_definitions_differ_refl.
Qed.

Lemma paired_table_same n : List.filter is_difference (paired_table o (n, n)) = [].
Proof.
  unfold paired_table. rewrite Hdetails. cbn [fst snd].
  destruct (details_by_name (Options.source_details o) !! n) as [d|] eqn:Hd; [|done].
  apply by_key_elem in Hd as [Hd _]. rewrite Forall_forall in Hparts. destruct (Hparts d Hd) as [Hi Ht].
  rewrite diff_columns_refl, diff_indexes_refl, foreign_keys_same by done.
  unfold diff_triggers. rewrite keyed_diff_refl by (done || apply trigger_changes_refl).
  rewrite Htables, differs_refl, andb_false_r. done.
Qed.

Lemma filter_bind {A B} (p : B -> bool) (f : A -> list B) (l : list A) :
  List.filter p (l ≫= f) = l ≫= fun x => List.filter p (f x).
Proof. induction l as [|x l IH]; [done|]. cbn. by rewrite List.filter_app, IH. Qed.

Lemma diff_schema_self : diff_schema o = [].
Proof.
  unfold diff_schema. rewrite table_resolution_self, view_resolution_self. cbn [pairs source_only target_only map app].
  rewrite List.filter_app, !filter_bind, !bind_nil; [done| |]; intros p (n & -> & _)%list_elem_of_fmap.
  - apply paired_table_same.
  - by rewrite paired_view_same.
Qed.

End Same.

(** C25: comparing a schema with itself reports nothing: with the same tables and
    details on both sides and no mappings, under any combination of the options
    (case, comments, column order, charset, renames, dialects), [diff_schema]
    returns no difference, provided no table has two indexes or two triggers of
    one name. *)
Theorem same_schema_has_no_differences `{ManifestDialects} (o : Options.t) :
  Options.target_tables o = Options.source_tables o -> Options.target_details o = Options.source_details o ->
  Options.table_mappings o = [] -> Forall distinct_parts (Options.source_details o) -> diff_schema o = [].
Proof. apply diff_schema_self. Qed.

(** A table with a foreign key to itself in another spelling, an index and a
    trigger, and a view; compared in MySQL ignoring case. *)
Definition sample_dialects : ManifestDialects := {| dialect_name := fun _ => Some %"mysql" |}.

Definition sample_tables : list TableInfo.t :=
  [TableInfo.mk %"Users" %"TABLE" None (Some %"people") None None; TableInfo.mk %"v" %"VIEW" None None None None].

Definition sample_details : list TableSchemaDetail.t :=
  [TableSchemaDetail.mk %"Users" []
     [IndexInfo.mk None %"by_boss" [%"boss"] false false None None None None [] [] None true [] [] false]
     [ForeignKeyInfo.mk %"boss_fk" %"boss" (Some %"app") %"users" %"id" None (Some %"cascade")]
     [audit_trigger %"INSERT" None] None;
   TableSchemaDetail.mk %"v" [] [] [] [] (Some %"CREATE VIEW v AS SELECT 1")].

Definition sample_options (target : list TableSchemaDetail.t) : Options.t :=
  Options.mk sample_tables sample_tables sample_details target Mysql false true true true true true F64.lit_0_7 (Some DMysql) (Some DMysql) [].

Lemma same_schema_witness : @diff_schema sample_dialects (sample_options sample_details) = [].
Proof.
  apply (@same_schema_has_no_differences sample_dialects (sample_options sample_details)); try reflexivity.
  repeat constructor; apply not_elem_of_nil.
Defined.

(** The same comparison sees a dropped index. *)
Example dropped_index_is_seen :
  map (fun d => (TableDiff.diff_type d, TableDiff.name d, map ObjectDiff.diff_type <$> TableDiff.indexes d))
    (@diff_schema sample_dialects
       (sample_options (map (fun d => TableSchemaDetail.mk (TableSchemaDetail.name d) (TableSchemaDetail.columns d) []
                                        (TableSchemaDetail.foreign_keys d) (TableSchemaDetail.triggers d) (TableSchemaDetail.ddl d)) sample_details)))
  = [(%"modified", %"Users", Some [%"added"])].
Proof. vm_compute. reflexivity. Qed.
