(* ===== verification/Rollback.v ===== *)
(** * Rollback: undoing a schema change ([schema_diff.rs], [RollbackGraph]).

    Every forward difference is inverted: added objects are removed and the other
    way round, source and target change places, and a change description reads
    backwards.  [validate_consistency] then checks by name and kind that every
    forward difference has its rollback. *)

From stdpp Require Import gmap.
From S2P Require Import Prelude DbTypes WriteClass WriteUnlock SchemaTypes Kahn SchemaGraph SchemaGraphTheorems DiffOrder SchemaNames ViewDdl ColumnCompare ColumnCompareFacts ObjectCompare ForeignKeyCompare ObjectCompareFacts SchemaCompare.

Inductive DiffDirection : Set := Forward | RollbackDirection.

Module DiffNode.
Record t : Set := mk {
  table_diff : TableDiff.t; direction : DiffDirection; dependency_order : N;
  rename_source : option text; rename_target : option text; rename_score : option F64.t
}.
End DiffNode.

Module RollbackGraph.
Record t : Set := mk {
  forward_nodes : list DiffNode.t; rollback_nodes : list DiffNode.t; is_consistent : bool; consistency_issues : list text
}.
End RollbackGraph.

(** ** Inversion *)

Definition invert_diff_type (dt : text) : text :=
  if text_eqb dt %"added" then %"removed"
  else if text_eqb dt %"removed" then %"added"
  else if text_eqb dt %"renamed" then %"renamed"
  else %"modified".

(** [s.split_once(pattern)]. *)
Definition split_once_text (pattern s : text) : option (text * text) :=
  (fun i => (take i s, drop (i + length pattern) s)) <$> find_at pattern s.

Definition invert_change_string (ch : text) : text :=
  match split_once_text arrow ch with
  | None => ch
  | Some (before, after) =>
      match split_once_text %": " before with
      | Some (kind, value) => kind ++ %": " ++ after ++ arrow ++ value
      | None => after ++ arrow ++ before
      end
  end.

Definition invert_column (c : ColumnDiff.t) : ColumnDiff.t :=
  let inverted_name :=
    if text_eqb (ColumnDiff.diff_type c) %"renamed" then default (ColumnDiff.name c) (ColumnInfo.name <$> ColumnDiff.target c)
    else ColumnDiff.name c in
  ColumnDiff.mk (invert_diff_type (ColumnDiff.diff_type c)) inverted_name (ColumnDiff.target c) (ColumnDiff.source c)
    (map invert_change_string (ColumnDiff.changes c)) (ColumnDiff.add_position c).

Definition invert_columns (cols : list ColumnDiff.t) : list ColumnDiff.t := map invert_column cols.

(** The changes of an index, foreign key or trigger keep their direction. *)
Definition invert_object {Info} (d : ObjectDiff.t Info) : ObjectDiff.t Info :=
  ObjectDiff.mk (invert_diff_type (ObjectDiff.diff_type d)) (ObjectDiff.name d) (ObjectDiff.target d) (ObjectDiff.source d)
    (ObjectDiff.changes d).

Definition invert_indexes (idxs : list IndexDiff) : list IndexDiff := map invert_object idxs.
Definition invert_fks (fks : list ForeignKeyDiff) : list ForeignKeyDiff := map invert_object fks.
Definition invert_triggers (trgs : list TriggerDiff) : list TriggerDiff := map invert_object trgs.

Definition invert_diff (diff : TableDiff.t) : TableDiff.t :=
  let inverted_type := invert_diff_type (TableDiff.diff_type diff) in
  let comments :=
    if text_eqb inverted_type %"removed" then (TableDiff.source_table_comment diff, TableDiff.target_table_comment diff)
    else (TableDiff.target_table_comment diff, TableDiff.source_table_comment diff) in
  let recreates_removed_table :=
    text_eqb (TableDiff.diff_type diff) %"removed" && text_eqb inverted_type %"added"
    && bool_decide (TableDiff.object_type diff = Some %"table") in
  TableDiff.mk inverted_type (TableDiff.object_type diff) (TableDiff.name diff) (TableDiff.target_name diff)
    (invert_columns <$> TableDiff.columns diff) (invert_indexes <$> TableDiff.indexes diff)
    (invert_fks <$> TableDiff.foreign_keys diff) (invert_triggers <$> TableDiff.triggers diff)
    (if recreates_removed_table then None else TableDiff.target_ddl diff)
    (if recreates_removed_table then TableDiff.target_ddl diff else TableDiff.ddl diff)
    comments.1 comments.2 None.

(** ** The graph *)

(** [rename_map], [rename_reverse] and [order_map]. *)
Definition rename_map (renames : list RenameCandidate.t) : gmap text RenameCandidate.t :=
  collect_map (map (fun r => (RenameCandidate.target_name r, r)) renames).

Definition rename_reverse (renames : list RenameCandidate.t) : gmap text text :=
  collect_map (map (fun r => (RenameCandidate.source_name r, RenameCandidate.target_name r)) renames).

Definition order_map (order : list text) : gmap text nat := collect_map (imap (fun i name => (name, i)) order).

Definition rename_fields (renames : list RenameCandidate.t) (diff : TableDiff.t) : option text * option text * option F64.t :=
  if text_eqb (TableDiff.diff_type diff) %"added" then
    match rename_reverse renames !! TableDiff.name diff with
    | Some rc => (Some rc, Some (TableDiff.name diff), None)
    | None => (None, None, None)
    end
  else if text_eqb (TableDiff.diff_type diff) %"removed" then
    match rename_map renames !! TableDiff.name diff with
    | Some rc => (Some (TableDiff.name diff), Some (RenameCandidate.source_name rc), Some (RenameCandidate.score rc))
    | None => (None, None, None)
    end
  else (None, None, None).

Definition dependency_order_of (g : DependencyGraph) (diff : TableDiff.t) : N :=
  default USIZE_MAX (N.of_nat <$> order_map (topological_order g) !! TableDiff.name diff).

Definition forward_node (renames : list RenameCandidate.t) (g : DependencyGraph) (diff : TableDiff.t) : DiffNode.t :=
  let r := rename_fields renames diff in
  DiffNode.mk diff Forward (dependency_order_of g diff) r.1.1 r.1.2 r.2.

Definition rollback_node (g : DependencyGraph) (diff : TableDiff.t) : DiffNode.t :=
  DiffNode.mk (invert_diff diff) RollbackDirection (dependency_order_of g diff) None None None.

Definition from_forward_diffs (forward_diffs : list TableDiff.t) (renames : list RenameCandidate.t) (dep_graph : DependencyGraph)
    : RollbackGraph.t :=
  RollbackGraph.mk (map (forward_node renames dep_graph) forward_diffs) (map (rollback_node dep_graph) forward_diffs) false [].

(** ** The check *)

Definition opposite_types (forward rollback : text) : bool :=
  text_eqb forward %"added" && text_eqb rollback %"removed"
  || text_eqb forward %"removed" && text_eqb rollback %"added"
  || text_eqb forward %"modified" && text_eqb rollback %"modified"
  || text_eqb forward %"none" && text_eqb rollback %"none".

Definition node_name (n : DiffNode.t) : text := TableDiff.name (DiffNode.table_diff n).
Definition node_type (n : DiffNode.t) : text := TableDiff.diff_type (DiffNode.table_diff n).

Definition compose : text := [8728%N].

Definition node_issues (rollback_nodes : list DiffNode.t) (fwd : DiffNode.t) : list text :=
  (if existsb (fun rbk => text_eqb (node_name rbk) (node_name fwd) && opposite_types (node_type fwd) (node_type rbk)) rollback_nodes
   then [] else [%"No rollback entry for forward " ++ node_type fwd ++ %": " ++ node_name fwd])
  ++ (map (fun rbk => invert_diff (DiffNode.table_diff rbk))
        (List.filter (fun rbk => text_eqb (node_name rbk) (node_name fwd)) rollback_nodes) ≫= fun ror =>
      if differs (TableDiff.diff_type ror) (node_type fwd) then
        [%"Forward" ++ compose ++ %"Rollback mismatch for " ++ node_name fwd ++ %": forward=" ++ node_type fwd
         ++ %", rollback" ++ compose ++ %"rollback=" ++ TableDiff.diff_type ror]
      else []).

Definition validate_consistency (g : RollbackGraph.t) : RollbackGraph.t :=
  let issues := RollbackGraph.forward_nodes g ≫= node_issues (RollbackGraph.rollback_nodes g) in
  RollbackGraph.mk (RollbackGraph.forward_nodes g) (RollbackGraph.rollback_nodes g) (is_empty issues) issues.

(** * when a rollback is consistent, and that it restores the target. *)

(** ** The consistency check *)

(** The types that have an inverse. *)
Definition invertible (dt : text) : Prop := dt = %"added" \/ dt = %"removed" \/ dt = %"modified".

Lemma opposite_inverts dt : opposite_types dt (invert_diff_type dt) = true <-> invertible dt.
Proof.
  unfold invertible. split; [|by intros [ -> | [ -> | -> ]]].
  unfold invert_diff_type. destruct (text_eqb dt %"added") eqn:Ha; [apply text_eqb_eq in Ha; auto|].
  destruct (text_eqb dt %"removed") eqn:Hr; [apply text_eqb_eq in Hr; auto|].
  destruct (text_eqb dt %"modified") eqn:Hm; [apply text_eqb_eq in Hm; auto|].
  unfold opposite_types. rewrite Ha, Hr, Hm. cbn [andb orb]. by destruct (text_eqb dt %"renamed"), (text_eqb dt %"none").
Qed.

Lemma opposite_invertible a b : opposite_types a (invert_diff_type b) = true -> invertible a.
Proof.
  unfold opposite_types, invertible. rewrite !orb_true_iff, !andb_true_iff, !text_eqb_eq.
  intros [[[[ -> _] | [ -> _]] | [ -> _]] | [_ Hn]]; auto. unfold invert_diff_type in Hn. repeat case_match; discriminate Hn.
Qed.

Lemma invert_twice dt : invertible dt -> invert_diff_type (invert_diff_type dt) = dt.
Proof. by intros [ -> | [ -> | -> ]]. Qed.

Lemma bind_nil_iff {A B} (f : A -> list B) (l : list A) : l ≫= f = [] <-> forall x, x ∈ l -> f x = [].
Proof.
  split; [|apply bind_nil]. induction l as [|y l IH]; intros Hl x Hx; [by apply not_elem_of_nil in Hx|].
  cbn in Hl. apply app_eq_nil in Hl as [Hy Hl]. apply elem_of_cons in Hx as [->|Hx]; auto.
Qed.

Lemma is_empty_true {A} (l : list A) : is_empty l = true <-> l = [].
Proof. by destruct l. Qed.

Definition same_kind_by_name (diffs : list TableDiff.t) : Prop :=
  forall a b, a ∈ diffs -> b ∈ diffs -> TableDiff.name a = TableDiff.name b -> TableDiff.diff_type a = TableDiff.diff_type b.

Lemma node_issues_nil g diffs renames d :
  node_issues (map (rollback_node g) diffs) (forward_node renames g d) = [] <->
  (exists r, r ∈ diffs /\ TableDiff.name r = TableDiff.name d
     /\ opposite_types (TableDiff.diff_type d) (invert_diff_type (TableDiff.diff_type r)) = true)
  /\ (forall r, r ∈ diffs -> TableDiff.name r = TableDiff.name d ->
        invert_diff_type (invert_diff_type (TableDiff.diff_type r)) = TableDiff.diff_type d).
Proof.
  unfold node_issues. set (ex := existsb _ _).
  assert (Hex : ex = true <-> exists r, r ∈ diffs /\ TableDiff.name r = TableDiff.name d
                  /\ opposite_types (TableDiff.diff_type d) (invert_diff_type (TableDiff.diff_type r)) = true).
  { unfold ex. rewrite existsb_exists. split.
    - intros (n & (r & -> & Hr)%list_elem_of_In%list_elem_of_fmap & [Hn%text_eqb_eq Ho]%andb_true_iff). eauto.
    - intros (r & Hr & Hn & Ho). exists (rollback_node g r). split; [apply list_elem_of_In, list_elem_of_fmap; eauto|].
      apply andb_true_iff. split; [by apply text_eqb_eq|done]. }
  rewrite <- Hex. split.
  - intros [Hl Hr]%app_eq_nil. split; [by destruct ex|]. intros r Hin Hn.
    rewrite bind_nil_iff in Hr. specialize (Hr (invert_diff (invert_diff r))).
    destruct (differs _ _) eqn:Hd in Hr; [|unfold differs in Hd; by apply negb_false_iff, text_eqb_eq in Hd].
    discriminate Hr. apply list_elem_of_fmap. exists (rollback_node g r). split; [done|].
    apply list_filter_elem. split; [apply list_elem_of_fmap; eauto|]. by apply text_eqb_eq.
  - intros [-> Hr]. cbn [app]. apply bind_nil_iff.
    intros x (n & -> & [(r & -> & Hin)%list_elem_of_fmap Hn%text_eqb_eq]%list_filter_elem)%list_elem_of_fmap.
    change (TableDiff.diff_type (invert_diff (DiffNode.table_diff (rollback_node g r))))
      with (invert_diff_type (invert_diff_type (TableDiff.diff_type r))).
    change (node_type (forward_node renames g d)) with (TableDiff.diff_type d).
    rewrite (Hr r Hin Hn). by rewrite differs_refl.
Qed.

Lemma graph_consistent_iff diffs renames g :
  RollbackGraph.is_consistent (validate_consistency (from_forward_diffs diffs renames g)) = true <->
  Forall (fun d => invertible (TableDiff.diff_type d)) diffs /\ same_kind_by_name diffs.
Proof.
  unfold validate_consistency, from_forward_diffs. cbn [RollbackGraph.is_consistent RollbackGraph.forward_nodes RollbackGraph.rollback_nodes].
  rewrite is_empty_true, bind_nil_iff, Forall_forall. split.
  - intros Hall. assert (Hd : forall d, d ∈ diffs -> _) by
      (intros d Hd; exact (proj1 (node_issues_nil g diffs renames d) (Hall _ (proj2 (list_elem_of_fmap _ _ _) (ex_intro _ d (conj eq_refl Hd)))))).
    assert (Hinv : forall d, d ∈ diffs -> invertible (TableDiff.diff_type d)).
    { intros d Hin. destruct (Hd d Hin) as [(r & _ & _ & Ho) _]. by eapply opposite_invertible. }
    split; [done|]. intros a b Ha Hb Hn. destruct (Hd b Hb) as [_ Hr].
    rewrite <- (Hr a Ha Hn). symmetry. by apply invert_twice, Hinv.
  - intros [Hinv Hsame] n (d & -> & Hd)%list_elem_of_fmap. apply node_issues_nil. split.
    + exists d. split_and!; [done..|]. by apply opposite_inverts, Hinv.
    + intros r Hr Hn. rewrite invert_twice by (by apply Hinv). by apply Hsame.
Qed.

(** ** The differences of two schemas *)

Section Consistent.

Context (sources targets : list text) (ignore_case : bool).
Notation r := (resolve_schema_diff_table_names sources targets [] ignore_case).

Lemma unmapped_resolve s : s ∈ sources -> s ∈ targets -> resolved (resolve_matching sources targets [] ignore_case) !! s = Some s.
Proof. intros Hs Ht. apply equal_names_resolve; [done..|]. intros s' _. cbn. by rewrite lookup_empty. Qed.

Lemma one_sided_disjoint s : s ∈ source_only r -> s ∈ target_only r -> False.
Proof.
  intros [Hs Hr]%list_filter_elem [Ht _]%list_filter_elem. unfold is_resolved in Hr.
  rewrite unmapped_resolve, bool_decide_true in Hr by eauto. done.
Qed.

Lemma paired_not_source_only p : p ∈ pairs r -> p.1 ∈ source_only r -> False.
Proof.
  destruct p as [s t]. intros [_ Hp]%pairs_elem [_ Hr]%list_filter_elem. cbn [fst] in Hr. unfold is_resolved in Hr.
  rewrite Hp, bool_decide_true in Hr by eauto. done.
Qed.

Lemma paired_not_target_only p : p ∈ pairs r -> p.1 ∈ target_only r -> False.
Proof.
  destruct p as [s t]. intros [Hs _]%pairs_elem [Ht Hu]%list_filter_elem. cbn [fst] in *.
  apply negb_true_iff, bool_decide_eq_false in Hu. apply Hu.
  destruct (final_good sources targets [] ignore_case) as [Hg _]. apply (good_used _ _ _ _ _ Hg). exists s. by apply unmapped_resolve.
Qed.

Lemma source_only_in s : s ∈ source_only r -> s ∈ sources.
Proof. by intros [? _]%list_filter_elem. Qed.

Lemma target_only_in s : s ∈ target_only r -> s ∈ targets.
Proof. by intros [? _]%list_filter_elem. Qed.

Lemma pair_in p : p ∈ pairs r -> p.1 ∈ sources.
Proof. destruct p. by intros [? _]%pairs_elem. Qed.

(** What a name of a difference says about its type. *)
Definition typed_in (n dt : text) : Prop :=
  (dt = %"added" /\ n ∈ source_only r) \/ (dt = %"removed" /\ n ∈ target_only r)
  \/ (dt = %"modified" /\ exists p, p ∈ pairs r /\ p.1 = n).

Lemma typed_in_name n dt : typed_in n dt -> n ∈ sources ++ targets.
Proof.
  rewrite elem_of_app. intros [[_ H]|[[_ H]|[_ (p & H & <-)]]]; [left; by apply source_only_in|right; by apply target_only_in|left; by apply pair_in].
Qed.

Lemma typed_in_same n a b : typed_in n a -> typed_in n b -> a = b.
Proof.
  intros [[-> Ha]|[[-> Ha]|[-> (p & Ha & <-)]]] [[-> Hb]|[[-> Hb]|[-> (q & Hb & Heq)]]]; try done; exfalso; try rewrite <- Heq in *;
    eauto using one_sided_disjoint, paired_not_source_only, paired_not_target_only.
Qed.

End Consistent.

Lemma paired_view_type `{ManifestDialects} o p d :
  d ∈ paired_view o p -> TableDiff.name d = p.1 /\ TableDiff.diff_type d = %"modified".
Proof.
  unfold paired_view. destruct (_ ≫= _); [|by intros ?%not_elem_of_nil]. destruct (_ ≫= _); [|by intros ?%not_elem_of_nil].
  destruct (view_definitions_differ _ _ _ _); [|by intros ?%not_elem_of_nil]. by intros ->%list_elem_of_singleton.
Qed.

Lemma paired_table_type `{ManifestDialects} o p d :
  d ∈ paired_table o p -> is_difference d = true -> TableDiff.name d = p.1 /\ TableDiff.diff_type d = %"modified".
Proof.
  unfold paired_table. destruct (_ !! _); [|by intros ?%not_elem_of_nil]. destruct (_ !! _); [|by intros ?%not_elem_of_nil].
  intros ->%list_elem_of_singleton. unfold is_difference. cbn. by destruct (_ || _).
Qed.

Lemma diff_schema_types `{ManifestDialects} o d :
  Options.table_mappings o = [] -> d ∈ diff_schema o ->
  exists view, typed_in (names_of view (Options.source_tables o)) (names_of view (Options.target_tables o)) (Options.ignore_table_name_case o)
                 (TableDiff.name d) (TableDiff.diff_type d).
Proof.
  intros Hm [Hd Hdiff]%list_filter_elem. unfold table_resolution, view_resolution in Hd. rewrite Hm in Hd.
  rewrite !elem_of_app in Hd. unfold typed_in. destruct Hd as [Hd|[Hd|[Hd|[Hd|[Hd|Hd]]]]].
  - apply list_elem_of_fmap in Hd as (n & -> & Hn). exists false. cbn. auto.
  - apply list_elem_of_fmap in Hd as (n & -> & Hn). exists false. cbn. auto.
  - apply list_elem_of_fmap in Hd as (n & -> & Hn). exists true. cbn. auto.
  - apply list_elem_of_fmap in Hd as (n & -> & Hn). exists true. cbn. auto.
  - apply list_elem_of_bind in Hd as (p & Hd & Hp). apply paired_view_type in Hd as [-> ->]. exists true. eauto 6.
  - apply list_elem_of_bind in Hd as (p & Hd & Hp). apply paired_table_type in Hd as [-> ->]; [|done]. exists false. eauto 6.
Qed.

(** No name is a table in one place and a view in another. *)
Definition kinds_apart (o : Options.t) : Prop :=
  forall n, n ∈ names_of false (Options.source_tables o) ++ names_of false (Options.target_tables o) ->
            n ∉ names_of true (Options.source_tables o) ++ names_of true (Options.target_tables o).

Lemma typed_in_invertible sources targets ic n dt : typed_in sources targets ic n dt -> invertible dt.
Proof. unfold invertible. intros [[-> _]|[[-> _]|[-> _]]]; auto. Qed.

(** the rollback of the differences of two schemas passes its own check: with
    no explicit table mappings, and no name used for a table in one place and for
    a view in another, every difference [diff_schema] reports has its inverse in
    the rollback and inverting twice gives its type back, whatever the options. *)
Theorem schema_rollback_is_consistent `{ManifestDialects} o renames g :
  Options.table_mappings o = [] -> kinds_apart o ->
  let graph := validate_consistency (from_forward_diffs (diff_schema o) renames g) in
  RollbackGraph.is_consistent graph = true /\ RollbackGraph.consistency_issues graph = [].
Proof.
  intros Hm Hk. cbn zeta.
  assert (Hc : RollbackGraph.is_consistent (validate_consistency (from_forward_diffs (diff_schema o) renames g)) = true).
  { apply graph_consistent_iff. split.
    - apply Forall_forall. intros d (view & Hd)%(diff_schema_types o d Hm). by eapply typed_in_invertible.
    - intros a b (va & Ha)%(diff_schema_types o a Hm) (vb & Hb)%(diff_schema_types o b Hm) Hn. rewrite Hn in Ha.
      pose proof (typed_in_name _ _ _ _ _ Ha) as Hna. pose proof (typed_in_name _ _ _ _ _ Hb) as Hnb.
      destruct va, vb; try (by eapply typed_in_same); exfalso; by eapply Hk. }
  split; [done|]. cbn in Hc |- *. by apply is_empty_true.
Qed.

Definition no_graph : DependencyGraph := mk_graph ∅ [].

(** The sample schema against an empty database. *)
Definition against_nothing : Options.t :=
  Options.mk sample_tables [] sample_details [] Mysql false true true true true true F64.lit_0_7 (Some DMysql) (Some DMysql) [].

Lemma against_nothing_apart : kinds_apart against_nothing.
Proof.
  assert (Hd : forall n, n ∈ [%"Users"] -> n ∉ [%"v"]); [|exact Hd].
  intros n ->%list_elem_of_singleton ?%list_elem_of_singleton. discriminate.
Qed.

Lemma schema_rollback_witness :
  RollbackGraph.is_consistent (validate_consistency (from_forward_diffs (@diff_schema sample_dialects against_nothing) [] no_graph)) = true
  /\ map (fun n => (node_type n, node_name n))
       (RollbackGraph.rollback_nodes (from_forward_diffs (@diff_schema sample_dialects against_nothing) [] no_graph))
     = [(%"removed", %"Users"); (%"removed", %"v")].
Proof.
  split; [|vm_compute; reflexivity].
  exact (proj1 (@schema_rollback_is_consistent sample_dialects against_nothing [] no_graph eq_refl against_nothing_apart)).
Defined.

Definition bare_diff (kind name : text) (target_name : option text) : TableDiff.t :=
  TableDiff.mk kind (Some %"table") name target_name None None None None None None None None None.

(** A detected rename has no rollback entry of the kind the check looks for. *)
Example renames_are_reported :
  RollbackGraph.consistency_issues (validate_consistency (from_forward_diffs [bare_diff %"renamed" %"new" (Some %"old")] [] no_graph))
  = [%"No rollback entry for forward renamed: new"].
Proof. vm_compute. reflexivity. Qed.

(** A mapped source and a target-only table of the same name: the check compares
    names only and takes the two differences for one. *)
Example mapped_name_is_reported :
  let o := Options.mk [TableInfo.mk %"a" %"TABLE" None (Some %"x") None None]
             [TableInfo.mk %"b" %"TABLE" None None None None; TableInfo.mk %"a" %"TABLE" None None None None]
             [TableSchemaDetail.mk %"a" [] [] [] [] None] [TableSchemaDetail.mk %"b" [] [] [] [] None]
             Mysql false false false false false false F64.lit_0_7 None None [SchemaDiffTableMapping.mk %"a" %"b"] in
  map (fun d => (TableDiff.diff_type d, TableDiff.name d, TableDiff.target_name d)) (@diff_schema sample_dialects o)
    = [(%"removed", %"a", None); (%"modified", %"a", Some %"b")]
  /\ length (RollbackGraph.consistency_issues
               (validate_consistency (from_forward_diffs (@diff_schema sample_dialects o) [] no_graph))) = 2.
Proof. split; vm_compute; reflexivity. Qed.

(** ** The rollback of keyed objects *)

Section Restore.

Context {Info : Type} `{Countable K} (key : Info -> K) (object_name : Info -> text).

Lemma labelled_invert d : labelled key object_name d -> labelled key object_name (invert_object d).
Proof.
  intros [s changes | t changes | s t changes Hkey Hname].
  - exact (labelled_removed key object_name s changes).
  - exact (labelled_added key object_name t changes).
  - change (labelled key object_name (ObjectDiff.mk %"modified" (object_name s) (Some t) (Some s) changes)). rewrite Hname. by apply labelled_modified.
Qed.

Lemma diff_key_invert d : labelled key object_name d -> diff_key key (invert_object d) = diff_key key d.
Proof. intros [s changes | t changes | s t changes Hkey Hname]; [done | done | ]. unfold diff_key. cbn. by rewrite Hkey. Qed.

Lemma diff_keys_invert ds : Forall (labelled key object_name) ds -> omap (diff_key key) (map invert_object ds) = omap (diff_key key) ds.
Proof.
  induction 1 as [ | d ds Hd _ IH]; [done | ]. cbn [map].
  change (omap (diff_key key) (?x :: ?l)) with (match diff_key key x with Some y => y :: omap (diff_key key) l | None => omap (diff_key key) l end).
  by rewrite diff_key_invert, IH.
Qed.

(** Differences that record the target can be obeyed, and then their inverses, which give the target back. *)
Lemma rollback_restores m ds :
  records key object_name m ds ->
  exists m', obey_all key object_name m ds = Some m' /\ obey_all key object_name m' (map invert_object ds) = Some m.
Proof.
  intros Hrec. destruct (obey_all_spec key object_name ds m Hrec) as (m' & Hm' & Hout & Hin). exists m'. split; [done | ].
  destruct Hrec as (Hnd & Hlab & Hrec). pose proof (diff_keys_invert ds Hlab) as Hkeys. rewrite Forall_forall in Hlab.
  destruct (obey_all_spec key object_name (map invert_object ds) m') as (m'' & -> & Hout' & Hin').
  { split_and!; [by rewrite Hkeys | apply Forall_map, Forall_forall; intros d Hd; by apply labelled_invert, Hlab | ].
    intros e k (d & -> & Hd)%list_elem_of_fmap Hk. rewrite diff_key_invert in Hk by by apply Hlab. symmetry. by apply Hin. }
  f_equal. apply map_eq. intros k. destruct (decide (k ∈ omap (diff_key key) ds)) as [(d & Hd & Hk)%list_elem_of_omap | Hk].
  - rewrite (Hin' (invert_object d) k); [by apply Hrec | apply list_elem_of_fmap; eauto | ]. by rewrite diff_key_invert by by apply Hlab.
  - rewrite Hout', Hout by by rewrite ?Hkeys. done.
Qed.

End Restore.

Lemma diff_indexes_record source target ic :
  NoDup (map IndexInfo.name source) -> NoDup (map IndexInfo.name target) ->
  records IndexInfo.name IndexInfo.name (by_key IndexInfo.name target) (diff_indexes_with_options source target ic).
Proof.
  intros Hs Ht. unfold diff_indexes_with_options. set (gen := match_server_generated_indexes source target ic).
  apply two_passes_record; [done | done | | ].
  - intros i s _. unfold source_index_diff. destruct (IndexInfo.is_primary s); [by left | ].
    destruct (by_key IndexInfo.name target !! IndexInfo.name s) as [t | ] eqn:Hk.
    + apply by_key_elem in Hk as [_ Hk]. destruct (index_changes ic s t); [by left | right]. eexists. split_and!; [done | | done | done].
      by apply labelled_modified.
    + destruct (_ ≫= _); [by left | right]. eexists. split_and!; [done | apply labelled_added | done | done].
  - intros i t _. unfold target_index_diff. destruct (_ || _); [by left | ].
    destruct (by_key IndexInfo.name source !! IndexInfo.name t); [by left | right].
    eexists. split_and!; [done | apply labelled_removed | done | done | done].
Qed.

(** C28: rolling a change back restores what was there.  Following the reported differences of the triggers, or of the
    indexes, of a table by their labels ([obey]), and then the inverted ones, never fails and gives exactly the target's
    objects back (names being distinct on each side), server-generated index names and ignored case included. *)
Theorem rollback_restores_the_target :
  (forall source target, NoDup (map TriggerInfo.name source) -> NoDup (map TriggerInfo.name target) ->
     let obey_all := obey_all TriggerInfo.name TriggerInfo.name in
     let diffs := diff_triggers source target in
     exists m, obey_all (store TriggerInfo.name target) diffs = Some m
       /\ obey_all m (invert_triggers diffs) = Some (store TriggerInfo.name target))
  /\ (forall source target ignore_case, NoDup (map IndexInfo.name source) -> NoDup (map IndexInfo.name target) ->
     let obey_all := obey_all IndexInfo.name IndexInfo.name in
     let diffs := diff_indexes_with_options source target ignore_case in
     exists m, obey_all (store IndexInfo.name target) diffs = Some m
       /\ obey_all m (invert_indexes diffs) = Some (store IndexInfo.name target)).
Proof.
  split.
  - intros source target Hs Ht. cbn zeta. rewrite <- by_key_store by done. by apply rollback_restores, keyed_diff_records.
  - intros source target ic Hs Ht. cbn zeta. rewrite <- by_key_store by done. by apply rollback_restores, diff_indexes_record.
Qed.

Lemma rollback_restores_witness :
  let obey_all := obey_all TriggerInfo.name TriggerInfo.name in
  let diffs := diff_triggers new_triggers old_triggers in
  map ObjectDiff.diff_type diffs = [%"modified"; %"added"; %"removed"]
  /\ exists m, obey_all (store TriggerInfo.name old_triggers) diffs = Some m
    /\ obey_all m (invert_triggers diffs) = Some (store TriggerInfo.name old_triggers).
Proof.
  cbv zeta. split; [vm_compute; reflexivity | ]. destruct rollback_restores_the_target as [Ht _].
  exact (Ht new_triggers old_triggers new_triggers_distinct old_triggers_distinct).
Defined.
