(* ===== verification/TableRenames.v ===== *)
(** * TableRenames: renamed tables ([schema_diff.rs], [detect_renames] and the rename
      phase of [prepare_schema_diff]).

    A removed and an added table are a rename when their column names overlap
    enough and the types of the common columns agree; the best-scoring pairs are
    taken first, each table at most once.  The types are summed in the order of a
    hash set. *)

From stdpp Require Import gmap.
From Stdlib Require Import SpecFloat Sorted.
From S2P Require Import Prelude DbTypes WriteClass WriteUnlock SchemaTypes Kahn SchemaGraph SchemaGraphTheorems DiffOrder SchemaNames ViewDdl ColumnCompare ColumnCompareFacts ObjectCompare ForeignKeyCompare ObjectCompareFacts SchemaCompare.

Section Renames.

Context `{SetOrder}.

(** [count() as f64]. *)
Definition count_f64 (s : gset text) : F64.t := F64.of_N (N.of_nat (size s)).

Definition jaccard_similarity (a b : gset text) : F64.t :=
  if bool_decide (a = ∅) && bool_decide (b = ∅) then F64.one
  else if size (a ∪ b) =? 0 then F64.one
  else F64.div (count_f64 (a ∩ b)) (count_f64 (a ∪ b)).

Definition columns_by_name (cols : list ColumnInfo.t) : gmap text ColumnInfo.t := by_key ColumnInfo.name cols.

(** The compatibility of one common column. *)
Definition common_score (source_map target_map : gmap text ColumnInfo.t) (name : text) : F64.t :=
  match source_map !! name, target_map !! name with
  | Some s, Some t => type_compatibility_score (ColumnType.parse (ColumnInfo.data_type s)) (ColumnType.parse (ColumnInfo.data_type t))
  | _, _ => F64.zero
  end.

Definition column_type_similarity (source_cols target_cols : list ColumnInfo.t) : F64.t :=
  if is_empty source_cols || is_empty target_cols then F64.zero
  else
    let source_map := columns_by_name source_cols in
    let target_map := columns_by_name target_cols in
    let common_names : gset text := dom source_map ∩ dom target_map in
    if bool_decide (common_names = ∅) then F64.zero
    else
      let total := foldl (fun acc name => F64.add acc (common_score source_map target_map name)) F64.zero (iter_set 0 common_names) in
      F64.div total (count_f64 common_names).

Definition column_names (d : TableSchemaDetail.t) : gset text := list_to_set (map ColumnInfo.name (TableSchemaDetail.columns d)).

(** The body of the two loops. *)
Definition rename_candidate (threshold : F64.t) (source_detail target_detail : TableSchemaDetail.t) (source_name target_name : text)
    : option RenameCandidate.t :=
  let column_jaccard := jaccard_similarity (column_names target_detail) (column_names source_detail) in
  if F64.lt column_jaccard threshold then None
  else
    let type_sim := column_type_similarity (TableSchemaDetail.columns target_detail) (TableSchemaDetail.columns source_detail) in
    let score := F64.add (F64.mul column_jaccard F64.lit_0_6) (F64.mul type_sim F64.lit_0_4) in
    if F64.le threshold score then Some (RenameCandidate.mk source_name target_name score column_jaccard type_sim) else None.

Definition rename_candidates (removed added : list text) (source_details target_details : list TableSchemaDetail.t) (threshold : F64.t)
    : list RenameCandidate.t :=
  removed ≫= fun target_name =>
    match details_by_name target_details !! target_name with
    | None => []
    | Some target_detail =>
        omap (fun source_name =>
                source_detail ← details_by_name source_details !! source_name;
                rename_candidate threshold source_detail target_detail source_name target_name) added
    end.

(** [b.score.partial_cmp(&a.score).unwrap_or(Equal)] says that [a] comes after [b]. *)
Definition scored_before (b a : RenameCandidate.t) : bool := F64.lt (RenameCandidate.score a) (RenameCandidate.score b).

(** The stable [sort_by]: [x] stands before the elements it precedes or ties with. *)
Fixpoint insert_candidate (x : RenameCandidate.t) (l : list RenameCandidate.t) : list RenameCandidate.t :=
  match l with
  | [] => [x]
  | y :: l' => if scored_before y x then y :: insert_candidate x l' else x :: l
  end.

Definition sort_candidates (l : list RenameCandidate.t) : list RenameCandidate.t := foldr insert_candidate [] l.

(** [final_candidates], [used_target] and [used_source]. *)
Definition take_candidate (st : list RenameCandidate.t * gset text * gset text) (c : RenameCandidate.t)
    : list RenameCandidate.t * gset text * gset text :=
  if negb (bool_decide (RenameCandidate.target_name c ∈ st.1.2)) && negb (bool_decide (RenameCandidate.source_name c ∈ st.2))
  then (st.1.1 ++ [c], {[RenameCandidate.target_name c]} ∪ st.1.2, {[RenameCandidate.source_name c]} ∪ st.2)
  else st.

Definition detect_renames (removed added : list text) (source_details target_details : list TableSchemaDetail.t) (threshold : F64.t)
    : list RenameCandidate.t :=
  (foldl take_candidate ([], ∅, ∅) (sort_candidates (rename_candidates removed added source_details target_details threshold))).1.1.

(** ** The rename phase *)

Definition of_type (kind : text) (d : TableDiff.t) : bool := text_eqb (TableDiff.diff_type d) kind.

Definition named (name : text) (details : list TableSchemaDetail.t) : option TableSchemaDetail.t :=
  List.find (fun d => text_eqb (TableSchemaDetail.name d) name) details.

Definition renamed_diff (o : Options.t) (c : RenameCandidate.t) : TableDiff.t :=
  TableDiff.mk %"renamed" (Some %"table") (RenameCandidate.source_name c) (Some (RenameCandidate.target_name c)) None None None None
    (named (RenameCandidate.source_name c) (Options.source_details o) ≫= TableSchemaDetail.ddl)
    (named (RenameCandidate.target_name c) (Options.target_details o) ≫= TableSchemaDetail.ddl) None None None.

Definition apply_table_renames (o : Options.t) (detect_table_renames : bool) (diffs : list TableDiff.t)
    : list TableDiff.t * list RenameCandidate.t :=
  if Options.detect_renames o && detect_table_renames then
    let removed := map TableDiff.name (List.filter (of_type %"removed") diffs) in
    let added := map TableDiff.name (List.filter (of_type %"added") diffs) in
    let candidates := detect_renames removed added (Options.source_details o) (Options.target_details o) (Options.rename_threshold o) in
    let target_renamed : gset text := list_to_set (map RenameCandidate.target_name candidates) in
    let source_renamed : gset text := list_to_set (map RenameCandidate.source_name candidates) in
    let kept :=
      List.filter (fun d => negb (of_type %"removed" d && bool_decide (TableDiff.name d ∈ target_renamed)
                                  || of_type %"added" d && bool_decide (TableDiff.name d ∈ source_renamed))) diffs in
    (kept ++ map (renamed_diff o) candidates, candidates)
  else (diffs, []).

End Renames.

(** * detected renames are a stable matching. *)

(** ** The order of binary64 numbers *)

Section Float.

Local Open Scope Z_scope.

(** A number other than NaN as a triple compared lexicographically: its class,
    then the signed exponent and significand. *)
Definition rank (f : F64.t) : Z * Z * Z :=
  match f with
  | S754_infinity s => (if s then -2 else 2, 0, 0)
  | S754_finite s m e => if s then (-1, - e, Z.neg m) else (1, e, Z.pos m)
  | _ => (0, 0, 0)
  end.

Definition below (a b : Z * Z * Z) : Prop :=
  a.1.1 < b.1.1 \/ (a.1.1 = b.1.1 /\ (a.1.2 < b.1.2 \/ (a.1.2 = b.1.2 /\ a.2 < b.2))).

Lemma lt_below f g : f <> S754_nan -> g <> S754_nan -> F64.lt f g = true <-> below (rank f) (rank g).
Proof.
  unfold F64.lt, SFltb, below. intros Hf Hg.
  destruct f as [sf|sf| |sf mf ef], g as [sg|sg| |sg mg eg]; try done; destruct sf; try destruct sg; cbn; split;
    try done; try lia; destruct (Z.compare_spec ef eg); try done; try lia; fold (Pos.compare mf mg); destruct (Pos.compare_spec mf mg); cbn; try done; lia.
Qed.

Lemma le_not_nan f g : F64.le f g = true -> f <> S754_nan /\ g <> S754_nan.
Proof. destruct f, g; done. Qed.

Lemma lt_irrefl f : F64.lt f f = false.
Proof.
  assert (Hn : f = S754_nan \/ f <> S754_nan) by (destruct f; auto). destruct Hn as [->|Hn]; [done|]. apply not_true_is_false. rewrite lt_below by done. unfold below. lia.
Qed.

Lemma lt_asym f g : F64.lt f g = true -> F64.lt g f = false.
Proof.
  intros Hl. assert (Hf : f <> S754_nan) by (by intros ->; destruct g). assert (Hg : g <> S754_nan) by (by intros ->; destruct f).
  apply not_true_is_false. rewrite lt_below in * by done. unfold below in *. lia.
Qed.

Lemma ge_trans f g h :
  f <> S754_nan -> g <> S754_nan -> h <> S754_nan -> F64.lt f g = false -> F64.lt g h = false -> F64.lt f h = false.
Proof.
  intros Hf Hg Hh Hfg%not_true_iff_false Hgh%not_true_iff_false. apply not_true_is_false. rewrite lt_below in * by done.
  unfold below in *. lia.
Qed.

End Float.

(** ** Sorting *)

(** [a] scores at least as much as [b]. *)
Definition at_least (a b : RenameCandidate.t) : Prop := F64.lt (RenameCandidate.score a) (RenameCandidate.score b) = false.

Definition scored (c : RenameCandidate.t) : Prop := RenameCandidate.score c <> S754_nan.

Lemma insert_candidate_elem x l c : c ∈ insert_candidate x l <-> c = x \/ c ∈ l.
Proof.
  induction l as [|y l IH]; cbn; [rewrite list_elem_of_singleton, elem_of_nil; tauto|].
  destruct (scored_before y x); rewrite !elem_of_cons; [rewrite IH|]; tauto.
Qed.

Lemma sort_candidates_elem l c : c ∈ sort_candidates l <-> c ∈ l.
Proof. induction l as [|x l IH]; [done|]. cbn. by rewrite insert_candidate_elem, IH, elem_of_cons. Qed.

Lemma insert_candidate_sorted x l :
  scored x -> (forall c, c ∈ l -> scored c) -> StronglySorted at_least l -> StronglySorted at_least (insert_candidate x l).
Proof.
  intros Hx. induction l as [|y l IH]; intros Hl Hs; cbn; [repeat constructor|].
  apply StronglySorted_inv in Hs as [Hs Hy]. destruct (scored_before y x) eqn:Hb.
  - constructor; [apply IH; [|done]; intros c Hc; apply Hl; by right|].
    apply Forall_forall. intros c [->|Hc]%insert_candidate_elem; [apply lt_asym, Hb|]. rewrite Forall_forall in Hy. auto.
  - constructor; [by constructor|]. constructor; [exact Hb|]. rewrite Forall_forall in Hy |- *.
    intros c Hc. apply (ge_trans _ (RenameCandidate.score y)); [done|apply Hl; left|apply Hl; by right|exact Hb|by apply Hy].
Qed.

Lemma sort_candidates_sorted l : (forall c, c ∈ l -> scored c) -> StronglySorted at_least (sort_candidates l).
Proof.
  induction l as [|x l IH]; intros Hl; [constructor|].
  change (sort_candidates (x :: l)) with (insert_candidate x (sort_candidates l)). apply insert_candidate_sorted.
  - apply Hl. left.
  - intros c Hc. apply Hl. right. by apply sort_candidates_elem.
  - apply IH. intros c Hc. apply Hl. by right.
Qed.

(** ** The greedy choice *)

Definition conflict (a b : RenameCandidate.t) : Prop :=
  RenameCandidate.target_name a = RenameCandidate.target_name b \/ RenameCandidate.source_name a = RenameCandidate.source_name b.

Record greedy (l : list RenameCandidate.t) (st : list RenameCandidate.t * gset text * gset text) : Prop := {
  greedy_targets n : n ∈ st.1.2 <-> n ∈ map RenameCandidate.target_name st.1.1;
  greedy_sources n : n ∈ st.2 <-> n ∈ map RenameCandidate.source_name st.1.1;
  greedy_nodup_t : NoDup (map RenameCandidate.target_name st.1.1);
  greedy_nodup_s : NoDup (map RenameCandidate.source_name st.1.1);
  greedy_from c : c ∈ st.1.1 -> c ∈ l;
  greedy_stable c : c ∈ l -> exists c', c' ∈ st.1.1 /\ conflict c' c /\ at_least c' c
}.

Lemma sorted_snoc {A} (R : A -> A -> Prop) l x : StronglySorted R (l ++ [x]) -> StronglySorted R l /\ forall y, y ∈ l -> R y x.
Proof.
  induction l as [|a l IH]; cbn; intros Hs; [split; [constructor|by intros y ?%not_elem_of_nil]|].
  apply StronglySorted_inv in Hs as [Hs Ha]. destruct (IH Hs) as [Hl Hx]. rewrite Forall_app in Ha. destruct Ha as [Ha Hax].
  split; [by constructor|]. intros y [->|Hy]%elem_of_cons; [|auto]. by apply Forall_cons in Hax as [? _].
Qed.

Lemma take_candidate_greedy l st x : (forall y, y ∈ l -> at_least y x) -> greedy l st -> greedy (l ++ [x]) (take_candidate st x).
Proof.
  intros Hge [Ht Hs Hnt Hns Hf Hst]. unfold take_candidate.
  assert (Hkeep : forall c, c ∈ st.1.1 -> conflict c x -> greedy (l ++ [x]) st).
  { intros c Hc Hcx. split; try done; [intros c' Hc'; apply elem_of_app; auto|].
    intros c' [Hc'| ->%list_elem_of_singleton]%elem_of_app; [auto|]. exists c. split_and!; [done..|]. by apply Hge, Hf. }
  case_bool_decide as Hxt; cbn [negb andb].
  { apply Ht, list_elem_of_fmap in Hxt as (c & Hxc & Hc). apply (Hkeep c Hc). by left. }
  case_bool_decide as Hxs; cbn [negb].
  { apply Hs, list_elem_of_fmap in Hxs as (c & Hxc & Hc). apply (Hkeep c Hc). by right. }
  split; cbn [fst snd]; rewrite ?map_app.
  - intros n. rewrite elem_of_union, elem_of_singleton, elem_of_app, Ht. cbn. rewrite list_elem_of_singleton. tauto.
  - intros n. rewrite elem_of_union, elem_of_singleton, elem_of_app, Hs. cbn. rewrite list_elem_of_singleton. tauto.
  - apply NoDup_app. split_and!; [done| |apply NoDup_singleton]. intros n Hn ->%list_elem_of_singleton. by apply Hxt, Ht.
  - apply NoDup_app. split_and!; [done| |apply NoDup_singleton]. intros n Hn ->%list_elem_of_singleton. by apply Hxs, Hs.
  - intros c. rewrite !elem_of_app. intros [Hc|Hc]; auto.
  - intros c [Hc| ->%list_elem_of_singleton]%elem_of_app.
    + destruct (Hst c Hc) as (c' & Hc' & ?). exists c'. split; [apply elem_of_app; by left|done].
    + exists x. split_and!; [apply elem_of_app; right; left|by left|apply lt_irrefl].
Qed.

Lemma take_all_greedy l : StronglySorted at_least l -> greedy l (foldl take_candidate ([], ∅, ∅) l).
Proof.
  induction l as [|x l IH] using rev_ind; intros Hl.
  - split; cbn; [set_solver|set_solver|constructor|constructor|done|]. by intros c ?%not_elem_of_nil.
  - apply sorted_snoc in Hl as [Hl Hx]. rewrite foldl_app. cbn [foldl]. by apply take_candidate_greedy, IH.
Qed.

(** ** The candidates *)

Section Candidates.

Context `{SetOrder}.

(** [c] is the rename of [target_name] into [source_name] and reaches the threshold. *)
Definition eligible (source_details target_details : list TableSchemaDetail.t) (threshold : F64.t) (c : RenameCandidate.t) : Prop :=
  exists s t, details_by_name source_details !! RenameCandidate.source_name c = Some s
    /\ details_by_name target_details !! RenameCandidate.target_name c = Some t
    /\ rename_candidate threshold s t (RenameCandidate.source_name c) (RenameCandidate.target_name c) = Some c.

Lemma rename_candidate_spec th s t sn tn c :
  rename_candidate th s t sn tn = Some c ->
  RenameCandidate.source_name c = sn /\ RenameCandidate.target_name c = tn
  /\ F64.lt (RenameCandidate.column_jaccard c) th = false /\ F64.le th (RenameCandidate.score c) = true.
Proof.
  unfold rename_candidate. destruct (F64.lt _ th) eqn:Hj; [done|]. destruct (F64.le th _) eqn:Hs; [|done]. by intros [= <-].
Qed.

Lemma rename_candidates_elem removed added sd td th c :
  c ∈ rename_candidates removed added sd td th <->
  RenameCandidate.target_name c ∈ removed /\ RenameCandidate.source_name c ∈ added /\ eligible sd td th c.
Proof.
  unfold rename_candidates. rewrite list_elem_of_bind. split.
  - intros (tn & Hc & Htn). destruct (details_by_name td !! tn) as [t|] eqn:Ht; [|by apply not_elem_of_nil in Hc].
    apply list_elem_of_omap in Hc as (sn & Hsn & Hc). destruct (details_by_name sd !! sn) as [s|] eqn:Hs; [|done]. cbn in Hc.
    pose proof (rename_candidate_spec _ _ _ _ _ _ Hc) as (<- & <- & _). split_and!; [done..|]. exists s, t. done.
  - intros (Ht & Hs & s & t & Hsd & Htd & Hc). exists (RenameCandidate.target_name c). split; [|done].
    rewrite Htd. apply list_elem_of_omap. exists (RenameCandidate.source_name c). split; [done|]. by rewrite Hsd.
Qed.

Lemma candidates_scored removed added sd td th c : c ∈ rename_candidates removed added sd td th -> scored c.
Proof.
  intros (_ & _ & s & t & _ & _ & (_ & _ & _ & Hl)%rename_candidate_spec)%rename_candidates_elem. by apply le_not_nan in Hl as [_ ?].
Qed.

(** C29: detected renames are a stable matching of removed with added tables: no
    table is renamed twice, every rename reaches the threshold on column overlap
    and on its score, and every pair that would reach it is either chosen or
    shares a table with a chosen pair that scores at least as much. *)
Theorem renames_are_a_stable_matching removed added source_details target_details threshold :
  let renames := detect_renames removed added source_details target_details threshold in
  NoDup (map RenameCandidate.target_name renames) /\ NoDup (map RenameCandidate.source_name renames)
  /\ (forall c, c ∈ renames ->
        RenameCandidate.target_name c ∈ removed /\ RenameCandidate.source_name c ∈ added
        /\ F64.lt (RenameCandidate.column_jaccard c) threshold = false /\ F64.le threshold (RenameCandidate.score c) = true)
  /\ (forall c, RenameCandidate.target_name c ∈ removed -> RenameCandidate.source_name c ∈ added ->
        eligible source_details target_details threshold c ->
        exists c', c' ∈ renames /\ conflict c' c /\ F64.lt (RenameCandidate.score c') (RenameCandidate.score c) = false).
Proof.
  cbn zeta. unfold detect_renames. set (cs := rename_candidates _ _ _ _ _).
  destruct (take_all_greedy (sort_candidates cs)) as [_ _ Hnt Hns Hf Hst].
  { apply sort_candidates_sorted. intros c. apply candidates_scored. }
  split_and!; [done..| |].
  - intros c Hc%Hf%sort_candidates_elem%rename_candidates_elem. destruct Hc as (Ht & Hs & s & t & _ & _ & Hc).
    apply rename_candidate_spec in Hc as (_ & _ & ? & ?). done.
  - intros c Ht Hs He. apply Hst, sort_candidates_elem, rename_candidates_elem. done.
Qed.

End Candidates.

#[local] Instance rename_sets : SetOrder := {| iter_set _ := elements; iter_set_permutation _ _ := reflexivity _ |}.

(** Two views without loaded columns: equal column sets, so an overlap of 1. *)
Definition bare_detail (name : text) : TableSchemaDetail.t := TableSchemaDetail.mk name [] [] [] [] None.

Lemma renames_witness :
  let renames := detect_renames [%"v_old"; %"v_older"] [%"v_new"] [bare_detail %"v_new"] [bare_detail %"v_old"; bare_detail %"v_older"] F64.lit_0_5 in
  map (fun c => (RenameCandidate.source_name c, RenameCandidate.target_name c)) renames = [(%"v_new", %"v_old")]
  /\ NoDup (map RenameCandidate.source_name renames).
Proof.
  split; [vm_compute; reflexivity|].
  exact (proj1 (proj2 (renames_are_a_stable_matching [%"v_old"; %"v_older"] [%"v_new"] [bare_detail %"v_new"]
                         [bare_detail %"v_old"; bare_detail %"v_older"] F64.lit_0_5))).
Defined.

(** Dropping one view and creating another counts as renaming a table. *)
Example views_become_a_renamed_table :
  let view n := TableInfo.mk n %"VIEW" None None None None in
  let o := Options.mk [view %"v_new"] [view %"v_old"] [bare_detail %"v_new"] [bare_detail %"v_old"]
             Postgres false false false false false true F64.lit_0_5 None None [] in
  let no_dialects := {| dialect_name := fun _ => None |} in
  map (fun d => (TableDiff.diff_type d, TableDiff.object_type d, TableDiff.name d, TableDiff.target_name d))
    (apply_table_renames o true (@diff_schema no_dialects o)).1
  = [(%"renamed", Some %"table", %"v_new", Some %"v_old")].
Proof. vm_compute. reflexivity. Qed.
