(* ===== verification/SchemaShard.v ===== *)
(** * SchemaShard: comparing a schema in shards ([schema_diff.rs], [shard_diff],
      [AdaptiveScheduler]).

    The source's names are dealt out to shards, each shard compares the tables it
    names on both sides, and the results are merged by name.  A group per schema is
    taken in the order of a hash map. *)

From stdpp Require Import gmap.
From Stdlib Require Import SpecFloat.
From S2P Require Import Prelude DbTypes WriteClass WriteUnlock SchemaTypes Kahn SchemaGraph SchemaGraphTheorems DiffOrder SchemaNames ViewDdl ColumnCompare ColumnCompareFacts ObjectCompare ForeignKeyCompare ObjectCompareFacts SchemaCompare Rollback TableRenames.

Inductive ShardBy : Set := ByTable | BySchema | RoundRobin.

Record ShardStrategy : Set := mk_strategy { shard_count : N; shard_by : ShardBy }.

(** ** Dealing the names out *)

(** [vec![Vec::new(); n]] and [s[i % n].extend(names)]. *)
Definition deal {A} (n : nat) (hands : list (list A)) : list (list A) :=
  foldl (fun s e => alter (fun l => l ++ e.2) (e.1 mod n) s) (replicate n []) (imap pair hands).

(** [schema_groups]. *)
Definition schema_groups (tables : list TableInfo.t) : gmap text (list text) :=
  foldl (fun m t =>
           let schema := default %"default" (TableInfo.parent_schema t) in
           <[schema := default [] (m !! schema) ++ [TableInfo.name t]]> m) ∅ tables.

Section Shards.

Context `{HashOrder (list text)}.

Definition shards (source_tables : list TableInfo.t) (count : nat) (by_ : ShardBy) : list (list text) :=
  match by_ with
  | ByTable | RoundRobin => deal count (map (fun n => [n]) (names_of false source_tables ++ names_of true source_tables))
  | BySchema => deal count (map snd (iter (schema_groups source_tables)))
  end.

Definition in_shard (shard : list text) (n : text) : bool := bool_decide (n ∈ (list_to_set shard : gset text)).

Definition mapped_in_shard (mappings : list SchemaDiffTableMapping.t) (shard : list text) (n : text) : bool :=
  in_shard shard n
  || existsb (fun m => in_shard shard (SchemaDiffTableMapping.source_table m) && text_eqb (SchemaDiffTableMapping.target_table m) n) mappings.

(** The fields not named take their defaults: no renames, threshold 0.5. *)
Definition shard_options (o : Options.t) (shard : list text) : Options.t :=
  Options.mk
    (List.filter (fun t => in_shard shard (TableInfo.name t)) (Options.source_tables o))
    (List.filter (fun t => mapped_in_shard (Options.table_mappings o) shard (TableInfo.name t)) (Options.target_tables o))
    (List.filter (fun d => in_shard shard (TableSchemaDetail.name d)) (Options.source_details o))
    (List.filter (fun d => mapped_in_shard (Options.table_mappings o) shard (TableSchemaDetail.name d)) (Options.target_details o))
    (Options.database_type o) (Options.ignore_comments o) (Options.compare_column_order o) (Options.compare_charset o)
    (Options.ignore_table_name_case o) (Options.ignore_column_name_case o) false F64.lit_0_5
    (Options.source_dialect o) (Options.target_dialect o) (Options.table_mappings o).

(** ** Merging *)

(** [String]'s order: by code point, which is the order of the UTF-8 bytes. *)
Fixpoint text_ltb (a b : text) : bool :=
  match a, b with
  | [], [] => false
  | [], _ :: _ => true
  | _ :: _, [] => false
  | x :: a', y :: b' => (x <? y)%N || ((x =? y)%N && text_ltb a' b')
  end.

Fixpoint insert_by_name (d : TableDiff.t) (l : list TableDiff.t) : list TableDiff.t :=
  match l with
  | [] => [d]
  | e :: l' => if text_ltb (TableDiff.name e) (TableDiff.name d) then e :: insert_by_name d l' else d :: l
  end.

Definition sort_by_name (l : list TableDiff.t) : list TableDiff.t := foldr insert_by_name [] l.

Definition same_entry (a b : TableDiff.t) : bool :=
  text_eqb (TableDiff.name a) (TableDiff.name b) && text_eqb (TableDiff.diff_type a) (TableDiff.diff_type b).

(** [dedup_by]: an element equal to the last one kept is dropped. *)
Fixpoint dedup_after (last : TableDiff.t) (l : list TableDiff.t) : list TableDiff.t :=
  match l with
  | [] => []
  | d :: l' => if same_entry d last then dedup_after last l' else d :: dedup_after d l'
  end.

Definition dedup_entries (l : list TableDiff.t) : list TableDiff.t :=
  match l with [] => [] | d :: l' => d :: dedup_after d l' end.

Context `{ManifestDialects}.

Definition effective_shards (o : Options.t) (s : ShardStrategy) : N :=
  let table_count := N.max (N.of_nat (length (Options.source_tables o))) (N.of_nat (length (Options.target_tables o))) in
  N.min (shard_count s) (N.max table_count 1).

Definition shard_diff (o : Options.t) (s : ShardStrategy) : list TableDiff.t :=
  let count := effective_shards o s in
  if (count <=? 1)%N then diff_schema o
  else
    let results :=
      map (fun shard => diff_schema (shard_options o shard))
        (List.filter (fun shard => negb (is_empty shard)) (shards (Options.source_tables o) (N.to_nat count) (shard_by s))) in
    dedup_entries (sort_by_name (concat results)).

End Shards.

(** ** Resource limits *)

Module ResourceConstraint.
Record t : Set := mk {
  max_concurrent_connections : N; max_memory_mb : N; max_tables_per_batch : N; throttle_delay_ms : N
}.
Definition default_constraint : t := mk 4 512 50 100.
End ResourceConstraint.

Module AdaptiveScheduler.
Record t : Set := mk { constraint : ResourceConstraint.t; current_connections : N; estimated_table_count : N }.

Definition new (constraint : ResourceConstraint.t) (table_count : N) : t := mk constraint 0 table_count.

(** [a * b] of [usize]. *)
Definition usize_mul (overflow_checks : bool) (a b : N) : outcome N :=
  let p := (a * b)%N in
  if (p <=? USIZE_MAX)%N then Returns p else if overflow_checks then Panics else Returns (p mod (USIZE_MAX + 1))%N.

Definition usize_div (a b : N) : outcome N := if (b =? 0)%N then Panics else Returns (a / b)%N.

Definition optimal_batch_size (overflow_checks : bool) (s : t) : outcome N :=
  let conn_limit := ResourceConstraint.max_concurrent_connections (constraint s) in
  do mem_limit <- usize_mul overflow_checks (ResourceConstraint.max_memory_mb (constraint s)) 50;
  let table_limit := ResourceConstraint.max_tables_per_batch (constraint s) in
  let batches := N.max (estimated_table_count s) 1 in
  do per_batch <- usize_div (estimated_table_count s) conn_limit;
  Returns (N.min (N.min (N.max per_batch 1) (mem_limit / batches)) table_limit)%N.

(** [x.ceil() as usize]: saturating, NaN is 0. *)
Definition ceil_as_usize (x : F64.t) : N :=
  match x with
  | S754_infinity false => USIZE_MAX
  | S754_finite false m e =>
      let v := (if (0 <=? e)%Z then Z.pos m * 2 ^ e else - ((- Z.pos m) / 2 ^ (- e)))%Z in
      N.min (Z.to_N v) USIZE_MAX
  | _ => 0
  end.

Definition recommended_shard_count (overflow_checks : bool) (s : t) : outcome N :=
  do per_batch <- optimal_batch_size overflow_checks s;
  let count := ceil_as_usize (F64.div (F64.of_N (estimated_table_count s)) (F64.of_N per_batch)) in
  Returns (N.max (N.min count (ResourceConstraint.max_concurrent_connections (constraint s))) 1).

Definition throttle_delay_ms (s : t) : N := ResourceConstraint.throttle_delay_ms (constraint s).

End AdaptiveScheduler.

(** * what sharding keeps and what it loses. *)

(** ** Dealing *)

Lemma concat_alter_app {A} (s : list (list A)) i (l : list A) : i < length s -> concat (alter (fun x => x ++ l) i s) ≡ₚ concat s ++ l.
Proof.
  revert i. induction s as [|x s IH]; intros i Hi; [cbn in Hi; lia|]. destruct i as [|i]; cbn.
  - rewrite <- !app_assoc. by rewrite (Permutation_app_comm l).
  - rewrite IH by (cbn in Hi; lia). by rewrite app_assoc.
Qed.

Lemma concat_replicate_nil {A} n : concat (replicate n (@nil A)) = [].
Proof. by induction n. Qed.

Lemma deal_fold {A} n (hands : list (nat * list A)) s :
  0 < n -> length s = n ->
  concat (foldl (fun s e => alter (fun l => l ++ e.2) (e.1 mod n) s) s hands) ≡ₚ concat s ++ concat (map snd hands).
Proof.
  intros Hn. revert s. induction hands as [|[i l] hands IH]; intros s Hs; cbn; [by rewrite app_nil_r|].
  rewrite IH by (by rewrite length_alter). rewrite concat_alter_app by (rewrite Hs; apply Nat.mod_upper_bound; lia). by rewrite app_assoc.
Qed.

(** Every element of every hand is in exactly one place. *)
Lemma deal_permutation {A} n (hands : list (list A)) : 0 < n -> concat (deal n hands) ≡ₚ concat hands.
Proof.
  intros Hn. unfold deal. rewrite deal_fold by (done || apply length_replicate). rewrite concat_replicate_nil. cbn.
  assert (Hsnd : snd <$> imap pair hands = hands); [|change (map snd (imap pair hands)) with (snd <$> imap pair hands); by rewrite Hsnd].
  apply list_eq. intros i. rewrite list_lookup_fmap, list_lookup_imap. by destruct (hands !! i).
Qed.

Lemma schema_groups_names (tables : list TableInfo.t) k names n :
  schema_groups tables !! k = Some names -> n ∈ names -> n ∈ map TableInfo.name tables.
Proof.
  revert k names. induction tables as [|t tables IH] using rev_ind; intros k names; [done|].
  unfold schema_groups. rewrite foldl_app. cbn [foldl]. fold (schema_groups tables). cbn zeta. rewrite map_app, elem_of_app.
  set (schema := default %"default" (TableInfo.parent_schema t)). destruct (decide (k = schema)) as [->|Hk].
  - rewrite lookup_insert_eq. intros [= <-] [Hn| ->%list_elem_of_singleton]%elem_of_app; [|right; left].
    destruct (schema_groups tables !! schema) eqn:Hg; [left; by eapply IH|by apply not_elem_of_nil in Hn].
  - rewrite lookup_insert_ne by done. intros Hg Hn. left. by eapply IH.
Qed.

Section Names.

Context `{HashOrder (list text)}.

Lemma names_of_split (tables : list TableInfo.t) n : n ∈ map TableInfo.name tables <-> exists view, n ∈ names_of view tables.
Proof.
  unfold names_of. split.
  - intros (t & -> & Ht)%list_elem_of_fmap. exists (is_view t). apply list_elem_of_fmap. exists t. split; [done|].
    apply list_filter_elem. split; [done|apply eqb_reflx].
  - intros (view & (t & -> & [Ht _]%list_filter_elem)%list_elem_of_fmap). apply list_elem_of_fmap. eauto.
Qed.

(** A shard holds names of the source only. *)
Lemma shard_names tables count by_ shard n :
  0 < count -> shard ∈ shards tables count by_ -> n ∈ shard -> n ∈ map TableInfo.name tables.
Proof.
  intros Hc Hs Hn. assert (Hin : n ∈ concat (shards tables count by_)) by (apply elem_of_concat; eauto).
  unfold shards in Hin. destruct by_; rewrite deal_permutation in Hin by done.
  1, 3: apply elem_of_concat in Hin as (l & Hl & (x & -> & Hx)%list_elem_of_fmap); apply list_elem_of_singleton in Hl as ->;
    apply names_of_split; apply elem_of_app in Hx as [Hx|Hx]; eauto.
  apply elem_of_concat in Hin as (l & Hl & ([k names] & -> & Hx)%list_elem_of_fmap).
  rewrite iter_permutation in Hx. apply elem_of_map_to_list in Hx. by eapply schema_groups_names.
Qed.

(** ** Merging *)

Lemma insert_by_name_elem d l e : e ∈ insert_by_name d l <-> e = d \/ e ∈ l.
Proof.
  induction l as [|x l IH]; cbn; [rewrite list_elem_of_singleton, elem_of_nil; tauto|].
  destruct (text_ltb _ _); rewrite !elem_of_cons; [rewrite IH|]; tauto.
Qed.

Lemma sort_by_name_elem l e : e ∈ sort_by_name l <-> e ∈ l.
Proof. induction l as [|x l IH]; [done|]. cbn. by rewrite insert_by_name_elem, IH, elem_of_cons. Qed.

Lemma dedup_after_elem last l e : e ∈ dedup_after last l -> e ∈ l.
Proof.
  revert last. induction l as [|d l IH]; intros last; cbn; [done|]. destruct (same_entry d last); [intros ?%IH; by right|].
  intros [->|He%IH]%elem_of_cons; [left|by right].
Qed.

Lemma dedup_entries_elem l e : e ∈ dedup_entries l -> e ∈ l.
Proof. destruct l as [|d l]; [done|]. cbn. intros [->|He%dedup_after_elem]%elem_of_cons; [left|by right]. Qed.

Context `{ManifestDialects}.

Lemma shard_diff_from o s d :
  (1 < effective_shards o s)%N -> d ∈ shard_diff o s ->
  exists shard, (forall n, n ∈ shard -> n ∈ map TableInfo.name (Options.source_tables o)) /\ d ∈ diff_schema (shard_options o shard).
Proof.
  intros Hc. unfold shard_diff. destruct (N.leb_spec (effective_shards o s) 1) as [?|_]; [lia|].
  intros (l & Hd & (shard & -> & [Hs _]%list_filter_elem)%list_elem_of_fmap)%dedup_entries_elem%sort_by_name_elem%elem_of_concat.
  exists shard. split; [|done]. intros n Hn. eapply shard_names; [|done..]. lia.
Qed.

Lemma names_of_filter view (p : TableInfo.t -> bool) tables n :
  n ∈ names_of view (List.filter p tables) -> n ∈ names_of view tables.
Proof.
  unfold names_of. intros (t & -> & [[Ht _]%list_filter_elem Hv]%list_filter_elem)%list_elem_of_fmap.
  apply list_elem_of_fmap. exists t. split; [done|]. by apply list_filter_elem.
Qed.

(** Two shards or more never report a dropped table: a shard compares the target's
    tables only under the names of the source's. *)
Lemma sharding_drops_removals o s d :
  Options.table_mappings o = [] -> kinds_apart o -> (1 < effective_shards o s)%N ->
  d ∈ shard_diff o s -> TableDiff.diff_type d <> %"removed".
Proof.
  intros Hm Hk Hc (shard & Hnames & Hd)%(shard_diff_from o s d Hc) Hty.
  assert (Hm' : Options.table_mappings (shard_options o shard) = []) by done.
  apply (diff_schema_types _ _ Hm') in Hd as (view & Hd). rewrite Hty in Hd.
  destruct Hd as [[? _]|[[_ Hd]|[? _]]]; [discriminate| |discriminate].
  pose proof (target_only_in _ _ _ _ Hd) as Ht. cbn [Options.target_tables shard_options] in Ht.
  assert (Hsh : TableDiff.name d ∈ shard).
  { unfold names_of in Ht. apply list_elem_of_fmap in Ht as (t & Heq & [[_ Hin]%list_filter_elem _]%list_filter_elem).
    unfold mapped_in_shard in Hin. rewrite Hm in Hin. cbn in Hin. rewrite orb_false_r in Hin.
    apply bool_decide_eq_true, elem_of_list_to_set in Hin. congruence. }
  pose proof (Hnames _ Hsh) as (view' & Hs)%names_of_split. pose proof (names_of_filter _ _ _ _ Ht) as Hto.
  assert (view' = view) as ->.
  { unfold kinds_apart in Hk. specialize (Hk (TableDiff.name d)). rewrite !elem_of_app in Hk. destruct view', view; try done; tauto. }
  assert (Hs' : TableDiff.name d ∈ names_of view (Options.source_tables (shard_options o shard))).
  { unfold names_of in *. apply list_elem_of_fmap in Hs as (t & Heq & [Hin Hv]%list_filter_elem).
    apply list_elem_of_fmap. exists t. split; [done|]. apply list_filter_elem. split; [|done]. apply list_filter_elem. split; [done|].
    apply bool_decide_eq_true, elem_of_list_to_set. congruence. }
  apply list_filter_elem in Hd as [_ Hu]. apply negb_true_iff, bool_decide_eq_false in Hu. apply Hu.
  eapply good_used; [apply final_good|]. exists (TableDiff.name d). by apply unmapped_resolve.
Qed.

End Names.

#[local] Instance shard_groups : HashOrder (list text) := {| iter := map_to_list; iter_permutation _ := reflexivity _ |}.

Definition plain_table (n : text) : TableInfo.t := TableInfo.mk n %"TABLE" None None None None.

Definition shard_sample (ignore_case : bool) (source target : list text) : Options.t :=
  Options.mk (map plain_table source) (map plain_table target) (map (fun n => TableSchemaDetail.mk n [] [] [] [] None) source)
    (map (fun n => TableSchemaDetail.mk n [] [] [] [] None) target) Mysql false false false ignore_case false false F64.lit_0_5 None None [].

Definition entries (l : list TableDiff.t) : list (text * text) := map (fun d => (TableDiff.diff_type d, TableDiff.name d)) l.

(** A dropped table: seen in one piece, lost in two shards. *)
Example dropped_table_is_lost :
  let o := shard_sample false [%"a"; %"b"] [%"a"; %"b"; %"old"] in
  entries (@diff_schema sample_dialects o) = [(%"removed", %"old")]
  /\ entries (@shard_diff _ sample_dialects o (mk_strategy 2 ByTable)) = [].
Proof. split; vm_compute; reflexivity. Qed.

(** A table in another case: equal in one piece, added in two shards. *)
Example other_case_is_added :
  let o := shard_sample true [%"Users"; %"b"] [%"users"; %"b"] in
  entries (@diff_schema sample_dialects o) = []
  /\ entries (@shard_diff _ sample_dialects o (mk_strategy 2 ByTable)) = [(%"added", %"Users")].
Proof. split; vm_compute; reflexivity. Qed.

(** ** The scheduler *)

Lemma optimal_batch_size_returns oc s :
  ResourceConstraint.max_concurrent_connections (AdaptiveScheduler.constraint s) <> 0%N ->
  (ResourceConstraint.max_memory_mb (AdaptiveScheduler.constraint s) * 50 <= USIZE_MAX)%N ->
  exists n, AdaptiveScheduler.optimal_batch_size oc s = Returns n
    /\ (n <= ResourceConstraint.max_tables_per_batch (AdaptiveScheduler.constraint s))%N.
Proof.
  intros Hc Hm. unfold AdaptiveScheduler.optimal_batch_size, AdaptiveScheduler.usize_mul, AdaptiveScheduler.usize_div.
  rewrite (proj2 (N.leb_le _ _) Hm). cbn [outcome_bind]. rewrite (proj2 (N.eqb_neq _ _) Hc). eexists. split; [reflexivity|]. lia.
Qed.

(** The recommended number of shards is between one and the connection limit,
    and it is always given when that limit is positive and fifty times the memory
    limit fits a machine word; a limit of zero connections divides by zero. *)
Theorem recommended_shards_bounded oc s :
  let limit := ResourceConstraint.max_concurrent_connections (AdaptiveScheduler.constraint s) in
  (ResourceConstraint.max_memory_mb (AdaptiveScheduler.constraint s) * 50 <= USIZE_MAX)%N ->
  if (limit =? 0)%N then AdaptiveScheduler.recommended_shard_count oc s = Panics
  else exists n, AdaptiveScheduler.recommended_shard_count oc s = Returns n /\ (1 <= n <= limit)%N.
Proof.
  intros limit Hm. unfold AdaptiveScheduler.recommended_shard_count. destruct (N.eqb_spec limit 0) as [Hz|Hnz].
  - unfold AdaptiveScheduler.optimal_batch_size, AdaptiveScheduler.usize_mul, AdaptiveScheduler.usize_div.
    rewrite (proj2 (N.leb_le _ _) Hm). cbn [outcome_bind]. subst limit. by rewrite Hz.
  - destruct (optimal_batch_size_returns oc s Hnz Hm) as (n & -> & _). cbn [outcome_bind]. eexists. split; [reflexivity|].
    subst limit. lia.
Qed.
