(* ===== verification/DdlProfile.v ===== *)
(** * DdlProfile: how DDL is written for each database ([dbx-sql-dialect/ddl_profile.rs]).

    A profile is data: the quoting style, the spelling of each clause and the
    templates of the statements a database accepts.  [profile_for] is the only place
    that maps a database to its profile. *)

From stdpp Require Import list.
From S2P Require Import Prelude DbTypes WriteClass SchemaTypes ViewDdl.

(** ** The enums *)

Inductive QuoteStyle : Set := Backtick | DoubleQuote | Brackets | UnquotedUpper.

Inductive AutoIncSyntax : Set := NoAutoInc | Suffix (s : text) | ReplaceTypeWith (s : text) | PostgresSequence.

Inductive IndexTypePlacement : Set := NoIndexType | UsingSuffix | TypePrefix | UsingBeforeOn.

Inductive TriggerTemplate : Set := MysqlStyle | PostgresStyle | SqlServerStyle | GenericRowBody.

Inductive RenameColumnSyntax : Set := MysqlChangeColumn | RenameColumn | AlterColumnRenameTo | SqlServerSpRename.

Inductive ColumnDdlSyntax : Set := GenericColumnDdl | SqlServerColumnDdl.

Inductive CommentDdlSyntax : Set := GenericComment | SqlServerExtendedProperty.

Record TypeMapEntry : Set := mk_type_map { source_base : text; target_template : text }.

Module DdlDialectProfile.
Record t : Set := mk {
  database_type : DatabaseType; quote : QuoteStyle; auto_inc : AutoIncSyntax; supports_display_width : bool;
  requires_explicit_varchar_length : bool; max_varchar_len : option N; inline_column_comment : bool; foreign_keys_inline_in_create : bool;
  drop_index_uses_on_table : bool; drop_fk_as_foreign_key : bool; drop_table_supports_cascade : bool; drop_table_supports_if_exists : bool;
  index_type_placement : IndexTypePlacement; index_supports_include : bool; index_supports_filter : bool; index_supports_comment : bool;
  table_comment_via_alter : bool; column_comment_via_modify_only : bool; comment_ddl : CommentDdlSyntax;
  trigger_template : TriggerTemplate; rename_column : RenameColumnSyntax; column_ddl : ColumnDdlSyntax; alter_uses_modify_column : bool;
  add_column_uses_column_keyword : bool; modify_column_uses_column_keyword : bool; parenthesized_alter_column_clause : bool;
  column_default_precedes_not_null : bool; alter_batches_clauses : bool; prefers_native_source_ddl : bool;
  grant_uses_mysql_user_syntax : bool; warn_fk_needs_table_rebuild : bool; create_table_if_not_exists : bool;
  create_index_if_not_exists : bool; create_function_or_replace : bool; supports_function_ddl : bool; supports_sequence_ddl : bool;
  supports_rule_ddl : bool; supports_owner_ddl : bool; function_create_template : option text; function_drop_template : option text;
  sequence_create_template : option text; sequence_alter_template : option text; sequence_drop_template : option text;
  rule_drop_template : option text; owner_alter_template : option text; drop_table_template : text; lock_timeout_sql : option text;
  type_map : list TypeMapEntry
}.

Definition set_add_column_uses_column_keyword (v : bool) (p : t) : t :=
  mk
    (database_type p) (quote p) (auto_inc p) (supports_display_width p) (requires_explicit_varchar_length p) (max_varchar_len p)
    (inline_column_comment p) (foreign_keys_inline_in_create p) (drop_index_uses_on_table p) (drop_fk_as_foreign_key p)
    (drop_table_supports_cascade p) (drop_table_supports_if_exists p) (index_type_placement p) (index_supports_include p)
    (index_supports_filter p) (index_supports_comment p) (table_comment_via_alter p) (column_comment_via_modify_only p) (comment_ddl p)
    (trigger_template p) (rename_column p) (column_ddl p) (alter_uses_modify_column p) v (modify_column_uses_column_keyword p)
    (parenthesized_alter_column_clause p) (column_default_precedes_not_null p) (alter_batches_clauses p) (prefers_native_source_ddl p)
    (grant_uses_mysql_user_syntax p) (warn_fk_needs_table_rebuild p) (create_table_if_not_exists p) (create_index_if_not_exists p)
    (create_function_or_replace p) (supports_function_ddl p) (supports_sequence_ddl p) (supports_rule_ddl p) (supports_owner_ddl p)
    (function_create_template p) (function_drop_template p) (sequence_create_template p) (sequence_alter_template p)
    (sequence_drop_template p) (rule_drop_template p) (owner_alter_template p) (drop_table_template p) (lock_timeout_sql p) (type_map p).

Definition set_alter_uses_modify_column (v : bool) (p : t) : t :=
  mk
    (database_type p) (quote p) (auto_inc p) (supports_display_width p) (requires_explicit_varchar_length p) (max_varchar_len p)
    (inline_column_comment p) (foreign_keys_inline_in_create p) (drop_index_uses_on_table p) (drop_fk_as_foreign_key p)
    (drop_table_supports_cascade p) (drop_table_supports_if_exists p) (index_type_placement p) (index_supports_include p)
    (index_supports_filter p) (index_supports_comment p) (table_comment_via_alter p) (column_comment_via_modify_only p) (comment_ddl p)
    (trigger_template p) (rename_column p) (column_ddl p) v (add_column_uses_column_keyword p) (modify_column_uses_column_keyword p)
    (parenthesized_alter_column_clause p) (column_default_precedes_not_null p) (alter_batches_clauses p) (prefers_native_source_ddl p)
    (grant_uses_mysql_user_syntax p) (warn_fk_needs_table_rebuild p) (create_table_if_not_exists p) (create_index_if_not_exists p)
    (create_function_or_replace p) (supports_function_ddl p) (supports_sequence_ddl p) (supports_rule_ddl p) (supports_owner_ddl p)
    (function_create_template p) (function_drop_template p) (sequence_create_template p) (sequence_alter_template p)
    (sequence_drop_template p) (rule_drop_template p) (owner_alter_template p) (drop_table_template p) (lock_timeout_sql p) (type_map p).

Definition set_auto_inc (v : AutoIncSyntax) (p : t) : t :=
  mk
    (database_type p) (quote p) v (supports_display_width p) (requires_explicit_varchar_length p) (max_varchar_len p)
    (inline_column_comment p) (foreign_keys_inline_in_create p) (drop_index_uses_on_table p) (drop_fk_as_foreign_key p)
    (drop_table_supports_cascade p) (drop_table_supports_if_exists p) (index_type_placement p) (index_supports_include p)
    (index_supports_filter p) (index_supports_comment p) (table_comment_via_alter p) (column_comment_via_modify_only p) (comment_ddl p)
    (trigger_template p) (rename_column p) (column_ddl p) (alter_uses_modify_column p) (add_column_uses_column_keyword p)
    (modify_column_uses_column_keyword p) (parenthesized_alter_column_clause p) (column_default_precedes_not_null p)
    (alter_batches_clauses p) (prefers_native_source_ddl p) (grant_uses_mysql_user_syntax p) (warn_fk_needs_table_rebuild p)
    (create_table_if_not_exists p) (create_index_if_not_exists p) (create_function_or_replace p) (supports_function_ddl p)
    (supports_sequence_ddl p) (supports_rule_ddl p) (supports_owner_ddl p) (function_create_template p) (function_drop_template p)
    (sequence_create_template p) (sequence_alter_template p) (sequence_drop_template p) (rule_drop_template p) (owner_alter_template p)
    (drop_table_template p) (lock_timeout_sql p) (type_map p).

Definition set_column_default_precedes_not_null (v : bool) (p : t) : t :=
  mk
    (database_type p) (quote p) (auto_inc p) (supports_display_width p) (requires_explicit_varchar_length p) (max_varchar_len p)
    (inline_column_comment p) (foreign_keys_inline_in_create p) (drop_index_uses_on_table p) (drop_fk_as_foreign_key p)
    (drop_table_supports_cascade p) (drop_table_supports_if_exists p) (index_type_placement p) (index_supports_include p)
    (index_supports_filter p) (index_supports_comment p) (table_comment_via_alter p) (column_comment_via_modify_only p) (comment_ddl p)
    (trigger_template p) (rename_column p) (column_ddl p) (alter_uses_modify_column p) (add_column_uses_column_keyword p)
    (modify_column_uses_column_keyword p) (parenthesized_alter_column_clause p) v (alter_batches_clauses p) (prefers_native_source_ddl p)
    (grant_uses_mysql_user_syntax p) (warn_fk_needs_table_rebuild p) (create_table_if_not_exists p) (create_index_if_not_exists p)
    (create_function_or_replace p) (supports_function_ddl p) (supports_sequence_ddl p) (supports_rule_ddl p) (supports_owner_ddl p)
    (function_create_template p) (function_drop_template p) (sequence_create_template p) (sequence_alter_template p)
    (sequence_drop_template p) (rule_drop_template p) (owner_alter_template p) (drop_table_template p) (lock_timeout_sql p) (type_map p).

Definition set_create_table_if_not_exists (v : bool) (p : t) : t :=
  mk
    (database_type p) (quote p) (auto_inc p) (supports_display_width p) (requires_explicit_varchar_length p) (max_varchar_len p)
    (inline_column_comment p) (foreign_keys_inline_in_create p) (drop_index_uses_on_table p) (drop_fk_as_foreign_key p)
    (drop_table_supports_cascade p) (drop_table_supports_if_exists p) (index_type_placement p) (index_supports_include p)
    (index_supports_filter p) (index_supports_comment p) (table_comment_via_alter p) (column_comment_via_modify_only p) (comment_ddl p)
    (trigger_template p) (rename_column p) (column_ddl p) (alter_uses_modify_column p) (add_column_uses_column_keyword p)
    (modify_column_uses_column_keyword p) (parenthesized_alter_column_clause p) (column_default_precedes_not_null p)
    (alter_batches_clauses p) (prefers_native_source_ddl p) (grant_uses_mysql_user_syntax p) (warn_fk_needs_table_rebuild p) v
    (create_index_if_not_exists p) (create_function_or_replace p) (supports_function_ddl p) (supports_sequence_ddl p) (supports_rule_ddl p)
    (supports_owner_ddl p) (function_create_template p) (function_drop_template p) (sequence_create_template p) (sequence_alter_template p)
    (sequence_drop_template p) (rule_drop_template p) (owner_alter_template p) (drop_table_template p) (lock_timeout_sql p) (type_map p).

Definition set_drop_table_supports_cascade (v : bool) (p : t) : t :=
  mk
    (database_type p) (quote p) (auto_inc p) (supports_display_width p) (requires_explicit_varchar_length p) (max_varchar_len p)
    (inline_column_comment p) (foreign_keys_inline_in_create p) (drop_index_uses_on_table p) (drop_fk_as_foreign_key p) v
    (drop_table_supports_if_exists p) (index_type_placement p) (index_supports_include p) (index_supports_filter p)
    (index_supports_comment p) (table_comment_via_alter p) (column_comment_via_modify_only p) (comment_ddl p) (trigger_template p)
    (rename_column p) (column_ddl p) (alter_uses_modify_column p) (add_column_uses_column_keyword p) (modify_column_uses_column_keyword p)
    (parenthesized_alter_column_clause p) (column_default_precedes_not_null p) (alter_batches_clauses p) (prefers_native_source_ddl p)
    (grant_uses_mysql_user_syntax p) (warn_fk_needs_table_rebuild p) (create_table_if_not_exists p) (create_index_if_not_exists p)
    (create_function_or_replace p) (supports_function_ddl p) (supports_sequence_ddl p) (supports_rule_ddl p) (supports_owner_ddl p)
    (function_create_template p) (function_drop_template p) (sequence_create_template p) (sequence_alter_template p)
    (sequence_drop_template p) (rule_drop_template p) (owner_alter_template p) (drop_table_template p) (lock_timeout_sql p) (type_map p).

Definition set_drop_table_supports_if_exists (v : bool) (p : t) : t :=
  mk
    (database_type p) (quote p) (auto_inc p) (supports_display_width p) (requires_explicit_varchar_length p) (max_varchar_len p)
    (inline_column_comment p) (foreign_keys_inline_in_create p) (drop_index_uses_on_table p) (drop_fk_as_foreign_key p)
    (drop_table_supports_cascade p) v (index_type_placement p) (index_supports_include p) (index_supports_filter p)
    (index_supports_comment p) (table_comment_via_alter p) (column_comment_via_modify_only p) (comment_ddl p) (trigger_template p)
    (rename_column p) (column_ddl p) (alter_uses_modify_column p) (add_column_uses_column_keyword p) (modify_column_uses_column_keyword p)
    (parenthesized_alter_column_clause p) (column_default_precedes_not_null p) (alter_batches_clauses p) (prefers_native_source_ddl p)
    (grant_uses_mysql_user_syntax p) (warn_fk_needs_table_rebuild p) (create_table_if_not_exists p) (create_index_if_not_exists p)
    (create_function_or_replace p) (supports_function_ddl p) (supports_sequence_ddl p) (supports_rule_ddl p) (supports_owner_ddl p)
    (function_create_template p) (function_drop_template p) (sequence_create_template p) (sequence_alter_template p)
    (sequence_drop_template p) (rule_drop_template p) (owner_alter_template p) (drop_table_template p) (lock_timeout_sql p) (type_map p).

Definition set_drop_table_template (v : text) (p : t) : t :=
  mk
    (database_type p) (quote p) (auto_inc p) (supports_display_width p) (requires_explicit_varchar_length p) (max_varchar_len p)
    (inline_column_comment p) (foreign_keys_inline_in_create p) (drop_index_uses_on_table p) (drop_fk_as_foreign_key p)
    (drop_table_supports_cascade p) (drop_table_supports_if_exists p) (index_type_placement p) (index_supports_include p)
    (index_supports_filter p) (index_supports_comment p) (table_comment_via_alter p) (column_comment_via_modify_only p) (comment_ddl p)
    (trigger_template p) (rename_column p) (column_ddl p) (alter_uses_modify_column p) (add_column_uses_column_keyword p)
    (modify_column_uses_column_keyword p) (parenthesized_alter_column_clause p) (column_default_precedes_not_null p)
    (alter_batches_clauses p) (prefers_native_source_ddl p) (grant_uses_mysql_user_syntax p) (warn_fk_needs_table_rebuild p)
    (create_table_if_not_exists p) (create_index_if_not_exists p) (create_function_or_replace p) (supports_function_ddl p)
    (supports_sequence_ddl p) (supports_rule_ddl p) (supports_owner_ddl p) (function_create_template p) (function_drop_template p)
    (sequence_create_template p) (sequence_alter_template p) (sequence_drop_template p) (rule_drop_template p) (owner_alter_template p) v
    (lock_timeout_sql p) (type_map p).

Definition set_lock_timeout_sql (v : option text) (p : t) : t :=
  mk
    (database_type p) (quote p) (auto_inc p) (supports_display_width p) (requires_explicit_varchar_length p) (max_varchar_len p)
    (inline_column_comment p) (foreign_keys_inline_in_create p) (drop_index_uses_on_table p) (drop_fk_as_foreign_key p)
    (drop_table_supports_cascade p) (drop_table_supports_if_exists p) (index_type_placement p) (index_supports_include p)
    (index_supports_filter p) (index_supports_comment p) (table_comment_via_alter p) (column_comment_via_modify_only p) (comment_ddl p)
    (trigger_template p) (rename_column p) (column_ddl p) (alter_uses_modify_column p) (add_column_uses_column_keyword p)
    (modify_column_uses_column_keyword p) (parenthesized_alter_column_clause p) (column_default_precedes_not_null p)
    (alter_batches_clauses p) (prefers_native_source_ddl p) (grant_uses_mysql_user_syntax p) (warn_fk_needs_table_rebuild p)
    (create_table_if_not_exists p) (create_index_if_not_exists p) (create_function_or_replace p) (supports_function_ddl p)
    (supports_sequence_ddl p) (supports_rule_ddl p) (supports_owner_ddl p) (function_create_template p) (function_drop_template p)
    (sequence_create_template p) (sequence_alter_template p) (sequence_drop_template p) (rule_drop_template p) (owner_alter_template p)
    (drop_table_template p) v (type_map p).

Definition set_parenthesized_alter_column_clause (v : bool) (p : t) : t :=
  mk
    (database_type p) (quote p) (auto_inc p) (supports_display_width p) (requires_explicit_varchar_length p) (max_varchar_len p)
    (inline_column_comment p) (foreign_keys_inline_in_create p) (drop_index_uses_on_table p) (drop_fk_as_foreign_key p)
    (drop_table_supports_cascade p) (drop_table_supports_if_exists p) (index_type_placement p) (index_supports_include p)
    (index_supports_filter p) (index_supports_comment p) (table_comment_via_alter p) (column_comment_via_modify_only p) (comment_ddl p)
    (trigger_template p) (rename_column p) (column_ddl p) (alter_uses_modify_column p) (add_column_uses_column_keyword p)
    (modify_column_uses_column_keyword p) v (column_default_precedes_not_null p) (alter_batches_clauses p) (prefers_native_source_ddl p)
    (grant_uses_mysql_user_syntax p) (warn_fk_needs_table_rebuild p) (create_table_if_not_exists p) (create_index_if_not_exists p)
    (create_function_or_replace p) (supports_function_ddl p) (supports_sequence_ddl p) (supports_rule_ddl p) (supports_owner_ddl p)
    (function_create_template p) (function_drop_template p) (sequence_create_template p) (sequence_alter_template p)
    (sequence_drop_template p) (rule_drop_template p) (owner_alter_template p) (drop_table_template p) (lock_timeout_sql p) (type_map p).

End DdlDialectProfile.

(** [s.replace(c, "cc")] between two delimiters. *)
Definition double_char (c : char) (s : text) : text := s ≫= fun d => if (d =? c)%N then [d; d] else [d].
Definition delimited (open close : char) (name : text) : text := open :: double_char close name ++ [close].

Definition lookup_type (p : DdlDialectProfile.t) (source_base_upper : text) : option text :=
  target_template <$> List.find (fun e => eq_ignore_ascii_case (source_base e) source_base_upper) (DdlDialectProfile.type_map p).

(** An Oracle name that has to be quoted. *)
Definition needs_quotes (name : text) : bool :=
  let has_lower := existsb is_ascii_lowercase name in
  let has_upper := existsb is_ascii_uppercase name in
  let has_special :=
    existsb (fun c => negb (is_ascii_alphanumeric c) && negb (c =? under)%N && negb (c =? dollar)%N && negb (c =? hash)%N) name in
  let bad_start := match name with [] => true | c :: _ => negb (is_ascii_alphabetic c || (c =? under)%N) end in
  (has_lower && has_upper) || has_special || bad_start.

Definition quote_ident (p : DdlDialectProfile.t) (name : text) : text :=
  match DdlDialectProfile.quote p with
  | Backtick => delimited backtick backtick name
  | DoubleQuote => delimited dquote dquote name
  | Brackets => delimited lbracket rbracket name
  | UnquotedUpper => if needs_quotes name then delimited dquote dquote name else upper name
  end.

Definition alter_modify_keyword (p : DdlDialectProfile.t) : text :=
  if DdlDialectProfile.modify_column_uses_column_keyword p then %"MODIFY COLUMN" else %"MODIFY".

Definition alter_column_type_clause (p : DdlDialectProfile.t) (name data_type : text) : text :=
  if DdlDialectProfile.parenthesized_alter_column_clause p
  then %"  " ++ alter_modify_keyword p ++ %" (" ++ name ++ %" " ++ data_type ++ %")"
  else %"  ALTER COLUMN " ++ name ++ %" TYPE " ++ data_type.

Definition alter_column_nullability_clause (p : DdlDialectProfile.t) (name : text) (nullable : bool) : text :=
  if DdlDialectProfile.parenthesized_alter_column_clause p
  then %"  " ++ alter_modify_keyword p ++ %" (" ++ name ++ %" " ++ (if nullable then %"NULL" else %"NOT NULL") ++ %")"
  else if nullable then %"  ALTER COLUMN " ++ name ++ %" DROP NOT NULL"
  else %"  ALTER COLUMN " ++ name ++ %" SET NOT NULL".

(** One replacement after the other, in the order of [vars]. *)
Definition render_template (template : text) (vars : list (text * text)) : text :=
  foldl (fun out kv => replace (%"{" ++ kv.1 ++ %"}") kv.2 out) template vars.

(** ** Templates and type maps *)

Definition FN_CREATE : text :=
  %"{create_kw} {name} {definition};".
Definition FN_DROP : text :=
  %"DROP FUNCTION IF EXISTS {name}{cascade};".
Definition SEQ_CREATE : text :=
  %"CREATE SEQUENCE {name} AS {data_type} START WITH {start_value} INCREMENT BY {increment} MINVALUE {min_value} MAXVALUE {max_value} {cycle};".
Definition SEQ_ALTER : text :=
  %"ALTER SEQUENCE {name} AS {data_type} START WITH {start_value} INCREMENT BY {increment} MINVALUE {min_value} MAXVALUE {max_value} {cycle};".
Definition SEQ_DROP : text :=
  %"DROP SEQUENCE {name}{cascade};".
Definition SQLSERVER_FN_DROP : text :=
  %"DROP FUNCTION {name};".
Definition SQLSERVER_SEQ_ALTER : text :=
  %"ALTER SEQUENCE {name} RESTART WITH {start_value} INCREMENT BY {increment} MINVALUE {min_value} MAXVALUE {max_value} {cycle};".
Definition RULE_DROP : text :=
  %"DROP RULE IF EXISTS {rule_name} ON {table_name}{cascade};".
Definition OWNER_ALTER : text :=
  %"ALTER {object_type} {name} OWNER TO {owner};".
Definition DROP_TABLE : text :=
  %"DROP TABLE {table}{cascade};".

Definition ACCESS_TYPE_MAP : list TypeMapEntry :=
  map (fun e => mk_type_map e.1 e.2) [
    (%"BOOL", %"YESNO"); (%"BOOLEAN", %"YESNO"); (%"BIT", %"YESNO"); (%"YESNO", %"YESNO"); (%"TINYINT", %"BYTE"); (%"BYTE", %"BYTE");
    (%"SMALLINT", %"SMALLINT"); (%"SHORT", %"SMALLINT"); (%"MEDIUMINT", %"INTEGER"); (%"INT", %"INTEGER"); (%"INTEGER", %"INTEGER");
    (%"INT4", %"INTEGER"); (%"LONG", %"INTEGER"); (%"BIGINT", %"DECIMAL(20,0)"); (%"INT8", %"DECIMAL(20,0)"); (%"FLOAT", %"SINGLE");
    (%"REAL", %"SINGLE"); (%"SINGLE", %"SINGLE"); (%"DOUBLE", %"DOUBLE"); (%"DOUBLE PRECISION", %"DOUBLE"); (%"DECIMAL", %"DECIMAL({})");
    (%"NUMERIC", %"DECIMAL({})"); (%"NUMBER", %"DECIMAL({})"); (%"CURRENCY", %"CURRENCY"); (%"VARCHAR", %"TEXT({})");
    (%"CHARACTER VARYING", %"TEXT({})"); (%"CHAR", %"TEXT({})"); (%"CHARACTER", %"TEXT({})"); (%"NVARCHAR", %"TEXT({})");
    (%"NVARCHAR2", %"TEXT({})"); (%"VARCHAR2", %"TEXT({})"); (%"TEXT", %"LONGTEXT"); (%"TINYTEXT", %"LONGTEXT");
    (%"MEDIUMTEXT", %"LONGTEXT"); (%"LONGTEXT", %"LONGTEXT"); (%"CLOB", %"LONGTEXT"); (%"MEMO", %"LONGTEXT"); (%"DATE", %"DATETIME");
    (%"DATETIME", %"DATETIME"); (%"TIMESTAMP", %"DATETIME"); (%"TIME", %"DATETIME"); (%"YEAR", %"SMALLINT"); (%"BLOB", %"OLEOBJECT");
    (%"TINYBLOB", %"OLEOBJECT"); (%"MEDIUMBLOB", %"OLEOBJECT"); (%"LONGBLOB", %"OLEOBJECT"); (%"BINARY", %"OLEOBJECT");
    (%"VARBINARY", %"OLEOBJECT"); (%"IMAGE", %"OLEOBJECT"); (%"JSON", %"LONGTEXT"); (%"JSONB", %"LONGTEXT"); (%"UUID", %"GUID");
    (%"UNIQUEIDENTIFIER", %"GUID"); (%"GUID", %"GUID")].

Definition SQLITE_TYPE_MAP : list TypeMapEntry :=
  map (fun e => mk_type_map e.1 e.2) [
    (%"TINYINT", %"INTEGER"); (%"SMALLINT", %"INTEGER"); (%"MEDIUMINT", %"INTEGER"); (%"INT", %"INTEGER"); (%"INTEGER", %"INTEGER");
    (%"BIGINT", %"INTEGER"); (%"FLOAT", %"REAL"); (%"DOUBLE", %"REAL"); (%"DOUBLE PRECISION", %"REAL"); (%"DECIMAL", %"NUMERIC");
    (%"NUMERIC", %"NUMERIC"); (%"VARCHAR", %"TEXT"); (%"CHAR", %"TEXT"); (%"TEXT", %"TEXT"); (%"TINYTEXT", %"TEXT");
    (%"MEDIUMTEXT", %"TEXT"); (%"LONGTEXT", %"TEXT"); (%"DATETIME", %"TEXT"); (%"TIMESTAMP", %"TEXT"); (%"DATE", %"TEXT");
    (%"BLOB", %"BLOB"); (%"JSON", %"TEXT")].

Definition POSTGRES_TYPE_MAP : list TypeMapEntry :=
  map (fun e => mk_type_map e.1 e.2) [
    (%"UNIQUEIDENTIFIER", %"UUID"); (%"GUID", %"UUID")].

(** ** Families *)

Definition mysql_family (db : DatabaseType) : DdlDialectProfile.t :=
  {|
    DdlDialectProfile.database_type := db; DdlDialectProfile.quote := Backtick; DdlDialectProfile.auto_inc := Suffix %" AUTO_INCREMENT";
    DdlDialectProfile.supports_display_width := true; DdlDialectProfile.requires_explicit_varchar_length := true;
    DdlDialectProfile.max_varchar_len := Some 65535%N; DdlDialectProfile.inline_column_comment := true;
    DdlDialectProfile.foreign_keys_inline_in_create := false; DdlDialectProfile.drop_index_uses_on_table := true;
    DdlDialectProfile.drop_fk_as_foreign_key := true; DdlDialectProfile.drop_table_supports_cascade := false;
    DdlDialectProfile.drop_table_supports_if_exists := true; DdlDialectProfile.index_type_placement := UsingBeforeOn;
    DdlDialectProfile.index_supports_include := false; DdlDialectProfile.index_supports_filter := false;
    DdlDialectProfile.index_supports_comment := true; DdlDialectProfile.table_comment_via_alter := true;
    DdlDialectProfile.column_comment_via_modify_only := true; DdlDialectProfile.comment_ddl := GenericComment;
    DdlDialectProfile.trigger_template := MysqlStyle; DdlDialectProfile.rename_column := MysqlChangeColumn;
    DdlDialectProfile.column_ddl := GenericColumnDdl; DdlDialectProfile.alter_uses_modify_column := true;
    DdlDialectProfile.add_column_uses_column_keyword := true; DdlDialectProfile.modify_column_uses_column_keyword := true;
    DdlDialectProfile.parenthesized_alter_column_clause := false; DdlDialectProfile.column_default_precedes_not_null := false;
    DdlDialectProfile.alter_batches_clauses := true; DdlDialectProfile.prefers_native_source_ddl := true;
    DdlDialectProfile.grant_uses_mysql_user_syntax := true; DdlDialectProfile.warn_fk_needs_table_rebuild := false;
    DdlDialectProfile.create_table_if_not_exists := true; DdlDialectProfile.create_index_if_not_exists := false;
    DdlDialectProfile.create_function_or_replace := false; DdlDialectProfile.supports_function_ddl := false;
    DdlDialectProfile.supports_sequence_ddl := false; DdlDialectProfile.supports_rule_ddl := false;
    DdlDialectProfile.supports_owner_ddl := false; DdlDialectProfile.function_create_template := None;
    DdlDialectProfile.function_drop_template := None; DdlDialectProfile.sequence_create_template := None;
    DdlDialectProfile.sequence_alter_template := None; DdlDialectProfile.sequence_drop_template := None;
    DdlDialectProfile.rule_drop_template := None; DdlDialectProfile.owner_alter_template := None;
    DdlDialectProfile.drop_table_template := DROP_TABLE; DdlDialectProfile.lock_timeout_sql := Some %"SET SESSION lock_wait_timeout = 3;";
    DdlDialectProfile.type_map := []
  |}.

Definition postgres_family (db : DatabaseType) : DdlDialectProfile.t :=
  {|
    DdlDialectProfile.database_type := db; DdlDialectProfile.quote := DoubleQuote; DdlDialectProfile.auto_inc := PostgresSequence;
    DdlDialectProfile.supports_display_width := false; DdlDialectProfile.requires_explicit_varchar_length := false;
    DdlDialectProfile.max_varchar_len := None; DdlDialectProfile.inline_column_comment := false;
    DdlDialectProfile.foreign_keys_inline_in_create := false; DdlDialectProfile.drop_index_uses_on_table := false;
    DdlDialectProfile.drop_fk_as_foreign_key := false; DdlDialectProfile.drop_table_supports_cascade := true;
    DdlDialectProfile.drop_table_supports_if_exists := true; DdlDialectProfile.index_type_placement := UsingSuffix;
    DdlDialectProfile.index_supports_include := true; DdlDialectProfile.index_supports_filter := true;
    DdlDialectProfile.index_supports_comment := false; DdlDialectProfile.table_comment_via_alter := false;
    DdlDialectProfile.column_comment_via_modify_only := false; DdlDialectProfile.comment_ddl := GenericComment;
    DdlDialectProfile.trigger_template := PostgresStyle; DdlDialectProfile.rename_column := RenameColumn;
    DdlDialectProfile.column_ddl := GenericColumnDdl; DdlDialectProfile.alter_uses_modify_column := false;
    DdlDialectProfile.add_column_uses_column_keyword := true; DdlDialectProfile.modify_column_uses_column_keyword := true;
    DdlDialectProfile.parenthesized_alter_column_clause := false; DdlDialectProfile.column_default_precedes_not_null := false;
    DdlDialectProfile.alter_batches_clauses := false; DdlDialectProfile.prefers_native_source_ddl := false;
    DdlDialectProfile.grant_uses_mysql_user_syntax := false; DdlDialectProfile.warn_fk_needs_table_rebuild := false;
    DdlDialectProfile.create_table_if_not_exists := false; DdlDialectProfile.create_index_if_not_exists := true;
    DdlDialectProfile.create_function_or_replace := true; DdlDialectProfile.supports_function_ddl := true;
    DdlDialectProfile.supports_sequence_ddl := true; DdlDialectProfile.supports_rule_ddl := true;
    DdlDialectProfile.supports_owner_ddl := true; DdlDialectProfile.function_create_template := Some FN_CREATE;
    DdlDialectProfile.function_drop_template := Some FN_DROP; DdlDialectProfile.sequence_create_template := Some SEQ_CREATE;
    DdlDialectProfile.sequence_alter_template := Some SEQ_ALTER; DdlDialectProfile.sequence_drop_template := Some SEQ_DROP;
    DdlDialectProfile.rule_drop_template := Some RULE_DROP; DdlDialectProfile.owner_alter_template := Some OWNER_ALTER;
    DdlDialectProfile.drop_table_template := DROP_TABLE; DdlDialectProfile.lock_timeout_sql := Some %"SET lock_timeout = '3s';";
    DdlDialectProfile.type_map := POSTGRES_TYPE_MAP
  |}.

Definition oracle_family (db : DatabaseType) : DdlDialectProfile.t :=
  {|
    DdlDialectProfile.database_type := db; DdlDialectProfile.quote := UnquotedUpper;
    DdlDialectProfile.auto_inc := Suffix %" GENERATED BY DEFAULT AS IDENTITY"; DdlDialectProfile.supports_display_width := false;
    DdlDialectProfile.requires_explicit_varchar_length := false; DdlDialectProfile.max_varchar_len := Some 4000%N;
    DdlDialectProfile.inline_column_comment := false; DdlDialectProfile.foreign_keys_inline_in_create := false;
    DdlDialectProfile.drop_index_uses_on_table := false; DdlDialectProfile.drop_fk_as_foreign_key := false;
    DdlDialectProfile.drop_table_supports_cascade := false; DdlDialectProfile.drop_table_supports_if_exists := false;
    DdlDialectProfile.index_type_placement := NoIndexType; DdlDialectProfile.index_supports_include := false;
    DdlDialectProfile.index_supports_filter := false; DdlDialectProfile.index_supports_comment := false;
    DdlDialectProfile.table_comment_via_alter := false; DdlDialectProfile.column_comment_via_modify_only := false;
    DdlDialectProfile.comment_ddl := GenericComment; DdlDialectProfile.trigger_template := GenericRowBody;
    DdlDialectProfile.rename_column := RenameColumn; DdlDialectProfile.column_ddl := GenericColumnDdl;
    DdlDialectProfile.alter_uses_modify_column := false; DdlDialectProfile.add_column_uses_column_keyword := true;
    DdlDialectProfile.modify_column_uses_column_keyword := false; DdlDialectProfile.parenthesized_alter_column_clause := false;
    DdlDialectProfile.column_default_precedes_not_null := false; DdlDialectProfile.alter_batches_clauses := false;
    DdlDialectProfile.prefers_native_source_ddl := false; DdlDialectProfile.grant_uses_mysql_user_syntax := false;
    DdlDialectProfile.warn_fk_needs_table_rebuild := false; DdlDialectProfile.create_table_if_not_exists := false;
    DdlDialectProfile.create_index_if_not_exists := false; DdlDialectProfile.create_function_or_replace := false;
    DdlDialectProfile.supports_function_ddl := true; DdlDialectProfile.supports_sequence_ddl := true;
    DdlDialectProfile.supports_rule_ddl := false; DdlDialectProfile.supports_owner_ddl := false;
    DdlDialectProfile.function_create_template := Some FN_CREATE; DdlDialectProfile.function_drop_template := Some FN_DROP;
    DdlDialectProfile.sequence_create_template := Some SEQ_CREATE; DdlDialectProfile.sequence_alter_template := Some SEQ_ALTER;
    DdlDialectProfile.sequence_drop_template := Some SEQ_DROP; DdlDialectProfile.rule_drop_template := None;
    DdlDialectProfile.owner_alter_template := None; DdlDialectProfile.drop_table_template := DROP_TABLE;
    DdlDialectProfile.lock_timeout_sql := Some %"ALTER SESSION SET DDL_LOCK_TIMEOUT = 3;"; DdlDialectProfile.type_map := []
  |}.

Definition sqlserver_family (db : DatabaseType) : DdlDialectProfile.t :=
  {|
    DdlDialectProfile.database_type := db; DdlDialectProfile.quote := Brackets; DdlDialectProfile.auto_inc := Suffix %" IDENTITY(1,1)";
    DdlDialectProfile.supports_display_width := false; DdlDialectProfile.requires_explicit_varchar_length := false;
    DdlDialectProfile.max_varchar_len := None; DdlDialectProfile.inline_column_comment := false;
    DdlDialectProfile.foreign_keys_inline_in_create := false; DdlDialectProfile.drop_index_uses_on_table := false;
    DdlDialectProfile.drop_fk_as_foreign_key := false; DdlDialectProfile.drop_table_supports_cascade := false;
    DdlDialectProfile.drop_table_supports_if_exists := true; DdlDialectProfile.index_type_placement := TypePrefix;
    DdlDialectProfile.index_supports_include := true; DdlDialectProfile.index_supports_filter := true;
    DdlDialectProfile.index_supports_comment := false; DdlDialectProfile.table_comment_via_alter := false;
    DdlDialectProfile.column_comment_via_modify_only := false; DdlDialectProfile.comment_ddl := SqlServerExtendedProperty;
    DdlDialectProfile.trigger_template := SqlServerStyle; DdlDialectProfile.rename_column := SqlServerSpRename;
    DdlDialectProfile.column_ddl := SqlServerColumnDdl; DdlDialectProfile.alter_uses_modify_column := false;
    DdlDialectProfile.add_column_uses_column_keyword := true; DdlDialectProfile.modify_column_uses_column_keyword := true;
    DdlDialectProfile.parenthesized_alter_column_clause := false; DdlDialectProfile.column_default_precedes_not_null := false;
    DdlDialectProfile.alter_batches_clauses := false; DdlDialectProfile.prefers_native_source_ddl := false;
    DdlDialectProfile.grant_uses_mysql_user_syntax := false; DdlDialectProfile.warn_fk_needs_table_rebuild := false;
    DdlDialectProfile.create_table_if_not_exists := false; DdlDialectProfile.create_index_if_not_exists := false;
    DdlDialectProfile.create_function_or_replace := false; DdlDialectProfile.supports_function_ddl := true;
    DdlDialectProfile.supports_sequence_ddl := true; DdlDialectProfile.supports_rule_ddl := false;
    DdlDialectProfile.supports_owner_ddl := false; DdlDialectProfile.function_create_template := Some FN_CREATE;
    DdlDialectProfile.function_drop_template := Some SQLSERVER_FN_DROP; DdlDialectProfile.sequence_create_template := Some SEQ_CREATE;
    DdlDialectProfile.sequence_alter_template := Some SQLSERVER_SEQ_ALTER; DdlDialectProfile.sequence_drop_template := Some SEQ_DROP;
    DdlDialectProfile.rule_drop_template := None; DdlDialectProfile.owner_alter_template := None;
    DdlDialectProfile.drop_table_template := DROP_TABLE; DdlDialectProfile.lock_timeout_sql := Some %"SET LOCK_TIMEOUT 3000;";
    DdlDialectProfile.type_map := []
  |}.

Definition sqlite_family (db : DatabaseType) : DdlDialectProfile.t :=
  {|
    DdlDialectProfile.database_type := db; DdlDialectProfile.quote := DoubleQuote; DdlDialectProfile.auto_inc := Suffix %" AUTOINCREMENT";
    DdlDialectProfile.supports_display_width := false; DdlDialectProfile.requires_explicit_varchar_length := false;
    DdlDialectProfile.max_varchar_len := None; DdlDialectProfile.inline_column_comment := false;
    DdlDialectProfile.foreign_keys_inline_in_create := true; DdlDialectProfile.drop_index_uses_on_table := false;
    DdlDialectProfile.drop_fk_as_foreign_key := false; DdlDialectProfile.drop_table_supports_cascade := false;
    DdlDialectProfile.drop_table_supports_if_exists := true; DdlDialectProfile.index_type_placement := NoIndexType;
    DdlDialectProfile.index_supports_include := false; DdlDialectProfile.index_supports_filter := true;
    DdlDialectProfile.index_supports_comment := false; DdlDialectProfile.table_comment_via_alter := false;
    DdlDialectProfile.column_comment_via_modify_only := false; DdlDialectProfile.comment_ddl := GenericComment;
    DdlDialectProfile.trigger_template := GenericRowBody; DdlDialectProfile.rename_column := RenameColumn;
    DdlDialectProfile.column_ddl := GenericColumnDdl; DdlDialectProfile.alter_uses_modify_column := false;
    DdlDialectProfile.add_column_uses_column_keyword := true; DdlDialectProfile.modify_column_uses_column_keyword := true;
    DdlDialectProfile.parenthesized_alter_column_clause := false; DdlDialectProfile.column_default_precedes_not_null := false;
    DdlDialectProfile.alter_batches_clauses := false; DdlDialectProfile.prefers_native_source_ddl := false;
    DdlDialectProfile.grant_uses_mysql_user_syntax := false; DdlDialectProfile.warn_fk_needs_table_rebuild := true;
    DdlDialectProfile.create_table_if_not_exists := true; DdlDialectProfile.create_index_if_not_exists := true;
    DdlDialectProfile.create_function_or_replace := false; DdlDialectProfile.supports_function_ddl := false;
    DdlDialectProfile.supports_sequence_ddl := false; DdlDialectProfile.supports_rule_ddl := false;
    DdlDialectProfile.supports_owner_ddl := false; DdlDialectProfile.function_create_template := None;
    DdlDialectProfile.function_drop_template := None; DdlDialectProfile.sequence_create_template := None;
    DdlDialectProfile.sequence_alter_template := None; DdlDialectProfile.sequence_drop_template := None;
    DdlDialectProfile.rule_drop_template := None; DdlDialectProfile.owner_alter_template := None;
    DdlDialectProfile.drop_table_template := DROP_TABLE; DdlDialectProfile.lock_timeout_sql := None;
    DdlDialectProfile.type_map := SQLITE_TYPE_MAP
  |}.

Definition access_profile : DdlDialectProfile.t :=
  {|
    DdlDialectProfile.database_type := Access; DdlDialectProfile.quote := DoubleQuote;
    DdlDialectProfile.auto_inc := ReplaceTypeWith %"COUNTER"; DdlDialectProfile.supports_display_width := false;
    DdlDialectProfile.requires_explicit_varchar_length := false; DdlDialectProfile.max_varchar_len := Some 255%N;
    DdlDialectProfile.inline_column_comment := false; DdlDialectProfile.foreign_keys_inline_in_create := false;
    DdlDialectProfile.drop_index_uses_on_table := false; DdlDialectProfile.drop_fk_as_foreign_key := false;
    DdlDialectProfile.drop_table_supports_cascade := false; DdlDialectProfile.drop_table_supports_if_exists := false;
    DdlDialectProfile.index_type_placement := NoIndexType; DdlDialectProfile.index_supports_include := false;
    DdlDialectProfile.index_supports_filter := false; DdlDialectProfile.index_supports_comment := false;
    DdlDialectProfile.table_comment_via_alter := false; DdlDialectProfile.column_comment_via_modify_only := false;
    DdlDialectProfile.comment_ddl := GenericComment; DdlDialectProfile.trigger_template := GenericRowBody;
    DdlDialectProfile.rename_column := RenameColumn; DdlDialectProfile.column_ddl := GenericColumnDdl;
    DdlDialectProfile.alter_uses_modify_column := false; DdlDialectProfile.add_column_uses_column_keyword := true;
    DdlDialectProfile.modify_column_uses_column_keyword := true; DdlDialectProfile.parenthesized_alter_column_clause := false;
    DdlDialectProfile.column_default_precedes_not_null := false; DdlDialectProfile.alter_batches_clauses := false;
    DdlDialectProfile.prefers_native_source_ddl := false; DdlDialectProfile.grant_uses_mysql_user_syntax := false;
    DdlDialectProfile.warn_fk_needs_table_rebuild := false; DdlDialectProfile.create_table_if_not_exists := false;
    DdlDialectProfile.create_index_if_not_exists := false; DdlDialectProfile.create_function_or_replace := false;
    DdlDialectProfile.supports_function_ddl := false; DdlDialectProfile.supports_sequence_ddl := false;
    DdlDialectProfile.supports_rule_ddl := false; DdlDialectProfile.supports_owner_ddl := false;
    DdlDialectProfile.function_create_template := None; DdlDialectProfile.function_drop_template := None;
    DdlDialectProfile.sequence_create_template := None; DdlDialectProfile.sequence_alter_template := None;
    DdlDialectProfile.sequence_drop_template := None; DdlDialectProfile.rule_drop_template := None;
    DdlDialectProfile.owner_alter_template := None; DdlDialectProfile.drop_table_template := DROP_TABLE;
    DdlDialectProfile.lock_timeout_sql := None; DdlDialectProfile.type_map := ACCESS_TYPE_MAP
  |}.

Definition h2_profile : DdlDialectProfile.t :=
  {|
    DdlDialectProfile.database_type := H2; DdlDialectProfile.quote := DoubleQuote; DdlDialectProfile.auto_inc := NoAutoInc;
    DdlDialectProfile.supports_display_width := false; DdlDialectProfile.requires_explicit_varchar_length := false;
    DdlDialectProfile.max_varchar_len := None; DdlDialectProfile.inline_column_comment := false;
    DdlDialectProfile.foreign_keys_inline_in_create := false; DdlDialectProfile.drop_index_uses_on_table := false;
    DdlDialectProfile.drop_fk_as_foreign_key := false; DdlDialectProfile.drop_table_supports_cascade := false;
    DdlDialectProfile.drop_table_supports_if_exists := true; DdlDialectProfile.index_type_placement := NoIndexType;
    DdlDialectProfile.index_supports_include := false; DdlDialectProfile.index_supports_filter := false;
    DdlDialectProfile.index_supports_comment := false; DdlDialectProfile.table_comment_via_alter := false;
    DdlDialectProfile.column_comment_via_modify_only := false; DdlDialectProfile.comment_ddl := GenericComment;
    DdlDialectProfile.trigger_template := GenericRowBody; DdlDialectProfile.rename_column := AlterColumnRenameTo;
    DdlDialectProfile.column_ddl := GenericColumnDdl; DdlDialectProfile.alter_uses_modify_column := false;
    DdlDialectProfile.add_column_uses_column_keyword := true; DdlDialectProfile.modify_column_uses_column_keyword := true;
    DdlDialectProfile.parenthesized_alter_column_clause := false; DdlDialectProfile.column_default_precedes_not_null := false;
    DdlDialectProfile.alter_batches_clauses := false; DdlDialectProfile.prefers_native_source_ddl := false;
    DdlDialectProfile.grant_uses_mysql_user_syntax := false; DdlDialectProfile.warn_fk_needs_table_rebuild := false;
    DdlDialectProfile.create_table_if_not_exists := false; DdlDialectProfile.create_index_if_not_exists := false;
    DdlDialectProfile.create_function_or_replace := false; DdlDialectProfile.supports_function_ddl := false;
    DdlDialectProfile.supports_sequence_ddl := false; DdlDialectProfile.supports_rule_ddl := false;
    DdlDialectProfile.supports_owner_ddl := false; DdlDialectProfile.function_create_template := None;
    DdlDialectProfile.function_drop_template := None; DdlDialectProfile.sequence_create_template := None;
    DdlDialectProfile.sequence_alter_template := None; DdlDialectProfile.sequence_drop_template := None;
    DdlDialectProfile.rule_drop_template := None; DdlDialectProfile.owner_alter_template := None;
    DdlDialectProfile.drop_table_template := DROP_TABLE; DdlDialectProfile.lock_timeout_sql := None; DdlDialectProfile.type_map := []
  |}.

Definition conservative_ansi (db : DatabaseType) : DdlDialectProfile.t :=
  {|
    DdlDialectProfile.database_type := db; DdlDialectProfile.quote := DoubleQuote; DdlDialectProfile.auto_inc := NoAutoInc;
    DdlDialectProfile.supports_display_width := false; DdlDialectProfile.requires_explicit_varchar_length := false;
    DdlDialectProfile.max_varchar_len := None; DdlDialectProfile.inline_column_comment := false;
    DdlDialectProfile.foreign_keys_inline_in_create := false; DdlDialectProfile.drop_index_uses_on_table := false;
    DdlDialectProfile.drop_fk_as_foreign_key := false; DdlDialectProfile.drop_table_supports_cascade := false;
    DdlDialectProfile.drop_table_supports_if_exists := true; DdlDialectProfile.index_type_placement := NoIndexType;
    DdlDialectProfile.index_supports_include := false; DdlDialectProfile.index_supports_filter := false;
    DdlDialectProfile.index_supports_comment := false; DdlDialectProfile.table_comment_via_alter := false;
    DdlDialectProfile.column_comment_via_modify_only := false; DdlDialectProfile.comment_ddl := GenericComment;
    DdlDialectProfile.trigger_template := GenericRowBody; DdlDialectProfile.rename_column := RenameColumn;
    DdlDialectProfile.column_ddl := GenericColumnDdl; DdlDialectProfile.alter_uses_modify_column := false;
    DdlDialectProfile.add_column_uses_column_keyword := true; DdlDialectProfile.modify_column_uses_column_keyword := true;
    DdlDialectProfile.parenthesized_alter_column_clause := false; DdlDialectProfile.column_default_precedes_not_null := false;
    DdlDialectProfile.alter_batches_clauses := false; DdlDialectProfile.prefers_native_source_ddl := false;
    DdlDialectProfile.grant_uses_mysql_user_syntax := false; DdlDialectProfile.warn_fk_needs_table_rebuild := false;
    DdlDialectProfile.create_table_if_not_exists := false; DdlDialectProfile.create_index_if_not_exists := false;
    DdlDialectProfile.create_function_or_replace := false; DdlDialectProfile.supports_function_ddl := false;
    DdlDialectProfile.supports_sequence_ddl := false; DdlDialectProfile.supports_rule_ddl := false;
    DdlDialectProfile.supports_owner_ddl := false; DdlDialectProfile.function_create_template := None;
    DdlDialectProfile.function_drop_template := None; DdlDialectProfile.sequence_create_template := None;
    DdlDialectProfile.sequence_alter_template := None; DdlDialectProfile.sequence_drop_template := None;
    DdlDialectProfile.rule_drop_template := None; DdlDialectProfile.owner_alter_template := None;
    DdlDialectProfile.drop_table_template := DROP_TABLE; DdlDialectProfile.lock_timeout_sql := None; DdlDialectProfile.type_map := []
  |}.

Definition clickhouse_profile : DdlDialectProfile.t :=
  DdlDialectProfile.set_lock_timeout_sql None
    (DdlDialectProfile.set_create_table_if_not_exists true (conservative_ansi ClickHouse)).

Definition influxdb_profile : DdlDialectProfile.t :=
  DdlDialectProfile.set_drop_table_supports_if_exists false
    (DdlDialectProfile.set_drop_table_template %"DROP MEASUREMENT {table};" (conservative_ansi InfluxDb)).

(** ** Registration *)

Definition db_in (db : DatabaseType) (l : list DatabaseType) : bool := existsb (fun d => bool_decide (d = db)) l.

Definition profile_for (db_type : DatabaseType) : DdlDialectProfile.t :=
  if db_in db_type [Mysql; Doris; StarRocks; Goldendb; Sundb; Databend; Gbase; ManticoreSearch] then mysql_family db_type
  else if db_in db_type [Dameng] then
    DdlDialectProfile.set_auto_inc (Suffix %" IDENTITY(1,1)") (DdlDialectProfile.set_alter_uses_modify_column true (oracle_family db_type))
  else if db_in db_type [Postgres; Redshift; Gaussdb; Kingbase; Highgo; Vastbase; OpenGauss; Kwdb; Uxdb; Gbase8c] then
    postgres_family db_type
  else if db_in db_type [Firebird; Vertica; Exasol] then
    DdlDialectProfile.set_drop_table_supports_if_exists (negb (bool_decide (db_type = Firebird)))
      (DdlDialectProfile.set_drop_table_supports_cascade false (postgres_family db_type))
  else if db_in db_type [Oracle; OceanbaseOracle] then
    DdlDialectProfile.set_column_default_precedes_not_null true
      (DdlDialectProfile.set_parenthesized_alter_column_clause true
         (DdlDialectProfile.set_add_column_uses_column_keyword false (oracle_family db_type)))
  else if db_in db_type [Yashandb; Xugu; Iris] then oracle_family db_type
  else if db_in db_type [SqlServer] then sqlserver_family db_type
  else if db_in db_type [Access] then access_profile
  else if db_in db_type [Sqlite; Rqlite; Turso; CloudflareD1] then sqlite_family db_type
  else if db_in db_type [H2] then h2_profile
  else if db_in db_type [ClickHouse] then clickhouse_profile
  else if db_in db_type [Db2; Informix; Gbase8s; SapHana; Teradata] then
    DdlDialectProfile.set_drop_table_supports_if_exists false (conservative_ansi db_type)
  else if db_in db_type [InfluxDb] then influxdb_profile
  else conservative_ansi db_type.
