(* ===== verification/Identifiers.v ===== *)
(** * Identifiers: quoting and qualifying names
      ([dbx-sql-dialect/identifiers.rs], [capabilities.rs]).

    How a table or column name is written for each database, with its schema,
    database or catalog in front.  The percent encoding of linked-server schemas
    (class [PercentDecode]) and the letters outside ASCII (class [LetterTable]) are
    parameters. *)

From stdpp Require Import list.
From S2P Require Import Prelude DbTypes WriteClass SchemaTypes ViewDdl DdlProfile.

(** [percent_decode_str(value).decode_utf8().ok()]. *)
Class PercentDecode := { percent_decode : text -> option text }.

(** [char::is_alphabetic] outside ASCII. *)
Class LetterTable := { nonascii_alphabetic : char -> bool }.

Definition is_alphabetic `{LetterTable} (c : char) : bool :=
  if (c <? 128)%N then is_ascii_alphabetic c else nonascii_alphabetic c.

(** ** Capabilities *)

Inductive TablePaginationStrategy : Set :=
  LimitOffset | FetchFirst | Db2FetchFirst | SqlServerTop | IrisTop | InformixFirst | FirebirdRows | Rownum | QuestDbLimit
| Unbounded | AgentMaxRows.

Inductive PaginationContext : Set := TablePreview | BoundedRead | UserQuery.

Definition SCHEMA_AWARE : list DatabaseType :=
  [
   Postgres; SqlServer; Oracle; Redshift; Dameng; Gaussdb; Kwdb; Kingbase; Highgo; Uxdb; Gbase8c; Vastbase; Yashandb; Oscar;
   Databricks; SapHana; Teradata; Vertica; Exasol; OpenGauss; OceanbaseOracle; Gbase; Gbase8s; Databend; Jdbc; H2; Snowflake;
   Trino; PrestoSql; Hive; Kyuubi; Impala; Argo; Transwarp; Spark; Db2; Informix; Tdengine; Xugu; Sqlite; DuckDb; Iris; Spanner].

Definition is_schema_aware (database_type : DatabaseType) : bool := db_in database_type SCHEMA_AWARE.

Definition uses_fetch_first (database_type : DatabaseType) : bool := db_in database_type [Oracle; Dameng; Db2].

Definition opt_in (database_type : option DatabaseType) (l : list DatabaseType) : bool :=
  match database_type with Some db => db_in db l | None => false end.

Definition uses_oracle_row_id (database_type : option DatabaseType) : bool := opt_in database_type [Oracle; OceanbaseOracle].
Definition uses_xugu_row_id (database_type : option DatabaseType) : bool := opt_in database_type [Xugu].
Definition uses_postgres_ctid (database_type : option DatabaseType) : bool := opt_in database_type [Postgres].
Definition uses_synthetic_row_id (database_type : option DatabaseType) : bool :=
  uses_oracle_row_id database_type || uses_xugu_row_id database_type || uses_postgres_ctid database_type.
Definition uses_single_row_insert_statements (database_type : DatabaseType) : bool := db_in database_type [Oracle; OceanbaseOracle].

Definition pagination_strategy (database_type : option DatabaseType) (context : PaginationContext) : TablePaginationStrategy :=
  if opt_in database_type [Jdbc] then AgentMaxRows
  else if opt_in database_type [Cassandra] && match context with TablePreview | UserQuery => true | _ => false end then AgentMaxRows
  else if opt_in database_type [Oracle] then Rownum
  else if opt_in database_type [Oscar] then
    match context with TablePreview => LimitOffset | BoundedRead => Rownum | UserQuery => Unbounded end
  else if opt_in database_type [Dameng] then Rownum
  else if opt_in database_type [Db2] then Db2FetchFirst
  else if opt_in database_type [SqlServer] then SqlServerTop
  else if opt_in database_type [Iris] then IrisTop
  else if opt_in database_type [Informix; Gbase8s] then InformixFirst
  else if opt_in database_type [Firebird] then FirebirdRows
  else if opt_in database_type [OceanbaseOracle] then Rownum
  else if opt_in database_type [Questdb] then QuestDbLimit
  else LimitOffset.

Definition table_pagination_strategy (database_type : option DatabaseType) : TablePaginationStrategy :=
  pagination_strategy database_type TablePreview.

(** A first character and the characters after it. *)
Definition spelled (first next : char -> bool) (name : text) : bool :=
  match name with [] => false | c :: rest => first c && forallb next rest end.

Definition is_simple_informix_identifier (name : text) : bool :=
  spelled (fun c => is_ascii_alphabetic c || (c =? under)%N)
    (fun c => is_ascii_alphanumeric c || (c =? under)%N || (c =? dollar)%N) name.

(** [usize] additions, in a build with overflow checks or without. *)
Definition usize_add (overflow_checks : bool) (a b : N) : outcome N :=
  let s := (a + b)%N in
  if (s <=? 18446744073709551615)%N then Returns s
  else if overflow_checks then Panics else Returns (s mod 18446744073709551616)%N.

Definition show_N (n : N) : text := show_Z (Z.of_N n).

Definition firebird_rows_clause (overflow_checks : bool) (limit offset : N) : outcome text :=
  if (0 <? offset)%N then
    do start <- usize_add overflow_checks offset 1;
    do end_ <- usize_add overflow_checks offset limit;
    Returns (%"ROWS " ++ show_N start ++ %" TO " ++ show_N end_)
  else Returns (%"ROWS " ++ show_N limit).

(** ** Quoting *)

Definition BACKTICK_ENGINES : list DatabaseType :=
  [
   Mysql; ClickHouse; Doris; Goldendb; StarRocks; ManticoreSearch; Hive; Kyuubi; Impala; Argo; Transwarp; Spark; Databricks;
   Databend; Tdengine; Access; Bigquery; Spanner; Questdb; Neo4j; Nebula].

Definition uses_backtick_identifier_quoting (database_type : option DatabaseType) : bool := opt_in database_type BACKTICK_ENGINES.

(** [name.replace(quote, quote + quote)] between two quotes. *)
Definition quoted_with (quote name : text) : text := quote ++ replace quote (quote ++ quote) name ++ quote.

Definition is_explicitly_quoted_identifier (name : text) : bool :=
  (2 <=? byte_len name)%N
  && ((starts_with [dquote] name && ends_with [dquote] name) || (starts_with [backtick] name && ends_with [backtick] name)
      || (starts_with [lbracket] name && ends_with [rbracket] name)).

Definition is_simple_lower_identifier (name : text) : bool :=
  spelled (fun c => (c =? under)%N || is_ascii_lowercase c)
    (fun c => (c =? under)%N || (c =? dollar)%N || is_ascii_lowercase c || is_ascii_digit c) name.

Definition is_simple_unquoted_identifier (name : text) : bool :=
  spelled (fun c => (c =? under)%N || is_ascii_alphabetic c)
    (fun c => (c =? under)%N || (c =? dollar)%N || is_ascii_alphanumeric c) name.

Definition POSTGRES_RESERVED : list text :=
  [
   %"all"; %"analyse"; %"analyze"; %"and"; %"any"; %"array"; %"as"; %"asc"; %"asymmetric"; %"authorization"; %"binary"; %"both";
   %"case"; %"cast"; %"check"; %"collate"; %"collation"; %"column"; %"concurrently"; %"constraint"; %"create"; %"cross";
   %"current_catalog"; %"current_date"; %"current_role"; %"current_schema"; %"current_time"; %"current_timestamp";
   %"current_user"; %"default"; %"deferrable"; %"desc"; %"distinct"; %"do"; %"else"; %"end"; %"except"; %"false"; %"fetch";
   %"for"; %"foreign"; %"freeze"; %"from"; %"full"; %"grant"; %"group"; %"having"; %"ilike"; %"in"; %"initially"; %"inner";
   %"intersect"; %"into"; %"is"; %"isnull"; %"join"; %"lateral"; %"leading"; %"left"; %"like"; %"limit"; %"localtime";
   %"localtimestamp"; %"natural"; %"not"; %"notnull"; %"null"; %"offset"; %"on"; %"only"; %"or"; %"order"; %"outer"; %"overlaps";
   %"placing"; %"primary"; %"references"; %"returning"; %"right"; %"select"; %"session_user"; %"similar"; %"some"; %"symmetric";
   %"system_user"; %"table"; %"tablesample"; %"then"; %"to"; %"trailing"; %"true"; %"union"; %"unique"; %"user"; %"using";
   %"variadic"; %"verbose"; %"when"; %"where"; %"window"; %"with"].

Definition is_postgres_reserved_identifier (name : text) : bool := text_in name POSTGRES_RESERVED.

Definition MYSQL_ONLY_RESERVED : list text :=
  [
   %"accessible"; %"auto_increment"; %"change"; %"database"; %"databases"; %"delayed"; %"describe"; %"div"; %"dual"; %"enclosed";
   %"escaped"; %"explain"; %"force"; %"fulltext"; %"high_priority"; %"ignore"; %"index"; %"infile"; %"key"; %"keys"; %"kill";
   %"linear"; %"lines"; %"load"; %"lock"; %"low_priority"; %"master_ssl_verify_server_cert"; %"maxvalue"; %"mediumint"; %"mod";
   %"no_write_to_binlog"; %"optimize"; %"optionally"; %"outfile"; %"partition"; %"purge"; %"range"; %"read_write"; %"regexp";
   %"release"; %"rename"; %"replace"; %"require"; %"rlike"; %"schema"; %"schemas"; %"separator"; %"show"; %"spatial";
   %"sql_big_result"; %"sql_calc_found_rows"; %"sql_small_result"; %"ssl"; %"starting"; %"straight_join"; %"terminated";
   %"tinyint"; %"unlock"; %"unsigned"; %"use"; %"utc_date"; %"utc_time"; %"utc_timestamp"; %"values"; %"varbinary"; %"varchar";
   %"write"; %"xor"; %"zerofill"].

Definition is_mysql_only_reserved_identifier (name : text) : bool := text_in name MYSQL_ONLY_RESERVED.

(** Nebula escapes backslashes and backticks with a backslash. *)
Definition escape_nebula (name : text) : text :=
  name ≫= fun c => if (c =? bslash)%N then [bslash; bslash] else if (c =? backtick)%N then [bslash; backtick] else [c].

Definition quote_table_identifier (database_type : option DatabaseType) (name : text) : text :=
  if opt_in database_type [Gaussdb; OpenGauss] && is_explicitly_quoted_identifier name then name
  else if opt_in database_type [Iotdb; Salesforce; Jdbc] then name
  else if opt_in database_type [Nebula] then backtick :: escape_nebula name ++ [backtick]
  else if uses_backtick_identifier_quoting database_type then delimited backtick backtick name
  else if opt_in database_type [Informix; Gbase8s; Sundb] && is_simple_informix_identifier name then name
  else if opt_in database_type [SqlServer] then delimited lbracket rbracket name
  else delimited dquote dquote name.

(** [quote.map(str::trim).filter(|q| !q.is_empty())]. *)
Definition non_blank (s : option text) : option text :=
  v ← s; if is_empty (trim v) then None else Some (trim v).

Section Letters.

Context `{LetterTable} `{CharTable}.

Definition quote_iris_identifier (name : text) (identifier_quote : option text) : text :=
  let ordinary :=
    spelled (fun c => (c =? under)%N || (c =? 37)%N || is_alphabetic c) (fun c => (c =? under)%N || is_alphanumeric c) name in
  if ordinary then name else quoted_with (default [dquote] (non_blank identifier_quote)) name.

End Letters.

Definition quote_gaussdb_jdbc_identifier (name identifier_quote : text) : text :=
  if is_explicitly_quoted_identifier name then name
  else
    let quote := trim identifier_quote in
    if is_empty quote then name
    else
      let requires_quote :=
        negb (is_simple_lower_identifier name) || is_postgres_reserved_identifier name
        || (text_eqb quote [backtick] && is_mysql_only_reserved_identifier name) in
      if negb requires_quote then name else quoted_with quote name.

Definition quote_transfer_identifier (name : text) (database_type : DatabaseType) : text :=
  if db_in database_type [Mysql; ClickHouse; Doris; StarRocks; Hive; Kyuubi; Impala; Argo; Transwarp; Spark; Questdb]
  then delimited backtick backtick name
  else if db_in database_type [SqlServer] then delimited lbracket rbracket name
  else delimited dquote dquote name.

Definition transfer_column_identifier (name : text) (database_type : DatabaseType) (quote_target_column_names : bool) : text :=
  if quote_target_column_names || negb (db_in database_type [Gaussdb; OpenGauss]) || negb (is_simple_unquoted_identifier name)
     || is_postgres_reserved_identifier (lower name)
  then quote_transfer_identifier name database_type else name.

Definition normalize_where_input (where_input : option text) : text :=
  let trimmed := trim (trim_end_matches semi (trim (or_default where_input))) in
  if eq_ignore_ascii_case (take 5 trimmed) %"where" then trim (drop 5 trimmed) else trimmed.

(** ** Qualified names *)

Definition dot : text := %".".

Definition SQLSERVER_LINKED_SCHEMA_PREFIX : text := %"__dbx_sqlserver_linked__:".

Record SqlServerLinkedSchemaRef : Set := mk_linked { server : text; catalog : text; linked_schema : text }.

Section Qualified.

Context `{PercentDecode}.

Definition parse_sqlserver_linked_schema_ref (schema : text) : option SqlServerLinkedSchemaRef :=
  if starts_with SQLSERVER_LINKED_SCHEMA_PREFIX schema then
    match split_at (N.eqb 124%N) (drop (length SQLSERVER_LINKED_SCHEMA_PREFIX) schema) with
    | s :: c :: n :: rest =>
        server ← percent_decode s;
        catalog ← percent_decode c;
        schema ← percent_decode n;
        if negb (is_empty rest) || is_empty (trim server) || is_empty (trim catalog) || is_empty (trim schema) then None
        else Some (mk_linked server catalog schema)
    | _ => None
    end
  else None.

Definition sqlserver_linked_table_name (linked : SqlServerLinkedSchemaRef) (table_name : text) : text :=
  join dot (map (quote_table_identifier (Some SqlServer)) [server linked; catalog linked; linked_schema linked; table_name]).

Definition qualified_table_name (database_type : option DatabaseType) (schema : option text) (table_name : text) : text :=
  if opt_in database_type [Iotdb] then
    let table_name := quote_table_identifier database_type table_name in
    match non_blank schema with
    | Some schema =>
        if text_eqb table_name schema || starts_with (schema ++ dot) table_name then table_name
        else quote_table_identifier database_type schema ++ dot ++ table_name
    | None => table_name
    end
  else
    let supports_qualifier :=
      (match database_type with Some db => is_schema_aware db | None => false end && negb (opt_in database_type [Gbase8s]))
      || opt_in database_type [Mysql; Goldendb; StarRocks; Doris] in
    match schema with
    | Some s =>
        if supports_qualifier && negb (opt_in database_type [Jdbc]) && negb (is_empty (trim s)) then
          match (if opt_in database_type [SqlServer] then parse_sqlserver_linked_schema_ref s else None) with
          | Some linked => sqlserver_linked_table_name linked table_name
          | None => quote_table_identifier database_type s ++ dot ++ quote_table_identifier database_type table_name
          end
        else quote_table_identifier database_type table_name
    | None => quote_table_identifier database_type table_name
    end.

Definition qualified_table_name_with_catalog (database_type : option DatabaseType) (catalog schema database : option text) (table_name : text)
    : text :=
  let q := quote_table_identifier database_type in
  let catalog := non_blank catalog in
  if opt_in database_type [Databricks] then
    let catalog := match catalog with Some c => Some c | None => non_blank database end in
    let schema := non_blank schema in
    match catalog, schema with
    | Some catalog, Some schema => q catalog ++ dot ++ q schema ++ dot ++ q table_name
    | _, _ => qualified_table_name database_type schema table_name
    end
  else
    match catalog with
    | Some catalog =>
        if opt_in database_type [SqlServer] then q catalog ++ dot ++ qualified_table_name database_type schema table_name
        else if opt_in database_type [Doris; StarRocks] && negb (text_eqb catalog %"internal") then
          let middle := match non_blank schema with Some s => Some s | None => non_blank database end in
          q catalog ++ dot ++ match middle with Some m => q m ++ dot ++ q table_name | None => q table_name end
        else qualified_table_name database_type schema table_name
    | None => qualified_table_name database_type schema table_name
    end.

End Qualified.

Definition qualified_transfer_table (table_name schema : text) (database_type : DatabaseType) (catalog : option text) : text :=
  let q := fun n => quote_transfer_identifier n database_type in
  match catalog with
  | Some catalog => q catalog ++ dot ++ q schema ++ dot ++ q table_name
  | None =>
      if is_empty schema || db_in database_type [Mysql; MongoDb; Questdb] then q table_name
      else q schema ++ dot ++ q table_name
  end.
