(* ===== verification/DdlNames.v ===== *)
(** * DdlNames: names in DDL text ([schema_diff.rs], [quote_id] to
      [strip_identifier_quotes]).

    DDL captured from the source names the source's schema; before it runs on the
    target its header, and in Oracle every quoted qualifier, is moved to the target's
    schema.  Positions count characters. *)

From stdpp Require Import list.
From S2P Require Import Prelude DbTypes WriteClass SchemaTypes ViewDdl DdlProfile Identifiers.

Definition quote_id (name : text) (db_type : DatabaseType) : text := quote_ident (profile_for db_type) name.

Definition qualified_name (name : text) (db_type : DatabaseType) (schema : option text) : text :=
  let schema :=
    match non_blank schema with
    | Some s => Some s
    | None => if bool_decide (db_type = SqlServer) then Some %"dbo" else None
    end in
  match schema with
  | Some s => quote_id s db_type ++ dot ++ quote_id name db_type
  | None => quote_id name db_type
  end.

Definition TABLE_DDL_HEADER_KEYWORDS : list text :=
  [%"CREATE FOREIGN TABLE"; %"CREATE UNLOGGED TABLE"; %"CREATE TEMPORARY TABLE"; %"CREATE TEMP TABLE"; %"CREATE TABLE"].

Definition VIEW_DDL_HEADER_KEYWORDS : list text :=
  [%"CREATE MATERIALIZED VIEW"; %"CREATE OR REPLACE VIEW"; %"CREATE OR REPLACE FORCE EDITIONABLE VIEW";
   %"CREATE OR REPLACE FORCE NONEDITIONABLE VIEW"; %"CREATE OR REPLACE EDITIONABLE VIEW"; %"CREATE OR REPLACE NONEDITIONABLE VIEW";
   %"CREATE OR REPLACE FORCE VIEW"; %"CREATE OR REPLACE NOFORCE VIEW"; %"CREATE FORCE VIEW"; %"CREATE VIEW"].

(** [haystack.get(..needle.len()).is_some_and(|p| p.eq_ignore_ascii_case(needle))] for an ASCII needle. *)
Definition starts_with_ignore_ascii_case (haystack needle : text) : bool :=
  (length needle <=? length haystack) && eq_ignore_ascii_case (take (length needle) haystack) needle.

(** ** Parsing names *)

(** The characters up to and including the closing quote; a doubled one is part of the name. *)
Fixpoint closing_len (close : char) (l : text) : option nat :=
  match l with
  | [] => None
  | c :: l' =>
      if (c =? close)%N then
        match l' with
        | d :: l'' => if (d =? close)%N then (fun n => 2 + n) <$> closing_len close l'' else Some 1
        | [] => Some 1
        end
      else S <$> closing_len close l'
  end.

Definition closing_quote (c : char) : option char :=
  if (c =? dquote)%N then Some dquote else if (c =? backtick)%N then Some backtick
  else if (c =? lbracket)%N then Some rbracket else None.

Section Names.

Context `{CharTable}.

Definition is_word (c : char) : bool := is_alphanumeric c || (c =? under)%N.

(** The length of the segment at the front of [l]. *)
Definition parse_identifier_segment (l : text) : option nat :=
  match l with
  | [] => None
  | ch :: rest =>
      match closing_quote ch with
      | Some close => S <$> closing_len close rest
      | None => if is_word ch then Some (length (take_while is_word l)) else None
      end
  end.

(** [end] and [schema_span]. *)
Record ParsedDdlName : Set := mk_parsed { name_end : nat; schema_span : option (nat * nat) }.

(** The loop, at [idx] where the text goes on with [l]; a segment has started there. *)
Fixpoint parse_qualified_from (fuel : nat) (span : option (nat * nat)) (idx : nat) (l : text) : option ParsedDdlName :=
  match fuel with
  | O => None
  | S fuel' =>
      n ← parse_identifier_segment l;
      match drop n l with
      | c :: rest =>
          if (c =? 46)%N then parse_qualified_from fuel' (Some (idx, idx + n)) (idx + n + 1) rest
          else Some (mk_parsed (idx + n) span)
      | [] => Some (mk_parsed (idx + n) span)
      end
  end.

(** Every round takes a character, so the length of the text is enough fuel. *)
Definition parse_qualified_identifier (ddl : text) (start : nat) : option ParsedDdlName :=
  parse_qualified_from (S (length ddl)) None start (drop start ddl).

Definition strip_identifier_quotes (segment : text) : text :=
  match segment, last segment with
  | first :: rest, Some lst =>
      let matching :=
        ((first =? dquote)%N && (lst =? dquote)%N) || ((first =? backtick)%N && (lst =? backtick)%N)
        || ((first =? lbracket)%N && (lst =? rbracket)%N) in
      if negb matching || (length segment <? 2) then segment
      else replace [lst; lst] [lst] (take (length rest - 1) rest)
  | _, _ => segment
  end.

(** ** Headers *)

Definition skip_whitespace_at (ddl : text) (index : nat) : nat :=
  index + length (take_while is_ascii_whitespace (drop index ddl)).

Definition parse_ddl_header_name (ddl : text) (header_keywords : list text) : option (nat * ParsedDdlName) :=
  let leading_ws := length ddl - length (trim_start ddl) in
  let body := drop leading_ws ddl in
  keyword ← List.find (starts_with_ignore_ascii_case body) header_keywords;
  let idx := skip_whitespace_at ddl (leading_ws + length keyword) in
  let idx :=
    if starts_with_ignore_ascii_case (drop idx ddl) %"IF NOT EXISTS" then skip_whitespace_at ddl (idx + 13) else idx in
  parsed ← parse_qualified_identifier ddl idx;
  Some (idx, parsed).

Definition slice (l : text) (span : nat * nat) : text := take (span.2 - span.1) (drop span.1 l).

Definition rewrite_ddl_header_qualifier (ddl : text) (header_keywords : list text) (schema : option text) (qualified : text) : text :=
  match parse_ddl_header_name ddl header_keywords with
  | None => ddl
  | Some (ident_start, parsed) =>
      match schema_span parsed with
      | None => ddl
      | Some span =>
          let embedded_schema := strip_identifier_quotes (slice ddl span) in
          if match schema with Some s => text_eqb (trim s) embedded_schema | None => false end then ddl
          else take ident_start ddl ++ qualified ++ drop (name_end parsed) ddl
      end
  end.

(** ** Qualifiers in a body *)

(** After the opening quote of a literal: the characters up to its end. *)
Fixpoint literal_len (l : text) : nat :=
  match l with
  | [] => 0
  | c :: l' =>
      if (c =? squote)%N then
        match l' with
        | d :: l'' => if (d =? squote)%N then 2 + literal_len l'' else 1
        | [] => 1
        end
      else 1 + literal_len l'
  end.

(** What is written for the token at [c] and how many characters after [c] it takes. *)
Definition qualifier_step (source target_qualifier : text) (_ : unit) (c : char) (rest : text) : unit * text * nat :=
  if (c =? squote)%N then let n := literal_len rest in (tt, c :: take n rest, n)
  else if (c =? dash)%N && head_is dash rest then let n := to_newline rest in (tt, c :: take n rest, n)
  else if (c =? slash)%N && head_is star rest then let n := block_comment_extra rest in (tt, c :: take n rest, n)
  else if (c =? dquote)%N then
    let n := match closing_len dquote rest with Some n => n | None => length rest end in
    let segment := c :: take n rest in
    (tt, if text_eqb segment source && head_is 46%N (drop n rest) then target_qualifier else segment, n)
  else (tt, [c], 0).

Definition rewrite_quoted_schema_qualifier (sql source_schema target_qualifier : text) : text :=
  snd (scan_loop (qualifier_step (delimited dquote dquote source_schema) target_qualifier) tt 0 sql).

Definition rewrite_oracle_native_table_ddl (ddl : text) (schema : option text) (qualified : text) : text :=
  let source_schema :=
    h ← parse_ddl_header_name ddl TABLE_DDL_HEADER_KEYWORDS;
    span ← schema_span h.2;
    Some (strip_identifier_quotes (slice ddl span)) in
  let rewritten := rewrite_ddl_header_qualifier ddl TABLE_DDL_HEADER_KEYWORDS schema qualified in
  match source_schema, non_blank schema with
  | Some source, Some target =>
      if negb (text_eqb source target) then rewrite_quoted_schema_qualifier rewritten source (quote_id target Oracle) else rewritten
  | _, _ => rewritten
  end.

End Names.
