(* ===== verification/DdlNamesFacts.v ===== *)
(** * DdlNamesFacts: a quoted name reads back, and captured DDL is moved to the target's schema.

    A name in DDL is a [segment]: quoted in one of the three styles, or a word.  The
    parser finds the end of a segment whatever is quoted in it, [quote_id] writes a
    segment whose name is the name given, and the header rewriter replaces exactly
    the qualified name of the header. *)

From Stdlib Require Import ZifyN ZifyBool.
From stdpp Require Import list.
From S2P Require Import Prelude DbTypes SchemaTypes ViewDdl DdlProfile Identifiers DdlNames.

(** ** Doubling a quote *)

Lemma double_char_cons q c s : double_char q (c :: s) = (if (c =? q)%N then [c; c] else [c]) ++ double_char q s.
Proof. done. Qed.

Lemma replace_from_double q s : forall fuel, length (double_char q s) <= fuel -> replace_from fuel [q; q] [q] (double_char q s) = s.
Proof.
  induction s as [|c s IH]; intros fuel Hfuel; [by destruct fuel|].
  rewrite double_char_cons in *. destruct (N.eqb_spec c q) as [->|Hc]; cbn [app length] in *.
  - destruct fuel as [|fuel]; [lia|]. cbn [replace_from starts_with]. rewrite N.eqb_refl. cbn. rewrite drop_0. f_equal.
    apply IH. lia.
  - destruct fuel as [|fuel]; [lia|]. cbn [replace_from starts_with]. apply not_eq_sym, N.eqb_neq in Hc as ->. cbn. f_equal.
    apply IH. lia.
Qed.

Lemma closing_len_double q s rest :
  head_is q rest = false -> closing_len q (double_char q s ++ q :: rest) = Some (S (length (double_char q s))).
Proof.
  intros Hrest. induction s as [|c s IH].
  - cbn. rewrite N.eqb_refl. by destruct rest as [|d rest]; [|cbn in Hrest; rewrite Hrest].
  - rewrite double_char_cons. destruct (N.eqb_spec c q) as [->|Hc]; cbn [app closing_len length].
    + by rewrite !N.eqb_refl, IH.
    + apply N.eqb_neq in Hc as ->. by rewrite IH.
Qed.

Lemma double_char_inj q s s' : double_char q s = double_char q s' -> s = s'.
Proof.
  intros Heq. rewrite <- (replace_from_double q s (length (double_char q s))) by lia.
  rewrite Heq. by apply replace_from_double.
Qed.

Lemma delimited_inj o c s s' : delimited o c s = delimited o c s' -> s = s'.
Proof. intros Heq. injection Heq as Heq. apply app_inv_tail in Heq. by apply double_char_inj in Heq. Qed.

(** A run of [p] ends where the text does or at the first character without it. *)
Lemma take_while_run {A} (p : A -> bool) w rest :
  forallb p w = true -> match rest with [] => true | c :: _ => negb (p c) end = true -> take_while p (w ++ rest) = w.
Proof.
  induction w as [|c w IH]; cbn.
  - destruct rest as [|d rest]; [done|]. cbn. by destruct (p d).
  - intros [-> Hw]%andb_prop Hr. by rewrite IH.
Qed.

(** ** Segments *)

Inductive segment : Set :=
| QuotedSegment (open : char) (name : text)
| BareSegment (word : text).

Definition segment_text (s : segment) : text :=
  match s with
  | QuotedSegment open name => delimited open (default open (closing_quote open)) name
  | BareSegment word => word
  end.

Definition segment_name (s : segment) : text := match s with QuotedSegment _ name => name | BareSegment word => word end.

Section Segments.

Context `{CharTable}.

Definition segment_ok (s : segment) : bool :=
  match s with
  | QuotedSegment open _ => bool_decide (is_Some (closing_quote open))
  | BareSegment word => negb (is_empty word) && forallb is_word word
  end.

(** What may follow a name: neither a quote nor a character of a word. *)
Definition name_boundary (rest : text) : bool :=
  match rest with [] => true | c :: _ => negb (is_word c) && negb ((c =? dquote) || (c =? backtick) || (c =? rbracket))%N end.

Lemma closing_quote_cases o c :
  closing_quote o = Some c -> (o = dquote /\ c = dquote) \/ (o = backtick /\ c = backtick) \/ (o = lbracket /\ c = rbracket).
Proof.
  unfold closing_quote. intros Hc.
  destruct (N.eqb_spec o dquote), (N.eqb_spec o backtick), (N.eqb_spec o lbracket); naive_solver.
Qed.

Lemma name_boundary_head rest o c : name_boundary rest = true -> closing_quote o = Some c -> head_is c rest = false.
Proof.
  destruct rest as [|d rest]; [done|]. cbn. intros Hb Ho. apply andb_prop in Hb as [_ Hb]. rewrite negb_true_iff, !orb_false_iff in Hb.
  apply closing_quote_cases in Ho. destruct Hb as [[H1 H2] H3]. by destruct Ho as [[-> ->]|[[-> ->]|[-> ->]]].
Qed.

(** The parser takes a whole segment. *)
Lemma parse_segment s rest :
  segment_ok s = true -> name_boundary rest = true -> parse_identifier_segment (segment_text s ++ rest) = Some (length (segment_text s)).
Proof.
  destruct s as [o name|[|c w]]; cbn [segment_ok segment_text]; intros Hok Hb; [|done|].
  - apply bool_decide_eq_true in Hok as [q Ho]. rewrite Ho. cbn [default delimited app parse_identifier_segment]. rewrite Ho.
    rewrite <- app_assoc. cbn [app]. rewrite closing_len_double by eauto using name_boundary_head.
    cbn. by rewrite length_app, Nat.add_comm.
  - change (forallb is_word (c :: w) = true) in Hok. cbn [app parse_identifier_segment].
    pose proof Hok as [Hc _]%andb_prop. assert (closing_quote c = None) as ->.
    { destruct (closing_quote c) as [q|] eqn:Hq; [|done]. apply closing_quote_cases in Hq. by destruct Hq as [[-> _]|[[-> _]|[-> _]]]. }
    rewrite Hc. f_equal. change (c :: w ++ rest) with ((c :: w) ++ rest).
    rewrite take_while_run; [done|done|]. by destruct rest as [|d rest]; [|apply andb_prop in Hb as []].
Qed.

Lemma last_delimited o (c : char) (s : text) : last (o :: s ++ [c]) = Some c.
Proof. by rewrite app_comm_cons, last_snoc. Qed.

(** The quotes come off again. *)
Lemma strip_segment s : segment_ok s = true -> strip_identifier_quotes (segment_text s) = segment_name s.
Proof.
  destruct s as [o name|w]; cbn [segment_ok segment_text segment_name]; intros Hok.
  - apply bool_decide_eq_true in Hok as [q Ho]. rewrite Ho. change (default o (Some q)) with q. unfold strip_identifier_quotes, delimited.
    rewrite last_delimited. rewrite length_cons, length_app.
    replace (_ || _ || _) with true by (apply closing_quote_cases in Ho; by destruct Ho as [[-> ->]|[[-> ->]|[-> ->]]]).
    cbn [negb orb length]. destruct (Nat.ltb_spec (S (length (double_char q name) + 1)) 2); [lia|].
    rewrite Nat.add_sub, take_app_length. by apply replace_from_double.
  - destruct w as [|c w]; [done|]. apply andb_prop in Hok as [_ [Hc _]%andb_prop]. unfold strip_identifier_quotes.
    destruct (last (c :: w)); [|done]. destruct (N.eqb_spec c dquote) as [->|]; [by cbn in Hc|].
    destruct (N.eqb_spec c backtick) as [->|]; [by cbn in Hc|]. by destruct (N.eqb_spec c lbracket) as [->|]; [by cbn in Hc|].
Qed.

(** A dot may follow a segment, so segments can be chained. *)
Lemma dot_boundary rest : name_boundary (46%N :: rest) = true.
Proof. done. Qed.

(** A name of two segments: where it ends and where its schema is. *)
Lemma parse_qualified_segments pre owner name rest :
  segment_ok owner = true -> segment_ok name = true -> name_boundary rest = true -> head_is 46%N rest = false ->
  parse_qualified_identifier (pre ++ segment_text owner ++ dot ++ segment_text name ++ rest) (length pre)
  = Some (mk_parsed (length (pre ++ segment_text owner ++ dot ++ segment_text name))
            (Some (length pre, length pre + length (segment_text owner)))).
Proof.
  intros Ho Hn Hb Hd. unfold parse_qualified_identifier. rewrite drop_app_length, !length_app.
  change (length dot) with 1. rewrite <- Nat.add_succ_r, <- Nat.add_succ_r. rewrite Nat.add_comm.
  cbn [dot lit app]. 
  match goal with |- parse_qualified_from ?f _ _ _ = _ => destruct f as [|[|fuel]] eqn:Hf; [lia|lia|] end.
  cbn [parse_qualified_from]. change (dot ++ segment_text name ++ rest) with (46%N :: segment_text name ++ rest).
  rewrite parse_segment by auto using dot_boundary. cbn [mbind option_bind].
  rewrite drop_app_length, N.eqb_refl, parse_segment by done. cbn [mbind option_bind]. rewrite drop_app_length.
  destruct rest as [|d rest]; [|cbn in Hd; rewrite Hd]; do 2 f_equal; lia.
Qed.

(** ** [quote_id] writes a segment *)

Definition id_segment (name : text) (db_type : DatabaseType) : segment :=
  match DdlDialectProfile.quote (profile_for db_type) with
  | Backtick => QuotedSegment backtick name
  | DoubleQuote => QuotedSegment dquote name
  | Brackets => QuotedSegment lbracket name
  | UnquotedUpper => if needs_quotes name then QuotedSegment dquote name else BareSegment (upper name)
  end.

(** Bare names with [$] or [#] are written, but not read back. *)
Definition readable (name : text) (db_type : DatabaseType) : bool :=
  match DdlDialectProfile.quote (profile_for db_type) with
  | UnquotedUpper => needs_quotes name || forallb (fun c => negb ((c =? dollar)%N || (c =? hash)%N)) name
  | _ => true
  end.

(** The name the database gives the object: Oracle folds a bare name to upper case. *)
Definition folded (name : text) (db_type : DatabaseType) : text := segment_name (id_segment name db_type).

Lemma quote_id_segment name db_type : quote_id name db_type = segment_text (id_segment name db_type).
Proof. unfold quote_id, quote_ident, id_segment. destruct (DdlDialectProfile.quote _); [done..|]. by destruct (needs_quotes name). Qed.

Lemma upper_word c :
  is_ascii_alphanumeric c || (c =? under)%N = true -> is_word (to_ascii_uppercase c) = true.
Proof.
  unfold is_word, is_alphanumeric, is_ascii_alphanumeric, is_ascii_alphabetic, is_ascii_digit, to_ascii_uppercase, is_ascii_lowercase,
    is_ascii_uppercase, under. intros Hc.
  destruct ((97 <=? c)%N && (c <=? 122)%N) eqn:Hl;
    match goal with |- context [(?x <? 128)%N] => destruct (N.ltb_spec x 128) end; lia.
Qed.

(** The characters of a name that is left bare. *)
Lemma bare_chars name :
  needs_quotes name = false ->
  name <> [] /\ forall c, In c name -> is_ascii_alphanumeric c || (c =? under)%N || (c =? dollar)%N || (c =? hash)%N = true.
Proof.
  unfold needs_quotes. rewrite !orb_false_iff. intros [[_ Hspecial] Hstart]. split; [by destruct name|]. intros c Hc.
  destruct (_ || _) eqn:Hw; [done|]. rewrite !orb_false_iff in Hw. destruct Hw as [[[H1 H2] H3] H4].
  rewrite <- not_true_iff_false in Hspecial. destruct Hspecial. apply existsb_exists. exists c. by rewrite H1, H2, H3, H4.
Qed.

Lemma id_segment_ok name db_type : readable name db_type = true -> segment_ok (id_segment name db_type) = true.
Proof.
  unfold readable, id_segment. destruct (DdlDialectProfile.quote _); [done..|]. destruct (needs_quotes name) eqn:Hq; [done|].
  cbn [orb]. intros Hplain. apply bare_chars in Hq as [Hne Hchars].
  cbn. apply andb_true_intro. split; [by destruct name|]. apply forallb_forall.
  intros c' [c [<- Hc]]%in_map_iff. apply upper_word. pose proof (Hchars c Hc) as Hw.
  eapply forallb_forall in Hplain; [|exact Hc]. rewrite negb_true_iff, orb_false_iff in Hplain.
  destruct Hplain as [Hd Hh]. by rewrite Hd, Hh, !orb_false_r in Hw.
Qed.

Lemma non_blank_trimmed s : trim s = s -> s <> [] -> non_blank (Some s) = Some s.
Proof. intros Ht Hs. unfold non_blank. cbn. rewrite Ht. by destruct s. Qed.

Lemma qualified_name_segments name db_type schema :
  trim schema = schema -> schema <> [] ->
  qualified_name name db_type (Some schema) = segment_text (id_segment schema db_type) ++ dot ++ segment_text (id_segment name db_type).
Proof. intros Ht Hs. unfold qualified_name. rewrite non_blank_trimmed by done. by rewrite !quote_id_segment. Qed.

(** ** Headers *)

(** Texts that agree up to case agree so far. *)
Lemma eq_ignore_case_take n a b : eq_ignore_ascii_case a b = true -> eq_ignore_ascii_case (take n a) (take n b) = true.
Proof.
  unfold eq_ignore_ascii_case. rewrite !text_eqb_eq. intros Heq. rewrite <- !firstn_map. by rewrite Heq.
Qed.

Lemma eq_ignore_case_refl a : eq_ignore_ascii_case a a = true.
Proof. apply text_eqb_refl. Qed.

(** No keyword starts another one, and each starts with a character that is not a blank. *)
Definition distinct_headers (kws : list text) : bool :=
  forallb (fun k => forallb (fun k' =>
    text_eqb k k' || negb (let m := Nat.min (length k) (length k') in eq_ignore_ascii_case (take m k) (take m k'))) kws) kws
  && forallb (fun k => match k with c :: _ => negb (is_whitespace c) | [] => false end) kws.

Lemma find_header kws kw rest :
  distinct_headers kws = true -> In kw kws -> List.find (starts_with_ignore_ascii_case (kw ++ rest)) kws = Some kw.
Proof.
  intros [Hd _]%andb_prop Hkw. destruct (List.find _ kws) as [k|] eqn:Hf.
  - apply find_some in Hf as [Hk Hs]. f_equal. eapply forallb_forall in Hd; [|exact Hkw]. eapply forallb_forall in Hd; [|exact Hk].
    apply orb_prop in Hd as [Hd|Hd]; [symmetry; by apply text_eqb_eq|]. apply andb_prop in Hs as [_ Hs].
    apply (eq_ignore_case_take (length kw)) in Hs. rewrite take_take, take_app_le in Hs by lia.
    rewrite negb_true_iff in Hd.
    replace (take (length kw) k) with (take (Nat.min (length kw) (length k)) k) in Hs; [congruence|].
    rewrite <- take_take. by rewrite firstn_all.
  - apply (find_none _ _ Hf) in Hkw. unfold starts_with_ignore_ascii_case in Hkw.
    rewrite take_app_length, eq_ignore_case_refl, length_app in Hkw. apply andb_false_iff in Hkw as [Hkw|Hkw]; [lia|done].
Qed.

Lemma drop_while_run {A} (p : A -> bool) w x rest : forallb p w = true -> p x = false -> drop_while p (w ++ x :: rest) = x :: rest.
Proof. induction w as [|c w IH]; cbn; [by intros _ ->|]. intros [-> Hw]%andb_prop Hx. by apply IH. Qed.

(** A segment starts with a quote or a word character. *)
Lemma segment_head s :
  segment_ok s = true -> exists c w, segment_text s = c :: w /\ is_ascii_whitespace c = false
    /\ (is_word c = true \/ to_ascii_lowercase c <> 105%N).
Proof.
  destruct s as [o name|[|c w]]; cbn [segment_ok segment_text]; intros Hok; [|done|].
  - apply bool_decide_eq_true in Hok as [q Ho]. rewrite Ho. exists o. eexists. split; [done|].
    apply closing_quote_cases in Ho. by destruct Ho as [[-> _]|[[-> _]|[-> _]]]; split; auto; right.
  - exists c, w. apply andb_prop in Hok as [_ [Hc _]%andb_prop]. split; [done|]. split; [|by left].
    destruct (is_ascii_whitespace c) eqn:Hs; [|done]. unfold is_ascii_whitespace in Hs. unfold is_word, is_alphanumeric in Hc.
    rewrite !orb_true_iff, !N.eqb_eq in Hs. by destruct Hs as [[[[->| ->]| ->]| ->]| ->].
Qed.

Lemma lowercase_space c : to_ascii_lowercase c = 32%N -> c = 32%N.
Proof. unfold to_ascii_lowercase, is_ascii_uppercase. destruct (_ && _) eqn:Hu; [|done]. lia. Qed.

(** A qualified name is not [IF NOT EXISTS]: a name has no blank, and its third character would be one. *)
Lemma owner_is_not_guard owner rest :
  segment_ok owner = true -> starts_with_ignore_ascii_case (segment_text owner ++ dot ++ rest) %"IF NOT EXISTS" = false.
Proof.
  intros Hok. apply not_true_iff_false. intros [_ Hs]%andb_prop. apply text_eqb_eq in Hs.
  assert (forall i c, map to_ascii_lowercase %"IF NOT EXISTS" !! i = Some c ->
            exists d, (segment_text owner ++ dot ++ rest) !! i = Some d /\ to_ascii_lowercase d = c) as Hat.
  { intros i c Hi. rewrite <- Hs in Hi. apply list_lookup_fmap_Some in Hi as [d [-> Hd]].
    exists d. split; [|done]. apply lookup_take_Some in Hd. by destruct Hd. }
  destruct (Hat 0 105%N eq_refl) as [d0 [Hd0 Hl0]], (Hat 1 102%N eq_refl) as [d1 [Hd1 Hl1]], (Hat 2 32%N eq_refl) as [d2 [Hd2 Hl2]].
  apply lowercase_space in Hl2 as ->. destruct owner as [o name|w].
  - destruct (segment_head _ Hok) as (c & w & Ht & _ & Hc). rewrite Ht in Hd0. cbn in Hd0. injection Hd0 as <-.
    destruct Hc as [Hc|Hc]; [|done]. injection Ht as -> _. cbn in Hok. apply bool_decide_eq_true in Hok as [q Ho].
    apply closing_quote_cases in Ho. by destruct Ho as [[-> _]|[[-> _]|[-> _]]].
  - apply andb_prop in Hok as [Hne Hw]. cbn [segment_text] in *. destruct w as [|a [|b [|c w]]]; cbn in *; simplify_eq; try done.
    rewrite !andb_true_iff in Hw. destruct Hw as (_ & _ & Hc & _). done.
Qed.

Lemma slice_middle a b c : slice (a ++ b ++ c) (length a, length a + length b) = b.
Proof. unfold slice. cbn [fst snd]. by rewrite drop_app_length, Nat.add_comm, Nat.add_sub, take_app_length. Qed.

Lemma slice_last pre o n rest : slice (pre ++ o ++ dot ++ n ++ rest) (length pre + length o + 1, length (pre ++ o ++ dot ++ n)) = n.
Proof.
  rewrite <- (slice_middle (pre ++ o ++ dot) n rest) at 3. rewrite !length_app, <- !app_assoc. cbn [length dot]. f_equal. f_equal; cbn; lia.
Qed.

(** The text between the keyword and the name. *)
Definition guard_text (guard : option text) : text := match guard with Some sp => %"IF NOT EXISTS" ++ sp | None => [] end.
Definition blank_guard (guard : option text) : bool := match guard with Some sp => forallb is_ascii_whitespace sp | None => true end.

Lemma skip_blanks pre sp c rest :
  forallb is_ascii_whitespace sp = true -> is_ascii_whitespace c = false ->
  skip_whitespace_at (pre ++ sp ++ c :: rest) (length pre) = length (pre ++ sp).
Proof.
  intros Hsp Hc. unfold skip_whitespace_at. rewrite drop_app_length, take_while_run; [by rewrite length_app|done|]. by rewrite Hc.
Qed.

Section Header.

Context (kws : list text) (ws kw sp : text) (guard : option text) (owner name : segment) (rest : text).
Hypothesis Hkws : distinct_headers kws = true.
Hypothesis Hkw : In kw kws.
Hypothesis Hws : forallb is_whitespace ws = true.
Hypothesis Hsp : forallb is_ascii_whitespace sp = true.
Hypothesis Hguard : blank_guard guard = true.
Hypothesis Howner : segment_ok owner = true.
Hypothesis Hname : segment_ok name = true.
Hypothesis Hrest : name_boundary rest = true /\ head_is 46%N rest = false.

Let before := ws ++ kw ++ sp ++ guard_text guard.
Let object := segment_text owner ++ dot ++ segment_text name.

Let ddl := before ++ object ++ rest.

Lemma ddl_front : ddl = ws ++ kw ++ sp ++ guard_text guard ++ object ++ rest.
Proof. unfold ddl, before. by rewrite <- !app_assoc. Qed.

Lemma leading_blanks : length ddl - length (trim_start ddl) = length ws.
Proof.
  rewrite ddl_front. destruct (andb_prop _ _ Hkws) as [_ Hk]. eapply forallb_forall in Hk; [|exact Hkw].
  destruct kw as [|k kw']; [done|]. apply negb_true_iff in Hk. unfold trim_start. cbn [app].
  rewrite drop_while_run by done. rewrite length_app. lia.
Qed.

(** The position of the name, where the keyword and the guard have been read. *)
Lemma name_position :
  let idx := skip_whitespace_at ddl (length ws + length kw) in
  (if starts_with_ignore_ascii_case (drop idx ddl) %"IF NOT EXISTS" then skip_whitespace_at ddl (idx + 13) else idx) = length before.
Proof.
  destruct (segment_head _ Howner) as (c & w & Ht & Hc & _). rewrite ddl_front. unfold before.
  rewrite (app_assoc ws kw), <- length_app. destruct guard as [sp'|]; cbn [guard_text blank_guard] in *.
  - rewrite <- (app_assoc _ sp' (object ++ rest)).
    rewrite (skip_blanks (ws ++ kw) sp 73%N (drop 1 %"IF NOT EXISTS" ++ sp' ++ object ++ rest) Hsp eq_refl : skip_whitespace_at
               ((ws ++ kw) ++ sp ++ %"IF NOT EXISTS" ++ sp' ++ object ++ rest) _ = _).
    cbn zeta. rewrite (app_assoc (ws ++ kw)), drop_app_length.
    unfold starts_with_ignore_ascii_case. rewrite take_app_length, eq_ignore_case_refl, (length_app %"IF NOT EXISTS").
    rewrite (proj2 (Nat.leb_le _ _)) by lia. cbn [andb].
    rewrite (app_assoc _ %"IF NOT EXISTS"). unfold object. rewrite Ht. rewrite <- !(app_assoc (c :: w)). cbn [app].
    change 13 with (length %"IF NOT EXISTS"). rewrite <- length_app, skip_blanks by done. by rewrite <- !app_assoc.
  - cbn [app]. unfold object. rewrite Ht. rewrite <- !(app_assoc (c :: w)). cbn [app]. rewrite skip_blanks by done. cbn zeta.
    rewrite (app_assoc (ws ++ kw)), drop_app_length. pose proof (owner_is_not_guard owner (segment_text name ++ rest) Howner) as Hg.
    rewrite Ht in Hg. rewrite <- app_assoc. cbn [app] in Hg |- *. rewrite Hg. by rewrite app_nil_r, <- !app_assoc.
Qed.

Lemma parse_header :
  parse_ddl_header_name ddl kws
  = Some (length before, mk_parsed (length (before ++ object)) (Some (length before, length before + length (segment_text owner)))).
Proof.
  unfold parse_ddl_header_name. rewrite leading_blanks.
  replace (drop (length ws) ddl) with (kw ++ sp ++ guard_text guard ++ object ++ rest) by (by rewrite ddl_front, drop_app_length).
  rewrite find_header by done. cbn [mbind option_bind]. rewrite name_position. unfold ddl, object. rewrite <- !app_assoc.
  destruct Hrest. by rewrite parse_qualified_segments.
Qed.

(** The header is moved to the target, or left as it is when it names the target already. *)
Lemma header_is_rewritten schema qualified :
  rewrite_ddl_header_qualifier ddl kws schema qualified
  = if bool_decide (trim <$> schema = Some (segment_name owner)) then ddl else before ++ qualified ++ rest.
Proof.
  unfold rewrite_ddl_header_qualifier. rewrite parse_header. cbn [schema_span name_end].
  replace (slice ddl _) with (segment_text owner) by (unfold ddl, object; by rewrite <- !app_assoc, slice_middle).
  rewrite strip_segment by done. unfold ddl. rewrite take_app_length, app_assoc, drop_app_length.
  destruct schema as [s|]; cbn [fmap option_fmap option_map]; [|by rewrite bool_decide_eq_false_2].
  destruct (text_eqb (trim s) (segment_name owner)) eqn:He.
  - apply text_eqb_eq in He as ->. by rewrite bool_decide_eq_true_2.
  - rewrite bool_decide_eq_false_2; [done|]. intros [= Heq]. by rewrite Heq, text_eqb_refl in He.
Qed.

End Header.

End Segments.
