(* ===== verification/DdlMoveFacts.v ===== *)
(** * DdlMoveFacts: captured Oracle DDL is moved to the target's schema.

    A DDL body is written from [ddl_piece]s: code, literals, comments and quoted
    names.  The rewriter replaces the quoted names that are the source's schema and
    qualify something, in code, and copies every other piece ([moved]). *)

From Stdlib Require Import ZifyN ZifyBool.
From stdpp Require Import list.
From S2P Require Import Prelude DbTypes SchemaTypes ViewDdl DdlProfile Identifiers DdlNames DdlNamesFacts.

Inductive ddl_piece : Set :=
| DCode (c : char)
| DLiteral (value : text)
| DLine (body : text)
| DBlock (body : text)
| DName (name : text).

Definition piece_text (p : ddl_piece) : text :=
  match p with
  | DCode c => [c]
  | DLiteral value => delimited squote squote value
  | DLine body => [dash; dash] ++ body
  | DBlock body => [slash; star] ++ body ++ [star; slash]
  | DName name => delimited dquote dquote name
  end.

Definition body_text (ps : list ddl_piece) : text := ps ≫= piece_text.

(** The pieces are what the text reads as: no code opens a literal, a name or a comment, no quote is
    doubled by the next piece, a line comment ends with its line and a block comment at its first closer. *)
Definition piece_stands (p : ddl_piece) (rest : text) : bool :=
  match p with
  | DCode c =>
      negb ((c =? squote) || (c =? dquote))%N && negb ((c =? dash)%N && head_is dash rest)
      && negb ((c =? slash)%N && head_is star rest)
  | DLiteral _ => negb (head_is squote rest)
  | DName _ => negb (head_is dquote rest)
  | DLine body => forallb (fun c => negb (c =? nl)%N) body && (is_empty rest || head_is nl rest)
  | DBlock body => bool_decide (find_at %"*/" (body ++ [star; slash]) = Some (length body))
  end.

Fixpoint body_ok (ps : list ddl_piece) : bool :=
  match ps with [] => true | p :: ps' => piece_stands p (body_text ps') && body_ok ps' end.

Section Move.

Context (source target_qualifier : text).

(** [piece] with what follows it, moved. *)
Definition moved_piece (p : ddl_piece) (rest : text) : text :=
  match p with
  | DName name => if bool_decide (name = source) && head_is 46%N rest then target_qualifier else piece_text p
  | _ => piece_text p
  end.

Fixpoint moved (ps : list ddl_piece) : text :=
  match ps with [] => [] | p :: ps' => moved_piece p (body_text ps') ++ moved ps' end.

Abbreviation step := (qualifier_step (delimited dquote dquote source) target_qualifier).

(** ** One piece *)

Lemma literal_len_double value rest :
  head_is squote rest = false -> literal_len (double_char squote value ++ squote :: rest) = length (double_char squote value ++ [squote]).
Proof.
  intros Hr. induction value as [|c value IH].
  - cbn. by destruct rest as [|d rest]; [|cbn in Hr; rewrite Hr].
  - rewrite double_char_cons. destruct (N.eqb_spec c squote) as [->|Hc]; cbn [app literal_len length].
    + by rewrite N.eqb_refl, IH.
    + apply N.eqb_neq in Hc as ->. by rewrite IH.
Qed.

Lemma starts_with_long needle l rest : length needle <= length l -> starts_with needle (l ++ rest) = starts_with needle l.
Proof.
  revert l. induction needle as [|x needle IH]; intros [|y l] Hlen; cbn in *; try done; try lia. by rewrite IH by lia.
Qed.

Lemma find_at_length needle l n : find_at needle l = Some n -> n + length needle <= length l.
Proof.
  revert n. induction l as [|c l IH]; intros n; cbn [find_at].
  - destruct (starts_with needle []) eqn:Hs; [|done]. intros [= <-]. by destruct needle.
  - destruct (starts_with needle (c :: l)) eqn:Hs.
    + intros [= <-]. apply starts_with_app in Hs as [r ->]. rewrite length_app. lia.
    + intros (m & Hm & ->)%fmap_Some. apply IH in Hm. cbn. lia.
Qed.

(** The first match in a text that has one is the first match in any longer text. *)
Lemma find_at_more needle l n rest : find_at needle l = Some n -> find_at needle (l ++ rest) = Some n.
Proof.
  revert n. induction l as [|c l IH]; intros n Hn; pose proof (find_at_length _ _ _ Hn) as Hlen; cbn [find_at app] in *.
  - destruct needle; [|cbn in Hlen; lia]. cbn in Hn. injection Hn as <-. by destruct rest.
  - change (c :: l ++ rest) with ((c :: l) ++ rest). rewrite starts_with_long by (cbn [length] in *; lia).
    destruct (starts_with needle (c :: l)); [done|]. apply fmap_Some in Hn as (m & Hm & ->). by rewrite (IH m).
Qed.

Lemma block_comment_len body rest :
  find_at %"*/" (body ++ [star; slash]) = Some (length body) ->
  block_comment_extra (star :: (body ++ [star; slash]) ++ rest) = length ([star] ++ body ++ [star; slash]).
Proof.
  intros Hb. unfold block_comment_extra. change (drop 1 (star :: ?l)) with (drop 0 l). rewrite drop_0.
  change (%"*/") with [star; slash] in *. rewrite (find_at_more _ _ _ rest Hb). rewrite !length_app. cbn. lia.
Qed.

Lemma text_eqb_delimited o q a b : text_eqb (delimited o q a) (delimited o q b) = bool_decide (a = b).
Proof.
  apply Bool.eq_iff_eq_true. rewrite text_eqb_eq, bool_decide_eq_true. split; [apply delimited_inj|by intros ->].
Qed.

Lemma step_piece p rest :
  piece_stands p rest = true ->
  exists c w, piece_text p = c :: w /\ step tt c (w ++ rest) = (tt, moved_piece p rest, length w).
Proof.
  unfold qualifier_step. destruct p as [c|value|body|body|name]; cbn [piece_stands piece_text moved_piece]; intros Hok; do 2 eexists;
    (split; [reflexivity|]); cbn [app].
  - rewrite !andb_true_iff, !negb_true_iff, orb_false_iff in Hok. destruct Hok as [[[H1 H2] H3] H4]. by rewrite H1, H2, H3, H4.
  - apply negb_true_iff in Hok. rewrite N.eqb_refl, <- app_assoc. cbn [app].
    rewrite literal_len_double by done. change (squote :: rest) with ([squote] ++ rest). rewrite app_assoc, take_app_length. done.
  - apply andb_prop in Hok as [Hb Hr]. change ((dash =? squote)%N) with false. change ((dash =? dash)%N) with true. cbn [head_is andb].
    change ((dash =? dash)%N) with true. cbn iota. unfold to_newline.
    change (dash :: body ++ rest) with ((dash :: body) ++ rest). rewrite take_while_run; [by rewrite take_app_length|done|].
    destruct rest as [|d rest]; [done|]. cbn in Hr. by rewrite Hr.
  - apply bool_decide_eq_true in Hok. cbn [head_is]. change (star =? star)%N with true. cbn iota beta.
    change ((slash =? squote)%N) with false. change ((slash =? dash)%N) with false. change ((slash =? slash)%N) with true. cbn [andb].
    cbn iota. rewrite block_comment_len by done. change (star :: body ++ [star; slash]) with ([star] ++ body ++ [star; slash]).
    change (star :: (body ++ [star; slash]) ++ rest) with (([star] ++ body ++ [star; slash]) ++ rest). by rewrite take_app_length.
  - apply negb_true_iff in Hok. change ((dquote =? squote)%N) with false. change ((dquote =? dash)%N) with false.
    change ((dquote =? slash)%N) with false. change ((dquote =? dquote)%N) with true. cbn [andb]. cbn iota. rewrite <- app_assoc. cbn [app].
    rewrite closing_len_double by done. change (dquote :: rest) with ([dquote] ++ rest).
    replace (S (length (double_char dquote name))) with (length (double_char dquote name ++ [dquote])) by (rewrite length_app; cbn; lia).
    rewrite app_assoc, take_app_length, drop_app_length. fold (delimited dquote dquote name). by rewrite text_eqb_delimited.
Qed.

(** ** A body *)

Abbreviation run := (scan_loop step tt 0).

Lemma run_piece p rest :
  piece_stands p rest = true -> (run (piece_text p ++ rest)).2 = moved_piece p rest ++ (run rest).2.
Proof.
  intros Hok. destruct (step_piece p rest Hok) as (c & w & -> & Hs). cbn [app]. rewrite scan_loop_cons, Hs, drop_app_length.
  by destruct (run rest).
Qed.

Lemma run_body ps : body_ok ps = true -> (run (body_text ps)).2 = moved ps.
Proof.
  induction ps as [|p ps IH]; [done|]. intros [Hp Hps]%andb_prop. cbn [body_text mbind list_bind]. fold (body_text ps).
  rewrite run_piece by done. by rewrite IH.
Qed.

(** ** Text without quotes and comments *)

Definition plain_code (c : char) : bool := negb ((c =? squote) || (c =? dquote) || (c =? dash) || (c =? slash))%N.

Lemma run_plain w rest : forallb plain_code w = true -> (run (w ++ rest)).2 = w ++ (run rest).2.
Proof.
  induction w as [|c w IH]; [done|]. intros [Hc Hw]%andb_prop. unfold plain_code in Hc. rewrite negb_true_iff, !orb_false_iff in Hc.
  destruct Hc as [[[H1 H2] H3] H4]. cbn [app]. rewrite scan_loop_cons. unfold qualifier_step at 1. rewrite H1, H2, H3, H4.
  cbn [andb]. rewrite drop_0. specialize (IH Hw). destruct (run (w ++ rest)) as [[] out]. cbn in *. by rewrite IH.
Qed.

Lemma upper_plain c :
  is_ascii_alphanumeric c || (c =? under)%N || (c =? dollar)%N || (c =? hash)%N = true -> plain_code (to_ascii_uppercase c) = true.
Proof.
  unfold plain_code, is_ascii_alphanumeric, is_ascii_alphabetic, is_ascii_digit, to_ascii_uppercase, is_ascii_lowercase,
    is_ascii_uppercase, under, dollar, hash, squote, dquote, dash, slash. intros Hc. destruct ((97 <=? c)%N && (c <=? 122)%N) eqn:Hl; lia.
Qed.

(** A name as Oracle DDL writes it is copied, unless it is the source's schema, quoted, before a dot. *)
Lemma run_oracle_id x rest :
  head_is dquote rest = false -> x <> source \/ head_is 46%N rest = false ->
  (run (quote_id x Oracle ++ rest)).2 = quote_id x Oracle ++ (run rest).2.
Proof.
  intros Hr Hx. unfold quote_id, quote_ident. change (DdlDialectProfile.quote (profile_for Oracle)) with UnquotedUpper. cbn iota.
  destruct (needs_quotes x) eqn:Hq.
  - change (delimited dquote dquote x) with (piece_text (DName x)). rewrite run_piece by (cbn [piece_stands]; by rewrite Hr).
    cbn [moved_piece]. destruct Hx as [Hx| ->]; [by rewrite bool_decide_eq_false_2|by rewrite andb_false_r].
  - apply run_plain. apply forallb_forall. intros c' [c [<- Hc]]%in_map_iff. apply upper_plain. by apply (bare_chars x).
Qed.

End Move.

Section Oracle.

Context `{CharTable}.

Lemma blank_plain c : is_whitespace c = true -> plain_code c = true.
Proof.
  intros Hs. unfold plain_code, squote, dquote, dash, slash.
  destruct (N.eqb_spec c 39) as [->|]; [by cbn in Hs|]. destruct (N.eqb_spec c 34) as [->|]; [by cbn in Hs|].
  destruct (N.eqb_spec c 45) as [->|]; [by cbn in Hs|]. by destruct (N.eqb_spec c 47) as [->|]; [by cbn in Hs|].
Qed.

Lemma ascii_blank c : is_ascii_whitespace c = true -> is_whitespace c = true.
Proof. unfold is_ascii_whitespace. rewrite !orb_true_iff, !N.eqb_eq. by intros [[[[->| ->]| ->]| ->]| ->]. Qed.

Lemma forallb_impl {A} (p q : A -> bool) l : (forall x, p x = true -> q x = true) -> forallb p l = true -> forallb q l = true.
Proof. intros Hpq. rewrite !forallb_forall. auto. Qed.

(** The text before the name is copied. *)
Lemma header_plain ws kw sp guard :
  In kw TABLE_DDL_HEADER_KEYWORDS -> forallb is_whitespace ws = true -> forallb is_ascii_whitespace sp = true -> blank_guard guard = true ->
  forallb plain_code (ws ++ kw ++ sp ++ guard_text guard) = true.
Proof.
  intros Hkw Hws Hsp Hg. rewrite !forallb_app, !andb_true_iff. split_and!.
  - eapply forallb_impl; [|exact Hws]. exact blank_plain.
  - assert (forallb (forallb plain_code) TABLE_DDL_HEADER_KEYWORDS = true) as Hall by (vm_compute; reflexivity).
    by eapply forallb_forall in Hall.
  - eapply forallb_impl; [|exact Hsp]. auto using blank_plain, ascii_blank.
  - destruct guard as [sp'|]; [|done]. cbn [guard_text]. rewrite forallb_app. apply andb_true_intro. split; [by vm_compute|].
    eapply forallb_impl; [|exact Hg]. auto using blank_plain, ascii_blank.
Qed.

Lemma boundary_dquote rest : name_boundary rest = true -> head_is dquote rest = false.
Proof. intros Hb. by eapply name_boundary_head with (o := dquote). Qed.

Lemma moved_header source target name ps :
  body_ok ps = true -> name_boundary (body_text ps) = true -> head_is 46%N (body_text ps) = false ->
  trim target = target -> target <> [] -> target <> source ->
  (scan_loop (qualifier_step (delimited dquote dquote source) (quote_id target Oracle)) tt 0
     (qualified_name name Oracle (Some target) ++ body_text ps)).2
  = qualified_name name Oracle (Some target) ++ moved source (quote_id target Oracle) ps.
Proof.
  intros Hps Hb Hd Ht Hne Hsrc. unfold qualified_name. rewrite non_blank_trimmed by done. rewrite <- !app_assoc.
  rewrite run_oracle_id by auto. rewrite (run_plain _ _ dot) by done.
  rewrite run_oracle_id by auto using boundary_dquote. by rewrite run_body.
Qed.

Lemma table_headers_distinct : distinct_headers TABLE_DDL_HEADER_KEYWORDS = true.
Proof. vm_compute. reflexivity. Qed.

Lemma view_headers_distinct : distinct_headers VIEW_DDL_HEADER_KEYWORDS = true.
Proof. vm_compute. reflexivity. Qed.

(** A header and what it is written from. *)
Record ddl_header : Set := mk_ddl_header { leading : text; keyword : text; gap : text; if_not_exists : option text; owner : segment; object : segment }.

Definition before_name (h : ddl_header) : text := leading h ++ keyword h ++ gap h ++ guard_text (if_not_exists h).
Definition header_text (h : ddl_header) : text := before_name h ++ segment_text (owner h) ++ dot ++ segment_text (object h).

Definition header_ok (kws : list text) (h : ddl_header) : bool :=
  existsb (text_eqb (keyword h)) kws && forallb is_whitespace (leading h) && forallb is_ascii_whitespace (gap h)
  && blank_guard (if_not_exists h) && segment_ok (owner h) && segment_ok (object h).

(** What may follow the name of a header. *)
Definition ends_name (rest : text) : bool := name_boundary rest && negb (head_is 46%N rest).

Lemma header_in kws h : existsb (text_eqb (keyword h)) kws = true -> In (keyword h) kws.
Proof. intros [k [Hk He]]%existsb_exists. apply text_eqb_eq in He. by rewrite He. Qed.

Lemma parse_header_text kws h rest :
  distinct_headers kws = true -> header_ok kws h = true -> ends_name rest = true ->
  parse_ddl_header_name (header_text h ++ rest) kws
  = Some (length (before_name h), mk_parsed (length (header_text h))
            (Some (length (before_name h), length (before_name h) + length (segment_text (owner h))))).
Proof.
  unfold header_ok, ends_name. rewrite !andb_true_iff, negb_true_iff. intros Hd (((((Hk & Hl) & Hg) & Hi) & Ho) & Hn) Hr.
  unfold header_text. rewrite <- app_assoc. apply parse_header; auto using header_in.
Qed.

Lemma rewrite_header_text kws h rest schema qualified :
  distinct_headers kws = true -> header_ok kws h = true -> ends_name rest = true ->
  rewrite_ddl_header_qualifier (header_text h ++ rest) kws schema qualified
  = if bool_decide (trim <$> schema = Some (segment_name (owner h))) then header_text h ++ rest else before_name h ++ qualified ++ rest.
Proof.
  unfold header_ok, ends_name. rewrite !andb_true_iff, negb_true_iff. intros Hd (((((Hk & Hl) & Hg) & Hi) & Ho) & Hn) Hr.
  unfold header_text. rewrite <- (app_assoc (before_name h)). apply header_is_rewritten; auto using header_in.
Qed.

(** The schema a header names. *)
Definition named_schema (ddl : text) (kws : list text) : option text :=
  h ← parse_ddl_header_name ddl kws; span ← schema_span h.2; Some (strip_identifier_quotes (slice ddl span)).

Lemma named_schema_header kws h rest :
  distinct_headers kws = true -> header_ok kws h = true -> ends_name rest = true ->
  named_schema (header_text h ++ rest) kws = Some (segment_name (owner h)).
Proof.
  intros Hd Hh Hr. unfold named_schema. rewrite parse_header_text by done. cbn [mbind option_bind snd schema_span].
  unfold header_text. rewrite <- !app_assoc, slice_middle. unfold header_ok in Hh. rewrite !andb_true_iff in Hh. by rewrite strip_segment by tauto.
Qed.

End Oracle.

Section Claims.

Context `{CharTable}.

(** A qualified name written for any database reads back.  Wherever
    [qualified_name] stands in a DDL text, the parser finds its end and the span of its
    schema; the text there, without its quotes, is the schema, and the last segment
    without its quotes is the name, whatever quotes, dots or blanks they contain (for
    Oracle a bare name is folded to upper case, as the database does, and one with [$]
    or [#] is not [readable], see [dollar_name_is_cut]). *)
Theorem qualified_names_read_back pre name db_type schema rest :
  trim schema = schema -> schema <> [] -> readable schema db_type = true -> readable name db_type = true -> ends_name rest = true ->
  let written := qualified_name name db_type (Some schema) in
  let ddl := pre ++ written ++ rest in
  let span := (length pre, length pre + length (quote_id schema db_type)) in
  parse_qualified_identifier ddl (length pre) = Some (mk_parsed (length (pre ++ written)) (Some span))
  /\ strip_identifier_quotes (slice ddl span) = folded schema db_type
  /\ strip_identifier_quotes (slice ddl (span.2 + 1, length (pre ++ written))) = folded name db_type.
Proof.
  intros Ht Hne Hs Hn Hr. cbn zeta. apply andb_prop in Hr as [Hb Hd%negb_true_iff].
  rewrite qualified_name_segments, quote_id_segment by done. apply id_segment_ok in Hs, Hn. rewrite <- !app_assoc. split_and!.
  - by apply parse_qualified_segments.
  - rewrite slice_middle. by apply strip_segment.
  - rewrite slice_last. by apply strip_segment.
Qed.

(** Captured DDL is created in the target's schema.  The header of a table's or a
    view's DDL that names the target's schema is left as it is; any other qualified
    header has its name, and nothing else, replaced by the target's, and the header
    then names the target's schema. *)
Theorem captured_ddl_names_the_target kws h rest name db_type target :
  kws = TABLE_DDL_HEADER_KEYWORDS \/ kws = VIEW_DDL_HEADER_KEYWORDS ->
  header_ok kws h = true -> ends_name rest = true ->
  trim target = target -> target <> [] -> readable target db_type = true -> readable name db_type = true ->
  let qualified := qualified_name name db_type (Some target) in
  let ddl := rewrite_ddl_header_qualifier (header_text h ++ rest) kws (Some target) qualified in
  if bool_decide (segment_name (owner h) = target)
  then ddl = header_text h ++ rest /\ named_schema ddl kws = Some target
  else ddl = before_name h ++ qualified ++ rest /\ named_schema ddl kws = Some (folded target db_type).
Proof.
  intros Hkws Hh Hr Ht Hne Hs Hn. cbn zeta.
  assert (distinct_headers kws = true) as Hd by (destruct Hkws as [-> | ->]; auto using table_headers_distinct, view_headers_distinct).
  rewrite rewrite_header_text by done. cbn [fmap option_fmap option_map]. rewrite Ht. destruct (decide (segment_name (owner h) = target)) as [He|He].
  - rewrite !bool_decide_eq_true_2 by congruence. split; [done|]. by rewrite named_schema_header, He.
  - rewrite !bool_decide_eq_false_2 by congruence. split; [done|]. rewrite qualified_name_segments by done.
    set (h' := mk_ddl_header (leading h) (keyword h) (gap h) (if_not_exists h) (id_segment target db_type) (id_segment name db_type)).
    replace (before_name h ++ _ ++ rest) with (header_text h' ++ rest) by (unfold header_text; by rewrite <- !app_assoc).
    rewrite named_schema_header; [done|done| |done]. unfold header_ok in *. cbn. rewrite !andb_true_iff in Hh |- *.
    split_and!; try tauto; by apply id_segment_ok.
Qed.

(** C31: Oracle's captured table DDL is moved to the target's schema.  Its header names
    the target's table; in the rest, the quoted names that are the source's schema and
    stand before a dot become the target's schema, and every other character, in code,
    literals, comments and other names, is kept. *)
Theorem oracle_ddl_is_moved h name target ps :
  header_ok TABLE_DDL_HEADER_KEYWORDS h = true -> body_ok ps = true -> ends_name (body_text ps) = true ->
  trim target = target -> target <> [] -> target <> segment_name (owner h) ->
  let qualified := qualified_name name Oracle (Some target) in
  rewrite_oracle_native_table_ddl (header_text h ++ body_text ps) (Some target) qualified
  = before_name h ++ qualified ++ moved (segment_name (owner h)) (quote_id target Oracle) ps.
Proof.
  intros Hh Hps Hr Ht Hne Hsrc. cbn zeta. unfold rewrite_oracle_native_table_ddl.
  rewrite parse_header_text by auto using table_headers_distinct.
  pose proof (named_schema_header _ h (body_text ps) table_headers_distinct Hh Hr) as Hs. unfold named_schema in Hs.
  rewrite parse_header_text in Hs by auto using table_headers_distinct. cbn [mbind option_bind snd schema_span] in Hs |- *.
  injection Hs as ->. rewrite non_blank_trimmed by done.
  replace (text_eqb (segment_name (owner h)) target) with false by (symmetry; apply not_true_iff_false; rewrite text_eqb_eq; congruence).
  cbn [negb]. rewrite rewrite_header_text by auto using table_headers_distinct.
  rewrite bool_decide_eq_false_2 by (cbn; congruence). unfold rewrite_quoted_schema_qualifier.
  unfold header_ok in Hh. rewrite !andb_true_iff in Hh. destruct Hh as (((((Hk & Hl) & Hg) & Hi) & _) & _).
  rewrite run_plain by (apply header_plain; auto using header_in). apply andb_prop in Hr as [Hb Hd%negb_true_iff].
  by rewrite moved_header.
Qed.

End Claims.

(** ** Concrete names *)

Lemma qualified_names_read_back_witness :
  readable %"sales dept" Mysql = true
  /\ strip_identifier_quotes
       (slice (%"ALTER TABLE " ++ qualified_name %"a`b.c" Mysql (Some %"sales dept") ++ %" ADD x INT") (12, 12 + length (quote_id %"sales dept" Mysql)))
     = %"sales dept".
Proof.
  split; [vm_compute; reflexivity|].
  exact (proj1 (proj2 (@qualified_names_read_back latin1_table %"ALTER TABLE " %"a`b.c" Mysql %"sales dept" %" ADD x INT"
    ltac:(vm_compute; reflexivity) ltac:(vm_compute; discriminate) ltac:(vm_compute; reflexivity) ltac:(vm_compute; reflexivity)
    ltac:(vm_compute; reflexivity)))).
Defined.

(** DDL written with [^] for a double quote. *)
Definition dq_text (s : text) : text := map (fun c => if (c =? 94)%N then dquote else c) s.

Definition sample_header : ddl_header :=
  mk_ddl_header %" " %"CREATE TABLE" %"  " (Some %" ") (QuotedSegment dquote %"SRC") (QuotedSegment dquote %"EMP").

(** [ (X) -- "SRC".], a new line, ['"SRC".'] and [ "SRC"."I"] as pieces. *)
Definition sample_body : list ddl_piece :=
  map DCode %" (X) " ++ [DLine (dq_text %" ^SRC^."); DCode nl; DLiteral (dq_text %"^SRC^."); DCode space; DName %"SRC"; DCode 46%N; DName %"I"].

Lemma captured_ddl_names_the_target_witness :
  @rewrite_ddl_header_qualifier latin1_table (header_text sample_header ++ %" (X)") TABLE_DDL_HEADER_KEYWORDS (Some %"my schema")
    (qualified_name %"EMP" Postgres (Some %"my schema"))
  = dq_text %" CREATE TABLE  IF NOT EXISTS ^my schema^.^EMP^ (X)".
Proof.
  pose proof (@captured_ddl_names_the_target latin1_table TABLE_DDL_HEADER_KEYWORDS sample_header %" (X)" %"EMP" Postgres %"my schema"
    (or_introl eq_refl) ltac:(vm_compute; reflexivity) ltac:(vm_compute; reflexivity) ltac:(vm_compute; reflexivity)
    ltac:(vm_compute; discriminate) ltac:(vm_compute; reflexivity) ltac:(vm_compute; reflexivity)) as Hc.
  cbn zeta in Hc. rewrite bool_decide_eq_false_2 in Hc by (vm_compute; discriminate). destruct Hc as [-> _]. vm_compute. reflexivity.
Defined.

Lemma oracle_ddl_is_moved_witness :
  @rewrite_oracle_native_table_ddl latin1_table (header_text sample_header ++ body_text sample_body) (Some %"TGT")
    (qualified_name %"EMP" Oracle (Some %"TGT"))
  = dq_text %" CREATE TABLE  IF NOT EXISTS TGT.EMP (X) -- ^SRC^." ++ nl :: dq_text %"'^SRC^.' TGT.^I^".
Proof.
  rewrite (@oracle_ddl_is_moved latin1_table sample_header %"EMP" %"TGT" sample_body
    ltac:(vm_compute; reflexivity) ltac:(vm_compute; reflexivity) ltac:(vm_compute; reflexivity) ltac:(vm_compute; reflexivity)
    ltac:(vm_compute; discriminate) ltac:(vm_compute; discriminate)). vm_compute. reflexivity.
Defined.

(** A table whose name is all lower case is created under another name: [quote_ident] leaves the name bare,
    which Oracle folds, while the rest of the captured DDL still names the table in lower case. *)
Example lower_case_table_is_renamed :
  @rewrite_oracle_native_table_ddl latin1_table (dq_text %"CREATE TABLE ^SRC^.^emp^ (^ID^ NUMBER); COMMENT ON TABLE ^SRC^.^emp^ IS 'x'")
    (Some %"TGT") (qualified_name %"emp" Oracle (Some %"TGT"))
  = dq_text %"CREATE TABLE TGT.EMP (^ID^ NUMBER); COMMENT ON TABLE TGT.^emp^ IS 'x'".
Proof. vm_compute. reflexivity. Qed.

(** A bare name with a dollar sign is cut at it, and the rest of the name stays behind the new one. *)
Example dollar_name_is_cut :
  @rewrite_ddl_header_qualifier latin1_table %"CREATE TABLE SRC.TAB$1 (ID NUMBER)" TABLE_DDL_HEADER_KEYWORDS (Some %"TGT")
    (qualified_name %"TAB$1" Oracle (Some %"TGT"))
  = %"CREATE TABLE TGT.TAB$1$1 (ID NUMBER)".
Proof. vm_compute. reflexivity. Qed.

(** A GaussDB name that starts and ends with a quote is taken as quoted, whatever is between. *)
Example gaussdb_name_is_not_quoted :
  quote_table_identifier (Some Gaussdb) (dq_text %"^a^; DROP TABLE ^b^") = dq_text %"^a^; DROP TABLE ^b^".
Proof. vm_compute. reflexivity. Qed.

(** A value that contains a placeholder is expanded again. *)
Example placeholder_in_a_name_is_expanded :
  render_template %"DROP FUNCTION {name}{cascade};" [(%"name", %"f{cascade}"); (%"cascade", %" CASCADE")]
  = %"DROP FUNCTION f CASCADE CASCADE;".
Proof. vm_compute. reflexivity. Qed.

(** Schema synchronisation quotes Spanner names with double quotes, table browsing with backticks. *)
Example spanner_names_are_quoted_in_two_ways :
  quote_id %"t" Spanner = dq_text %"^t^" /\ quote_table_identifier (Some Spanner) %"t" = %"`t`".
Proof. split; vm_compute; reflexivity. Qed.
