(* ===== verification/PgCasts.v ===== *)
(** * PgCasts: removing the casts of a PostgreSQL default ([schema_diff.rs],
      [consume_postgres_cast_name] to [strip_postgres_default_casts]).

    A default read from PostgreSQL carries casts ([ 'x'::character varying ]).  The
    type after [::] is recognised by hand; a type that cannot be recognised keeps the
    whole default as it is.  Positions are counted from the text the function is
    given; what stands before a quote is carried along, last character first. *)

From stdpp Require Import list.
From S2P Require Import Prelude DbTypes WriteClass SchemaTypes ViewDdl DdlProfile Identifiers DdlNames.

Section Casts.

Context `{LetterTable} `{CharTable}.

(** ** Names and keywords *)

Definition name_char (c : char) : bool := is_alphanumeric c || (c =? under)%N || (c =? dollar)%N.

(** The length of the name at the front and, unless it is quoted, its spelling in lower case. *)
Definition consume_postgres_cast_name (l : text) : option (nat * option text) :=
  match l with
  | [] => None
  | ch :: rest =>
      if (ch =? dquote)%N then (fun n => (S n, None)) <$> closing_len dquote rest
      else if is_alphabetic ch || (ch =? under)%N then
        let name := ch :: take_while name_char rest in Some (length name, Some (lower name))
      else None
  end.

Definition postgres_cast_whitespace (l : text) : nat := length (take_while is_ascii_whitespace l).

(** The blanks and the keyword at the front. *)
Definition consume_postgres_cast_keyword (l keyword : text) : option nat :=
  let blanks := postgres_cast_whitespace l in
  if Nat.eqb blanks 0 then None
  else
    '(n, unquoted) ← consume_postgres_cast_name (drop blanks l);
    token ← unquoted;
    if eq_ignore_ascii_case token keyword then Some (blanks + n) else None.

(** ** Quotes *)

Definition tag_ok (tag : text) : bool :=
  match tag with
  | [] => true
  | first :: rest => (is_alphabetic first || (first =? under)%N) && forallb (fun c => is_alphanumeric c || (c =? under)%N) rest
  end.

(** After a [$]: the characters of its delimiter. *)
Definition postgres_dollar_quote_delimiter (before : text) (ch : char) (rest : text) : option nat :=
  if (ch =? dollar)%N && negb (match before with c :: _ => name_char c | [] => false end) then
    n ← find_at [dollar] rest;
    if tag_ok (take n rest) then Some (S n) else None
  else None.

Definition consume_postgres_dollar_quoted (before : text) (ch : char) (rest : text) : option nat :=
  n ← postgres_dollar_quote_delimiter before ch rest;
  let delimiter := ch :: take n rest in
  offset ← find_at delimiter (drop n rest);
  Some (n + offset + length delimiter).

Definition postgres_escape_string_quote (before : text) : bool :=
  match before with
  | e :: rest => ((e =? 101)%N || (e =? 69)%N) && match rest with c :: _ => negb (name_char c) | [] => true end
  | [] => false
  end.

(** The flags of the two loops. *)
Record quotes : Set := mk_quotes { in_single_quote : bool; in_escape_single_quote : bool; in_double_quote : bool; before : text }.

Definition no_quotes : quotes := mk_quotes false false false [].

Definition push (l : text) (q : quotes) : quotes :=
  mk_quotes (in_single_quote q) (in_escape_single_quote q) (in_double_quote q) (rev l ++ before q).

(** A character that belongs to a quoted text or opens one: the flags after it and how many more characters it takes. *)
Definition quote_step (q : quotes) (ch : char) (rest : text) : option (quotes * nat) :=
  if in_single_quote q && in_escape_single_quote q && (ch =? bslash)%N then Some (q, Nat.min 1 (length rest))
  else if (ch =? squote)%N && negb (in_double_quote q) then
    if in_single_quote q && head_is squote rest then Some (q, 1)
    else
      let opens := negb (in_single_quote q) in
      Some (mk_quotes opens (opens && postgres_escape_string_quote (before q)) (in_double_quote q) (before q), 0)
  else if (ch =? dquote)%N && negb (in_single_quote q) then
    if in_double_quote q && head_is dquote rest then Some (q, 1)
    else Some (mk_quotes (in_single_quote q) (in_escape_single_quote q) (negb (in_double_quote q)) (before q), 0)
  else if in_single_quote q || in_double_quote q then Some (q, 0)
  else None.

(** The characters up to the bracket that closes the group. *)
Fixpoint group_from (open close : char) (depth : nat) (q : quotes) (skip : nat) (l : text) : option nat :=
  match l with
  | [] => None
  | ch :: rest =>
      let go := fun depth q skip => S <$> group_from open close depth (push [ch] q) skip rest in
      match skip with
      | S skip' => go depth q skip'
      | O =>
          match quote_step q ch rest with
          | Some (q', extra) => go depth q' extra
          | None =>
              match postgres_dollar_quote_delimiter (before q) ch rest with
              | Some _ => n ← consume_postgres_dollar_quoted (before q) ch rest; go depth q n
              | None =>
                  if (ch =? open)%N then go (S depth) q 0
                  else if (ch =? close)%N then if Nat.eqb (depth - 1) 0 then Some 1 else go (depth - 1) q 0
                  else go depth q 0
              end
          end
      end
  end.

Definition consume_postgres_cast_group (l : text) (open close : char) : option nat :=
  if head_is open l then group_from open close 0 no_quotes 0 l else None.

(** ** Types *)

(** The components after a dot; every round takes a character. *)
Fixpoint qualified_from (fuel index : nat) (qualified : bool) (l : text) : option (nat * bool) :=
  match fuel with
  | O => None
  | S fuel' =>
      let rest := drop index l in
      let dot := postgres_cast_whitespace rest in
      if head_is 46%N (drop dot rest) then
        let component := dot + 1 + postgres_cast_whitespace (drop (dot + 1) rest) in
        '(n, _) ← consume_postgres_cast_name (drop component rest);
        qualified_from fuel' (index + component + n) true l
      else Some (index, qualified)
  end.

(** [if let Some(end) = consume_postgres_cast_keyword(..) { index = end }]. *)
Definition with_keyword (l keyword : text) (index : nat) : nat :=
  match consume_postgres_cast_keyword (drop index l) keyword with Some n => index + n | None => index end.

Definition base_is (base : option text) (names : list text) : bool := match base with Some b => text_in b names | None => false end.

Definition phrase_end (base : option text) (l : text) (index : nat) : nat :=
  if base_is base [%"character"; %"char"; %"bit"] then with_keyword l %"varying" index
  else if base_is base [%"double"] then with_keyword l %"precision" index
  else if base_is base [%"national"] then
    match consume_postgres_cast_keyword (drop index l) %"character", consume_postgres_cast_keyword (drop index l) %"char" with
    | Some n, _ => with_keyword l %"varying" (index + n)
    | None, Some n => with_keyword l %"varying" (index + n)
    | None, None => index
    end
  else index.

(** An optional group in parentheses. *)
Definition modifier_end (l : text) (index : nat) : option nat :=
  let start := index + postgres_cast_whitespace (drop index l) in
  if head_is lparen (drop start l) then n ← consume_postgres_cast_group (drop start l) lparen rparen; Some (start + n) else Some index.

Definition keyword_at (l keyword : text) (index : nat) : option nat := (fun n => index + n) <$> consume_postgres_cast_keyword (drop index l) keyword.

Definition time_zone_end (base : option text) (l : text) (index : nat) : option nat :=
  if base_is base [%"time"; %"timestamp"] then
    match (match keyword_at l %"with" index with Some e => Some e | None => keyword_at l %"without" index end) with
    | Some with_end => time_end ← keyword_at l %"time" with_end; keyword_at l %"zone" time_end
    | None => Some index
    end
  else Some index.

Fixpoint first_keyword (l : text) (index : nat) (keywords : list text) : option (text * nat) :=
  match keywords with
  | [] => None
  | k :: ks => match keyword_at l k index with Some e => Some (k, e) | None => first_keyword l index ks end
  end.

Definition INTERVAL_FIELDS : list text := [%"year"; %"month"; %"day"; %"hour"; %"minute"; %"second"].

Definition valid_final_fields (first_field : text) : list text :=
  if text_eqb first_field %"year" then [%"month"]
  else if text_eqb first_field %"day" then [%"hour"; %"minute"; %"second"]
  else if text_eqb first_field %"hour" then [%"minute"; %"second"]
  else if text_eqb first_field %"minute" then [%"second"]
  else [].

Definition interval_end (base : option text) (l : text) (index : nat) : option nat :=
  if base_is base [%"interval"] then
    match first_keyword l index INTERVAL_FIELDS with
    | None => Some index
    | Some (first_field, first_end) =>
        index ← match keyword_at l %"to" first_end with
                | Some to_end => snd <$> first_keyword l to_end (valid_final_fields first_field)
                | None => Some first_end
                end;
        modifier_end l index
    end
  else Some index.

(** The array suffixes; every round takes a character. *)
Fixpoint arrays_from (fuel index : nat) (l : text) : option nat :=
  match fuel with
  | O => None
  | S fuel' =>
      let start := index + postgres_cast_whitespace (drop index l) in
      if head_is lbracket (drop start l) then
        n ← consume_postgres_cast_group (drop start l) lbracket rbracket;
        let bounds := trim (take (n - 2) (drop (start + 1) l)) in
        if negb (is_empty bounds) && negb (forallb is_ascii_digit bounds) then None else arrays_from fuel' (start + n) l
      else Some index
  end.

(** [(!qualified).then_some(first_name).flatten()]. *)
Definition unqualified (qualified : bool) (first_name : option text) : option text := if qualified then None else first_name.

(** The length of the type at the front; [None] where the source returns the start. *)
Definition consume_postgres_cast_type (l : text) : option nat :=
  let blanks := postgres_cast_whitespace l in
  '(n, first_name) ← consume_postgres_cast_name (drop blanks l);
  '(index, qualified) ← qualified_from (S (length l)) (blanks + n) false l;
  let base := unqualified qualified first_name in
  index ← modifier_end l (phrase_end base l index);
  index ← time_zone_end base l index;
  index ← interval_end base l index;
  index ← arrays_from (S (length l)) index l;
  match drop index l with
  | ch :: _ => if name_char ch || (ch =? dquote)%N || (ch =? squote)%N || (ch =? lparen)%N then None else Some index
  | [] => Some index
  end.

(** ** The loop *)

(** The flags, and whether a cast could not be read. *)
Record cast_state : Set := mk_cast_state { quotes_of : quotes; malformed : bool }.

Definition cast_step (st : cast_state) (ch : char) (rest : text) : cast_state * text * nat :=
  let q := quotes_of st in
  let copy := fun q extra => let piece := ch :: take extra rest in (mk_cast_state (push piece q) (malformed st), piece, extra) in
  match quote_step q ch rest with
  | Some (q', extra) => copy q' extra
  | None =>
      match postgres_dollar_quote_delimiter (before q) ch rest with
      | Some _ => copy q (default (length rest) (consume_postgres_dollar_quoted (before q) ch rest))
      | None =>
          if (ch =? colon)%N && head_is colon rest then
            match consume_postgres_cast_type (drop 1 rest) with
            | Some n => (mk_cast_state (push (ch :: take (1 + n) rest) q) (malformed st), [], 1 + n)
            | None => (mk_cast_state q true, [], 0)
            end
          else copy q 0
      end
  end.

Definition strip_postgres_default_casts (value : text) : text :=
  let '(st, out) := scan_loop cast_step (mk_cast_state no_quotes false) 0 value in
  if malformed st then value else out.

End Casts.
