(* ===== verification/CastStripFacts.v ===== *)
(** * CastStripFacts: the casts of a default are recognised by their grammar.

    Types are written from a grammar ([cast_type]): words, quoted and qualified names,
    the phrases of PostgreSQL's own types, a modifier, array suffixes.  Defaults are
    written from [default_piece]s: code, strings, escape strings, quoted names,
    dollar-quoted strings and casts. *)

From Stdlib Require Import ZifyN ZifyBool.
From stdpp Require Import list.
From S2P Require Import Prelude DbTypes WriteClass SchemaTypes ViewDdl DdlProfile Identifiers DdlNames DdlNamesFacts DdlMoveFacts PgCasts.

Section Types.

Context `{LetterTable} `{CharTable}.

(** ** Stages of the recogniser

    Every stage is given the whole text and the index it has reached. *)

Lemma drop_blanks (l : text) : drop (postgres_cast_whitespace l) l = drop_while is_ascii_whitespace l.
Proof. unfold postgres_cast_whitespace. induction l as [|c l IH]; [done|]. cbn. by destruct (is_ascii_whitespace c). Qed.

Lemma no_blanks c (l : text) : is_ascii_whitespace c = false -> postgres_cast_whitespace (c :: l) = 0.
Proof. unfold postgres_cast_whitespace. cbn. by intros ->. Qed.

(** The first character after the blanks. *)
Definition next_char (l : text) : option char := head (drop_while is_ascii_whitespace l).

Definition next_is (p : char -> bool) (l : text) : bool := match next_char l with Some c => p c | None => false end.

Lemma head_is_next c l : head_is c (drop_while is_ascii_whitespace l) = next_is (fun d => (d =? c)%N) l.
Proof. unfold next_is, next_char. by destruct (drop_while _ l). Qed.

Definition name_start (c : char) : bool := is_alphabetic c || (c =? under)%N || (c =? dquote)%N.

Inductive name_part : Set := WordPart (w : text) | QuotedPart (name : text).

Definition part_text (p : name_part) : text := match p with WordPart w => w | QuotedPart name => delimited dquote dquote name end.

Definition part_ok (p : name_part) : bool :=
  match p with WordPart (c :: w) => (is_alphabetic c || (c =? under)%N) && forallb name_char w | WordPart [] => false | QuotedPart _ => true end.

Definition part_ends (p : name_part) (rest : text) : bool :=
  match p, rest with _, [] => true | WordPart _, c :: _ => negb (name_char c) | QuotedPart _, c :: _ => negb (c =? dquote)%N end.

Definition part_name (p : name_part) : option text := match p with WordPart w => Some (lower w) | QuotedPart _ => None end.

Lemma letter_not_blank c : is_alphabetic c || (c =? under)%N = true -> is_ascii_whitespace c = false /\ (c =? dquote)%N = false.
Proof.
  intros Hc. destruct (is_ascii_whitespace c) eqn:Hs.
  - unfold is_ascii_whitespace in Hs. rewrite !orb_true_iff, !N.eqb_eq in Hs. by destruct Hs as [[[[->| ->]| ->]| ->]| ->].
  - split; [done|]. by destruct (N.eqb_spec c dquote) as [->|].
Qed.

Lemma consume_part p rest :
  part_ok p = true -> part_ends p rest = true ->
  consume_postgres_cast_name (part_text p ++ rest) = Some (length (part_text p), part_name p)
  /\ postgres_cast_whitespace (part_text p ++ rest) = 0.
Proof.
  destruct p as [[|c w]|name]; cbn [part_ok part_text part_ends part_name app]; intros Hok He; [done| |].
  - apply andb_prop in Hok as [Hc Hw]. destruct (letter_not_blank c Hc) as [Hs Hd]. split; [|by apply no_blanks].
    unfold consume_postgres_cast_name. rewrite Hd, Hc. rewrite take_while_run; [done|done|]. by destruct rest.
  - split; [|by apply no_blanks]. unfold consume_postgres_cast_name. cbn [delimited app]. rewrite N.eqb_refl, <- app_assoc. cbn [app].
    rewrite closing_len_double by (destruct rest; [done|by apply negb_true_iff in He]). cbn. rewrite length_app. cbn. do 2 f_equal. lia.
Qed.

Lemma qualified_none fuel pre rest q :
  next_is (fun c => (c =? 46)%N) rest = false -> qualified_from (S fuel) (length pre) q (pre ++ rest) = Some (length pre, q).
Proof. intros Hd. cbn [qualified_from]. by rewrite drop_app_length, drop_blanks, head_is_next, Hd. Qed.

Lemma qualified_one fuel pre p rest q :
  part_ok p = true -> part_ends p rest = true -> next_is (fun c => (c =? 46)%N) rest = false ->
  qualified_from (S (S fuel)) (length pre) q (pre ++ dot ++ part_text p ++ rest) = Some (length (pre ++ dot ++ part_text p), true).
Proof.
  intros Hp He Hd. rewrite <- (qualified_none fuel (pre ++ dot ++ part_text p) rest true Hd), <- !app_assoc.
  destruct (consume_part p rest Hp He) as [Hn Hb]. remember (S fuel) as f. cbn [qualified_from]. rewrite drop_app_length.
  assert (postgres_cast_whitespace (dot ++ part_text p ++ rest) = 0) as -> by done.
  assert (drop (0 + 1) (dot ++ part_text p ++ rest) = part_text p ++ rest) as -> by (cbn; by rewrite drop_0).
  rewrite Hb, drop_0. change (head_is 46%N (dot ++ part_text p ++ rest)) with true. cbn iota.
  assert (drop (0 + 1 + 0) (dot ++ part_text p ++ rest) = part_text p ++ rest) as -> by (cbn; by rewrite drop_0).
  rewrite Hn. cbn [mbind option_bind]. f_equal. rewrite !length_app. cbn. lia.
Qed.

(** ** Keywords *)

Lemma ascii_lowercase_idemp c : to_ascii_lowercase (to_ascii_lowercase c) = to_ascii_lowercase c.
Proof. unfold to_ascii_lowercase, is_ascii_uppercase. repeat case_match; lia. Qed.

Lemma lower_matches w : eq_ignore_ascii_case (lower w) w = true.
Proof.
  unfold eq_ignore_ascii_case, lower. rewrite map_map, (map_ext _ _ ascii_lowercase_idemp). apply text_eqb_refl.
Qed.

Lemma keyword_eaten kw rest :
  part_ok (WordPart kw) = true -> part_ends (WordPart kw) rest = true ->
  consume_postgres_cast_keyword (space :: kw ++ rest) kw = Some (S (length kw)).
Proof.
  intros Hk He. destruct (consume_part _ _ Hk He) as [Hn Hb]. cbn [part_text part_name] in *.
  unfold consume_postgres_cast_keyword. assert (postgres_cast_whitespace (space :: kw ++ rest) = 1) as ->.
  { unfold postgres_cast_whitespace in *. cbn. by rewrite Hb. }
  change (drop 1 (space :: kw ++ rest)) with (drop 0 (kw ++ rest)). rewrite drop_0, Hn. cbn. by rewrite lower_matches.
Qed.

(** No keyword follows: the text goes on at once, or not with a name. *)
Definition no_phrase (rest : text) : bool :=
  match rest with [] => true | c :: _ => negb (is_ascii_whitespace c) || negb (next_is name_start rest) end.

Lemma no_keyword rest kw : no_phrase rest = true -> consume_postgres_cast_keyword rest kw = None.
Proof.
  unfold no_phrase, consume_postgres_cast_keyword. rewrite drop_blanks. intros Hr. destruct rest as [|c rest]; [done|].
  destruct (is_ascii_whitespace c) eqn:Hc; [|by rewrite no_blanks]. destruct (Nat.eqb _ 0); [done|].
  cbn [negb orb] in Hr. unfold next_is, next_char in Hr. destruct (drop_while is_ascii_whitespace (c :: rest)) as [|d l]; [done|].
  cbn [head] in Hr. unfold name_start in Hr. rewrite negb_true_iff, orb_false_iff in Hr. destruct Hr as [Hl Hd].
  unfold consume_postgres_cast_name. by rewrite Hd, Hl.
Qed.

Lemma keyword_at_eaten pre kw rest :
  part_ok (WordPart kw) = true -> part_ends (WordPart kw) rest = true ->
  keyword_at (pre ++ space :: kw ++ rest) kw (length pre) = Some (length (pre ++ space :: kw)).
Proof.
  intros Hk He. unfold keyword_at. rewrite drop_app_length, keyword_eaten by done. cbn. rewrite length_app. done.
Qed.

Lemma keyword_at_none pre kw rest : no_phrase rest = true -> keyword_at (pre ++ rest) kw (length pre) = None.
Proof. intros Hr. unfold keyword_at. by rewrite drop_app_length, no_keyword. Qed.

(** ** Groups *)

Definition group_char (c : char) : bool :=
  negb (existsb (N.eqb c) [squote; dquote; dollar; lparen; rparen; lbracket; rbracket]).

Lemma group_char_spec c :
  group_char c = true ->
  (c =? squote)%N = false /\ (c =? dquote)%N = false /\ (c =? dollar)%N = false /\ (c =? lparen)%N = false
  /\ (c =? rparen)%N = false /\ (c =? lbracket)%N = false /\ (c =? rbracket)%N = false.
Proof. unfold group_char. cbn [existsb]. rewrite negb_true_iff, !orb_false_iff. tauto. Qed.

Definition in_code (q : quotes) : Prop := in_single_quote q = false /\ in_escape_single_quote q = false /\ in_double_quote q = false.

Lemma quote_step_code q c rest : in_code q -> (c =? squote)%N = false -> (c =? dquote)%N = false -> quote_step q c rest = None.
Proof. intros (H1 & H2 & H3) Hs Hd. unfold quote_step. by rewrite H1, H3, Hs, Hd. Qed.

Lemma delimiter_none b c rest : (c =? dollar)%N = false -> postgres_dollar_quote_delimiter b c rest = None.
Proof. unfold postgres_dollar_quote_delimiter. by intros ->. Qed.

Lemma push_in_code l q : in_code q -> in_code (push l q).
Proof. done. Qed.

Definition bracket_pair (open close : char) : Prop := (open = lparen /\ close = rparen) \/ (open = lbracket /\ close = rbracket).

Lemma group_body open close body rest : forall q,
  bracket_pair open close -> in_code q -> forallb group_char body = true ->
  group_from open close 1 q 0 (body ++ close :: rest) = Some (S (length body)).
Proof.
  induction body as [|c body IH]; intros q Hp Hq Hb.
  - cbn [app group_from]. rewrite quote_step_code by (try done; by destruct Hp as [[_ ->]|[_ ->]]).
    rewrite delimiter_none by (by destruct Hp as [[_ ->]|[_ ->]]). by destruct Hp as [[-> ->]|[-> ->]].
  - apply andb_prop in Hb as [(Hs & Hd & Hdl & Hlp & Hrp & Hlb & Hrb)%group_char_spec Hb]. cbn [app group_from].
    rewrite quote_step_code, delimiter_none by done.
    replace (c =? open)%N with false by (by destruct Hp as [[-> _]|[-> _]]).
    replace (c =? close)%N with false by (by destruct Hp as [[_ ->]|[_ ->]]).
    by rewrite IH by auto using push_in_code.
Qed.

Lemma group_eaten open close body rest :
  bracket_pair open close -> forallb group_char body = true ->
  consume_postgres_cast_group (open :: body ++ close :: rest) open close = Some (S (S (length body))).
Proof.
  intros Hp Hb. unfold consume_postgres_cast_group. cbn [head_is]. rewrite N.eqb_refl. cbn [group_from].
  rewrite quote_step_code by (try done; by destruct Hp as [[-> _]|[-> _]]).
  rewrite delimiter_none, N.eqb_refl by (by destruct Hp as [[-> _]|[-> _]]). by rewrite group_body.
Qed.

(** ** Modifiers and arrays *)

Definition modifier_text (m : option text) : text := match m with Some args => [lparen] ++ args ++ [rparen] | None => [] end.
Definition modifier_ok (m : option text) : bool := match m with Some args => forallb group_char args | None => true end.

Lemma modifier_eaten pre m rest :
  modifier_ok m = true -> next_is (fun c => (c =? lparen)%N) rest = false ->
  modifier_end (pre ++ modifier_text m ++ rest) (length pre) = Some (length (pre ++ modifier_text m)).
Proof.
  intros Hm Hr. unfold modifier_end. rewrite drop_app_length, drop_app_add, drop_blanks.
  destruct m as [args|]; cbn [modifier_text modifier_ok] in *.
  - rewrite <- !app_assoc. cbn [app drop_while]. change (is_ascii_whitespace lparen) with false. cbn iota.
    rewrite no_blanks by done. cbn [head_is]. change (lparen =? lparen)%N with true. cbn iota.
    rewrite group_eaten by (try done; by left). cbn. f_equal. rewrite !length_app. cbn. rewrite length_app. cbn. lia.
  - cbn [app]. by rewrite head_is_next, Hr, app_nil_r.
Qed.

Definition dimension_text (d : text) : text := [lbracket] ++ d ++ [rbracket].
Definition dimensions_text (ds : list text) : text := ds ≫= dimension_text.

Lemma dimensions_length ds : length ds <= length (dimensions_text ds).
Proof. induction ds as [|d ds IH]; [done|]. cbn [dimensions_text mbind list_bind]. fold (dimensions_text ds). rewrite length_app. cbn. lia. Qed.

Lemma digit_group_char c : is_ascii_digit c = true -> group_char c = true.
Proof. unfold is_ascii_digit, group_char. cbn. unfold squote, dquote, dollar, lparen, rparen, lbracket, rbracket. lia. Qed.

Lemma trim_digits d : forallb is_ascii_digit d = true -> forallb is_ascii_digit (trim d) = true.
Proof.
  intros Hd. destruct (trim_split d) as (a & b & Hs & _). rewrite Hs, !forallb_app, !andb_true_iff in Hd. tauto.
Qed.

Lemma arrays_eaten ds : forall fuel pre rest,
  forallb (forallb is_ascii_digit) ds = true -> next_is (fun c => (c =? lbracket)%N) rest = false -> length ds < fuel ->
  arrays_from fuel (length pre) (pre ++ dimensions_text ds ++ rest) = Some (length (pre ++ dimensions_text ds)).
Proof.
  induction ds as [|d ds IH]; intros [|fuel] pre rest Hd Hr Hf; try (cbn in Hf; lia); cbn [arrays_from].
  - cbn [dimensions_text mbind list_bind app]. rewrite drop_app_length, drop_app_add, drop_blanks.
    by rewrite head_is_next, Hr, app_nil_r.
  - apply andb_prop in Hd as [Hd Hds]. specialize (IH fuel (pre ++ dimension_text d) rest Hds Hr ltac:(cbn in Hf; lia)).
    cbn [dimensions_text mbind list_bind]. fold (dimensions_text ds). rewrite <- !app_assoc.
    change (dimension_text d ++ dimensions_text ds ++ rest) with (lbracket :: (d ++ [rbracket]) ++ dimensions_text ds ++ rest).
    rewrite drop_app_length, no_blanks, Nat.add_0_r, drop_app_length by done. cbn [head_is]. change (lbracket =? lbracket)%N with true.
    cbn iota. rewrite <- (app_assoc d). cbn [app]. rewrite group_eaten; [|by right|].
    2:{ eapply forallb_impl; [|exact Hd]. apply digit_group_char. }
    cbn [mbind option_bind]. rewrite drop_app_add. cbn [drop].
    replace (take _ _) with d.
    2:{ rewrite drop_0. replace (S (S (length d)) - 2) with (length d) by lia. by rewrite take_app_length. }
    rewrite (trim_digits _ Hd), andb_false_r.
    replace (length pre + S (S (length d))) with (length (pre ++ dimension_text d)) by (rewrite !length_app; cbn; rewrite length_app; cbn; lia).
    replace (pre ++ lbracket :: d ++ rbracket :: dimensions_text ds ++ rest) with ((pre ++ dimension_text d) ++ dimensions_text ds ++ rest).
    2:{ unfold dimension_text. rewrite <- !app_assoc. done. }
    rewrite IH. by rewrite <- app_assoc.
Qed.

(** ** The grammar of types *)

Inductive type_base : Set :=
| TName (name : name_part)
| TQualified (schema name : name_part)
| TVarying (kind : text)
| TDoublePrecision
| TTimeZone (kind : text) (with_zone : bool).

Record cast_type : Set := mk_cast_type { base_of : type_base; modifier : option text; dimensions : list text }.

(** Before and after the modifier. *)
Definition base_text (b : type_base) : text :=
  match b with
  | TName name => part_text name
  | TQualified schema name => part_text schema ++ dot ++ part_text name
  | TVarying kind => kind ++ space :: %"varying"
  | TDoublePrecision => %"double" ++ space :: %"precision"
  | TTimeZone kind _ => kind
  end.

Definition suffix_text (b : type_base) : text :=
  match b with
  | TTimeZone _ with_zone => (space :: if with_zone then %"with" else %"without") ++ (space :: %"time") ++ (space :: %"zone")
  | _ => []
  end.

Definition type_text (t : cast_type) : text :=
  base_text (base_of t) ++ modifier_text (modifier t) ++ suffix_text (base_of t) ++ dimensions_text (dimensions t).

Definition base_ok (b : type_base) : bool :=
  match b with
  | TName name => part_ok name
  | TQualified schema name => part_ok schema && part_ok name
  | TVarying kind => text_in kind [%"character"; %"char"; %"bit"]
  | TDoublePrecision => true
  | TTimeZone kind _ => text_in kind [%"time"; %"timestamp"]
  end.

Definition type_ok (t : cast_type) : bool :=
  base_ok (base_of t) && modifier_ok (modifier t) && forallb (forallb is_ascii_digit) (dimensions t).

(** The words that a keyword may follow. *)
Definition PHRASE_WORDS : list text :=
  [%"character"; %"char"; %"bit"; %"double"; %"national"; %"time"; %"timestamp"; %"interval"].

Definition takes_keyword (b : type_base) : bool :=
  match b with TName (WordPart w) => text_in (lower w) PHRASE_WORDS | _ => false end.

(** What may follow a type. *)
Definition type_ends (t : cast_type) (rest : text) : bool :=
  match rest with c :: _ => negb (name_char c || (c =? dquote)%N || (c =? squote)%N || (c =? lparen)%N) | [] => true end
  && negb (next_is (fun c => (c =? 46)%N || (c =? lparen)%N || (c =? lbracket)%N) rest)
  && (negb (takes_keyword (base_of t)) || no_phrase rest).

(** ** What the stages see *)

Lemma next_modifier p m l : next_is p (modifier_text m ++ l) = match m with Some _ => p lparen | None => next_is p l end.
Proof. by destruct m. Qed.

Lemma next_dimensions p ds l : next_is p (dimensions_text ds ++ l) = match ds with _ :: _ => p lbracket | [] => next_is p l end.
Proof. by destruct ds. Qed.

Lemma next_suffix p b l : next_is p (suffix_text b ++ l) = match b with TTimeZone _ _ => p 119%N | _ => next_is p l end.
Proof. destruct b as [| | | |k [|]]; done. Qed.

Lemma part_ends_modifier q m l : part_ends q (modifier_text m ++ l) = match m with Some _ => true | None => part_ends q l end.
Proof. by destruct m, q. Qed.

Lemma part_ends_dimensions q ds l : part_ends q (dimensions_text ds ++ l) = match ds with _ :: _ => true | [] => part_ends q l end.
Proof. by destruct ds, q. Qed.

Lemma part_ends_suffix q b l : part_ends q (suffix_text b ++ l) = match b with TTimeZone _ _ => true | _ => part_ends q l end.
Proof. by destruct b as [| | | |k [|]], q. Qed.

Lemma no_phrase_modifier m l : no_phrase (modifier_text m ++ l) = match m with Some _ => true | None => no_phrase l end.
Proof. by destruct m. Qed.

Lemma no_phrase_dimensions ds l : no_phrase (dimensions_text ds ++ l) = match ds with _ :: _ => true | [] => no_phrase l end.
Proof. by destruct ds. Qed.

Lemma next_is_or p q l : next_is (fun c => p c || q c) l = next_is p l || next_is q l.
Proof. unfold next_is. by destruct (next_char l). Qed.

Lemma type_ends_spec t rest :
  type_ends t rest = true ->
  (forall q, part_ends q rest = true) /\ next_is (fun c => (c =? 46)%N) rest = false
  /\ next_is (fun c => (c =? lparen)%N) rest = false /\ next_is (fun c => (c =? lbracket)%N) rest = false
  /\ (takes_keyword (base_of t) = true -> no_phrase rest = true).
Proof.
  unfold type_ends. rewrite !andb_true_iff, negb_true_iff, !next_is_or, !orb_false_iff. intros [[Hh [[Hd Hp] Hb]] Hk].
  split_and!; try done.
  - intros q. destruct rest as [|c rest]; [by destruct q|]. rewrite negb_true_iff, !orb_false_iff in Hh. destruct Hh as [[[H1 H2] H3] H4].
    destruct q; cbn; [by rewrite H1|by rewrite H2].
  - intros Ht. by rewrite Ht in Hk.
Qed.

(** ** The whole type *)

(** [base_name] of the source. *)
Definition base_key (b : type_base) : option text :=
  match b with
  | TName name => part_name name
  | TQualified _ _ => None
  | TVarying kind | TTimeZone kind _ => Some kind
  | TDoublePrecision => Some %"double"
  end.

Lemma text_in_spec t l : text_in t l = true <-> In t l.
Proof.
  unfold text_in. rewrite existsb_exists. split.
  - intros [x [Hx He]]. apply text_eqb_eq in He. by subst.
  - intros Ht. exists t. by rewrite text_eqb_refl.
Qed.

(** A word of the language and the blank after it. *)
Lemma word_before_blank w rest :
  part_ok (WordPart w) = true -> next_is (fun c => (c =? 46)%N) (space :: rest) = false ->
  consume_postgres_cast_name (w ++ space :: rest) = Some (length w, Some (lower w))
  /\ postgres_cast_whitespace (w ++ space :: rest) = 0
  /\ qualified_from (S (length (w ++ space :: rest))) (length w) false (w ++ space :: rest) = Some (length w, false).
Proof.
  intros Hw Hd. destruct (consume_part (WordPart w) (space :: rest) Hw eq_refl) as [Hn Hb]. split_and!; [done|done|].
  by apply qualified_none.
Qed.

Lemma phrase_none b l index :
  negb (base_is b [%"character"; %"char"; %"bit"; %"double"; %"national"]) = true -> phrase_end b l index = index.
Proof.
  unfold phrase_end, base_is. destruct b as [b|]; [|done]. unfold text_in. cbn [existsb]. rewrite negb_true_iff, !orb_false_iff.
  intros (H1 & H2 & H3 & H4 & H5 & _). by rewrite H1, H2, H3, H4, H5.
Qed.

Lemma phrase_no_keyword b pre rest : no_phrase rest = true -> phrase_end b (pre ++ rest) (length pre) = length pre.
Proof.
  intros Hr. unfold phrase_end, with_keyword. rewrite drop_app_length, !no_keyword by done. by repeat case_match.
Qed.

Lemma phrase_varying kind rest :
  In kind [%"character"; %"char"; %"bit"] -> part_ends (WordPart %"varying") rest = true ->
  phrase_end (Some kind) (kind ++ space :: %"varying" ++ rest) (length kind) = length (kind ++ space :: %"varying").
Proof.
  intros Hk He. unfold phrase_end. cbn [base_is]. rewrite (proj2 (text_in_spec _ _) Hk). unfold with_keyword.
  rewrite drop_app_length, keyword_eaten by done. by rewrite length_app.
Qed.

(** Reading the base of a type. *)
Definition base_read (b : type_base) (rest : text) : Prop :=
  let l := base_text b ++ rest in
  exists n first_name index qualified,
    postgres_cast_whitespace l = 0 /\ consume_postgres_cast_name l = Some (n, first_name)
    /\ qualified_from (S (length l)) n false l = Some (index, qualified) /\ unqualified qualified first_name = base_key b
    /\ phrase_end (base_key b) l index = length (base_text b).

Lemma base_eaten b rest :
  base_ok b = true -> (forall q, part_ends q rest = true) -> next_is (fun c => (c =? 46)%N) rest = false ->
  (takes_keyword b = true -> no_phrase rest = true) -> base_read b rest.
Proof.
  intros Hok He Hd Hk. unfold base_read. destruct b as [p|o p|kind| |kind zone]; cbn [base_text base_key base_ok takes_keyword] in *.
  - destruct (consume_part p rest Hok (He p)) as [Hn Hb]. do 4 eexists. split_and!; [done|done|by apply qualified_none|done|].
    destruct (base_is (part_name p) PHRASE_WORDS) eqn:Hp.
    + apply phrase_no_keyword, Hk. destruct p; [done|by cbn in Hp].
    + apply phrase_none. apply negb_true_iff, not_true_iff_false. intros Hin. apply not_true_iff_false in Hp. apply Hp.
      destruct (part_name p); [|done]. apply text_in_spec. apply text_in_spec in Hin. cbn in Hin |- *. tauto.
  - apply andb_prop in Hok as [Ho Hp]. rewrite <- !app_assoc.
    destruct (consume_part o (dot ++ part_text p ++ rest) Ho) as [Hn Hb]; [by destruct o|]. do 4 eexists.
    split_and!; [exact Hb|exact Hn| | |].
    + rewrite length_app, Nat.add_comm. cbn [length app dot]. apply (qualified_one _ (part_text o)); auto.
    + done.
    + done.
  - rewrite <- app_assoc. cbn [app]. apply text_in_spec in Hok. assert (part_ok (WordPart kind) = true) as Hw by (cbn in Hok; naive_solver).
    destruct (word_before_blank kind (%"varying" ++ rest) Hw eq_refl) as (Hn & Hb & Hq). do 4 eexists. split_and!; [exact Hb|exact Hn|exact Hq| |].
    + cbn. f_equal. cbn in Hok. by destruct Hok as [<-|[<-|[<-|[]]]].
    + apply phrase_varying; auto.
  - destruct (word_before_blank %"double" (%"precision" ++ rest) eq_refl eq_refl) as (Hn & Hb & Hq). rewrite <- app_assoc. cbn [app] in *.
    do 4 eexists. split_and!; [exact Hb|exact Hn|exact Hq|done|]. unfold phrase_end.
    change (base_is (Some %"double") [%"character"; %"char"; %"bit"]) with false. change (base_is (Some %"double") [%"double"]) with true. cbn iota.
    unfold with_keyword. rewrite drop_app_length. pose proof (keyword_eaten %"precision" rest eq_refl (He _)) as Hx. cbn [app] in Hx |- *. by rewrite Hx.
  - apply text_in_spec in Hok. assert (part_ok (WordPart kind) = true) as Hw by (cbn in Hok; naive_solver).
    destruct (consume_part (WordPart kind) rest Hw (He _)) as [Hn Hb]. do 4 eexists. split_and!; [exact Hb|exact Hn|by apply qualified_none| |].
    + cbn. f_equal. cbn in Hok. by destruct Hok as [<-|[<-|[]]].
    + apply phrase_none. cbn in Hok. by destruct Hok as [<-|[<-|[]]].
Qed.

(** A word that only starts like the keyword is another word. *)
Lemma with_is_not_without pre rest :
  part_ends (WordPart %"without") rest = true -> keyword_at (pre ++ space :: %"without" ++ rest) %"with" (length pre) = None.
Proof.
  intros He. unfold keyword_at, consume_postgres_cast_keyword. rewrite drop_app_length.
  change (postgres_cast_whitespace (space :: %"without" ++ rest)) with 1. cbn [Nat.eqb].
  change (drop 1 (space :: %"without" ++ rest)) with (drop 0 (%"without" ++ rest)). rewrite drop_0.
  destruct (consume_part (WordPart %"without") rest eq_refl He) as [Hn _]. cbn [part_text] in Hn. rewrite Hn. done.
Qed.

Lemma zone_words pre (kind : text) with_zone rest :
  In kind [%"time"; %"timestamp"] -> part_ends (WordPart %"zone") rest = true ->
  time_zone_end (Some kind) (pre ++ suffix_text (TTimeZone kind with_zone) ++ rest) (length pre)
  = Some (length (pre ++ suffix_text (TTimeZone kind with_zone))).
Proof.
  intros Hk He. unfold time_zone_end. cbn [base_is]. rewrite (proj2 (text_in_spec _ _) Hk). cbn [suffix_text].
  assert (forall w, part_ok (WordPart w) = true ->
    let all := pre ++ (space :: w) ++ (space :: %"time") ++ (space :: %"zone") ++ rest in
    keyword_at all w (length pre) = Some (length (pre ++ space :: w))
    /\ keyword_at all %"time" (length (pre ++ space :: w)) = Some (length (pre ++ (space :: w) ++ (space :: %"time")))
    /\ keyword_at all %"zone" (length (pre ++ (space :: w) ++ (space :: %"time")))
       = Some (length (pre ++ (space :: w) ++ (space :: %"time") ++ (space :: %"zone")))) as Hwords.
  { intros w Hw all. unfold all. split_and!.
    - by apply (keyword_at_eaten pre).
    - pose proof (keyword_at_eaten (pre ++ space :: w) %"time" ((space :: %"zone") ++ rest) eq_refl eq_refl) as Hx.
      by rewrite <- !app_assoc in Hx.
    - pose proof (keyword_at_eaten (pre ++ (space :: w) ++ (space :: %"time")) %"zone" rest eq_refl He) as Hx.
      by rewrite <- !app_assoc in Hx. }
  destruct with_zone; rewrite <- !app_assoc.
  - destruct (Hwords %"with" eq_refl) as (-> & H2 & H3). cbn [mbind option_bind]. by rewrite H2; cbn [mbind option_bind]; rewrite H3.
  - rewrite (with_is_not_without pre ((space :: %"time") ++ (space :: %"zone") ++ rest) eq_refl
               : keyword_at (pre ++ (space :: %"without") ++ (space :: %"time") ++ (space :: %"zone") ++ rest) _ _ = _).
    destruct (Hwords %"without" eq_refl) as (-> & H2 & H3). cbn [mbind option_bind].
    by rewrite H2; cbn [mbind option_bind]; rewrite H3.
Qed.

(** The keywords of the time types and of [interval]. *)
Lemma suffix_eaten b pre rest :
  base_ok b = true -> (forall q, part_ends q rest = true) -> (takes_keyword b = true -> no_phrase rest = true) ->
  time_zone_end (base_key b) (pre ++ suffix_text b ++ rest) (length pre) = Some (length (pre ++ suffix_text b))
  /\ interval_end (base_key b) (pre ++ suffix_text b ++ rest) (length (pre ++ suffix_text b)) = Some (length (pre ++ suffix_text b)).
Proof.
  intros Hok He Hk. destruct (base_is (base_key b) PHRASE_WORDS) eqn:Hp.
  - destruct b as [[w|n]|o p|kind| |kind zone]; cbn [suffix_text base_key part_name takes_keyword base_ok] in *; try done.
    + rewrite app_nil_r. cbn [app]. unfold time_zone_end, interval_end. rewrite !keyword_at_none by auto. cbn [first_keyword INTERVAL_FIELDS].
      rewrite !keyword_at_none by auto. by repeat case_match.
    + rewrite app_nil_r. apply text_in_spec in Hok. cbn in Hok. by destruct Hok as [<-|[<-|[<-|[]]]].
    + by rewrite app_nil_r.
    + apply text_in_spec in Hok. split; [by apply zone_words|]. cbn in Hok. by destruct Hok as [<-|[<-|[]]].
  - assert (suffix_text b = []) as ->.
    { destruct b as [| | | |kind zone]; try done. apply text_in_spec in Hok. cbn in Hok. by destruct Hok as [<-|[<-|[]]]. }
    rewrite app_nil_r. unfold time_zone_end, interval_end. unfold base_is, text_in in *. destruct (base_key b) as [k|]; [|done].
    cbn [PHRASE_WORDS existsb] in *. rewrite !orb_false_iff in Hp. destruct Hp as (H1 & H2 & H3 & H4 & H5 & H6 & H7 & H8 & _).
    by rewrite H6, H7, H8.
Qed.

(** Every type of the grammar is read to its end. *)
Lemma type_eaten t rest :
  type_ok t = true -> type_ends t rest = true -> consume_postgres_cast_type (type_text t ++ rest) = Some (length (type_text t)).
Proof.
  intros Hok Hends. destruct (type_ends_spec _ _ Hends) as (He & Hdot & Hparen & Hbracket & Hkey). unfold type_ok in Hok.
  rewrite !andb_true_iff in Hok. destruct Hok as [[Hb Hm] Hds]. destruct t as [b m ds]. cbn [base_of modifier dimensions] in *.
  unfold type_text. cbn [base_of modifier dimensions]. rewrite <- !app_assoc.
  destruct (base_eaten b (modifier_text m ++ suffix_text b ++ dimensions_text ds ++ rest)) as (n & fn & idx & q & Hw & Hn & Hq & Hu & Hp); [done|..].
  { intros p. rewrite part_ends_modifier, part_ends_suffix, part_ends_dimensions. by repeat case_match. }
  { rewrite next_modifier, next_suffix, next_dimensions. by repeat case_match. }
  { intros Ht. rewrite no_phrase_modifier. destruct m; [done|]. destruct b; try done. cbn [suffix_text app]. rewrite no_phrase_dimensions.
    destruct ds; auto. }
  unfold consume_postgres_cast_type. rewrite Hw, drop_0, Hn. cbn [mbind option_bind]. rewrite Nat.add_0_l, Hq. cbn [mbind option_bind].
  rewrite Hu, Hp, modifier_eaten; [|done|by rewrite next_suffix, next_dimensions; repeat case_match]. cbn [mbind option_bind].
  destruct (suffix_eaten b (base_text b ++ modifier_text m) (dimensions_text ds ++ rest)) as [Hz Hi]; [done|..].
  { intros p. rewrite part_ends_dimensions. by case_match. }
  { intros Ht. rewrite no_phrase_dimensions. case_match; auto. }
  rewrite (app_assoc (base_text b)), Hz. cbn [mbind option_bind]. rewrite Hi. cbn [mbind option_bind].
  rewrite (app_assoc (base_text b ++ _)), arrays_eaten; [|done|done|].
  2:{ rewrite !length_app. enough (length ds <= length (dimensions_text ds)) by lia. by apply dimensions_length. }
  cbn [mbind option_bind]. rewrite app_assoc, drop_app_length, <- !app_assoc. unfold type_ends in Hends. rewrite !andb_true_iff in Hends.
  destruct rest as [|c rest]; [done|]. destruct Hends as [[Hc _] _]. apply negb_true_iff in Hc. by rewrite Hc.
Qed.

End Types.

(** * the casts of a default are removed, and nothing else.

    A default is written from [default_piece]s: code, strings, escape strings, quoted
    names, dollar-quoted strings, and casts to the types of the grammar above. *)

Inductive default_piece : Set :=
| PlainChar (c : char)
| StringPiece (value : text)
| EscapePiece (value : text)
| NamePiece (name : text)
| DollarPiece (tag body : text)
| CastPiece (t : cast_type).

(** A string with backslash escapes. *)
Definition escaped (value : text) : text :=
  value ≫= fun c => if (c =? squote)%N then [bslash; squote] else if (c =? bslash)%N then [bslash; bslash] else [c].

Definition dollar_tag (tag : text) : text := dollar :: tag ++ [dollar].

Definition default_text (p : default_piece) : text :=
  match p with
  | PlainChar c => [c]
  | StringPiece value => delimited squote squote value
  | EscapePiece value => 69%N :: squote :: escaped value ++ [squote]
  | NamePiece name => delimited dquote dquote name
  | DollarPiece tag body => dollar_tag tag ++ body ++ dollar_tag tag
  | CastPiece t => colon :: colon :: type_text t
  end.

Definition kept_text (p : default_piece) : text := match p with CastPiece _ => [] | _ => default_text p end.

Section Strip.

Context `{LetterTable} `{CharTable}.

Definition after_name (b : text) : bool := match b with c :: _ => name_char c | [] => false end.

(** The piece is what the text reads as, after [b] (last character first) and before [rest]. *)
Definition default_stands (b : text) (p : default_piece) (rest : text) : bool :=
  match p with
  | PlainChar c => negb (existsb (N.eqb c) [squote; dquote; dollar]) && negb ((c =? colon)%N && head_is colon rest)
  | StringPiece _ => negb (postgres_escape_string_quote b) && negb (head_is squote rest)
  | EscapePiece _ => negb (after_name b) && negb (head_is squote rest)
  | NamePiece _ => negb (head_is dquote rest)
  | DollarPiece tag body =>
      negb (after_name b) && tag_ok tag && bool_decide (find_at (dollar_tag tag) (body ++ dollar_tag tag) = Some (length body))
  | CastPiece t => type_ok t && type_ends t rest
  end.

Definition defaults_text (ps : list default_piece) : text := ps ≫= default_text.

Fixpoint defaults_stand (b : text) (ps : list default_piece) : bool :=
  match ps with
  | [] => true
  | p :: ps' => default_stands b p (defaults_text ps') && defaults_stand (rev (default_text p) ++ b) ps'
  end.

Abbreviation run := (scan_loop cast_step).

(** Outside quotes, after [b]. *)
Definition at_code (b : text) : cast_state := mk_cast_state (mk_quotes false false false b) false.

Definition with_output (out : text) (r : cast_state * text) : cast_state * text := (r.1, out ++ r.2).

Lemma with_output_app a b r : with_output a (with_output b r) = with_output (a ++ b) r.
Proof. unfold with_output. cbn. by rewrite app_assoc. Qed.

Lemma strip_run_step st c rest st' out n :
  cast_step st c rest = (st', out, n) -> run st 0 (c :: rest) = with_output out (run st' 0 (drop n rest)).
Proof. intros Hs. rewrite scan_loop_cons, Hs. by destruct (run st' 0 (drop n rest)). Qed.

(** A character that [quote_step] takes is copied with the ones it takes along. *)
Lemma run_quoted q q' c rest n m :
  quote_step q c rest = Some (q', n) ->
  run (mk_cast_state q m) 0 (c :: rest)
  = with_output (c :: take n rest) (run (mk_cast_state (push (c :: take n rest) q') m) 0 (drop n rest)).
Proof. intros Hq. apply strip_run_step. unfold cast_step. cbn [quotes_of malformed]. by rewrite Hq. Qed.

(** ** Bodies of quoted texts *)

Lemma string_body value : forall b rest,
  head_is squote rest = false ->
  run (mk_cast_state (mk_quotes true false false b) false) 0 (double_char squote value ++ squote :: rest)
  = with_output (double_char squote value ++ [squote]) (run (at_code (rev (double_char squote value ++ [squote]) ++ b)) 0 rest).
Proof.
  induction value as [|c value IH]; intros b rest Hr.
  - cbn [double_char mbind list_bind app]. erewrite run_quoted by (unfold quote_step; cbn; by rewrite Hr). cbn [take]. by rewrite drop_0.
  - rewrite double_char_cons. destruct (N.eqb_spec c squote) as [->|Hc]; cbn [app].
    + erewrite run_quoted by reflexivity. cbn [take drop]. rewrite drop_0. unfold push. cbn [in_single_quote in_escape_single_quote in_double_quote before].
      rewrite IH, with_output_app by done. cbn [app rev]. by rewrite <- !app_assoc.
    + erewrite run_quoted by (unfold quote_step; cbn; apply N.eqb_neq in Hc; rewrite Hc, andb_false_r; reflexivity).
      cbn [take drop]. rewrite drop_0. unfold push. cbn [in_single_quote in_escape_single_quote in_double_quote before].
      rewrite IH, with_output_app by done. cbn [app rev]. by rewrite <- !app_assoc.
Qed.

Ltac copied := cbn [take drop]; rewrite drop_0; unfold push; cbn [in_single_quote in_escape_single_quote in_double_quote before].

Lemma escape_body value : forall b rest,
  head_is squote rest = false ->
  run (mk_cast_state (mk_quotes true true false b) false) 0 (escaped value ++ squote :: rest)
  = with_output (escaped value ++ [squote]) (run (at_code (rev (escaped value ++ [squote]) ++ b)) 0 rest).
Proof.
  induction value as [|c value IH]; intros b rest Hr.
  - cbn [escaped mbind list_bind app]. erewrite run_quoted by (unfold quote_step; cbn; by rewrite Hr). cbn [take]. by rewrite drop_0.
  - cbn [escaped mbind list_bind]. fold (escaped value). destruct (N.eqb_spec c squote) as [->|Hc]; cbn [app].
    + rewrite (run_quoted _ (mk_quotes true true false b) _ _ 1) by reflexivity. copied. rewrite IH, with_output_app by done. cbn [app rev]. by rewrite <- !app_assoc.
    + destruct (N.eqb_spec c bslash) as [->|Hb]; cbn [app].
      * rewrite (run_quoted _ (mk_quotes true true false b) _ _ 1) by reflexivity. copied. rewrite IH, with_output_app by done. cbn [app rev]. by rewrite <- !app_assoc.
      * apply N.eqb_neq in Hc, Hb. erewrite run_quoted by (unfold quote_step; cbn; rewrite Hb, Hc, andb_false_r; reflexivity).
        copied. rewrite IH, with_output_app by done. cbn [app rev]. by rewrite <- !app_assoc.
Qed.

Lemma name_body value : forall b rest,
  head_is dquote rest = false ->
  run (mk_cast_state (mk_quotes false false true b) false) 0 (double_char dquote value ++ dquote :: rest)
  = with_output (double_char dquote value ++ [dquote]) (run (at_code (rev (double_char dquote value ++ [dquote]) ++ b)) 0 rest).
Proof.
  induction value as [|c value IH]; intros b rest Hr.
  - cbn [double_char mbind list_bind app]. erewrite run_quoted by (unfold quote_step; cbn; by rewrite Hr). cbn [take]. by rewrite drop_0.
  - rewrite double_char_cons. destruct (N.eqb_spec c dquote) as [->|Hc]; cbn [app].
    + erewrite run_quoted by reflexivity. copied. rewrite IH, with_output_app by done. cbn [app rev]. by rewrite <- !app_assoc.
    + apply N.eqb_neq in Hc. erewrite run_quoted by (unfold quote_step; cbn; rewrite andb_false_r, Hc; reflexivity).
      copied. rewrite IH, with_output_app by done. cbn [app rev]. by rewrite <- !app_assoc.
Qed.

(** ** Dollar quotes *)

Lemma tag_no_dollar tag : tag_ok tag = true -> Forall (fun c => (c =? dollar)%N = false) tag.
Proof.
  destruct tag as [|c tag]; [by constructor|]. cbn. intros [Hc Ht]%andb_prop. constructor.
  - by destruct (N.eqb_spec c dollar) as [->|].
  - rewrite forallb_forall in Ht. apply Forall_forall. intros d Hd%list_elem_of_In. apply Ht in Hd.
    by destruct (N.eqb_spec d dollar) as [->|].
Qed.

Lemma find_tag_end tag rest : tag_ok tag = true -> find_at [dollar] (tag ++ dollar :: rest) = Some (length tag).
Proof.
  intros Ht%tag_no_dollar. induction Ht as [|c tag Hc Ht IH]; [done|]. cbn [app find_at starts_with].
  rewrite N.eqb_sym, Hc. cbn [andb]. by rewrite IH.
Qed.

Lemma dollar_delimiter b tag rest :
  after_name b = false -> tag_ok tag = true ->
  postgres_dollar_quote_delimiter b dollar (tag ++ dollar :: rest) = Some (S (length tag)).
Proof.
  intros Hb Ht. unfold postgres_dollar_quote_delimiter. unfold after_name in Hb. rewrite N.eqb_refl, Hb. cbn [andb negb].
  rewrite find_tag_end by done. cbn [mbind option_bind]. by rewrite take_app_length, Ht.
Qed.

Lemma dollar_quoted b tag body rest :
  after_name b = false -> tag_ok tag = true -> find_at (dollar_tag tag) (body ++ dollar_tag tag) = Some (length body) ->
  consume_postgres_dollar_quoted b dollar (tag ++ dollar :: body ++ dollar_tag tag ++ rest)
  = Some (length (tag ++ dollar :: body ++ dollar_tag tag)).
Proof.
  intros Hb Ht Hf. unfold consume_postgres_dollar_quoted. rewrite dollar_delimiter by done. cbn [mbind option_bind].
  change (tag ++ dollar :: body ++ dollar_tag tag ++ rest) with (tag ++ [dollar] ++ body ++ dollar_tag tag ++ rest).
  rewrite (app_assoc tag). replace (S (length tag)) with (length (tag ++ [dollar])) by (rewrite length_app; cbn; lia).
  rewrite take_app_length, drop_app_length. fold (dollar_tag tag). rewrite (app_assoc body), (find_at_more _ _ _ rest Hf).
  cbn [mbind option_bind]. f_equal. unfold dollar_tag. rewrite !length_app. cbn. rewrite !length_app. cbn. rewrite !length_app. cbn. lia.
Qed.

(** ** One piece *)

Lemma run_plain_char b c rest :
  default_stands b (PlainChar c) rest = true ->
  run (at_code b) 0 (c :: rest) = with_output [c] (run (at_code (c :: b)) 0 rest).
Proof.
  cbn [default_stands existsb]. rewrite andb_true_iff, negb_true_iff, !orb_false_iff. intros [(Hs & Hd & Hdl & _) Hcast].
  rewrite (strip_run_step _ _ _ (at_code (c :: b)) [c] 0); [by rewrite drop_0|]. unfold cast_step. cbn [quotes_of at_code malformed].
  rewrite quote_step_code, delimiter_none by done. apply negb_true_iff in Hcast. by rewrite Hcast.
Qed.

Lemma run_dollar b tag body rest :
  after_name b = false -> tag_ok tag = true -> find_at (dollar_tag tag) (body ++ dollar_tag tag) = Some (length body) ->
  run (at_code b) 0 ((dollar_tag tag ++ body ++ dollar_tag tag) ++ rest)
  = with_output (dollar_tag tag ++ body ++ dollar_tag tag) (run (at_code (rev (dollar_tag tag ++ body ++ dollar_tag tag) ++ b)) 0 rest).
Proof.
  intros Hn Ht Hf.
  assert (dollar_tag tag ++ body ++ dollar_tag tag = dollar :: tag ++ dollar :: body ++ dollar_tag tag) as ->
    by (unfold dollar_tag at 1; cbn; by rewrite <- app_assoc).
  pose proof (dollar_quoted b tag body rest Hn Ht Hf) as Hq.
  pose proof (dollar_delimiter b tag (body ++ dollar_tag tag ++ rest) Hn Ht) as Hdel.
  assert (tag ++ dollar :: body ++ dollar_tag tag ++ rest = (tag ++ dollar :: body ++ dollar_tag tag) ++ rest) as Heq
    by (by rewrite <- (app_assoc tag), <- app_comm_cons, <- (app_assoc body)).
  rewrite Heq in Hq, Hdel. set (quoted := tag ++ dollar :: body ++ dollar_tag tag) in *. cbn [app].
  rewrite (strip_run_step _ _ _ (at_code (rev (dollar :: quoted) ++ b)) (dollar :: quoted) (length quoted)); [by rewrite drop_app_length|].
  unfold cast_step. cbn [quotes_of at_code malformed before]. rewrite quote_step_code, Hdel, Hq by done.
  change (default (length (quoted ++ rest)) (Some (length quoted))) with (length quoted). by rewrite take_app_length.
Qed.

Lemma strip_piece b p rest :
  default_stands b p rest = true ->
  run (at_code b) 0 (default_text p ++ rest) = with_output (kept_text p) (run (at_code (rev (default_text p) ++ b)) 0 rest).
Proof.
  destruct p as [c|value|value|name|tag body|t]; cbn [default_text kept_text]; intros Hok.
  - by apply run_plain_char.
  - apply andb_prop in Hok as [He Hr]. apply negb_true_iff in He, Hr. unfold delimited. cbn [app]. rewrite <- app_assoc. cbn [app].
    unfold at_code at 1. erewrite run_quoted by (unfold quote_step; cbn; rewrite He; reflexivity). copied.
    rewrite string_body, with_output_app by done. cbn [app rev]. by rewrite <- !app_assoc.
  - apply andb_prop in Hok as [Hn Hr]. apply negb_true_iff in Hn, Hr. cbn [app]. rewrite run_plain_char by done. rewrite <- app_assoc. cbn [app].
    unfold at_code at 1. erewrite run_quoted by reflexivity. copied. cbn [andb negb postgres_escape_string_quote].
    replace (match b with [] => true | c :: _ => negb (name_char c) end) with true by (unfold after_name in Hn; destruct b; [done|by rewrite Hn]).
    change ((69 =? 101)%N || (69 =? 69)%N) with true. cbn [andb]. rewrite escape_body, !with_output_app by done.
    cbn [app rev]. by rewrite <- !app_assoc.
  - apply negb_true_iff in Hok. unfold delimited. cbn [app]. rewrite <- app_assoc. cbn [app]. unfold at_code at 1. erewrite run_quoted by reflexivity. copied.
    rewrite name_body, with_output_app by done. cbn [app rev]. by rewrite <- !app_assoc.
  - cbn [default_stands] in Hok. rewrite !andb_true_iff, bool_decide_eq_true, negb_true_iff in Hok. destruct Hok as [[Hn Ht] Hf].
    by apply run_dollar.
  - apply andb_prop in Hok as [Ht He]. cbn [app].
    rewrite (strip_run_step _ _ _ (at_code (rev (colon :: colon :: type_text t) ++ b)) [] (S (length (type_text t)))); [by cbn [drop]; rewrite drop_app_length|].
    unfold cast_step. cbn [quotes_of at_code malformed before]. rewrite quote_step_code, delimiter_none by done. cbn [head_is].
    change (colon =? colon)%N with true. cbn [andb]. cbn iota. change (drop 1 (colon :: type_text t ++ rest)) with (drop 0 (type_text t ++ rest)).
    rewrite drop_0, type_eaten by done. cbn [take Nat.add]. by rewrite take_app_length.
Qed.

Lemma run_pieces ps : forall b,
  defaults_stand b ps = true -> run (at_code b) 0 (defaults_text ps) = (at_code (rev (defaults_text ps) ++ b), ps ≫= kept_text).
Proof.
  induction ps as [|p ps IH]; intros b Hok; [done|]. apply andb_prop in Hok as [Hp Hps].
  cbn [defaults_text mbind list_bind]. fold (defaults_text ps). rewrite strip_piece, IH by done. unfold with_output. cbn [fst snd].
  by rewrite rev_app_distr, app_assoc.
Qed.

(** C32: The casts of a PostgreSQL default are removed and nothing else.  In a default
    written from code, strings, escape strings, quoted names, dollar-quoted strings and
    casts to any type of the grammar (words, quoted and qualified names, the phrases of
    PostgreSQL's own types, modifiers, array suffixes), [strip_postgres_default_casts]
    drops every cast and keeps every other character, a [::] inside quotes included. *)
Theorem casts_are_stripped ps :
  defaults_stand [] ps = true -> strip_postgres_default_casts (defaults_text ps) = ps ≫= kept_text.
Proof. intros Hok. unfold strip_postgres_default_casts. change (mk_cast_state no_quotes false) with (at_code []). by rewrite run_pieces. Qed.

End Strip.

Definition ascii_letters : LetterTable := {| nonascii_alphabetic := fun _ => false |}.

(** [coalesce('a::b'::character varying(20)[], E'c\'::int'::public."T" AND $q$x::y$q$::timestamp(3) without time zone)]. *)
Definition sample_default : list default_piece :=
  map PlainChar %"coalesce(" ++ [StringPiece %"a::b"; CastPiece (mk_cast_type (TVarying %"character") (Some %"20") [[]])]
  ++ map PlainChar %", " ++ [EscapePiece %"c'::int"; CastPiece (mk_cast_type (TQualified (WordPart %"public") (QuotedPart %"T")) None [])]
  ++ map PlainChar %" AND "
  ++ [DollarPiece %"q" %"x::y"; CastPiece (mk_cast_type (TTimeZone %"timestamp" false) (Some %"3") []); PlainChar rparen].

Lemma casts_are_stripped_witness :
  @strip_postgres_default_casts ascii_letters latin1_table
    (dq_text %"coalesce('a::b'::character varying(20)[], E'c\'::int'::public.^T^ AND $q$x::y$q$::timestamp(3) without time zone)")
  = %"coalesce('a::b', E'c\'::int' AND $q$x::y$q$)".
Proof.
  exact (@casts_are_stripped ascii_letters latin1_table sample_default ltac:(vm_compute; reflexivity)).
Defined.
