(* ===== verification/DefaultLiteral.v ===== *)
(** * DefaultLiteral: column defaults as SQL literals ([schema_diff.rs],
      [default_literal] and the SQL Server translation; [table_structure_sql/util.rs]).

    MySQL reports a string default without its quotes, every other server reports
    SQL; for SQL Server the expressions of the other servers are translated. *)

From stdpp Require Import list.
From S2P Require Import Prelude DbTypes WriteClass SqlStrip SchemaTypes ViewDdl ColumnCompare SchemaCompare DdlProfile Identifiers DdlNames PgCasts.

(** [format!("'{}'", value.replace('\'', "''"))]. *)
Definition quote_string_literal (value : text) : text := delimited squote squote value.

Definition TEMPORAL_DEFAULT_KEYWORDS : list text :=
  [%"current_timestamp"; %"current_date"; %"current_time"; %"now"; %"localtime"; %"localtimestamp"; %"getdate"; %"sysdate"].

Definition QUOTED_LITERAL_PREFIXES : list text := [%"n'"; %"b'"; %"x'"; %"e'"].

Definition is_temporal_keyword_default (value : text) : bool :=
  let up := upper value in
  existsb (fun keyword =>
    let keyword := upper keyword in
    text_eqb up keyword || (starts_with keyword up && head_is lparen (drop (length keyword) up))) TEMPORAL_DEFAULT_KEYWORDS.

Definition is_hex_literal (value : text) : bool :=
  (starts_with %"0x" value || starts_with %"0X" value)
  && negb (is_empty (drop 2 value)) && forallb is_ascii_hexdigit (drop 2 value).

(** [data_type.split('(').next().unwrap_or(data_type).trim().to_ascii_lowercase()]. *)
Definition lower_base_type (data_type : text) : text := lower (trim (take_while (fun c => negb (c =? lparen)%N) data_type)).

Definition default_literal (default : text) (data_type : text) (source : DialectKind) (extra : option text) : text :=
  let normalized := trim default in
  if negb (bool_decide (source = DMysql)) then normalized
  else if match extra with Some value => contains %"DEFAULT_GENERATED" (upper value) | None => false end then normalized
  else if starts_with [lparen] normalized && ends_with [rparen] normalized then normalized
  else
    let lowered := lower normalized in
    if starts_with [squote] normalized || existsb (fun prefix => starts_with prefix lowered) QUOTED_LITERAL_PREFIXES then normalized
    else
      let base_type := lower_base_type data_type in
      let takes_text_literal :=
        existsb (fun kind => contains kind base_type) [%"char"; %"text"; %"string"; %"clob"; %"enum"; %"set"] in
      let takes_binary_literal := existsb (fun kind => contains kind base_type) [%"binary"; %"blob"; %"bytea"] in
      let takes_temporal_literal := contains %"date" base_type || contains %"time" base_type in
      if takes_temporal_literal && is_temporal_keyword_default normalized then normalized
      else if takes_binary_literal && is_hex_literal normalized then normalized
      else if takes_text_literal || takes_binary_literal || takes_temporal_literal then quote_string_literal default
      else normalized.

(** ** SQL Server *)

(** [value.find('\'')? + 1] and the text up to the next quote. *)
Definition sqlserver_sequence_default (value : text) (target_schema : option text) : option text :=
  if negb (starts_with %"nextval(" (lower (trim value))) then None
  else
    start ← find_at [squote] value;
    let inner := drop (start + 1) value in
    end_ ← find_at [squote] inner;
    let last_part := List.last (split_at (N.eqb 46%N) (take end_ inner)) [] in
    let sequence := rev (drop_while (N.eqb dquote) (rev (drop_while (N.eqb dquote) last_part))) in
    if is_empty sequence then None else Some (%"NEXT VALUE FOR " ++ qualified_name sequence SqlServer target_schema).

(** Whether the parenthesis that opens the text closes at its end. *)
Fixpoint closes_at_end (depth : nat) (in_single_quote closed : bool) (skip : bool) (l : text) : bool :=
  match l with
  | [] => closed
  | ch :: rest =>
      if skip then closes_at_end depth in_single_quote closed false rest
      else if (ch =? squote)%N then
        if in_single_quote && head_is squote rest then closes_at_end depth in_single_quote closed true rest
        else closes_at_end depth (negb in_single_quote) closed false rest
      else if in_single_quote then closes_at_end depth in_single_quote closed false rest
      else if (ch =? lparen)%N then closes_at_end (S depth) in_single_quote closed false rest
      else if (ch =? rparen)%N then
        if Nat.eqb (depth - 1) 0 then
          if is_empty rest then closes_at_end (depth - 1) in_single_quote true false rest else false
        else closes_at_end (depth - 1) in_single_quote closed false rest
      else closes_at_end depth in_single_quote closed false rest
  end.

(** Every round takes two characters. *)
Fixpoint trim_outer_from (fuel : nat) (value : text) : text :=
  let trimmed := trim value in
  match fuel with
  | O => trimmed
  | S fuel' =>
      if negb (starts_with [lparen] trimmed) || negb (ends_with [rparen] trimmed) then trimmed
      else if negb (closes_at_end 0 false false false trimmed) then trimmed
      else trim_outer_from fuel' (take (length trimmed - 2) (drop 1 trimmed))
  end.

Definition trim_outer_parentheses_for_match (value : text) : text := trim_outer_from (length value) value.

(** The text without its first [n] characters and its last one. *)
Definition inner_text (n : nat) (l : text) : text := take (length l - n - 1) (drop n l).

Definition sqlserver_hex_default (value : text) : option text :=
  let trimmed := trim value in
  digits ← (if (3 <=? byte_len trimmed)%N && (starts_with %"x'" trimmed || starts_with %"X'" trimmed) && ends_with [squote] trimmed
            then Some (inner_text 2 trimmed)
            else if starts_with %"'\x" trimmed && ends_with [squote] trimmed then Some (inner_text 3 trimmed)
            else None);
  if negb (is_empty digits) && forallb is_ascii_hexdigit digits then Some (%"0x" ++ digits) else None.

(** [u64::from_str_radix(bits, 2)] of at most 64 bits. *)
Definition bits_value (bits : text) : N := fold_left (fun n c => (2 * n + (if (c =? 49)%N then 1 else 0))%N) bits 0%N.

Definition sqlserver_bit_string_default (value : text) : option text :=
  let trimmed := trim value in
  if (byte_len trimmed <? 4)%N || negb (starts_with %"b'" trimmed || starts_with %"B'" trimmed) || negb (ends_with [squote] trimmed)
  then None
  else
    let bits := inner_text 2 trimmed in
    if negb (is_empty bits) && (byte_len bits <=? 64)%N && forallb (fun c => (c =? 48)%N || (c =? 49)%N) bits
    then Some (show_N (bits_value bits)) else None.

(** After the opening quote: quotes come in pairs. *)
Fixpoint quotes_doubled (l : text) : bool :=
  match l with
  | [] => true
  | c :: l' =>
      if (c =? squote)%N then match l' with d :: l'' => (d =? squote)%N && quotes_doubled l'' | [] => false end
      else quotes_doubled l'
  end.

Definition is_sql_string_literal (value : text) : bool :=
  let trimmed := trim value in
  starts_with [squote] trimmed && ends_with [squote] (drop 1 trimmed) && quotes_doubled (inner_text 1 trimmed).

Definition parenthesized (depth : nat) (value : text) : text := repeat lparen depth ++ value ++ repeat rparen depth.

Fixpoint unicode_literal_from (fuel depth : nat) (candidate : text) : option text :=
  let literal := drop 1 candidate in
  if (starts_with [78%N] candidate || starts_with [110%N] candidate) && is_sql_string_literal literal
  then Some (parenthesized depth (78%N :: literal))
  else if is_sql_string_literal candidate then Some (parenthesized depth (78%N :: candidate))
  else
    match fuel with
    | O => None
    | S fuel' =>
        if starts_with [lparen] candidate && ends_with [rparen] (drop 1 candidate)
        then unicode_literal_from fuel' (S depth) (trim (inner_text 1 candidate))
        else None
    end.

Definition sqlserver_unicode_string_literal (value : text) : option text :=
  unicode_literal_from (length value) 0 (trim value).

Section Dialects.

Context `{ManifestDialects} `{LetterTable} `{CharTable}.

Definition effective_source_dialect (source_dialect : option DialectKind) (db_type : DatabaseType) : DialectKind :=
  default (dialect_from_database_type db_type) source_dialect.

(** The current time, in the precision of the target's type. *)
Definition sqlserver_now (target_upper : text) : text :=
  if starts_with %"DATETIMEOFFSET" target_upper then %"SYSDATETIMEOFFSET()"
  else if starts_with %"DATETIME2" target_upper then %"SYSDATETIME()"
  else %"CURRENT_TIMESTAMP".

Definition is_now_default (source : DialectKind) (lowered : text) : bool :=
  text_in lowered [%"now()"; %"transaction_timestamp()"; %"statement_timestamp()"; %"sysdate()"; %"localtimestamp"; %"current_timestamp"]
  || starts_with %"now(" lowered || starts_with %"localtimestamp(" lowered || starts_with %"current_timestamp(" lowered
  || (bool_decide (source = DMysql) && (text_eqb lowered %"localtime" || starts_with %"localtime(" lowered)).

Definition sqlserver_default_literal_for_schema (default : text) (mapped_type : text) (source_dialect : option DialectKind)
    (extra target_schema : option text) : text :=
  let source := effective_source_dialect source_dialect SqlServer in
  let value := default_literal default mapped_type source extra in
  if bool_decide (source = DSqlServer) then value
  else
    let value := if bool_decide (source = DPostgres) then strip_postgres_default_casts value else value in
    let normalized := trim value in
    let match_value := trim_outer_parentheses_for_match normalized in
    let lowered := lower match_value in
    let target_upper := upper (trim mapped_type) in
    let target_is_binary := starts_with %"BINARY" target_upper || starts_with %"VARBINARY" target_upper in
    let target_is_bit := text_eqb target_upper %"BIT" in
    let rewritten :=
      match (if target_is_binary then sqlserver_hex_default match_value else None) with
      | Some hex => hex
      | None =>
          if target_is_bit && text_in lowered [%"true"; %"'true'"; %"'t'"; %"b'1'"] then %"1"
          else if target_is_bit && text_in lowered [%"false"; %"'false'"; %"'f'"; %"b'0'"] then %"0"
          else
            match sqlserver_bit_string_default match_value with
            | Some bits => bits
            | None =>
                if is_now_default source lowered then sqlserver_now target_upper
                else if text_in lowered [%"uuid()"; %"uuid_generate_v4()"; %"gen_random_uuid()"] then %"NEWID()"
                else if text_in lowered [%"curdate()"; %"current_date"; %"current_date()"] then %"CONVERT(date, GETDATE())"
                else if text_in lowered [%"curtime()"; %"current_time"; %"current_time()"; %"localtime"]
                        || starts_with %"current_time(" lowered || starts_with %"localtime(" lowered
                then %"CONVERT(time, GETDATE())"
                else
                  match sqlserver_sequence_default match_value target_schema with
                  | Some sequence => sequence
                  | None => if starts_with %"e'" lowered then 78%N :: drop 1 normalized else normalized
                  end
            end
      end in
    if starts_with %"NVARCHAR" target_upper || starts_with %"NCHAR" target_upper || starts_with %"NTEXT" target_upper
    then match sqlserver_unicode_string_literal rewritten with Some literal => literal | None => rewritten end
    else rewritten.

End Dialects.
