(* ===== verification/SyncStatements.v ===== *)
(** * SyncStatements: the statements of a synchronisation script that concern
      objects of a table ([schema_diff.rs], [drop_index_sql] to [drop_object_sql];
      [postgres_index_key.rs]).

    Texts are built as the sources' [format!] calls build them. *)

From stdpp Require Import list.
From S2P Require Import Prelude DbTypes WriteClass SqlStrip SchemaTypes ViewDdl DdlProfile Identifiers DdlNames DefaultLiteral.

Definition profile (db_type : DatabaseType) : DdlDialectProfile.t := profile_for db_type.

(** [value.replace('\'', "''")]. *)
Definition double_squotes (value : text) : text := double_char squote value.

(** [words.join(", ")]. *)
Definition comma_list (items : list text) : text := join %", " items.

Definition quote_ids (names : list text) (db_type : DatabaseType) : text := comma_list (map (fun n => quote_id n db_type) names).

(** Keeps a batch together where the script is split at semicolons. *)
Definition sqlserver_single_statement_batch (batch : text) : text :=
  %"EXEC sys.sp_executesql N'" ++ double_squotes (trim_end_matches semi (trim batch)) ++ %"';".

(** ** Indexes *)

Definition drop_index_batch (table index_name : text) : text :=
  let table_literal := double_squotes table in
  let index_literal := double_squotes index_name in
  %"DECLARE @dbx_constraint_name sysname, @dbx_drop_sql NVARCHAR(MAX); SELECT @dbx_constraint_name = kc.name FROM sys.key_constraints AS kc JOIN sys.indexes AS i ON i.object_id = kc.parent_object_id AND i.index_id = kc.unique_index_id WHERE kc.parent_object_id = OBJECT_ID(N'"
  ++ table_literal ++ %"') AND i.name = N'" ++ index_literal
  ++ %"'; IF @dbx_constraint_name IS NOT NULL BEGIN SET @dbx_drop_sql = N'ALTER TABLE " ++ table_literal
  ++ %" DROP CONSTRAINT ' + QUOTENAME(@dbx_constraint_name); EXEC sys.sp_executesql @dbx_drop_sql; END ELSE IF EXISTS (SELECT 1 FROM sys.indexes WHERE object_id = OBJECT_ID(N'"
  ++ table_literal ++ %"') AND name = N'" ++ index_literal ++ %"') BEGIN DROP INDEX " ++ quote_id index_name SqlServer
  ++ %" ON " ++ table ++ %"; END;".

Definition drop_index_sql (table_name index_name : text) (db_type : DatabaseType) (schema : option text) : text :=
  let table := qualified_name table_name db_type schema in
  if bool_decide (db_type = SqlServer) then sqlserver_single_statement_batch (drop_index_batch table index_name)
  else
    let index := qualified_name index_name db_type schema in
    if db_in db_type [Oracle; OceanbaseOracle] then %"DROP INDEX " ++ index ++ %";"
    else if DdlDialectProfile.drop_index_uses_on_table (profile db_type)
    then %"DROP INDEX " ++ quote_id index_name db_type ++ %" ON " ++ table ++ %";"
    else %"DROP INDEX IF EXISTS " ++ index ++ %";".

Definition mysql_index_column_sql (column : text) : text :=
  let trimmed := trim column in
  if starts_with %"((" trimmed && ends_with %"))" trimmed then trimmed else quote_id column Mysql.

Definition is_postgres_family_ddl (db_type : DatabaseType) : bool :=
  db_in db_type [Postgres; Redshift; Gaussdb; Kingbase; Highgo; Vastbase; OpenGauss; Kwdb; Firebird; Vertica; Exasol; Uxdb; Gbase8c].

(** The bits of [pg_index.indoption]: 0 for [DESC], 1 for [NULLS FIRST]. *)
Definition decorate_postgres_index_key (rendered_key : text) (opclass : option text) (key_options : option Z) : text :=
  let with_opclass :=
    match opclass with Some o => if is_empty o then rendered_key else rendered_key ++ %" " ++ o | None => rendered_key end in
  match key_options with
  | Some options =>
      with_opclass ++ %" " ++ (if Z.testbit options 0 then %"DESC" else %"ASC")
      ++ %" NULLS " ++ (if Z.testbit options 1 then %"FIRST" else %"LAST")
  | None => with_opclass
  end.

Definition postgres_index_column_sql (column : text) (is_expression : option bool) (opclass : option text) (key_options : option Z)
    (db_type : DatabaseType) : text :=
  let base := if default false is_expression then trim column else quote_id column db_type in
  decorate_postgres_index_key base opclass key_options.

Definition index_column_sql (index : IndexInfo.t) (db_type : DatabaseType) (i : nat) (column : text) : text :=
  if bool_decide (db_type = Mysql) then mysql_index_column_sql column
  else if is_postgres_family_ddl db_type then
    let opclass := mjoin (IndexInfo.column_opclasses index !! i) in
    let key_options :=
      index_type ← IndexInfo.index_type index;
      if eq_ignore_ascii_case (trim index_type) %"btree" then IndexInfo.key_options index !! i else None in
    postgres_index_column_sql column (IndexInfo.key_is_expression index !! i) opclass key_options db_type
  else quote_id column db_type.

(** The index types SQL Server can create; [None] for another one. *)
Definition sqlserver_index_type (source_index_type : text) : option text :=
  let up := upper source_index_type in
  if text_in up [%"CLUSTERED"; %"NONCLUSTERED"; %"CLUSTERED COLUMNSTORE"] then Some up
  else if text_in up [%"NONCLUSTERED COLUMNSTORE"; %"COLUMNSTORE"] then Some %"NONCLUSTERED COLUMNSTORE"
  else if text_in up [[]; %"BTREE"] then Some []
  else None.

Definition skip_index (index : IndexInfo.t) (table reason : text) : text :=
  %"-- Skip index " ++ IndexInfo.name index ++ %" on " ++ table ++ %": " ++ reason.

Definition has_expression_key (index : IndexInfo.t) : bool :=
  existsb id (imap (fun i column => default false (IndexInfo.key_is_expression index !! i) || head_is lparen (trim_start column))
                (IndexInfo.columns index)).

(** The statement once the type is known. *)
Definition create_index_statement (index : IndexInfo.t) (table index_type : text) (db_type : DatabaseType) : text :=
  let p := profile db_type in
  let sqlserver := bool_decide (db_type = SqlServer) in
  let columnstore := contains %"COLUMNSTORE" index_type in
  let columns := comma_list (imap (index_column_sql index db_type) (IndexInfo.columns index)) in
  let unique := if IndexInfo.is_unique index && negb columnstore then %"UNIQUE " else [] in
  let type_prefix :=
    match DdlDialectProfile.index_type_placement p with TypePrefix => if is_empty index_type then [] else index_type ++ %" " | _ => [] end in
  let using_before_on :=
    match DdlDialectProfile.index_type_placement p with UsingBeforeOn => if is_empty index_type then [] else %" USING " ++ index_type | _ => [] end in
  let using_suffix :=
    match DdlDialectProfile.index_type_placement p with UsingSuffix => if is_empty index_type then [] else %" USING " ++ index_type | _ => [] end in
  let included_columns := default [] (IndexInfo.included_columns index) in
  let include_clause :=
    if negb (is_empty included_columns) && DdlDialectProfile.index_supports_include p && negb (sqlserver && columnstore)
    then %" INCLUDE (" ++ quote_ids included_columns db_type ++ %")" else [] in
  let columns :=
    if sqlserver && text_eqb index_type %"NONCLUSTERED COLUMNSTORE" && is_empty columns && negb (is_empty included_columns)
    then quote_ids included_columns db_type else columns in
  let filter := if DdlDialectProfile.index_supports_filter p then or_default (IndexInfo.filter index) else [] in
  let filter_clause := if is_empty filter then [] else %" WHERE " ++ filter in
  let comment := or_default (IndexInfo.comment index) in
  let comment_clause :=
    if negb (is_empty (trim comment)) && DdlDialectProfile.index_supports_comment p
    then %" COMMENT " ++ quote_string_literal comment else [] in
  let name := quote_id (IndexInfo.name index) db_type in
  if sqlserver && text_eqb index_type %"CLUSTERED COLUMNSTORE" then %"CREATE " ++ type_prefix ++ %"INDEX " ++ name ++ %" ON " ++ table ++ %";"
  else if is_empty columns then skip_index index table %"no index columns were available."
  else if DdlDialectProfile.drop_index_uses_on_table p then
    %"CREATE " ++ unique ++ type_prefix ++ %"INDEX " ++ name ++ using_before_on ++ %" ON " ++ table ++ %" (" ++ columns ++ %")"
    ++ comment_clause ++ %";"
  else
    %"CREATE " ++ unique ++ type_prefix ++ %"INDEX " ++ name ++ %" ON " ++ table ++ using_suffix ++ %" (" ++ columns ++ %")"
    ++ include_clause ++ filter_clause ++ %";".

Definition create_index_sql (table_name : text) (index : IndexInfo.t) (db_type : DatabaseType) (schema : option text) : text :=
  let table := qualified_name table_name db_type schema in
  let sqlserver := bool_decide (db_type = SqlServer) in
  if sqlserver && has_expression_key index then
    skip_index index table %"SQL Server indexes require columns or pre-existing computed columns, not source-dialect expressions."
  else
    let source_index_type := trim (or_default (IndexInfo.index_type index)) in
    match (if sqlserver then sqlserver_index_type source_index_type else Some source_index_type) with
    | None =>
        skip_index index table (%"index type '" ++ source_index_type ++ %"' has no direct SQL Server CREATE INDEX form.")
    | Some index_type =>
        if sqlserver && IndexInfo.is_unique index && contains %"COLUMNSTORE" index_type
        then skip_index index table %"SQL Server columnstore indexes cannot be UNIQUE."
        else create_index_statement index table index_type db_type
    end.

(** ** Foreign keys *)

Definition drop_foreign_key_sql (table_name fk_name : text) (db_type : DatabaseType) (schema : option text) : text :=
  %"ALTER TABLE " ++ qualified_name table_name db_type schema
  ++ (if DdlDialectProfile.drop_fk_as_foreign_key (profile db_type) then %" DROP FOREIGN KEY " else %" DROP CONSTRAINT ")
  ++ quote_id fk_name db_type ++ %";".

Definition foreign_key_action (db_type : DatabaseType) (kind : text) (value : option text) : text :=
  match value with
  | None => []
  | Some value =>
      if negb (bool_decide (db_type = SqlServer)) then %" ON " ++ kind ++ %" " ++ value
      else
        let normalized := upper (trim value) in
        if text_in normalized [%"RESTRICT"; %"NO ACTION"] then %" ON " ++ kind ++ %" NO ACTION"
        else if text_in normalized [%"CASCADE"; %"SET NULL"; %"SET DEFAULT"] then %" ON " ++ kind ++ %" " ++ normalized
        else []
  end.

Definition add_foreign_key_sql_with_reference_separator (table_name : text) (fk : SchemaForeignKeyInfo.t) (db_type : DatabaseType)
    (schema : option text) (reference_separator : text) : text :=
  let info := SchemaForeignKeyInfo.info fk in
  let ref_schema := match ForeignKeyInfo.ref_schema info with Some s => Some s | None => schema end in
  %"ALTER TABLE " ++ qualified_name table_name db_type schema ++ %" ADD CONSTRAINT " ++ quote_id (ForeignKeyInfo.name info) db_type
  ++ %" FOREIGN KEY (" ++ quote_ids (SchemaForeignKeyInfo.columns fk) db_type ++ %") REFERENCES "
  ++ qualified_name (ForeignKeyInfo.ref_table info) db_type ref_schema ++ reference_separator
  ++ %"(" ++ quote_ids (SchemaForeignKeyInfo.ref_columns fk) db_type ++ %")"
  ++ foreign_key_action db_type %"DELETE" (ForeignKeyInfo.on_delete info)
  ++ foreign_key_action db_type %"UPDATE" (ForeignKeyInfo.on_update info) ++ %";".

Definition add_foreign_key_sql (table_name : text) (fk : SchemaForeignKeyInfo.t) (db_type : DatabaseType) (schema : option text) : text :=
  add_foreign_key_sql_with_reference_separator table_name fk db_type schema %" ".

(** ** Objects *)

Definition target_table_name (diff : TableDiff.t) : text := default (TableDiff.name diff) (TableDiff.target_name diff).

Definition ddl_column_name (column : ColumnDiff.t) : text :=
  match ColumnDiff.source column, ColumnDiff.target column with
  | Some source, Some target =>
      if eq_ignore_ascii_case (ColumnInfo.name source) (ColumnInfo.name target) then ColumnInfo.name target else ColumnDiff.name column
  | _, _ => ColumnDiff.name column
  end.

Definition drop_object_sql (diff : TableDiff.t) (db_type : DatabaseType) (schema : option text) (cascade : text) : text :=
  let is_view := bool_decide (TableDiff.object_type diff = Some %"view") in
  let object_type := if is_view then %"VIEW" else %"TABLE" in
  let name := qualified_name (target_table_name diff) db_type schema in
  if bool_decide (db_type = SqlServer) then
    %"IF OBJECT_ID(N'" ++ double_squotes name ++ %"', N'" ++ (if is_view then %"V" else %"U") ++ %"') IS NOT NULL DROP "
    ++ object_type ++ %" " ++ name ++ %";"
  else if negb (DdlDialectProfile.drop_table_supports_if_exists (profile db_type)) then %"DROP " ++ object_type ++ %" " ++ name ++ cascade ++ %";"
  else %"DROP " ++ object_type ++ %" IF EXISTS " ++ name ++ cascade ++ %";".

(** ** The script's frame *)

Definition MYSQL_DISABLE_FOREIGN_KEY_CHECKS : text := %"SET FOREIGN_KEY_CHECKS = 0;".
Definition MYSQL_ENABLE_FOREIGN_KEY_CHECKS : text := %"SET FOREIGN_KEY_CHECKS = 1;".

Definition wrap_script_with_foreign_key_checks (sql : text) (db_type : DatabaseType) : text :=
  if negb (bool_decide (db_type = Mysql)) || is_empty (trim sql) then sql
  else MYSQL_DISABLE_FOREIGN_KEY_CHECKS ++ [nl] ++ sql ++ [nl] ++ MYSQL_ENABLE_FOREIGN_KEY_CHECKS.

Definition create_trigger_sql (p : DdlDialectProfile.t) (name timing event table body : text) : text :=
  let qname := quote_ident p name in
  match DdlDialectProfile.trigger_template p with
  | MysqlStyle => %"CREATE TRIGGER " ++ qname ++ %" " ++ timing ++ %" " ++ event ++ %" ON " ++ table ++ %" FOR EACH ROW BEGIN" ++ [nl] ++ body ++ %" END;"
  | PostgresStyle =>
      %"CREATE TRIGGER " ++ qname ++ %" " ++ timing ++ %" " ++ event ++ %" ON " ++ table ++ %" FOR EACH ROW EXECUTE FUNCTION "
      ++ trim_end_matches semi body ++ %";"
  | SqlServerStyle => %"CREATE TRIGGER " ++ qname ++ %" ON " ++ table ++ %" " ++ timing ++ %" " ++ event ++ %" AS BEGIN " ++ body ++ %" END;"
  | GenericRowBody => %"CREATE TRIGGER " ++ qname ++ %" " ++ timing ++ %" " ++ event ++ %" ON " ++ table ++ %" FOR EACH ROW BEGIN " ++ body ++ %" END;"
  end.
