(* ===== verification/SyncStatementsFacts.v ===== *)
(** * SyncStatementsFacts: no name can end the statement that mentions it.

    First, quoted names are opaque to the splitter: a statement written from code
    without quotes and comments and from quoted names is one statement, whatever the
    names contain, and [lines_split] lifts this to a script with one such statement per
    line.  Then the synchronisation statements are of this form. *)

From stdpp Require Import list.
From S2P Require Import Prelude DbTypes Dialect Lexis MysqlRoutine TSqlFlow PlSql Splitter SplitterLoops SchemaTypes DdlProfile Identifiers DdlNames DdlNamesFacts DefaultLiteral SyncStatements.

Import SqlDialectProfile SqlStatementSplitter.

(** Code characters that open nothing. *)
Definition code_char (c : char) : bool :=
  negb (existsb (N.eqb c) [squote; dquote; backtick; semi; dash; star; hash; slash; dollar; bslash; nl; amp]).

Lemma code_char_spec c :
  code_char c = true ->
  (c =? squote)%N = false /\ (c =? dquote)%N = false /\ (c =? backtick)%N = false /\ (c =? semi)%N = false /\ (c =? dash)%N = false
  /\ (c =? star)%N = false /\ (c =? hash)%N = false /\ (c =? slash)%N = false /\ (c =? dollar)%N = false /\ (c =? bslash)%N = false
  /\ (c =? nl)%N = false /\ (c =? amp)%N = false.
Proof. unfold code_char. cbn [existsb]. rewrite negb_true_iff, !orb_false_iff. tauto. Qed.

Section Names.

Context `{CharTable} `{OracleTokenizer}.
Variable inner : t -> text -> t * list SqlStatementWithControl.
Variable s0 : t.
Hypothesis Hat : AtSql s0.

Abbreviation loop := (scan_loop (step inner)).

(** The splitter at statement level, with [b] read. *)
Definition at_text (b : text) (prev : option char) : t := set_previous prev (set_buffer b s0).

(** The same inside a quoted name. *)
Definition in_name (q : char) (b : text) (prev : option char) : t :=
  if (q =? backtick)%N then set_previous prev (set_in_backtick true (set_buffer b s0))
  else set_previous prev (set_in_double_quote true (set_buffer b s0)).

(** The quote [q] delimits names in the profile. *)
Definition delimits (q : char) : Prop :=
  (q = backtick /\ supports_backtick_identifiers (prof s0) = true)
  \/ (q = dquote /\ supports_backslash_escaped_quotes (prof s0) = false).

Lemma outside_at_text b prev : outside_quotes (at_text b prev) = true.
Proof. unfold outside_quotes. cbn. by rewrite (at_single _ Hat), (at_double _ Hat), (at_backtick _ Hat). Qed.

(** A character that opens no construct goes to the [match] of the loop. *)
Lemma step_plain b prev c rest :
  (c =? squote)%N = false -> (c =? dash)%N = false -> (c =? star)%N = false -> (c =? hash)%N = false -> (c =? slash)%N = false ->
  (c =? dollar)%N = false -> (c =? bslash)%N = false ->
  step inner (at_text b prev) c rest = plain_char c (at_text b prev).
Proof.
  intros H1 H2 H3 H4 H5 H6 H7. unfold step, sql_step. cbn [at_text pending_psql_command set_previous set_buffer].
  rewrite (at_psql _ Hat), H7, andb_false_r. cbn. rewrite (at_tag _ Hat), (at_line _ Hat), (at_block _ Hat), (at_q _ Hat).
  fold (at_text b prev). rewrite outside_at_text. unfold open_construct. rewrite H1, H2, H3, H4, H5, !andb_false_r. cbn [andb].
  unfold dollar_quote_tag_at. rewrite H6. cbn. by destruct (supports_dollar_quoted_strings _).
Qed.

Lemma after_match_text b prev c : (c =? nl)%N = false -> after_match c (at_text b prev) = (at_text b (Some c), []).
Proof.
  intros Hc. unfold after_match. rewrite outside_at_text. cbn [at_text dollar_quote_tag set_previous set_buffer]. rewrite (at_tag _ Hat), Hc. cbn.
  unfold after_delimiter. cbn. by rewrite (at_delimiter _ Hat).
Qed.

Lemma push_at_text b prev c : push_char c (at_text b prev) = at_text (b ++ [c]) prev.
Proof. done. Qed.

Lemma step_code b prev c rest :
  code_char c = true -> step inner (at_text b prev) c rest = (at_text (b ++ [c]) (Some c), [], 0).
Proof.
  intros (H1 & H2 & H3 & H4 & H5 & H6 & H7 & H8 & H9 & H10 & H11 & _)%code_char_spec. rewrite step_plain by done.
  unfold plain_char, match_char. rewrite H1, H2, H3, H4. cbn [andb]. rewrite push_at_text, after_match_text by done. done.
Qed.

Lemma scan_code code : forall b prev rest,
  forallb code_char code = true ->
  exists prev', loop (at_text b prev) 0 (code ++ rest) = loop (at_text (b ++ code) prev') 0 rest.
Proof.
  induction code as [|c code IH]; intros b prev rest Hc; cbn in Hc.
  - exists prev. by rewrite app_nil_r.
  - apply andb_prop in Hc as [Hc Hcode]. cbn [app]. rewrite (scan_step _ _ _ _ _ (step_code b prev c (code ++ rest) Hc)).
    destruct (IH (b ++ [c]) (Some c) rest Hcode) as [prev' Heq]. exists prev'. by rewrite Heq, <- app_assoc.
Qed.

(** ** Quoted names *)

Lemma step_open_name q b prev rest :
  delimits q -> step inner (at_text b prev) q rest = (in_name q (b ++ [q]) (Some q), [], 0).
Proof.
  intros [[-> Hs]|[-> Hs]]; rewrite step_plain by done; unfold plain_char, match_char; cbn.
  - unfold prof in *. cbn. rewrite Hs, (at_single _ Hat), (at_double _ Hat), (at_backtick _ Hat). cbn. unfold after_match, outside_quotes. cbn.
    by rewrite !andb_false_r.
  - unfold prof in *. cbn. rewrite Hs, (at_single _ Hat), (at_double _ Hat), (at_backtick _ Hat). cbn. unfold after_match, outside_quotes. cbn.
    by rewrite (at_single _ Hat).
Qed.

(** Inside a name only its quote matters. *)
Lemma step_in_name q b prev c rest :
  delimits q -> step inner (in_name q b prev) c rest = plain_char c (in_name q b prev).
Proof.
  intros [[-> _]|[-> _]]; unfold step, sql_step; cbn; rewrite (at_psql _ Hat), (at_tag _ Hat), (at_line _ Hat), (at_block _ Hat), (at_q _ Hat);
    unfold outside_quotes; cbn; rewrite ?(at_single _ Hat), ?(at_double _ Hat); cbn; by rewrite !andb_false_r.
Qed.

Lemma close_name q b prev :
  delimits q ->
  (if (q =? backtick)%N then set_in_backtick false (set_buffer b (in_name q b prev))
   else set_in_double_quote false (set_buffer b (in_name q b prev))) = at_text b prev.
Proof.
  intros Hq. pose proof (at_backtick _ Hat) as Hb. pose proof (at_double _ Hat) as Hd. unfold in_name, at_text. destruct s0. cbn in *. subst.
  by destruct Hq as [[-> _]|[-> _]].
Qed.

Lemma step_close_name q b prev rest :
  delimits q -> step inner (in_name q b prev) q rest = (at_text (b ++ [q]) (Some q), [], 0).
Proof.
  intros Hq. rewrite step_in_name by done. unfold plain_char.
  assert (match_char q (in_name q b prev) = (at_text (b ++ [q]) prev, [])) as ->.
  { rewrite <- (close_name q (b ++ [q]) prev Hq). unfold match_char.
    destruct Hq as [[-> Hs]|[-> Hs]]; cbn; unfold prof in *; cbn; rewrite Hs, ?(at_single _ Hat), ?(at_double _ Hat), ?(at_backtick _ Hat); done. }
  rewrite after_match_text; [done|]. by destruct Hq as [[-> _]|[-> _]].
Qed.

Lemma step_inside_name q b prev c rest :
  delimits q -> (c =? q)%N = false -> step inner (in_name q b prev) c rest = (in_name q (b ++ [c]) (Some c), [], 0).
Proof.
  intros Hq Hc. rewrite step_in_name by done. unfold plain_char.
  assert (match_char c (in_name q b prev) = (in_name q (b ++ [c]) prev, [])) as ->.
  { unfold match_char. destruct Hq as [[-> _]|[-> _]]; unfold outside_quotes; cbn;
      rewrite ?Hc, ?(at_single _ Hat), ?(at_double _ Hat), ?(at_backtick _ Hat); cbn; by rewrite ?andb_false_r. }
  unfold after_match. destruct Hq as [[-> _]|[-> _]]; unfold outside_quotes; cbn; by rewrite ?andb_false_r.
Qed.

Lemma scan_name_body q name : forall b prev rest,
  delimits q ->
  exists prev', loop (in_name q b prev) 0 (double_char q name ++ rest) = loop (in_name q (b ++ double_char q name) prev') 0 rest.
Proof.
  induction name as [|c name IH]; intros b prev rest Hq.
  - exists prev. cbn [double_char mbind list_bind app]. by rewrite app_nil_r.
  - rewrite double_char_cons. destruct (N.eqb_spec c q) as [->|Hc]; cbn [app].
    + rewrite (scan_step _ _ _ _ _ (step_close_name q b prev _ Hq)), (scan_step _ _ _ _ _ (step_open_name q _ _ _ Hq)).
      destruct (IH ((b ++ [q]) ++ [q]) (Some q) rest Hq) as [prev' Heq]. exists prev'. by rewrite Heq, <- !app_assoc.
    + apply N.eqb_neq in Hc. rewrite (scan_step _ _ _ _ _ (step_inside_name q b prev c _ Hq Hc)).
      destruct (IH (b ++ [c]) (Some c) rest Hq) as [prev' Heq]. exists prev'. by rewrite Heq, <- !app_assoc.
Qed.

(** A quoted name is appended to the statement. *)
Lemma scan_name q name b prev rest :
  delimits q -> loop (at_text b prev) 0 (delimited q q name ++ rest) = loop (at_text (b ++ delimited q q name) (Some q)) 0 rest.
Proof.
  intros Hq. unfold delimited. cbn [app]. rewrite (scan_step _ _ _ _ _ (step_open_name q b prev _ Hq)), <- app_assoc.
  destruct (scan_name_body q name (b ++ [q]) (Some q) ([q] ++ rest) Hq) as [prev' ->].
  cbn [app]. rewrite (scan_step _ _ _ _ _ (step_close_name q _ _ _ Hq)). by rewrite <- !app_assoc.
Qed.

(** ** Parts of a statement *)

Inductive stmt_part : Set := Code (code : text) | Quoted (name : text).

Definition part_sql (q : char) (p : stmt_part) : text := match p with Code code => code | Quoted name => delimited q q name end.

Definition stmt_sql (q : char) (ps : list stmt_part) : text := ps ≫= part_sql q.

Definition plain_part (p : stmt_part) : bool := match p with Code code => forallb code_char code | Quoted _ => true end.

Lemma scan_parts q ps : forall b prev rest,
  delimits q -> forallb plain_part ps = true ->
  exists prev', loop (at_text b prev) 0 (stmt_sql q ps ++ rest) = loop (at_text (b ++ stmt_sql q ps) prev') 0 rest.
Proof.
  induction ps as [|p ps IH]; intros b prev rest Hq Hps.
  - exists prev. cbn [stmt_sql mbind list_bind app]. by rewrite app_nil_r.
  - apply andb_prop in Hps as [Hp Hps]. cbn [stmt_sql mbind list_bind]. fold (stmt_sql q ps). rewrite <- app_assoc.
    destruct p as [code|name]; cbn [part_sql plain_part] in *.
    + destruct (scan_code code b prev (stmt_sql q ps ++ rest) Hp) as [prev1 ->].
      destruct (IH (b ++ code) prev1 rest Hq Hps) as [prev' ->]. exists prev'. by rewrite <- !app_assoc.
    + rewrite scan_name by done. destruct (IH (b ++ delimited q q name) (Some q) rest Hq Hps) as [prev' ->]. exists prev'. by rewrite <- !app_assoc.
Qed.

End Names.

(** ** The end of a statement *)

(** No block syntax holds statements together. *)
Definition no_blocks (p : SqlDialectProfile.t) : bool :=
  negb (supports_oracle_plsql_blocks p) && negb (supports_hana_script_blocks p) && negb (supports_firebird_routine_blocks p) && negb (keeps_sqlserver_control_flow_batches p).

(** The statement starts with a verb that opens no routine. *)
Definition VERBS : list text := [%"ALTER "; %"DROP "].

Definition starts_plain (ps : list stmt_part) : bool :=
  match ps with Code code :: _ => existsb (fun verb => starts_with verb code) VERBS | _ => false end.

Definition is_quoted (p : stmt_part) : bool := match p with Quoted _ => true | Code _ => false end.

(** The last character is not a blank. *)
Definition ends_solid (ps : list stmt_part) : bool :=
  match last ps with
  | Some (Quoted _) => true
  | Some (Code code) => match last code with Some c => negb (is_whitespace c) | None => false end
  | None => false
  end.

Definition stmt_ok (ps : list stmt_part) : bool :=
  forallb plain_part ps && starts_plain ps && existsb is_quoted ps && ends_solid ps.

Definition line_start (lead : text) : Prop := lead = [] \/ lead = [nl].

Lemma stmt_starts q ps : starts_plain ps = true -> exists verb rest, In verb VERBS /\ stmt_sql q ps = verb ++ rest.
Proof.
  destruct ps as [|[code|name] ps]; try done. intros [verb [Hv Hs]]%existsb_exists. apply starts_with_app in Hs as [r ->].
  exists verb, (r ++ stmt_sql q ps). split; [done|]. cbn [stmt_sql mbind list_bind part_sql]. by rewrite app_assoc.
Qed.

(** *** Routine bodies *)

Lemma verb_opens_no_routine lead verb rest :
  line_start lead -> In verb VERBS -> is_mysql_routine_ddl_start (lead ++ verb ++ rest) = false.
Proof. intros [-> | ->] [<-|[<-|[]]]; by destruct rest. Qed.

(** *** [DELIMITER] lines *)

Lemma rsplit_last_app c u w :
  rsplit_once c (u ++ w) =
  match rsplit_once c w with
  | Some (a, r) => Some (u ++ a, r)
  | None => match rsplit_once c u with Some (a, r) => Some (a, r ++ w) | None => None end
  end.
Proof.
  induction u as [|x u IH]; cbn; [by destruct (rsplit_once c w) as [[a r]|]|]. rewrite IH.
  destruct (rsplit_once c w) as [[a r]|]; [done|]. destruct (rsplit_once c u) as [[a r]|]; [done|]. by destruct (x =? c)%N.
Qed.

Lemma drop_while_snoc {A} (p : A -> bool) w c : p c = false -> drop_while p (w ++ [c]) = drop_while p w ++ [c].
Proof. intros Hc. induction w as [|x w IH]; cbn; [by rewrite Hc|]. by destruct (p x). Qed.

Lemma trim_end_cons c l : is_whitespace c = false -> trim_end (c :: l) = c :: trim_end l.
Proof. intros Hc. unfold trim_end. cbn [rev]. by rewrite drop_while_snoc, rev_app_distr. Qed.

Lemma trim_start_line lead c l : line_start lead -> is_whitespace c = false -> trim_start (lead ++ c :: l) = c :: l.
Proof. intros [-> | ->] Hc; unfold trim_start; cbn; by rewrite ?Hc. Qed.

(** The first character of a verb. *)
Lemma verb_head verb : In verb VERBS -> exists c v, verb = c :: v /\ is_whitespace c = false /\ rsplit_once nl verb = None
  /\ (forall o l, has_executable_sql_with_options (c :: l) o = true)
  /\ (forall l, (9 <=? length (verb ++ l)) && eq_ignore_ascii_case (take 9 (verb ++ l)) %"delimiter" = false).
Proof.
  intros [<-|[<-|[]]]; do 2 eexists; (split; [reflexivity|]); (split; [done|]); (split; [done|]); split.
  - intros o l. unfold has_executable_sql_with_options. cbn. by rewrite andb_false_r.
  - intros l. by rewrite andb_false_r.
  - intros o l. unfold has_executable_sql_with_options. cbn. by rewrite andb_false_r.
  - intros l. by rewrite andb_false_r.
Qed.

Lemma executable_line lead verb rest o :
  line_start lead -> In verb VERBS -> has_executable_sql_with_options (trim (lead ++ verb ++ rest)) o = true.
Proof.
  intros Hl Hv. destruct (verb_head verb Hv) as (c & v & -> & Hc & _ & He & _). unfold trim. cbn [app].
  rewrite trim_start_line, trim_end_cons by done. apply He.
Qed.

Lemma no_delimiter_line s lead verb rest :
  line_start lead -> In verb VERBS -> buffer s = lead ++ verb ++ rest -> on_delimiter_line s = false.
Proof.
  intros Hl Hv Hb. unfold on_delimiter_line, last_line, before_last_line. rewrite Hb, (app_assoc lead), rsplit_last_app.
  destruct (rsplit_once nl rest) as [[a r]|].
  - rewrite <- !app_assoc, executable_line by done. cbn [negb]. by rewrite andb_false_r.
  - destruct (verb_head verb Hv) as (c & v & Heq & Hc & Hn & _ & Hd). rewrite rsplit_last_app, Hn.
    assert (trim_start (verb ++ rest) = verb ++ rest) as Ht by (rewrite Heq; unfold trim_start; cbn; by rewrite Hc).
    destruct Hl as [-> | ->]; [change (rsplit_once nl []) with (@None (text * text))|change (rsplit_once nl [nl]) with (Some (@nil char, @nil char))];
      cbn iota; cbn [app]; by rewrite Ht, Hd.
Qed.

(** *** Entity references *)

Lemma after_alphanumerics q w z :
  q = backtick \/ q = dquote -> forallb code_char w = true ->
  exists c r, drop (length (take_while is_ascii_alphanumeric (w ++ q :: z))) (w ++ q :: z) = c :: r
    /\ (c =? hash)%N = false /\ (c =? amp)%N = false.
Proof.
  intros Hq. induction w as [|c w IH]; intros Hw.
  - exists q, z. by destruct Hq as [-> | ->].
  - apply andb_prop in Hw as [Hc Hw]. cbn [app take_while]. destruct (is_ascii_alphanumeric c); [by apply IH|].
    exists c, (w ++ q :: z). apply code_char_spec in Hc. split; [done|]. tauto.
Qed.

Lemma no_entity q y code :
  q = backtick \/ q = dquote -> forallb code_char code = true -> ends_with_xml_entity_reference (y ++ q :: code) = false.
Proof.
  intros Hq Hc. unfold ends_with_xml_entity_reference. rewrite rev_app_distr. cbn [rev]. rewrite <- app_assoc. cbn [app].
  destruct (after_alphanumerics q (rev code) (rev y) Hq) as (c & r & -> & Hh & Ha).
  { rewrite forallb_forall in *. intros x Hx%in_rev. by apply Hc. }
  rewrite Hh. cbn [head_is]. by rewrite Ha.
Qed.

Lemma stmt_tail q ps :
  existsb is_quoted ps = true -> forallb plain_part ps = true ->
  exists y code, stmt_sql q ps = y ++ q :: code /\ forallb code_char code = true.
Proof.
  induction ps as [|p ps IH]; [done|]. cbn [existsb forallb stmt_sql mbind list_bind]. fold (stmt_sql q ps). intros Hq [Hp Hps]%andb_prop.
  destruct (existsb is_quoted ps) eqn:He.
  - destruct (IH eq_refl Hps) as (y & code & -> & Hc). exists (part_sql q p ++ y), code. by rewrite <- app_assoc.
  - destruct p as [|name]; [done|]. exists (q :: double_char q name), (stmt_sql q ps). split.
    { cbn [part_sql]. unfold delimited. cbn [app]. by rewrite <- app_assoc. }
    clear IH Hq. induction ps as [|[code|n] ps IH]; [done| |done]. cbn in He, Hps. apply andb_prop in Hps as [Hc Hps].
    cbn [stmt_sql mbind list_bind part_sql]. fold (stmt_sql q ps). rewrite forallb_app, Hc. by apply IH.
Qed.

(** *** Trimming *)

Lemma stmt_last q ps :
  q = backtick \/ q = dquote -> ends_solid ps = true -> exists y c, stmt_sql q ps = y ++ [c] /\ is_whitespace c = false.
Proof.
  intros Hq. unfold ends_solid. destruct ps as [|p ps _] using rev_ind; [done|]. rewrite last_snoc. unfold stmt_sql. rewrite bind_app.
  cbn [mbind list_bind]. rewrite app_nil_r. destruct p as [code|name]; cbn [part_sql].
  - destruct code as [|c code _] using rev_ind; [done|]. rewrite last_snoc. intros Hc%negb_true_iff. eexists (_ ++ code), c. by rewrite app_assoc.
  - intros _. eexists (_ ++ q :: double_char q name), q. split; [unfold delimited; by rewrite app_comm_cons, app_assoc|]. by destruct Hq as [-> | ->].
Qed.

Lemma trim_line lead verb rest y c :
  line_start lead -> In verb VERBS -> verb ++ rest = y ++ [c] -> is_whitespace c = false -> trim (lead ++ verb ++ rest) = verb ++ rest.
Proof.
  intros Hl Hv Heq Hc. destruct (verb_head verb Hv) as (d & v & -> & Hd & _). unfold trim. cbn [app] in *.
  rewrite trim_start_line, Heq by done. unfold trim_end. rewrite rev_app_distr. cbn [rev app drop_while]. rewrite Hc. cbn [rev].
  by rewrite rev_involutive.
Qed.

(** *** Oracle-style routine bodies *)

(** What is relied on of the tokenizer: a text that starts with a verb starts, after blanks, with the verb's word. *)
Class VerbFirst `{OracleTokenizer} : Prop := {
  verb_first : forall lead verb rest tokens,
    line_start lead -> In verb VERBS -> oracle_tokenize (lead ++ verb ++ rest) = Some tokens ->
    exists blanks more, tokens = blanks ++ TokWord (trim verb) false :: more /\ Forall (fun t => t = TokWhitespace) blanks
}.

#[export] Instance fallback_verb_first : @VerbFirst fallback_tokenizer.
Proof. by constructor. Qed.

Definition map_token (out : list OraclePlSqlToken) (token : SqlparserToken) : list OraclePlSqlToken :=
  match from_sqlparser_token token with Some mapped => push_mapped out mapped | None => out end.

Lemma map_tokens_head tokens w out : exists more, fold_left map_token tokens (w :: out) = w :: more.
Proof.
  revert out. induction tokens as [|t tokens IH]; intros out; [by exists out|]. cbn [fold_left].
  assert (exists out', map_token (w :: out) t = w :: out') as [out' ->]; [|apply IH].
  unfold map_token, push_mapped. repeat case_match; by eexists.
Qed.

Lemma verb_fallback verb rest :
  In verb VERBS -> exists more, snd (scan_loop plsql_fallback_step false 0 (verb ++ rest)) = Word (trim verb) :: more.
Proof.
  assert (forall c l st out n, plsql_fallback_step false c l = (st, [out], n) ->
    exists more, snd (scan_loop plsql_fallback_step false 0 (c :: l)) = out :: more) as Hfirst.
  { intros c l st out n Hs. rewrite scan_loop_cons, Hs. destruct (scan_loop _ st 0 _) as [? more]. by exists more. }
  intros [<-|[<-|[]]]; by eapply Hfirst.
Qed.

Lemma verb_token `{VerbFirst} lead verb rest :
  line_start lead -> In verb VERBS -> exists more, oracle_plsql_tokens (lead ++ verb ++ rest) = Word (trim verb) :: more.
Proof.
  intros Hl Hv. unfold oracle_plsql_tokens. destruct (oracle_tokenize (lead ++ verb ++ rest)) as [tokens|] eqn:Ht.
  - destruct (verb_first _ _ _ _ Hl Hv Ht) as (blanks & more & -> & Hb). rewrite fold_left_app.
    fold map_token. assert (fold_left map_token blanks [] = []) as ->.
    { clear Ht. induction Hb as [|t blanks -> Hb IH]; [done|]. exact IH. }
    assert (map_token [] (TokWord (trim verb) false) = [Word (trim verb)]) as Hw by (by destruct Hv as [<-|[<-|[]]]).
    cbn [fold_left]. rewrite Hw. apply map_tokens_head.
  - unfold oracle_plsql_tokens_fallback. destruct Hl as [-> | ->]; cbn [app]; [|rewrite scan_loop_cons].
    + by apply verb_fallback.
    + change (plsql_fallback_step false nl (verb ++ rest)) with (false, @nil OraclePlSqlToken, 0). cbn iota. rewrite drop_0.
      destruct (verb_fallback verb rest Hv) as [more Hm]. exists more. by destruct (scan_loop plsql_fallback_step false 0 (verb ++ rest)).
Qed.

Lemma verb_opens_no_body `{VerbFirst} lead verb rest :
  line_start lead -> In verb VERBS -> OraclePlSqlBlock.starts_oracle_style_routine_body (oracle_plsql_tokens (lead ++ verb ++ rest)) = false.
Proof. intros Hl Hv. destruct (verb_token lead verb rest Hl Hv) as [more ->]. by destruct Hv as [<-|[<-|[]]]. Qed.

Lemma keeps_nothing `{VerbFirst} o lead verb rest :
  line_start lead -> In verb VERBS -> supports_oracle_plsql_blocks (SqlParsingOptions.profile o) = false ->
  fst (OraclePlSqlBlockTracker.keeps_block_together o (lead ++ verb ++ rest) OraclePlSqlBlockTracker.default) = false.
Proof.
  intros Hl Hv Hp. unfold OraclePlSqlBlockTracker.keeps_block_together. rewrite Hp. cbn [negb andb].
  destruct (supports_oracle_style_routine_bodies (SqlParsingOptions.profile o)); [|done]. cbn [negb fst].
  unfold OraclePlSqlBlockTracker.scan. cbn [OraclePlSqlBlockTracker.scanned_len OraclePlSqlBlockTracker.default].
  destruct (Nat.ltb_spec (length (lead ++ verb ++ rest)) 0); [lia|].
  cbn [OraclePlSqlBlockTracker.block OraclePlSqlBlockTracker.scanned_len OraclePlSqlBlockTracker.default app]. rewrite drop_0.
  by apply verb_opens_no_body.
Qed.

(** ** Scripts *)

Section Lines.

Context `{CharTable} `{VerbFirst}.
Variable inner : t -> text -> t * list SqlStatementWithControl.
Variables (o : SqlParsingOptions.t) (q : char).

Abbreviation s0 := (with_options o).
Abbreviation loop := (scan_loop (step inner)).

Hypothesis Hq : delimits s0 q.
Hypothesis Hblocks : no_blocks (SqlParsingOptions.profile o) = true.

Lemma starts_at_sql : AtSql s0.
Proof. by constructor. Qed.

Lemma quote_is_name_quote : q = backtick \/ q = dquote.
Proof. destruct Hq as [[-> _]|[-> _]]; auto. Qed.

(** At a semicolon the statement is emitted. *)
Lemma on_semicolon_emits lead ps prev :
  line_start lead -> stmt_ok ps = true ->
  on_semicolon (at_text s0 (lead ++ stmt_sql q ps) prev) = (at_text s0 [] None, [mk_stmt (stmt_sql q ps) false]).
Proof.
  intros Hl Hps. unfold stmt_ok in Hps. rewrite !andb_true_iff in Hps. destruct Hps as [[[Hp Hs] Hn] He].
  destruct (stmt_starts q ps Hs) as (verb & rest & Hv & Hst). destruct (stmt_tail q ps Hn Hp) as (y & code & Htail & Hcode).
  destruct (stmt_last q ps quote_is_name_quote He) as (z & c & Hlast & Hc).
  unfold on_semicolon. cbn [buffer at_text set_previous set_buffer].
  rewrite Htail at 1. rewrite app_assoc, no_entity by auto using quote_is_name_quote.
  rewrite (no_delimiter_line (at_text s0 (lead ++ stmt_sql q ps) prev) lead verb rest) by (cbn; by rewrite ?Hst). rewrite andb_false_r.
  cbn [orb custom_delimiter at_text set_previous set_buffer with_options].
  unfold starts_with_mysql_routine_block. rewrite Hst, verb_opens_no_routine, andb_false_r by done.
  unfold no_blocks in Hblocks. rewrite !andb_true_iff, !negb_true_iff in Hblocks. destruct Hblocks as [[[Hb1 Hb2] Hb3] Hb4].
  cbn [postgres_dollar_quoted_routine at_text set_previous set_buffer with_options].
  cbn [oracle_block options at_text set_previous set_buffer with_options].
  pose proof (keeps_nothing o lead verb rest Hl Hv Hb1) as Hkeep.
  destruct (OraclePlSqlBlockTracker.keeps_block_together _ _ _) as [kept tr]. cbn [fst] in Hkeep. subst kept. cbn iota.
  unfold keeps_sqlserver_control_flow_batch, prof. cbn [options set_oracle_block at_text set_previous set_buffer with_options].
  rewrite Hb2, Hb3, Hb4. cbn [andb negb].
  unfold push_current_statement, emit_if_executable.
  cbn [buffer options stop_on_error set_oracle_block at_text set_previous set_buffer with_options]. rewrite executable_line by done.
  rewrite (trim_line lead verb rest z c) by (done || by rewrite <- Hst). done.
Qed.

Lemma step_semicolon lead ps prev rest :
  line_start lead -> stmt_ok ps = true ->
  step inner (at_text s0 (lead ++ stmt_sql q ps) prev) semi rest = (at_text s0 [] (Some semi), [mk_stmt (stmt_sql q ps) false], 0).
Proof.
  intros Hl Hps. rewrite step_plain by (done || apply starts_at_sql). unfold plain_char, match_char.
  change (semi =? squote)%N with false. change (semi =? dquote)%N with false. change (semi =? backtick)%N with false.
  change (semi =? semi)%N with true. cbn [andb]. rewrite outside_at_text by apply starts_at_sql. cbn iota.
  rewrite on_semicolon_emits by done. rewrite after_match_text by (done || apply starts_at_sql). done.
Qed.

(** A newline before a statement. *)
Lemma step_newline prev rest : step inner (at_text s0 [] prev) nl rest = (at_text s0 [nl] (Some nl), [], 0).
Proof.
  rewrite step_plain by (done || apply starts_at_sql). unfold plain_char, match_char. cbn.
  unfold after_match, outside_quotes. cbn. unfold after_newline. cbn. rewrite andb_false_r. by destruct (supports_custom_delimiter_commands _).
Qed.

Lemma scan_statement lead ps prev rest :
  line_start lead -> stmt_ok ps = true ->
  loop (at_text s0 lead prev) 0 (stmt_sql q ps ++ semi :: rest)
  = (let '(s, out) := loop (at_text s0 [] (Some semi)) 0 rest in (s, mk_stmt (stmt_sql q ps) false :: out)).
Proof.
  intros Hl Hps. assert (forallb plain_part ps = true) as Hp by (unfold stmt_ok in Hps; rewrite !andb_true_iff in Hps; tauto).
  destruct (scan_parts inner s0 starts_at_sql q ps lead prev (semi :: rest) Hq Hp) as [prev' ->].
  rewrite scan_loop_cons, step_semicolon, drop_0 by done. by destruct (loop (at_text s0 [] (Some semi)) 0 rest).
Qed.

Definition line_sql (ps : list stmt_part) : text := stmt_sql q ps ++ [semi].

Lemma scan_lines ps sts : forall lead prev,
  line_start lead -> forallb stmt_ok (ps :: sts) = true ->
  loop (at_text s0 lead prev) 0 (join [nl] (map line_sql (ps :: sts)))
  = (at_text s0 [] (Some semi), map (fun ps => mk_stmt (stmt_sql q ps) false) (ps :: sts)).
Proof.
  revert ps. induction sts as [|ps' sts IH]; intros ps lead prev Hl [Hps Hsts]%andb_prop.
  - cbn [map join]. unfold line_sql. by rewrite scan_statement.
  - cbn [map]. rewrite join_cons. unfold line_sql at 1. rewrite <- app_assoc. cbn [app]. rewrite scan_statement by done.
    rewrite (scan_step _ _ _ _ _ (step_newline _ _)). change (line_sql ps' :: map line_sql sts) with (map line_sql (ps' :: sts)).
    rewrite IH by (done || by right). done.
Qed.

End Lines.

Lemma finish_empty `{CharTable} `{OracleTokenizer} o prev : finish (at_text (with_options o) [] prev) = [].
Proof.
  unfold finish, finish_with_control. cbn. unfold finish_statement. cbn. unfold prof. cbn.
  by destruct (supports_custom_delimiter_commands (SqlParsingOptions.profile o)), (supports_slash_line_block_delimiter (SqlParsingOptions.profile o)).
Qed.

(** A script of such statements, one per line, is split into them. *)
Lemma lines_split `{CharTable} `{VerbFirst} o q sts :
  delimits (with_options o) q -> no_blocks (SqlParsingOptions.profile o) = true -> forallb stmt_ok sts = true ->
  split_sql_statements_with_options (join [nl] (map (line_sql q) sts)) o = map (stmt_sql q) sts.
Proof.
  intros Hq Hb Hsts. unfold split_sql_statements_with_options, push_chunk, push_chunk_with_control. cbn [push_chunk_nested].
  assert (resolve_pending_dashes (join [nl] (map (line_sql q) sts)) (with_options o) = at_text (with_options o) [] None) as ->.
  { by destruct (join _ _). }
  destruct sts as [|ps sts].
  - cbn. apply finish_empty.
  - rewrite scan_lines by (done || by left). cbn [prod_map fst snd id]. rewrite finish_empty, app_nil_r, map_map. done.
Qed.

(** * a name cannot end the statement that mentions it.

    The script of a schema synchronisation is sent through the statement splitter
    before it runs.  For every database whose names the splitter reads as quoted, the
    statements that [SyncStatements] generates come out of it one by one, whatever
    characters the names contain. *)

Import SqlDialectProfile SqlStatementSplitter.

(** The statements about the keys, indexes and tables of a comparison. *)
Inductive sync_statement : Type :=
| DropForeignKey (table_name fk_name : text)
| AddForeignKey (table_name : text) (fk : SchemaForeignKeyInfo.t)
| DropIndex (table_name index_name : text)
| DropObject (diff : TableDiff.t) (cascade : bool).

Definition cascade_clause (cascade : bool) : text := if cascade then %" CASCADE" else [].

Definition sync_sql (db_type : DatabaseType) (schema : option text) (s : sync_statement) : text :=
  match s with
  | DropForeignKey table fk => drop_foreign_key_sql table fk db_type schema
  | AddForeignKey table fk => add_foreign_key_sql table fk db_type schema
  | DropIndex table index => drop_index_sql table index db_type schema
  | DropObject diff cascade => drop_object_sql diff db_type schema (cascade_clause cascade)
  end.

(** A referential action is the server's text, which is written as it is. *)
Definition action_ok (value : option text) : bool :=
  match value with
  | None => true
  | Some v => forallb code_char v && match last v with Some c => negb (is_whitespace c) | None => false end
  end.

Definition sync_ok (s : sync_statement) : bool :=
  match s with
  | AddForeignKey _ fk =>
      action_ok (ForeignKeyInfo.on_delete (SchemaForeignKeyInfo.info fk)) && action_ok (ForeignKeyInfo.on_update (SchemaForeignKeyInfo.info fk))
  | _ => true
  end.

(** The databases whose names the splitter reads as quoted, with no block syntax. *)
Definition name_quote (db_type : DatabaseType) : option char :=
  match DdlDialectProfile.quote (profile_for db_type) with Backtick => Some backtick | DoubleQuote => Some dquote | _ => None end.

Definition database_profile (db_type : DatabaseType) : SqlDialectProfile.t :=
  SqlParsingOptions.profile (SqlParsingOptions.for_database_type db_type).

Definition names_are_quoted (db_type : DatabaseType) : bool :=
  match name_quote db_type with
  | Some q =>
      (if (q =? backtick)%N then supports_backtick_identifiers (database_profile db_type)
       else negb (supports_backslash_escaped_quotes (database_profile db_type)))
      && no_blocks (database_profile db_type)
  | None => false
  end.

(** ** The statements as parts *)

Definition name_parts (name : text) (schema : option text) : list stmt_part :=
  match non_blank schema with Some s => [Quoted s; Code dot; Quoted name] | None => [Quoted name] end.

Fixpoint ids_parts (names : list text) : list stmt_part :=
  match names with
  | [] => []
  | n :: ns => match ns with [] => [Quoted n] | _ => Quoted n :: Code %", " :: ids_parts ns end
  end.

Definition action_text (kind : text) (value : option text) : text :=
  match value with Some v => %" ON " ++ kind ++ %" " ++ v | None => [] end.

Definition sync_parts (db_type : DatabaseType) (schema : option text) (s : sync_statement) : list stmt_part :=
  let p := profile_for db_type in
  match s with
  | DropForeignKey table fk =>
      [Code %"ALTER TABLE "] ++ name_parts table schema
      ++ [Code (if DdlDialectProfile.drop_fk_as_foreign_key p then %" DROP FOREIGN KEY " else %" DROP CONSTRAINT ")] ++ [Quoted fk]
  | AddForeignKey table fk =>
      let info := SchemaForeignKeyInfo.info fk in
      let ref_schema := match ForeignKeyInfo.ref_schema info with Some s => Some s | None => schema end in
      [Code %"ALTER TABLE "] ++ name_parts table schema
      ++ [Code %" ADD CONSTRAINT "] ++ [Quoted (ForeignKeyInfo.name info)] ++ [Code %" FOREIGN KEY ("] ++ ids_parts (SchemaForeignKeyInfo.columns fk)
      ++ [Code %") REFERENCES "] ++ name_parts (ForeignKeyInfo.ref_table info) ref_schema ++ [Code %" "] ++ [Code %"("]
      ++ ids_parts (SchemaForeignKeyInfo.ref_columns fk)
      ++ [Code (%")" ++ action_text %"DELETE" (ForeignKeyInfo.on_delete info) ++ action_text %"UPDATE" (ForeignKeyInfo.on_update info))]
  | DropIndex table index =>
      if DdlDialectProfile.drop_index_uses_on_table p
      then [Code %"DROP INDEX "] ++ [Quoted index] ++ [Code %" ON "] ++ name_parts table schema
      else [Code %"DROP INDEX IF EXISTS "] ++ name_parts index schema
  | DropObject diff cascade =>
      let object_type := if bool_decide (TableDiff.object_type diff = Some %"view") then %"VIEW" else %"TABLE" in
      [Code (%"DROP " ++ object_type ++ if DdlDialectProfile.drop_table_supports_if_exists p then %" IF EXISTS " else %" ")]
      ++ name_parts (target_table_name diff) schema ++ (if cascade then [Code %" CASCADE"] else [])
  end.

Section Parts.

Context (db_type : DatabaseType) (q : char).
Hypothesis Hq : name_quote db_type = Some q.

Lemma quote_id_quoted name : quote_id name db_type = delimited q q name.
Proof.
  unfold name_quote in Hq. unfold quote_id, quote_ident.
  destruct (DdlDialectProfile.quote (profile_for db_type)); try done; by injection Hq as <-.
Qed.

Lemma not_special : db_type <> SqlServer /\ db_in db_type [Oracle; OceanbaseOracle] = false.
Proof.
  split; [by intros ->|]. unfold db_in. destruct (existsb _ _) eqn:He; [|done]. exfalso.
  apply existsb_exists in He as (x & Hx & Heq%bool_decide_eq_true). subst x. destruct Hx as [<-|[<-|[]]]; done.
Qed.

Lemma stmt_sql_app ps ps' : stmt_sql q (ps ++ ps') = stmt_sql q ps ++ stmt_sql q ps'.
Proof. unfold stmt_sql. by rewrite bind_app. Qed.

Lemma code_sql code : stmt_sql q [Code code] = code.
Proof. unfold stmt_sql. cbn. by rewrite app_nil_r. Qed.

Lemma quoted_sql name : stmt_sql q [Quoted name] = quote_id name db_type.
Proof. rewrite quote_id_quoted. unfold stmt_sql. cbn [mbind list_bind part_sql]. by rewrite app_nil_r. Qed.

Lemma name_sql name schema : stmt_sql q (name_parts name schema) = qualified_name name db_type schema.
Proof.
  unfold name_parts, qualified_name. destruct (non_blank schema) as [s|].
  - change [Quoted s; Code dot; Quoted name] with ([Quoted s] ++ [Code dot] ++ [Quoted name]). by rewrite !stmt_sql_app, !quoted_sql, code_sql.
  - rewrite bool_decide_eq_false_2 by apply not_special. apply quoted_sql.
Qed.

Lemma ids_sql names : stmt_sql q (ids_parts names) = quote_ids names db_type.
Proof.
  unfold quote_ids, comma_list. induction names as [|n ns IH]; [done|]. destruct ns as [|n' ns]; [cbn [ids_parts map join]; apply quoted_sql|].
  change (ids_parts (n :: n' :: ns)) with ([Quoted n] ++ [Code %", "] ++ ids_parts (n' :: ns)).
  rewrite !stmt_sql_app, quoted_sql, code_sql, IH. done.
Qed.

Lemma action_sql kind value : foreign_key_action db_type kind value = action_text kind value.
Proof. unfold foreign_key_action, action_text. destruct value; [|done]. by rewrite bool_decide_eq_false_2 by apply not_special. Qed.

(** The generated text is the parts and the semicolon. *)
Lemma sync_sql_parts schema s : sync_sql db_type schema s = line_sql q (sync_parts db_type schema s).
Proof.
  unfold line_sql. destruct not_special as [Hss Hor]. destruct s as [table fk|table fk|table index|diff cascade]; cbn [sync_sql sync_parts].
  - rewrite !stmt_sql_app, !code_sql, name_sql, quoted_sql, <- !app_assoc. done.
  - unfold add_foreign_key_sql, add_foreign_key_sql_with_reference_separator.
    rewrite !stmt_sql_app, !code_sql, !name_sql, !ids_sql, quoted_sql, !action_sql, <- !app_assoc. done.
  - unfold drop_index_sql. rewrite bool_decide_eq_false_2, Hor by done. unfold profile.
    destruct (DdlDialectProfile.drop_index_uses_on_table _); rewrite !stmt_sql_app, !code_sql, ?quoted_sql, name_sql, <- !app_assoc; done.
  - unfold drop_object_sql. rewrite bool_decide_eq_false_2 by done. unfold profile.
    rewrite !stmt_sql_app, !code_sql, name_sql.
    destruct (DdlDialectProfile.drop_table_supports_if_exists _), cascade; cbn [negb cascade_clause]; rewrite ?code_sql, <- !app_assoc; done.
Qed.

End Parts.

(** ** The parts are a statement *)

Lemma name_plain name schema : forallb plain_part (name_parts name schema) = true.
Proof. unfold name_parts. by destruct (non_blank schema). Qed.

Lemma ids_plain names : forallb plain_part (ids_parts names) = true.
Proof. induction names as [|n [|n' ns] IH]; [done|done|]. exact IH. Qed.

Lemma name_quoted name schema : existsb is_quoted (name_parts name schema) = true.
Proof. unfold name_parts. by destruct (non_blank schema). Qed.

Lemma ends_solid_app ps ps' : ps' <> [] -> ends_solid (ps ++ ps') = ends_solid ps'.
Proof.
  intros Hne. destruct ps' as [|p ps' _] using rev_ind; [done|]. unfold ends_solid. by rewrite app_assoc, !last_snoc.
Qed.

Lemma name_solid name schema : ends_solid (name_parts name schema) = true.
Proof. unfold name_parts. by destruct (non_blank schema). Qed.

Lemma name_ne name schema : name_parts name schema <> [].
Proof. unfold name_parts. by destruct (non_blank schema). Qed.

Lemma action_plain kind value :
  forallb code_char kind = true -> action_ok value = true -> forallb code_char (action_text kind value) = true.
Proof.
  destruct value as [v|]; [|done]. cbn [action_text action_ok]. intros Hk [Hv _]%andb_prop. rewrite !forallb_app, Hk, Hv. done.
Qed.

Lemma actions_solid d u :
  action_ok d = true -> action_ok u = true -> ends_solid [Code (%")" ++ action_text %"DELETE" d ++ action_text %"UPDATE" u)] = true.
Proof.
  assert (forall pre kind v, action_ok (Some v) = true -> ends_solid [Code (pre ++ action_text kind (Some v))] = true) as Hact.
  { intros pre kind v [_ Hv]%andb_prop. unfold ends_solid. cbn [last action_text].
    destruct v as [|c v _] using rev_ind; [done|]. rewrite last_snoc in Hv. by rewrite !app_assoc, last_snoc. }
  destruct u as [u|].
  - intros _ Hu. rewrite app_assoc. by apply Hact.
  - cbn [action_text]. rewrite app_nil_r. destruct d as [d|]; [|done]. intros Hd _. by apply Hact.
Qed.

Lemma sync_parts_ok db_type schema s : sync_ok s = true -> stmt_ok (sync_parts db_type schema s) = true.
Proof.
  intros Hok. unfold stmt_ok. rewrite !andb_true_iff. destruct s as [table fk|table fk|table index|diff cascade]; cbn [sync_parts sync_ok] in *.
  - split_and!; [|done|by rewrite !existsb_app, name_quoted|by rewrite !app_assoc, ends_solid_app].
    rewrite !forallb_app, name_plain. by destruct (DdlDialectProfile.drop_fk_as_foreign_key _).
  - apply andb_prop in Hok as [Hd Hu]. split_and!; [|done|by rewrite !existsb_app, name_quoted|].
    + rewrite !forallb_app, !name_plain, !ids_plain. cbn. rewrite !forallb_app, !action_plain by done. done.
    + rewrite !app_assoc, ends_solid_app by done. rewrite <- !app_assoc. by apply actions_solid.
  - destruct (DdlDialectProfile.drop_index_uses_on_table _).
    + split_and!; [by rewrite !forallb_app, name_plain|done|by rewrite !existsb_app, name_quoted|].
      rewrite !app_assoc, ends_solid_app by apply name_ne. apply name_solid.
    + split_and!; [by rewrite !forallb_app, name_plain|done|by rewrite !existsb_app, name_quoted|].
      rewrite ends_solid_app by apply name_ne. apply name_solid.
  - split_and!.
    + rewrite !forallb_app, name_plain. by destruct (bool_decide _), (DdlDialectProfile.drop_table_supports_if_exists _), cascade.
    + by destruct (bool_decide _), (DdlDialectProfile.drop_table_supports_if_exists _).
    + rewrite !existsb_app, name_quoted, orb_true_r. done.
    + destruct cascade; [by rewrite app_assoc, ends_solid_app|]. rewrite app_nil_r, ends_solid_app by apply name_ne. apply name_solid.
Qed.

(** C30: A name cannot end the statement that mentions it.  For every database whose
    names the splitter reads as quoted (PostgreSQL, MySQL and their relatives among
    them), a synchronisation script that drops and adds foreign keys, drops indexes and
    drops tables or views, one statement per line, is split into exactly these
    statements, whatever quotes, semicolons, comment openers or newlines the names of
    schemas, tables, columns, keys and indexes contain.  A referential action is the
    server's own text and has to be plain words ([action_ok]). *)
Theorem names_cannot_break_the_script `{CharTable} `{VerbFirst} db_type schema sts :
  names_are_quoted db_type = true -> forallb sync_ok sts = true ->
  split_sql_statements_with_options (join [nl] (map (sync_sql db_type schema) sts)) (SqlParsingOptions.for_database_type db_type)
  = map (fun s => removelast (sync_sql db_type schema s)) sts.
Proof.
  intros Hdb Hsts. unfold names_are_quoted in Hdb. destruct (name_quote db_type) as [q|] eqn:Hq; [|done]. apply andb_prop in Hdb as [Hd Hb].
  assert (map (sync_sql db_type schema) sts = map (line_sql q) (map (sync_parts db_type schema) sts)) as ->.
  { rewrite map_map. apply map_ext. intros s. by apply sync_sql_parts. }
  rewrite lines_split; [|..|done|].
  - rewrite map_map. apply map_ext. intros s. rewrite (sync_sql_parts db_type q Hq). unfold line_sql. by rewrite removelast_last.
  - unfold delimits, prof. cbn [options with_options]. unfold database_profile in Hd. unfold name_quote in Hq.
    destruct (DdlDialectProfile.quote _); try done; injection Hq as <-; [by left|right]. split; [done|]. by apply negb_true_iff in Hd.
  - rewrite forallb_forall in *. intros ps [s [<- Hs]]%in_map_iff. by apply sync_parts_ok, Hsts.
Qed.

#[local] Existing Instance latin1_table.
#[local] Existing Instance fallback_tokenizer.

(** The databases the theorem covers. *)
Example quoted_databases :
  List.filter names_are_quoted ALL
  = [Mysql; Postgres; DuckDb; Doris; StarRocks; ManticoreSearch; Kingbase; Highgo; Uxdb; Vastbase; Goldendb; Databend; Kwdb; OpenGauss;
     Gbase; Gbase8c; Sundb].
Proof. vm_compute. reflexivity. Qed.

Definition nasty_name : text := %"a;`' --
DELIMITER /* b".

Definition sample_key : SchemaForeignKeyInfo.t :=
  SchemaForeignKeyInfo.mk (ForeignKeyInfo.mk %"fk;" %"x" None nasty_name %"y" None (Some %"SET NULL")) [].

Definition sample_statements : list sync_statement :=
  [DropForeignKey nasty_name %"k"; AddForeignKey %"t" sample_key; DropIndex nasty_name %"i;j"].

Lemma names_cannot_break_the_script_witness :
  split_sql_statements_with_options (join [nl] (map (sync_sql Mysql (Some %"s;1")) sample_statements)) (SqlParsingOptions.for_database_type Mysql)
  = map (fun s => removelast (sync_sql Mysql (Some %"s;1") s)) sample_statements.
Proof.
  exact (names_cannot_break_the_script Mysql (Some %"s;1") sample_statements ltac:(vm_compute; reflexivity) ltac:(vm_compute; reflexivity)).
Defined.

(** SQL Server names in brackets are not quoted for the splitter: a semicolon in one cuts the statement. *)
Example bracketed_name_cuts_the_script :
  for_db SqlServer (sync_sql SqlServer None (DropForeignKey %"a;b" %"k"))
  = [%"ALTER TABLE [dbo].[a"; %"b] DROP CONSTRAINT [k]"].
Proof. vm_compute. reflexivity. Qed.

(** For SQLite a backslash before the closing quote hides the quote, and two statements become one. *)
Example backslash_joins_statements :
  length (for_db Sqlite (join [nl] (map (sync_sql Sqlite None) [DropIndex %"t" (%"a" ++ [bslash]); DropIndex %"t" %"b"]))) = 1.
Proof. vm_compute. reflexivity. Qed.
