(* ===== verification/GridTypes.v ===== *)
(** * GridTypes: the data of an edited grid ([dbx-sql-data/data_grid_sql.rs]).

    JSON values, the options of a save with the metadata of its table, and the tests
    on column types and names that the generators share.  Numbers and the text form
    of JSON values are serde_json's (classes [JsonNumber], [JsonCodec]).  Where a
    source indexes a string by bytes, [byte_at] and [get_from] do. *)

From stdpp Require Import list.
From S2P Require Import Prelude DbTypes WriteClass SchemaTypes ViewDdl DdlProfile Identifiers.

(** ** JSON *)

Class JsonNumber := {
  JNumber : Type;
  number_text : JNumber -> text;
  parse_number : text -> option JNumber;
  number_as_i64 : JNumber -> option Z
}.

(** An object is the list of its entries. *)
Inductive Value `{JsonNumber} : Type :=
| Null
| Bool (b : bool)
| Number (n : JNumber)
| String (s : text)
| Array (l : list Value)
| Object (l : list (text * Value)).

(** [value.to_string()] and [serde_json::from_str]. *)
Class JsonCodec `{JsonNumber} := {
  value_text : Value -> text;
  parse_value : text -> option Value
}.

Section Values.

Context `{JsonNumber}.

Definition is_null (value : Value) : bool := match value with Null => true | _ => false end.
Definition as_str (value : Value) : option text := match value with String s => Some s | _ => None end.
Definition as_bool (value : Value) : option bool := match value with Bool b => Some b | _ => None end.
Definition as_number (value : Value) : option JNumber := match value with Number n => Some n | _ => None end.
Definition as_array (value : Value) : option (list Value) := match value with Array l => Some l | _ => None end.
Definition is_object (value : Value) : bool := match value with Object _ => true | _ => false end.

(** [row.get(index).unwrap_or(&Value::Null)]. *)
Definition cell (row : list Value) (index : nat) : Value := default Null (row !! index).

End Values.

(** ** Options *)

Module DataGridColumnInfo.
Record t : Set := mk {
  name : text;
  data_type : text;
  is_nullable : bool;
  is_primary_key : bool;
  column_default : option text;
  extra : option text
}.
End DataGridColumnInfo.

Module DataGridTableMeta.
Record t : Set := mk {
  catalog : option text;
  database : option text;
  schema : option text;
  table_name : text;
  primary_keys : list text;
  columns : option (list DataGridColumnInfo.t)
}.
End DataGridTableMeta.

Module SaveOptions.
Record t `{JsonNumber} : Type := mk {
  database_type : option DatabaseType;
  identifier_quote : option text;
  server_version : option text;
  table_meta : DataGridTableMeta.t;
  columns : list text;
  source_columns : option (list (option text));
  rows : list (list Value);
  dirty_rows : list (nat * list (nat * Value));
  deleted_rows : list nat;
  new_rows : list (list Value);
  include_database_name : bool
}.
End SaveOptions.

(** ** Text *)

(** [s.replace(c, to)]. *)
Definition replace_char (c : char) (to s : text) : text := s ≫= fun d => if (d =? c)%N then to else [d].

(** [s.split([..]).next()]. *)
Definition before_any (separators s : text) : text := take_while (fun c => negb (existsb (N.eqb c) separators)) s.

(** [s.trim_matches(c)]. *)
Definition trim_matches (c : char) (s : text) : text := trim_end_matches c (drop_while (N.eqb c) s).

(** [s.rsplit(c).next()]. *)
Definition after_last (c : char) (s : text) : text := match rsplit_once c s with Some (_, after) => after | None => s end.

(** [s.strip_prefix(p)], [s.strip_suffix(p)]. *)
Definition strip_prefix (p s : text) : option text := if starts_with p s then Some (drop (length p) s) else None.
Definition strip_suffix (p s : text) : option text := if ends_with p s then Some (take (length s - length p) s) else None.

(** The byte at an offset; a byte of a longer character is 255, no ASCII byte. *)
Fixpoint byte_at (i : N) (s : text) : option N :=
  match s with
  | [] => None
  | c :: s' =>
      if (i <? len_utf8 c)%N then Some (if (i =? 0)%N && (c <? 128)%N then c else 255%N) else byte_at (i - len_utf8 c) s'
  end.

(** [s.get(n..)]: the suffix from a byte offset that starts a character. *)
Fixpoint get_from (n : N) (s : text) : option text :=
  if (n =? 0)%N then Some s
  else match s with
       | [] => None
       | c :: s' => if (len_utf8 c <=? n)%N then get_from (n - len_utf8 c) s' else None
       end.

(** [s.get(a..b)]. *)
Definition get_range (a b : N) (s : text) : option text :=
  from ← get_from a s;
  rest ← get_from b s;
  if (a <=? b)%N then Some (take (length from - length rest) from) else None.

Definition byte_is (i : N) (c : char) (s : text) : bool := match byte_at i s with Some b => (b =? c)%N | None => false end.
Definition byte_digit (i : N) (s : text) : bool := match byte_at i s with Some b => is_ascii_digit b | None => false end.

(** ** Numbers in text *)

Definition digit_value (c : char) : N := (c - 48)%N.
Definition digits_value (s : text) : N := fold_left (fun n c => (10 * n + digit_value c)%N) s 0%N.

Definition is_sign (c : char) : bool := (c =? 43)%N || (c =? dash)%N.
Definition unsigned_part (s : text) : text := match s with c :: s' => if is_sign c then s' else s | [] => [] end.
Definition is_negative (s : text) : bool := head_is dash s.

(** [s.parse::<T>()] for the signed type with the given greatest value. *)
Definition parse_signed (max : Z) (s : text) : option Z :=
  let digits := unsigned_part s in
  if is_empty digits || negb (forallb is_ascii_digit digits) then None
  else
    let magnitude := Z.of_N (digits_value digits) in
    let value := if is_negative s then (- magnitude)%Z else magnitude in
    if ((- max - 1 <=? value) && (value <=? max))%Z then Some value else None.

Definition parse_i64 (s : text) : option Z := parse_signed 9223372036854775807 s.

(** [s.parse::<T>()] for digits and the unsigned type with the given greatest value. *)
Definition parse_digits (max : N) (s : text) : option N :=
  if is_empty s || negb (forallb is_ascii_digit s) then None
  else let value := digits_value s in if (value <=? max)%N then Some value else None.

(** Below the half-way point to 2^1024 a decimal number rounds to a finite [f64]. *)
Definition F64_OVERFLOW : N := (2 ^ 1024 - 2 ^ 970)%N.

Definition rounds_to_finite (mantissa : N) (exponent : Z) : bool :=
  (mantissa =? 0)%N
  || if (0 <=? exponent)%Z then (mantissa * 10 ^ Z.to_N exponent <? F64_OVERFLOW)%N
     else (mantissa <? F64_OVERFLOW * 10 ^ Z.to_N (- exponent))%N.

(** [s.parse::<f64>().is_ok_and(f64::is_finite)]. *)
Definition parses_finite_f64 (s : text) : bool :=
  let body := unsigned_part s in
  let whole := take_while is_ascii_digit body in
  let rest := drop_while is_ascii_digit body in
  let fraction := match rest with c :: r => if (c =? 46)%N then take_while is_ascii_digit r else [] | [] => [] end in
  let rest := match rest with c :: r => if (c =? 46)%N then drop_while is_ascii_digit r else rest | [] => [] end in
  let mantissa := digits_value (whole ++ fraction) in
  let scale := Z.of_nat (length fraction) in
  if is_empty (whole ++ fraction) then false
  else match rest with
       | [] => rounds_to_finite mantissa (- scale)
       | e :: r =>
           let digits := unsigned_part r in
           if ((e =? 101)%N || (e =? 69)%N) && negb (is_empty digits) && forallb is_ascii_digit digits then
             let exponent := Z.of_N (digits_value digits) in
             rounds_to_finite mantissa ((if is_negative r then - exponent else exponent) - scale)
           else false
       end.

Definition is_numeric_literal (s : text) : bool :=
  if negb (text_eqb (trim s) s) || is_empty s then false
  else
    parses_finite_f64 s
    && forallb (fun c => is_ascii_digit c || existsb (N.eqb c) [43; dash; 46; 101; 69]%N) s
    && existsb is_ascii_digit s.

(** ** Column types *)

Definition base_of (data_type : text) : text := trim (before_any [lparen; colon; space] (lower (trim data_type))).

Definition tokens (keep : char -> bool) (s : text) : list text := split_at (fun c => negb (keep c)) s.

Definition is_textual_column_type (data_type : text) : bool :=
  let lowered := lower (trim data_type) in
  text_in (base_of data_type)
    [%"char"; %"character"; %"varchar"; %"varchar2"; %"nvarchar"; %"nvarchar2"; %"nchar"; %"string"; %"text"; %"tinytext"; %"mediumtext";
     %"longtext"; %"ntext"; %"clob"; %"nclob"; %"enum"; %"set"]
  || starts_with %"character varying" lowered || starts_with %"national character varying" lowered.

(** The type in lower case, without blanks and double quotes around it. *)
Definition unquoted_type (data_type : text) : text := lower (trim_matches dquote (trim data_type)).

Definition is_oracle_lob_type (data_type : text) : bool :=
  let lowered := unquoted_type data_type in
  text_in (before_any [lparen; colon; space] lowered) [%"blob"; %"clob"; %"nclob"; %"bfile"; %"lob"]
  || starts_with %"binary large object" lowered || starts_with %"character large object" lowered.

Definition is_dameng_uncomparable_lob_type (data_type : text) : bool :=
  let lowered := unquoted_type data_type in
  if starts_with %"binary large object" lowered then true
  else
    let base := trim (after_last 46%N (before_any [lparen; colon; space] lowered)) in
    text_in base [%"blob"; %"image"; %"longvarbinary"; %"bfile"; %"geometry"] || ends_with %"_geometry" base.

Definition oracle_character_lob_constructor (data_type : text) : option text :=
  let lowered := unquoted_type data_type in
  let base := before_any [lparen; colon; space] lowered in
  if text_eqb base %"clob" then Some %"TO_CLOB"
  else if text_eqb base %"nclob" then Some %"TO_NCLOB"
  else if starts_with %"character large object" lowered then Some %"TO_CLOB"
  else None.

Definition is_bit_column_type (data_type : text) : bool :=
  existsb (fun token => text_in token [%"bit"; %"bitn"]) (tokens is_ascii_alphanumeric (lower data_type)).

Definition is_mysql_binary_column_type (data_type : text) : bool :=
  text_in (base_of data_type) [%"binary"; %"varbinary"; %"blob"; %"tinyblob"; %"mediumblob"; %"longblob"].

Definition is_uuid_column_type (data_type : text) : bool := text_in (base_of data_type) [%"uuid"; %"uniqueidentifier"].

Definition is_oracle_raw_column_type (data_type : text) : bool :=
  eq_ignore_ascii_case (before_any [lparen; colon; space] (trim data_type)) %"raw".

Definition is_geometry_column_type (data_type : text) : bool :=
  text_in (trim (before_any [lparen] (lower data_type)))
    [%"geometry"; %"point"; %"linestring"; %"polygon"; %"multipoint"; %"multilinestring"; %"multipolygon"; %"geometrycollection"].

Definition NUMERIC_TOKENS : list text :=
  [%"int"; %"integer"; %"bigint"; %"smallint"; %"tinyint"; %"mediumint"; %"serial"; %"number"; %"numeric"; %"decimal"; %"float";
   %"double"; %"real"; %"money"].

Definition is_sized_numeric_token (token : text) : bool :=
  existsb (fun prefix =>
    match strip_prefix prefix token with Some width => negb (is_empty width) && forallb is_ascii_digit width | None => false end)
    [%"int"; %"uint"; %"float"].

Definition is_numeric_type (data_type : text) : bool :=
  existsb (fun token => text_in token NUMERIC_TOKENS || is_sized_numeric_token token) (tokens is_ascii_alphanumeric (lower data_type)).

Definition is_boolean_type (data_type : text) (database_type : option DatabaseType) : bool :=
  existsb (fun token =>
    text_in token [%"bool"; %"boolean"] || (text_in token [%"bit"; %"bitn"] && negb (opt_in database_type [Postgres])))
    (tokens is_ascii_alphanumeric (lower data_type)).

Definition temporal_column_kind (data_type : option text) : option text :=
  let base := before_any [lparen; colon; space] (lower (trim (or_default data_type))) in
  if text_eqb base %"date" then Some %"date"
  else if text_eqb base %"time" then Some %"time"
  else if text_in base [%"datetime"; %"timestamp"] then Some %"datetime"
  else None.

Definition is_temporal_column_type (data_type : text) : bool := match temporal_column_kind (Some data_type) with Some _ => true | None => false end.

(** [column_info.map(|column| p(&column.data_type)).unwrap_or(false)]. *)
Definition typed (p : text -> bool) (column_info : option DataGridColumnInfo.t) : bool :=
  match column_info with Some column => p (DataGridColumnInfo.data_type column) | None => false end.

Definition is_type (name data_type : text) : bool := eq_ignore_ascii_case (trim data_type) name.

Definition is_json_document_column (column_info : option DataGridColumnInfo.t) : bool :=
  typed (fun ty => is_type %"json" ty || is_type %"jsonb" ty) column_info.

(** ** Generated columns *)

Definition extra_is_auto_generated (extra : text) : bool :=
  existsb (fun part => text_in part [%"auto_increment"; %"autoincrement"; %"identity"; %"smallserial"; %"serial"; %"bigserial"])
    (tokens (fun c => is_ascii_alphanumeric c || (c =? under)%N) (lower extra)).

Definition is_auto_generated_column (column : DataGridColumnInfo.t) : bool :=
  extra_is_auto_generated (or_default (DataGridColumnInfo.extra column))
  || match DataGridColumnInfo.column_default column with Some d => contains %"nextval(" (lower d) | None => false end.

Definition extra_of (column_info : option DataGridColumnInfo.t) : option text := column_info ≫= DataGridColumnInfo.extra.

Definition is_non_identity_generated_column (column_info : option DataGridColumnInfo.t) : bool :=
  let extra := lower (or_default (extra_of column_info)) in
  (contains %"generated always as" extra || contains %"virtual generated" extra || contains %"stored generated" extra)
  && negb (contains %"identity" extra).

Definition is_sqlserver_computed_column (database_type : option DatabaseType) (column_info : option DataGridColumnInfo.t) : bool :=
  opt_in database_type [SqlServer]
  && match extra_of column_info with Some extra => eq_ignore_ascii_case (trim extra) %"computed" | None => false end.

Definition is_sqlserver_rowversion_type (data_type : text) : bool :=
  text_in (trim (before_any [lparen; space; tab; nl] (unquoted_type data_type))) [%"timestamp"; %"rowversion"].

Definition is_sqlserver_rowversion_column (database_type : option DatabaseType) (column_info : option DataGridColumnInfo.t) : bool :=
  opt_in database_type [SqlServer] && typed is_sqlserver_rowversion_type column_info.

Definition is_postgres_tsvector_type (data_type : text) : bool :=
  let normalized := unquoted_type data_type in text_eqb normalized %"tsvector" || ends_with %".tsvector" normalized.

Definition is_postgres_tsvector_column (database_type : option DatabaseType) (column_info : option DataGridColumnInfo.t) : bool :=
  opt_in database_type [Postgres] && typed is_postgres_tsvector_type column_info.

Definition is_clickhouse_partition_key_column (database_type : option DatabaseType) (column_info : option DataGridColumnInfo.t) : bool :=
  opt_in database_type [ClickHouse]
  && match extra_of column_info with
     | Some extra => text_in %"partition_key" (tokens (fun c => is_ascii_alphanumeric c || (c =? under)%N) extra)
     | None => false
     end.

(** ** Columns by name *)

Definition DBX_ROWID_COLUMN : text := %"__DBX_ROWID".
Definition DBX_NEO4J_ELEMENT_ID_COLUMN : text := %"__DBX_ELEMENT_ID".
Definition DBX_TDENGINE_TBNAME_COLUMN : text := %"tbname".

Definition normalize_column_name (name : text) : text := upper name.

Definition column_info_for (columns : list DataGridColumnInfo.t) (name : text) : option DataGridColumnInfo.t :=
  List.find (fun column => text_eqb (normalize_column_name (DataGridColumnInfo.name column)) (normalize_column_name name)) columns.

Definition is_synthetic_row_id (database_type : option DatabaseType) (name : option text) : bool :=
  uses_synthetic_row_id database_type && match name with Some n => eq_ignore_ascii_case n DBX_ROWID_COLUMN | None => false end.

Definition is_neo4j_element_id (database_type : option DatabaseType) (name : option text) : bool :=
  opt_in database_type [Neo4j] && match name with Some n => text_eqb n DBX_NEO4J_ELEMENT_ID_COLUMN | None => false end.

(** The indexes at which a list satisfies a predicate. *)
Definition indexes_of {A} (p : A -> bool) (l : list A) : list nat :=
  omap (fun x => x) (imap (fun i x => if p x then Some i else None) l).

Definition find_column_index (database_type : option DatabaseType) (columns : list (option text)) (target : text) : option nat :=
  match position (fun column => bool_decide (column = Some target)) columns with
  | Some index => Some index
  | None =>
      if negb (opt_in database_type [Goldendb; Kingbase; Tdengine; Hive; Vastbase]) then None
      else
        match indexes_of (fun column => text_eqb (or_default (normalize_column_name <$> column)) (normalize_column_name target)) columns with
        | [first] => Some first
        | _ => None
        end
  end.

Definition is_clickhouse_key_column (database_type : option DatabaseType) (column_info : option DataGridColumnInfo.t) (name : option text)
    (primary_key_set : list text) : bool :=
  if negb (opt_in database_type [ClickHouse]) then false
  else
    match column_info with Some column => DataGridColumnInfo.is_primary_key column | None => false end
    || is_clickhouse_partition_key_column database_type column_info
    || match name with Some n => text_in (normalize_column_name n) primary_key_set | None => false end.

Definition is_grid_insert_omitted_column (database_type : option DatabaseType) (column_info : option DataGridColumnInfo.t)
    (name : option text) (include_computed_columns : bool) : bool :=
  is_synthetic_row_id database_type name || is_postgres_tsvector_column database_type column_info
  || is_sqlserver_rowversion_column database_type column_info
  || (negb include_computed_columns
      && (is_non_identity_generated_column column_info || is_sqlserver_computed_column database_type column_info)).

Definition is_grid_update_omitted_column (database_type : option DatabaseType) (column_info : option DataGridColumnInfo.t)
    (name : option text) (primary_key_set : list text) : bool :=
  is_synthetic_row_id database_type name || is_clickhouse_key_column database_type column_info name primary_key_set
  || is_non_identity_generated_column column_info.

(** ** The table's columns behind a result *)

Definition unique_column_info_match (database_type : option DatabaseType) (columns : list DataGridColumnInfo.t) (name : text)
    : option DataGridColumnInfo.t :=
  match List.find (fun column => text_eqb (DataGridColumnInfo.name column) name) columns with
  | Some column => Some column
  | None =>
      if opt_in database_type [Postgres; Redshift] then None
      else
        match List.filter (fun column => text_eqb (normalize_column_name (DataGridColumnInfo.name column)) (normalize_column_name name)) columns with
        | [first] => Some first
        | _ => None
        end
  end.

(** [name.strip_prefix(open)?.strip_suffix(close)?] with doubled quotes undone, for the first pair of quotes at either end. *)
Definition unquote_identifier_component (component : text) : option text :=
  if is_empty component then None
  else
    match List.find (fun q => starts_with [q.1] component || ends_with [q.2] component)
            [(backtick, backtick); (dquote, dquote); (lbracket, rbracket)] with
    | Some (open, close) =>
        inner ← strip_prefix [open] component;
        inner ← strip_suffix [close] inner;
        Some (replace [close; close] [close] inner)
    | None => Some component
    end.

(** The text of the component, last character first, whether a dot was seen, and the open quote. *)
Fixpoint last_component_from (component : text) (dotted : bool) (quote : option char) (s : text) : option text :=
  match s with
  | [] =>
      match quote with
      | Some _ => None
      | None => if dotted then unquote_identifier_component (trim (rev component)) else None
      end
  | c :: s' =>
      match quote with
      | Some q =>
          if (c =? q)%N then
            match s' with
            | d :: s'' =>
                if (d =? q)%N then last_component_from (d :: c :: component) dotted quote s''
                else last_component_from (c :: component) dotted None s'
            | [] => last_component_from (c :: component) dotted None s'
            end
          else last_component_from (c :: component) dotted quote s'
      | None =>
          if (c =? backtick)%N || (c =? dquote)%N then last_component_from (c :: component) dotted (Some c) s'
          else if (c =? lbracket)%N then last_component_from (c :: component) dotted (Some rbracket) s'
          else if (c =? 46)%N then
            if is_empty (trim (rev component)) then None else last_component_from [] true None s'
          else last_component_from (c :: component) dotted None s'
      end
  end.

Definition last_qualified_identifier_component (name : text) : option text := last_component_from [] false None name.

Definition resolve_hive_target_column (table_meta : DataGridTableMeta.t) (result_column : text) : text :=
  match DataGridTableMeta.columns table_meta with
  | None => result_column
  | Some columns =>
      match unique_column_info_match (Some Hive) columns result_column with
      | Some column => DataGridColumnInfo.name column
      | None =>
          match last_qualified_identifier_component result_column with
          | None => result_column
          | Some unqualified =>
              match unique_column_info_match (Some Hive) columns unqualified with
              | Some column => DataGridColumnInfo.name column
              | None => result_column
              end
          end
      end
  end.

Definition effective_copy_columns (source_columns : option (list (option text))) (columns : list text) : list (option text) :=
  match source_columns with
  | Some source => if Nat.eqb (length source) (length columns) then source else map Some columns
  | None => map Some columns
  end.

Section Columns.

Context `{JsonNumber}.

Definition effective_columns (options : SaveOptions.t) : list (option text) :=
  let columns := effective_copy_columns (SaveOptions.source_columns options) (SaveOptions.columns options) in
  if negb (opt_in (SaveOptions.database_type options) [Hive]) then columns
  else map (fmap (resolve_hive_target_column (SaveOptions.table_meta options))) columns.

(** [options.table_meta.columns.as_deref().unwrap_or(&[])]. *)
Definition column_infos (options : SaveOptions.t) : list DataGridColumnInfo.t :=
  default [] (DataGridTableMeta.columns (SaveOptions.table_meta options)).

Definition primary_keys (options : SaveOptions.t) : list text := DataGridTableMeta.primary_keys (SaveOptions.table_meta options).

(** [columns.get(index).and_then(|column| column.as_deref())]. *)
Definition column_at (columns : list (option text)) (index : nat) : option text := mjoin (columns !! index).

(** The rows an edit touches, updates first. *)
Definition touched_row_indexes (options : SaveOptions.t) : list nat :=
  map fst (SaveOptions.dirty_rows options) ++ SaveOptions.deleted_rows options.

Definition no_touched_rows (options : SaveOptions.t) : bool :=
  is_empty (SaveOptions.dirty_rows options) && is_empty (SaveOptions.deleted_rows options).

End Columns.
