(* ===== verification/GridLiterals.v ===== *)
(** * GridLiterals: cells as SQL literals ([data_grid_sql.rs], [format_grid_copy_insert_sql_literal]
      to [local_timezone_offset_suffix]; [value_literals.rs]; [sqlserver_temporal.rs]).

    Dates and the local time zone are chrono's (class [Chrono]). *)

From stdpp Require Import list.
From S2P Require Import Prelude DbTypes WriteClass SchemaTypes ViewDdl DdlProfile Identifiers DefaultLiteral GridTypes.

Class Chrono := {
  NaiveDateTime : Type;
  (** [NaiveDateTime::parse_from_str(text, format)]. *)
  parse_datetime : text -> text -> option NaiveDateTime;
  (** [checked_add_signed(Duration::microseconds(n))]. *)
  add_microseconds : Z -> NaiveDateTime -> option NaiveDateTime;
  (** [format("%Y-%m-%d %H:%M:%S")]. *)
  datetime_text : NaiveDateTime -> text;
  subsec_millis : NaiveDateTime -> N;
  (** Seconds east of UTC, of a local time (if it exists) and now. *)
  local_minus_utc : NaiveDateTime -> option Z;
  now_minus_utc : Z
}.

(** [format!("{n:0width$}")]. *)
Definition padded (width : nat) (n : N) : text := let digits := show_N n in repeat 48%N (width - length digits) ++ digits.

(** ** Escaping *)

Inductive GridSubControlEscape : Set := BackslashZ | Hex.

Definition grid_sub_control_escape (database_type : option DatabaseType) : option GridSubControlEscape :=
  if opt_in database_type [Mysql; Doris; StarRocks; Goldendb] then Some BackslashZ
  else if opt_in database_type [ClickHouse; Snowflake] then Some Hex
  else None.

Definition SUB : char := 26%N.
Definition NUL : char := 0%N.

Definition escape_grid_sub_control (s : text) (escape : GridSubControlEscape) : text :=
  if negb (existsb (fun c => (c =? SUB)%N || (c =? NUL)%N) s) then s
  else
    let sub_control := match escape with BackslashZ => %"\Z" | Hex => %"\x1a" end in
    replace_char SUB sub_control (replace_char NUL %"\0" s).

Definition is_sqlite_literal_database (database_type : option DatabaseType) : bool := opt_in database_type [Sqlite; Rqlite; Turso; CloudflareD1].

Definition keeps_literal_backslashes (database_type : option DatabaseType) : bool :=
  opt_in database_type
    [Oracle; OceanbaseOracle; Dameng; Yashandb; Oscar; Xugu; Gaussdb; OpenGauss; Kingbase; Highgo; Uxdb; Vastbase; Gbase8c; Kwdb].

(** Backslashes and then quotes doubled. *)
Definition escape_quotes_and_backslashes (s : text) : text := double_char squote (double_char bslash s).

(** The last step of [format_grid_sql_literal_with_identifier_quote]: the escaped text of an ordinary literal. *)
Definition escaped_text (database_type : option DatabaseType) (literal_text : text) : text :=
  if opt_in database_type [Neo4j] then replace_char squote [bslash; squote] (double_char bslash literal_text)
  else if is_sqlite_literal_database database_type || keeps_literal_backslashes database_type then double_char squote literal_text
  else
    let escaped := escape_quotes_and_backslashes literal_text in
    match grid_sub_control_escape database_type with
    | Some escape => escape_grid_sub_control escaped escape
    | None => escaped
    end.

(** The segments between line breaks; [segment] is the open one, last character first. *)
Fixpoint sqlserver_parts_from (segment s : text) : list text :=
  let flush := if is_empty segment then [] else [%"N'" ++ double_char squote (rev segment) ++ %"'"] in
  match s with
  | [] => flush
  | ch :: s' =>
      if (ch =? cr)%N then flush ++ %"NCHAR(13)" :: sqlserver_parts_from [] s'
      else if (ch =? nl)%N then flush ++ %"NCHAR(10)" :: sqlserver_parts_from [] s'
      else sqlserver_parts_from (ch :: segment) s'
  end.

Definition SQLSERVER_NVARCHAR_LITERAL_MAX_CHARS : nat := Z.to_nat 4000.

Definition format_sqlserver_unicode_literal (s : text) : text :=
  let parts := sqlserver_parts_from [] s in
  if is_empty parts then %"N''"
  else
    let parts :=
      if Nat.ltb 1 (length parts) && Nat.ltb SQLSERVER_NVARCHAR_LITERAL_MAX_CHARS (utf16_len s)
      then %"CAST(N'' AS NVARCHAR(MAX))" :: parts else parts in
    join %" + " parts.

(** ** Arrays ([value_literals.rs]) *)

Definition upper_hex (n : N) : char := if (n <? 10)%N then (48 + n)%N else (55 + n)%N.

Definition postgres_escape_char (c : char) : text :=
  if (c =? bslash)%N then [bslash; bslash]
  else if (c =? nl)%N then %"\n"
  else if (c =? cr)%N then %"\r"
  else if (c =? tab)%N then %"\t"
  else if (c =? 8)%N then %"\b"
  else if (c =? 12)%N then %"\f"
  else if (c =? squote)%N then [squote; squote]
  else if (c <? 32)%N || (c =? 127)%N then %"\x" ++ [upper_hex (c / 16); upper_hex (c mod 16)]
  else [c].

Definition quote_postgres_string_literal (value : text) : text :=
  if negb (existsb (N.eqb bslash) value) && negb (existsb (fun c => (c <? 32)%N || (c =? 127)%N) value) then quote_string_literal value
  else %"E'" ++ (value ≫= postgres_escape_char) ++ %"'".

Section Literals.

Context `{JsonCodec} `{Chrono}.

Definition array_quoted (s : text) : text := [dquote] ++ replace_char dquote [bslash; dquote] (double_char bslash s) ++ [dquote].

Definition LBRACE : text := [123%N].
Definition RBRACE : text := [125%N].

Fixpoint format_pg_array_element (val : Value) : text :=
  match val with
  | Null => %"NULL"
  | Array l => if is_empty l then %"{}" else LBRACE ++ join %"," (map format_pg_array_element l) ++ RBRACE
  | String s => array_quoted s
  | Number n => number_text n
  | Bool b => if b then %"true" else %"false"
  | Object _ => array_quoted (value_text val)
  end.

Definition format_pg_array_text (arr : list Value) : text := LBRACE ++ join %"," (map format_pg_array_element arr) ++ RBRACE.

Definition format_pg_array_sql_literal (arr : list Value) : text :=
  if is_empty arr then %"'{}'" else quote_postgres_string_literal (format_pg_array_text arr).

Fixpoint format_ch_array_element (val : Value) : text :=
  match val with
  | Null => %"NULL"
  | Array l => if is_empty l then %"[]" else %"[" ++ join %"," (map format_ch_array_element l) ++ %"]"
  | String s => %"'" ++ escape_quotes_and_backslashes s ++ %"'"
  | Number n => number_text n
  | Bool b => if b then %"true" else %"false"
  | Object _ => %"'" ++ escape_quotes_and_backslashes (value_text val) ++ %"'"
  end.

Definition format_ch_array_sql_literal (arr : list Value) : text :=
  if is_empty arr then %"[]" else %"[" ++ join %"," (map format_ch_array_element arr) ++ %"]".

Definition postgres_json_array_element_type (database_type : option DatabaseType) (column_info : option DataGridColumnInfo.t) : option text :=
  if negb (opt_in database_type [Postgres]) then None
  else
    column ← column_info;
    let data_type := lower (trim (DataGridColumnInfo.data_type column)) in
    if text_in data_type [%"json[]"; %"_json"] then Some %"json"
    else if text_in data_type [%"jsonb[]"; %"_jsonb"] then Some %"jsonb"
    else None.

Definition json_array_element (element_type : text) (value : Value) : text :=
  match value with
  | Null => %"NULL"
  | _ =>
      let json :=
        match value with
        | String s => match parse_value s with Some v => value_text v | None => value_text (String s) end
        | _ => value_text value
        end in
      %"E'" ++ escape_quotes_and_backslashes json ++ %"'::" ++ element_type
  end.

Definition format_postgres_json_array_sql_literal (arr : list Value) (element_type : text) : text :=
  if is_empty arr then %"ARRAY[]::" ++ element_type ++ %"[]"
  else %"ARRAY[" ++ join %", " (map (json_array_element element_type) arr) ++ %"]".

(** ** Bits and bytes *)

Definition is_mysql_datetime_literal_database (database_type : option DatabaseType) : bool :=
  opt_in database_type [Mysql; Doris; StarRocks; Goldendb; Sundb].

Definition is_mysql_geometry_literal_database (database_type : option DatabaseType) : bool :=
  opt_in database_type [Mysql; Doris; StarRocks; Goldendb; Sundb].

Definition is_mysql_bit_literal_column (database_type : option DatabaseType) (column_info : option DataGridColumnInfo.t)
    (identifier_quote : option text) : bool :=
  (is_mysql_datetime_literal_database database_type
   || (opt_in database_type [Kingbase] && match identifier_quote with Some q => text_eqb q [backtick] | None => false end))
  && typed is_bit_column_type column_info.

Definition is_kingbase_bit_literal_column (database_type : option DatabaseType) (column_info : option DataGridColumnInfo.t) : bool :=
  opt_in database_type [Kingbase] && typed is_bit_column_type column_info.

Definition is_bit_literal_column (database_type : option DatabaseType) (column_info : option DataGridColumnInfo.t) : bool :=
  negb (opt_in database_type [Postgres]) && typed is_bit_column_type column_info.

Definition is_bit (c : char) : bool := (c =? 48)%N || (c =? 49)%N.

(** The text of a quoted bit string has its quotes at two characters. *)
Definition bit_slice_panics (trimmed : text) : bool :=
  starts_with %"b'" (lower trimmed) && ends_with [squote] trimmed && (byte_len trimmed - 1 <? 2)%N.

(** [b'...'] with at least one bit between the quotes; where [bit_slice_panics] the source panics on its slice. *)
Definition quoted_bits (trimmed : text) : option text :=
  if starts_with %"b'" (lower trimmed) && ends_with [squote] trimmed then
    let bits := take (length trimmed - 3) (drop 2 trimmed) in
    if negb (is_empty bits) && forallb is_bit bits then Some (%"b'" ++ bits ++ %"'") else None
  else None.

Definition format_mysql_bit_literal_text (s : text) : option text :=
  let trimmed := trim s in
  if eq_ignore_ascii_case trimmed %"true" then Some %"1"
  else if eq_ignore_ascii_case trimmed %"false" then Some %"0"
  else if forallb is_ascii_digit trimmed && negb (is_empty trimmed) then
    Some (if Nat.eqb (length trimmed) 1 then trimmed else if forallb is_bit trimmed then %"b'" ++ trimmed ++ %"'" else trimmed)
  else quoted_bits trimmed.

Definition format_kingbase_bit_literal_text (s : text) : option text :=
  let trimmed := trim s in
  if eq_ignore_ascii_case trimmed %"true" then Some %"b'1'"
  else if eq_ignore_ascii_case trimmed %"false" then Some %"b'0'"
  else if negb (is_empty trimmed) && forallb is_bit trimmed then Some (%"b'" ++ trimmed ++ %"'")
  else quoted_bits trimmed.

Definition after_0x (s : text) : option text := match strip_prefix %"0x" s with Some hex => Some hex | None => strip_prefix %"0X" s end.

Definition hex_pairs (hex : text) : bool := (byte_len hex mod 2 =? 0)%N && forallb is_ascii_hexdigit hex.

Definition is_mysql_binary_literal_column (database_type : option DatabaseType) (column_info : option DataGridColumnInfo.t) : bool :=
  opt_in database_type [Mysql] && typed is_mysql_binary_column_type column_info.

Definition format_mysql_binary_literal_text (s : text) : option text :=
  let trimmed := trim s in
  hex ← strip_prefix %"0x" trimmed;
  if forallb is_ascii_hexdigit hex then Some (if is_empty hex then %"X''" else trimmed) else None.

Definition is_sqlserver_binary_literal_column (database_type : option DatabaseType) (column_info : option DataGridColumnInfo.t) : bool :=
  opt_in database_type [SqlServer]
  && typed (fun ty => text_in (before_any [lparen; space; tab; nl] (unquoted_type ty)) [%"binary"; %"varbinary"; %"timestamp"; %"rowversion"])
       column_info.

Definition format_sqlserver_binary_literal_text (s : text) : option text :=
  hex ← after_0x (trim s);
  if hex_pairs hex then Some (%"0x" ++ hex) else None.

Definition is_postgres_binary_literal_column (database_type : option DatabaseType) (column_info : option DataGridColumnInfo.t) : bool :=
  opt_in database_type [Postgres] && typed (is_type %"bytea") column_info.

Definition format_postgres_binary_literal_text (s : text) : option text :=
  hex ← after_0x (trim s);
  if hex_pairs hex then Some (%"decode('" ++ hex ++ %"', 'hex')") else None.

Definition is_oracle_temporal_literal_database (database_type : option DatabaseType) : bool := opt_in database_type [Oracle; OceanbaseOracle].

Definition is_oracle_raw_literal_column (database_type : option DatabaseType) (column_info : option DataGridColumnInfo.t) : bool :=
  is_oracle_temporal_literal_database database_type && typed is_oracle_raw_column_type column_info.

Definition format_oracle_raw_literal_text (s : text) : option text :=
  hex ← strip_prefix %"0x" s;
  if hex_pairs hex then Some (%"HEXTORAW('" ++ hex ++ %"')") else None.

Definition hex_value (c : char) : N :=
  if is_ascii_digit c then (c - 48)%N else if is_ascii_uppercase c then (c - 55)%N else (c - 87)%N.

Fixpoint decode_hex (hex : text) : text :=
  match hex with a :: b :: rest => (16 * hex_value a + hex_value b)%N :: decode_hex rest | _ => [] end.

Definition uuid_shape (bytes : text) : bool :=
  Nat.eqb (length bytes) 36
  && forallb id (imap (fun i b => if existsb (Nat.eqb i) [8; 13; 18; 23] then (b =? dash)%N else is_ascii_hexdigit b) bytes).

Definition slice_of (a b : nat) (s : text) : text := take (b - a) (drop a s).

Definition format_hex_uuid_literal (s : text) : option text :=
  hex ← after_0x (trim s);
  if negb (forallb (fun c => (c <? 128)%N) hex) then None
  else if Nat.eqb (length hex) 72 && forallb is_ascii_hexdigit hex && uuid_shape (decode_hex hex) then Some (%"'" ++ decode_hex hex ++ %"'")
  else if Nat.eqb (length hex) 32 && forallb is_ascii_hexdigit hex then
    let l := lower hex in
    Some (%"'" ++ join %"-" [slice_of 0 8 l; slice_of 8 12 l; slice_of 12 16 l; slice_of 16 20 l; slice_of 20 32 l] ++ %"'")
  else None.

(** ** Times *)

Record Rfc3339Parts : Set := mk_parts { date : text; time : text; fraction : option text; zone : text }.

Definition is_timezone_offset (value : text) : bool :=
  (byte_len value =? 6)%N && (byte_is 0 43%N value || byte_is 0 dash value) && byte_is 3 colon value
  && byte_digit 1 value && byte_digit 2 value && byte_digit 4 value && byte_digit 5 value.

(** A fraction of at most nine digits at the front, and what follows it. *)
Definition leading_fraction (rest : text) : option (option text * text) :=
  match rest with
  | c :: digits =>
      if (c =? 46)%N then
        let n := length (take_while is_ascii_digit digits) in
        if Nat.eqb n 0 || Nat.ltb 9 n then None else Some (Some (46%N :: take n digits), drop n digits)
      else Some (None, rest)
  | [] => Some (None, [])
  end.

Definition dashes_of_a_date (s : text) : bool := byte_is 4 dash s && byte_is 7 dash s.
Definition colons_of_a_time (s : text) : bool := byte_is 13 colon s && byte_is 16 colon s.
Definition date_time_separator (s : text) : bool := byte_is 10 84%N s || byte_is 10 space s.

Definition regex_like_rfc3339 (s : text) : option Rfc3339Parts :=
  if (byte_len s <? 20)%N || negb (dashes_of_a_date s) || negb (date_time_separator s) || negb (colons_of_a_time s) then None
  else
    date ← get_range 0 10 s;
    time ← get_range 11 19 s;
    rest ← get_from 19 s;
    '(fraction, zone) ← leading_fraction rest;
    if text_eqb zone %"Z" || text_eqb zone %"z" || is_timezone_offset zone then Some (mk_parts date time fraction zone) else None.

Definition regex_like_local_datetime (s : text) : option Rfc3339Parts :=
  if (byte_len s <? 10)%N || negb (dashes_of_a_date s) then None
  else
    date ← get_range 0 10 s;
    if (byte_len s =? 10)%N then Some (mk_parts date %"00:00:00" None [])
    else if negb (date_time_separator s) || (byte_len s <? 19)%N || negb (colons_of_a_time s) then None
    else
      time ← get_range 11 19 s;
      rest ← get_from 19 s;
      '(fraction, after) ← leading_fraction rest;
      if is_empty after then Some (mk_parts date time fraction []) else None.

(** A zone such as [+8:00] gets its leading zero. *)
Definition oracle_normalized_zone (zone : text) : option text :=
  if is_timezone_offset zone then Some zone
  else if (byte_len zone =? 5)%N && (byte_is 0 43%N zone || byte_is 0 dash zone) && byte_digit 1 zone && byte_is 2 colon zone
          && byte_digit 3 zone && byte_digit 4 zone
  then Some (take 1 zone ++ [48%N] ++ drop 1 zone) else None.

Definition regex_like_oracle_temporal (s : text) : option Rfc3339Parts :=
  match regex_like_rfc3339 s with
  | Some parts => Some parts
  | None =>
      match rsplit_once space s with
      | Some (datetime, zone) =>
          match oracle_normalized_zone zone with
          | Some zone =>
              parts ← regex_like_local_datetime datetime;
              Some (mk_parts (date parts) (time parts) (fraction parts) zone)
          | None => regex_like_local_datetime s
          end
      | None => regex_like_local_datetime s
      end
  end.

Inductive OracleTemporalKind : Set := ODate | OTimestamp | OTimestampWithTimeZone.

Definition oracle_temporal_column_kind (data_type : text) : option OracleTemporalKind :=
  let lowered := lower (trim data_type) in
  let base := before_any [lparen; space] lowered in
  if text_eqb base %"date" then Some ODate
  else if text_eqb base %"timestamp" then
    Some (if contains %"with time zone" lowered || contains %"with local time zone" lowered then OTimestampWithTimeZone else OTimestamp)
  else None.

Definition oracle_timestamp_format_mask (has_fraction : bool) : text :=
  if has_fraction then %"YYYY-MM-DD HH24:MI:SS.FF" else %"YYYY-MM-DD HH24:MI:SS".

Definition oracle_timezone_suffix (zone : text) : text := if eq_ignore_ascii_case zone %"z" then %"+00:00" else zone.

Definition oracle_temporal_parts_are_midnight (parts : Rfc3339Parts) : bool :=
  text_eqb (time parts) %"00:00:00"
  && match fraction parts with Some f => forallb (N.eqb 48%N) (drop_while (N.eqb 46%N) f) | None => true end.

Definition format_oracle_temporal_literal (s : text) (data_type : option text) : option text :=
  data_type ← data_type;
  kind ← oracle_temporal_column_kind data_type;
  parts ← regex_like_oracle_temporal s;
  let datetime := date parts ++ %" " ++ time parts ++ or_default (fraction parts) in
  let mask := oracle_timestamp_format_mask (existsb (N.eqb 46%N) datetime) in
  let timestamp := %"TO_TIMESTAMP('" ++ datetime ++ %"', '" ++ mask ++ %"')" in
  match kind with
  | ODate =>
      if oracle_temporal_parts_are_midnight parts then Some (%"DATE '" ++ date parts ++ %"'")
      else Some (%"TO_DATE('" ++ date parts ++ %" " ++ time parts ++ %"', 'YYYY-MM-DD HH24:MI:SS')")
  | OTimestamp => Some timestamp
  | OTimestampWithTimeZone =>
      if is_empty (zone parts) then Some timestamp
      else Some (%"TO_TIMESTAMP_TZ('" ++ datetime ++ %" " ++ oracle_timezone_suffix (zone parts) ++ %"', '" ++ mask ++ %" TZH:TZM')")
  end.

Definition normalize_mysql_fractional_seconds (fraction : option text) : text := take 7 (or_default fraction).

Definition format_mysql_temporal_literal_text (s : text) (data_type : option text) : text :=
  match regex_like_rfc3339 s with
  | None => s
  | Some parts =>
      let time_text := time parts ++ normalize_mysql_fractional_seconds (fraction parts) in
      match temporal_column_kind data_type with
      | Some kind =>
          if text_eqb kind %"date" then date parts
          else if text_eqb kind %"time" then time_text
          else date parts ++ %" " ++ time_text
      | None => date parts ++ %" " ++ time_text
      end
  end.

Definition parse_tdengine_timestamp (s : text) : option (text * text * option text) :=
  if (byte_len s <? 19)%N || negb (dashes_of_a_date s) || negb (byte_is 10 space s) || negb (colons_of_a_time s) then None
  else
    date ← get_range 0 10 s;
    time ← get_range 11 19 s;
    rest ← get_from 19 s;
    if is_empty rest then Some (date, time, None)
    else
      fraction ← strip_prefix %"." rest;
      if is_empty fraction || (9 <? byte_len fraction)%N || negb (forallb is_ascii_digit fraction) then None
      else Some (date, time, Some (46%N :: fraction)).

Definition normalize_fractional_seconds (fraction : option text) : text :=
  match fraction with
  | Some f => if Nat.leb 4 (length f) then take 4 f else f ++ repeat 48%N (4 - length f)
  | None => %".000"
  end.

Definition local_timezone_offset_suffix (s : text) : text :=
  let local := naive ← parse_datetime (map (fun c => if (c =? space)%N then 84%N else c) s) %"%Y-%m-%dT%H:%M:%S%.f"; local_minus_utc naive in
  let offset_minutes := Z.quot (default now_minus_utc local) (-60) in
  let abs := Z.abs_N offset_minutes in
  (if (offset_minutes <=? 0)%Z then %"+" else %"-") ++ padded 2 (abs / 60) ++ %":" ++ padded 2 (abs mod 60).

Definition format_tdengine_timestamp_literal_text (s : text) : text :=
  match parse_tdengine_timestamp s with
  | None => s
  | Some (date, time, fraction) => date ++ %"T" ++ time ++ normalize_fractional_seconds fraction ++ local_timezone_offset_suffix s
  end.

(** ** SQL Server times ([sqlserver_temporal.rs]) *)

Inductive SqlServerTemporalKind : Set :=
| KDate | KTime (scale : nat) | KSmallDateTime | KDateTime | KDateTime2 (scale : nat) | KDateTimeOffset (scale : nat).

Definition temporal_scale (column_type : text) : option nat :=
  '(_, after) ← split_once lparen column_type;
  '(inner, _) ← split_once rparen after;
  let inner := trim inner in
  scale ← parse_digits 255 (if head_is 43%N inner then drop 1 inner else inner);
  Some (Nat.min (N.to_nat scale) 7).

Definition sqlserver_temporal_kind (column_type : text) : option SqlServerTemporalKind :=
  let lowered := lower (trim column_type) in
  let base := before_any [lparen; space; tab; nl] lowered in
  let scale := default 7 (temporal_scale lowered) in
  if text_in base [%"date"; %"daten"] then Some KDate
  else if text_eqb base %"smalldatetime" then Some KSmallDateTime
  else if text_in base [%"datetime"; %"datetimen"] then Some KDateTime
  else if text_eqb base %"datetime4" then Some KSmallDateTime
  else if text_eqb base %"datetime2" then Some (KDateTime2 scale)
  else if text_in base [%"time"; %"timen"] then Some (KTime scale)
  else if text_in base [%"datetimeoffset"; %"datetimeoffsetn"] then Some (KDateTimeOffset scale)
  else None.

Record SqlServerTemporalParts : Set := mk_temporal { t_date : text; t_time : text; t_offset : option text }.

Definition is_date_prefix (s : text) : bool :=
  (10 <=? byte_len s)%N && dashes_of_a_date s && forallb (fun i => byte_digit i s) [0; 1; 2; 3; 5; 6; 8; 9]%N.

Definition split_time_and_offset (value : text) : option (text * option text) :=
  if (byte_len value <? 8)%N || negb (byte_is 2 colon value && byte_is 5 colon value)
     || negb (forallb (fun i => byte_digit i value) [0; 1; 3; 4; 6; 7]%N)
  then None
  else
    let digits := if byte_is 8 46%N value then length (take_while is_ascii_digit (drop 9 value)) else 0 in
    if byte_is 8 46%N value && Nat.eqb digits 0 then None
    else
      let end_ := if byte_is 8 46%N value then 9 + digits else 8 in
      let time := take end_ value in
      let suffix := trim (drop end_ value) in
      if is_empty suffix then Some (time, None)
      else if eq_ignore_ascii_case suffix %"z" then Some (time, Some %"+00:00")
      else if is_timezone_offset suffix then Some (time, Some suffix)
      else None.

Definition parse_sqlserver_temporal (value : text) : option SqlServerTemporalParts :=
  let trimmed := trim value in
  if is_date_prefix trimmed then
    let date := take 10 trimmed in
    let rest := trim_start (drop 10 trimmed) in
    let rest := if head_is 84%N rest || head_is 116%N rest then trim_start (drop 1 rest) else rest in
    if is_empty rest then Some (mk_temporal date %"00:00:00" None)
    else
      '(time, offset) ← split_time_and_offset rest;
      Some (mk_temporal date time offset)
  else
    '(time, offset) ← split_time_and_offset trimmed;
    Some (mk_temporal %"1900-01-01" time offset).

Definition format_sqlserver_time_text (value : text) (scale : nat) : text :=
  let '(base, fraction) := match split_once 46%N value with Some p => p | None => (value, []) end in
  if Nat.eqb scale 0 then base
  else
    let digits := take scale (take_while is_ascii_digit fraction) in
    let digits := digits ++ repeat 48%N (scale - length digits) in
    if forallb (N.eqb 48%N) digits then base else base ++ %"." ++ digits.

Definition format_sqlserver_datetime_display (value : NaiveDateTime) : text :=
  let rounded := default value (add_microseconds 500 value) in
  let base := datetime_text rounded in
  let millis := subsec_millis rounded in
  if (millis =? 0)%N then base else base ++ %"." ++ padded 3 millis.

Definition format_sqlserver_datetime_parts (date time : text) : text :=
  match parse_datetime (date ++ %" " ++ time) %"%Y-%m-%d %H:%M:%S%.f" with
  | Some value => format_sqlserver_datetime_display value
  | None => date ++ %" " ++ format_sqlserver_time_text time 3
  end.

Definition normalize_sqlserver_temporal_literal (value : text) (column_type : option text) : option text :=
  column_type ← column_type;
  kind ← sqlserver_temporal_kind column_type;
  parts ← parse_sqlserver_temporal value;
  let date := t_date parts in
  let time := t_time parts in
  match kind with
  | KDate => Some date
  | KTime scale => Some (format_sqlserver_time_text time scale)
  | KSmallDateTime => Some (date ++ %" " ++ format_sqlserver_time_text time 0)
  | KDateTime => Some (format_sqlserver_datetime_parts date time)
  | KDateTime2 scale => Some (date ++ %" " ++ format_sqlserver_time_text time scale)
  | KDateTimeOffset scale => offset ← t_offset parts; Some (date ++ %" " ++ format_sqlserver_time_text time scale ++ offset)
  end.

(** ** Cells *)

Definition bool_literal (database_type : option DatabaseType) (column_info : option DataGridColumnInfo.t) (value : bool) : text :=
  if is_kingbase_bit_literal_column database_type column_info then %"b'" ++ (if value then %"1" else %"0") ++ %"'"
  else if is_bit_literal_column database_type column_info || opt_in database_type [SqlServer] then if value then %"1" else %"0"
  else if value then %"TRUE" else %"FALSE".

Definition number_literal (database_type : option DatabaseType) (column_info : option DataGridColumnInfo.t) (number : JNumber) : text :=
  match (if is_kingbase_bit_literal_column database_type column_info then format_kingbase_bit_literal_text (number_text number) else None) with
  | Some literal => literal
  | None => number_text number
  end.

Definition array_literal (database_type : option DatabaseType) (column_info : option DataGridColumnInfo.t) (arr : list Value) : text :=
  match postgres_json_array_element_type database_type column_info with
  | Some element_type => format_postgres_json_array_sql_literal arr element_type
  | None =>
      if opt_in database_type [ClickHouse; Databend] then format_ch_array_sql_literal arr else format_pg_array_sql_literal arr
  end.

Definition manticore_typed_attribute_value (s : text) (column_info : option DataGridColumnInfo.t) : option Value :=
  column ← column_info;
  let data_type := lower (DataGridColumnInfo.data_type column) in
  if is_boolean_type data_type None && eq_ignore_ascii_case s %"true" then Some (Bool true)
  else if is_boolean_type data_type None && eq_ignore_ascii_case s %"false" then Some (Bool false)
  else if is_numeric_type data_type && is_numeric_literal s then Number <$> parse_number s
  else None.

(** The typed value is a boolean or a number, whose literal needs no second look. *)
Definition manticore_literal (database_type : option DatabaseType) (column_info : option DataGridColumnInfo.t) (s : text) : option text :=
  if negb (opt_in database_type [ManticoreSearch]) then None
  else
    typed_value ← manticore_typed_attribute_value s column_info;
    match typed_value with
    | Bool b => Some (bool_literal database_type column_info b)
    | Number n => Some (number_literal database_type column_info n)
    | _ => None
    end.

Definition data_type_of (column_info : option DataGridColumnInfo.t) : option text := DataGridColumnInfo.data_type <$> column_info.

(** The first format that recognises the text: integer timestamps, bytes, numbers. *)
Definition recognised_literal (database_type : option DatabaseType) (column_info : option DataGridColumnInfo.t) (s : text) : option text :=
  let attempt := fun (guard : bool) (f : text -> option text) => if guard then f s else None in
  let iotdb :=
    attempt (opt_in database_type [Iotdb]
             && typed (fun ty => eq_ignore_ascii_case (before_any [lparen; space] (trim ty)) %"timestamp") column_info)
      (fun s => show_Z <$> parse_i64 s) in
  let first := fun (a b : option text) => match a with Some x => Some x | None => b end in
  first iotdb
 (first (attempt (typed is_uuid_column_type column_info) format_hex_uuid_literal)
 (first (attempt (is_mysql_binary_literal_column database_type column_info) format_mysql_binary_literal_text)
 (first (attempt (is_sqlserver_binary_literal_column database_type column_info) format_sqlserver_binary_literal_text)
 (first (attempt (is_postgres_binary_literal_column database_type column_info) format_postgres_binary_literal_text)
 (first (attempt (is_oracle_raw_literal_column database_type column_info) format_oracle_raw_literal_text)
 (first (attempt (typed is_numeric_type column_info && is_numeric_literal s) Some)
        (manticore_literal database_type column_info s))))))).

Definition normalized_text (database_type : option DatabaseType) (column_info : option DataGridColumnInfo.t) (s : text) : text :=
  if opt_in database_type [Tdengine] then format_tdengine_timestamp_literal_text s
  else if opt_in database_type [SqlServer] then default s (normalize_sqlserver_temporal_literal s (data_type_of column_info))
  else if is_mysql_datetime_literal_database database_type
          && match column_info with Some column => is_temporal_column_type (DataGridColumnInfo.data_type column) | None => true end
  then format_mysql_temporal_literal_text s (data_type_of column_info)
  else s.

(** The quoted literal of a text. *)
Definition quoted_literal (database_type : option DatabaseType) (literal_text : text) : text :=
  if opt_in database_type [Postgres] && (existsb (N.eqb bslash) literal_text || existsb (N.eqb SUB) literal_text)
  then %"E'" ++ replace_char SUB %"\x1A" (escape_quotes_and_backslashes literal_text) ++ %"'"
  else if opt_in database_type [SqlServer] then format_sqlserver_unicode_literal literal_text
  else %"'" ++ escaped_text database_type literal_text ++ %"'".

Definition text_literal (database_type : option DatabaseType) (column_info : option DataGridColumnInfo.t) (s : text) : text :=
  match recognised_literal database_type column_info s with
  | Some literal => literal
  | None =>
      if is_empty s then if opt_in database_type [SqlServer] then %"N''" else %"''"
      else if is_mysql_geometry_literal_database database_type && typed is_geometry_column_type column_info
      then %"ST_GeomFromText('" ++ escape_quotes_and_backslashes s ++ %"')"
      else
        match (if is_oracle_temporal_literal_database database_type then format_oracle_temporal_literal s (data_type_of column_info) else None) with
        | Some literal => literal
        | None => quoted_literal database_type (normalized_text database_type column_info s)
        end
  end.

Definition bit_text_literal (database_type : option DatabaseType) (column_info : option DataGridColumnInfo.t) (identifier_quote : option text)
    (s : text) : option text :=
  match (if is_kingbase_bit_literal_column database_type column_info then format_kingbase_bit_literal_text s else None) with
  | Some literal => Some literal
  | None => if is_mysql_bit_literal_column database_type column_info identifier_quote then format_mysql_bit_literal_text s else None
  end.

Definition format_grid_sql_literal_with_identifier_quote (value : Value) (database_type : option DatabaseType)
    (column_info : option DataGridColumnInfo.t) (identifier_quote : option text) : text :=
  match value with
  | Null => %"NULL"
  | Bool b => bool_literal database_type column_info b
  | Number n => number_literal database_type column_info n
  | Array arr => array_literal database_type column_info arr
  | String s => default (text_literal database_type column_info s) (bit_text_literal database_type column_info identifier_quote s)
  | Object _ => text_literal database_type column_info (value_text value)
  end.

Definition format_grid_sql_literal (value : Value) (database_type : option DatabaseType) (column_info : option DataGridColumnInfo.t) : text :=
  format_grid_sql_literal_with_identifier_quote value database_type column_info None.

(** ** Large objects *)

Definition ORACLE_SQL_LITERAL_MAX_BYTES : N := 4000%N.
Definition ORACLE_LOB_LITERAL_CHUNK_BYTES : N := 3900%N.

Definition oracle_sql_literal_char_len (ch : char) : N := if (ch =? squote)%N then 2%N else len_utf8 ch.

Definition append_oracle_sql_literal_char (output : text) (ch : char) : text := output ++ (if (ch =? squote)%N then %"''" else [ch]).

Definition append_oracle_sql_literal_characters (output s : text) : text := fold_left append_oracle_sql_literal_char s output.

(** The escaped contents of the chunks. *)
Fixpoint lob_chunks_from (current : text) (current_len : N) (s : text) : list text :=
  match s with
  | [] => if (0 <? current_len)%N then [current] else []
  | ch :: s' =>
      let char_len := oracle_sql_literal_char_len ch in
      if (0 <? current_len)%N && (ORACLE_LOB_LITERAL_CHUNK_BYTES <? current_len + char_len)%N
      then current :: lob_chunks_from (append_oracle_sql_literal_char [] ch) char_len s'
      else lob_chunks_from (append_oracle_sql_literal_char current ch) (current_len + char_len) s'
  end.

Definition format_oracle_lob_assignment_literal (s constructor : text) : text :=
  let escaped_len := fold_right (fun ch n => oracle_sql_literal_char_len ch + n)%N 0%N s in
  if (escaped_len <=? ORACLE_SQL_LITERAL_MAX_BYTES)%N then %"'" ++ append_oracle_sql_literal_characters [] s ++ %"'"
  else join %" || " (map (fun chunk => constructor ++ %"('" ++ chunk ++ %"')") (lob_chunks_from [] 0 s)).

Definition is_oceanbase_blob_column (database_type : option DatabaseType) (column_info : option DataGridColumnInfo.t) : bool :=
  opt_in database_type [OceanbaseOracle] && typed (is_type %"BLOB") column_info.

Definition oceanbase_blob_hex (value : Value) : option text :=
  s ← as_str value;
  hex ← strip_prefix %"0x" s;
  if hex_pairs hex then Some hex else None.

Definition oceanbase_blob_literal (value : Value) : text :=
  if is_null value then %"NULL"
  else match oceanbase_blob_hex value with
       | Some hex => if is_empty hex then %"EMPTY_BLOB()" else %"TO_BLOB(HEXTORAW('" ++ hex ++ %"'))"
       | None => %"TO_BLOB(HEXTORAW('invalid BLOB hex'))"
       end.

(** The literal of a character LOB, where the column has one and the value is a text. *)
Definition oracle_lob_literal (value : Value) (database_type : option DatabaseType) (column_info : option DataGridColumnInfo.t) : option text :=
  if opt_in database_type [Oracle; OceanbaseOracle] then
    column ← column_info;
    constructor ← oracle_character_lob_constructor (DataGridColumnInfo.data_type column);
    s ← as_str value;
    if opt_in database_type [OceanbaseOracle] && is_empty s && text_eqb constructor %"TO_CLOB" then Some %"EMPTY_CLOB()"
    else Some (format_oracle_lob_assignment_literal s constructor)
  else None.

Definition is_document (value : Value) : bool := match value with Array _ | Object _ => true | _ => false end.

Definition format_grid_assignment_sql_literal (value : Value) (database_type : option DatabaseType)
    (column_info : option DataGridColumnInfo.t) (identifier_quote : option text) : text :=
  if is_oceanbase_blob_column database_type column_info then oceanbase_blob_literal value
  else
    match oracle_lob_literal value database_type column_info with
    | Some literal => literal
    | None =>
        if is_document value && is_json_document_column column_info
        then format_grid_sql_literal_with_identifier_quote (String (value_text value)) database_type column_info identifier_quote
        else format_grid_sql_literal_with_identifier_quote value database_type column_info identifier_quote
    end.

Definition empty_string_saves_as_null (value : Value) (column_info : option DataGridColumnInfo.t) : bool :=
  match as_str value with
  | Some [] =>
      match column_info with
      | Some column => DataGridColumnInfo.is_nullable column && negb (is_textual_column_type (DataGridColumnInfo.data_type column))
      | None => false
      end
  | _ => false
  end.

Definition format_grid_save_sql_literal (value : Value) (database_type : option DatabaseType) (column_info : option DataGridColumnInfo.t)
    (identifier_quote : option text) : text :=
  if empty_string_saves_as_null value column_info then %"NULL"
  else format_grid_assignment_sql_literal value database_type column_info identifier_quote.

Definition format_grid_copy_insert_sql_literal (value : Value) (database_type : option DatabaseType)
    (column_info : option DataGridColumnInfo.t) (identifier_quote : option text) : text :=
  match (if is_oracle_temporal_literal_database database_type
         then s ← as_str value; format_oracle_temporal_literal s (data_type_of column_info) else None) with
  | Some literal => literal
  | None => format_grid_assignment_sql_literal value database_type column_info identifier_quote
  end.

Definition format_oracle_lob_export_literal (value : Value) (database_type : option DatabaseType) (data_type : option text)
    : text + option text :=
  match data_type with
  | Some data_type =>
      let blob := opt_in database_type [OceanbaseOracle] && is_type %"BLOB" data_type in
      if negb (is_oracle_temporal_literal_database database_type) then inr None
      else if negb blob && match oracle_character_lob_constructor data_type with Some _ => false | None => true end then inr None
      else if negb blob && match as_str value with Some [] => true | _ => false end then inr (Some %"EMPTY_CLOB()")
      else if blob && negb (is_null value) && match oceanbase_blob_hex value with Some _ => false | None => true end
      then inl %"OceanBase BLOB export requires NULL or 0x followed by complete hexadecimal byte pairs."
      else
        inr (Some (format_grid_assignment_sql_literal value database_type
                     (Some (DataGridColumnInfo.mk [] data_type true false None None)) None))
  | None => inr None
  end.

End Literals.
