(* ===== verification/GridPredicates.v ===== *)
(** * GridPredicates: names and row conditions of an edited grid ([data_grid_sql.rs],
      [build_primary_key_where] to [predicate_ident]; [sql_dialect/table_select.rs]).

    The condition that addresses a row, from its key or, without one, from all its
    values; and the statements that carry OceanBase's large objects. *)

From stdpp Require Import list.
From S2P Require Import Prelude DbTypes WriteClass SchemaTypes ViewDdl DdlProfile Identifiers DefaultLiteral GridTypes GridLiterals.

(** ** Names *)

Definition uses_connection_identifier_quote (database_type : option DatabaseType) (identifier_quote : option text) : bool :=
  let reported := match identifier_quote with Some _ => true | None => false end in
  opt_in database_type [Kingbase; Jdbc; Spanner]
  || (opt_in database_type [Kyuubi; Informix; Gbase8s; Gaussdb; OpenGauss; Postgres] && reported).

Definition quote_table_data_identifier (database_type : option DatabaseType) (name : text) (identifier_quote : option text) : text :=
  if negb (uses_connection_identifier_quote database_type identifier_quote) then quote_table_identifier database_type name
  else
    match identifier_quote with
    | None => quote_table_identifier database_type name
    | Some quote =>
        if opt_in database_type [Gaussdb; OpenGauss; Postgres] then quote_gaussdb_jdbc_identifier name quote
        else if is_empty quote then name
        else quoted_with quote name
    end.

Definition table_data_schema (database_type : option DatabaseType) (driver_profile schema : option text) : option text :=
  if opt_in database_type [Gbase8s]
     || (opt_in database_type [Informix] && match driver_profile with Some p => eq_ignore_ascii_case p %"gbase8s" | None => false end)
  then None else schema.

Definition first_some {A} (a b : option A) : option A := match a with Some x => Some x | None => b end.

Section Predicates.

Context `{JsonCodec} `{Chrono} `{PercentDecode} `{LetterTable} `{CharTable}.

Definition database_qualified_table_name (database_type : option DatabaseType) (catalog schema database : option text) (table_name : text)
    : option text :=
  let q := quote_table_identifier database_type in
  let database := non_blank database in
  let schema := non_blank schema in
  if opt_in database_type [ClickHouse] then
    namespace ← first_some database schema;
    Some (q namespace ++ dot ++ q table_name)
  else if opt_in database_type [Mysql; Goldendb; Doris; StarRocks] then
    namespace ← first_some schema database;
    Some (qualified_table_name_with_catalog database_type catalog (Some namespace) (Some namespace) table_name)
  else if opt_in database_type [SqlServer] then
    database ← database;
    schema ← schema;
    match parse_sqlserver_linked_schema_ref schema with
    | Some _ => None
    | None => Some (q database ++ dot ++ q schema ++ dot ++ q table_name)
    end
  else None.

Definition iris_table_name (schema : option text) (table_name : text) (identifier_quote : option text) : text :=
  let table := quote_iris_identifier table_name identifier_quote in
  match non_blank schema with
  | Some schema => quote_iris_identifier schema identifier_quote ++ dot ++ table
  | None => table
  end.

Definition table_data_qualified_table_name (database_type : option DatabaseType) (schema : option text) (table_name : text)
    (identifier_quote : option text) : text :=
  if opt_in database_type [Iris] then iris_table_name schema table_name identifier_quote
  else if opt_in database_type [Gbase8s] then quote_table_data_identifier database_type table_name identifier_quote
  else if negb (uses_connection_identifier_quote database_type identifier_quote) then qualified_table_name database_type schema table_name
  else
    let table := quote_table_data_identifier database_type table_name identifier_quote in
    match non_blank schema with
    | Some schema => quote_table_data_identifier database_type schema identifier_quote ++ dot ++ table
    | None => table
    end.

Definition data_grid_identifier (database_type : option DatabaseType) (name : text) (identifier_quote : option text) : text :=
  if opt_in database_type [Iris] then quote_iris_identifier name identifier_quote
  else quote_table_data_identifier database_type name identifier_quote.

Definition data_grid_qualified_table_name (database_type : option DatabaseType) (catalog schema database : option text) (table_name : text)
    (identifier_quote : option text) : text :=
  if opt_in database_type [Iris] then iris_table_name schema table_name identifier_quote
  else if uses_connection_identifier_quote database_type identifier_quote
  then table_data_qualified_table_name database_type schema table_name identifier_quote
  else qualified_table_name_with_catalog database_type catalog schema database table_name.

Definition data_grid_generated_table_name (database_type : option DatabaseType) (catalog schema database : option text) (table_name : text)
    (identifier_quote : option text) (include_database_name : bool) : text :=
  match (if include_database_name then database_qualified_table_name database_type catalog schema database table_name else None) with
  | Some qualified => qualified
  | None => data_grid_qualified_table_name database_type catalog schema database table_name identifier_quote
  end.

Definition data_grid_save_table_name (options : SaveOptions.t) (schema : option text) : text :=
  let meta := SaveOptions.table_meta options in
  data_grid_generated_table_name (SaveOptions.database_type options) (DataGridTableMeta.catalog meta) schema (DataGridTableMeta.database meta)
    (DataGridTableMeta.table_name meta) (SaveOptions.identifier_quote options) (SaveOptions.include_database_name options).

Definition predicate_ident (database_type : option DatabaseType) (name : text) (identifier_quote : option text) : text :=
  if is_synthetic_row_id database_type (Some name) then
    if uses_postgres_ctid database_type then %"(tableoid::text || ':' || ctid::text || ':' || xmin::text)"
    else if uses_xugu_row_id database_type then %"ROWID"
    else %"ROWIDTOCHAR(ROWID)"
  else data_grid_identifier database_type name identifier_quote.

(** ** Engines *)

Definition is_postgres_like_pattern_database (database_type : option DatabaseType) : bool :=
  opt_in database_type [Postgres; Redshift; Gaussdb; Kwdb; Kingbase; Highgo; Uxdb; Vastbase; Gbase8c; OpenGauss].

Definition uses_keyless_row_predicate (database_type : option DatabaseType) : bool :=
  opt_in database_type
    [Mysql; ManticoreSearch; Postgres; Sqlite; Rqlite; Turso; CloudflareD1; DuckDb; SqlServer; Oracle; Doris; StarRocks; Redshift; Dameng;
     Gaussdb; Kwdb; Kingbase; Highgo; Uxdb; Gbase8c; Vastbase; Goldendb; Yashandb; Oscar; Databricks; SapHana; Teradata; Vertica; Firebird;
     Exasol; OpenGauss; Questdb; OceanbaseOracle; Gbase; Gbase8s; Access; H2; Snowflake; Db2; Informix; Bigquery; Sundb; Databend; Hive;
     Iris].

Definition uses_mysql_binary_text_predicate (database_type : option DatabaseType) (value : Value) (column_info : option DataGridColumnInfo.t)
    : bool :=
  opt_in database_type [Mysql] && match value with String _ => true | _ => false end && typed is_textual_column_type column_info.

(** ** OceanBase large objects *)

(** [l.chunks(n)]; every round takes an element. *)
Fixpoint chunks_from (fuel n : nat) (l : text) : list text :=
  match fuel, l with
  | S fuel', _ :: _ => take n l :: chunks_from fuel' n (drop n l)
  | _, _ => []
  end.

Definition chunks (n : nat) (l : text) : list text := chunks_from (length l) n l.

Definition half (s : text) : text := show_N (N.of_nat (length s) / 2).

Definition oceanbase_blob_predicate (ident hex : text) : text :=
  if (4000 <? byte_len hex)%N then
    %"(DBMS_LOB.GETLENGTH(" ++ ident ++ %") = " ++ half hex ++ %" AND DBMS_LOB.COMPARE(" ++ ident ++ %", TO_BLOB(HEXTORAW('" ++ hex
    ++ %"'))) = 0)"
  else
    let predicates :=
      (%"DBMS_LOB.GETLENGTH(" ++ ident ++ %") = " ++ half hex)
      :: imap (fun index chunk =>
           %"DBMS_LOB.SUBSTR(" ++ ident ++ %", " ++ half chunk ++ %", " ++ show_N (N.of_nat index * 1000 + 1) ++ %") = HEXTORAW('" ++ chunk
           ++ %"')") (chunks 2000 hex) in
    %"(" ++ join %" AND " predicates ++ %")".

Definition clob_condition (ident chunk : text) (count offset : nat) : text :=
  %"UTL_RAW.CAST_TO_RAW(DBMS_LOB.SUBSTR(" ++ ident ++ %", " ++ show_nat count ++ %", " ++ show_nat offset
  ++ %")) = UTL_RAW.CAST_TO_RAW('" ++ chunk ++ %"')".

Fixpoint clob_conditions (ident chunk : text) (count offset : nat) (s : text) : list text :=
  match s with
  | [] => if Nat.ltb 0 count then [clob_condition ident chunk count offset] else []
  | ch :: s' =>
      if (2000 <? byte_len chunk + oracle_sql_literal_char_len ch)%N
      then clob_condition ident chunk count offset :: clob_conditions ident (append_oracle_sql_literal_char [] ch) 1 (offset + count) s'
      else clob_conditions ident (append_oracle_sql_literal_char chunk ch) (S count) offset s'
  end.

Definition oceanbase_lob_predicate (database_type : option DatabaseType) (ident : text) (value : Value)
    (column_info : option DataGridColumnInfo.t) : option text :=
  if is_oceanbase_blob_column database_type column_info then
    Some (if is_null value then ident ++ %" IS NULL"
          else match oceanbase_blob_hex value with Some hex => oceanbase_blob_predicate ident hex | None => %"1 = 0" end)
  else if negb (opt_in database_type [OceanbaseOracle])
          || negb (bool_decide ((column ← column_info; oracle_character_lob_constructor (DataGridColumnInfo.data_type column)) = Some %"TO_CLOB"))
  then None
  else if is_null value then Some (ident ++ %" IS NULL")
  else
    s ← as_str value;
    Some (%"(" ++ join %" AND " ((%"DBMS_LOB.GETLENGTH(" ++ ident ++ %") = " ++ show_nat (length s)) :: clob_conditions ident [] 0 1 s) ++ %")").

(** ** Conditions on a column *)

Record MysqlPlainEquality : Set := mk_plain { eq_column : text; eq_literal : text }.

Record MysqlKeyPredicate : Set := mk_predicate { sql : text; plain : option MysqlPlainEquality }.

Definition postgres_keyless_json_predicate (database_type : option DatabaseType) (ident literal : text)
    (column_info : option DataGridColumnInfo.t) : option text :=
  if negb (is_postgres_like_pattern_database database_type) then None
  else
    column ← column_info;
    let data_type := trim_matches dquote (after_last 46%N (lower (trim (DataGridColumnInfo.data_type column)))) in
    if text_eqb data_type %"json" then Some (ident ++ %"::text = " ++ literal ++ %"::text")
    else if text_eqb data_type %"jsonb" then Some (ident ++ %" = " ++ literal ++ %"::jsonb")
    else None.

Definition mysql_json_predicate_literal (literal : text) (database_type : option DatabaseType) (column_info : option DataGridColumnInfo.t) : text :=
  if opt_in database_type [Mysql] && typed (is_type %"json") column_info then %"CAST(" ++ literal ++ %" AS JSON)" else literal.

Definition build_column_predicate_with_plain (database_type : option DatabaseType) (column : text) (value : Value)
    (column_info : option DataGridColumnInfo.t) (use_binary_text_comparison : bool) (identifier_quote : option text)
    : text * option MysqlPlainEquality :=
  let ident := predicate_ident database_type column identifier_quote in
  if is_null value then (ident ++ %" IS NULL", None)
  else
    match oceanbase_lob_predicate database_type ident value column_info with
    | Some predicate => (predicate, None)
    | None =>
        let literal := format_grid_assignment_sql_literal value database_type column_info identifier_quote in
        if use_binary_text_comparison && uses_mysql_binary_text_predicate database_type value column_info
        then (%"BINARY " ++ ident ++ %" = " ++ literal, None)
        else
          match (if use_binary_text_comparison then postgres_keyless_json_predicate database_type ident literal column_info else None) with
          | Some predicate => (predicate, None)
          | None =>
              (ident ++ %" = " ++ mysql_json_predicate_literal literal database_type column_info, Some (mk_plain ident literal))
          end
    end.

Definition build_column_predicate (database_type : option DatabaseType) (column : text) (value : Value)
    (column_info : option DataGridColumnInfo.t) (use_binary_text_comparison : bool) (identifier_quote : option text) : text :=
  fst (build_column_predicate_with_plain database_type column value column_info use_binary_text_comparison identifier_quote).

Definition build_save_column_predicate (database_type : option DatabaseType) (column : text) (value : Value)
    (column_info : option DataGridColumnInfo.t) (use_binary_text_comparison : bool) (identifier_quote : option text) : text :=
  let ident := predicate_ident database_type column identifier_quote in
  if is_null value || empty_string_saves_as_null value column_info then ident ++ %" IS NULL"
  else
    match oceanbase_lob_predicate database_type ident value column_info with
    | Some predicate => predicate
    | None =>
        let literal := format_grid_save_sql_literal value database_type column_info identifier_quote in
        if use_binary_text_comparison && uses_mysql_binary_text_predicate database_type value column_info
        then %"BINARY " ++ ident ++ %" = " ++ literal
        else
          match (if use_binary_text_comparison then postgres_keyless_json_predicate database_type ident literal column_info else None) with
          | Some predicate => predicate
          | None => ident ++ %" = " ++ mysql_json_predicate_literal literal database_type column_info
          end
    end.

(** ** Conditions on a row *)

(** A condition for every column that has a source and is no row locator. *)
Definition row_conditions (condition : text -> Value -> text) (database_type : option DatabaseType) (columns : list (option text))
    (row : list Value) : list text :=
  omap (fun x => x) (imap (fun index column =>
    column ← column;
    if is_synthetic_row_id database_type (Some column) then None else Some (condition column (cell row index))) columns).

Definition build_row_where (database_type : option DatabaseType) (columns : list (option text)) (row : list Value)
    (column_info : list DataGridColumnInfo.t) (identifier_quote : option text) : text :=
  join %" AND " (row_conditions (fun column value =>
    build_column_predicate database_type column value (column_info_for column_info column) true identifier_quote) database_type columns row).

Definition build_save_row_where (database_type : option DatabaseType) (columns : list (option text)) (row : list Value)
    (column_info : list DataGridColumnInfo.t) (identifier_quote : option text) : text :=
  join %" AND " (row_conditions (fun column value =>
    build_save_column_predicate database_type column value (column_info_for column_info column) true identifier_quote) database_type columns row).

(** The table's oid, the row's position and the transaction that wrote it. *)
Definition parse_postgres_ctid_row_id (value : Value) : option (N * text * N) :=
  value ← as_str value;
  '(table_oid, rest) ← split_once colon value;
  table_oid ← parse_digits 4294967295 table_oid;
  '(ctid, xmin) ← split_once colon rest;
  ctid ← strip_prefix %"(" ctid;
  ctid ← strip_suffix %")" ctid;
  '(block, offset) ← split_once comma ctid;
  block ← parse_digits 4294967295 block;
  offset ← parse_digits 65535 offset;
  xmin ← parse_digits 4294967295 xmin;
  Some (table_oid, %"(" ++ show_N block ++ %"," ++ show_N offset ++ %")", xmin).

Definition build_postgres_ctid_predicate (value : Value) : option text :=
  '(table_oid, ctid, xmin) ← parse_postgres_ctid_row_id value;
  Some (%"tableoid = '" ++ show_N table_oid ++ %"'::oid AND ctid = '" ++ ctid ++ %"'::tid AND xmin = '" ++ show_N xmin ++ %"'::xid").

(** Every round takes two characters. *)
Fixpoint strip_parentheses_from (fuel : nat) (s : text) : text :=
  match fuel with
  | O => s
  | S fuel' =>
      match (inner ← strip_prefix %"(" s; strip_suffix %")" inner) with
      | Some inner => strip_parentheses_from fuel' inner
      | None => s
      end
  end.

Definition strip_outer_parentheses (s : text) : text := strip_parentheses_from (length s) (trim s).

Definition plain_equality_from_clause (clause : text) (p : MysqlPlainEquality) : option MysqlPlainEquality :=
  if eq_ignore_ascii_case (eq_literal p) %"null" then None
  else if text_eqb (strip_outer_parentheses clause) (eq_column p ++ %" = " ++ eq_literal p) then Some p
  else None.

(** The value of a key column; a key that is not found reads [NULL]. *)
Definition key_value (database_type : option DatabaseType) (columns : list (option text)) (row : list Value) (primary_key : text) : Value :=
  match find_column_index database_type columns primary_key with Some index => cell row index | None => Null end.

Definition key_predicates (database_type : option DatabaseType) (primary_keys : list text) (columns : list (option text)) (row : list Value)
    (column_info : list DataGridColumnInfo.t) (identifier_quote : option text) : list (text * option MysqlPlainEquality) :=
  map (fun primary_key =>
    build_column_predicate_with_plain database_type primary_key (key_value database_type columns row primary_key)
      (column_info_for column_info primary_key) false identifier_quote) primary_keys.

Definition build_primary_key_predicate (database_type : option DatabaseType) (primary_keys : list text) (columns : list (option text))
    (row : list Value) (column_info : list DataGridColumnInfo.t) (identifier_quote : option text) : MysqlKeyPredicate :=
  if is_empty primary_keys && uses_keyless_row_predicate database_type then
    match (if uses_postgres_ctid database_type then find_column_index database_type columns DBX_ROWID_COLUMN else None) with
    | Some row_id_index => mk_predicate (default %"FALSE" (build_postgres_ctid_predicate (cell row row_id_index))) None
    | None => mk_predicate (build_row_where database_type columns row column_info identifier_quote) None
    end
  else
    let parts := key_predicates database_type primary_keys columns row column_info identifier_quote in
    let clause := join %" AND " (map fst parts) in
    let claimed := match parts with [part] => snd part | _ => None end in
    mk_predicate clause (claimed ≫= plain_equality_from_clause clause).

Definition build_primary_key_where (database_type : option DatabaseType) (primary_keys : list text) (columns : list (option text))
    (row : list Value) (column_info : list DataGridColumnInfo.t) (identifier_quote : option text) : text :=
  sql (build_primary_key_predicate database_type primary_keys columns row column_info identifier_quote).

(** ** Statements *)

Definition data_grid_update_sql (database_type : option DatabaseType) (table sets where_clause : text) : text :=
  if opt_in database_type [ClickHouse] then %"ALTER TABLE " ++ table ++ %" UPDATE " ++ sets ++ %" WHERE " ++ where_clause
  else %"UPDATE " ++ table ++ %" SET " ++ sets ++ %" WHERE " ++ where_clause.

Definition data_grid_delete_sql (database_type : option DatabaseType) (table where_clause : text) : text :=
  if opt_in database_type [ClickHouse] then %"ALTER TABLE " ++ table ++ %" DELETE WHERE " ++ where_clause
  else %"DELETE FROM " ++ table ++ %" WHERE " ++ where_clause.

(** After an opening quote: the characters up to its end. *)
Fixpoint quoted_run (q : char) (l : text) : nat :=
  match l with
  | [] => 0
  | c :: l' =>
      if (c =? q)%N then match l' with d :: l'' => if (d =? q)%N then 2 + quoted_run q l'' else 1 | [] => 1 end
      else S (quoted_run q l')
  end.

Definition BLOB_PREFIX : text := %"TO_BLOB(HEXTORAW('".

(** A large literal at the front of the text, with the characters it takes. *)
Definition blob_at (l : text) : option (text * nat) :=
  hex_start ← strip_prefix BLOB_PREFIX l;
  end_ ← find_at %"'))" hex_start;
  let hex := take end_ hex_start in
  if (4000 <? byte_len hex)%N && hex_pairs hex then Some (hex, length BLOB_PREFIX + end_ + 3) else None.

(** The state counts the literals; a piece of the output is its text and the literal it stands for. *)
Definition blob_step (positional : bool) (count : nat) (c : char) (rest : text) : nat * list (text * list text) * nat :=
  match blob_at (c :: rest) with
  | Some (hex, n) => (S count, [(if positional then %"?" else %":dbx_lob_" ++ show_nat count, [hex])], n - 1)
  | None =>
      let n := if (c =? squote)%N || (c =? dquote)%N then quoted_run c rest else 0 in
      (count, [(c :: take n rest, [])], n)
  end.

Definition oceanbase_blob_literals (statement : text) (positional : bool) : text * list text :=
  let pieces := snd (scan_loop (blob_step positional) 0 0 (trim_end_matches semi statement)) in
  (concat (map fst pieces), concat (map snd pieces)).

Definition lob_name (index : nat) : text := %"dbx_lob_" ++ show_nat index.

Definition free_temporary (name : text) : text :=
  %"IF DBMS_LOB.ISTEMPORARY(" ++ name ++ %") = 1 THEN DBMS_LOB.FREETEMPORARY(" ++ name ++ %"); END IF;" ++ [nl].

Definition oceanbase_temporary_blob_statement (rewritten : text) (blobs : list text) (guard_row_count : bool) : text :=
  let indexes := seq 0 (length blobs) in
  let cleanup := concat (map (fun index => free_temporary (lob_name index)) indexes) ++ free_temporary %"dbx_sql" in
  %"DECLARE" ++ [nl] ++ %"dbx_sql CLOB;" ++ [nl]
  ++ concat (map (fun index => lob_name index ++ %" BLOB;" ++ [nl]) indexes)
  ++ %"BEGIN" ++ [nl] ++ %"dbx_sql := " ++ format_oracle_lob_assignment_literal rewritten %"TO_CLOB" ++ %";" ++ [nl]
  ++ concat (imap (fun index hex =>
       %"DBMS_LOB.CREATETEMPORARY(" ++ lob_name index ++ %", TRUE, DBMS_LOB.CALL);" ++ [nl]
       ++ concat (map (fun chunk =>
            %"DBMS_LOB.WRITEAPPEND(" ++ lob_name index ++ %", " ++ half chunk ++ %", HEXTORAW('" ++ chunk ++ %"'));" ++ [nl]) (chunks 2000 hex)))
       blobs)
  ++ %"EXECUTE IMMEDIATE dbx_sql USING " ++ join %", " (map lob_name indexes) ++ %";" ++ [nl]
  ++ (if guard_row_count
      then %"IF SQL%ROWCOUNT <> 1 THEN RAISE_APPLICATION_ERROR(-20001, 'LOB target changed or missing; reload before saving'); END IF;" ++ [nl]
      else [])
  ++ cleanup ++ %"EXCEPTION WHEN OTHERS THEN" ++ [nl] ++ cleanup ++ %"RAISE;" ++ [nl] ++ %"END;".

Definition oceanbase_blob_statement (statement : text) (guard_row_count : bool) : option text :=
  let '(rewritten, blobs) := oceanbase_blob_literals statement false in
  if is_empty blobs then None else Some (oceanbase_temporary_blob_statement rewritten blobs guard_row_count).

Definition data_grid_statement (database_type : option DatabaseType) (statement : text) : text :=
  match (if opt_in database_type [OceanbaseOracle] then oceanbase_blob_statement statement false else None) with
  | Some s => s
  | None => if opt_in database_type [ManticoreSearch] then statement else statement ++ %";"
  end.

Definition oceanbase_guarded_lob_statement (statement : text) : text :=
  match oceanbase_blob_statement statement true with
  | Some s => s
  | None =>
      %"BEGIN" ++ [nl] ++ statement ++ %";" ++ [nl] ++ %"IF SQL%ROWCOUNT <> 1 THEN" ++ [nl]
      ++ %"RAISE_APPLICATION_ERROR(-20001, 'LOB target changed or missing; reload before saving');" ++ [nl] ++ %"END IF;" ++ [nl] ++ %"END;"
  end.

Record BlobBoundStatement : Set := mk_bound { preview_sql : text; bound_sql : text; blob_parameters : list text }.

(** The statement to show and, for OceanBase, the one to execute. *)
Definition data_grid_save_statement (database_type : option DatabaseType) (statement : text) (guard_row_count : bool)
    : text * list BlobBoundStatement :=
  let preview := if guard_row_count then oceanbase_guarded_lob_statement statement else data_grid_statement database_type statement in
  if opt_in database_type [OceanbaseOracle] then
    let '(rewritten, blobs) := oceanbase_blob_literals statement true in
    let execution_sql :=
      if is_empty blobs then preview
      else if guard_row_count then
        %"BEGIN" ++ [nl] ++ rewritten ++ %";" ++ [nl]
        ++ %"IF SQL%ROWCOUNT <> 1 THEN RAISE_APPLICATION_ERROR(-20001, 'LOB target changed or missing; reload before saving'); END IF;" ++ [nl]
        ++ %"END;"
      else rewritten in
    (preview, [mk_bound preview execution_sql blobs])
  else (preview, []).

(** The conditions on large objects appended to a row's condition, and whether there were any. *)
Definition append_oceanbase_lob_save_guards (options : SaveOptions.t) (columns : list (option text)) (row : list Value) (indexes : list nat)
    (where_clause : text) : text * bool :=
  let database_type := SaveOptions.database_type options in
  fold_left (fun '(clause, guarded) index =>
    match (column ← column_at columns index;
           oceanbase_lob_predicate database_type (predicate_ident database_type column (SaveOptions.identifier_quote options)) (cell row index)
             (column_info_for (column_infos options) column)) with
    | Some predicate => (clause ++ (if is_empty clause then [] else %" AND ") ++ predicate, true)
    | None => (clause, guarded)
    end) indexes (where_clause, false).

End Predicates.
