(* ===== verification/GridLiteralFacts.v ===== *)
(** * GridLiteralFacts: the literals of a grid denote its values.

    Readers of string literals, written from the engines' lexical rules: quotes doubled,
    and for some engines backslash escapes.  A literal is read back to the text it was
    formatted from, and reading stops at its closing quote: what follows is untouched. *)

From stdpp Require Import list.
From Stdlib Require Import ZifyN ZifyBool.
From S2P Require Import Prelude DbTypes WriteClass SchemaTypes ViewDdl DdlProfile DdlNamesFacts Identifiers DefaultLiteral GridTypes GridLiterals.

(** ** Readers *)

Record Lexer : Set := mk_lexer {
  doubled_quotes : bool;
  backslashes : bool;
  hex_escapes : bool;
  escaped_char : char -> char
}.

Definition push {R} (c : char) (r : option (text * R)) : option (text * R) := '(s, rest) ← r; Some (c :: s, rest).

(** After the opening quote: the denoted text and what follows the closing quote. *)
Fixpoint read_body (l : Lexer) (s : text) : option (text * text) :=
  match s with
  | [] => None
  | c :: s' =>
      if (c =? squote)%N then
        match s' with
        | d :: s'' => if doubled_quotes l && (d =? squote)%N then push squote (read_body l s'') else Some ([], s')
        | [] => Some ([], [])
        end
      else if backslashes l && (c =? bslash)%N then
        match s' with
        | [] => None
        | e :: s'' =>
            if hex_escapes l && (e =? 120)%N then
              match s'' with
              | a :: b :: s3 =>
                  if is_ascii_hexdigit a && is_ascii_hexdigit b then push (16 * hex_value a + hex_value b)%N (read_body l s3) else None
              | _ => None
              end
            else push (escaped_char l e) (read_body l s'')
        end
      else push c (read_body l s')
  end.

Definition read_literal (l : Lexer) (s : text) : option (text * text) :=
  match s with c :: s' => if (c =? squote)%N then read_body l s' else None | [] => None end.

Definition lookup_escape (table : list (char * char)) (e : char) : char :=
  match List.find (fun entry => (fst entry =? e)%N) table with Some (_, c) => c | None => e end.

Definition standard_lexer : Lexer := mk_lexer true false false (fun e => e).

(** [\n], [\t], [\r], [\b] everywhere. *)
Definition COMMON_ESCAPES : list (char * char) := [(110, nl); (116, tab); (114, cr); (98, 8)]%N.

Definition mysql_lexer : Lexer := mk_lexer true true false (lookup_escape ((48, NUL) :: (90, SUB) :: COMMON_ESCAPES)%N).
Definition hex_lexer : Lexer := mk_lexer true true true (lookup_escape ((48, NUL) :: (102, 12) :: COMMON_ESCAPES)%N).
Definition postgres_escape_lexer : Lexer := mk_lexer true true true (lookup_escape ((102, 12) :: COMMON_ESCAPES)%N).
Definition cypher_lexer : Lexer := mk_lexer false true false (lookup_escape ((102, 12) :: COMMON_ESCAPES)%N).

Definition read_postgres (s : text) : option (text * text) :=
  match s with c :: s' => if (c =? 69)%N then read_literal postgres_escape_lexer s' else read_literal standard_lexer s | [] => None end.

(** The engines whose literals know no escape but the doubled quote, by their documentation. *)
Definition STANDARD_LITERAL_ENGINES : list DatabaseType :=
  [Sqlite; Rqlite; Turso; CloudflareD1; Oracle; OceanbaseOracle; Dameng; Yashandb; Oscar; Xugu; Gaussdb; OpenGauss; Kingbase; Highgo; Uxdb;
   Vastbase; Gbase8c; Kwdb].

(** The reader of each engine whose rules are known, from the engine alone: nothing here asks how the program escapes.
    MySQL and its relatives have their default [sql_mode]. *)
Definition literal_reader (database_type : option DatabaseType) : option (text -> option (text * text)) :=
  if opt_in database_type [Mysql; Doris; StarRocks; Goldendb] then Some (read_literal mysql_lexer)
  else if opt_in database_type [ClickHouse; Snowflake] then Some (read_literal hex_lexer)
  else if opt_in database_type [Neo4j] then Some (read_literal cypher_lexer)
  else if opt_in database_type [Postgres] then Some read_postgres
  else if opt_in database_type STANDARD_LITERAL_ENGINES then Some (read_literal standard_lexer)
  else None.

(** ** Escaping by characters *)

Lemma bind_bind {A B C} (f : A -> list B) (g : B -> list C) (l : list A) : (l ≫= f) ≫= g = l ≫= fun x => f x ≫= g.
Proof. induction l as [ | x l IH]; cbn; [done | ]. by rewrite bind_app, IH. Qed.

Definition escape_with (sub : option (text * text)) (quote_escape : text) (doubles : bool) (c : char) : text :=
  if (c =? squote)%N then quote_escape
  else if doubles && (c =? bslash)%N then [bslash; bslash]
  else match sub with
       | Some (nul_escape, sub_escape) => if (c =? NUL)%N then nul_escape else if (c =? SUB)%N then sub_escape else [c]
       | None => [c]
       end.

(** A character is written so that the reader gives it back. *)
Definition reads_char (l : Lexer) (f : char -> text) : Prop := forall c rest, read_body l (f c ++ rest) = push c (read_body l rest).

Lemma read_chars l f s rest : reads_char l f -> head_is squote rest = false -> read_body l ((s ≫= f) ++ squote :: rest) = Some (s, rest).
Proof.
  intros Hf Hrest. induction s as [ | c s IH].
  - destruct rest as [ | d rest]; cbn; [done | ]. cbn in Hrest. by rewrite Hrest, andb_false_r.
  - change ((c :: s) ≫= f) with (f c ++ (s ≫= f)). rewrite <- app_assoc, Hf, IH. done.
Qed.

(** The escapes of a lexer with backslashes. *)
Lemma escape_with_reads l sub quote_escape :
  backslashes l = true -> escaped_char l bslash = bslash ->
  (forall rest, read_body l (quote_escape ++ rest) = push squote (read_body l rest)) ->
  match sub with
  | Some (nul_escape, sub_escape) =>
      (forall rest, read_body l (nul_escape ++ rest) = push NUL (read_body l rest))
      /\ (forall rest, read_body l (sub_escape ++ rest) = push SUB (read_body l rest))
  | None => True
  end ->
  reads_char l (escape_with sub quote_escape true).
Proof.
  intros Hb Hbs Hq Hsub c rest. unfold escape_with. destruct (N.eqb_spec c squote) as [-> | Hc]; [apply Hq | ]. cbn [andb].
  assert (forall d, (d =? squote)%N = false -> (d =? bslash)%N = false -> read_body l ([d] ++ rest) = push d (read_body l rest)) as Hplain.
  { intros d H1 H2. cbn. by rewrite H1, H2, andb_false_r. }
  destruct (N.eqb_spec c bslash) as [-> | Hd].
  { cbn. rewrite Hb. cbn. by rewrite andb_false_r, Hbs. }
  apply N.eqb_neq in Hc, Hd. destruct sub as [[nul_escape sub_escape] | ]; [ | by apply Hplain]. destruct Hsub as [Hn Hs].
  destruct (N.eqb_spec c NUL) as [-> | _]; [apply Hn | ]. destruct (N.eqb_spec c SUB) as [-> | _]; [apply Hs | ]. by apply Hplain.
Qed.

Lemma standard_reads : reads_char standard_lexer (escape_with None [squote; squote] false).
Proof. intros c rest. unfold escape_with. destruct (N.eqb_spec c squote) as [-> | Hc]; [done | ]. apply N.eqb_neq in Hc. cbn. by rewrite Hc. Qed.

Lemma double_quotes_chars s : double_char squote s = s ≫= escape_with None [squote; squote] false.
Proof. apply list_bind_ext; [ | done]. intros c. unfold escape_with. by destruct (N.eqb_spec c squote) as [-> | _]. Qed.

Lemma escape_quotes_chars s : escape_quotes_and_backslashes s = s ≫= escape_with None [squote; squote] true.
Proof.
  unfold escape_quotes_and_backslashes, double_char. rewrite bind_bind. apply list_bind_ext; [ | done]. intros c. unfold escape_with.
  destruct (N.eqb_spec c bslash) as [-> | Hc]; [done | ]. cbn. by destruct (N.eqb_spec c squote) as [-> | _].
Qed.

Lemma cypher_chars s : replace_char squote [bslash; squote] (double_char bslash s) = s ≫= escape_with None [bslash; squote] true.
Proof.
  unfold replace_char, double_char. rewrite bind_bind. apply list_bind_ext; [ | done]. intros c. unfold escape_with.
  destruct (N.eqb_spec c bslash) as [-> | Hc]; [done | ]. cbn. by destruct (N.eqb_spec c squote) as [-> | _].
Qed.

Lemma replace_absent c to s : existsb (N.eqb c) s = false -> replace_char c to s = s.
Proof.
  induction s as [ | d s IH]; [done | ]. cbn. intros [Hd Hs]%orb_false_iff. rewrite N.eqb_sym, Hd. cbn. f_equal. by apply IH.
Qed.

(** The shortcut for a text without control characters changes nothing. *)
Lemma escape_sub_control_always s escape :
  escape_grid_sub_control s escape
  = replace_char SUB (match escape with BackslashZ => %"\Z" | Hex => %"\x1a" end) (replace_char NUL %"\0" s).
Proof.
  unfold escape_grid_sub_control. destruct (existsb _ s) eqn:E; [done | ]. cbn.
  assert (existsb (N.eqb NUL) s = false /\ existsb (N.eqb SUB) s = false) as [Hn Hs].
  { induction s as [ | c s IH]; [done | ]. cbn [existsb] in *. apply orb_false_iff in E as [[H1 H2]%orb_false_iff E].
    destruct (IH E) as [-> ->]. by rewrite (N.eqb_sym NUL), (N.eqb_sym SUB), H1, H2. }
  by rewrite (replace_absent NUL), replace_absent.
Qed.

Lemma sub_control_chars s escape :
  escape_grid_sub_control (escape_quotes_and_backslashes s) escape
  = s ≫= escape_with (Some (%"\0", match escape with BackslashZ => %"\Z" | Hex => %"\x1a" end)) [squote; squote] true.
Proof.
  rewrite escape_sub_control_always, escape_quotes_chars. unfold replace_char. rewrite !bind_bind. apply list_bind_ext; [ | done]. intros c.
  unfold escape_with. destruct (N.eqb_spec c squote) as [-> | _]; [done | ]. cbn [andb].
  destruct (N.eqb_spec c bslash) as [-> | _]; [done | ]. cbn. rewrite app_nil_r.
  destruct (N.eqb_spec c NUL) as [-> | _]; [by destruct escape | ]. cbn. rewrite app_nil_r. by destruct (c =? SUB)%N.
Qed.

Lemma postgres_chars s :
  replace_char SUB %"\x1A" (escape_quotes_and_backslashes s) = s ≫= escape_with (Some ([NUL], %"\x1A")) [squote; squote] true.
Proof.
  rewrite escape_quotes_chars. unfold replace_char. rewrite !bind_bind. apply list_bind_ext; [ | done]. intros c.
  unfold escape_with. destruct (N.eqb_spec c squote) as [-> | _]; [done | ]. cbn [andb].
  destruct (N.eqb_spec c bslash) as [-> | _]; [done | ]. cbn. rewrite app_nil_r.
  destruct (N.eqb_spec c NUL) as [-> | _]; [done | ]. by destruct (c =? SUB)%N.
Qed.

(** ** Quoted literals *)

Lemma opt_in_cases database_type l : opt_in database_type l = true -> In database_type (map Some l).
Proof.
  destruct database_type as [db | ]; [ | done]. unfold opt_in, db_in. intros (d & Hd & E)%existsb_exists.
  apply bool_decide_eq_true in E as ->. by apply in_map.
Qed.

Lemma read_escaped_quoted l f s rest :
  reads_char l f -> head_is squote rest = false -> read_literal l ((%"'" ++ (s ≫= f) ++ %"'") ++ rest) = Some (s, rest).
Proof. intros Hf Hrest. rewrite <- !app_assoc. cbn [lit app]. by apply read_chars. Qed.

Lemma mysql_literal database_type s :
  opt_in database_type [Mysql; Doris; StarRocks; Goldendb] = true ->
  quoted_literal database_type s = %"'" ++ (s ≫= escape_with (Some (%"\0", %"\Z")) [squote; squote] true) ++ %"'".
Proof.
  intros Hin%opt_in_cases. change (%"\Z") with (match BackslashZ with BackslashZ => %"\Z" | Hex => %"\x1a" end). rewrite <- sub_control_chars.
  by repeat (destruct Hin as [<- | Hin]; [reflexivity | ]).
Qed.

Lemma hex_literal database_type s :
  opt_in database_type [ClickHouse; Snowflake] = true ->
  quoted_literal database_type s = %"'" ++ (s ≫= escape_with (Some (%"\0", %"\x1a")) [squote; squote] true) ++ %"'".
Proof.
  intros Hin%opt_in_cases. change (%"\x1a") with (match Hex with BackslashZ => %"\Z" | Hex => %"\x1a" end). rewrite <- sub_control_chars.
  by repeat (destruct Hin as [<- | Hin]; [reflexivity | ]).
Qed.

Lemma standard_literal database_type s :
  opt_in database_type STANDARD_LITERAL_ENGINES = true ->
  quoted_literal database_type s = %"'" ++ (s ≫= escape_with None [squote; squote] false) ++ %"'".
Proof.
  rewrite <- double_quotes_chars. intros Hin%opt_in_cases. by repeat (destruct Hin as [<- | Hin]; [reflexivity | ]).
Qed.

Lemma escape_without_backslash s :
  existsb (N.eqb bslash) s = false -> escape_quotes_and_backslashes s = s ≫= escape_with None [squote; squote] false.
Proof.
  rewrite escape_quotes_chars. induction s as [ | c s IH]; [done | ]. cbn [existsb]. intros [Hc Hs]%orb_false_iff.
  change ((c :: s) ≫= escape_with None [squote; squote] true) with (escape_with None [squote; squote] true c ++ (s ≫= escape_with None [squote; squote] true)).
  rewrite (IH Hs). cbn [mbind list_bind]. f_equal. unfold escape_with. rewrite (N.eqb_sym c bslash), Hc. done.
Qed.

Lemma mysql_reads : reads_char mysql_lexer (escape_with (Some (%"\0", %"\Z")) [squote; squote] true).
Proof. by apply escape_with_reads. Qed.

Lemma hex_reads : reads_char hex_lexer (escape_with (Some (%"\0", %"\x1a")) [squote; squote] true).
Proof. by apply escape_with_reads. Qed.

Lemma postgres_reads : reads_char postgres_escape_lexer (escape_with (Some ([NUL], %"\x1A")) [squote; squote] true).
Proof. by apply escape_with_reads. Qed.

Lemma cypher_reads : reads_char cypher_lexer (escape_with None [bslash; squote] true).
Proof. by apply escape_with_reads. Qed.

(** A quoted literal is read back, and the reader stops behind it. *)
Lemma quoted_literal_reads database_type reader s rest :
  literal_reader database_type = Some reader -> head_is squote rest = false -> reader (quoted_literal database_type s ++ rest) = Some (s, rest).
Proof.
  unfold literal_reader. intros Hreader Hrest.
  destruct (opt_in database_type [Mysql; _; _; _]) eqn:E1.
  { injection Hreader as <-. rewrite mysql_literal by done. apply read_escaped_quoted; [apply mysql_reads | done]. }
  destruct (opt_in database_type [ClickHouse; _]) eqn:E2.
  { injection Hreader as <-. rewrite hex_literal by done. apply read_escaped_quoted; [apply hex_reads | done]. }
  destruct (opt_in database_type [Neo4j]) eqn:E3.
  { injection Hreader as <-. apply opt_in_cases in E3 as [<- | []].
    change (quoted_literal (Some Neo4j) s) with (%"'" ++ replace_char squote [bslash; squote] (double_char bslash s) ++ %"'").
    rewrite cypher_chars. apply read_escaped_quoted; [apply cypher_reads | done]. }
  destruct (opt_in database_type [Postgres]) eqn:E4.
  { injection Hreader as <-. apply opt_in_cases in E4 as [<- | []]. unfold quoted_literal. cbn [opt_in]. change (db_in Postgres [Postgres]) with true.
    cbn [andb]. destruct (existsb (N.eqb bslash) s || existsb (N.eqb SUB) s) eqn:E.
    - rewrite postgres_chars. change (%"E'") with (69%N :: %"'"). cbn [app read_postgres].
      apply (read_escaped_quoted postgres_escape_lexer); [apply postgres_reads | done].
    - change (db_in Postgres [SqlServer]) with false. cbn [orb]. apply orb_false_iff in E as [E _].
      change (escaped_text (Some Postgres) s) with (escape_quotes_and_backslashes s). rewrite escape_without_backslash by done.
      apply (read_escaped_quoted standard_lexer); [apply standard_reads | done]. }
  destruct (opt_in database_type STANDARD_LITERAL_ENGINES) eqn:E5; [ | discriminate].
  injection Hreader as <-. rewrite standard_literal by done. apply read_escaped_quoted; [apply standard_reads | done].
Qed.

(** ** Cells of text columns *)

Section Cells.

Context `{JsonCodec} `{Chrono}.

(** A textual type that none of the special formats is for. *)
Definition plain_text_type (data_type : text) : bool :=
  is_textual_column_type data_type
  && negb (existsb (fun test => test data_type)
       [is_uuid_column_type; is_mysql_binary_column_type; is_type %"bytea"; is_oracle_raw_column_type; is_numeric_type; is_bit_column_type;
        is_geometry_column_type; is_temporal_column_type; is_type %"BLOB";
        (fun ty => match oracle_temporal_column_kind ty with Some _ => true | None => false end);
        (fun ty => match oracle_character_lob_constructor ty with Some _ => true | None => false end)]).

Lemma no_bits database_type info identifier_quote s :
  is_bit_column_type (DataGridColumnInfo.data_type info) = false -> bit_text_literal database_type (Some info) identifier_quote s = None.
Proof.
  intros Hb. unfold bit_text_literal, is_kingbase_bit_literal_column, is_mysql_bit_literal_column, typed. by rewrite Hb, !andb_false_r.
Qed.

(** Engines with a known reader have no timestamps, no binary literals and no attributes of their own. *)
Lemma reader_engine database_type reader l :
  literal_reader database_type = Some reader -> forallb (fun d => match literal_reader (Some d) with Some _ => false | None => true end) l = true ->
  opt_in database_type l = false.
Proof.
  intros Hr Hl. destruct (opt_in database_type l) eqn:E; [ | done]. apply opt_in_cases, in_map_iff in E as (d & <- & Hd).
  rewrite forallb_forall in Hl. specialize (Hl d Hd). by rewrite Hr in Hl.
Qed.

Lemma not_recognised database_type reader info s :
  literal_reader database_type = Some reader -> plain_text_type (DataGridColumnInfo.data_type info) = true ->
  recognised_literal database_type (Some info) s = None.
Proof.
  intros Hr [_ Ht%negb_true_iff]%andb_prop. cbn [existsb] in Ht. rewrite !orb_false_iff in Ht.
  destruct Ht as (Huuid & Hbin & Hbytea & Hraw & Hnum & _).
  unfold recognised_literal, manticore_literal, is_mysql_binary_literal_column, is_sqlserver_binary_literal_column, is_postgres_binary_literal_column,
    is_oracle_raw_literal_column, typed.
  rewrite (reader_engine _ _ [Iotdb] Hr eq_refl), (reader_engine _ _ [SqlServer] Hr eq_refl), (reader_engine _ _ [ManticoreSearch] Hr eq_refl).
  by rewrite Huuid, Hbin, Hbytea, Hraw, Hnum, !andb_false_r.
Qed.

Lemma text_literal_quotes database_type reader info s :
  literal_reader database_type = Some reader -> plain_text_type (DataGridColumnInfo.data_type info) = true ->
  text_literal database_type (Some info) s = if is_empty s then %"''" else quoted_literal database_type s.
Proof.
  intros Hr Htype. unfold text_literal. erewrite not_recognised by done. rewrite (reader_engine _ _ [SqlServer] Hr eq_refl).
  apply andb_prop in Htype as [_ Ht%negb_true_iff]. cbn [existsb] in Ht. rewrite !orb_false_iff in Ht.
  destruct Ht as (_ & _ & _ & _ & _ & _ & Hgeo & Htemp & _ & Hora & _).
  destruct (oracle_temporal_column_kind (DataGridColumnInfo.data_type info)) eqn:Hkind; [done | ].
  destruct s as [ | c s]; [done | ]. cbn [is_empty]. unfold typed. rewrite Hgeo, andb_false_r.
  assert (format_oracle_temporal_literal (c :: s) (data_type_of (Some info)) = None) as ->.
  { unfold format_oracle_temporal_literal, data_type_of. cbn. by rewrite Hkind. }
  assert (normalized_text database_type (Some info) (c :: s) = c :: s) as ->.
  { unfold normalized_text. rewrite (reader_engine _ _ [Tdengine] Hr eq_refl), (reader_engine _ _ [SqlServer] Hr eq_refl).
    by rewrite Htemp, andb_false_r. }
  by destruct (is_oracle_temporal_literal_database database_type).
Qed.

Lemma no_large_object database_type info s :
  oracle_character_lob_constructor (DataGridColumnInfo.data_type info) = None -> oracle_lob_literal (String s) database_type (Some info) = None.
Proof. intros Hlob. unfold oracle_lob_literal. destruct (opt_in _ _); [ | done]. cbn. by rewrite Hlob. Qed.

Lemma save_literal_quotes database_type reader info identifier_quote s :
  literal_reader database_type = Some reader -> plain_text_type (DataGridColumnInfo.data_type info) = true ->
  format_grid_save_sql_literal (String s) database_type (Some info) identifier_quote
  = if is_empty s then %"''" else quoted_literal database_type s.
Proof.
  intros Hr Htype. pose proof Htype as [Htext Ht%negb_true_iff]%andb_prop. cbn [existsb] in Ht. rewrite !orb_false_iff in Ht.
  destruct Ht as (_ & _ & _ & _ & _ & Hbit & _ & _ & Hblob & _ & Hlob & _).
  destruct (oracle_character_lob_constructor _) eqn:Hctor; [done | ].
  assert (empty_string_saves_as_null (String s) (Some info) = false) as Hnull.
  { unfold empty_string_saves_as_null. rewrite Htext, andb_false_r. by destruct s. }
  unfold format_grid_save_sql_literal, format_grid_assignment_sql_literal. rewrite Hnull, no_large_object by done.
  unfold is_oceanbase_blob_column, typed. rewrite Hblob, andb_false_r. cbn [is_document andb format_grid_sql_literal_with_identifier_quote].
  rewrite no_bits by done. by eapply text_literal_quotes.
Qed.

(** C18: for the engines whose literal rules are known ([literal_reader], a table by engine: MySQL, Doris, StarRocks and
    GoldenDB; ClickHouse and Snowflake; Neo4j; PostgreSQL; and the eighteen of [STANDARD_LITERAL_ENGINES], among them SQLite,
    Oracle, Dameng, GaussDB and Kingbase) and a column of a plain textual type, the literal a save writes for a cell,
    whatever characters the cell holds, is read by the engine's own rules as exactly that text, and ends where the reader
    sees its end: what follows the literal is never read as part of it.  The other engines are outside the claim: DuckDB,
    H2 and Db2 read a doubled backslash ([duckdb_backslash_is_doubled]). *)
Theorem text_cells_read_back database_type reader info identifier_quote s rest
    (Hreader : literal_reader database_type = Some reader)
    (Htype : plain_text_type (DataGridColumnInfo.data_type info) = true)
    (Hrest : head_is squote rest = false) :
  reader (format_grid_save_sql_literal (String s) database_type (Some info) identifier_quote ++ rest) = Some (s, rest).
Proof.
  rewrite (save_literal_quotes _ reader) by done. destruct s as [ | c s]; [ | by apply quoted_literal_reads].
  unfold literal_reader in Hreader.
  repeat match goal with H : (if ?b then _ else _) = Some _ |- _ => destruct b; [injection H as <- | ] end;
    try discriminate; (destruct rest as [ | d rest]; [done | ]); cbn in *; by rewrite Hrest.
Qed.

End Cells.

(** ** Chains of operands *)

Section Chains.

Context (read_operand : text -> option (text * text)) (separator : text).

(** Operands joined by the separator; each takes a character. *)
Fixpoint read_chain (fuel : nat) (s : text) : option text :=
  match fuel with
  | O => None
  | S fuel' =>
      '(value, rest) ← read_operand s;
      match rest with
      | [] => Some value
      | _ => rest ← strip_prefix separator rest; values ← read_chain fuel' rest; Some (value ++ values)
      end
  end.

(** The operand denotes the value, at the end or before a separator. *)
Definition operand (p value : text) : Prop := forall rest, rest = [] \/ starts_with separator rest = true -> read_operand (p ++ rest) = Some (value, rest).

Lemma strip_prefix_app p s : strip_prefix p (p ++ s) = Some s.
Proof. unfold strip_prefix. rewrite (proj2 (starts_with_app p _)) by eauto. by rewrite drop_app_length. Qed.

Lemma read_chain_join parts values fuel :
  separator <> [] -> Forall2 operand parts values -> parts <> [] -> length parts <= fuel -> read_chain fuel (join separator parts) = Some (concat values).
Proof.
  intros Hsep Hparts. revert fuel. induction Hparts as [ | p v parts values Hp Hparts IH]; intros fuel Hne Hfuel; [done | ].
  destruct fuel as [ | fuel]; [simpl in Hfuel; lia | ]. destruct Hparts as [ | q w parts values Hq Hparts].
  - cbn [join read_chain]. rewrite <- (app_nil_r p), (Hp []) by auto. cbn. by rewrite app_nil_r.
  - rewrite join_cons. cbn [read_chain]. rewrite Hp by (right; apply starts_with_app; eauto). cbn [mbind option_bind].
    destruct (separator ++ join separator (q :: parts)) as [ | d l] eqn:E; [by destruct separator | ]. rewrite <- E, strip_prefix_app.
    cbn [mbind option_bind]. rewrite IH by (done || (cbn in *; lia)). done.
Qed.

End Chains.

(** *** SQL Server *)

Definition SQLSERVER_ANCHOR : text := %"CAST(N'' AS NVARCHAR(MAX))".

Definition read_sqlserver_operand (s : text) : option (text * text) :=
  match strip_prefix SQLSERVER_ANCHOR s with
  | Some rest => Some ([], rest)
  | None =>
      match strip_prefix %"NCHAR(13)" s with
      | Some rest => Some ([cr], rest)
      | None =>
          match strip_prefix %"NCHAR(10)" s with
          | Some rest => Some ([nl], rest)
          | None => rest ← strip_prefix %"N" s; read_literal standard_lexer rest
          end
      end
  end.

Definition read_sqlserver (s : text) : option text := read_chain read_sqlserver_operand %" + " (S (length s)) s.

Definition unbroken (s : text) : bool := negb (existsb (fun c => (c =? cr)%N || (c =? nl)%N) s).

Lemma unbroken_app a b : unbroken (a ++ b) = unbroken a && unbroken b.
Proof. unfold unbroken. by rewrite existsb_app, negb_orb. Qed.

Lemma unbroken_double s : unbroken s = true -> unbroken (double_char squote s) = true.
Proof.
  induction s as [ | c s IH]; [done | ]. change (c :: s) with ([c] ++ s). rewrite unbroken_app. intros [Hc Hs]%andb_prop.
  change ([c] ++ s) with (c :: s). rewrite double_char_cons, unbroken_app, IH by done. destruct (N.eqb_spec c squote) as [-> | _]; [done | ]. by rewrite Hc.
Qed.

Lemma unbroken_rev s : unbroken (rev s) = unbroken s.
Proof.
  induction s as [ | c s IH]; [done | ]. cbn [rev]. rewrite unbroken_app, IH. change (c :: s) with ([c] ++ s). rewrite unbroken_app. apply andb_comm.
Qed.

Abbreviation sqlserver_operand := (operand read_sqlserver_operand %" + ").

Lemma literal_operand s : sqlserver_operand (%"N'" ++ double_char squote s ++ %"'") s.
Proof.
  intros rest Hrest. rewrite double_quotes_chars.
  assert (head_is squote rest = false) as Hhead by (destruct Hrest as [-> | [r ->]%starts_with_app]; done).
  unfold read_sqlserver_operand. cbn [strip_prefix SQLSERVER_ANCHOR]. unfold strip_prefix. cbn.
  exact (read_escaped_quoted standard_lexer _ s rest standard_reads Hhead).
Qed.

(** The parts denote the text, and none has a line break. *)
Definition denotes (parts : list text) (s : text) : Prop :=
  exists values, Forall2 sqlserver_operand parts values /\ concat values = s /\ Forall (fun p => unbroken p = true) parts.

Lemma denotes_app parts1 parts2 s1 s2 : denotes parts1 s1 -> denotes parts2 s2 -> denotes (parts1 ++ parts2) (s1 ++ s2).
Proof.
  intros (v1 & H1 & <- & U1) (v2 & H2 & <- & U2). exists (v1 ++ v2). split; [by apply Forall2_app | ]. split; [apply concat_app | ].
  by apply Forall_app.
Qed.

Lemma denotes_one p s : sqlserver_operand p s -> unbroken p = true -> denotes [p] s.
Proof. intros Hp Hu. exists [s]. split; [by constructor | ]. split; [apply app_nil_r | by constructor]. Qed.

(** The open segment as a part. *)
Definition segment_parts (segment : text) : list text := if is_empty segment then [] else [%"N'" ++ double_char squote (rev segment) ++ %"'"].

Lemma segment_denotes segment : unbroken segment = true -> denotes (segment_parts segment) (rev segment).
Proof.
  intros Hu. destruct segment as [ | c segment]; [by exists [] | ]. apply denotes_one; [apply literal_operand | ].
  rewrite !unbroken_app, unbroken_double; [done | ]. by rewrite unbroken_rev.
Qed.

Lemma sqlserver_parts_denote s : forall segment, unbroken segment = true -> denotes (sqlserver_parts_from segment s) (rev segment ++ s).
Proof.
  induction s as [ | c s IH]; intros segment Hu; cbn [sqlserver_parts_from]; fold (segment_parts segment).
  - rewrite app_nil_r. by apply segment_denotes.
  - destruct (N.eqb_spec c cr) as [-> | Hcr]; [ | destruct (N.eqb_spec c nl) as [-> | Hnl]].
    + apply denotes_app; [by apply segment_denotes | ]. apply (denotes_app [_] _ [_]); [by apply denotes_one | by apply IH].
    + apply denotes_app; [by apply segment_denotes | ]. apply (denotes_app [_] _ [_]); [by apply denotes_one | by apply IH].
    + change (c :: s) with ([c] ++ s). rewrite app_assoc. apply (IH (c :: segment)).
      change (c :: segment) with ([c] ++ segment). rewrite unbroken_app, Hu. apply N.eqb_neq in Hcr, Hnl. unfold unbroken. cbn [existsb].
      by rewrite Hcr, Hnl.
Qed.

Lemma unbroken_join sep parts : unbroken sep = true -> Forall (fun p => unbroken p = true) parts -> unbroken (join sep parts) = true.
Proof.
  intros Hsep Hparts. induction Hparts as [ | p parts Hp Hparts IH]; [done | ]. destruct parts as [ | q parts]; [done | ].
  rewrite join_cons, !unbroken_app. by rewrite Hp, Hsep, IH.
Qed.


Lemma length_join_parts sep parts : sep <> [] -> length parts <= S (length (join sep parts)).
Proof.
  intros Hsep. induction parts as [ | p parts IH]; [simpl; lia | ]. destruct parts as [ | q parts]; [simpl; lia | ].
  rewrite join_cons, !length_app. destruct sep as [ | c sep]; [done | ]. cbn [length] in *. lia.
Qed.

(** The operands of a literal, the anchor included. *)
Lemma sqlserver_literal_parts s :
  exists parts, format_sqlserver_unicode_literal s = join %" + " parts /\ denotes parts s /\ parts <> []
    /\ (length parts = 1 \/ utf16_len s <= SQLSERVER_NVARCHAR_LITERAL_MAX_CHARS \/ starts_with SQLSERVER_ANCHOR (join %" + " parts) = true).
Proof.
  pose proof (sqlserver_parts_denote s [] eq_refl) as Hparts. unfold format_sqlserver_unicode_literal.
  destruct (sqlserver_parts_from [] s) as [ | p parts] eqn:E; cbn [is_empty rev app] in *.
  { destruct Hparts as (values & Hv & <- & _). apply Forall2_nil_inv_l in Hv as ->. exists [%"N''"]. split; [done | ]. split; [ | by auto].
    apply denotes_one; [apply (literal_operand []) | done]. }
  destruct (Nat.ltb 1 (length (p :: parts)) && _) eqn:Ha.
  - exists (SQLSERVER_ANCHOR :: p :: parts). split; [done | ]. split; [ | split; [done | ]].
    + apply (denotes_app [_] (p :: parts) []); [ | done]. by apply denotes_one.
    + right. right. rewrite join_cons. apply starts_with_app. eauto.
  - exists (p :: parts). split; [done | ]. split; [done | ]. split; [done | ].
    apply andb_false_iff in Ha as [Ha%Nat.ltb_ge | Ha%Nat.ltb_ge]; [left | right; by left]. cbn [length] in *. lia.
Qed.

(** C19: the SQL Server expression for a text (Unicode literals, the character codes of line breaks, joined by [+])
    evaluates to the text; it has no physical line break, so that no backslash before one is read as a continuation;
    and a text of more than 4000 UTF-16 units is one literal or a chain that starts with an [nvarchar(max)] operand. *)
Theorem sqlserver_text_reads_back s :
  read_sqlserver (format_sqlserver_unicode_literal s) = Some s
  /\ unbroken (format_sqlserver_unicode_literal s) = true
  /\ (utf16_len s <= SQLSERVER_NVARCHAR_LITERAL_MAX_CHARS
      \/ read_sqlserver_operand (format_sqlserver_unicode_literal s) = Some (s, [])
      \/ starts_with SQLSERVER_ANCHOR (format_sqlserver_unicode_literal s) = true).
Proof.
  destruct (sqlserver_literal_parts s) as (parts & -> & (values & Hv & Hs & Hu) & Hne & Hlong). split; [ | split].
  - unfold read_sqlserver. rewrite (read_chain_join _ _ parts values), Hs; [done | done | done | done | ]. by apply length_join_parts.
  - by apply unbroken_join.
  - destruct Hlong as [Hone | Hlong]; [ | destruct Hlong; auto]. right. left.
    destruct Hv as [ | p v parts values Hp Hv]; [done | ]. destruct Hv; [ | done]. cbn in Hs. rewrite app_nil_r in Hs. subst v.
    cbn [join]. rewrite <- (app_nil_r p) at 1. by apply Hp; left.
Qed.

(** *** Oracle large objects *)

Definition read_lob_operand (constructor s : text) : option (text * text) :=
  rest ← strip_prefix (constructor ++ %"(") s;
  '(value, rest) ← read_literal standard_lexer rest;
  rest ← strip_prefix %")" rest;
  Some (value, rest).

(** A single literal, or a chain of constructors. *)
Definition read_oracle_text (constructor s : text) : option text :=
  if head_is squote s then '(value, rest) ← read_literal standard_lexer s; if is_empty rest then Some value else None
  else read_chain (read_lob_operand constructor) %" || " (S (length s)) s.

Lemma append_char_double output c : append_oracle_sql_literal_char output c = output ++ double_char squote [c].
Proof. unfold append_oracle_sql_literal_char. rewrite double_char_cons. by destruct (N.eqb_spec c squote) as [-> | _]. Qed.

Lemma char_len_double c : oracle_sql_literal_char_len c = byte_len (double_char squote [c]).
Proof.
  unfold oracle_sql_literal_char_len. rewrite double_char_cons. destruct (N.eqb_spec c squote) as [-> | _]; [done | ].
  cbn [app double_char mbind list_bind]. rewrite byte_len_cons. change (byte_len []) with 0%N. lia.
Qed.

Lemma double_char_app q a b : double_char q (a ++ b) = double_char q a ++ double_char q b.
Proof. apply bind_app. Qed.

Lemma char_len_small c : (oracle_sql_literal_char_len c <= 4)%N.
Proof. unfold oracle_sql_literal_char_len, len_utf8. repeat case_match; lia. Qed.

Definition chunk_fits (src : text) : Prop := (byte_len (double_char squote src) <= ORACLE_LOB_LITERAL_CHUNK_BYTES)%N.

(** The chunks are escaped pieces of the text, in order. *)
Lemma lob_chunks_cut s : forall src, chunk_fits src ->
  exists pieces, lob_chunks_from (double_char squote src) (byte_len (double_char squote src)) s = map (double_char squote) pieces
    /\ concat pieces = src ++ s /\ Forall chunk_fits pieces.
Proof.
  induction s as [ | c s IH]; intros src Hfit; cbn [lob_chunks_from].
  - destruct (N.ltb_spec 0 (byte_len (double_char squote src))) as [Hpos | Hz].
    + exists [src]. split; [done | ]. split; [done | ]. by constructor.
    + assert (src = []) as ->; [ | by exists []]. destruct src as [ | d src]; [done | ]. rewrite double_char_cons, byte_len_app in Hz.
      destruct (d =? squote)%N; rewrite ?byte_len_cons in Hz; unfold len_utf8 in Hz; repeat case_match; lia.
  - rewrite !append_char_double, !char_len_double, <- byte_len_app, <- double_char_app. cbn [app].
    destruct (_ && _) eqn:Hcut.
    + destruct (IH [c]) as (pieces & E & C & F).
      { unfold chunk_fits, ORACLE_LOB_LITERAL_CHUNK_BYTES. rewrite <- char_len_double. pose proof (char_len_small c). lia. }
      exists (src :: pieces). rewrite E. split; [done | ]. split; [cbn; by rewrite C | by constructor].
    + destruct (IH (src ++ [c])) as (pieces & E & C & F).
      { apply andb_false_iff in Hcut as [Hz | Hle]; unfold chunk_fits in *; [ | lia]. rewrite double_char_app, byte_len_app, <- char_len_double.
        pose proof (char_len_small c). unfold ORACLE_LOB_LITERAL_CHUNK_BYTES. lia. }
      exists pieces. split; [done | ]. split; [by rewrite C, <- app_assoc | done].
Qed.

Lemma append_chars_double s output : append_oracle_sql_literal_characters output s = output ++ double_char squote s.
Proof.
  revert output. induction s as [ | c s IH]; intros output; cbn [append_oracle_sql_literal_characters fold_left].
  - by rewrite app_nil_r.
  - fold (append_oracle_sql_literal_characters (append_oracle_sql_literal_char output c) s).
    rewrite IH, append_char_double, <- app_assoc, <- double_char_app. done.
Qed.

Lemma escaped_len_double s : fold_right (fun ch n => oracle_sql_literal_char_len ch + n)%N 0%N s = byte_len (double_char squote s).
Proof.
  induction s as [ | c s IH]; [done | ]. cbn [fold_right]. rewrite IH, char_len_double. change (c :: s) with ([c] ++ s).
  by rewrite double_char_app, byte_len_app.
Qed.

Lemma lob_operand constructor s : operand (read_lob_operand constructor) %" || " (constructor ++ %"('" ++ double_char squote s ++ %"')") s.
Proof.
  intros rest _. unfold read_lob_operand. change (%"('") with (%"(" ++ %"'"). change (%"')") with (%"'" ++ %")"). rewrite <- !app_assoc.
  rewrite (app_assoc constructor), strip_prefix_app. cbn [mbind option_bind]. rewrite double_quotes_chars.
  rewrite (read_chars standard_lexer _ s (%")" ++ rest) standard_reads eq_refl : read_literal standard_lexer (%"'" ++ _ ++ %"'" ++ _) = _).
  cbn [mbind option_bind]. by rewrite strip_prefix_app.
Qed.

Lemma lob_constructors data_type constructor :
  oracle_character_lob_constructor data_type = Some constructor -> constructor = %"TO_CLOB" \/ constructor = %"TO_NCLOB".
Proof. unfold oracle_character_lob_constructor. repeat case_match; intros [= <-]; auto. Qed.

Lemma read_single_literal constructor s : read_oracle_text constructor (%"'" ++ double_char squote s ++ %"'") = Some s.
Proof.
  unfold read_oracle_text. change (head_is squote (%"'" ++ double_char squote s ++ %"'")) with true. cbn iota.
  rewrite <- (app_nil_r (%"'" ++ double_char squote s ++ %"'")), double_quotes_chars.
  by rewrite (read_escaped_quoted standard_lexer _ s [] standard_reads eq_refl).
Qed.

Definition lob_part (constructor piece : text) : text := constructor ++ %"('" ++ double_char squote piece ++ %"')".

Lemma read_lob_chain constructor pieces :
  constructor = %"TO_CLOB" \/ constructor = %"TO_NCLOB" -> pieces <> [] ->
  read_oracle_text constructor (join %" || " (map (lob_part constructor) pieces)) = Some (concat pieces).
Proof.
  intros Hc Hne. unfold read_oracle_text.
  assert (head_is squote (join %" || " (map (lob_part constructor) pieces)) = false) as ->.
  { destruct pieces as [ | p [ | q pieces]]; [done | | ]; by destruct Hc as [-> | ->]. }
  apply read_chain_join; [done | | by destruct pieces | by apply length_join_parts].
  clear. induction pieces as [ | p pieces IH]; constructor; [apply lob_operand | done].
Qed.

(** C20: the expression for a large text of Oracle evaluates to the text; it is one literal of at most 4000 bytes, or a
    chain of constructors whose literals have at most 3900 bytes each, doubled quotes included. *)
Theorem oracle_large_text_reads_back data_type constructor s
    (Hconstructor : oracle_character_lob_constructor data_type = Some constructor) :
  let literal := format_oracle_lob_assignment_literal s constructor in
  read_oracle_text constructor literal = Some s
  /\ ((literal = %"'" ++ double_char squote s ++ %"'" /\ (byte_len (double_char squote s) <= ORACLE_SQL_LITERAL_MAX_BYTES)%N)
      \/ exists pieces, literal = join %" || " (map (lob_part constructor) pieces) /\ Forall chunk_fits pieces).
Proof.
  apply lob_constructors in Hconstructor. intros literal. subst literal. unfold format_oracle_lob_assignment_literal.
  rewrite escaped_len_double, append_chars_double. cbn [app].
  destruct (N.leb_spec (byte_len (double_char squote s)) ORACLE_SQL_LITERAL_MAX_BYTES) as [Hle | Hgt].
  - split; [apply read_single_literal | by left].
  - destruct (lob_chunks_cut s [] ltac:(done)) as (pieces & E & C & F). cbn [double_char mbind list_bind] in E.
    change (byte_len []) with 0%N in E. rewrite E, map_map. fold (lob_part constructor). cbn [app] in C. subst s.
    split; [ | right; by exists pieces]. apply read_lob_chain; [done | ]. by intros ->.
Qed.

(** ** Small instances *)

Definition integer_numbers : JsonNumber := {| JNumber := Z; number_text := show_Z; parse_number := parse_i64; number_as_i64 n := Some n |}.

#[local] Existing Instance integer_numbers.

Definition json_string (s : text) : text := [dquote] ++ (s ≫= fun c => if (c =? dquote)%N || (c =? bslash)%N then [bslash; c] else [c]) ++ [dquote].

(** Compact JSON, control characters as they are. *)
Fixpoint json_text (value : Value) : text :=
  match value with
  | Null => %"null"
  | Bool b => if b then %"true" else %"false"
  | Number n => number_text n
  | String s => json_string s
  | Array l => %"[" ++ join %"," (map json_text l) ++ %"]"
  | Object l => LBRACE ++ join %"," (map (fun entry => json_string (fst entry) ++ %":" ++ json_text (snd entry)) l) ++ RBRACE
  end.

Definition plain_json : JsonCodec := {| value_text := json_text; parse_value _ := None |}.

Definition no_chrono : Chrono :=
  {| NaiveDateTime := unit; parse_datetime _ _ := None; add_microseconds _ _ := None; datetime_text _ := []; subsec_millis _ := 0%N;
     local_minus_utc _ := None; now_minus_utc := 0%Z |}.

#[local] Existing Instance plain_json.
#[local] Existing Instance no_chrono.

Definition text_column (name data_type : text) : DataGridColumnInfo.t := DataGridColumnInfo.mk name data_type true false None None.

Definition breakout : text := %"\'; DROP TABLE t; -- " ++ [SUB; NUL].

Lemma text_cells_read_back_witness :
  read_literal mysql_lexer
    (format_grid_save_sql_literal (String breakout) (Some Mysql) (Some (text_column %"note" %"varchar(255)")) None ++ %", id = 2;")
  = Some (breakout, %", id = 2;").
Proof. apply (text_cells_read_back (Some Mysql)); reflexivity. Defined.

Lemma oracle_large_text_reads_back_witness :
  read_oracle_text %"TO_NCLOB" (format_oracle_lob_assignment_literal (repeat squote (Z.to_nat 2001)) %"TO_NCLOB")
  = Some (repeat squote (Z.to_nat 2001)).
Proof. apply (oracle_large_text_reads_back %"NCLOB"). reflexivity. Defined.

Example sqlserver_line_break :
  format_sqlserver_unicode_literal (%"it's" ++ [nl] ++ %"C:\") = %"N'it''s' + NCHAR(10) + N'C:\'".
Proof. by vm_compute. Qed.

(** The types of text columns are plain. *)
Example text_types_are_plain :
  forallb plain_text_type
    [%"char(10)"; %"varchar(255)"; %"VARCHAR2(100 CHAR)"; %"NVARCHAR2(20)"; %"character varying(20)"; %"text"; %"longtext"; %"String"; %"STRING"] = true.
Proof. by vm_compute. Qed.

(** A backslash is doubled for every engine that is not listed, whatever its literals mean: DuckDB, H2 or Db2 read
    two backslashes where the cell has one. *)
Example duckdb_backslash_is_doubled :
  quoted_literal (Some DuckDb) %"C:\tmp" = %"'C:\\tmp'"
  /\ read_literal standard_lexer (quoted_literal (Some DuckDb) %"C:\tmp") = Some (%"C:\\tmp", []).
Proof. by vm_compute. Qed.

(** The slice of a quoted bit string has its start behind its end for the text of the two characters [b] and quote, and
    for no other text. *)
Lemma bit_slice_panics_once s : bit_slice_panics s = true <-> s = %"b'" \/ s = %"B'".
Proof.
  split; [ | by intros [-> | ->]]. unfold bit_slice_panics. intros [[Hs _]%andb_prop Hlen]%andb_prop.
  apply starts_with_app in Hs as [r Hr]. destruct s as [ | c [ | d s]]; [done | done | ]. injection Hr as Hc Hd _.
  rewrite !byte_len_cons in Hlen. destruct s as [ | e s].
  - unfold to_ascii_lowercase in *. assert (d = squote) as -> by (destruct (is_ascii_uppercase d) eqn:E; unfold is_ascii_uppercase, squote in *; lia).
    assert (c = 98%N \/ c = 66%N) as [-> | ->] by (destruct (is_ascii_uppercase c); lia); auto.
  - exfalso. rewrite byte_len_cons in Hlen. unfold len_utf8 in Hlen. repeat case_match; lia.
Qed.
