(* ===== verification/GridBatch.v ===== *)
(** * GridBatch: the batched statements of a MySQL grid ([data_grid_sql.rs],
      [push_mysql_key_predicate_batches] to [push_mysql_joined_batch_statement]).

    Rows that differ in the value of one key column are collected into an [IN] list;
    the conditions are joined up to three budgets.  The theorems: the length computed
    ahead of a batch is the length of its statement; the statements stand for the
    given conditions, in order; each keeps the budgets. *)

From stdpp Require Import list.
From Stdlib Require Import ZifyN ZifyBool.
From S2P Require Import Prelude DbTypes WriteClass SchemaTypes ViewDdl DdlProfile Identifiers DefaultLiteral GridTypes GridLiterals GridPredicates.

Definition MYSQL_DATA_GRID_BATCH_MAX_ROWS : nat := 500.
Definition MYSQL_DATA_GRID_BATCH_TARGET_SQL_BYTES : N := (256 * 1024)%N.
Definition MYSQL_DATA_GRID_BATCH_MAX_VALUES : N := 10000%N.

Record MysqlBatchPart : Set := mk_part { part_sql : text; part_values : N }.

(** ** Runs of one column *)

Definition IN_JOINER : text := %", ".

Record InRun : Set := mk_run { run_column : text; run_values : list text; run_bytes : N }.

Definition flush_run (run : InRun) : MysqlBatchPart :=
  match run_values run with
  | [value] => mk_part (run_column run ++ %" = " ++ value) 1
  | values => mk_part (run_column run ++ %" IN (" ++ join IN_JOINER values ++ %")") (N.of_nat (length values))
  end.

Definition flush_open (run : option InRun) : list MysqlBatchPart := match run with Some open => [flush_run open] | None => [] end.

Definition literal_bytes (p : MysqlPlainEquality) : N := (byte_len (eq_literal p) + byte_len IN_JOINER)%N.

Definition starts_new_run (run : option InRun) (p : MysqlPlainEquality) : bool :=
  match run with
  | Some open =>
      negb (text_eqb (run_column open) (eq_column p))
      || (MYSQL_DATA_GRID_BATCH_TARGET_SQL_BYTES <? run_bytes open + literal_bytes p)%N
      || (MYSQL_DATA_GRID_BATCH_MAX_VALUES <=? N.of_nat (length (run_values open)))%N
  | None => false
  end.

(** [run.get_or_insert_with(..)] and the literal added to it. *)
Definition extend_run (run : option InRun) (p : MysqlPlainEquality) : InRun :=
  let open := match run with Some open => open | None => mk_run (eq_column p) [] 0 end in
  mk_run (run_column open) (run_values open ++ [eq_literal p]) (run_bytes open + literal_bytes p).

Fixpoint key_parts (run : option InRun) (predicates : list MysqlKeyPredicate) : list MysqlBatchPart :=
  match predicates with
  | [] => flush_open run
  | predicate :: rest =>
      match plain predicate with
      | None => flush_open run ++ mk_part (sql predicate) 1 :: key_parts None rest
      | Some p =>
          if starts_new_run run p then flush_open run ++ key_parts (Some (extend_run None p)) rest
          else key_parts (Some (extend_run run p)) rest
      end
  end.

(** ** Joined statements *)

Definition parenthesised (s : text) : text := %"(" ++ s ++ %")".

Definition part_bytes (wrap_multiple_parts : bool) (part : MysqlBatchPart) : N :=
  (byte_len (part_sql part) + (if wrap_multiple_parts then 2 else 0))%N.

Definition sum_N (l : list N) : N := fold_right N.add 0%N l.

Definition joined_batch_sql_len (prefix : text) (current : list MysqlBatchPart) (next : MysqlBatchPart) (separator : text)
    (wrap_multiple_parts : bool) : N :=
  match current with
  | [] => byte_len prefix + byte_len (part_sql next) + 1
  | _ =>
      let single := Nat.eqb (length current) 1 && wrap_multiple_parts in
      let current_bytes :=
        if single then sum_N (map (fun part => byte_len (part_sql part)) current)
        else sum_N (map (part_bytes wrap_multiple_parts) current) + byte_len separator * N.of_nat (length current - 1) in
      byte_len prefix + current_bytes + (if single then 2 else 0) + byte_len separator + part_bytes wrap_multiple_parts next + 1
  end%N.

Definition joined_batch_statement (prefix : text) (parts : list MysqlBatchPart) (separator : text) (wrap_multiple_parts : bool) : text :=
  let body :=
    if Nat.eqb (length parts) 1 || negb wrap_multiple_parts then join separator (map part_sql parts)
    else join separator (map (fun part => parenthesised (part_sql part)) parts) in
  prefix ++ body ++ %";".

Definition over_values (max_values : option N) (batch_values : N) (part : MysqlBatchPart) : bool :=
  match max_values with Some max => (max <? batch_values + part_values part)%N | None => false end.

Fixpoint joined_batches (prefix separator : text) (wrap_multiple_parts : bool) (max_values : option N) (batch : list MysqlBatchPart)
    (batch_values : N) (parts : list MysqlBatchPart) : list text :=
  match parts with
  | [] => if is_empty batch then [] else [joined_batch_statement prefix batch separator wrap_multiple_parts]
  | part :: rest =>
      let next_len := joined_batch_sql_len prefix batch part separator wrap_multiple_parts in
      if negb (is_empty batch)
         && (Nat.leb MYSQL_DATA_GRID_BATCH_MAX_ROWS (length batch) || (MYSQL_DATA_GRID_BATCH_TARGET_SQL_BYTES <? next_len)%N
             || over_values max_values batch_values part)
      then joined_batch_statement prefix batch separator wrap_multiple_parts
           :: joined_batches prefix separator wrap_multiple_parts max_values [part] (part_values part) rest
      else joined_batches prefix separator wrap_multiple_parts max_values (batch ++ [part]) (batch_values + part_values part) rest
  end.

Definition push_mysql_joined_batches (prefix : text) (parts : list MysqlBatchPart) (separator : text) (wrap_multiple_parts : bool)
    (max_values : option N) : list text :=
  joined_batches prefix separator wrap_multiple_parts max_values [] 0 parts.

Definition push_mysql_key_predicate_batches (prefix : text) (predicates : list MysqlKeyPredicate) : list text :=
  push_mysql_joined_batches prefix (key_parts None predicates) %" OR " true (Some MYSQL_DATA_GRID_BATCH_MAX_VALUES).

Definition push_mysql_values_insert_batches (table columns : text) (value_tuples : list text) : list text :=
  push_mysql_joined_batches (%"INSERT INTO " ++ table ++ %" (" ++ columns ++ %") VALUES ") (map (fun tuple => mk_part tuple 0) value_tuples) %", "
    false None.

(** ** The computed length *)

Lemma byte_len_join_sum sep p ps :
  byte_len (join sep (p :: ps)) = (sum_N (map byte_len (p :: ps)) + byte_len sep * N.of_nat (length ps))%N.
Proof.
  revert p. induction ps as [ | q ps IH]; intros p; [simpl; lia | ].
  rewrite join_cons, !byte_len_app, IH. simpl. lia.
Qed.

Lemma byte_len_parenthesised s : byte_len (parenthesised s) = (byte_len s + 2)%N.
Proof. unfold parenthesised. rewrite !byte_len_app. change (byte_len %"(") with 1%N. change (byte_len %")") with 1%N. lia. Qed.

Lemma sum_N_cons n l : sum_N (n :: l) = (n + sum_N l)%N.
Proof. reflexivity. Qed.

Lemma sum_part_bytes wrap parts :
  sum_N (map byte_len (map (fun part => if wrap : bool then parenthesised (part_sql part) else part_sql part) parts))
  = sum_N (map (part_bytes wrap) parts).
Proof.
  induction parts as [ | p parts IH]; [done | ]. cbn [map]. rewrite !sum_N_cons, IH. unfold part_bytes at 2. destruct wrap; [rewrite byte_len_parenthesised | ]; lia.
Qed.

Lemma sum_N_snoc l n : sum_N (l ++ [n]) = (sum_N l + n)%N.
Proof. unfold sum_N. rewrite fold_right_app. simpl. induction l as [ | m l IH]; simpl; lia. Qed.

(** A batch of more than one part. *)
Lemma joined_statement_len prefix p q ps sep wrap :
  byte_len (joined_batch_statement prefix (p :: q :: ps) sep wrap)
  = (byte_len prefix + sum_N (map (part_bytes wrap) (p :: q :: ps)) + byte_len sep * N.of_nat (S (length ps)) + 1)%N.
Proof.
  unfold joined_batch_statement. rewrite !byte_len_app. change (byte_len %";") with 1%N. rewrite <- sum_part_bytes.
  destruct wrap; cbn [length Nat.eqb orb negb map]; rewrite byte_len_join_sum; cbn [length map]; rewrite length_map; rewrite <- !N.add_assoc; reflexivity.
Qed.

(** The length is computed for the statement the batch would become with the next part. *)
Lemma joined_batch_sql_len_exact prefix batch part sep wrap :
  joined_batch_sql_len prefix batch part sep wrap = byte_len (joined_batch_statement prefix (batch ++ [part]) sep wrap).
Proof.
  destruct batch as [ | p batch].
  { unfold joined_batch_statement, joined_batch_sql_len. cbn [app length Nat.eqb orb map join]. rewrite !byte_len_app.
    change (byte_len %";") with 1%N. lia. }
  assert (exists q ps, batch ++ [part] = q :: ps /\ length ps = length batch) as (q & ps & E & L).
  { destruct batch as [ | q ps]; [exists part, [] | exists q, (ps ++ [part])]; split; try done. rewrite length_app. simpl. lia. }
  change ((p :: batch) ++ [part]) with (p :: (batch ++ [part])). rewrite E, joined_statement_len, L, <- E.
  change (p :: (batch ++ [part])) with ((p :: batch) ++ [part]). rewrite map_app. cbn [map]. rewrite sum_N_snoc.
  unfold joined_batch_sql_len. cbn [length]. destruct batch as [ | q' ps']; destruct wrap; cbn [length Nat.eqb andb map];
    rewrite !sum_N_cons; unfold part_bytes; simpl; lia.
Qed.

(** ** What the parts stand for *)

Inductive KeyCondition : Set :=
| Equals (column literal : text)
| OneOf (column : text) (literals : list text)
| Clause (sql : text).

Definition condition_part (condition : KeyCondition) : MysqlBatchPart :=
  match condition with
  | Equals column literal => mk_part (column ++ %" = " ++ literal) 1
  | OneOf column literals => mk_part (column ++ %" IN (" ++ join IN_JOINER literals ++ %")") (N.of_nat (length literals))
  | Clause s => mk_part s 1
  end.

(** A row satisfies a condition when it satisfies one of these. *)
Definition alternatives (condition : KeyCondition) : list (text * text + text) :=
  match condition with
  | Equals column literal => [inl (column, literal)]
  | OneOf column literals => map (fun literal => inl (column, literal)) literals
  | Clause s => [inr s]
  end.

Definition predicate_meaning (predicate : MysqlKeyPredicate) : text * text + text :=
  match plain predicate with Some p => inl (eq_column p, eq_literal p) | None => inr (sql predicate) end.

Definition run_condition (run : InRun) : KeyCondition :=
  match run_values run with [value] => Equals (run_column run) value | values => OneOf (run_column run) values end.

Definition open_conditions (run : option InRun) : list KeyCondition := match run with Some open => [run_condition open] | None => [] end.

(** The conditions the parts render. *)
Fixpoint key_conditions (run : option InRun) (predicates : list MysqlKeyPredicate) : list KeyCondition :=
  match predicates with
  | [] => open_conditions run
  | predicate :: rest =>
      match plain predicate with
      | None => open_conditions run ++ Clause (sql predicate) :: key_conditions None rest
      | Some p =>
          if starts_new_run run p then open_conditions run ++ key_conditions (Some (extend_run None p)) rest
          else key_conditions (Some (extend_run run p)) rest
      end
  end.

Lemma flush_run_renders run : flush_run run = condition_part (run_condition run).
Proof. unfold flush_run, run_condition. destruct (run_values run) as [ | v [ | w vs]]; done. Qed.

Lemma flush_open_renders run : flush_open run = map condition_part (open_conditions run).
Proof. destruct run as [run | ]; [ | done]. simpl. by rewrite flush_run_renders. Qed.

Lemma key_parts_render run predicates : key_parts run predicates = map condition_part (key_conditions run predicates).
Proof.
  revert run. induction predicates as [ | p ps IH]; intros run; simpl; [apply flush_open_renders | ].
  destruct (plain p) as [q | ]; [destruct (starts_new_run run q) | ];
    rewrite ?map_app, ?flush_open_renders, ?IH; cbn [map]; by rewrite ?IH.
Qed.

Definition meant (conditions : list KeyCondition) : list (text * text + text) := conditions ≫= alternatives.

Lemma meant_run column values bytes :
  meant (open_conditions (Some (mk_run column values bytes))) = map (fun v => inl (column, v)) values.
Proof. unfold meant, run_condition. simpl. destruct values as [ | v [ | w vs]]; cbn; by rewrite ?app_nil_r. Qed.

Lemma meant_extend run p :
  starts_new_run run p = false ->
  meant (open_conditions (Some (extend_run run p))) = meant (open_conditions run) ++ [inl (eq_column p, eq_literal p)].
Proof.
  unfold extend_run, starts_new_run. destruct run as [[column values bytes] | ]; simpl run_column; simpl run_values; simpl run_bytes.
  - intros Hnew. rewrite !meant_run, map_app. simpl.
    destruct (text_eqb column (eq_column p)) eqn:E; [ | done]. by apply text_eqb_eq in E as ->.
  - intros _. by rewrite meant_run.
Qed.

Lemma meant_app a b : meant (a ++ b) = meant a ++ meant b.
Proof. apply bind_app. Qed.

Lemma key_conditions_meant run predicates :
  meant (key_conditions run predicates) = meant (open_conditions run) ++ map predicate_meaning predicates.
Proof.
  revert run. induction predicates as [ | p ps IH]; intros run; simpl; [by rewrite app_nil_r | ].
  unfold predicate_meaning at 1. destruct (plain p) as [q | ]; [destruct (starts_new_run run q) eqn:Hnew | ].
  - rewrite meant_app, IH, (meant_extend None) by done. by rewrite app_nil_l.
  - by rewrite IH, meant_extend, <- app_assoc by done.
  - rewrite meant_app. f_equal. change (meant (Clause (sql p) :: key_conditions None ps)) with ([inr (sql p)] ++ meant (key_conditions None ps) : list (text * text + text)).
    by rewrite IH.
Qed.

(** ** The budgets *)

Definition run_fits (run : option InRun) : Prop :=
  match run with
  | Some open => run_values open <> [] /\ (N.of_nat (length (run_values open)) <= MYSQL_DATA_GRID_BATCH_MAX_VALUES)%N
  | None => True
  end.

Lemma extend_fits run p : starts_new_run run p = false -> run_fits run -> run_fits (Some (extend_run run p)).
Proof.
  unfold starts_new_run, extend_run. destruct run as [[column values bytes] | ]; simpl; [ | by vm_compute].
  rewrite length_app. simpl. intros Hnew [_ Hle]. unfold MYSQL_DATA_GRID_BATCH_MAX_VALUES in *.
  split; [by destruct values | ]. lia.
Qed.

Definition part_fits (part : MysqlBatchPart) : Prop := (1 <= part_values part <= MYSQL_DATA_GRID_BATCH_MAX_VALUES)%N.

Lemma flush_open_fits run : run_fits run -> Forall part_fits (flush_open run).
Proof.
  destruct run as [[column values bytes] | ]; simpl; [ | constructor]. intros [Hne Hle]. constructor; [ | constructor].
  unfold part_fits, flush_run. simpl in *. destruct values as [ | v [ | w vs]]; [done | by vm_compute | ].
  cbn [part_values length] in *. lia.
Qed.

Lemma key_parts_fit run predicates : run_fits run -> Forall part_fits (key_parts run predicates).
Proof.
  revert run. induction predicates as [ | p ps IH]; intros run Hrun; simpl; [by apply flush_open_fits | ].
  destruct (plain p) as [q | ]; [destruct (starts_new_run run q) eqn:Hnew | ].
  - apply Forall_app. split; [by apply flush_open_fits | ]. apply IH. by apply (extend_fits None).
  - apply IH. by apply extend_fits.
  - apply Forall_app. split; [by apply flush_open_fits | ]. constructor; [by vm_compute | by apply IH].
Qed.

Section Batches.

Context (prefix separator : text) (wrap : bool) (max_values : option N).

Definition batch_statement (batch : list MysqlBatchPart) : text := joined_batch_statement prefix batch separator wrap.

Definition values_of (batch : list MysqlBatchPart) : N := sum_N (map part_values batch).

Lemma values_of_snoc batch part : values_of (batch ++ [part]) = (values_of batch + part_values part)%N.
Proof. unfold values_of. rewrite map_app. apply sum_N_snoc. Qed.

Definition within_values (n : N) : Prop := match max_values with Some max => (n <= max)%N | None => True end.

(** One part, or a batch in every budget. *)
Definition batch_fits (batch : list MysqlBatchPart) : Prop :=
  match batch with
  | [] => False
  | [_] => True
  | _ => length batch <= MYSQL_DATA_GRID_BATCH_MAX_ROWS
         /\ (byte_len (batch_statement batch) <= MYSQL_DATA_GRID_BATCH_TARGET_SQL_BYTES)%N /\ within_values (values_of batch)
  end.

Lemma snoc_fits batch part :
  batch <> [] -> Nat.leb MYSQL_DATA_GRID_BATCH_MAX_ROWS (length batch) = false ->
  (MYSQL_DATA_GRID_BATCH_TARGET_SQL_BYTES <? joined_batch_sql_len prefix batch part separator wrap)%N = false ->
  over_values max_values (values_of batch) part = false -> batch_fits (batch ++ [part]).
Proof.
  intros Hne Hrows Hbytes Hvalues. rewrite joined_batch_sql_len_exact in Hbytes.
  destruct batch as [ | p batch]; [done | ].
  assert (length ((p :: batch) ++ [part]) = S (length (p :: batch))) as L by (rewrite length_app; simpl; lia).
  unfold batch_fits. destruct ((p :: batch) ++ [part]) as [ | q [ | r rest]] eqn:E; [done | done | ]. rewrite <- E in *.
  apply Nat.leb_gt in Hrows. split; [ | split].
  - rewrite L. lia.
  - unfold batch_statement. lia.
  - unfold within_values, over_values in *. destruct max_values as [max | ]; [ | done].
    rewrite values_of_snoc. lia.
Qed.

(** The batches cut the parts, in order, and every one keeps the budgets. *)
Lemma joined_batches_cut batch parts :
  (batch <> [] -> batch_fits batch) ->
  exists groups, joined_batches prefix separator wrap max_values batch (values_of batch) parts = map batch_statement groups
    /\ concat groups = batch ++ parts /\ Forall batch_fits groups.
Proof.
  revert batch. induction parts as [ | part parts IH]; intros batch Hfits; simpl.
  { destruct batch as [ | p batch]; simpl; [exists []; done | ]. exists [p :: batch]. simpl. rewrite app_nil_r.
    split; [done | ]. split; [done | ]. constructor; [by apply Hfits | constructor]. }
  assert (forall p, values_of [p] = part_values p) as Hone by (intros p; apply N.add_0_r).
  destruct (negb (is_empty batch) && _) eqn:Hcut.
  - destruct (IH [part] (fun _ => I)) as (groups & E & C & F). rewrite <- Hone, E.
    exists (batch :: groups). split; [done | ]. split; [simpl; by rewrite C | ].
    constructor; [ | done]. apply Hfits. by intros ->.
  - rewrite <- values_of_snoc. destruct (IH (batch ++ [part])) as (groups & E & C & F).
    + intros _. destruct batch as [ | p batch]; [done | ].
      apply andb_false_iff in Hcut as [Hcut | Hcut]; [done | ].
      apply orb_false_iff in Hcut as [[Hrows Hbytes]%orb_false_iff Hvalues]. by apply snoc_fits.
    + exists groups. split; [done | ]. split; [by rewrite C, <- app_assoc | done].
Qed.

End Batches.

(** ** The statements *)

Lemma concat_is_map {A B} (f : A -> B) (groups : list (list B)) (l : list A) :
  concat groups = map f l -> exists cuts, groups = map (map f) cuts /\ concat cuts = l.
Proof.
  revert l. induction groups as [ | g groups IH]; intros l E; simpl in E.
  - exists []. destruct l; [done | discriminate].
  - symmetry in E. apply map_eq_app in E as (l1 & l2 & -> & <- & E2).
    destruct (IH l2 (eq_sym E2)) as (cuts & -> & <-). by exists (l1 :: cuts).
Qed.

Lemma part_values_condition condition : part_values (condition_part condition) = N.of_nat (length (alternatives condition)).
Proof. destruct condition; simpl; [done | by rewrite length_map | done]. Qed.

Lemma values_of_conditions conditions : values_of (map condition_part conditions) = N.of_nat (length (meant conditions)).
Proof.
  induction conditions as [ | c cs IH]; [done | ]. cbn [map]. unfold values_of. cbn [map]. rewrite sum_N_cons.
  fold (values_of (map condition_part cs)). rewrite IH, part_values_condition.
  change (meant (c :: cs)) with (alternatives c ++ meant cs). rewrite length_app. lia.
Qed.

(** The statement of a group of conditions. *)
Definition key_statement (prefix : text) (group : list KeyCondition) : text :=
  joined_batch_statement prefix (map condition_part group) %" OR " true.

Definition group_fits (prefix : text) (group : list KeyCondition) : Prop :=
  1 <= length group <= MYSQL_DATA_GRID_BATCH_MAX_ROWS
  /\ (N.of_nat (length (meant group)) <= MYSQL_DATA_GRID_BATCH_MAX_VALUES)%N
  /\ (length group = 1 \/ (byte_len (key_statement prefix group) <= MYSQL_DATA_GRID_BATCH_TARGET_SQL_BYTES)%N).

Lemma batch_fits_group prefix group :
  Forall part_fits (map condition_part group) ->
  batch_fits prefix %" OR " true (Some MYSQL_DATA_GRID_BATCH_MAX_VALUES) (map condition_part group) -> group_fits prefix group.
Proof.
  intros Hparts Hbatch. unfold group_fits. rewrite <- values_of_conditions.
  destruct group as [ | c [ | d cs]]; [done | | ].
  - split; [simpl; unfold MYSQL_DATA_GRID_BATCH_MAX_ROWS; lia | ]. split; [ | by left].
    apply Forall_inv in Hparts as [_ Hle]. unfold values_of. cbn [map]. rewrite sum_N_cons. by rewrite N.add_0_r.
  - destruct Hbatch as (Hrows & Hbytes & Hvalues). rewrite length_map in Hrows. split; [simpl in *; lia | ]. by split; [ | right].
Qed.

(** The statements of a batch stand for exactly the given conditions, in their order, and keep the budgets. *)
Lemma key_batches_stand_for_the_predicates prefix predicates :
  exists groups : list (list KeyCondition),
    push_mysql_key_predicate_batches prefix predicates = map (key_statement prefix) groups
    /\ meant (concat groups) = map predicate_meaning predicates
    /\ Forall (group_fits prefix) groups.
Proof.
  destruct (joined_batches_cut prefix %" OR " true (Some MYSQL_DATA_GRID_BATCH_MAX_VALUES) [] (key_parts None predicates))
    as (groups & E & C & F); [done | ].
  pose proof (key_parts_fit None predicates I) as Hparts. rewrite key_parts_render in C, Hparts.
  destruct (concat_is_map condition_part groups _ C) as (cuts & -> & Hcuts). exists cuts. split; [ | split].
  - unfold push_mysql_key_predicate_batches, push_mysql_joined_batches. change 0%N with (values_of []). rewrite E, map_map. done.
  - by rewrite Hcuts, key_conditions_meant.
  - rewrite <- Hcuts, concat_map in Hparts. apply Forall_concat in Hparts. rewrite !Forall_forall in *. intros group Hin.
    apply batch_fits_group; [apply Hparts | apply F]; by apply list_elem_of_fmap_2.
Qed.

(** The restored rows of a batch: every tuple once, in order. *)
Lemma insert_batches_hold_every_row table columns tuples :
  exists groups : list (list text),
    push_mysql_values_insert_batches table columns tuples
    = map (fun group => %"INSERT INTO " ++ table ++ %" (" ++ columns ++ %") VALUES " ++ join %", " group ++ %";") groups
    /\ concat groups = tuples
    /\ Forall (fun group => 1 <= length group <= MYSQL_DATA_GRID_BATCH_MAX_ROWS) groups.
Proof.
  pose (prefix := %"INSERT INTO " ++ table ++ %" (" ++ columns ++ %") VALUES ").
  destruct (joined_batches_cut prefix %", " false None [] (map (fun tuple => mk_part tuple 0) tuples)) as (groups & E & C & F); [done | ].
  destruct (concat_is_map _ _ _ C) as (cuts & -> & Hcuts). exists cuts. split; [ | split; [done | ]].
  - unfold push_mysql_values_insert_batches, push_mysql_joined_batches. fold prefix. change (values_of []) with 0%N in E. rewrite E, map_map.
    apply map_ext. intros group. unfold batch_statement, joined_batch_statement. rewrite orb_true_r, map_map. cbn [part_sql].
    rewrite map_id. unfold prefix. by rewrite <- !app_assoc.
  - apply Forall_forall. intros group Hin. pose proof (proj1 (Forall_forall _ _) F _ (list_elem_of_fmap_2 _ _ _ Hin)) as Hf.
    destruct group as [ | a [ | b g]]; [done | simpl; unfold MYSQL_DATA_GRID_BATCH_MAX_ROWS; lia | ].
    destruct Hf as (Hrows & _). rewrite length_map in Hrows. simpl in *. lia.
Qed.
