(* ===== verification/GridEngines.v ===== *)
(** * GridEngines: saving a grid of Neo4j, IoTDB, TDengine and Salesforce
      ([data_grid_neo4j_sql.rs], [data_grid_iotdb_sql.rs], [data_grid_tdengine_sql.rs],
      [data_grid_salesforce_sql.rs]).

    An error of a source is the left side of a sum. *)

From stdpp Require Import list.
From S2P Require Import Prelude DbTypes WriteClass SchemaTypes ViewDdl DdlProfile Identifiers DefaultLiteral GridTypes GridLiterals GridPredicates.

(** [.collect::<Result<Vec<_>, _>>()]. *)
Fixpoint collect_results {A} (l : list (text + A)) : text + list A :=
  match l with
  | [] => inr []
  | inl e :: _ => inl e
  | inr a :: l' => match collect_results l' with inl e => inl e | inr as_ => inr (a :: as_) end
  end.

Section Engines.

Context `{JsonCodec} `{Chrono} `{PercentDecode} `{LetterTable} `{CharTable}.

(** The rows of an edit that exist, with what is done to them. *)
Definition dirty (options : SaveOptions.t) : list (list Value * list (nat * Value)) :=
  omap (fun '(index, changes) => row ← SaveOptions.rows options !! index; Some (row, changes)) (SaveOptions.dirty_rows options).

Definition deleted (options : SaveOptions.t) : list (list Value) :=
  omap (fun index => SaveOptions.rows options !! index) (SaveOptions.deleted_rows options).

(** The row after its changes; a change past its end is lost. *)
Definition after_changes (row : list Value) (changes : list (nat * Value)) : list Value :=
  fold_left (fun row '(index, value) => <[index := value]> row) changes row.

(** The columns with a source and their values. *)
Definition column_values (columns : list (option text)) (row : list Value) : list (text * Value) :=
  omap (fun x => x) (imap (fun index column => (fun c => (c, cell row index)) <$> column) columns).

Definition table_name (options : SaveOptions.t) : text := DataGridTableMeta.table_name (SaveOptions.table_meta options).

(** ** Neo4j *)

Definition neo4j_major_version (server_version : option text) : option N :=
  version ← server_version;
  let majors := omap (fun token => parse_digits 4294967295 (take_while is_ascii_digit token)) (tokens is_ascii_alphanumeric (trim version)) in
  head majors.

Definition neo4j_element_id_function (server_version : option text) : text :=
  match neo4j_major_version server_version with
  | Some major => if (major <? 5)%N then %"id" else %"elementId"
  | None => %"elementId"
  end.

Definition neo4j_ident (name : text) : text := quote_table_identifier (Some Neo4j) name.

Definition neo4j_legacy_element_id_literal (value : Value) : option text :=
  match value with
  | Number n => show_Z <$> number_as_i64 n
  | String s => let trimmed := trim s in if negb (is_empty trimmed) && forallb is_ascii_digit trimmed then Some trimmed else None
  | _ => None
  end.

Definition neo4j_element_id_predicate (columns : list text) (row : list Value) (element_id_function : text) : text :=
  let value :=
    match position (fun column => text_eqb column DBX_NEO4J_ELEMENT_ID_COLUMN) columns with Some index => cell row index | None => Null end in
  let literal :=
    match (if text_eqb element_id_function %"id" then neo4j_legacy_element_id_literal value else None) with
    | Some identity => identity
    | None => format_grid_sql_literal value (Some Neo4j) None
    end in
  element_id_function ++ %"(n) = " ++ literal.

(** The suffix that makes an array of a type. *)
Definition array_element_type (kind : text) : option text := first_some (strip_suffix %"array" kind) (strip_suffix %"[]" kind).

Definition array_items (value : Value) : text + list Value :=
  match as_array value with
  | Some items => inr items
  | None =>
      match (s ← as_str value; parsed ← parse_value s; as_array parsed) with
      | Some items => inr items
      | None => inl %"expected a JSON array"
      end
  end.

(** Every round of arrays shortens the type. *)
Fixpoint typed_property_literal_from (fuel : nat) (value : Value) (data_type : text) : text + text :=
  if is_null value then inr %"NULL"
  else
    let kind := lower (trim data_type) in
    match array_element_type kind, fuel with
    | Some element_type, S fuel' =>
        match array_items value with
        | inl e => inl e
        | inr items =>
            match collect_results (map (fun item =>
                    if is_null item then inl %"property arrays cannot contain null" else typed_property_literal_from fuel' item element_type) items) with
            | inl e => inl e
            | inr values => inr (%"[" ++ join %", " values ++ %"]")
            end
        end
    | Some _, O => inl []
    | None, _ =>
        let s := default (value_text value) (as_str value) in
        let quoted := format_grid_sql_literal (String s) (Some Neo4j) None in
        if text_in kind [%"long"; %"integer"; %"int"] then
          match parse_i64 (trim s) with
          | Some number => inr (%"toInteger('" ++ show_Z number ++ %"')")
          | None => inl %"expected a signed 64-bit integer"
          end
        else if text_in kind [%"double"; %"float"] then
          if parses_finite_f64 (trim s) then inr (%"toFloat(" ++ quoted ++ %")") else inl %"expected a finite float"
        else if text_in kind [%"boolean"; %"bool"] then
          let b := lower (trim s) in
          if text_eqb b %"true" then inr %"true" else if text_eqb b %"false" then inr %"false" else inl %"expected true or false"
        else if text_eqb kind %"string" then
          match as_str value with Some _ => inr quoted | None => inl %"expected a string" end
        else if text_eqb kind %"date" then inr (%"date(" ++ quoted ++ %")")
        else if text_eqb kind %"duration" then inr (%"duration(" ++ quoted ++ %")")
        else inl %"this property type requires an explicit Cypher query"
    end.

Definition typed_property_literal (value : Value) (data_type : text) : text + text :=
  typed_property_literal_from (length data_type) value data_type.

Definition property_literal (options : SaveOptions.t) (column : text) (value : Value) : text + text :=
  let data_type :=
    or_default (DataGridColumnInfo.data_type <$> List.find (fun info => text_eqb (DataGridColumnInfo.name info) column) (column_infos options)) in
  match typed_property_literal value data_type with
  | inl error => inl (%"Cannot save Neo4j property `" ++ column ++ %"` (" ++ data_type ++ %"): " ++ error)
  | inr literal => inr literal
  end.

(** The properties to write, [None] for the ones left out. *)
Definition neo4j_properties (options : SaveOptions.t) (prefix separator : text) (values : list (text * Value)) : text + text :=
  match collect_results (map (fun '(column, value) =>
          match property_literal options column value with
          | inl e => inl e
          | inr literal => inr (prefix ++ neo4j_ident column ++ separator ++ literal)
          end) (List.filter (fun '(column, _) => negb (is_neo4j_element_id (Some Neo4j) (Some column))) values)) with
  | inl e => inl e
  | inr parts => inr (join %", " parts)
  end.

(** The [SET] statement of a row; none where no property is left. *)
Definition neo4j_set_statement (options : SaveOptions.t) (row : list Value) (values : list (text * Value)) : text + list text :=
  let label := neo4j_ident (table_name options) in
  match neo4j_properties options %"n." %" = " values with
  | inl e => inl e
  | inr [] => inr []
  | inr sets =>
      inr [%"MATCH (n:" ++ label ++ %") WHERE "
           ++ neo4j_element_id_predicate (SaveOptions.columns options) row (neo4j_element_id_function (SaveOptions.server_version options))
           ++ %" SET " ++ sets ++ %";"]
  end.

Definition named_changes (columns : list text) (changes : list (nat * Value)) : list (text * Value) :=
  omap (fun '(index, value) => (fun column => (column, value)) <$> (columns !! index)) changes.

Definition neo4j_create_statement (options : SaveOptions.t) (row : list Value) : text + list text :=
  let label := neo4j_ident (table_name options) in
  let values := List.filter (fun '(_, value) => negb (is_null value)) (imap (fun index column => (column, cell row index)) (SaveOptions.columns options)) in
  match neo4j_properties options [] %": " values with
  | inl e => inl e
  | inr props =>
      inr [if is_empty props then %"CREATE (n:" ++ label ++ %");" else %"CREATE (n:" ++ label ++ %" " ++ LBRACE ++ props ++ RBRACE ++ %");"]
  end.

Definition build_neo4j_data_grid_save_statements (options : SaveOptions.t) : text + list text :=
  let label := neo4j_ident (table_name options) in
  let updates :=
    map (fun '(row, changes) => neo4j_set_statement options row (named_changes (SaveOptions.columns options) changes)) (dirty options) in
  let deletes :=
    map (fun row =>
      inr [%"MATCH (n:" ++ label ++ %") WHERE "
           ++ neo4j_element_id_predicate (SaveOptions.columns options) row (neo4j_element_id_function (SaveOptions.server_version options))
           ++ %" DETACH DELETE n;"]) (deleted options) in
  let inserts := map (neo4j_create_statement options) (SaveOptions.new_rows options) in
  match collect_results (updates ++ deletes ++ inserts) with inl e => inl e | inr ss => inr (concat ss) end.

Definition build_neo4j_data_grid_rollback_statements (options : SaveOptions.t) : text + list text :=
  if negb (is_empty (SaveOptions.new_rows options)) || negb (is_empty (SaveOptions.deleted_rows options)) then inr []
  else
    match collect_results (map (fun '(row, changes) =>
            neo4j_set_statement options row
              (named_changes (SaveOptions.columns options) (map (fun '(index, _) => (index, cell row index)) changes))) (dirty options)) with
    | inl e => inl e
    | inr ss => inr (concat ss)
    end.

(** ** IoTDB *)

Definition uses_iotdb_table_model_save (options : SaveOptions.t) : bool :=
  opt_in (SaveOptions.database_type options) [Iotdb] && negb (is_empty (primary_keys options)).

Definition iotdb_table (options : SaveOptions.t) : text :=
  let meta := SaveOptions.table_meta options in
  data_grid_qualified_table_name (Some Iotdb) (DataGridTableMeta.catalog meta) (DataGridTableMeta.schema meta) (DataGridTableMeta.database meta)
    (DataGridTableMeta.table_name meta) (SaveOptions.identifier_quote options).

Definition build_iotdb_insert_statement (options : SaveOptions.t) (insert_pairs : list (text * Value)) : option text :=
  if is_empty insert_pairs then None
  else
    let quote := SaveOptions.identifier_quote options in
    let columns := join %", " (map (fun '(column, _) => data_grid_identifier (Some Iotdb) column quote) insert_pairs) in
    let values :=
      join %", " (map (fun '(column, value) =>
        format_grid_save_sql_literal value (Some Iotdb) (column_info_for (column_infos options) column) quote) insert_pairs) in
    Some (data_grid_statement (Some Iotdb)
            (%"INSERT INTO " ++ iotdb_table options ++ %" (" ++ columns ++ %") VALUES (" ++ values ++ %")")).

Definition is_normalized_key (options : SaveOptions.t) (column : text) : bool :=
  text_in (normalize_column_name column) (map normalize_column_name (primary_keys options)).

Definition changed_value (changes : list (nat * Value)) (index : nat) : option Value :=
  snd <$> List.find (fun change => Nat.eqb change.1 index) changes.

Definition build_iotdb_changed_row_insert (options : SaveOptions.t) (columns : list (option text)) (row : list Value)
    (changes : list (nat * Value)) (use_changed_values : bool) : option text :=
  build_iotdb_insert_statement options
    (omap (fun x => x) (imap (fun index column =>
       column ← column;
       let is_primary_key := is_normalized_key options column in
       if negb is_primary_key && negb (existsb (fun change => Nat.eqb change.1 index) changes) then None
       else
         value ← (if use_changed_values && negb is_primary_key then changed_value changes index else Some (cell row index));
         Some (column, value)) columns)).

Definition build_iotdb_full_row_insert (options : SaveOptions.t) (columns : list (option text)) (row : list Value) : option text :=
  build_iotdb_insert_statement options (List.filter (fun '(_, value) => negb (is_null value)) (column_values columns row)).

Definition build_iotdb_delete_statement (options : SaveOptions.t) (columns : list (option text)) (row : list Value) : option text :=
  let where_clause :=
    build_primary_key_where (Some Iotdb) (primary_keys options) columns row (column_infos options) (SaveOptions.identifier_quote options) in
  if is_empty where_clause then None
  else Some (data_grid_statement (Some Iotdb) (data_grid_delete_sql (Some Iotdb) (iotdb_table options) where_clause)).

Definition build_iotdb_data_grid_save_statements (options : SaveOptions.t) : list text :=
  let columns := effective_columns options in
  omap (fun '(row, changes) => build_iotdb_changed_row_insert options columns row changes true) (dirty options)
  ++ omap (build_iotdb_delete_statement options columns) (deleted options)
  ++ omap (build_iotdb_full_row_insert options columns) (SaveOptions.new_rows options).

(** An old value that an insert cannot write back. *)
Definition clears (options : SaveOptions.t) (column : option text) (value : Value) : bool :=
  is_null value
  || match column with Some column => empty_string_saves_as_null value (column_info_for (column_infos options) column) | None => false end.

Definition iotdb_restore (options : SaveOptions.t) (columns : list (option text)) (row : list Value) (changes : list (nat * Value)) : list text :=
  if existsb (fun '(index, _) => clears options (column_at columns index) (cell row index)) changes
  then omap (fun x => x) [build_iotdb_delete_statement options columns row; build_iotdb_full_row_insert options columns row]
  else omap (fun x => x) [build_iotdb_changed_row_insert options columns row changes false].

Definition build_iotdb_data_grid_rollback_statements (options : SaveOptions.t) : list text :=
  let columns := effective_columns options in
  omap (build_iotdb_delete_statement options columns) (SaveOptions.new_rows options)
  ++ omap (build_iotdb_full_row_insert options columns) (deleted options)
  ++ concat (map (fun '(row, changes) => iotdb_restore options columns row changes) (dirty options)).

(** The first error of the changes, in order. *)
Definition iotdb_change_error (options : SaveOptions.t) (columns : list (option text)) (change : nat * Value) : option text :=
  let '(index, value) := change in
  column ← column_at columns index;
  if is_normalized_key options column then Some %"IoTDB row identifier columns (time and TAG) cannot be edited."
  else if clears options (Some column) value
  then Some %"IoTDB Table model cannot clear a FIELD or ATTRIBUTE value without deleting the row. Enter a non-NULL value or delete the row instead."
  else None.

Definition validate_iotdb_existing_rows (options : SaveOptions.t) : option text :=
  if negb (uses_iotdb_table_model_save options) || is_empty (SaveOptions.dirty_rows options) then None
  else
    head (omap (iotdb_change_error options (effective_columns options)) (concat (map snd (SaveOptions.dirty_rows options)))).

(** ** TDengine *)

Definition is_tbname (column : text) : bool := eq_ignore_ascii_case column DBX_TDENGINE_TBNAME_COLUMN.

Definition requires_tbname (options : SaveOptions.t) : bool := existsb is_tbname (primary_keys options).

Definition has_tbname (columns : list (option text)) : bool :=
  existsb (fun column => match column with Some c => is_tbname c | None => false end) columns.

Definition tdengine_row_primary_keys (options : SaveOptions.t) : list text := List.filter (fun key => negb (is_tbname key)) (primary_keys options).

Definition has_tdengine_composite_primary_key (options : SaveOptions.t) : bool := Nat.ltb 1 (length (tdengine_row_primary_keys options)).

Definition tdengine_tbname_value (columns : list (option text)) (row : list Value) : option text :=
  index ← position (fun column => match column with Some c => is_tbname c | None => false end) columns;
  value ← row !! index;
  if is_null value then None else Some (default (value_text value) (as_str value)).

Definition tdengine_can_insert_column (column table : text) (tbname : option text) (tag_columns : list text) : bool :=
  let normalized := lower column in
  let target_is_child_table := match tbname with Some tbname => text_eqb tbname table | None => true end in
  if negb target_is_child_table then true
  else if text_eqb normalized DBX_TDENGINE_TBNAME_COLUMN then false
  else negb (text_in normalized tag_columns).

Definition tdengine_tag_columns (columns : list DataGridColumnInfo.t) : list text :=
  map (fun column => lower (DataGridColumnInfo.name column))
    (List.filter (fun column => contains %"tag" (lower (or_default (DataGridColumnInfo.extra column)))) columns).

Definition tdengine_schema (options : SaveOptions.t) : option text := DataGridTableMeta.schema (SaveOptions.table_meta options).

Definition build_tdengine_insert_statement (options : SaveOptions.t) (columns : list (option text)) (row : list Value) : option text :=
  let tbname := tdengine_tbname_value columns row in
  let table := qualified_table_name (Some Tdengine) (tdengine_schema options) (table_name options) in
  let tags := tdengine_tag_columns (column_infos options) in
  let insert_pairs :=
    List.filter (fun '(column, value) => negb (is_null value) && tdengine_can_insert_column column (table_name options) tbname tags)
      (column_values columns row) in
  if is_empty insert_pairs then None
  else
    Some (%"INSERT INTO " ++ table ++ %" (" ++ join %", " (map (fun '(column, _) => quote_table_identifier (Some Tdengine) column) insert_pairs)
          ++ %") VALUES (" ++ join %", " (map (fun '(_, value) => format_grid_sql_literal value (Some Tdengine) None) insert_pairs) ++ %");").

Definition build_tdengine_delete_statement (options : SaveOptions.t) (columns : list (option text)) (row : list Value) : option text :=
  if has_tdengine_composite_primary_key options then None
  else
    let child := default (table_name options) (tdengine_tbname_value columns row) in
    let where_clause := build_primary_key_where (Some Tdengine) (tdengine_row_primary_keys options) columns row (column_infos options) None in
    if is_empty where_clause then None
    else
      Some (data_grid_statement (Some Tdengine)
              (data_grid_delete_sql (Some Tdengine) (qualified_table_name (Some Tdengine) (tdengine_schema options) child) where_clause)).

Definition build_tdengine_data_grid_save_statements (options : SaveOptions.t) : list text :=
  let columns := effective_columns options in
  (if has_tbname columns || negb (requires_tbname options)
   then omap (fun '(row, changes) => build_tdengine_insert_statement options columns (after_changes row changes)) (dirty options)
   else [])
  ++ omap (build_tdengine_delete_statement options columns) (deleted options)
  ++ omap (build_tdengine_insert_statement options columns) (SaveOptions.new_rows options).

Definition build_tdengine_data_grid_rollback_statements (options : SaveOptions.t) : list text :=
  if has_tdengine_composite_primary_key options && negb (is_empty (SaveOptions.new_rows options)) then []
  else
    let columns := effective_columns options in
    omap (build_tdengine_delete_statement options columns) (SaveOptions.new_rows options)
    ++ omap (build_tdengine_insert_statement options columns) (deleted options)
    ++ omap (fun '(row, _) => build_tdengine_insert_statement options columns row) (dirty options).

Definition lacks_tbname (columns : list (option text)) (row : list Value) : bool :=
  match tdengine_tbname_value columns row with Some tbname => is_empty (trim tbname) | None => true end.

Definition validate_tdengine_inserted_rows (options : SaveOptions.t) : option text :=
  if negb (opt_in (SaveOptions.database_type options) [Tdengine]) || is_empty (SaveOptions.new_rows options) || negb (requires_tbname options)
  then None
  else if existsb (lacks_tbname (effective_columns options)) (SaveOptions.new_rows options)
  then Some %"TDengine STABLE inserts require a child table name (tbname)." else None.

Definition TDENGINE_IDENTITY_ERROR : text := %"TDengine row editing requires all row identifier columns in the result.".

(** A row that is missing or has no value for part of its identity. *)
Definition tdengine_unidentified (options : SaveOptions.t) (index : nat) : bool :=
  let columns := effective_columns options in
  match SaveOptions.rows options !! index with
  | None => true
  | Some row =>
      (requires_tbname options && lacks_tbname columns row)
      || existsb (fun key => is_null (default Null (i ← find_column_index (SaveOptions.database_type options) columns key; row !! i)))
           (tdengine_row_primary_keys options)
  end.

Definition validate_tdengine_existing_rows (options : SaveOptions.t) : option text :=
  let columns := effective_columns options in
  let keys := tdengine_row_primary_keys options in
  if negb (opt_in (SaveOptions.database_type options) [Tdengine]) || no_touched_rows options then None
  else if has_tdengine_composite_primary_key options && negb (is_empty (SaveOptions.deleted_rows options))
  then Some %"TDengine tables with composite keys do not support row deletion."
  else if (requires_tbname options && negb (has_tbname columns)) || is_empty keys
          || existsb (fun key => match find_column_index (SaveOptions.database_type options) columns key with Some _ => false | None => true end) keys
  then Some TDENGINE_IDENTITY_ERROR
  else if existsb (fun '(_, changes) => existsb (fun '(index, _) =>
            match column_at columns index with
            | Some column => existsb (fun key => eq_ignore_ascii_case key column) (primary_keys options)
            | None => false
            end) changes) (SaveOptions.dirty_rows options)
  then Some %"TDengine row identifier columns cannot be edited."
  else if existsb (tdengine_unidentified options) (SaveOptions.deleted_rows options ++ map fst (SaveOptions.dirty_rows options))
  then Some TDENGINE_IDENTITY_ERROR
  else None.

(** ** Salesforce *)

Definition SALESFORCE_DML_HEADER : text := %"DBX SALESFORCE DML".

Definition resolve_salesforce_columns (options : SaveOptions.t) : list (option text) :=
  effective_copy_columns (SaveOptions.source_columns options) (SaveOptions.columns options).

Definition named_like (name : text) (column : option text) : bool := match column with Some c => text_eqb (upper c) (upper name) | None => false end.

Definition find_salesforce_id_column_index (columns : list (option text)) (keys : list text) : option nat :=
  match head (omap (fun key => position (named_like key) columns) keys) with
  | Some index => Some index
  | None => position (fun column => match column with Some c => eq_ignore_ascii_case c %"Id" | None => false end) columns
  end.

(** [Map::insert]. *)
Fixpoint map_insert (key : text) (value : Value) (entries : list (text * Value)) : list (text * Value) :=
  match entries with
  | [] => [(key, value)]
  | (k, v) :: entries' => if text_eqb k key then (key, value) :: entries' else (k, v) :: map_insert key value entries'
  end.

Definition salesforce_extra_flag (info : option DataGridColumnInfo.t) (key : text) : option bool :=
  extra ← extra_of info;
  value ← parse_value extra;
  match value with
  | Object entries => '(_, flag) ← List.find (fun e => text_eqb e.1 key) entries; as_bool flag
  | _ => None
  end.

Definition salesforce_column_is_updateable (info : option DataGridColumnInfo.t) : bool := default true (salesforce_extra_flag info %"updateable").
Definition salesforce_column_is_createable (info : option DataGridColumnInfo.t) : bool := default true (salesforce_extra_flag info %"createable").

Definition salesforce_statement (body : list (text * Value)) : text := SALESFORCE_DML_HEADER ++ [nl] ++ value_text (Object body).

(** The fields that may be written, in the order they are inserted. *)
Definition salesforce_fields (options : SaveOptions.t) (writable : option DataGridColumnInfo.t -> bool) (values : list (text * Value))
    : list (text * Value) :=
  fold_left (fun fields '(field, value) =>
    if eq_ignore_ascii_case field %"Id" || negb (writable (column_info_for (column_infos options) field)) then fields
    else map_insert field value fields) values [].

(** The record's identifier, where it is a text that is not empty. *)
Definition salesforce_id (options : SaveOptions.t) (row : list Value) : option text :=
  index ← find_salesforce_id_column_index (resolve_salesforce_columns options) (primary_keys options);
  value ← row !! index;
  id ← as_str value;
  if is_empty id then None else Some id.

Definition salesforce_update (options : SaveOptions.t) (row : list Value) (changes : list (nat * Value)) : option text :=
  id ← salesforce_id options row;
  let values := omap (fun '(index, value) => (fun c => (c, value)) <$> column_at (resolve_salesforce_columns options) index) changes in
  let fields := salesforce_fields options salesforce_column_is_updateable values in
  if is_empty fields then None
  else Some (salesforce_statement [(%"op", String %"update"); (%"object", String (table_name options)); (%"id", String id); (%"fields", Object fields)]).

Definition salesforce_delete (options : SaveOptions.t) (row : list Value) : option text :=
  id ← salesforce_id options row;
  Some (salesforce_statement [(%"op", String %"delete"); (%"object", String (table_name options)); (%"id", String id)]).

Definition grid_value_is_empty (value : Value) : bool := is_null value || match as_str value with Some [] => true | _ => false end.

Definition salesforce_insert (options : SaveOptions.t) (row : list Value) : option text :=
  let values := List.filter (fun '(_, value) => negb (grid_value_is_empty value)) (column_values (resolve_salesforce_columns options) row) in
  let fields := salesforce_fields options salesforce_column_is_createable values in
  if is_empty fields then None
  else Some (salesforce_statement [(%"op", String %"insert"); (%"object", String (table_name options)); (%"fields", Object fields)]).

Definition build_salesforce_data_grid_save_statements (options : SaveOptions.t) : list text :=
  omap (fun '(row, changes) => salesforce_update options row changes) (dirty options)
  ++ omap (salesforce_delete options) (deleted options)
  ++ omap (salesforce_insert options) (SaveOptions.new_rows options).

Definition build_salesforce_data_grid_rollback_statements (_ : SaveOptions.t) : list text := [].

Definition validate_salesforce_id_column (options : SaveOptions.t) : option text :=
  if negb (opt_in (SaveOptions.database_type options) [Salesforce]) then None
  else if no_touched_rows options && is_empty (SaveOptions.new_rows options) then None
  else
    match find_salesforce_id_column_index (resolve_salesforce_columns options) (primary_keys options) with
    | Some _ => None
    | None =>
        Some (%"Cannot save Salesforce " ++ table_name options
              ++ %": no Id column found. The grid must include the record Id to enable editing.")
    end.

End Engines.
