(* ===== verification/GridSave.v ===== *)
(** * GridSave: saving an edited grid ([data_grid_sql.rs], [prepare_data_grid_save] with
      the validations and the statements it builds).

    A save is refused with a message or becomes its statements, those that undo it, the
    checks to run before it, and the statements to execute with bound large objects. *)

From stdpp Require Import list.
From S2P Require Import Prelude DbTypes WriteClass SchemaTypes ViewDdl DdlProfile Identifiers DefaultLiteral GridTypes GridLiterals GridPredicates.
From S2P Require Import GridBatch GridEngines.

Definition KEYLESS_GUARD_COUNT_ALIAS : text := %"dbx_keyless_row_matches".

Definition KEYLESS_AMBIGUOUS_ROW_ERROR : text :=
  %"Cannot safely update or delete this row: the table has no primary key, so the row is identified by matching every column value, and more than one row in the table matches that condition. Add a primary key or unique index, or make the rows distinguishable, before editing.".

Definition KEYLESS_UNIDENTIFIABLE_ROW_ERROR : text :=
  %"Cannot safely update or delete this row: the table has no primary key and none of the result columns map to a table column, so there is no condition that can target a single row. Add a primary key, or edit the table directly, before saving.".

Definition POSTGRES_CTID_UNIDENTIFIABLE_ROW_ERROR : text :=
  %"Cannot safely update or delete this PostgreSQL row because its hidden row identifier is missing or invalid. Refresh the table data before saving.".

Definition POSTGRES_CTID_STALE_ROW_ERROR : text :=
  %"Cannot safely update or delete this PostgreSQL row: it no longer matches the physical row that was loaded. Another session may have changed or deleted it. Refresh the table data and try again.".

Definition DAMENG_KEYLESS_BINARY_LOB_ERROR : text :=
  %"Cannot safely update or delete this row: the table has no primary key, and Dameng cannot compare binary LOB values, so Dbx cannot build a condition that targets it. Add a primary key or unique index, or exclude the binary LOB column from the query, before editing.".

Definition ORACLE_KEYLESS_LOB_ERROR : text :=
  %"Cannot safely update or delete this Oracle-compatible row because the table has LOB columns but no primary key or ROWID identifier.".

Definition OCEANBASE_BLOB_ERROR : text :=
  %"OceanBase BLOB values must be NULL or 0x followed by complete hexadecimal byte pairs; reload the original value before saving.".

Definition clickhouse_no_mutable_columns_error : text :=
  %"ClickHouse primary or partition key columns cannot be updated. Change a non-key column before saving.".

Definition null_write_error (column : text) : text := %"Column " ++ [dquote] ++ column ++ [dquote] ++ %" does not allow NULL.".

(** [dbx-types], [types.rs]. *)
Definition is_opaque_aggregate_state_type (data_type : text) : bool :=
  let data_type := trim data_type in
  match (prefix ← get_range 0 9 data_type;
         rest ← get_from 9 data_type;
         arguments ← strip_prefix %"<" (trim_start rest);
         inner ← strip_suffix %">" arguments;
         Some (eq_ignore_ascii_case prefix %"agg_state" && negb (is_empty (trim inner)))) with
  | Some opaque => opaque
  | None => false
  end.

(** The first error of a list of checks. *)
Definition first_error (checks : list (option text)) : option text := head (omap (fun error => error) checks).

Definition fails (test : bool) (error : text) : option text := if test then Some error else None.

Record DataGridSaveGuard : Set := mk_guard {
  guard_sql : text;
  max_matched_rows : N;
  min_matched_rows : N;
  message : text;
  min_message : option text
}.

Record DataGridSavePreparation : Set := mk_preparation {
  validation_error : option text;
  statements : list text;
  rollback_statements : list text;
  execution_schema : option text;
  keyless_guards : list DataGridSaveGuard;
  bound_statements : list BlobBoundStatement
}.

Section Save.

Context `{JsonCodec} `{Chrono} `{PercentDecode} `{LetterTable} `{CharTable}.

Implicit Types (options : SaveOptions.t) (columns : list (option text)) (row : list Value).

(** ** Refused saves *)

Definition has_value row (index : nat) : bool := match row !! index with Some value => negb (is_null value) | None => false end.

(** [options.rows.get(index)] for the rows an edit touches. *)
Definition touched options : list (list Value) := omap (fun index => SaveOptions.rows options !! index) (touched_row_indexes options).

Definition keyless options : bool := is_empty (primary_keys options).

Definition info_of options (column : text) : option DataGridColumnInfo.t := column_info_for (column_infos options) column.

Definition validate_oceanbase_blob_save options : option text :=
  let columns := effective_columns options in
  let database_type := SaveOptions.database_type options in
  let valid index value :=
    negb (is_oceanbase_blob_column database_type (column_at columns index ≫= info_of options))
    || is_null value || match oceanbase_blob_hex value with Some _ => true | None => false end in
  if negb (opt_in database_type [OceanbaseOracle]) then None
  else
    fails
      (existsb (fun '(row_index, changes) =>
         existsb (fun '(index, value) =>
           negb (valid index value)
           || match SaveOptions.rows options !! row_index with Some row => negb (valid index (cell row index)) | None => false end) changes)
         (SaveOptions.dirty_rows options)
       || existsb (fun row => existsb (fun '(index, value) => negb (valid index value)) (imap pair row))
            (deleted options ++ SaveOptions.new_rows options))
      OCEANBASE_BLOB_ERROR.

Definition opaque_indexes options : list nat :=
  indexes_of (fun column => typed is_opaque_aggregate_state_type (column ≫= info_of options)) (effective_columns options).

Definition validate_opaque_aggregate_state_write options : option text :=
  let opaque := opaque_indexes options in
  let holds_opaque row := existsb (has_value row) opaque in
  if existsb (fun '(_, changes) => existsb (fun '(index, _) => existsb (Nat.eqb index) opaque) changes) (SaveOptions.dirty_rows options)
     || existsb holds_opaque (SaveOptions.new_rows options)
  then Some %"Doris aggregate-state columns are opaque and cannot be written automatically; use an explicit Doris state function instead."
  else
    fails (keyless options && existsb holds_opaque (touched options))
      %"Cannot safely update or delete a keyless row whose predicate would contain an opaque Doris aggregate-state value.".

Definition key_indexes options : list (option nat) :=
  map (find_column_index (SaveOptions.database_type options) (effective_columns options)) (primary_keys options).

(** The first key column that has no value in a row. *)
Definition valueless_key options row : option text :=
  fst <$> List.find (fun '(_, index) => match index with Some i => negb (has_value row i) | None => true end)
            (combine (primary_keys options) (key_indexes options)).

Definition validate_existing_row_primary_keys options : option text :=
  if keyless options || no_touched_rows options then None
  else
    let missing :=
      map fst (List.filter (fun '(_, index) => match index with Some _ => false | None => true end)
        (combine (primary_keys options) (key_indexes options))) in
    if negb (is_empty missing) then
      Some (%"Cannot safely update or delete rows because the query result does not include every primary key column (missing: "
            ++ join %", " missing ++ %"). Refresh or rerun the query before saving.")
    else
      primary_key ← head (omap (valueless_key options) (touched options));
      Some (%"Cannot safely update or delete rows because primary key column " ++ [dquote] ++ primary_key ++ [dquote]
            ++ %" has no value in the query result. Refresh or rerun the query before saving.").

Definition row_id_index options : option nat :=
  find_column_index (SaveOptions.database_type options) (effective_columns options) DBX_ROWID_COLUMN.

Definition validate_postgres_ctid_row_identifier options : option text :=
  if negb (uses_postgres_ctid (SaveOptions.database_type options)) || negb (keyless options) || no_touched_rows options then None
  else
    index ← row_id_index options;
    fails (existsb (fun row => match row !! index ≫= parse_postgres_ctid_row_id with Some _ => false | None => true end) (touched options))
      POSTGRES_CTID_UNIDENTIFIABLE_ROW_ERROR.

Definition validate_oracle_keyless_lob_predicate options : option text :=
  if negb (uses_oracle_row_id (SaveOptions.database_type options)) || negb (keyless options) || no_touched_rows options then None
  else fails (existsb (fun column => is_oracle_lob_type (DataGridColumnInfo.data_type column)) (column_infos options)) ORACLE_KEYLESS_LOB_ERROR.

Definition compares_binary_lob options row : bool :=
  existsb (fun '(index, column) =>
    match column with
    | Some name =>
        negb (is_synthetic_row_id (SaveOptions.database_type options) (Some name)) && has_value row index
        && typed is_dameng_uncomparable_lob_type (info_of options name)
    | None => false
    end) (imap pair (effective_columns options)).

Definition validate_dameng_keyless_binary_lob_predicate options : option text :=
  if negb (opt_in (SaveOptions.database_type options) [Dameng]) || negb (keyless options) || no_touched_rows options then None
  else fails (existsb (compares_binary_lob options) (touched options)) DAMENG_KEYLESS_BINARY_LOB_ERROR.

Definition row_where options row : text :=
  build_row_where (SaveOptions.database_type options) (effective_columns options) row (column_infos options)
    (SaveOptions.identifier_quote options).

Definition validate_keyless_row_predicate options : option text :=
  if negb (keyless options) || negb (uses_keyless_row_predicate (SaveOptions.database_type options)) then None
  else fails (existsb (fun row => is_empty (trim (row_where options row))) (touched options)) KEYLESS_UNIDENTIFIABLE_ROW_ERROR.

Definition primary_key_set options : list text := map normalize_column_name (primary_keys options).

Definition update_omits options (key_set : list text) (column : text) : bool :=
  is_grid_update_omitted_column (SaveOptions.database_type options) (info_of options column) (Some column) key_set.

Definition validate_clickhouse_mutable_updates options : option text :=
  let columns := effective_columns options in
  let key_set := primary_key_set options in
  let has_key_metadata :=
    negb (is_empty key_set)
    || existsb (fun column => is_clickhouse_partition_key_column (SaveOptions.database_type options) (Some column)) (column_infos options) in
  let mutable '(index, _) := match column_at columns index with Some column => negb (update_omits options key_set column) | None => false end in
  if negb (opt_in (SaveOptions.database_type options) [ClickHouse]) || negb has_key_metadata then None
  else
    fails (existsb (fun '(_, changes) => negb (is_empty changes) && negb (existsb mutable changes)) (SaveOptions.dirty_rows options))
      clickhouse_no_mutable_columns_error.

Definition primary_key_value_key (primary_key_indexes : list nat) row : option text :=
  let values := map (cell row) primary_key_indexes in
  if existsb is_null values then None else Some (value_text (Array values)).

Definition format_key_value_for_message (value : Value) : text :=
  match value with
  | Null => %"NULL"
  | String s => [dquote] ++ replace_char dquote [bslash; dquote] s ++ [dquote]
  | _ => value_text value
  end.

Definition duplicate_primary_key_error (primary_keys : list text) (primary_key_indexes : list nat) row (matches_existing_row : bool) : text :=
  let summary :=
    join %", " (map (fun '(primary_key, index) => primary_key ++ %" = " ++ format_key_value_for_message (cell row index))
      (combine primary_keys primary_key_indexes)) in
  let source := if matches_existing_row then %"the existing primary key" else %"another new row's primary key" in
  %"New row duplicates " ++ source ++ %" (" ++ summary ++ %"). Change the key before saving.".

(** The new rows against the keys of the page and of the new rows before them. *)
Fixpoint inserted_key_error (primary_keys : list text) (indexes : list nat) (existing_keys new_keys : list text) (new_rows : list (list Value))
    : option text :=
  match new_rows with
  | [] => None
  | row :: rest =>
      match primary_key_value_key indexes row with
      | None => inserted_key_error primary_keys indexes existing_keys new_keys rest
      | Some key =>
          if text_in key existing_keys || text_in key new_keys
          then Some (duplicate_primary_key_error primary_keys indexes row (text_in key existing_keys))
          else inserted_key_error primary_keys indexes existing_keys (new_keys ++ [key]) rest
      end
  end.

Definition validate_inserted_primary_keys options : option text :=
  if keyless options || is_empty (SaveOptions.new_rows options) then None
  else
    indexes ← mapM (fun index => index) (key_indexes options);
    inserted_key_error (primary_keys options) indexes (omap (primary_key_value_key indexes) (SaveOptions.rows options)) []
      (SaveOptions.new_rows options).

Definition is_null_write_to_not_null_column (database_type : option DatabaseType) (not_null_columns : list text) (column : option text)
    (value : Value) : bool :=
  match column with
  | None => false
  | Some name =>
      negb (is_synthetic_row_id database_type column) && negb (is_neo4j_element_id database_type column)
      && is_null value && text_in (normalize_column_name name) not_null_columns
  end.

Definition requires_value options (column : DataGridColumnInfo.t) : bool :=
  negb (DataGridColumnInfo.is_nullable column)
  && match DataGridColumnInfo.column_default column with Some _ => false | None => true end
  && negb (is_auto_generated_column column) && negb (is_non_identity_generated_column (Some column))
  && negb (is_synthetic_row_id (SaveOptions.database_type options) (Some (DataGridColumnInfo.name column))).

Definition not_null_columns options : list text :=
  map (fun column => normalize_column_name (DataGridColumnInfo.name column)) (List.filter (requires_value options) (column_infos options)).

Definition null_write options (write : nat * Value) : option text :=
  let column := column_at (effective_columns options) (fst write) in
  fails (is_null_write_to_not_null_column (SaveOptions.database_type options) (not_null_columns options) column (snd write))
    (null_write_error (or_default column)).

(** The null writes of the updates and, but for MySQL with its triggers, of the new rows. *)
Definition validate_null_writes options : option text :=
  if is_empty (not_null_columns options) then None
  else
    let updated := SaveOptions.dirty_rows options ≫= snd in
    let inserted :=
      if opt_in (SaveOptions.database_type options) [Mysql] then []
      else SaveOptions.new_rows options ≫= fun row => map (fun index => (index, cell row index)) (seq 0 (length (SaveOptions.columns options))) in
    first_error (map (null_write options) (updated ++ inserted)).

Definition validate_data_grid_save options : option text :=
  first_error
    [validate_oceanbase_blob_save options;
     validate_opaque_aggregate_state_write options;
     validate_salesforce_id_column options;
     validate_iotdb_existing_rows options;
     validate_tdengine_inserted_rows options;
     validate_inserted_primary_keys options;
     validate_tdengine_existing_rows options;
     validate_existing_row_primary_keys options;
     validate_postgres_ctid_row_identifier options;
     validate_oracle_keyless_lob_predicate options;
     validate_dameng_keyless_binary_lob_predicate options;
     validate_keyless_row_predicate options;
     validate_clickhouse_mutable_updates options;
     validate_null_writes options].

(** ** Saved rows *)

Definition save_schema options (driver_profile : option text) : option text :=
  table_data_schema (SaveOptions.database_type options) driver_profile (DataGridTableMeta.schema (SaveOptions.table_meta options)).

Definition save_table options (driver_profile : option text) : text := data_grid_save_table_name options (save_schema options driver_profile).

Definition column_ident options (column : text) : text :=
  data_grid_identifier (SaveOptions.database_type options) column (SaveOptions.identifier_quote options).

Definition save_literal options (column : text) (value : Value) : text :=
  format_grid_save_sql_literal value (SaveOptions.database_type options) (info_of options column) (SaveOptions.identifier_quote options).

Definition assignment_literal options (column : text) (value : Value) : text :=
  format_grid_assignment_sql_literal value (SaveOptions.database_type options) (info_of options column) (SaveOptions.identifier_quote options).

(** The changes that an UPDATE may carry, with their columns. *)
Definition writable_changes options (key_set : list text) (changes : list (nat * Value)) : list (nat * Value * text) :=
  omap (fun change =>
    column ← column_at (effective_columns options) (fst change);
    if update_omits options key_set column then None else Some (change, column)) changes.

Definition update_sets options (changes : list (nat * Value)) : text :=
  join %", " (map (fun '(_, value, column) => column_ident options column ++ %" = " ++ save_literal options column value)
    (writable_changes options (primary_key_set options) changes)).

Definition key_predicate options row : MysqlKeyPredicate :=
  build_primary_key_predicate (SaveOptions.database_type options) (primary_keys options) (effective_columns options) row (column_infos options)
    (SaveOptions.identifier_quote options).

(** The condition on a row, with those on its large objects, and whether there are any. *)
Definition save_predicate options row (indexes : list nat) : MysqlKeyPredicate * bool :=
  let predicate := key_predicate options row in
  let '(clause, guarded) := append_oceanbase_lob_save_guards options (effective_columns options) row indexes (sql predicate) in
  (mk_predicate clause (if guarded then None else plain predicate), guarded).

(** Sets, condition and whether large objects are compared, for every row with a change to write. *)
Definition save_updates options : list (text * (MysqlKeyPredicate * bool)) :=
  omap (fun '(row, changes) =>
    let sets := update_sets options changes in
    if is_empty sets then None else Some (sets, save_predicate options row (map fst changes))) (dirty options).

Definition save_deletes options : list (MysqlKeyPredicate * bool) :=
  map (fun row => save_predicate options row (seq 0 (length (effective_columns options)))) (deleted options).

Definition supports_mysql_data_grid_batch options : bool := opt_in (SaveOptions.database_type options) [Mysql] && negb (keyless options).

(** Consecutive updates with the same sets share their statements; [current] is the open group. *)
Fixpoint batched_updates (table : text) (current : option (text * list MysqlKeyPredicate)) (updates : list (text * (MysqlKeyPredicate * bool)))
    : list text :=
  let flush :=
    match current with
    | Some (sets, predicates) => push_mysql_key_predicate_batches (%"UPDATE " ++ table ++ %" SET " ++ sets ++ %" WHERE ") predicates
    | None => []
    end in
  match updates with
  | [] => flush
  | (sets, (predicate, _)) :: rest =>
      match current with
      | Some (current_sets, predicates) =>
          if text_eqb current_sets sets then batched_updates table (Some (sets, predicates ++ [predicate])) rest
          else flush ++ batched_updates table (Some (sets, [predicate])) rest
      | None => batched_updates table (Some (sets, [predicate])) rest
      end
  end.

Definition guards_keyless_predicates options : bool := keyless options && uses_keyless_row_predicate (SaveOptions.database_type options).

Definition postgres_ctid_locator options : bool :=
  guards_keyless_predicates options && uses_postgres_ctid (SaveOptions.database_type options)
  && match row_id_index options with Some _ => true | None => false end.

(** The conditions the UPDATE and DELETE statements carry, each once. *)
Definition guarded_predicates options : list text :=
  if guards_keyless_predicates options then
    fold_left (fun guarded predicate => if is_empty (trim predicate) || text_in predicate guarded then guarded else guarded ++ [predicate])
      (map (fun update => sql (fst (snd update))) (save_updates options) ++ map (fun delete => sql (fst delete)) (save_deletes options)) []
  else [].

Definition keyless_guard options (table predicate : text) : DataGridSaveGuard :=
  let requires_match := postgres_ctid_locator options in
  mk_guard (%"SELECT COUNT(*) AS " ++ KEYLESS_GUARD_COUNT_ALIAS ++ %" FROM " ++ table ++ %" WHERE (" ++ predicate ++ %")")
    1 (if requires_match then 1 else 0) KEYLESS_AMBIGUOUS_ROW_ERROR (if requires_match then Some POSTGRES_CTID_STALE_ROW_ERROR else None).

(** ** Inserted rows *)

Definition is_starrocks options (driver_profile : option text) : bool :=
  opt_in (SaveOptions.database_type options) [StarRocks]
  || (opt_in (SaveOptions.database_type options) [Mysql]
      && match driver_profile with Some profile => eq_ignore_ascii_case profile %"starrocks" | None => false end).

Definition insert_omits options (column : text) : bool :=
  is_grid_insert_omitted_column (SaveOptions.database_type options) (info_of options column) (Some column) false.

Definition insert_pairs options (driver_profile : option text) row : list (text * Value) :=
  List.filter (fun '(column, value) =>
    (negb match info_of options column with Some info => is_auto_generated_column info | None => false end || negb (grid_value_is_empty value))
    && negb (insert_omits options column)
    && (is_starrocks options driver_profile || negb (is_null value))) (column_values (effective_columns options) row).

(** The value of an unset column of StarRocks. *)
Definition starrocks_unset_value (info : option DataGridColumnInfo.t) : text :=
  match info ≫= DataGridColumnInfo.column_default with
  | Some default =>
      let normalized := lower (List.filter (fun c => negb (is_ascii_whitespace c)) default) in
      let expression := strip_parentheses_from (length normalized) normalized in
      if text_in expression [%"uuid()"; %"uuid_numeric()"] then expression else %"DEFAULT"
  | None => if match info with Some info => DataGridColumnInfo.is_nullable info | None => false end then %"NULL" else %"DEFAULT"
  end.

Definition insert_value options (driver_profile : option text) (column : text) (value : Value) : text :=
  if is_starrocks options driver_profile && is_null value then starrocks_unset_value (info_of options column)
  else save_literal options column value.

Definition insert_sql options (table columns values : text) : text :=
  if opt_in (SaveOptions.database_type options) [Transwarp]
  then %"INSERT INTO " ++ table ++ %" (" ++ columns ++ %") SELECT " ++ values
  else %"INSERT INTO " ++ table ++ %" (" ++ columns ++ %") VALUES (" ++ values ++ %")".

Definition column_list options (pairs : list (text * Value)) : text := join %", " (map (fun pair => column_ident options (fst pair)) pairs).

Definition build_hive_values_insert options (table : text) columns row (save_literals skip_all_null : bool) : option text :=
  let target_columns :=
    match column_infos options with
    | [] => omap (fun column => column) columns
    | metadata => map DataGridColumnInfo.name metadata
    end in
  let values := map (fun column => (column, default Null (index ← find_column_index (Some Hive) columns column; row !! index))) target_columns in
  if is_empty target_columns || (skip_all_null && forallb (fun pair => is_null (snd pair)) values) then None
  else
    let literal '(column, value) := if save_literals then save_literal options column value else assignment_literal options column value in
    Some (%"INSERT INTO TABLE " ++ table ++ %" VALUES (" ++ join %", " (map literal values) ++ %")").

(** The statement to show for a new row and, for OceanBase, the one to execute. *)
Definition save_insert options (driver_profile : option text) row : option (text * list BlobBoundStatement) :=
  let database_type := SaveOptions.database_type options in
  let table := save_table options driver_profile in
  if opt_in database_type [Hive] then
    statement ← build_hive_values_insert options table (effective_columns options) row true true;
    Some (data_grid_statement database_type statement, [])
  else
    match insert_pairs options driver_profile row with
    | [] => if opt_in database_type [Mysql] then Some (data_grid_statement database_type (%"INSERT INTO " ++ table ++ %" () VALUES ()"), []) else None
    | pairs =>
        let values := join %", " (map (fun '(column, value) => insert_value options driver_profile column value) pairs) in
        Some (data_grid_save_statement database_type (insert_sql options table (column_list options pairs) values) false)
    end.

(** ** The statements of a save *)

Definition save_update_statements options (driver_profile : option text) : list (text * list BlobBoundStatement) :=
  let database_type := SaveOptions.database_type options in
  let table := save_table options driver_profile in
  if supports_mysql_data_grid_batch options then map (fun statement => (statement, [])) (batched_updates table None (save_updates options))
  else
    map (fun '(sets, (predicate, guarded)) =>
      data_grid_save_statement database_type (data_grid_update_sql database_type table sets (sql predicate)) guarded) (save_updates options).

Definition save_delete_statements options (driver_profile : option text) : list (text * list BlobBoundStatement) :=
  let database_type := SaveOptions.database_type options in
  let table := save_table options driver_profile in
  if supports_mysql_data_grid_batch options then
    map (fun statement => (statement, []))
      (push_mysql_key_predicate_batches (%"DELETE FROM " ++ table ++ %" WHERE ") (map fst (save_deletes options)))
  else
    map (fun '(predicate, guarded) =>
      data_grid_save_statement database_type (data_grid_delete_sql database_type table (sql predicate)) guarded) (save_deletes options).

(** The statements, the checks to run before them, and the statements with bound objects. *)
Definition build_data_grid_save_statements options (driver_profile : option text)
    : list text * list DataGridSaveGuard * list BlobBoundStatement :=
  if opt_in (SaveOptions.database_type options) [Tdengine] then (build_tdengine_data_grid_save_statements options, [], [])
  else if opt_in (SaveOptions.database_type options) [Salesforce] then (build_salesforce_data_grid_save_statements options, [], [])
  else if uses_iotdb_table_model_save options then (build_iotdb_data_grid_save_statements options, [], [])
  else
    let saved :=
      save_update_statements options driver_profile ++ save_delete_statements options driver_profile
      ++ omap (save_insert options driver_profile) (SaveOptions.new_rows options) in
    (map fst saved, map (keyless_guard options (save_table options driver_profile)) (guarded_predicates options), saved ≫= snd).

(** ** The statements that undo a save *)

Definition build_mysql_insert_rollback_where options columns row : option text :=
  let unknown primary_key :=
    match position (fun column => bool_decide (column = Some primary_key)) columns with
    | None => true
    | Some index =>
        let value := cell row index in
        let info := info_of options primary_key in
        is_null value || empty_string_saves_as_null value info
        || match info with Some info => is_auto_generated_column info | None => false end
        || is_non_identity_generated_column info
    end in
  if keyless options || existsb unknown (primary_keys options) then None
  else
    Some (build_primary_key_where (SaveOptions.database_type options) (primary_keys options) columns row (column_infos options)
            (SaveOptions.identifier_quote options)).

Definition save_row_where options row : text :=
  build_save_row_where (SaveOptions.database_type options) (effective_columns options) row (column_infos options)
    (SaveOptions.identifier_quote options).

Definition rollback_insert options (table : text) row : option text :=
  where_clause ←
    (if opt_in (SaveOptions.database_type options) [Mysql; StarRocks]
     then build_mysql_insert_rollback_where options (effective_columns options) row
     else let where_clause := save_row_where options row in if is_empty where_clause then None else Some where_clause);
  Some (data_grid_statement (SaveOptions.database_type options) (%"DELETE FROM " ++ table ++ %" WHERE " ++ where_clause)).

(** The columns and the values of a deleted row. *)
Definition restored_row options row : text * text :=
  let pairs := List.filter (fun pair => negb (insert_omits options (fst pair))) (column_values (effective_columns options) row) in
  (column_list options pairs, join %", " (map (fun '(column, value) => assignment_literal options column value) pairs)).

(** Consecutive rows with the same columns share their statements. *)
Fixpoint batched_inserts (table : text) (current : option (text * list text)) (restored : list (text * text)) : list text :=
  let flush := match current with Some (columns, tuples) => push_mysql_values_insert_batches table columns tuples | None => [] end in
  match restored with
  | [] => flush
  | (columns, values) :: rest =>
      match current with
      | Some (current_columns, tuples) =>
          if text_eqb current_columns columns then batched_inserts table (Some (columns, tuples ++ [parenthesised values])) rest
          else flush ++ batched_inserts table (Some (columns, [parenthesised values])) rest
      | None => batched_inserts table (Some (columns, [parenthesised values])) rest
      end
  end.

Definition rollback_deletes options (table : text) : list text :=
  let database_type := SaveOptions.database_type options in
  if opt_in database_type [Hive] then
    map (data_grid_statement database_type)
      (omap (fun row => build_hive_values_insert options table (effective_columns options) row false false) (deleted options))
  else if supports_mysql_data_grid_batch options then batched_inserts table None (map (restored_row options) (deleted options))
  else
    map (fun row => let '(columns, values) := restored_row options row in data_grid_statement database_type (insert_sql options table columns values))
      (deleted options).

Definition postgres_ctid_identity options : bool :=
  uses_postgres_ctid (SaveOptions.database_type options) && keyless options && match row_id_index options with Some _ => true | None => false end.

Definition restored_change options row (change : nat * Value * text) : text :=
  let '(index, _, column) := change in column_ident options column ++ %" = " ++ assignment_literal options column (cell row index).

Definition changed_condition options (change : nat * Value * text) : text :=
  let '(_, value, column) := change in
  build_save_column_predicate (SaveOptions.database_type options) column value (info_of options column) true (SaveOptions.identifier_quote options).

Definition rollback_update options (table : text) row (changes : list (nat * Value)) : option text :=
  let after_row := after_changes row changes in
  let writable := writable_changes options [] changes in
  let sets := join %", " (map (restored_change options row) writable) in
  let row_predicate := save_row_where options after_row in
  if is_empty sets || (postgres_ctid_identity options && is_empty row_predicate) then None
  else
    let predicates :=
      if postgres_ctid_identity options
      then [%"(" ++ row_predicate ++ %") AND (SELECT COUNT(*) FROM " ++ table ++ %" WHERE (" ++ row_predicate ++ %")) = 1"]
      else sql (key_predicate options after_row) :: map (changed_condition options) writable in
    Some (data_grid_statement (SaveOptions.database_type options)
            (%"UPDATE " ++ table ++ %" SET " ++ sets ++ %" WHERE " ++ join %" AND " (List.filter (fun part => negb (is_empty part)) predicates))).

Definition build_data_grid_rollback_statements options (driver_profile : option text) : list text :=
  let table := save_table options driver_profile in
  if opt_in (SaveOptions.database_type options) [Tdengine] then build_tdengine_data_grid_rollback_statements options
  else if opt_in (SaveOptions.database_type options) [Salesforce] then build_salesforce_data_grid_rollback_statements options
  else if uses_iotdb_table_model_save options then build_iotdb_data_grid_rollback_statements options
  else if opt_in (SaveOptions.database_type options) [ClickHouse] then []
  else
    omap (rollback_insert options table) (SaveOptions.new_rows options)
    ++ rollback_deletes options table
    ++ omap (fun '(row, changes) => rollback_update options table row changes) (dirty options).

(** ** Preparation *)

Definition data_grid_save_execution_schema options (driver_profile : option text) : option text :=
  if opt_in (SaveOptions.database_type options) [Neo4j; Oracle] then None else save_schema options driver_profile.

Definition prepare_data_grid_save_for_driver_profile options (driver_profile : option text) : DataGridSavePreparation :=
  let schema := data_grid_save_execution_schema options driver_profile in
  match validate_data_grid_save options with
  | Some error => mk_preparation (Some error) [] [] schema [] []
  | None =>
      if opt_in (SaveOptions.database_type options) [Neo4j] then
        match build_neo4j_data_grid_save_statements options, build_neo4j_data_grid_rollback_statements options with
        | inl error, _ | inr _, inl error => mk_preparation (Some error) [] [] None [] []
        | inr saved, inr rollback => mk_preparation None saved rollback None [] []
        end
      else
        let '(saved, guards, bound) := build_data_grid_save_statements options driver_profile in
        let bound := if existsb (fun statement => negb (is_empty (blob_parameters statement))) bound then bound else [] in
        mk_preparation None saved (build_data_grid_rollback_statements options driver_profile) schema guards bound
  end.

Definition prepare_data_grid_save options : DataGridSavePreparation := prepare_data_grid_save_for_driver_profile options None.

End Save.

Definition normalize_data_grid_save_error (database_type : option DatabaseType) (error : text) : text :=
  if opt_in database_type [Hive] && (contains %"Attempt to do update or delete" error || contains %"Error 10294" error)
  then %"Hive UPDATE/DELETE are not enabled for this table or server. Add rows with INSERT, or enable ACID transactional tables in Hive before editing/deleting existing rows."
  else error.
