(* ===== verification/GridCopy.v ===== *)
(** * GridCopy: copied rows, filters and counts of a grid ([data_grid_sql.rs],
      [build_data_grid_copy_update_statements] to [build_neo4j_data_grid_column_distinct_values_sql]).

    Conditions on the values of a column, the INSERT and UPDATE statements of copied
    rows, and the queries that count rows and list distinct values. *)

From stdpp Require Import list.
From S2P Require Import Prelude DbTypes WriteClass SchemaTypes ViewDdl DdlProfile Identifiers DefaultLiteral GridTypes GridLiterals GridPredicates.
From S2P Require Import DdlMoveFacts GridBatch GridEngines GridSave GridLiteralFacts.

(** ** Options *)

Inductive DataGridCopyInsertMode : Set := Merged | RowByRow.

Inductive DataGridPrimaryKeyMode : Set := Include | ExcludeGenerated | ExcludeAll.

Inductive DataGridContextFilterMode : Set :=
| Equals | NotEquals | IsNull | IsNotNull | IsBlank | IsNotBlank | Like | NotLike | BeginsWith | EndsWith | LessThan | LessThanOrEqual
| GreaterThan | GreaterThanOrEqual | In | NotIn | Between | NotBetween.

Module CopyUpdate.
Record t `{JsonNumber} : Type := mk {
  database_type : option DatabaseType;
  identifier_quote : option text;
  table_meta : DataGridTableMeta.t;
  columns : list text;
  source_columns : option (list (option text));
  rows : list (list Value);
  include_database_name : bool
}.
End CopyUpdate.

Module CopyInsert.
Record t `{JsonNumber} : Type := mk {
  database_type : option DatabaseType;
  identifier_quote : option text;
  table_meta : option DataGridTableMeta.t;
  columns : list text;
  column_types : option (list (option text));
  source_columns : option (list (option text));
  rows : list (list Value);
  primary_key_mode : DataGridPrimaryKeyMode;
  include_computed_columns : bool;
  include_database_name : bool;
  insert_mode : DataGridCopyInsertMode
}.
End CopyInsert.

Module ContextFilter.
Record t `{JsonNumber} : Type := mk {
  database_type : option DatabaseType;
  identifier_quote : option text;
  column_name : text;
  mode : DataGridContextFilterMode;
  value : Value;
  values : list Value;
  end_value : option Value;
  column_info : option DataGridColumnInfo.t
}.
End ContextFilter.

Module DistinctValues.
Record t : Set := mk {
  database_type : option DatabaseType;
  driver_profile : option text;
  identifier_quote : option text;
  catalog : option text;
  database : option text;
  schema : option text;
  table_name : text;
  column_name : text;
  column_info : option DataGridColumnInfo.t;
  where_input : option text;
  search_value : option text;
  limit : option N;
  include_counts : bool;
  exclude_nulls : bool
}.
End DistinctValues.

(** ** Columns of a copy *)

Definition supports_relational_copy_predicates (database_type : option DatabaseType) : bool :=
  negb (opt_in database_type [Neo4j; Tdengine; MongoDb]).

Definition copy_column_info (database_type : option DatabaseType) (column_info : list DataGridColumnInfo.t) (column : text)
    (fallback_type : option text) : option DataGridColumnInfo.t :=
  first_some (unique_column_info_match database_type column_info column)
    ((fun data_type => DataGridColumnInfo.mk column data_type true false None None) <$> fallback_type).

Definition same_name (a b : text) : bool := text_eqb (normalize_column_name a) (normalize_column_name b).

(** The names among [l] that differ from each other. *)
Definition spellings (l : list text) : list text := fold_left (fun seen name => if text_in name seen then seen else seen ++ [name]) l [].

Definition is_primary_key_column (database_type : option DatabaseType) (primary_keys : list text) (column_name : text)
    (column_info : list DataGridColumnInfo.t) (known_columns : list text) : bool :=
  let matching := List.filter (fun column => same_name (DataGridColumnInfo.name column) column_name) column_info in
  let exact := List.find (fun column => text_eqb (DataGridColumnInfo.name column) column_name) matching in
  let one_key := Nat.eqb (length (List.filter (fun key => same_name key column_name) primary_keys)) 1 in
  if text_in column_name primary_keys then true
  else if match exact with Some metadata => DataGridColumnInfo.is_primary_key metadata | None => false end then true
  else if opt_in database_type [Postgres; Redshift] then false
  else
    match matching with
    | [metadata] => DataGridColumnInfo.is_primary_key metadata || one_key
    | _ :: _ => false
    | [] => if Nat.ltb 1 (length (spellings (List.filter (fun name => same_name name column_name) known_columns))) then false else one_key
    end.

(** ** Filters *)

Definition supports_data_grid_context_filter_mode (database_type : option DatabaseType) (mode : DataGridContextFilterMode) : bool :=
  if opt_in database_type [VictoriaMetrics] then false
  else negb (opt_in database_type [InfluxDb; Cassandra; Jdbc] && match mode with In | NotIn | Between | NotBetween => true | _ => false end).

Definition is_decimal_i64 (value : text) : bool :=
  let digits := default value (strip_prefix %"-" value) in
  negb (is_empty digits) && forallb is_ascii_digit digits && match parse_i64 value with Some _ => true | None => false end.

Definition unwrap_matching_quotes (s : text) : text :=
  match s, last s with
  | first :: _, Some last =>
      if (2 <=? byte_len s)%N && (((first =? squote)%N && (last =? squote)%N) || ((first =? dquote)%N && (last =? dquote)%N))
      then take (length s - 2) (drop 1 s) else s
  | _, _ => []
  end.

(** [l.chunks(n)]; every round takes an element. *)
Fixpoint list_chunks_from {A} (fuel n : nat) (l : list A) : list (list A) :=
  match fuel, l with
  | S fuel', _ :: _ => take n l :: list_chunks_from fuel' n (drop n l)
  | _, _ => []
  end.

Definition list_chunks {A} (n : nat) (l : list A) : list (list A) := list_chunks_from (length l) n l.

Definition ORACLE_IN_LIMIT : nat := Z.to_nat 1000.

Definition build_membership_predicate (column : text) (literals : list text) (database_type : option DatabaseType) (negated : bool) : option text :=
  let operator := if negated then %" NOT IN " else %" IN " in
  let listed literals := column ++ operator ++ %"(" ++ join %", " literals ++ %")" in
  if is_empty literals then None
  else if opt_in database_type [Neo4j] then
    let predicate := column ++ %" IN [" ++ join %", " literals ++ %"]" in
    Some (if negated then %"NOT (" ++ predicate ++ %")" else predicate)
  else if negb (opt_in database_type [Oracle]) || Nat.leb (length literals) ORACLE_IN_LIMIT then Some (listed literals)
  else Some (%"(" ++ join (if negated then %" AND " else %" OR ") (map listed (list_chunks ORACLE_IN_LIMIT literals)) ++ %")").

Definition DISTINCT_VALUES_LIMIT : N := 1000%N.

Definition data_grid_column_distinct_values_limit (limit : option N) : N := N.max 1 (N.min DISTINCT_VALUES_LIMIT (default DISTINCT_VALUES_LIMIT limit)).

Definition is_sqlserver_legacy_profile (driver_profile : option text) : bool :=
  match driver_profile with Some profile => eq_ignore_ascii_case (trim profile) %"sqlserver-legacy" | None => false end.

Section Copies.

Context `{JsonCodec} `{Chrono} `{PercentDecode} `{LetterTable} `{CharTable}.

Definition column_filter_ref (database_type : option DatabaseType) (column_name : text) (identifier_quote : option text) : text :=
  let quoted := predicate_ident database_type column_name identifier_quote in
  if opt_in database_type [Neo4j] then %"n." ++ quoted else quoted.

Definition column_like_filter_ref (database_type : option DatabaseType) (column_name : text) (column_info : option DataGridColumnInfo.t)
    (identifier_quote : option text) : text :=
  let column := column_filter_ref database_type column_name identifier_quote in
  if is_postgres_like_pattern_database database_type
     && match column_info with Some info => negb (is_textual_column_type (DataGridColumnInfo.data_type info)) | None => true end
  then column ++ %"::text" else column.

Definition value_to_filter_text (value : Value) : text :=
  match value with String s => s | Null => [] | _ => value_text value end.

Definition format_data_grid_context_filter_literal (value : Value) (database_type : option DatabaseType) (column_name : text)
    (column_info : option DataGridColumnInfo.t) (identifier_quote : option text) : text :=
  let formatted := format_grid_sql_literal_with_identifier_quote value database_type column_info identifier_quote in
  if opt_in database_type [Iotdb] && match column_info with Some _ => false | None => true end && eq_ignore_ascii_case column_name %"time" then
    match as_str value with Some s => if is_decimal_i64 s then s else formatted | None => formatted end
  else formatted.

(** The literals of the values that are not NULL, each once. *)
Definition distinct_literals (literal : Value -> text) (values : list Value) : list text :=
  spellings (map literal (List.filter (fun value => negb (is_null value)) values)).

Definition build_data_grid_context_membership_filter_condition (column : text) (values : list Value) (database_type : option DatabaseType)
    (column_name : text) (column_info : option DataGridColumnInfo.t) (identifier_quote : option text) (negated : bool) : option text :=
  let has_null := existsb is_null values in
  let literals :=
    distinct_literals (fun value => format_data_grid_context_filter_literal value database_type column_name column_info identifier_quote) values in
  match build_membership_predicate column literals database_type negated with
  | Some membership =>
      Some (if negated then %"(" ++ column ++ %" IS NOT NULL AND " ++ membership ++ %")"
            else if has_null then %"(" ++ column ++ %" IS NULL OR " ++ membership ++ %")"
            else membership)
  | None => if has_null then Some (column ++ (if negated then %" IS NOT NULL" else %" IS NULL")) else None
  end.

Definition build_data_grid_context_range_filter_condition (column : text) (start_value : Value) (end_value : option Value)
    (database_type : option DatabaseType) (column_name : text) (column_info : option DataGridColumnInfo.t) (identifier_quote : option text)
    (negated : bool) : option text :=
  end_value ← end_value;
  if is_null start_value || is_null end_value then None
  else
    let literal value := format_data_grid_context_filter_literal value database_type column_name column_info identifier_quote in
    let start := literal start_value in
    let end_ := literal end_value in
    Some (if opt_in database_type [Neo4j] then
            if negated then %"(" ++ column ++ %" < " ++ start ++ %" OR " ++ column ++ %" > " ++ end_ ++ %")"
            else %"(" ++ column ++ %" >= " ++ start ++ %" AND " ++ column ++ %" <= " ++ end_ ++ %")"
          else column ++ (if negated then %" NOT BETWEEN " else %" BETWEEN ") ++ start ++ %" AND " ++ end_).

Definition build_data_grid_context_filter_condition (options : ContextFilter.t) : option text :=
  let database_type := ContextFilter.database_type options in
  let identifier_quote := ContextFilter.identifier_quote options in
  let column_name := ContextFilter.column_name options in
  let column_info := ContextFilter.column_info options in
  let value := ContextFilter.value options in
  let column := column_filter_ref database_type column_name identifier_quote in
  let like_column := column_like_filter_ref database_type column_name column_info identifier_quote in
  let pattern before after := format_grid_sql_literal (String (before ++ value_to_filter_text value ++ after)) database_type None in
  let compare operator :=
    Some (column ++ operator ++ format_data_grid_context_filter_literal value database_type column_name column_info identifier_quote) in
  let member := build_data_grid_context_membership_filter_condition column (ContextFilter.values options) database_type column_name column_info identifier_quote in
  let range :=
    build_data_grid_context_range_filter_condition column value (ContextFilter.end_value options) database_type column_name column_info identifier_quote in
  let oracle := opt_in database_type [Oracle; OceanbaseOracle] in
  if negb (supports_data_grid_context_filter_mode database_type (ContextFilter.mode options)) then None
  else
    match ContextFilter.mode options with
    | IsNull => Some (column ++ %" IS NULL")
    | IsNotNull => Some (column ++ %" IS NOT NULL")
    | IsBlank => Some (if oracle then column ++ %" IS NULL" else %"(" ++ column ++ %" IS NULL OR " ++ column ++ %" = '')")
    | IsNotBlank => Some (if oracle then column ++ %" IS NOT NULL" else %"(" ++ column ++ %" IS NOT NULL AND " ++ column ++ %" <> '')")
    | Equals => if is_null value then Some (column ++ %" IS NULL") else compare %" = "
    | NotEquals => if is_null value then Some (column ++ %" IS NOT NULL") else compare %" <> "
    | Like => Some (like_column ++ %" LIKE " ++ pattern %"%" %"%")
    | NotLike => Some (like_column ++ %" NOT LIKE " ++ pattern %"%" %"%")
    | BeginsWith => Some (like_column ++ %" LIKE " ++ pattern [] %"%")
    | EndsWith => Some (like_column ++ %" LIKE " ++ pattern %"%" [])
    | LessThan => compare %" < "
    | LessThanOrEqual => compare %" <= "
    | GreaterThan => compare %" > "
    | GreaterThanOrEqual => compare %" >= "
    | In => member false
    | NotIn => member true
    | Between => range false
    | NotBetween => range true
    end.

Definition parse_typed_filter_value (s : text) (database_type : option DatabaseType) (column_info : option DataGridColumnInfo.t) : Value :=
  let unquoted := unwrap_matching_quotes s in
  let data_type := or_default (lower <$> data_type_of column_info) in
  if is_boolean_type data_type database_type && eq_ignore_ascii_case unquoted %"true" then Bool true
  else if is_boolean_type data_type database_type && eq_ignore_ascii_case unquoted %"false" then Bool false
  else
    match (if (is_numeric_type data_type || is_empty data_type) && is_numeric_literal unquoted then parse_number unquoted else None) with
    | Some number => Number number
    | None => String unquoted
    end.

Definition build_data_grid_column_value_filter_condition (database_type : option DatabaseType) (identifier_quote : option text) (column_name : text)
    (column_info : option DataGridColumnInfo.t) (raw_value : text) : option text :=
  let s := trim raw_value in
  let column := column_filter_ref database_type column_name identifier_quote in
  if is_empty s then None
  else if eq_ignore_ascii_case s %"null" then Some (column ++ %" IS NULL")
  else Some (column ++ %" = " ++ format_grid_sql_literal (parse_typed_filter_value s database_type column_info) database_type column_info).

Definition build_data_grid_column_values_filter_condition (database_type : option DatabaseType) (identifier_quote : option text) (column_name : text)
    (column_info : option DataGridColumnInfo.t) (values : list Value) : option text :=
  let column := column_filter_ref database_type column_name identifier_quote in
  let literals := distinct_literals (fun value => format_grid_sql_literal value database_type column_info) values in
  let predicates :=
    (if existsb is_null values then [column ++ %" IS NULL"] else [])
    ++ match literals with
       | [literal] => [column ++ %" = " ++ literal]
       | _ => match build_membership_predicate column literals database_type false with Some membership => [membership] | None => [] end
       end in
  match predicates with
  | [] => None
  | [predicate] => Some predicate
  | _ => Some (%"(" ++ join %" OR " predicates ++ %")")
  end.

(** ** Counts and distinct values *)

Definition where_of (predicates : list text) : text := if is_empty predicates then [] else %" WHERE " ++ join %" AND " predicates.

Definition data_grid_column_distinct_values_search_predicate (options : DistinctValues.t) : option text :=
  let database_type := DistinctValues.database_type options in
  let column_info := DistinctValues.column_info options in
  search ← trim <$> DistinctValues.search_value options;
  if is_empty search then None
  else if negb match column_info with Some info => is_textual_column_type (DataGridColumnInfo.data_type info) | None => true end
          && negb (is_postgres_like_pattern_database database_type)
  then
    Some (column_filter_ref database_type (DistinctValues.column_name options) (DistinctValues.identifier_quote options) ++ %" = "
          ++ format_grid_sql_literal (parse_typed_filter_value search database_type column_info) database_type column_info)
  else
    Some (column_like_filter_ref database_type (DistinctValues.column_name options) column_info (DistinctValues.identifier_quote options)
          ++ %" LIKE " ++ format_grid_sql_literal (String (%"%" ++ search ++ %"%")) database_type None).

Definition build_neo4j_data_grid_column_distinct_values_sql (options : DistinctValues.t) : text :=
  let limit := show_N (data_grid_column_distinct_values_limit (DistinctValues.limit options)) in
  let label := quote_table_identifier (Some Neo4j) (DistinctValues.table_name options) in
  let column := column_filter_ref (Some Neo4j) (DistinctValues.column_name options) None in
  let predicate := normalize_where_input (DistinctValues.where_input options) in
  let predicates :=
    (if is_empty predicate then [] else [predicate])
    ++ (if DistinctValues.exclude_nulls options then [column ++ %" IS NOT NULL"] else [])
    ++ match trim <$> DistinctValues.search_value options with
       | Some (_ :: _ as search) => [%"toString(" ++ column ++ %") CONTAINS " ++ format_grid_sql_literal (String search) (Some Neo4j) None]
       | _ => []
       end in
  %"MATCH (n:" ++ label ++ %")" ++ where_of predicates
  ++ (if DistinctValues.include_counts options
      then %" RETURN " ++ column ++ %" AS dbx_value, count(*) AS dbx_count ORDER BY dbx_count DESC, dbx_value LIMIT " ++ limit
      else %" RETURN DISTINCT " ++ column ++ %" AS dbx_value ORDER BY dbx_value LIMIT " ++ limit).

Definition build_data_grid_column_distinct_values_sql (options : DistinctValues.t) : text :=
  let database_type := DistinctValues.database_type options in
  let identifier_quote := DistinctValues.identifier_quote options in
  let limit := show_N (data_grid_column_distinct_values_limit (DistinctValues.limit options)) in
  let table :=
    data_grid_qualified_table_name database_type (DistinctValues.catalog options) (DistinctValues.schema options) (DistinctValues.database options)
      (DistinctValues.table_name options) identifier_quote in
  let column := column_filter_ref database_type (DistinctValues.column_name options) identifier_quote in
  let predicate := normalize_where_input (DistinctValues.where_input options) in
  let predicates :=
    (if is_empty predicate then [] else [%"(" ++ predicate ++ %")"])
    ++ (if DistinctValues.exclude_nulls options then [column ++ %" IS NOT NULL"] else [])
    ++ match data_grid_column_distinct_values_search_predicate options with Some search => [search] | None => [] end in
  let select_list := column ++ %" AS dbx_value" ++ (if DistinctValues.include_counts options then %", COUNT(*) AS dbx_count" else []) in
  let from_clause :=
    %" FROM " ++ table ++ where_of predicates ++ %" GROUP BY " ++ column
    ++ (if DistinctValues.include_counts options then %" ORDER BY dbx_count DESC, dbx_value" else %" ORDER BY dbx_value") in
  let unlimited := %"SELECT " ++ select_list ++ from_clause in
  if opt_in database_type [Neo4j] then build_neo4j_data_grid_column_distinct_values_sql options
  else
    match table_pagination_strategy database_type with
    | SqlServerTop =>
        if is_sqlserver_legacy_profile (DistinctValues.driver_profile options) then unlimited
        else %"SELECT TOP (" ++ limit ++ %") " ++ select_list ++ from_clause
    | IrisTop => %"SELECT TOP " ++ limit ++ %" " ++ select_list ++ from_clause
    | InformixFirst => %"SELECT FIRST " ++ limit ++ %" " ++ select_list ++ from_clause
    | FirebirdRows => unlimited ++ %" ROWS " ++ limit
    | Db2FetchFirst | FetchFirst => unlimited ++ %" FETCH FIRST " ++ limit ++ %" ROWS ONLY"
    | Rownum => %"SELECT * FROM (" ++ unlimited ++ %") WHERE ROWNUM <= " ++ limit
    | AgentMaxRows | Unbounded => unlimited
    | QuestDbLimit | LimitOffset => unlimited ++ %" LIMIT " ++ limit
    end.

Definition build_data_grid_count_sql (database_type : option DatabaseType) (identifier_quote catalog database schema : option text)
    (table_name : text) (where_input count_hint : option text) : text :=
  let predicate := normalize_where_input where_input in
  let where_clause := if is_empty predicate then [] else %" WHERE (" ++ predicate ++ %")" in
  if opt_in database_type [Neo4j]
  then %"MATCH (n:" ++ quote_table_identifier (Some Neo4j) table_name ++ %")" ++ where_clause ++ %" RETURN count(n) AS cnt"
  else
    let hint := or_default count_hint in
    %"SELECT" ++ (if is_empty hint then [] else %" " ++ hint) ++ %" COUNT(*) AS cnt FROM "
    ++ data_grid_qualified_table_name database_type catalog schema database table_name identifier_quote ++ where_clause.

Definition build_hive_table_properties_sql (database_type : option DatabaseType) (schema : option text) (table_name property_name : text) : text :=
  let quoted := double_char squote in
  if opt_in database_type [Transwarp] && eq_ignore_ascii_case property_name %"transactional" then
    %"SELECT transactional FROM system.tables_v WHERE database_name = '" ++ quoted (default %"default" schema) ++ %"' AND table_name = '"
    ++ quoted table_name ++ %"'"
  else %"SHOW TBLPROPERTIES " ++ qualified_table_name (Some Hive) schema table_name ++ %" ('" ++ quoted property_name ++ %"')".

(** ** Conditional updates *)

Definition build_data_grid_conditional_update_sql (database_type : option DatabaseType) (identifier_quote : option text)
    (table_meta : DataGridTableMeta.t) (column_name : text) (value : Value) (where_input : text) : option text :=
  let predicate := normalize_where_input (Some where_input) in
  let key_set := map normalize_column_name (DataGridTableMeta.primary_keys table_meta) in
  if negb (opt_in database_type [Mysql]) || is_empty predicate then None
  else
    columns ← DataGridTableMeta.columns table_meta;
    column_info ← column_info_for columns column_name;
    let name := DataGridColumnInfo.name column_info in
    if text_in (normalize_column_name name) key_set || DataGridColumnInfo.is_primary_key column_info
       || is_grid_update_omitted_column database_type (Some column_info) (Some name) key_set
    then None
    else
      let table :=
        data_grid_qualified_table_name database_type (DataGridTableMeta.catalog table_meta) (DataGridTableMeta.schema table_meta)
          (DataGridTableMeta.database table_meta) (DataGridTableMeta.table_name table_meta) identifier_quote in
      let sets :=
        data_grid_identifier database_type name identifier_quote ++ %" = "
        ++ format_grid_save_sql_literal value database_type (Some column_info) identifier_quote in
      Some (data_grid_statement database_type (data_grid_update_sql database_type table sets (parenthesised predicate))).

(** ** Copied rows *)

(** A value of a BLOB that is neither NULL nor complete bytes. *)
Definition bad_blob (database_type : option DatabaseType) (info : option DataGridColumnInfo.t) (row : list Value) (index : nat) : bool :=
  is_oceanbase_blob_column database_type info
  && match row !! index with
     | Some value => negb (is_null value) && match oceanbase_blob_hex value with Some _ => false | None => true end
     | None => false
     end.

Definition named_columns (columns : list (option text)) : list (text * nat) :=
  omap (fun x => x) (imap (fun index column => (fun name => (name, index)) <$> column) columns).

Definition build_data_grid_copy_update_statements (options : CopyUpdate.t) : list text :=
  let database_type := CopyUpdate.database_type options in
  let identifier_quote := CopyUpdate.identifier_quote options in
  let meta := CopyUpdate.table_meta options in
  let keys := DataGridTableMeta.primary_keys meta in
  let columns := effective_copy_columns (CopyUpdate.source_columns options) (CopyUpdate.columns options) in
  let infos := default [] (DataGridTableMeta.columns meta) in
  let key_set := map normalize_column_name keys in
  let writable :=
    List.filter (fun '(name, _) => negb (text_in (normalize_column_name name) key_set) && negb (is_synthetic_row_id database_type (Some name)))
      (named_columns columns) in
  let opaque name := typed is_opaque_aggregate_state_type (column_info_for infos name) in
  if negb (supports_relational_copy_predicates database_type) || is_empty keys then []
  else
    match mapM (find_column_index database_type columns) keys with
    | None => []
    | Some key_indexes =>
        if existsb (fun '(name, _) => opaque name) writable || existsb opaque keys || is_empty writable
           || existsb (fun row => existsb (fun '(name, index) => bad_blob database_type (column_info_for infos name) row index) writable)
                (CopyUpdate.rows options)
        then []
        else
          let table :=
            data_grid_generated_table_name database_type (DataGridTableMeta.catalog meta) (DataGridTableMeta.schema meta)
              (DataGridTableMeta.database meta) (DataGridTableMeta.table_name meta) identifier_quote (CopyUpdate.include_database_name options) in
          omap (fun row =>
            if existsb (fun index => is_null (cell row index)) key_indexes then None
            else
              let sets :=
                join %", " (map (fun '(name, index) =>
                  data_grid_identifier database_type name identifier_quote ++ %" = "
                  ++ format_grid_assignment_sql_literal (cell row index) database_type (column_info_for infos name) identifier_quote) writable) in
              let where_clause :=
                join %" AND " (map (fun '(key, index) =>
                  build_column_predicate database_type key (cell row index) (column_info_for infos key) false identifier_quote)
                  (combine keys key_indexes)) in
              if is_empty sets then None
              else Some (data_grid_statement database_type (data_grid_update_sql database_type table sets where_clause)))
            (CopyUpdate.rows options)
    end.

(** The columns of a copied INSERT: name, index and what is known of the column. *)
Definition copy_insert_columns (options : CopyInsert.t) : list (text * nat * option DataGridColumnInfo.t) :=
  let database_type := CopyInsert.database_type options in
  let columns := effective_copy_columns (CopyInsert.source_columns options) (CopyInsert.columns options) in
  let infos := default [] (CopyInsert.table_meta options ≫= DataGridTableMeta.columns) in
  let keys := default [] (DataGridTableMeta.primary_keys <$> CopyInsert.table_meta options) in
  let known_columns := omap (fun column => column) columns in
  let described :=
    map (fun '(name, index) =>
      let fallback_type := mjoin (types ← CopyInsert.column_types options; types !! index) in
      (name, index, copy_column_info database_type infos name fallback_type)) (named_columns columns) in
  List.filter (fun '(name, _, info) =>
    let is_primary_key := is_primary_key_column database_type keys name infos known_columns in
    negb (is_grid_insert_omitted_column database_type info (Some name) (CopyInsert.include_computed_columns options))
    && match CopyInsert.primary_key_mode options with
       | Include => true
       | ExcludeGenerated => negb is_primary_key || negb match info with Some info => is_auto_generated_column info | None => false end
       | ExcludeAll => negb is_primary_key
       end) described.

Definition copy_insert_table (options : CopyInsert.t) : text :=
  let database_type := CopyInsert.database_type options in
  let identifier_quote := CopyInsert.identifier_quote options in
  match CopyInsert.table_meta options with
  | None => %"table_name"
  | Some meta =>
      let catalog := DataGridTableMeta.catalog meta in
      let database := DataGridTableMeta.database meta in
      let name := DataGridTableMeta.table_name meta in
      let not_blank o := match o with Some s => if is_empty (trim s) then None else Some s | None => None end in
      let use_database_fallback :=
        opt_in database_type [Mysql; Goldendb; ClickHouse]
        || (opt_in database_type [Doris; StarRocks]
            && match catalog with Some c => is_empty (trim c) || text_eqb (trim c) %"internal" | None => true end) in
      let schema :=
        if use_database_fallback then first_some (not_blank (DataGridTableMeta.schema meta)) (not_blank database)
        else DataGridTableMeta.schema meta in
      if negb (CopyInsert.include_database_name options) then data_grid_identifier database_type name identifier_quote
      else
        match database_qualified_table_name database_type catalog schema database name with
        | Some qualified => qualified
        | None => data_grid_qualified_table_name database_type catalog schema database name identifier_quote
        end
  end.

Definition needs_identity_insert_wrapper (database_type : option DatabaseType) (infos : list (option DataGridColumnInfo.t)) : bool :=
  let extra_lower info := lower (or_default (extra_of info)) in
  if opt_in database_type [SqlServer] then
    existsb (fun info =>
      contains %"identity" (extra_lower info) || match info with Some column => is_auto_generated_column column | None => false end) infos
  else if opt_in database_type [Dameng] then
    existsb (fun info =>
      contains %"identity" (extra_lower info) && negb (contains %"auto_increment" (extra_lower info))
      && negb (contains %"autoincrement" (extra_lower info))) infos
  else false.

Definition build_data_grid_copy_insert_statements_with_formatters (options : CopyInsert.t) (format_reference : text -> text)
    (format_literal : Value -> option DatabaseType -> option DataGridColumnInfo.t -> option text -> text) : option (list text) :=
  let database_type := CopyInsert.database_type options in
  let identifier_quote := CopyInsert.identifier_quote options in
  let columns := copy_insert_columns options in
  let rows := CopyInsert.rows options in
  if existsb (fun '(_, _, info) => typed is_opaque_aggregate_state_type info) columns || is_empty columns || is_empty rows
     || existsb (fun row => existsb (fun '(_, index, info) => bad_blob database_type info row index) columns) rows
  then None
  else
    let table := format_reference (copy_insert_table options) in
    let column_names :=
      join %", " (map (fun '(_, index, _) =>
        format_reference (data_grid_identifier database_type (default [] (CopyInsert.columns options !! index)) identifier_quote)) columns) in
    let value_rows :=
      map (fun row => parenthesised (join %", " (map (fun '(_, index, info) =>
        format_literal (cell row index) database_type info identifier_quote) columns))) rows in
    let row_by_row :=
      match CopyInsert.insert_mode options with RowByRow => true | Merged => false end
      || match database_type with Some db => uses_single_row_insert_statements db | None => false end in
    let insert := %"INSERT INTO " ++ table ++ %" (" ++ column_names ++ %") VALUES" in
    let statements :=
      if row_by_row then
        map (fun values =>
          let s := insert ++ %" " ++ values in
          if opt_in database_type [OceanbaseOracle] then data_grid_statement database_type s else s ++ %";") value_rows
      else [insert ++ (if Nat.eqb (length value_rows) 1 then %" " else [nl]) ++ join (%"," ++ [nl]) value_rows ++ %";"] in
    Some (if needs_identity_insert_wrapper database_type (map snd columns)
          then map (fun statement =>
                 %"SET IDENTITY_INSERT " ++ table ++ %" ON;" ++ [nl] ++ statement ++ [nl] ++ %"SET IDENTITY_INSERT " ++ table ++ %" OFF;") statements
          else statements).

Definition build_data_grid_copy_insert_statement (options : CopyInsert.t) : option text :=
  join [nl] <$> build_data_grid_copy_insert_statements_with_formatters options (fun reference => reference) format_grid_copy_insert_sql_literal.

End Copies.

(** ** Lists of at most a thousand literals *)

Lemma list_chunks_from_spec {A} n : 0 < n -> forall fuel (l : list A), length l <= fuel ->
  concat (list_chunks_from fuel n l) = l /\ Forall (fun chunk => 0 < length chunk <= n) (list_chunks_from fuel n l).
Proof.
  intros Hn. induction fuel as [ | fuel IH]; intros [ | x l] Hl; cbn [length] in Hl; try lia; [done | done | ].
  cbn [list_chunks_from]. destruct (IH (drop n (x :: l))) as [Hc Hf]. { rewrite length_drop. cbn [length]. lia. }
  split.
  - cbn [concat]. by rewrite Hc, take_drop.
  - constructor; [ | done]. rewrite length_take. cbn [length]. lia.
Qed.

(** Oracle takes at most 1000 expressions in a list: a longer list is cut into lists that hold every literal, in order. *)
Lemma oracle_lists_are_bounded literals :
  concat (list_chunks ORACLE_IN_LIMIT literals) = (literals : list text)
  /\ Forall (fun chunk => 0 < length chunk <= ORACLE_IN_LIMIT) (list_chunks ORACLE_IN_LIMIT literals).
Proof. apply list_chunks_from_spec; [unfold ORACLE_IN_LIMIT | ]; lia. Qed.

Lemma spellings_snoc l name : spellings (l ++ [name]) = if text_in name (spellings l) then spellings l else spellings l ++ [name].
Proof. unfold spellings. by rewrite fold_left_app. Qed.

(** The literals of a membership filter are those of its values, each once. *)
Lemma spellings_spec l : NoDup (spellings l) /\ forall name, name ∈ spellings l <-> name ∈ l.
Proof.
  induction l as [ | x l [Hn Hin]] using rev_ind; [by split; [constructor | ] | ]. rewrite spellings_snoc.
  destruct (text_in x (spellings l)) eqn:E.
  - apply existsb_exists in E as (y & Hy & ->%text_eqb_eq). split; [done | ]. intros name.
    rewrite Hin, elem_of_app, list_elem_of_singleton. split; [tauto | ]. intros [? | ->]; [done | ]. by apply Hin, list_elem_of_In.
  - split.
    + apply NoDup_app. split; [done | ]. split; [ | apply NoDup_singleton]. intros y Hy ->%list_elem_of_singleton.
      enough (text_in x (spellings l) = true) by congruence. apply existsb_exists. exists x. by rewrite <- list_elem_of_In, text_eqb_eq.
    + intros name. by rewrite !elem_of_app, Hin.
Qed.

(** ** Examples *)

#[local] Existing Instance integer_numbers.
#[local] Existing Instance plain_json.
#[local] Existing Instance no_chrono.
#[local] Existing Instance latin1_table.
#[local] Instance copied_letters : LetterTable := {| nonascii_alphabetic := fun _ => false |}.
#[local] Instance copied_percent : PercentDecode := {| percent_decode := fun _ => None |}.

Definition int_cell (n : Z) : Value := @Number integer_numbers n.

Definition described (name data_type : text) (extra : option text) : DataGridColumnInfo.t :=
  DataGridColumnInfo.mk name data_type false false None extra.

(** [builds_copy_update_statements]. *)
Example copied_update :
  build_data_grid_copy_update_statements
    (CopyUpdate.mk _ (Some Postgres) None (DataGridTableMeta.mk None None (Some %"public") %"users" [%"id"] None)
       [%"id"; %"name"; %"status"] None [[int_cell 1; String %"Ada"; String %"active"]] false)
  = [dq_text %"UPDATE ^public^.^users^ SET ^name^ = 'Ada', ^status^ = 'active' WHERE ^id^ = 1;"].
Proof. by vm_compute. Qed.

Definition gen_table (rows : list (list Value)) (mode : DataGridCopyInsertMode) : CopyInsert.t :=
  CopyInsert.mk _ (Some SqlServer) None
    (Some (DataGridTableMeta.mk None (Some %"dbx_test") (Some %"dbo") %"gen_table" [%"table_id"]
       (Some [described %"table_id" %"int" (Some %"identity"); described %"table_name" %"nvarchar(200)" None])))
    [%"table_id"; %"table_name"] None None rows Include false true mode.

(** [sqlserver_row_by_row_copy_insert_wraps_every_statement]. *)
Example copied_identity_rows :
  let wrapped values :=
    %"SET IDENTITY_INSERT [dbx_test].[dbo].[gen_table] ON;" ++ [nl]
    ++ %"INSERT INTO [dbx_test].[dbo].[gen_table] ([table_id], [table_name]) VALUES " ++ values ++ %";" ++ [nl]
    ++ %"SET IDENTITY_INSERT [dbx_test].[dbo].[gen_table] OFF;" in
  build_data_grid_copy_insert_statement
    (gen_table [[int_cell 1; String %"t_destype"]; [int_cell 2; String %"t_user"]] RowByRow)
  = Some (wrapped %"(1, N't_destype')" ++ [nl] ++ wrapped %"(2, N't_user')").
Proof. by vm_compute. Qed.

(** A generated key is left out of the copy. *)
Example copied_without_generated_key :
  build_data_grid_copy_insert_statement
    (CopyInsert.mk _ (Some Postgres) None
       (Some (DataGridTableMeta.mk None None (Some %"public") %"users" [%"id"]
          (Some [DataGridColumnInfo.mk %"id" %"integer" false true (Some %"nextval('public.users_id_seq'::regclass)") None;
                 described %"name" %"text" None])))
       [%"id"; %"name"] None None [[int_cell 1; String %"Ada"]] ExcludeGenerated false true Merged)
  = Some (dq_text %"INSERT INTO ^public^.^users^ (^name^) VALUES ('Ada');").
Proof. by vm_compute. Qed.

(** [builds_membership_and_range_context_filter_conditions]. *)
Example membership_filters :
  let filter database_type column values info :=
    build_data_grid_context_filter_condition (ContextFilter.mk _ (Some database_type) None column In Null values None (Some info)) in
  filter Mysql %"id" [int_cell 42; int_cell 99] (described %"id" %"int" None) = Some %"`id` IN (42, 99)"
  /\ filter Postgres %"status" [Null; String %"active"; String %"pending"; String %"active"] (described %"status" %"varchar" None)
     = Some (dq_text %"(^status^ IS NULL OR ^status^ IN ('active', 'pending'))").
Proof. by vm_compute. Qed.

(** [builds_column_distinct_values_sql]. *)
Example distinct_values :
  build_data_grid_column_distinct_values_sql
    (DistinctValues.mk (Some Postgres) None None None None (Some %"public") %"users" %"status" (Some (described %"status" %"varchar" None))
       (Some %"WHERE deleted_at IS NULL;") (Some %"act") None true true)
  = dq_text (%"SELECT ^status^ AS dbx_value, COUNT(*) AS dbx_count FROM ^public^.^users^ WHERE (deleted_at IS NULL) AND ^status^ IS NOT NULL "
             ++ %"AND ^status^ LIKE '%act%' GROUP BY ^status^ ORDER BY dbx_count DESC, dbx_value LIMIT 1000").
Proof. by vm_compute. Qed.

Definition set_status (where_input : text) : option text :=
  build_data_grid_conditional_update_sql (Some Mysql) None
    (DataGridTableMeta.mk None None (Some %"app") %"people" [%"id"]
       (Some [described %"id" %"bigint" None; described %"status" %"varchar(32)" None])) %"status" (String %"O'Reilly") where_input.

(** [mysql_conditional_update_uses_typed_value_and_requires_a_writable_column_and_where]. *)
Example conditional_updates :
  set_status %"WHERE tenant_id = 7;" = Some %"UPDATE `app`.`people` SET `status` = 'O''Reilly' WHERE (tenant_id = 7);"
  /\ set_status %"tenant_id = 7" = set_status %"WHERE tenant_id = 7;" /\ set_status %" " = None.
Proof. by vm_compute. Qed.

(** The keyword of a condition is recognised by its first five characters only: a column whose name begins with them loses
    them, and the statement filters on another column. *)
Example condition_on_whereabouts :
  set_status %"whereabouts = 'Rome'" = Some %"UPDATE `app`.`people` SET `status` = 'O''Reilly' WHERE (abouts = 'Rome');".
Proof. by vm_compute. Qed.

(** The condition of the user is not parenthesised for Neo4j: its OR binds weaker than the AND that excludes NULL, so a
    node whose [kind] is NULL is still listed. *)
Example neo4j_condition_is_not_grouped :
  build_data_grid_column_distinct_values_sql
    (DistinctValues.mk (Some Neo4j) None None None None None %"Person" %"kind" None (Some %"n.a = 1 OR n.b = 2") None (Some 5%N) false true)
  = %"MATCH (n:`Person`) WHERE n.a = 1 OR n.b = 2 AND n.`kind` IS NOT NULL RETURN DISTINCT n.`kind` AS dbx_value ORDER BY dbx_value LIMIT 5".
Proof. by vm_compute. Qed.
