(* ===== verification/GridSaveFacts.v ===== *)
(** * GridSaveFacts: what a prepared save guarantees.

    An accepted save addresses its rows: by every key column with a value, or, without
    a key, by a condition that is counted on the server first.  New rows have new keys.
    The batched statements of MySQL carry the updates and deletes in order.  Large
    objects taken out of a statement can be put back. *)

From stdpp Require Import list.
From Stdlib Require Import ZifyN ZifyBool.
From S2P Require Import Prelude DbTypes WriteClass SchemaTypes ViewDdl DdlProfile DdlNamesFacts DdlMoveFacts Identifiers DefaultLiteral GridTypes GridLiterals.
From S2P Require Import GridPredicates GridLiteralFacts GridBatch GridEngines GridSave.

(** ** Blank texts *)

Definition blank (s : text) : bool := is_empty (trim s).

Lemma drop_while_all {A} (p : A -> bool) l : Forall (fun x => p x = true) l -> drop_while p l = [].
Proof. induction 1 as [ | x l Hx Hl IH]; [done | ]. cbn. by rewrite Hx. Qed.

Lemma blank_whitespace s : blank s = true <-> Forall (fun c => is_whitespace c = true) s.
Proof.
  unfold blank. split.
  - intros Hs. apply trim_nil_whitespace. by destruct (trim s).
  - intros Hs. unfold trim, trim_start. by rewrite drop_while_all.
Qed.

Lemma blank_app_l a b : blank a = false -> blank (a ++ b) = false.
Proof.
  intros Ha. destruct (blank (a ++ b)) eqn:E; [ | done]. apply blank_whitespace, Forall_app in E as [E _]. apply blank_whitespace in E. congruence.
Qed.

(** ** Checks *)

Lemma first_error_none checks : first_error checks = None -> Forall (fun check => check = None) checks.
Proof.
  unfold first_error. induction checks as [ | [error | ] checks IH]; cbn; [constructor | done | ]. intros E. constructor; [done | by apply IH].
Qed.

Lemma fails_none test error : fails test error = None -> test = false.
Proof. by destruct test. Qed.

(** Conditions appended with AND. *)
Lemma append_conditions (condition : nat -> option text) indexes : forall clause g, exists more g',
  fold_left (fun '(clause, guarded) index =>
    match condition index with
    | Some predicate => (clause ++ (if is_empty clause then [] else %" AND ") ++ predicate, true)
    | None => (clause, guarded)
    end) indexes (clause, g) = (clause ++ more, g') /\ (g' = false -> more = [] /\ g = false).
Proof.
  induction indexes as [ | index indexes IH]; intros clause g; cbn [fold_left].
  { exists [], g. by rewrite app_nil_r. }
  destruct (condition index) as [predicate | ]; [ | apply IH].
  destruct (IH (clause ++ (if is_empty clause then [] else %" AND ") ++ predicate) true) as (more & g' & E & Hg).
  exists ((if is_empty clause then [] else %" AND ") ++ predicate ++ more), g'. rewrite E, <- !app_assoc. split; [done | ].
  intros Hf. by destruct (Hg Hf).
Qed.

(** A condition is checked unless it is blank or checked already. *)
Definition check_once (guarded : list text) (predicate : text) : list text :=
  if is_empty (trim predicate) || text_in predicate guarded then guarded else guarded ++ [predicate].

Lemma checked_once l : forall acc,
  Forall (fun p => blank p = false) l -> NoDup acc ->
  NoDup (fold_left check_once l acc)
  /\ forall p, p ∈ fold_left check_once l acc
      <-> p ∈ acc \/ p ∈ l.
Proof.
  induction l as [ | q l IH]; intros acc Hl Hacc; cbn [fold_left].
  { split; [done | ]. intros p. rewrite elem_of_nil. tauto. }
  apply Forall_cons in Hl as [Hq Hl]. unfold blank in Hq. unfold check_once at 2 4. rewrite Hq. cbn [orb].
  destruct (text_in q acc) eqn:E.
  - assert (q ∈ acc) as Hin. { apply existsb_exists in E as (x & Hx & ->%text_eqb_eq). by apply list_elem_of_In. }
    destruct (IH acc Hl Hacc) as [H1 H2]. split; [done | ]. intros p. rewrite H2, elem_of_cons. split; [tauto | ]. by intros [? | [-> | ?]]; auto.
  - assert (q ∉ acc) as Hnot.
    { intros Hin. enough (text_in q acc = true) by congruence. apply existsb_exists. exists q. split; [by apply list_elem_of_In | by apply text_eqb_eq]. }
    destruct (IH (acc ++ [q]) Hl) as [H1 H2].
    { apply NoDup_app. split; [done | ]. split; [ | apply NoDup_singleton]. intros p Hp ->%list_elem_of_singleton. done. }
    split; [done | ]. intros p. rewrite H2, elem_of_app, list_elem_of_singleton, elem_of_cons. tauto.
Qed.
Lemma opt_in_disjoint database_type l m :
  opt_in database_type l = true -> forallb (fun d => negb (db_in d m)) l = true -> opt_in database_type m = false.
Proof.
  intros Hin%opt_in_cases Hdis. apply in_map_iff in Hin as (d & <- & Hd). rewrite forallb_forall in Hdis. by apply negb_true_iff, Hdis.
Qed.

Section Facts.

Context `{JsonCodec} `{Chrono} `{PercentDecode} `{LetterTable} `{CharTable}.

Implicit Types (options : SaveOptions.t) (row : list Value).

Definition accepted options : Prop := validate_data_grid_save options = None.

Lemma accepted_prepared options driver_profile :
  validation_error (prepare_data_grid_save_for_driver_profile options driver_profile) = None -> accepted options.
Proof. unfold prepare_data_grid_save_for_driver_profile, accepted. by destruct (validate_data_grid_save options). Qed.

(** Every check of an accepted save passed. *)
Lemma accepted_checks options :
  accepted options ->
  validate_inserted_primary_keys options = None /\ validate_existing_row_primary_keys options = None
  /\ validate_postgres_ctid_row_identifier options = None /\ validate_keyless_row_predicate options = None.
Proof.
  intros E%first_error_none. rewrite !Forall_cons in E. tauto.
Qed.

(** ** Touched rows *)

Lemma touched_dirty options row changes : (row, changes) ∈ dirty options -> row ∈ touched options.
Proof.
  unfold dirty, touched, touched_row_indexes. rewrite !list_elem_of_omap. intros ((index & changes') & Hin & Hrow).
  destruct (SaveOptions.rows options !! index) as [row' | ] eqn:E; [ | done]. injection Hrow as -> _. exists index. split; [ | done].
  apply elem_of_app. left. apply list_elem_of_fmap. by exists (index, changes').
Qed.

Lemma touched_deleted options row : row ∈ deleted options -> row ∈ touched options.
Proof.
  unfold deleted, touched, touched_row_indexes. rewrite !list_elem_of_omap. intros (index & Hin & Hrow). exists index. split; [ | done].
  apply elem_of_app. by right.
Qed.

(** ** Conditions on large objects *)

Lemma append_guards_spec options columns row indexes clause :
  exists more guarded, append_oceanbase_lob_save_guards options columns row indexes clause = (clause ++ more, guarded)
    /\ (guarded = false -> more = []).
Proof.
  unfold append_oceanbase_lob_save_guards.
  edestruct (append_conditions (fun index => column ← column_at columns index; oceanbase_lob_predicate (SaveOptions.database_type options)
      (predicate_ident (SaveOptions.database_type options) column (SaveOptions.identifier_quote options)) (cell row index)
      (column_info_for (column_infos options) column)) indexes clause false) as (more & g' & E & Hg).
  exists more, g'. split; [exact E | ]. intros Hf. by apply Hg.
Qed.

Lemma save_predicate_spec options row indexes :
  exists more, sql (fst (save_predicate options row indexes)) = sql (key_predicate options row) ++ more
    /\ (plain (fst (save_predicate options row indexes)) = None
        \/ (more = [] /\ plain (fst (save_predicate options row indexes)) = plain (key_predicate options row))).
Proof.
  unfold save_predicate. destruct (append_guards_spec options (effective_columns options) row indexes (sql (key_predicate options row)))
    as (more & guarded & E & Hg). rewrite E. exists more. split; [done | ]. destruct guarded; [by left | right]. by rewrite Hg.
Qed.

(** ** Conditions without a key *)

Lemma keyless_condition options row :
  accepted options -> guards_keyless_predicates options = true -> row ∈ touched options -> blank (sql (key_predicate options row)) = false.
Proof.
  intros (_ & _ & _ & Hcheck)%accepted_checks [Hkeyless Huses]%andb_prop Hrow.
  unfold validate_keyless_row_predicate in Hcheck. rewrite Hkeyless, Huses in Hcheck. cbn in Hcheck. apply fails_none in Hcheck.
  unfold key_predicate, build_primary_key_predicate. unfold keyless in Hkeyless. rewrite Hkeyless, Huses. cbn [andb].
  destruct (if uses_postgres_ctid _ then _ else None) as [index | ]; cbn [sql].
  - unfold build_postgres_ctid_predicate. destruct (parse_postgres_ctid_row_id _) as [[[oid ctid] xmin] | ]; [ | done]. cbn.
    by apply (blank_app_l %"tableoid = '").
  - destruct (blank _) eqn:E; [ | done]. exfalso. enough (existsb (fun row => is_empty (trim (row_where options row))) (touched options) = true) by congruence.
    apply existsb_exists. exists row. split; [by apply list_elem_of_In | exact E].
Qed.

(** The conditions of the UPDATE and DELETE statements, in order. *)
Definition sent_predicates options : list text :=
  map (fun update => sql (fst (snd update))) (save_updates options) ++ map (fun delete => sql (fst delete)) (save_deletes options).

Lemma save_condition options row indexes :
  accepted options -> guards_keyless_predicates options = true -> row ∈ touched options ->
  blank (sql (fst (save_predicate options row indexes))) = false.
Proof.
  intros Ha Hk Hrow. destruct (save_predicate_spec options row indexes) as (more & -> & _). by apply blank_app_l, keyless_condition.
Qed.

Lemma sent_predicates_black options :
  accepted options -> guards_keyless_predicates options = true -> Forall (fun predicate => blank predicate = false) (sent_predicates options).
Proof.
  intros Ha Hk. apply Forall_app. split; apply Forall_forall; intros predicate Hin.
  - apply list_elem_of_fmap in Hin as ([sets predicate'] & -> & Hin). unfold save_updates in Hin.
    apply list_elem_of_omap in Hin as ([row changes] & Hin & E). destruct (is_empty _); [done | ]. injection E as _ <-.
    apply save_condition; [done | done | by eapply touched_dirty].
  - apply list_elem_of_fmap in Hin as (delete & -> & Hin). unfold save_deletes in Hin. apply list_elem_of_fmap in Hin as (row & -> & Hin).
    apply save_condition; [done | done | by apply touched_deleted].
Qed.


(** The statements of a save that no engine of its own prepares. *)
Definition saved options driver_profile : list (text * list BlobBoundStatement) :=
  save_update_statements options driver_profile ++ save_delete_statements options driver_profile
  ++ omap (save_insert options driver_profile) (SaveOptions.new_rows options).

Definition own_engines : list DatabaseType := [Tdengine; Salesforce; Iotdb; Neo4j].

Lemma prepared_statements options driver_profile :
  accepted options -> opt_in (SaveOptions.database_type options) own_engines = false ->
  let preparation := prepare_data_grid_save_for_driver_profile options driver_profile in
  statements preparation = map fst (saved options driver_profile)
  /\ keyless_guards preparation = map (keyless_guard options (save_table options driver_profile)) (guarded_predicates options)
  /\ (bound_statements preparation = [] \/ bound_statements preparation = saved options driver_profile ≫= snd).
Proof.
  intros Ha Hdb preparation. subst preparation. unfold prepare_data_grid_save_for_driver_profile, build_data_grid_save_statements, uses_iotdb_table_model_save.
  rewrite Ha. unfold own_engines, opt_in, db_in in *. destruct (SaveOptions.database_type options) as [db | ]; cbn [existsb] in Hdb |- *;
    rewrite ?orb_false_iff in Hdb; destruct_and? Hdb; repeat match goal with E : bool_decide _ = false |- _ => rewrite E; clear E end; cbn;
    (split; [done | ]; split; [done | ]); fold (saved options driver_profile); destruct (existsb _ _); auto.
Qed.

Lemma keyless_not_clickhouse options : guards_keyless_predicates options = true -> opt_in (SaveOptions.database_type options) [ClickHouse] = false.
Proof. intros [_ Huses]%andb_prop. by eapply opt_in_disjoint. Qed.

(** C16: a save of a table without a key, for the engines that match whole rows, is prepared only if every UPDATE and
    DELETE has a condition, and the statements are those of the conditions: [UPDATE t SET s WHERE p], then
    [DELETE FROM t WHERE p], then the inserts. The save carries a check for each condition [p] it sends, for no other, and
    each once: the query [SELECT COUNT( * ) AS dbx_keyless_row_matches FROM t WHERE (p)] of the same table, which admits
    at most one row (and, where a physical row address locates the row, not fewer than one). *)
Theorem keyless_writes_are_guarded options driver_profile
    (Haccepted : validation_error (prepare_data_grid_save_for_driver_profile options driver_profile) = None)
    (Hkeyless : guards_keyless_predicates options = true) :
  let database_type := SaveOptions.database_type options in
  let table := save_table options driver_profile in
  let preparation := prepare_data_grid_save_for_driver_profile options driver_profile in
  Forall (fun predicate => blank predicate = false) (sent_predicates options)
  /\ (exists checked, NoDup checked /\ (forall predicate, predicate ∈ checked <-> predicate ∈ sent_predicates options)
       /\ Forall2 (fun guard predicate =>
            guard_sql guard = %"SELECT COUNT(*) AS dbx_keyless_row_matches FROM " ++ table ++ %" WHERE (" ++ predicate ++ %")"
            /\ max_matched_rows guard = 1%N
            /\ min_matched_rows guard = (if postgres_ctid_locator options then 1%N else 0%N)) (keyless_guards preparation) checked)
  /\ exists inserts, statements preparation
       = map (fun '(sets, (predicate, guarded)) =>
           fst (data_grid_save_statement database_type (%"UPDATE " ++ table ++ %" SET " ++ sets ++ %" WHERE " ++ sql predicate) guarded))
           (save_updates options)
         ++ map (fun '(predicate, guarded) =>
           fst (data_grid_save_statement database_type (%"DELETE FROM " ++ table ++ %" WHERE " ++ sql predicate) guarded)) (save_deletes options)
         ++ inserts.
Proof.
  apply accepted_prepared in Haccepted as Ha. intros database_type table preparation.
  pose proof (sent_predicates_black options Ha Hkeyless) as Hblack. split; [done | ]. pose proof Hkeyless as [Hk Huses]%andb_prop.
  destruct (prepared_statements options driver_profile Ha) as (Hs & Hg & _); [by eapply opt_in_disjoint | ].
  split.
  - exists (guarded_predicates options). subst preparation. rewrite Hg. unfold guarded_predicates. rewrite Hkeyless.
    destruct (checked_once (sent_predicates options) [] Hblack (NoDup_nil_2)) as [Hnd Hmem]. split; [exact Hnd | ]. split.
    + intros predicate. etransitivity; [apply Hmem | ]. rewrite elem_of_nil. tauto.
    + apply Forall2_fmap_l, Forall_Forall2_diag, Forall_forall. intros predicate _. repeat split.
  - exists (map fst (omap (save_insert options driver_profile) (SaveOptions.new_rows options))). subst preparation. rewrite Hs.
    unfold saved, save_update_statements, save_delete_statements, supports_mysql_data_grid_batch. rewrite Hk, andb_false_r, !map_app, !map_map.
    apply keyless_not_clickhouse in Hkeyless. unfold data_grid_update_sql, data_grid_delete_sql, database_type, table. rewrite Hkeyless.
    f_equal; [ | f_equal]; apply map_ext; [by intros [sets [predicate guarded]] | by intros [predicate guarded]].
Qed.

(** ** Rows with a key *)

Lemma missing_none {A B} (keys : list A) (indexes : list (option B)) :
  map fst (List.filter (fun '(_, index) => match index with Some _ => false | None => true end) (combine keys indexes)) = [] ->
  forall key index, In (key, index) (combine keys indexes) -> exists i, index = Some i.
Proof.
  intros Hmissing key [i | ] Hin; [by exists i | ]. exfalso.
  assert (In (key, None) (List.filter (fun '(_, index) => match index with Some _ => false | None => true end) (combine keys indexes))) as Hf
    by (by apply filter_In). by destruct (List.filter _ _).
Qed.

Lemma combine_map {A B} (f : A -> B) l : combine l (map f l) = map (fun x => (x, f x)) l.
Proof. induction l as [ | x l IH]; [done | ]. cbn. by rewrite IH. Qed.

Lemma has_value_spec row index : has_value row index = true -> exists value, row !! index = Some value /\ value <> Null.
Proof. unfold has_value. destruct (row !! index) as [value | ]; [ | done]. intros Hv. exists value. split; [done | ]. by intros ->. Qed.

(** C24: when a save of a table with a key is prepared, every row it updates or deletes has every key column in the
    result, with a value: no condition on a key compares with a missing value. *)
Theorem keyed_rows_are_identified options driver_profile row primary_key
    (Haccepted : validation_error (prepare_data_grid_save_for_driver_profile options driver_profile) = None)
    (Hrow : row ∈ touched options) (Hkey : primary_key ∈ primary_keys options) :
  exists index value, find_column_index (SaveOptions.database_type options) (effective_columns options) primary_key = Some index
    /\ row !! index = Some value /\ value <> Null
    /\ key_value (SaveOptions.database_type options) (effective_columns options) row primary_key = value.
Proof.
  apply accepted_prepared, accepted_checks in Haccepted as (_ & Hcheck & _ & _). unfold validate_existing_row_primary_keys in Hcheck.
  assert (keyless options = false) as Hkeyed by (unfold keyless; by destruct (primary_keys options); [apply elem_of_nil in Hkey | ]).
  assert (no_touched_rows options = false) as Hsome.
  { unfold touched, touched_row_indexes, no_touched_rows in *. destruct (SaveOptions.dirty_rows options), (SaveOptions.deleted_rows options); try done.
    by apply elem_of_nil in Hrow. }
  rewrite Hkeyed, Hsome in Hcheck. cbn [orb] in Hcheck.
  destruct (is_empty (map fst _)) eqn:Hmissing; cbn [negb] in Hcheck; [ | done].
  set (find := find_column_index (SaveOptions.database_type options) (effective_columns options)) in *.
  assert (In (primary_key, find primary_key) (combine (primary_keys options) (key_indexes options))) as Hin.
  { unfold key_indexes. fold find. rewrite combine_map. apply in_map_iff. exists primary_key. split; [done | by apply list_elem_of_In]. }
  destruct (fun Hnone => missing_none (primary_keys options) (key_indexes options) Hnone _ _ Hin) as [index Hindex].
  { match type of Hmissing with is_empty ?l = true => by destruct l end. }
  rewrite Hindex in Hin.
  assert (has_value row index = true) as (value & Hvalue & Hnull)%has_value_spec.
  { destruct (has_value row index) eqn:E; [done | ]. exfalso.
    assert (exists k, valueless_key options row = Some k) as [k Hk].
    { unfold valueless_key. destruct (List.find _ _) as [[k i] | ] eqn:F; [by exists k | ]. eapply find_none in F; [ | exact Hin]. cbn in F.
      by rewrite E in F. }
    assert (k ∈ omap (valueless_key options) (touched options)) as Hk' by (apply list_elem_of_omap; eauto).
    destruct (omap (valueless_key options) (touched options)) as [ | first rest]; [by apply elem_of_nil in Hk' | done]. }
  exists index, value. split; [done | ]. split; [done | ]. split; [done | ]. unfold key_value. fold find. rewrite Hindex. unfold cell. by rewrite Hvalue.
Qed.

(** ** New keys *)

Lemma inserted_keys_distinct primary_keys indexes existing : forall new_rows new_keys,
  inserted_key_error primary_keys indexes existing new_keys new_rows = None -> NoDup new_keys ->
  NoDup (new_keys ++ omap (primary_key_value_key indexes) new_rows)
  /\ forall key, key ∈ omap (primary_key_value_key indexes) new_rows -> key ∉ existing.
Proof.
  assert (forall key l, text_in key l = false -> key ∉ l) as Hnot.
  { intros key l E Hin. enough (text_in key l = true) by congruence. apply existsb_exists. exists key.
    split; [by apply list_elem_of_In | by apply text_eqb_eq]. }
  induction new_rows as [ | row new_rows IH]; intros new_keys Herr Hnd; cbn in *.
  { rewrite app_nil_r. split; [done | ]. intros key Hkey. by apply elem_of_nil in Hkey. }
  destruct (primary_key_value_key indexes row) as [key | ]; [ | by apply IH].
  destruct (text_in key existing || text_in key new_keys) eqn:E; [done | ]. apply orb_false_iff in E as [E1 E2].
  destruct (IH (new_keys ++ [key]) Herr) as [Hnodup Hold].
  { apply NoDup_app. split; [done | ]. split; [ | apply NoDup_singleton]. intros k Hk ->%list_elem_of_singleton. by apply Hnot in E2. }
  rewrite <- app_assoc in Hnodup. split; [done | ]. intros k [-> | Hk]%elem_of_cons; [by apply Hnot | by apply Hold].
Qed.

(** When a save is prepared, the new rows with a complete key have keys different from each other and from those of
    the rows of the page. *)
Theorem inserted_keys_are_new options driver_profile indexes
    (Haccepted : validation_error (prepare_data_grid_save_for_driver_profile options driver_profile) = None)
    (Hindexes : mapM (fun index => index) (key_indexes options) = Some indexes)
    (Hkeyed : keyless options = false) :
  NoDup (omap (primary_key_value_key indexes) (SaveOptions.new_rows options))
  /\ forall key, key ∈ omap (primary_key_value_key indexes) (SaveOptions.new_rows options) ->
       key ∉ omap (primary_key_value_key indexes) (SaveOptions.rows options).
Proof.
  apply accepted_prepared, accepted_checks in Haccepted as (Hcheck & _). unfold validate_inserted_primary_keys in Hcheck.
  rewrite Hkeyed, Hindexes in Hcheck. cbn in Hcheck. destruct (SaveOptions.new_rows options) as [ | row new_rows]; cbn [is_empty] in Hcheck.
  { split; [apply NoDup_nil_2 | ]. intros key Hkey. by apply elem_of_nil in Hkey. }
  by apply (inserted_keys_distinct _ _ _ _ [] Hcheck), NoDup_nil_2.
Qed.

(** ** Batched statements *)

Definition update_prefix (table sets : text) : text := %"UPDATE " ++ table ++ %" SET " ++ sets ++ %" WHERE ".
Definition delete_prefix (table : text) : text := %"DELETE FROM " ++ table ++ %" WHERE ".

(** Groups of conditions, each with the sets of its statement. *)
Definition carries (table : text) (groups : list (text * list KeyCondition)) (texts : list text)
    (updates : list (text * (text * text + text))) : Prop :=
  texts = map (fun '(sets, group) => key_statement (update_prefix table sets) group) groups
  /\ (groups ≫= fun '(sets, group) => map (pair sets) (meant group)) = updates
  /\ Forall (fun '(sets, group) => group_fits (update_prefix table sets) group) groups.

Lemma carries_app table groups1 groups2 texts1 texts2 updates1 updates2 :
  carries table groups1 texts1 updates1 -> carries table groups2 texts2 updates2 ->
  carries table (groups1 ++ groups2) (texts1 ++ texts2) (updates1 ++ updates2).
Proof. intros (-> & <- & F1) (-> & <- & F2). split; [by rewrite map_app | ]. split; [apply bind_app | by apply Forall_app]. Qed.

Lemma carries_batch table sets predicates :
  exists groups, carries table groups (push_mysql_key_predicate_batches (update_prefix table sets) predicates)
    (map (fun p => (sets, predicate_meaning p)) predicates).
Proof.
  destruct (key_batches_stand_for_the_predicates (update_prefix table sets) predicates) as (groups & E & M & F).
  exists (map (pair sets) groups). split; [by rewrite E, map_map | ]. split.
  - rewrite <- (map_map predicate_meaning (pair sets)), <- M. clear. induction groups as [ | g groups IH]; [done | ].
    cbn [map concat mbind list_bind]. rewrite meant_app, map_app, <- IH. done.
  - by apply Forall_map.
Qed.

Definition update_meaning (update : text * (MysqlKeyPredicate * bool)) : text * (text * text + text) :=
  (fst update, predicate_meaning (fst (snd update))).

(** The conditions of the open group come first. *)
Lemma batched_updates_carry table updates : forall current,
  exists groups, carries table groups (batched_updates table current updates)
    (match current with Some (sets, predicates) => map (fun p => (sets, predicate_meaning p)) predicates | None => [] end ++ map update_meaning updates).
Proof.
  induction updates as [ | [sets [predicate guarded]] updates IH]; intros current; cbn [batched_updates map].
  - rewrite app_nil_r. destruct current as [[sets predicates] | ]; [apply carries_batch | by exists []].
  - destruct current as [[current_sets predicates] | ].
    + destruct (text_eqb current_sets sets) eqn:E.
      * apply text_eqb_eq in E as ->. destruct (IH (Some (sets, predicates ++ [predicate]))) as [groups Hg]. exists groups.
        rewrite map_app, <- app_assoc in Hg. exact Hg.
      * destruct (carries_batch table current_sets predicates) as [groups1 H1']. destruct (IH (Some (sets, [predicate]))) as [groups2 H2'].
        exists (groups1 ++ groups2). by apply carries_app.
    + destruct (IH (Some (sets, [predicate]))) as [groups Hg]. by exists groups.
Qed.

(** A condition collected into an [IN] list is, up to parentheses, the equality its statement would carry alone. *)
Lemma plain_is_equality options row indexes p :
  plain (fst (save_predicate options row indexes)) = Some p ->
  strip_outer_parentheses (sql (fst (save_predicate options row indexes))) = eq_column p ++ %" = " ++ eq_literal p.
Proof.
  destruct (save_predicate_spec options row indexes) as (more & -> & [-> | [-> ->]]); [done | ]. rewrite app_nil_r.
  unfold key_predicate, build_primary_key_predicate. destruct (_ && _).
  - by destruct (if uses_postgres_ctid _ then _ else None).
  - cbn [plain sql]. destruct (match key_predicates _ _ _ _ _ _ with [part] => snd part | _ => None end) as [q | ]; [ | done]. cbn.
    unfold plain_equality_from_clause. destruct (eq_ignore_ascii_case _ _); [done | ].
    destruct (text_eqb _ _) eqn:E; [ | done]. intros [= <-]. by apply text_eqb_eq.
Qed.

(** C17: for a MySQL table with a key the batched UPDATE and DELETE statements stand for exactly the updates and the
    deletes of the grid, in their order: an update keeps its assignments, and only conditions whose text is an equality
    with a literal are collected into an [IN] list, of one column.  Every statement joins at most 500 parts with at most
    10,000 values and, unless it is a single part, has at most 256 KiB. *)
Theorem mysql_writes_keep_their_order options driver_profile
    (Hbatch : supports_mysql_data_grid_batch options = true) :
  let table := save_table options driver_profile in
  (exists groups, carries table groups (map fst (save_update_statements options driver_profile)) (map update_meaning (save_updates options)))
  /\ (exists groups, map fst (save_delete_statements options driver_profile) = map (key_statement (delete_prefix table)) groups
       /\ meant (concat groups) = map (fun delete => predicate_meaning (fst delete)) (save_deletes options)
       /\ Forall (group_fits (delete_prefix table)) groups)
  /\ Forall (fun predicate => match plain predicate with
                               | Some p => strip_outer_parentheses (sql predicate) = eq_column p ++ %" = " ++ eq_literal p
                               | None => True
                               end)
       (map (fun update => fst (snd update)) (save_updates options) ++ map fst (save_deletes options)).
Proof.
  intros table. unfold save_update_statements, save_delete_statements. rewrite Hbatch, !map_map. split; [ | split].
  - cbn. rewrite map_id. apply (batched_updates_carry table (save_updates options) None).
  - cbn. rewrite map_id. destruct (key_batches_stand_for_the_predicates (delete_prefix table) (map fst (save_deletes options))) as (groups & E & M & F).
    exists groups. split; [done | ]. by rewrite map_map in M.
  - assert (forall row indexes, match plain (fst (save_predicate options row indexes)) with
        | Some p => strip_outer_parentheses (sql (fst (save_predicate options row indexes))) = eq_column p ++ %" = " ++ eq_literal p | None => True end) as Hplain.
    { intros row indexes. destruct (plain _) as [p | ] eqn:E; [ | done]. by apply plain_is_equality. }
    apply Forall_app. split; apply Forall_forall; intros predicate Hin; apply list_elem_of_fmap in Hin as (x & -> & Hin).
    + unfold save_updates in Hin. apply list_elem_of_omap in Hin as ([row changes] & _ & E). destruct (is_empty _); [done | ]. injection E as <-.
      apply Hplain.
    + unfold save_deletes in Hin. apply list_elem_of_fmap in Hin as (row & -> & _). apply Hplain.
Qed.

End Facts.

(** ** Bound large objects *)

Definition placeholder (positional : bool) (n : nat) : text := if positional then %"?" else %":dbx_lob_" ++ show_nat n.

(** The text a piece of the rewritten statement comes from. *)
Definition piece_source (piece : text * list text) : text :=
  match snd piece with [] => fst piece | hexes => BLOB_PREFIX ++ concat hexes ++ %"'))" end.

(** Every literal taken out is a large one; the placeholders are numbered in order. *)
Fixpoint numbered (positional : bool) (n : nat) (pieces : list (text * list text)) : Prop :=
  match pieces with
  | [] => True
  | (_, []) :: rest => numbered positional n rest
  | (shown, [hex]) :: rest =>
      shown = placeholder positional n /\ (4000 < byte_len hex)%N /\ hex_pairs hex = true /\ numbered positional (S n) rest
  | _ => False
  end.

Lemma numbered_snoc positional pieces piece : forall n,
  numbered positional n pieces -> numbered positional (n + length (concat (map snd pieces))) [piece] -> numbered positional n (pieces ++ [piece]).
Proof.
  induction pieces as [ | [shown [ | hex [ | h hexes]]] pieces IH]; intros n Hn Hp; cbn [app numbered map snd concat length] in *.
  - by rewrite Nat.add_0_r in Hp.
  - by apply IH.
  - destruct Hn as (-> & Hlen & Hhex & Hn). split; [done | ]. split; [done | ]. split; [done | ]. apply IH; [done | ].
    by rewrite Nat.add_succ_comm.
  - done.
Qed.

Lemma find_at_split needle l n : find_at needle l = Some n -> exists b, l = take n l ++ needle ++ b.
Proof.
  revert n. induction l as [ | c l IH]; intros n; cbn [find_at].
  - destruct (starts_with needle []) eqn:E; [ | done]. intros [= <-]. apply starts_with_app in E as [b E]. by exists b.
  - destruct (starts_with needle (c :: l)) eqn:E.
    + intros [= <-]. apply starts_with_app in E as [b E]. by exists b.
    + destruct (find_at needle l) as [k | ]; [ | done]. intros [= <-]. destruct (IH k eq_refl) as [b Hb]. exists b. cbn [take app]. by rewrite <- Hb.
Qed.

Lemma blob_at_split l hex n : blob_at l = Some (hex, n) -> exists b, l = (BLOB_PREFIX ++ hex ++ %"'))") ++ b
  /\ n = length (BLOB_PREFIX ++ hex ++ %"'))") /\ (4000 < byte_len hex)%N /\ hex_pairs hex = true.
Proof.
  unfold blob_at, strip_prefix. destruct (starts_with BLOB_PREFIX l) eqn:E; [ | done]. apply starts_with_app in E as [r ->]. rewrite drop_app_length.
  cbn [mbind option_bind]. destruct (find_at %"'))" r) as [end_ | ] eqn:F; [ | done]. cbn [mbind option_bind].
  destruct (_ && _) eqn:G; [ | done]. intros [= <- <-]. apply andb_prop in G as [G1 G2]. apply N.ltb_lt in G1.
  destruct (find_at_split _ _ _ F) as [b Hb]. exists b. split; [by rewrite <- !app_assoc, <- Hb | ]. split; [ | done].
  apply find_at_length in F. rewrite !length_app, length_take. change (length %"'))") with 3 in *. change (length BLOB_PREFIX) with 18. lia.
Qed.

Lemma front_take {A} (c : A) rest x b : c :: rest = x ++ b -> x <> [] -> x = c :: take (length x - 1) rest.
Proof. destruct x as [ | d x]; [done | ]. intros [= -> ->] _. cbn [length]. by rewrite Nat.sub_succ, Nat.sub_0_r, take_app_length. Qed.

Lemma blob_step_source positional count c rest count' out extra :
  blob_step positional count c rest = (count', out, extra) ->
  concat (map piece_source out) = c :: take extra rest /\ count' = count + length (concat (map snd out))
  /\ exists piece, out = [piece] /\ numbered positional count [piece].
Proof.
  unfold blob_step. destruct (blob_at (c :: rest)) as [[hex n] | ] eqn:E.
  - intros [= <- <- <-]. apply blob_at_split in E as (b & E & -> & Hlen & Hhex). cbn [map concat piece_source snd fst length app].
    split; [ | split; [lia | eexists; split; [reflexivity | done]]]. rewrite !app_nil_r.
    by apply (front_take _ _ _ b).
  - intros [= <- <- <-]. cbn [map concat piece_source snd fst length app]. rewrite app_nil_r. split; [done | ]. split; [lia | ].
    by eexists.
Qed.

(** C23: taking the large objects out of an OceanBase statement loses nothing.  The rewritten statement and the objects
    come from pieces of the statement: replacing every placeholder by the literal of its object gives the statement back,
    without the semicolons at its end; the placeholders are numbered in the order of the objects, and every object is
    an even number of hexadecimal digits, more than 4000. *)
Theorem bound_objects_can_be_put_back statement positional :
  exists pieces, oceanbase_blob_literals statement positional = (concat (map fst pieces), concat (map snd pieces))
    /\ concat (map piece_source pieces) = trim_end_matches semi statement
    /\ numbered positional 0 pieces.
Proof.
  unfold oceanbase_blob_literals. set (l := trim_end_matches semi statement).
  destruct (scan_loop (blob_step positional) 0 0 l) as [count pieces] eqn:Hrun. exists pieces. split; [done | ].
  pose (P := fun (done : text) (count : nat) (out : list (text * list text)) =>
    concat (map piece_source out) = done /\ count = length (concat (map snd out)) /\ numbered positional 0 out).
  assert (P ([] ++ l) count ([] ++ pieces)) as (Hs & _ & Hn).
  { eapply (scan_loop_invariant (blob_step positional) l P); [ | reflexivity | done | exact Hrun].
    intros done st out c rest st' out' extra _ (Hd & Hc & Hnum) Hstep.
    destruct (blob_step_source _ _ _ _ _ _ _ Hstep) as (Hsrc & -> & piece & -> & Hpiece). split; [ | split].
    - by rewrite map_app, concat_app, Hd, Hsrc.
    - by rewrite map_app, concat_app, length_app, Hc.
    - apply numbered_snoc; [done | ]. by rewrite Nat.add_0_l, <- Hc. }
  done.
Qed.

(** ** Examples *)

#[local] Existing Instance integer_numbers.
#[local] Existing Instance plain_json.
#[local] Existing Instance no_chrono.
#[local] Existing Instance latin1_table.
#[local] Instance ascii_letters_only : LetterTable := {| nonascii_alphabetic := fun _ => false |}.
#[local] Instance no_percent : PercentDecode := {| percent_decode := fun _ => None |}.

Definition num (n : Z) : Value := @Number integer_numbers n.

Definition people_columns : list DataGridColumnInfo.t :=
  [DataGridColumnInfo.mk %"id" %"bigint" false false None None; DataGridColumnInfo.mk %"status" %"varchar(32)" true false None None].

(** The edited page of a table [app.people] of three rows. *)
Definition people (database_type : DatabaseType) (primary_keys : list text) (dirty_rows : list (nat * list (nat * Value))) (deleted_rows : list nat)
    (new_rows : list (list Value)) : SaveOptions.t :=
  SaveOptions.mk _ (Some database_type) None None (DataGridTableMeta.mk None None (Some %"app") %"people" primary_keys (Some people_columns))
    [%"id"; %"status"] None (map (fun id => [num id; String %"active"]) [1%Z; 2%Z; 3%Z]) dirty_rows deleted_rows new_rows false.

(** [batches_mysql_updates_with_identical_values], [batches_mysql_deletes_and_deleted_row_rollbacks]. *)
Example mysql_batches :
  statements (prepare_data_grid_save (people Mysql [%"id"] [(0, [(1, Null)]); (1, [(1, Null)]); (2, [(1, Null)])] [] []))
  = [%"UPDATE `app`.`people` SET `status` = NULL WHERE `id` IN (1, 2, 3);"]
  /\ let deletes := prepare_data_grid_save (people Mysql [%"id"] [] [0; 1; 2] []) in
     statements deletes = [%"DELETE FROM `app`.`people` WHERE `id` IN (1, 2, 3);"]
     /\ rollback_statements deletes = [%"INSERT INTO `app`.`people` (`id`, `status`) VALUES (1, 'active'), (2, 'active'), (3, 'active');"].
Proof. by vm_compute. Qed.

(** A new row is undone by its key; different assignments are different statements. *)
Example mysql_inserts_and_order :
  let inserted := prepare_data_grid_save (people Mysql [%"id"] [] [] [[num 7; String %"created"]]) in
  statements inserted = [%"INSERT INTO `app`.`people` (`id`, `status`) VALUES (7, 'created');"]
  /\ rollback_statements inserted = [%"DELETE FROM `app`.`people` WHERE `id` = 7;"]
  /\ statements (prepare_data_grid_save
       (people Mysql [%"id"] [(0, [(1, String %"a")]); (1, [(1, String %"b")]); (2, [(1, String %"a")])] [] []))
     = [%"UPDATE `app`.`people` SET `status` = 'a' WHERE `id` = 1;"; %"UPDATE `app`.`people` SET `status` = 'b' WHERE `id` = 2;";
        %"UPDATE `app`.`people` SET `status` = 'a' WHERE `id` = 3;"].
Proof. by vm_compute. Qed.

Definition keyless_people : SaveOptions.t := people Mysql [] [(0, [(1, String %"left")])] [2] [].

Example keyless_people_prepared :
  let preparation := prepare_data_grid_save keyless_people in
  statements preparation
  = [%"UPDATE `app`.`people` SET `status` = 'left' WHERE `id` = 1 AND BINARY `status` = 'active';";
     %"DELETE FROM `app`.`people` WHERE `id` = 3 AND BINARY `status` = 'active';"]
  /\ map guard_sql (keyless_guards preparation)
     = [%"SELECT COUNT(*) AS dbx_keyless_row_matches FROM `app`.`people` WHERE (`id` = 1 AND BINARY `status` = 'active')";
        %"SELECT COUNT(*) AS dbx_keyless_row_matches FROM `app`.`people` WHERE (`id` = 3 AND BINARY `status` = 'active')"].
Proof. by vm_compute. Qed.

Lemma keyless_writes_are_guarded_witness :
  length (sent_predicates keyless_people) = 2
  /\ Forall (fun predicate => blank predicate = false) (sent_predicates keyless_people).
Proof. split; [by vm_compute | ]. apply (keyless_writes_are_guarded keyless_people None); by vm_compute. Defined.

Lemma keyed_rows_are_identified_witness :
  exists index value,
    find_column_index (Some Mysql) (effective_columns (people Mysql [%"id"] [(0, [(1, Null)])] [2] [])) %"id" = Some index
    /\ [num 3; String %"active"] !! index = Some value /\ value <> Null
    /\ key_value (Some Mysql) (effective_columns (people Mysql [%"id"] [(0, [(1, Null)])] [2] [])) [num 3; String %"active"] %"id" = value.
Proof.
  apply (keyed_rows_are_identified (people Mysql [%"id"] [(0, [(1, Null)])] [2] []) None).
  - by vm_compute.
  - apply list_elem_of_further, list_elem_of_here.
  - apply list_elem_of_here.
Defined.

Lemma inserted_keys_are_new_witness :
  NoDup (omap (primary_key_value_key [0]) [[num 7; Null]; [num 8; Null]]).
Proof. apply (inserted_keys_are_new (people Mysql [%"id"] [] [] [[num 7; Null]; [num 8; Null]]) None); by vm_compute. Defined.

Lemma mysql_writes_keep_their_order_witness :
  exists groups, carries %"`app`.`people`" groups [%"UPDATE `app`.`people` SET `status` = NULL WHERE `id` IN (1, 2, 3);"]
    [(%"`status` = NULL", inl (%"`id`", %"1")); (%"`status` = NULL", inl (%"`id`", %"2")); (%"`status` = NULL", inl (%"`id`", %"3"))].
Proof.
  apply (mysql_writes_keep_their_order (people Mysql [%"id"] [(0, [(1, Null)]); (1, [(1, Null)]); (2, [(1, Null)])] [] []) None). by vm_compute.
Defined.

(** [rejects_existing_row_save_when_primary_key_is_missing]; a new row with a key of the page. *)
Example refused_saves :
  validation_error (prepare_data_grid_save (people Kingbase [%"key"] [(0, [(1, Null)])] [] []))
  = Some (%"Cannot safely update or delete rows because the query result does not include every primary key column "
          ++ %"(missing: key). Refresh or rerun the query before saving.")
  /\ validation_error (prepare_data_grid_save (people Mysql [%"id"] [] [] [[num 2; Null]]))
     = Some %"New row duplicates the existing primary key (id = 2). Change the key before saving."
  /\ validation_error (prepare_data_grid_save (people Postgres [%"id"] [(1, [(0, Null)])] [] []))
     = Some (%"Column " ++ [dquote] ++ %"id" ++ [dquote] ++ %" does not allow NULL.").
Proof. by vm_compute. Qed.

(** Without a key, an engine that does not match whole rows gets an UPDATE and a DELETE without a condition: neither a
    validation nor a check refuses them. *)
Example clickhouse_without_key :
  let preparation := prepare_data_grid_save (people ClickHouse [] [(0, [(1, String %"left")])] [2] []) in
  validation_error preparation = None /\ keyless_guards preparation = []
  /\ statements preparation = [%"ALTER TABLE `people` UPDATE `status` = 'left' WHERE ;"; %"ALTER TABLE `people` DELETE WHERE ;"].
Proof. by vm_compute. Qed.
