(* ===== verification/TableSelect.v ===== *)
(** * TableSelect: reading a page of a table ([sql_dialect/table_select.rs], [sql_dialect/types.rs]).

    The SELECT of the data grid for every engine, with row identifiers, bounded previews
    of large values and the page clause of the engine.  Pages of one size tile the
    rows. *)

From stdpp Require Import list.
From Stdlib Require Import ZifyN ZifyBool.
From S2P Require Import Prelude DbTypes WriteClass SchemaTypes ViewDdl DdlProfile DdlMoveFacts Identifiers GridTypes GridPredicates GridEngines GridCopy.

(** ** Options *)

Module TableDataSelect.
Record t : Set := mk {
  database_type : option DatabaseType;
  driver_profile : option text;
  identifier_quote : option text;
  server_version : option text;
  schema : option text;
  table_name : text;
  catalog : option text;
  database : option text;
  table_type : option text;
  primary_keys : list text;
  columns : list text;
  column_types : list text;
  large_value_preview_size : option N;
  fallback_order_columns : list text;
  order_by : option text;
  limit : option N;
  offset : option N;
  use_driver_row_offset : bool;
  where_input : option text;
  inject_default_time_series_where : bool;
  include_row_id : bool
}.
End TableDataSelect.

Module TableSelectOptions.
Record t : Set := mk {
  database_type : option DatabaseType;
  schema : option text;
  table_name : text;
  columns : list text;
  order_columns : list text;
  limit : N
}.
End TableSelectOptions.

(** ** Table types *)

Definition is_view_table_type (table_type : option text) : bool :=
  match table_type with Some value => contains %"VIEW" (upper value) | None => false end.

Definition is_oracle_base_table_type (table_type : option text) : bool :=
  match table_type with Some value => eq_ignore_ascii_case (trim value) %"TABLE" | None => false end.

Definition is_postgres_base_table_type (table_type : option text) : bool :=
  match table_type with
  | Some value => eq_ignore_ascii_case (trim value) %"TABLE" || eq_ignore_ascii_case (trim value) %"BASE TABLE"
  | None => false
  end.

Definition is_greenplum_server (server_version : option text) : bool :=
  match server_version with
  | Some version => contains %"greenplum" (lower version) || contains %"cloudberry" (lower version)
  | None => false
  end.

Definition is_tdengine_tbname (database_type : option DatabaseType) (name : text) : bool :=
  opt_in database_type [Tdengine] && eq_ignore_ascii_case name DBX_TDENGINE_TBNAME_COLUMN.

Definition tdengine_should_include_tbname (database_type : option DatabaseType) (table_type : option text) : bool :=
  opt_in database_type [Tdengine]
  && match table_type with Some value => text_in (upper (trim value)) [%"STABLE"; %"SUPER TABLE"; %"SUPERTABLE"] | None => false end.

(** ** Previews of large values *)

Definition DBX_LARGE_VALUE_BYTES_COLUMN_PREFIX : text := %"__DBX_LARGE_VALUE_BYTES_".

Inductive LargeValuePreviewKind : Set := Text | Binary | TextCast | Vector.

#[export] Instance LargeValuePreviewKind_eq_dec : EqDecision LargeValuePreviewKind.
Proof. solve_decision. Defined.

Definition normalized_data_type_base (data_type : text) : text := lower (trim (before_any [lparen; lbracket] (trim data_type))).

Definition declared_data_type_length (data_type : text) : option N :=
  '(_, parameters) ← split_once lparen data_type;
  parse_digits 18446744073709551615 (take_while is_ascii_digit (trim_start parameters)).

Definition declared_above (data_type : text) (preview_size : N) : bool :=
  match declared_data_type_length data_type with Some length => (preview_size <? length)%N | None => false end.

Definition large_value_marker_alias_kind (kind : LargeValuePreviewKind) (data_type : text) : text :=
  match kind with
  | Binary => %"B"
  | Vector => %"V"
  | TextCast =>
      let base := normalized_data_type_base data_type in
      if text_eqb base %"json" then %"J" else if text_eqb base %"jsonb" then %"K" else if text_eqb base %"tsvector" then %"S" else %"T"
  | Text => %"T"
  end.

Definition large_value_preview_kind (database_type : option DatabaseType) (data_type : text) (preview_size : N) : option LargeValuePreviewKind :=
  let normalized := lower (trim data_type) in
  let base := normalized_data_type_base data_type in
  let long := declared_above data_type preview_size in
  if opt_in database_type [Mysql] then
    if text_in base [%"blob"; %"mediumblob"; %"longblob"] || (text_eqb base %"varbinary" && long) then Some Binary
    else if text_eqb base %"json" then Some TextCast
    else if text_in base [%"text"; %"mediumtext"; %"longtext"] || (text_eqb base %"varchar" && long) then Some Text
    else None
  else if opt_in database_type [Postgres] then
    if contains [lbracket] normalized then None
    else if text_eqb base %"bytea" then Some Binary
    else if text_in base [%"char"; %"character"; %"varchar"; %"text"; %"citext"; %"name"] || starts_with %"character varying" normalized then Some Text
    else if text_eqb base %"vector" then Some Vector
    else if text_in base [%"json"; %"jsonb"; %"tsvector"; %"xml"] then Some TextCast
    else None
  else if opt_in database_type [Db2] then
    if text_in base [%"blob"; %"binary"; %"varbinary"; %"longvarbinary"] then Some Binary
    else if text_in base [%"clob"; %"dbclob"] || (text_in base [%"char"; %"character"; %"varchar"; %"graphic"; %"vargraphic"] && long) then Some Text
    else None
  else if opt_in database_type [Oracle] then
    if text_in base [%"clob"; %"nclob"] then Some Text else if text_eqb base %"blob" then Some Binary else None
  else None.

Record LargeValuePreviewItem : Set := mk_item { projection : text; alias : text }.

(** The size a preview is cut to, at most what an Oracle expression may return. *)
Definition column_preview_size (database_type : option DatabaseType) (kind : LargeValuePreviewKind) (preview_size : N) : N :=
  if opt_in database_type [Oracle] then N.min preview_size (if decide (kind = Binary) then 1998 else 999) else preview_size.

Definition saturating_add (a b : N) : N := N.min 18446744073709551615 (a + b).

Definition is_binary (kind : LargeValuePreviewKind) : bool := bool_decide (kind = Binary).

(** The preview expression of a column and the kind its marker reports. *)
Definition preview_expression (database_type : option DatabaseType) (kind : LargeValuePreviewKind) (quoted prefix_size : text) : option (text * text) :=
  let as_column expression := expression ++ %" AS " ++ quoted in
  if opt_in database_type [Mysql] then
    Some (as_column (%"LEFT(" ++ quoted ++ %", " ++ prefix_size ++ %")"), if is_binary kind then %"B" else %"T")
  else if opt_in database_type [Postgres] then
    Some match kind with
         | Binary => (as_column (%"substring(" ++ quoted ++ %" from 1 for " ++ prefix_size ++ %")"), %"B")
         | TextCast => (as_column (%"left(" ++ quoted ++ %"::text, " ++ prefix_size ++ %")"), %"T")
         | Vector => (as_column (%"left(" ++ quoted ++ %"::text, " ++ prefix_size ++ %")"), %"V")
         | Text => (as_column (%"left(" ++ quoted ++ %", " ++ prefix_size ++ %")"), %"T")
         end
  else if opt_in database_type [Db2] then
    Some (as_column (%"SUBSTR(" ++ quoted ++ %", 1, CASE WHEN LENGTH(" ++ quoted ++ %") >= " ++ prefix_size ++ %" THEN " ++ prefix_size
                     ++ %" ELSE LENGTH(" ++ quoted ++ %") END)"), if is_binary kind then %"B" else %"T")
  else if opt_in database_type [Oracle] then
    Some (if is_binary kind then (as_column (%"'0x' || RAWTOHEX(DBMS_LOB.SUBSTR(" ++ quoted ++ %", " ++ prefix_size ++ %", 1))"), %"B")
          else (as_column (%"DBMS_LOB.SUBSTR(" ++ quoted ++ %", " ++ prefix_size ++ %", 1)"), %"T"))
  else None.

Definition marker_expression (database_type : option DatabaseType) (kind : LargeValuePreviewKind) (marker_kind quoted preview_size marker_alias : text)
    : text :=
  let head := %"'" ++ marker_kind ++ %":" ++ preview_size in
  if opt_in database_type [Mysql] then %"CONCAT(" ++ head ++ %":', LENGTH(" ++ quoted ++ %")) AS " ++ marker_alias
  else if opt_in database_type [Postgres] && is_binary kind then head ++ %":' || octet_length(" ++ quoted ++ %")::text AS " ++ marker_alias
  else if opt_in database_type [Oracle] then head ++ %":' || DBMS_LOB.GETLENGTH(" ++ quoted ++ %") AS " ++ marker_alias
  else head ++ %"' AS " ++ marker_alias.

Definition has_oracle_row_id (options : TableDataSelect.t) : bool :=
  TableDataSelect.include_row_id options && uses_oracle_row_id (TableDataSelect.database_type options)
  && is_oracle_base_table_type (TableDataSelect.table_type options).

Definition marker_name (alias_kind : text) (index : nat) : text :=
  DBX_LARGE_VALUE_BYTES_COLUMN_PREFIX ++ alias_kind ++ %"_" ++ show_N (N.of_nat index).

Definition quoted_preview_column (options : TableDataSelect.t) (column : text) : text :=
  let database_type := TableDataSelect.database_type options in
  if uses_connection_identifier_quote database_type (TableDataSelect.identifier_quote options)
  then quote_table_data_identifier database_type column (TableDataSelect.identifier_quote options)
  else quote_table_identifier database_type column.

Definition is_protected (options : TableDataSelect.t) (column : text) : bool :=
  text_in (lower column) (map lower (TableDataSelect.primary_keys options)).

(** The items of one column: itself, or its preview and the marker after it; [None] ends the whole preview. *)
Definition preview_items_of (options : TableDataSelect.t) (preview_size : N) (column_index : nat) (column data_type : text)
    : option (list LargeValuePreviewItem) :=
  let database_type := TableDataSelect.database_type options in
  let quoted := quoted_preview_column options column in
  match (if is_protected options column then None else large_value_preview_kind database_type data_type preview_size) with
  | None => Some [mk_item quoted column]
  | Some kind =>
      let preview_size := column_preview_size database_type kind preview_size in
      let name :=
        marker_name (large_value_marker_alias_kind kind data_type) (column_index + (if has_oracle_row_id options then 1 else 0)) in
      '(preview, marker_kind) ← preview_expression database_type kind quoted (show_N (saturating_add preview_size 1));
      Some [mk_item preview column;
            mk_item (marker_expression database_type kind marker_kind quoted (show_N preview_size) (quote_table_identifier database_type name)) name]
  end.

Definition build_large_value_preview_items (options : TableDataSelect.t) : option (list LargeValuePreviewItem) :=
  let columns := TableDataSelect.columns options in
  let types := TableDataSelect.column_types options in
  size ← TableDataSelect.large_value_preview_size options;
  if is_empty columns || negb (Nat.eqb (length columns) (length types)) || is_empty (TableDataSelect.primary_keys options)
     || existsb (fun column => starts_with DBX_LARGE_VALUE_BYTES_COLUMN_PREFIX (upper column)) columns
  then None
  else
    items ← mapM (fun '(index, (column, data_type)) => preview_items_of options (N.max 1 size) index column data_type)
              (imap pair (zip columns types));
    if existsb (fun part => Nat.eqb (length part) 2) items then Some (concat items) else None.

Definition build_large_value_preview_columns (options : TableDataSelect.t) : option text :=
  (fun items => join %", " (map projection items)) <$> build_large_value_preview_items options.

(** ** Columns *)

Section Builders.

Context `{PercentDecode} `{LetterTable} `{CharTable}.

Definition quoted_list (database_type : option DatabaseType) (columns : list text) : text :=
  if is_empty columns then %"*" else join %", " (map (quote_table_identifier database_type) columns).

Definition quoted_table_columns_or_star (database_type : option DatabaseType) (columns : list text) : text :=
  if is_empty columns then %"*"
  else
    join %", " (map (fun column =>
      if opt_in database_type [Iris] then quote_iris_identifier column None else quote_table_identifier database_type column) columns).

Definition aliased (ident : text) : text := ident ++ %" AS " ++ ident.

Definition build_select_columns (database_type : option DatabaseType) (columns : list text) (include_tdengine_tbname : bool)
    (identifier_quote : option text) : text :=
  let named_tbname column := eq_ignore_ascii_case column DBX_TDENGINE_TBNAME_COLUMN in
  if is_empty columns then
    if opt_in database_type [Tdengine] && include_tdengine_tbname then DBX_TDENGINE_TBNAME_COLUMN ++ %", *" else %"*"
  else if opt_in database_type [Tdengine] then
    let tdengine_columns :=
      (if include_tdengine_tbname && negb (existsb named_tbname columns) then [DBX_TDENGINE_TBNAME_COLUMN] else [])
      ++ List.filter (fun column => include_tdengine_tbname || negb (named_tbname column)) columns in
    if is_empty tdengine_columns then %"*"
    else
      join %", " (map (fun column =>
        if is_tdengine_tbname database_type column then DBX_TDENGINE_TBNAME_COLUMN
        else aliased (quote_table_identifier database_type column)) tdengine_columns)
  else if negb (opt_in database_type [Hive; Kyuubi; Impala; Argo; Transwarp; Oscar]) then %"*"
  else
    join %", " (map (fun column =>
      let ident :=
        if opt_in database_type [Kyuubi] then quote_table_data_identifier database_type column identifier_quote
        else quote_table_identifier database_type column in
      if opt_in database_type [Hive] then aliased ident else ident) columns).

(** ** Statements *)

(** A SELECT without a page clause. *)
Definition select_from (columns table where_clause order : text) : text := %"SELECT " ++ columns ++ %" FROM " ++ table ++ where_clause ++ order.

Definition victoriametrics_metric_selector (metric_name : text) : text :=
  let escaped := replace_char nl %"\n" (replace_char dquote [bslash; dquote] (replace_char bslash [bslash; bslash] metric_name)) in
  %"{__name__=" ++ [dquote] ++ escaped ++ [dquote] ++ %"}".

Definition build_count_table_sql (database_type : option DatabaseType) (schema : option text) (table_name : text) : text :=
  if opt_in database_type [VictoriaMetrics] then %"count(" ++ victoriametrics_metric_selector table_name ++ %")"
  else %"SELECT COUNT(*) AS row_count FROM " ++ qualified_table_name database_type schema table_name.

Definition default_time_series_predicate (database_type : option DatabaseType) : option text :=
  if opt_in database_type [InfluxDb] then Some %"time > now() - 5m"
  else if opt_in database_type [InfluxDb3] then Some %"time > now() - INTERVAL '5 minutes'"
  else None.

Definition informix_row_limit_clause (limit offset : N) : text :=
  if (0 <? offset)%N then %"SKIP " ++ show_N offset ++ %" FIRST " ++ show_N limit else %"FIRST " ++ show_N limit.

Definition build_iris_table_select_sql (select_columns table_alias where_clause order : text) (limit offset : N) : text :=
  let top n := select_from (%"TOP " ++ show_N n ++ %" " ++ select_columns) table_alias where_clause order in
  if (offset =? 0)%N then top limit
  else %"SELECT * FROM (" ++ top (saturating_add offset limit) ++ %") WHERE %VID > " ++ show_N offset.

Definition build_rownum_table_select_sql (overflow_checks : bool) (table where_clause order inner_select_columns outer_select_columns : text)
    (limit offset : N) : outcome text :=
  let inner_select := select_from inner_select_columns table where_clause order in
  if (offset =? 0)%N
  then Returns (%"SELECT " ++ outer_select_columns ++ %" FROM (" ++ inner_select ++ %") WHERE ROWNUM <= " ++ show_N limit)
  else
    let row_number_alias := quote_table_identifier (Some Oracle) %"__dbx_row_num" in
    do end_ <- usize_add overflow_checks offset limit;
    Returns (%"SELECT " ++ outer_select_columns ++ %" FROM (SELECT dbx_inner.*, ROWNUM AS " ++ row_number_alias ++ %" FROM (" ++ inner_select
             ++ %") dbx_inner WHERE ROWNUM <= " ++ show_N end_ ++ %") WHERE " ++ row_number_alias ++ %" > " ++ show_N offset).

(** The rows with a number in the page, in the order of their numbers. *)
Definition numbered_page (row_number : text) (offset end_ : N) : text :=
  %" WHERE " ++ row_number ++ %" > " ++ show_N offset ++ %" AND " ++ row_number ++ %" <= " ++ show_N end_ ++ %" ORDER BY " ++ row_number.

Definition build_sqlserver_table_select_sql (overflow_checks : bool) (table where_clause order_by : text) (columns : list text) (limit offset : N)
    (legacy_compatible : bool) : outcome text :=
  let q := quote_table_identifier (Some SqlServer) in
  let columns_sql := quoted_list (Some SqlServer) columns in
  let order := if text_eqb order_by %"(SELECT NULL)" then [] else %" ORDER BY " ++ order_by in
  if legacy_compatible then Returns (select_from columns_sql table where_clause order)
  else if (offset =? 0)%N then Returns (select_from (%"TOP (" ++ show_N limit ++ %") " ++ columns_sql) table where_clause order)
  else
    do end_ <- usize_add overflow_checks offset limit;
    Returns (%"WITH " ++ q %"dbx_page" ++ %" AS (SELECT " ++ columns_sql ++ %", ROW_NUMBER() OVER (ORDER BY " ++ order_by ++ %") AS "
             ++ q %"__dbx_row_num" ++ %" FROM " ++ table ++ where_clause ++ %") SELECT " ++ columns_sql ++ %" FROM " ++ q %"dbx_page"
             ++ numbered_page (q %"__dbx_row_num") offset end_).

Definition build_db2_table_select_page_sql (overflow_checks : bool) (table where_clause : text) (order_by : option text) (columns : list text)
    (limit offset : N) : outcome text :=
  let q := quote_table_identifier (Some Db2) in
  let inner_columns := if is_empty columns then %"dbx_t.*" else join %", " (map (fun column => %"dbx_t." ++ q column) columns) in
  let order := match order_by with Some order_by => %"ORDER BY " ++ order_by | None => [] end in
  do end_ <- usize_add overflow_checks offset limit;
  Returns (%"SELECT " ++ quoted_list (Some Db2) columns ++ %" FROM (SELECT " ++ inner_columns ++ %", ROW_NUMBER() OVER (" ++ order ++ %") AS "
           ++ q %"__dbx_row_num" ++ %" FROM " ++ table ++ %" dbx_t" ++ where_clause ++ %") dbx_page" ++ numbered_page (q %"__dbx_row_num") offset end_).

Definition build_questdb_table_select_sql (overflow_checks : bool) (table where_clause order_by : text) (columns : list text) (limit offset : N)
    : outcome text :=
  let select := select_from (quoted_list (Some Questdb) columns) table where_clause order_by in
  if (offset =? 0)%N then Returns (select ++ %" LIMIT " ++ show_N limit)
  else
    do upper_bound <- usize_add overflow_checks offset limit;
    Returns (select ++ %" LIMIT " ++ show_N offset ++ %", " ++ show_N upper_bound).

(** [o.filter(|s| !s.trim().is_empty())]. *)
Definition filled (o : option text) : option text := match o with Some s => if is_empty (trim s) then None else Some s | None => None end.

(** A clause for an offset above zero. *)
Definition skipping (before after : text) (offset : option N) : text :=
  match offset with Some n => if (0 <? n)%N then before ++ show_N n ++ after else [] | None => [] end.

Definition ordered_by (order_by : option text) : text := match order_by with Some order_by => %" ORDER BY " ++ order_by | None => [] end.

Definition build_neo4j_table_select_sql (options : TableDataSelect.t) (limit : N) : text :=
  let q := quote_table_identifier (Some Neo4j) in
  let columns := TableDataSelect.columns options in
  let predicate := normalize_where_input (TableDataSelect.where_input options) in
  let returned_columns := if is_empty columns then %"n" else join %", " (map (fun column => %"n." ++ aliased (q column)) columns) in
  %"MATCH (n:" ++ q (TableDataSelect.table_name options) ++ %")" ++ (if is_empty predicate then [] else %" WHERE " ++ predicate) ++ %" RETURN "
  ++ neo4j_element_id_function (TableDataSelect.server_version options) ++ %"(n) AS " ++ q DBX_NEO4J_ELEMENT_ID_COLUMN ++ %", " ++ returned_columns
  ++ ordered_by (filled (TableDataSelect.order_by options)) ++ skipping %" SKIP " [] (TableDataSelect.offset options)
  ++ %" LIMIT " ++ show_N limit ++ %";".

Definition build_nebula_table_select_sql (options : TableDataSelect.t) (limit : N) : text :=
  let q := quote_table_identifier (Some Nebula) in
  let kind := q (TableDataSelect.table_name options) in
  let columns := TableDataSelect.columns options in
  let is_edge := match TableDataSelect.table_type options with Some kind => eq_ignore_ascii_case kind %"VIEW" | None => false end in
  let listed owner whole := if is_empty columns then whole else join %", " (map (fun column => owner ++ aliased (q column)) columns) in
  let predicate := normalize_where_input (TableDataSelect.where_input options) in
  (if is_edge then %"MATCH ()-[e:" ++ kind ++ %"]->()" else %"MATCH (v:" ++ kind ++ %")")
  ++ (if is_empty predicate then [] else %" WHERE " ++ predicate) ++ %" RETURN "
  ++ (if is_edge then %"src(e) AS `_src`, dst(e) AS `_dst`, rank(e) AS `_rank`" else %"id(v) AS `_vid`") ++ %", "
  ++ (if is_edge then listed %"e." %"e AS `edge`" else listed (%"v." ++ kind ++ %".") %"v AS `vertex`")
  ++ ordered_by (filled (TableDataSelect.order_by options)) ++ skipping %" SKIP " [] (TableDataSelect.offset options)
  ++ %" LIMIT " ++ show_N limit ++ %";".

Definition SALESFORCE_FIELDS_ALL_MAX_LIMIT : N := 200%N.

Definition salesforce_projection (options : TableDataSelect.t) : list text :=
  List.filter (fun column => negb (is_empty column) && negb (eq_ignore_ascii_case column DBX_ROWID_COLUMN))
    (map trim (TableDataSelect.columns options)).

Definition build_salesforce_table_select_sql (options : TableDataSelect.t) (limit : N) : text :=
  let columns := salesforce_projection options in
  let predicate := normalize_where_input (TableDataSelect.where_input options) in
  let projection := if is_empty columns then %"FIELDS(ALL)" else join %", " columns in
  let effective_limit := if is_empty columns then N.min limit SALESFORCE_FIELDS_ALL_MAX_LIMIT else limit in
  select_from projection (trim (TableDataSelect.table_name options)) (if is_empty predicate then [] else %" WHERE (" ++ predicate ++ %")")
    (ordered_by (non_blank (TableDataSelect.order_by options)))
  ++ %" LIMIT " ++ show_N effective_limit ++ skipping %" OFFSET " [] (TableDataSelect.offset options).

(** ** The SELECT of the grid *)

Definition select_schema (options : TableDataSelect.t) : option text :=
  table_data_schema (TableDataSelect.database_type options) (TableDataSelect.driver_profile options) (TableDataSelect.schema options).

(** The database that a TDengine table carries when it is read through JDBC. *)
Definition jdbc_tdengine_database (options : TableDataSelect.t) : option text :=
  if opt_in (TableDataSelect.database_type options) [Jdbc]
     && match TableDataSelect.driver_profile options with Some profile => eq_ignore_ascii_case (trim profile) %"tdengine" | None => false end
  then first_some (non_blank (TableDataSelect.database options)) (select_schema options)
  else None.

Definition select_table (options : TableDataSelect.t) (include_database_name : bool) : text :=
  let database_type := TableDataSelect.database_type options in
  let quote := TableDataSelect.identifier_quote options in
  let name := TableDataSelect.table_name options in
  let catalog := TableDataSelect.catalog options in
  let database := TableDataSelect.database options in
  let schema := select_schema options in
  match jdbc_tdengine_database options with
  | Some database => qualified_table_name (Some Tdengine) (Some database) name
  | None =>
      if opt_in database_type [Iris] || uses_connection_identifier_quote database_type quote
      then table_data_qualified_table_name database_type schema name quote
      else
        match (if include_database_name then database_qualified_table_name database_type catalog schema database name else None) with
        | Some qualified => qualified
        | None => qualified_table_name_with_catalog database_type catalog schema database name
        end
  end.

Definition select_where (options : TableDataSelect.t) : text :=
  let predicate := normalize_where_input (TableDataSelect.where_input options) in
  let effective :=
    if is_empty predicate && TableDataSelect.inject_default_time_series_where options
    then or_default (default_time_series_predicate (TableDataSelect.database_type options)) else predicate in
  if is_empty effective then [] else %" WHERE (" ++ effective ++ %")".

Definition select_order_by (options : TableDataSelect.t) : option text :=
  first_some (filled (TableDataSelect.order_by options))
    (if opt_in (TableDataSelect.database_type options) [InfluxDb; InfluxDb3] then Some %"time DESC"
     else if opt_in (TableDataSelect.database_type options) [Impala] then Some %"1"
     else None).

Definition includes_xugu_row_id (options : TableDataSelect.t) : bool :=
  TableDataSelect.include_row_id options && uses_xugu_row_id (TableDataSelect.database_type options)
  && negb (is_view_table_type (TableDataSelect.table_type options)).

Definition includes_postgres_ctid (options : TableDataSelect.t) : bool :=
  TableDataSelect.include_row_id options && uses_postgres_ctid (TableDataSelect.database_type options)
  && is_postgres_base_table_type (TableDataSelect.table_type options) && is_empty (TableDataSelect.primary_keys options)
  && negb (is_greenplum_server (TableDataSelect.server_version options)).

Definition oracle_preview_items (options : TableDataSelect.t) : option (list LargeValuePreviewItem) :=
  if opt_in (TableDataSelect.database_type options) [Oracle] then build_large_value_preview_items options else None.

Definition ROW_ID : text := [dquote] ++ DBX_ROWID_COLUMN ++ [dquote].

Definition select_columns (options : TableDataSelect.t) : text :=
  let database_type := TableDataSelect.database_type options in
  let columns := TableDataSelect.columns options in
  let row_id := %"ROWIDTOCHAR(t.ROWID) AS " ++ ROW_ID in
  match oracle_preview_items options with
  | Some items => join %", " ((if has_oracle_row_id options then [row_id] else []) ++ map projection items)
  | None =>
      if has_oracle_row_id options then row_id ++ %", t.*"
      else if includes_postgres_ctid options then %"tableoid::text || ':' || ctid::text || ':' || xmin::text AS " ++ ROW_ID ++ %", *"
      else
        match build_large_value_preview_columns options with
        | Some preview_columns => preview_columns
        | None =>
            if includes_xugu_row_id options then %"ROWID AS " ++ ROW_ID ++ %", " ++ quoted_table_columns_or_star database_type columns
            else
              build_select_columns database_type columns (tdengine_should_include_tbname database_type (TableDataSelect.table_type options))
                (TableDataSelect.identifier_quote options)
        end
  end.

Definition page_select_columns (options : TableDataSelect.t) : text :=
  let database_type := TableDataSelect.database_type options in
  let columns := TableDataSelect.columns options in
  match oracle_preview_items options with
  | Some items =>
      join %", " ((if has_oracle_row_id options then [ROW_ID] else []) ++ map (fun item => quote_table_identifier database_type (alias item)) items)
  | None =>
      if has_oracle_row_id options then
        if is_empty columns then %"*"
        else
          let rest :=
            join %", " (map (quote_table_identifier database_type)
              (List.filter (fun column => negb (eq_ignore_ascii_case column DBX_ROWID_COLUMN)) columns)) in
          if is_empty rest then ROW_ID else ROW_ID ++ %", " ++ rest
      else quoted_table_columns_or_star database_type columns
  end.

Definition is_legacy_profile (options : TableDataSelect.t) : bool := is_sqlserver_legacy_profile (TableDataSelect.driver_profile options).

(** The SELECT with the page clause of the engine. *)
Definition build_page_sql (overflow_checks : bool) (options : TableDataSelect.t) (include_database_name : bool) (limit : N) : outcome text :=
  let database_type := TableDataSelect.database_type options in
  let columns := TableDataSelect.columns options in
  let offset := default 0%N (TableDataSelect.offset options) in
  let where_clause := select_where options in
  let order := ordered_by (select_order_by options) in
  let table := select_table options include_database_name ++ (if has_oracle_row_id options then %" t" else []) in
  let select := select_from (select_columns options) table where_clause order in
  let fetch_first :=
    select ++ skipping %" OFFSET " %" ROWS" (TableDataSelect.offset options) ++ %" FETCH FIRST " ++ show_N limit ++ %" ROWS ONLY" in
  match table_pagination_strategy database_type with
  | IrisTop =>
      Returns (if TableDataSelect.use_driver_row_offset options then select
               else build_iris_table_select_sql (select_columns options) table where_clause order limit offset)
  | InformixFirst =>
      Returns (select_from (informix_row_limit_clause limit offset ++ %" " ++ select_columns options) table where_clause order)
  | FirebirdRows => do rows <- firebird_rows_clause overflow_checks limit offset; Returns (select ++ %" " ++ rows)
  | Db2FetchFirst =>
      if (0 <? offset)%N
      then build_db2_table_select_page_sql overflow_checks table where_clause (select_order_by options) columns limit offset
      else Returns fetch_first
  | FetchFirst => Returns fetch_first
  | Rownum =>
      let inner_columns :=
        if has_oracle_row_id options || match oracle_preview_items options with Some _ => true | None => false end
        then select_columns options else quoted_table_columns_or_star database_type columns in
      build_rownum_table_select_sql overflow_checks table where_clause order inner_columns (page_select_columns options) limit offset
  | Unbounded => Returns select
  | SqlServerTop =>
      build_sqlserver_table_select_sql overflow_checks table where_clause (default %"(SELECT NULL)" (select_order_by options)) columns limit offset
        (is_legacy_profile options)
  | QuestDbLimit => build_questdb_table_select_sql overflow_checks table where_clause order columns limit offset
  | AgentMaxRows => Returns (select ++ %";")
  | LimitOffset =>
      Returns (select ++ %" LIMIT " ++ show_N limit ++ skipping %" OFFSET " [] (TableDataSelect.offset options) ++ %";")
  end.

Definition build_table_data_select_sql_with_database (overflow_checks : bool) (options : TableDataSelect.t) (include_database_name : bool)
    : outcome text :=
  let database_type := TableDataSelect.database_type options in
  let limit := default 100%N (TableDataSelect.limit options) in
  if opt_in database_type [Neo4j] then Returns (build_neo4j_table_select_sql options limit)
  else if opt_in database_type [Nebula] then Returns (build_nebula_table_select_sql options limit)
  else if opt_in database_type [Salesforce] then Returns (build_salesforce_table_select_sql options limit)
  else if opt_in database_type [VictoriaMetrics]
  then Returns (victoriametrics_metric_selector (TableDataSelect.table_name options) ++ %"[1h]")
  else build_page_sql overflow_checks options include_database_name limit.

Definition build_table_data_select_sql (overflow_checks : bool) (options : TableDataSelect.t) : outcome text :=
  build_table_data_select_sql_with_database overflow_checks options false.

Definition build_table_select_sql (overflow_checks : bool) (options : TableSelectOptions.t) : outcome text :=
  let database_type := TableSelectOptions.database_type options in
  let limit := TableSelectOptions.limit options in
  let table :=
    if opt_in database_type [Iris] then iris_table_name (TableSelectOptions.schema options) (TableSelectOptions.table_name options) None
    else qualified_table_name database_type (TableSelectOptions.schema options) (TableSelectOptions.table_name options) in
  let columns := quoted_table_columns_or_star database_type (TableSelectOptions.columns options) in
  let order_columns := TableSelectOptions.order_columns options in
  let order_by :=
    if is_empty order_columns then []
    else
      %" ORDER BY " ++ join %", " (map (fun column =>
        (if opt_in database_type [Iris] then quote_iris_identifier column None else quote_table_identifier database_type column) ++ %" ASC")
        order_columns) in
  let select := select_from columns table [] order_by in
  if opt_in database_type [VictoriaMetrics] then Returns (victoriametrics_metric_selector (TableSelectOptions.table_name options) ++ %"[1h]")
  else
    match table_pagination_strategy database_type with
    | IrisTop => Returns (select_from (%"TOP " ++ show_N limit ++ %" " ++ columns) table [] order_by)
    | InformixFirst => Returns (select_from (%"FIRST " ++ show_N limit ++ %" " ++ columns) table [] order_by)
    | FirebirdRows => do rows <- firebird_rows_clause overflow_checks limit 0; Returns (select ++ %" " ++ rows)
    | Rownum => build_rownum_table_select_sql overflow_checks table [] order_by columns columns limit 0
    | Db2FetchFirst | FetchFirst => Returns (select ++ %" FETCH FIRST " ++ show_N limit ++ %" ROWS ONLY")
    | SqlServerTop => Returns (select_from (%"TOP (" ++ show_N limit ++ %") " ++ columns) table [] order_by)
    | AgentMaxRows => Returns (select ++ %";")
    | Unbounded => Returns select
    | QuestDbLimit | LimitOffset => Returns (select ++ %" LIMIT " ++ show_N limit ++ %";")
    end.

End Builders.

(** ** Pages as queries *)











Section PageMeaning.

Context {Row : Type}.











End PageMeaning.

(** ** Pages tile the rows *)

Definition at_page (options : TableDataSelect.t) (limit offset : N) : TableDataSelect.t :=
  let '(TableDataSelect.mk database_type driver_profile identifier_quote server_version schema table_name catalog database table_type primary_keys
          columns column_types preview fallback order_by _ _ use_driver_row_offset where_input inject include_row_id) := options in
  TableDataSelect.mk database_type driver_profile identifier_quote server_version schema table_name catalog database table_type primary_keys
    columns column_types preview fallback order_by (Some limit) (Some offset) use_driver_row_offset where_input inject include_row_id.








Definition MAX_ROW : N := 18446744073709551615%N.




Section Tiling.

Context `{PercentDecode} `{LetterTable} `{CharTable}.

Implicit Types (options : TableDataSelect.t).
















End Tiling.

(** ** Examples *)

#[local] Existing Instance latin1_table.
#[local] Instance select_letters : LetterTable := {| nonascii_alphabetic := fun _ => false |}.
#[local] Instance select_percent : PercentDecode := {| percent_decode := fun _ => None |}.

(** The options of a table with everything else left at its default. *)
Definition reading (database_type : DatabaseType) (schema : option text) (table_name : text) (columns column_types : list text) (preview : option N)
    (order_by where_input : option text) : TableDataSelect.t :=
  TableDataSelect.mk (Some database_type) None None None schema table_name None None (Some %"TABLE") [%"ID"] columns column_types preview [] order_by
    None None false where_input false false.

Definition page_of (options : TableDataSelect.t) (limit offset : N) : outcome text :=
  build_table_data_select_sql true (at_page options limit offset).

Definition orders (database_type : DatabaseType) (schema : option text) (order_by : option text) : TableDataSelect.t :=
  reading database_type schema %"ORDERS" [%"ID"; %"AMOUNT"] [] None order_by (Some %"WHERE amount > 10").

(** [builds_table_data_select_sql]: the second page of Firebird, Oracle and Db2. *)
Example later_pages :
  page_of (orders Firebird None (Some (dq_text %"^ID^ ASC"))) 50 100
  = Returns (dq_text %"SELECT * FROM ^ORDERS^ WHERE (amount > 10) ORDER BY ^ID^ ASC ROWS 101 TO 150")
  /\ page_of (orders Oracle (Some %"DBXTEST") (Some (dq_text %"^ID^ ASC"))) 50 100
     = Returns (dq_text (%"SELECT ^ID^, ^AMOUNT^ FROM (SELECT dbx_inner.*, ROWNUM AS ^__dbx_row_num^ FROM (SELECT ^ID^, ^AMOUNT^ FROM "
         ++ %"^DBXTEST^.^ORDERS^ WHERE (amount > 10) ORDER BY ^ID^ ASC) dbx_inner WHERE ROWNUM <= 150) WHERE ^__dbx_row_num^ > 100"))
  /\ page_of (orders Db2 (Some %"DB2INST1") None) 50 100
     = Returns (dq_text (%"SELECT ^ID^, ^AMOUNT^ FROM (SELECT dbx_t.^ID^, dbx_t.^AMOUNT^, ROW_NUMBER() OVER () AS ^__dbx_row_num^ FROM "
         ++ %"^DB2INST1^.^ORDERS^ dbx_t WHERE (amount > 10)) dbx_page WHERE ^__dbx_row_num^ > 100 AND ^__dbx_row_num^ <= 150 "
         ++ %"ORDER BY ^__dbx_row_num^")).
Proof. by vm_compute. Qed.

(** The page clauses of IRIS, Informix and SQL Server. *)
Example other_pages :
  page_of (reading Iris (Some %"Ens") %"AlarmResponse" [%"ID"; %"Status"] [] None (Some %"ID ASC") (Some %"WHERE Status = 'Open'")) 25 100
  = Returns (%"SELECT * FROM (SELECT TOP 125 * FROM Ens.AlarmResponse WHERE (Status = 'Open') ORDER BY ID ASC) WHERE %VID > 100")
  /\ page_of (reading Informix (Some %"xtdpcky") %"users" [%"id"; %"name"] [] None None (Some %"WHERE active = 1")) 50 100
     = Returns %"SELECT SKIP 100 FIRST 50 * FROM xtdpcky.users WHERE (active = 1)"
  /\ page_of (reading SqlServer (Some %"sales") %"orders" [%"order_id"; %"customer"] [] None None None) 50 100
     = Returns (%"WITH [dbx_page] AS (SELECT [order_id], [customer], ROW_NUMBER() OVER (ORDER BY (SELECT NULL)) AS [__dbx_row_num] FROM "
         ++ %"[sales].[orders]) SELECT [order_id], [customer] FROM [dbx_page] WHERE [__dbx_row_num] > 100 AND [__dbx_row_num] <= 150 "
         ++ %"ORDER BY [__dbx_row_num]").
Proof. by vm_compute. Qed.


Definition documents (database_type : DatabaseType) : TableDataSelect.t :=
  reading database_type None %"documents" [%"ID"; %"BODY"] [%"NUMBER"; %"CLOB"] (Some 200%N) None None.

(** [keeps_oracle_table_data_previews_on_later_pages]; the later pages of Db2 read the whole values, without a marker. *)
Example previews_on_later_pages :
  page_of (documents Oracle) 100 200
  = Returns (dq_text (%"SELECT ^ID^, ^BODY^, ^__DBX_LARGE_VALUE_BYTES_T_1^ FROM (SELECT dbx_inner.*, ROWNUM AS ^__dbx_row_num^ FROM (SELECT ^ID^, "
      ++ %"DBMS_LOB.SUBSTR(^BODY^, 201, 1) AS ^BODY^, 'T:200:' || DBMS_LOB.GETLENGTH(^BODY^) AS ^__DBX_LARGE_VALUE_BYTES_T_1^ FROM ^documents^) "
      ++ %"dbx_inner WHERE ROWNUM <= 300) WHERE ^__dbx_row_num^ > 200"))
  /\ page_of (documents Db2) 100 0
     = Returns (dq_text (%"SELECT ^ID^, SUBSTR(^BODY^, 1, CASE WHEN LENGTH(^BODY^) >= 201 THEN 201 ELSE LENGTH(^BODY^) END) AS ^BODY^, "
         ++ %"'T:200' AS ^__DBX_LARGE_VALUE_BYTES_T_1^ FROM ^documents^ FETCH FIRST 100 ROWS ONLY"))
  /\ page_of (documents Db2) 100 200
     = Returns (dq_text (%"SELECT ^ID^, ^BODY^ FROM (SELECT dbx_t.^ID^, dbx_t.^BODY^, ROW_NUMBER() OVER () AS ^__dbx_row_num^ FROM ^documents^ "
         ++ %"dbx_t) dbx_page WHERE ^__dbx_row_num^ > 200 AND ^__dbx_row_num^ <= 300 ORDER BY ^__dbx_row_num^")).
Proof. by vm_compute. Qed.

(** Without named fields Salesforce answers 200 rows of a page of 500, and the next page starts at row 500. *)
Example salesforce_pages_have_gaps :
  page_of (reading Salesforce None %"Account" [] [] None None None) 500 0 = Returns %"SELECT FIELDS(ALL) FROM Account LIMIT 200"
  /\ page_of (reading Salesforce None %"Account" [] [] None None None) 500 500 = Returns %"SELECT FIELDS(ALL) FROM Account LIMIT 200 OFFSET 500".
Proof. by vm_compute. Qed.

(** A row number that does not fit a [usize]: a panic with overflow checks and an empty page without them; IRIS saturates. *)
Example row_numbers_overflow :
  page_of (orders Oracle None None) 100 MAX_ROW = Panics
  /\ build_questdb_table_select_sql false %"t" [] [] [] 100 MAX_ROW = Returns %"SELECT * FROM t LIMIT 18446744073709551615, 99"
  /\ build_iris_table_select_sql %"*" %"t" [] [] 100 MAX_ROW
     = %"SELECT * FROM (SELECT TOP 18446744073709551615 * FROM t) WHERE %VID > 18446744073709551615".
Proof. by vm_compute. Qed.
