(* ===== verification/LargeValues.v ===== *)
(** * LargeValues: the previews of large values in a result ([query/mod.rs],
      [strip_large_value_marker_prefix] to [merge_large_value_cells]).

    The SELECT of a table ([TableSelect]) reads a bounded prefix of a large value and a
    marker column after it.  The result of the query is given back without the markers:
    each value is cut to its preview size and the cells that were cut are listed.  The
    fields of a result that the extraction does not touch are left out of its record. *)

From stdpp Require Import list.
From Stdlib Require Import ZifyN ZifyBool.
From S2P Require Import Prelude DbTypes WriteClass SchemaTypes DdlProfile Identifiers GridTypes GridLiterals GridLiteralFacts TableSelect.

(** ** Results *)

Record SpatialColumn : Set := mk_spatial { spatial_column_index : nat; srid : option N }.

Record LargeValueCell : Set := mk_cell { row_index : nat; column_index : nat; original_bytes : N; value_ref : option text }.

Module QueryResult.
Record t `{JsonNumber} : Type := mk {
  deferred_large_value_cells : list LargeValueCell;
  columns : list text;
  column_types : list text;
  column_sortables : list bool;
  spatial_columns : list SpatialColumn;
  spatial_values : list (list (option N));
  rows : list (list Value)
}.
End QueryResult.

Definition SERVER_LARGE_VALUE_UNKNOWN_BYTES : N := (64 * 1024 * 1024)%N.

Inductive ServerLargeValuePreviewKind : Set := PreviewText | PreviewBinary | PreviewVector | PreviewDeferred.

#[export] Instance ServerLargeValuePreviewKind_eq_dec : EqDecision ServerLargeValuePreviewKind.
Proof. solve_decision. Defined.

Record ServerLargeValueMarker : Set := mk_marker {
  result_index : nat;
  source_index : nat;
  preview_kind : option ServerLargeValuePreviewKind;
  source_type : option text
}.

Record ServerLargeValueMarkerValue : Set := mk_marker_value {
  marker_kind : ServerLargeValuePreviewKind;
  marker_preview_size : N;
  marker_original_bytes : option N;
  marker_value_ref : option text
}.

(** ** Marker columns *)

(** [s.parse::<usize>()]: a plus sign is allowed. *)
Definition parse_usize (s : text) : option N := parse_digits 18446744073709551615 (default s (strip_prefix %"+" s)).

Definition strip_large_value_marker_prefix (column : text) : option text :=
  let n := length DBX_LARGE_VALUE_BYTES_COLUMN_PREFIX in
  if eq_ignore_ascii_case (take n column) DBX_LARGE_VALUE_BYTES_COLUMN_PREFIX then Some (drop n column) else None.

Definition alias_kind (kind : text) : option (ServerLargeValuePreviewKind * option text) :=
  if text_in kind [%"T"; %"t"] then Some (PreviewText, None)
  else if text_in kind [%"B"; %"b"] then Some (PreviewBinary, None)
  else if text_in kind [%"V"; %"v"] then Some (PreviewVector, Some %"vector")
  else if text_in kind [%"J"; %"j"] then Some (PreviewText, Some %"json")
  else if text_in kind [%"K"; %"k"] then Some (PreviewText, Some %"jsonb")
  else if text_in kind [%"S"; %"s"] then Some (PreviewText, Some %"tsvector")
  else if text_in kind [%"C"; %"c"] then Some (PreviewDeferred, Some %"clob")
  else if text_in kind [%"N"; %"n"] then Some (PreviewDeferred, Some %"nclob")
  else if text_in kind [%"L"; %"l"] then Some (PreviewDeferred, Some %"blob")
  else if text_in kind [%"F"; %"f"] then Some (PreviewDeferred, Some %"bfile")
  else None.

Definition server_large_value_alias (suffix : text) : option (N * option ServerLargeValuePreviewKind * option text) :=
  match parse_usize suffix with
  | Some source_index => Some (source_index, None, None)
  | None =>
      '(kind, index) ← split_once under suffix;
      source_index ← parse_usize index;
      '(preview_kind, source_type) ← alias_kind kind;
      Some (source_index, Some preview_kind, source_type)
  end.

(** The markers among the columns from [index] on, after [found] others: a marker names the column before it. *)
Fixpoint markers_from (index found : nat) (columns : list text) : list ServerLargeValueMarker :=
  match columns with
  | [] => []
  | column :: rest =>
      match strip_large_value_marker_prefix column ≫= server_large_value_alias with
      | Some (source, kind, type) =>
          if Nat.leb (S found) index && (source =? N.of_nat (index - S found))%N
          then mk_marker index (index - S found) kind type :: markers_from (S index) (S found) rest
          else markers_from (S index) found rest
      | None => markers_from (S index) found rest
      end
  end.

Section Results.

Context `{JsonCodec}.

Definition server_large_value_markers (result : QueryResult.t) : list ServerLargeValueMarker := markers_from 0 0 (QueryResult.columns result).

(** ** Marker values *)

Definition marker_kind_of (kind : text) : option ServerLargeValuePreviewKind :=
  if text_eqb kind %"T" then Some PreviewText
  else if text_eqb kind %"B" then Some PreviewBinary
  else if text_eqb kind %"V" then Some PreviewVector
  else if text_eqb kind %"D" then Some PreviewDeferred
  else None.

Definition server_large_value_marker (value : Value) : option ServerLargeValueMarkerValue :=
  s ← as_str value;
  match split_at (N.eqb colon) s with
  | kind :: preview_size :: rest =>
      kind ← marker_kind_of kind;
      let original_bytes := part ← rest !! 0; parse_usize part in
      let value_ref := part ← rest !! 1; if is_empty part then None else Some part in
      preview_size ← parse_usize preview_size;
      Some (mk_marker_value kind (N.max 1 preview_size) original_bytes value_ref)
  | _ => None
  end.

(** [text.truncate(n)], which panics inside a character. *)
Fixpoint truncate_bytes (n : N) (s : text) : outcome text :=
  match s with
  | [] => Returns []
  | c :: s' =>
      if (n =? 0)%N then Returns []
      else if (n <? len_utf8 c)%N then Panics
      else do rest <- truncate_bytes (n - len_utf8 c) s'; Returns (c :: rest)
  end.

Definition saturating_mul (a b : N) : N := N.min 18446744073709551615 (a * b).

(** [serde_json::from_str::<Vec<Value>>]. *)
Definition parse_vector (s : text) : option (list Value) := parse_value s ≫= as_array.

Definition after_hex_prefix (s : text) : option text :=
  match strip_prefix %"0x" s with
  | Some hex => Some hex
  | None => match strip_prefix %"0X" s with Some hex => Some hex | None => strip_prefix [bslash; 120%N] s end
  end.

(** The cut value, and whether it was cut. *)
Definition truncate_server_large_value_preview (value : Value) (kind : ServerLargeValuePreviewKind) (preview_size : N) : outcome (Value * bool) :=
  match as_str value with
  | None => Returns (value, false)
  | Some s =>
      match kind with
      | PreviewDeferred => Returns (value, true)
      | PreviewVector =>
          let truncated := (preview_size <? N.of_nat (length s))%N in
          let vector_text :=
            if truncated
            then (fun '(before, _) => before ++ %"]") <$> rsplit_once comma (take (N.to_nat preview_size) s)
            else Some s in
          Returns (match vector_text ≫= parse_vector with Some vector => (Array vector, truncated) | None => (value, false) end)
      | PreviewText =>
          Returns (if (preview_size <? N.of_nat (length s))%N then (String (take (N.to_nat preview_size) s ++ %"..."), true) else (value, false))
      | PreviewBinary =>
          let size := saturating_mul preview_size 2 in
          match after_hex_prefix s with
          | Some hex =>
              if (size <? byte_len hex)%N
              then do kept <- truncate_bytes (saturating_add 2 size) s; Returns (String (kept ++ %"..."), true)
              else Returns (value, false)
          | None => Returns (value, false)
          end
      end
  end.

(** ** Extraction *)

(** [l.retain(|_| keep)], where [keep] is asked for the positions from [index] on. *)
Fixpoint retain_from {A} (keep : nat -> bool) (index : nat) (l : list A) : list A :=
  match l with
  | [] => []
  | x :: rest => if keep index then x :: retain_from keep (S index) rest else retain_from keep (S index) rest
  end.

Definition is_removed (removed : list nat) (index : nat) : bool := existsb (Nat.eqb index) removed.

Definition without {A} (removed : list nat) (l : list A) : list A := retain_from (fun index => negb (is_removed removed index)) 0 l.

Definition retained_index (removed : list nat) (index : nat) : nat := index - length (List.filter (fun r => Nat.ltb r index) removed).

Definition result_indexes (markers : list ServerLargeValueMarker) : list nat := map result_index markers.

(** The type that a marker reports for its column. *)
Definition reported_type (rows : list (list Value)) (marker : ServerLargeValueMarker) : option text :=
  let row_kind := head (omap (fun row => marker_kind <$> (row !! result_index marker ≫= server_large_value_marker)) rows) in
  match source_type marker with
  | Some type => Some type
  | None =>
      let kind := match preview_kind marker with Some kind => Some kind | None => row_kind end in
      if decide (kind = Some PreviewVector) then Some %"vector" else None
  end.

Definition report_type (rows : list (list Value)) (column_types : list text) (marker : ServerLargeValueMarker) : list text :=
  match reported_type rows marker with Some type => <[result_index marker - 1 := type]> column_types | None => column_types end.

(** One marker of a row: the value before it is cut, and listed when it was. *)
Definition extract_cell (row_index : nat) (row : list Value) (marker : ServerLargeValueMarker) : outcome (list Value * list LargeValueCell) :=
  let source := result_index marker - 1 in
  match row !! result_index marker ≫= server_large_value_marker, row !! source with
  | Some value, Some preview =>
      do '(cut, truncated) <- truncate_server_large_value_preview preview (marker_kind value) (marker_preview_size value);
      Returns (<[source := cut]> row,
               if truncated
               then [mk_cell row_index (source_index marker) (default SERVER_LARGE_VALUE_UNKNOWN_BYTES (marker_original_bytes value)) (marker_value_ref value)]
               else [])
  | _, _ => Returns (row, [])
  end.

Fixpoint extract_row (row_index : nat) (markers : list ServerLargeValueMarker) (row : list Value) : outcome (list Value * list LargeValueCell) :=
  match markers with
  | [] => Returns (row, [])
  | marker :: rest =>
      do '(row, cells) <- extract_cell row_index row marker;
      do '(row, more) <- extract_row row_index rest row;
      Returns (row, cells ++ more)
  end.

Fixpoint extract_rows (row_index : nat) (markers : list ServerLargeValueMarker) (rows : list (list Value))
    : outcome (list (list Value) * list LargeValueCell) :=
  match rows with
  | [] => Returns ([], [])
  | row :: rest =>
      do '(row, cells) <- extract_row row_index markers row;
      do '(rest, more) <- extract_rows (S row_index) markers rest;
      Returns (row :: rest, cells ++ more)
  end.

Definition extract_server_large_value_markers (result : QueryResult.t) : outcome (QueryResult.t * list LargeValueCell) :=
  let markers := server_large_value_markers result in
  let removed := result_indexes markers in
  if is_empty markers then Returns (result, [])
  else
    do '(rows, cells) <- extract_rows 0 markers (QueryResult.rows result);
    Returns (QueryResult.mk _ (QueryResult.deferred_large_value_cells result) (without removed (QueryResult.columns result))
               (without removed (fold_left (report_type (QueryResult.rows result)) markers (QueryResult.column_types result)))
               (without removed (QueryResult.column_sortables result))
               (omap (fun column =>
                  if is_removed removed (spatial_column_index column) then None
                  else Some (mk_spatial (retained_index removed (spatial_column_index column)) (srid column))) (QueryResult.spatial_columns result))
               (map (without removed) (QueryResult.spatial_values result))
               (map (without removed) rows), cells).

(** ** Cells of the driver *)

Definition remap_large_value_cells_around_server_markers (result : QueryResult.t) (cells : list LargeValueCell) : list LargeValueCell :=
  let removed := result_indexes (server_large_value_markers result) in
  if is_empty removed then cells
  else
    omap (fun cell =>
      if is_removed removed (column_index cell) then None
      else Some (mk_cell (row_index cell) (retained_index removed (column_index cell)) (original_bytes cell) (value_ref cell))) cells.

Definition same_cell (a b : LargeValueCell) : bool := Nat.eqb (row_index a) (row_index b) && Nat.eqb (column_index a) (column_index b).

(** The last position of a cell at the same place, as a map collected from the cells remembers it. *)
Fixpoint last_position (cell : LargeValueCell) (cells : list LargeValueCell) : option nat :=
  match cells with
  | [] => None
  | other :: rest =>
      match last_position cell rest with
      | Some index => Some (S index)
      | None => if same_cell cell other then Some 0 else None
      end
  end.

Definition merge_large_value_cells (driver_cells server_cells : list LargeValueCell) : list LargeValueCell :=
  if is_empty driver_cells then server_cells
  else if is_empty server_cells then driver_cells
  else
    fold_left (fun cells cell =>
      match last_position cell cells with Some index => <[index := cell]> cells | None => cells ++ [cell] end) server_cells driver_cells.

(** The result and the cells that a statement of a script reports. *)
Definition success_with_index_and_large_values (result : QueryResult.t) (large_value_cells : list LargeValueCell) (table_data_preview : bool)
    : outcome (QueryResult.t * list LargeValueCell) :=
  let cells := merge_large_value_cells large_value_cells (QueryResult.deferred_large_value_cells result) in
  let result :=
    QueryResult.mk _ [] (QueryResult.columns result) (QueryResult.column_types result) (QueryResult.column_sortables result)
      (QueryResult.spatial_columns result) (QueryResult.spatial_values result) (QueryResult.rows result) in
  if table_data_preview then
    do '(extracted, server_cells) <- extract_server_large_value_markers result;
    Returns (extracted, merge_large_value_cells (remap_large_value_cells_around_server_markers result cells) server_cells)
  else Returns (result, merge_large_value_cells cells []).

Definition success_with_optional_server_large_values (result : QueryResult.t) (table_data_preview : bool)
    : outcome (QueryResult.t * list LargeValueCell) :=
  let deferred := QueryResult.deferred_large_value_cells result in
  let result :=
    QueryResult.mk _ [] (QueryResult.columns result) (QueryResult.column_types result) (QueryResult.column_sortables result)
      (QueryResult.spatial_columns result) (QueryResult.spatial_values result) (QueryResult.rows result) in
  if table_data_preview then
    do '(extracted, server_cells) <- extract_server_large_value_markers result;
    Returns (extracted, merge_large_value_cells server_cells (remap_large_value_cells_around_server_markers result deferred))
  else Returns (result, merge_large_value_cells [] deferred).

End Results.

(** ** Numbers read back *)

Definition all_digits (s : text) : Prop := forallb is_ascii_digit s = true.

Lemma digit_char x : (x < 10)%N -> is_ascii_digit (Ascii.N_of_ascii (pretty.pretty_N_char x)) = true
  /\ digit_value (Ascii.N_of_ascii (pretty.pretty_N_char x)) = x.
Proof.
  intros Hx. assert (x = 0 \/ x = 1 \/ x = 2 \/ x = 3 \/ x = 4 \/ x = 5 \/ x = 6 \/ x = 7 \/ x = 8 \/ x = 9)%N as Hcases by lia.
  by repeat destruct Hcases as [-> | Hcases]; [.. | rewrite Hcases].
Qed.

Lemma digits_value_snoc d c : digits_value (d ++ [c]) = (10 * digits_value d + digit_value c)%N.
Proof. unfold digits_value. by rewrite fold_left_app. Qed.

Lemma pretty_go_digits x : forall s,
  exists d, lit (pretty.pretty_N_go x s) = d ++ lit s /\ all_digits d /\ digits_value d = x /\ (d = [] -> x = 0%N).
Proof.
  induction (N.lt_wf_0 x) as [x _ IH]; intros s. destruct (N.eq_dec x 0%N) as [-> | Hx].
  { exists []. by rewrite pretty.pretty_N_go_0. }
  rewrite pretty.pretty_N_go_step by lia. destruct (digit_char (x `mod` 10)) as [Hd Hv]; [by apply N.mod_lt | ].
  destruct (IH (x `div` 10)%N) with (s := String.String (pretty.pretty_N_char (x `mod` 10)) s) as (d & Hs & Hdig & Hval & _).
  { apply N.div_lt; lia. }
  exists (d ++ [Ascii.N_of_ascii (pretty.pretty_N_char (x `mod` 10))]). split_and!.
  - rewrite Hs, <- app_assoc. done.
  - unfold all_digits in *. rewrite forallb_app, Hdig. cbn [forallb]. by rewrite Hd.
  - rewrite digits_value_snoc, Hval, Hv. symmetry. apply N.div_mod. lia.
  - intros Hnil. by apply app_eq_nil in Hnil as [_ ?].
Qed.

Lemma show_N_digits n : show_N n <> [] /\ all_digits (show_N n) /\ digits_value (show_N n) = n.
Proof.
  unfold show_N, show_Z. destruct n as [ | p]; [done | ]. change (pretty.pretty (Z.of_N (N.pos p))) with (pretty.pretty (N.pos p)).
  unfold pretty.pretty, pretty.pretty_N. destruct (decide _) as [E | _]; [done | ].
  destruct (pretty_go_digits (N.pos p) EmptyString) as (d & -> & Hd & Hv & Hne). cbn [lit]. rewrite app_nil_r. split_and!; [ | done | done].
  intros ->. by specialize (Hne eq_refl).
Qed.

Lemma parse_usize_show n : (n <= MAX_ROW)%N -> parse_usize (show_N n) = Some n.
Proof.
  intros Hn. destruct (show_N_digits n) as (Hne & Hd & Hv). unfold parse_usize, strip_prefix, parse_digits.
  assert (starts_with %"+" (show_N n) = false) as ->.
  { unfold all_digits in Hd. destruct (show_N n) as [ | c s]; [done | ]. cbn [forallb] in Hd. apply andb_prop in Hd as [Hc _].
    cbn [starts_with lit]. unfold is_ascii_digit in Hc. apply andb_false_iff. left. apply N.eqb_neq. intros <-. done. }
  cbn [from_option]. unfold id. unfold all_digits in Hd. rewrite Hd, Hv. destruct (show_N n); [done | ]. cbn [is_empty negb orb].
  by rewrite (proj2 (N.leb_le _ _)).
Qed.

(** ** Columns with their markers *)

Definition MARKER_KINDS : list text := [%"T"; %"B"; %"V"; %"J"; %"K"; %"S"].

(** The columns of a result: the first is the column [source] of the table, and each may have a marker after it. *)
Fixpoint marked_columns (source : nat) (parts : list (text * option text)) : list text :=
  match parts with
  | [] => []
  | (name, mark) :: rest =>
      name :: match mark with Some kind => [marker_name kind source] | None => [] end ++ marked_columns (S source) rest
  end.

(** The markers of these columns, where the first one is at [index]. *)
Fixpoint part_markers (index source : nat) (parts : list (text * option text)) : list ServerLargeValueMarker :=
  match parts with
  | [] => []
  | (_, None) :: rest => part_markers (S index) (S source) rest
  | (_, Some kind) :: rest =>
      mk_marker (S index) source (fst <$> alias_kind kind) (alias_kind kind ≫= snd) :: part_markers (S (S index)) (S source) rest
  end.

Definition well_marked (part : text * option text) : Prop :=
  strip_large_value_marker_prefix (fst part) = None /\ match snd part with Some kind => kind ∈ MARKER_KINDS | None => True end.

Lemma strip_marker_name kind source :
  strip_large_value_marker_prefix (marker_name kind source) = Some (kind ++ %"_" ++ show_N (N.of_nat source)).
Proof. done. Qed.

Lemma parse_usize_letter c s : is_ascii_uppercase c = true -> parse_usize (c :: s) = None.
Proof.
  intros Hc. unfold is_ascii_uppercase in Hc. unfold parse_usize, strip_prefix.
  assert (starts_with %"+" (c :: s) = false) as ->.
  { change (starts_with [43%N] (c :: s) = false). cbn [starts_with]. lia. }
  cbn [from_option]. unfold id, parse_digits. cbn [is_empty forallb orb]. assert (is_ascii_digit c = false) as -> by (unfold is_ascii_digit; lia).
  done.
Qed.

Lemma kind_is_letter kind :
  kind ∈ MARKER_KINDS -> exists c known, kind = [c] /\ is_ascii_uppercase c = true /\ alias_kind kind = Some known.
Proof.
  intros Hkind. unfold MARKER_KINDS in Hkind.
  repeat (apply elem_of_cons in Hkind as [-> | Hkind]; [by do 2 eexists | ]). by apply elem_of_nil in Hkind.
Qed.

Lemma alias_of_kind kind source :
  kind ∈ MARKER_KINDS -> (N.of_nat source <= MAX_ROW)%N ->
  server_large_value_alias (kind ++ %"_" ++ show_N (N.of_nat source)) = Some (N.of_nat source, fst <$> alias_kind kind, alias_kind kind ≫= snd).
Proof.
  intros Hkind Hle. destruct (kind_is_letter kind Hkind) as (c & [preview type] & -> & Hc & Hknown). rewrite Hknown.
  unfold server_large_value_alias. cbn [app]. rewrite parse_usize_letter by done.
  assert (split_once under (c :: %"_" ++ show_N (N.of_nat source)) = Some ([c], show_N (N.of_nat source))) as ->.
  { change (split_once under (c :: under :: show_N (N.of_nat source)) = Some ([c], show_N (N.of_nat source))). cbn [split_once].
    unfold is_ascii_uppercase, under in *. assert ((c =? 95)%N = false) as -> by lia. done. }
  cbn [mbind option_bind]. rewrite parse_usize_show by done. cbn [mbind option_bind]. by rewrite Hknown.
Qed.

Lemma markers_of_parts parts : forall source found,
  Forall well_marked parts -> (N.of_nat (source + length parts) <= MAX_ROW)%N ->
  markers_from (source + found) found (marked_columns source parts) = part_markers (source + found) source parts.
Proof.
  induction parts as [ | [name [kind | ]] parts IH]; intros source found Hparts Hle; [done | .. ];
    apply Forall_cons in Hparts as [[Hname Hmark] Hparts]; cbn [fst snd length] in *; cbn [marked_columns app markers_from]; rewrite Hname; cbn [mbind option_bind].
  - rewrite strip_marker_name. cbn [mbind option_bind]. rewrite (alias_of_kind kind source Hmark) by lia. cbn [part_markers].
    replace (S (source + found) - S found) with source by lia. rewrite N.eqb_refl, (proj2 (Nat.leb_le _ _)) by lia. cbn [andb]. f_equal.
    replace (S (S (source + found))) with (S source + S found) by lia. apply IH; [done | lia].
  - cbn [part_markers]. replace (S (source + found)) with (S source + found) by lia. apply IH; [done | lia].
Qed.

(** ** The columns a table SELECT names *)

Lemma upper_lower s : upper (lower s) = upper s.
Proof.
  unfold upper, lower. rewrite map_map. apply map_ext. intros c.
  unfold to_ascii_uppercase, to_ascii_lowercase, is_ascii_uppercase, is_ascii_lowercase.
  repeat case_match; lia.
Qed.

Lemma marker_prefix_is_upper column :
  starts_with DBX_LARGE_VALUE_BYTES_COLUMN_PREFIX (upper column) = false -> strip_large_value_marker_prefix column = None.
Proof.
  intros Hstart. unfold strip_large_value_marker_prefix. destruct (eq_ignore_ascii_case _ _) eqn:E; [ | done].
  apply text_eqb_eq in E. apply (f_equal upper) in E. change (map to_ascii_lowercase) with lower in E. rewrite !upper_lower in E.
  change (upper DBX_LARGE_VALUE_BYTES_COLUMN_PREFIX) with DBX_LARGE_VALUE_BYTES_COLUMN_PREFIX in E.
  enough (starts_with DBX_LARGE_VALUE_BYTES_COLUMN_PREFIX (upper column) = true) by congruence.
  rewrite <- (take_drop (length DBX_LARGE_VALUE_BYTES_COLUMN_PREFIX) column). unfold upper in *. rewrite map_app, E. apply starts_with_app.
  by eexists.
Qed.

Lemma marker_alias_kinds kind data_type : large_value_marker_alias_kind kind data_type ∈ MARKER_KINDS.
Proof. unfold large_value_marker_alias_kind. destruct kind; repeat case_match; unfold MARKER_KINDS; rewrite !elem_of_cons; tauto. Qed.

Definition row_id_shift (options : TableDataSelect.t) : nat := if has_oracle_row_id options then 1 else 0.

(** The kind of the marker that a column gets, if any. *)
Definition column_mark (options : TableDataSelect.t) (size : N) (column data_type : text) : option text :=
  if is_protected options column then None
  else
    (fun kind => large_value_marker_alias_kind kind data_type) <$> large_value_preview_kind (TableDataSelect.database_type options) data_type size.

Definition preview_parts (options : TableDataSelect.t) : list (text * option text) :=
  let size := N.max 1 (default 1%N (TableDataSelect.large_value_preview_size options)) in
  map (fun '(column, data_type) => (column, column_mark options size column data_type))
    (zip (TableDataSelect.columns options) (TableDataSelect.column_types options)).

Lemma column_items options size index column data_type items :
  preview_items_of options size index column data_type = Some items ->
  let mark := column_mark options size column data_type in
  map alias items = marked_columns (index + row_id_shift options) [(column, mark)]
  /\ length items = (if mark is Some _ then 2 else 1) /\ match mark with Some kind => kind ∈ MARKER_KINDS | None => True end.
Proof.
  unfold preview_items_of, column_mark. destruct (is_protected options column); [by intros [= <-] | ].
  destruct (large_value_preview_kind _ _ _) as [kind | ]; [ | by intros [= <-]].
  destruct (preview_expression _ _ _ _) as [[preview marker] | ]; [ | done]. intros [= <-]. split_and!; [done | done | apply marker_alias_kinds].
Qed.

Lemma items_are_marked options size columns : forall start items,
  let parts := map (fun '(column, data_type) => (column, column_mark options size column data_type)) columns in
  mapM (fun '(index, (column, data_type)) => preview_items_of options size index column data_type)
    (imap (fun i column => (start + i, column)) columns) = Some items ->
  map alias (concat items) = marked_columns (start + row_id_shift options) parts
  /\ map length items = map (fun part : text * option text => if snd part is Some _ then 2 else 1) parts
  /\ Forall (fun part : text * option text => match snd part with Some kind => kind ∈ MARKER_KINDS | None => True end) parts.
Proof.
  induction columns as [ | [column data_type] columns IH]; intros start items; [by intros parts [= <-] | ]. intros parts.
  rewrite imap_cons. cbn [mapM]. rewrite Nat.add_0_r. intros Hitems.
  destruct (preview_items_of options size start column data_type) as [first | ] eqn:Hfirst; [ | done]. cbn [mbind option_bind] in Hitems.
  replace (imap ((fun (i : nat) (c : text * text) => (start + i, c)) ∘ S) columns) with (imap (fun i c => (S start + i, c)) columns) in Hitems
    by (apply imap_ext; intros i c _; cbn; by rewrite Nat.add_succ_r).
  destruct (mapM _ (imap (fun i c => (S start + i, c)) columns)) as [rest | ] eqn:Hrest; [ | done]. injection Hitems as <-.
  destruct (column_items _ _ _ _ _ _ Hfirst) as (Halias & Hlen & Hmark). destruct (IH _ _ Hrest) as (Hparts & Hlens & Hall).
  subst parts. cbn [map]. split_and!; [ | cbn [snd]; by rewrite Hlen, Hlens | by constructor].
  cbn [concat]. rewrite map_app, Halias, Hparts. cbn [marked_columns]. by rewrite app_nil_r.
Qed.

(** What a table SELECT with previews names: its columns in order, each with at most one marker after it. *)
Lemma previews_are_marked options items :
  build_large_value_preview_items options = Some items ->
  map fst (preview_parts options) = TableDataSelect.columns options /\ map alias items = marked_columns (row_id_shift options) (preview_parts options)
  /\ Forall well_marked (preview_parts options) /\ existsb (fun part : text * option text => if snd part is Some _ then true else false) (preview_parts options) = true.
Proof.
  unfold build_large_value_preview_items, preview_parts. destruct (TableDataSelect.large_value_preview_size options) as [size | ]; [ | done].
  cbn [mbind option_bind from_option]. unfold id. destruct (_ || existsb _ (TableDataSelect.columns options)) eqn:Hguards; [done | ].
  apply orb_false_iff in Hguards as [[[_ Hlen]%orb_false_iff _]%orb_false_iff Hnames]. apply negb_false_iff, Nat.eqb_eq in Hlen.
  destruct (mapM _ _) as [parts | ] eqn:Hparts; [ | done]. cbn [mbind option_bind]. destruct (existsb _ parts) eqn:Hsome; [ | done]. intros [= <-].
  destruct (items_are_marked options (N.max 1 size) _ 0 parts Hparts) as (Halias & Hlens & Hmark).
  set (marked := map _ (zip _ _)) in *.
  assert (map fst marked = TableDataSelect.columns options) as Hfst.
  { subst marked. rewrite map_map. rewrite <- (fst_zip (TableDataSelect.columns options) (TableDataSelect.column_types options)) at 2 by lia.
    apply map_ext. by intros []. }
  split_and!; [done | done | | ].
  - apply Forall_lookup. intros i [name mark] Hi. split; [ | by apply (proj1 (Forall_lookup _ _) Hmark i)].
    apply marker_prefix_is_upper. apply not_true_iff_false. intros Htrue.
    enough (existsb (fun column => starts_with DBX_LARGE_VALUE_BYTES_COLUMN_PREFIX (upper column)) (TableDataSelect.columns options) = true) by congruence.
    apply existsb_exists. exists name. split; [ | done]. rewrite <- Hfst. apply in_map_iff. exists (name, mark). split; [done | ].
    by apply list_elem_of_In, list_elem_of_lookup_2 with i.
  - apply existsb_exists in Hsome as (part & Hpart & Htwo%Nat.eqb_eq). apply (in_map length) in Hpart. rewrite Hlens, Htwo in Hpart.
    apply in_map_iff in Hpart as ([name mark] & Hm & Hin). apply existsb_exists. exists (name, mark). split; [done | ]. by destruct mark.
Qed.

(** ** Columns without their markers *)

(** [xs] are the values of the columns and [ys] those of the markers. *)
Fixpoint interleave {A} (parts : list (text * option text)) (xs ys : list A) : list A :=
  match parts, xs, ys with
  | (_, mark) :: parts, x :: xs, y :: ys => x :: match mark with Some _ => [y] | None => [] end ++ interleave parts xs ys
  | _, _, _ => []
  end.

Fixpoint marker_names (source : nat) (parts : list (text * option text)) : list text :=
  match parts with
  | [] => []
  | (_, mark) :: rest => marker_name (default [] mark) source :: marker_names (S source) rest
  end.

Lemma marked_columns_interleave parts : forall source,
  marked_columns source parts = interleave parts (map fst parts) (marker_names source parts).
Proof.
  induction parts as [ | [name [kind | ]] parts IH]; intros source; [done | ..];
    cbn [marked_columns map fst marker_names interleave app]; by rewrite IH.
Qed.

Lemma marker_names_length parts source : length (marker_names source parts) = length parts.
Proof. revert source. induction parts as [ | [name mark] parts IH]; intros source; [done | ]. cbn [marker_names length]. by rewrite IH. Qed.

Lemma part_marker_indexes parts : forall index source,
  Forall (fun r => index < r) (result_indexes (part_markers index source parts)).
Proof.
  induction parts as [ | [name [kind | ]] parts IH]; intros index source; [constructor | ..]; cbn [part_markers result_indexes map].
  - constructor; [cbn; lia | ]. eapply Forall_impl; [apply IH | cbn; lia].
  - eapply Forall_impl; [apply IH | cbn; lia].
Qed.

Lemma is_removed_spec removed index : is_removed removed index = true <-> index ∈ removed.
Proof.
  unfold is_removed. rewrite existsb_exists, list_elem_of_In. split.
  - by intros (r & Hr & ->%Nat.eqb_eq).
  - intros Hr. exists index. by rewrite Nat.eqb_eq.
Qed.

Lemma early_is_kept parts index source i : i <= index -> is_removed (result_indexes (part_markers index source parts)) i = false.
Proof.
  intros Hi. apply not_true_iff_false. rewrite is_removed_spec. intros Hin.
  pose proof (proj1 (Forall_forall _ _) (part_marker_indexes parts index source) i Hin) as Hlt. cbn in Hlt. lia.
Qed.

Lemma retain_all {A} (keep : nat -> bool) (l : list A) index : (forall i, index <= i < index + length l -> keep i = true) -> retain_from keep index l = l.
Proof.
  revert index. induction l as [ | x l IH]; intros index Hkeep; [done | ]. cbn [retain_from length] in *. rewrite Hkeep by lia. f_equal.
  apply IH. intros i Hi. apply Hkeep. lia.
Qed.

Lemma retain_app {A} (keep : nat -> bool) (l l' : list A) index :
  retain_from keep index (l ++ l') = retain_from keep index l ++ retain_from keep (index + length l) l'.
Proof.
  revert index. induction l as [ | x l IH]; intros index; [by rewrite Nat.add_0_r | ]. cbn [retain_from app length].
  rewrite IH, Nat.add_succ_comm. by destruct (keep index).
Qed.

(** Removing the markers leaves the columns. *)
Lemma retain_columns {A} keep parts : forall index source (xs ys : list A),
  length xs = length parts -> length ys = length parts ->
  (forall i, index <= i -> keep i = negb (is_removed (result_indexes (part_markers index source parts)) i)) ->
  retain_from keep index (interleave parts xs ys) = xs.
Proof.
  induction parts as [ | [name mark] parts IH]; intros index source [ | x xs] [ | y ys] Hxs Hys Hkeep; try done.
  cbn [interleave retain_from]. rewrite (Hkeep index), early_is_kept by lia. cbn [negb]. f_equal. cbn [length] in *.
  destruct mark as [kind | ]; cbn [app retain_from part_markers result_indexes map is_removed existsb] in *.
  - rewrite (Hkeep (S index)) by lia. cbn [result_index]. rewrite Nat.eqb_refl. cbn [orb negb].
    apply (IH _ (S source)); [lia | lia | ]. intros i Hi. rewrite Hkeep by lia. cbn [result_index].
    assert (Nat.eqb i (S index) = false) as -> by (apply Nat.eqb_neq; lia). done.
  - apply (IH _ (S source)); [lia | lia | ]. intros i Hi. by rewrite Hkeep by lia.
Qed.

(** The same behind columns that have no markers, such as the row identifier. *)
Lemma without_markers {A} parts (before xs ys : list A) source :
  length xs = length parts -> length ys = length parts ->
  without (result_indexes (part_markers (length before) source parts)) (before ++ interleave parts xs ys) = before ++ xs.
Proof.
  intros Hxs Hys. unfold without. rewrite retain_app. f_equal.
  - apply retain_all. intros i Hi. by rewrite early_is_kept by lia.
  - by apply (retain_columns _ _ _ source).
Qed.

(** ** Rows with previews *)

Section Shown.

Context `{JsonCodec}.

(** What a cell of the table holds, as far as a preview reads it: a value that is not previewed, a text, bytes in
    hexadecimal, or NULL with whatever its marker says. *)
Inductive Original : Type :=
| Plain (value : Value)
| OfText (s : text)
| OfBytes (hex : text)
| OfNull (marker : Value).

(** A cell, the size of its preview and the length its marker reports. *)
Record Cell : Type := mk_original { original : Original; size : N; reported : option N }.

Definition marker_text (kind : text) (c : Cell) : text :=
  kind ++ %":" ++ show_N (size c) ++ match reported c with Some n => %":" ++ show_N n | None => [] end.

(** The preview expression answers one character, or byte, more than the size; the marker follows it. *)
Definition preview_read (c : Cell) : Value :=
  match original c with
  | Plain value => value
  | OfText s => String (take (N.to_nat (size c + 1)) s)
  | OfBytes hex => String (%"0x" ++ take (N.to_nat (2 * (size c + 1))) hex)
  | OfNull _ => Null
  end.

Definition marker_read (c : Cell) : Value :=
  match original c with
  | Plain _ => Null
  | OfText _ => String (marker_text %"T" c)
  | OfBytes _ => String (marker_text %"B" c)
  | OfNull marker => marker
  end.

(** The value that is shown, and whether it was cut. *)
Definition displayed (c : Cell) : Value * bool :=
  match original c with
  | Plain value => (value, false)
  | OfText s => if (N.of_nat (length s) <=? size c)%N then (String s, false) else (String (take (N.to_nat (size c)) s ++ %"..."), true)
  | OfBytes hex =>
      if (N.of_nat (length hex) <=? 2 * size c)%N then (String (%"0x" ++ hex), false)
      else (String (%"0x" ++ take (N.to_nat (2 * size c)) hex ++ %"..."), true)
  | OfNull _ => (Null, false)
  end.

(** The cells of a row that are listed as cut; the first is the column [source]. *)
Fixpoint listed (row source : nat) (cells : list Cell) : list LargeValueCell :=
  match cells with
  | [] => []
  | c :: rest =>
      (if snd (displayed c) then [mk_cell row source (default SERVER_LARGE_VALUE_UNKNOWN_BYTES (reported c)) None] else [])
      ++ listed row (S source) rest
  end.

Definition sized (c : Cell) : Prop := (1 <= size c)%N /\ (2 * size c + 2 <= MAX_ROW)%N /\ match reported c with Some n => (n <= MAX_ROW)%N | None => True end.

(** A previewed column holds text, bytes or NULL; the others hold any value. *)
Definition fits (part : text * option text) (c : Cell) : Prop :=
  match snd part, original c with
  | None, Plain _ => True
  | Some _, OfText _ => sized c
  | Some _, OfBytes hex => sized c /\ forallb is_ascii_hexdigit hex = true
  | Some _, OfNull _ => True
  | _, _ => False
  end.

Lemma shown_digits_no_colon n : forallb (fun c => negb (colon =? c)%N) (show_N n) = true.
Proof.
  destruct (show_N_digits n) as (_ & Hd & _). unfold all_digits in Hd. rewrite forallb_forall in Hd |- *. intros c Hc%Hd.
  unfold is_ascii_digit, colon in *. lia.
Qed.

Lemma marker_reads kind known c :
  marker_kind_of kind = Some known -> forallb (fun c => negb (colon =? c)%N) kind = true -> sized c ->
  server_large_value_marker (String (marker_text kind c)) = Some (mk_marker_value known (size c) (reported c) None).
Proof.
  intros Hkind Hcolon (Hsize & Hfit & Hrep). unfold server_large_value_marker, marker_text. cbn [as_str mbind option_bind].
  change (%":") with [colon]. cbn [app]. rewrite split_at_first by done.
  destruct (reported c) as [n | ].
  - rewrite split_at_first, split_at_none by (done || apply shown_digits_no_colon). rewrite Hkind. cbn [mbind option_bind].
    cbn [lookup list_lookup mbind option_bind]. rewrite !parse_usize_show by lia. cbn [mbind option_bind]. by rewrite N.max_r by lia.
  - rewrite app_nil_r, split_at_none by apply shown_digits_no_colon. rewrite Hkind. cbn [mbind option_bind].
    rewrite parse_usize_show by lia. cbn [mbind option_bind lookup list_lookup]. by rewrite N.max_r by lia.
Qed.

Lemma hex_is_byte c : is_ascii_hexdigit c = true -> len_utf8 c = 1%N.
Proof. unfold is_ascii_hexdigit, is_ascii_digit, len_utf8. intros Hc. by rewrite (proj2 (N.ltb_lt _ _)) by lia. Qed.

Lemma ascii_bytes s : Forall (fun c => len_utf8 c = 1%N) s -> byte_len s = N.of_nat (length s).
Proof. induction 1 as [ | c s Hc Hs IH]; [done | ]. rewrite byte_len_cons, Hc, IH. cbn [length]. lia. Qed.

Lemma truncate_ascii s : forall n, Forall (fun c => len_utf8 c = 1%N) s -> truncate_bytes n s = Returns (take (N.to_nat n) s).
Proof.
  induction s as [ | c s IH]; intros n Hs; [by rewrite take_nil | ]. apply Forall_cons in Hs as [Hc Hs]. cbn [truncate_bytes].
  destruct (N.eqb_spec n 0%N) as [-> | Hn]; [done | ]. rewrite Hc, IH by done. rewrite (proj2 (N.ltb_ge _ _)) by lia. cbn [outcome_bind].
  by replace (N.to_nat n) with (S (N.to_nat (n - 1))) by lia.
Qed.

Lemma text_is_shown s n reported :
  truncate_server_large_value_preview (preview_read (mk_original (OfText s) n reported)) PreviewText n
  = Returns (displayed (mk_original (OfText s) n reported)).
Proof.
  unfold truncate_server_large_value_preview, displayed. cbn [preview_read original size as_str]. rewrite length_take.
  destruct (N.leb_spec (N.of_nat (length s)) n).
  - rewrite (proj2 (N.ltb_ge _ _)) by lia. by rewrite take_ge by lia.
  - rewrite (proj2 (N.ltb_lt _ _)) by lia. rewrite take_take. by rewrite Nat.min_l by lia.
Qed.

Lemma bytes_are_shown hex n reported :
  (2 * n + 2 <= MAX_ROW)%N -> forallb is_ascii_hexdigit hex = true ->
  truncate_server_large_value_preview (preview_read (mk_original (OfBytes hex) n reported)) PreviewBinary n
  = Returns (displayed (mk_original (OfBytes hex) n reported)).
Proof.
  intros Hn Hhex. unfold MAX_ROW in Hn. unfold truncate_server_large_value_preview, displayed. cbn [preview_read original size as_str].
  assert (forall m, Forall (fun c => len_utf8 c = 1%N) (take m hex)) as Hbytes.
  { intros m. apply Forall_take, Forall_forall. intros c Hc. apply hex_is_byte. rewrite forallb_forall in Hhex. by apply Hhex, list_elem_of_In. }
  assert (forall s, after_hex_prefix (%"0x" ++ s) = Some s) as -> by done.
  rewrite ascii_bytes by done. unfold saturating_mul, saturating_add. rewrite length_take, !N.min_r by lia.
  destruct (N.leb_spec (N.of_nat (length hex)) (2 * n)).
  - rewrite (proj2 (N.ltb_ge _ _)) by lia. by rewrite take_ge by lia.
  - rewrite (proj2 (N.ltb_lt _ _)) by lia. rewrite truncate_ascii by (apply Forall_app; split; [by repeat constructor | done]).
    cbn [outcome_bind]. replace (N.to_nat (2 + n * 2)) with (2 + N.to_nat (2 * n)) by lia.
    change (%"0x") with [48%N; 120%N]. cbn [app take plus]. rewrite take_take. by rewrite Nat.min_l by lia.
Qed.

Lemma cell_is_shown row name kind (c : Cell) before rest source preview type :
  fits (name, Some kind) c ->
  extract_cell row (before ++ preview_read c :: marker_read c :: rest) (mk_marker (S (length before)) source preview type)
  = Returns (before ++ fst (displayed c) :: marker_read c :: rest,
             if snd (displayed c) then [mk_cell row source (default SERVER_LARGE_VALUE_UNKNOWN_BYTES (reported c)) None] else []).
Proof.
  intros Hfit. unfold extract_cell. cbn [result_index source_index]. rewrite Nat.sub_succ, Nat.sub_0_r.
  rewrite (lookup_app_r before _ (S (length before))) by lia. replace (S (length before) - length before) with 1 by lia.
  rewrite list_lookup_middle by done. cbn [lookup list_lookup mbind option_bind].
  assert (forall x, <[length before := x]> (before ++ preview_read c :: marker_read c :: rest) = before ++ x :: marker_read c :: rest) as Hset.
  { intros x. by rewrite insert_app_r_alt, Nat.sub_diag by done. }
  destruct c as [[value | s | hex | marker] n rep]; unfold fits in Hfit; cbn [snd original] in Hfit; [done | ..].
  - cbn [marker_read original]. rewrite (marker_reads _ PreviewText) by done. cbn [marker_kind marker_preview_size size].
    rewrite text_is_shown. cbn [outcome_bind]. by destruct (displayed _); rewrite Hset.
  - destruct Hfit as [Hsized Hhex]. cbn [marker_read original]. rewrite (marker_reads _ PreviewBinary) by done.
    cbn [marker_kind marker_preview_size size]. rewrite bytes_are_shown by (done || apply Hsized). cbn [outcome_bind].
    by destruct (displayed _); rewrite Hset.
  - cbn [marker_read preview_read original displayed fst snd]. destruct (server_large_value_marker marker); [ | done].
    cbn [truncate_server_large_value_preview as_str outcome_bind]. cbn [marker_read preview_read original] in Hset. by rewrite Hset.
Qed.

(** A row is shown cell by cell. *)
Lemma row_is_shown row parts : forall cells before source,
  Forall2 fits parts cells ->
  extract_row row (part_markers (length before) source parts) (before ++ interleave parts (map preview_read cells) (map marker_read cells))
  = Returns (before ++ interleave parts (map (fun c => fst (displayed c)) cells) (map marker_read cells), listed row source cells).
Proof.
  induction parts as [ | [name mark] parts IH]; intros cells before source Hfit.
  { by apply Forall2_nil_inv_l in Hfit as ->. }
  apply Forall2_cons_inv_l in Hfit as (c & rest & Hc & Hrest & ->). cbn [map interleave listed].
  destruct mark as [kind | ]; cbn [part_markers app extract_row].
  - rewrite (cell_is_shown row name kind) by done. cbn [outcome_bind].
    replace (before ++ fst (displayed c) :: marker_read c :: interleave parts (map preview_read rest) (map marker_read rest))
      with ((before ++ [fst (displayed c); marker_read c]) ++ interleave parts (map preview_read rest) (map marker_read rest)) by by rewrite <- app_assoc.
    replace (S (S (length before))) with (length (before ++ [fst (displayed c); marker_read c])) by (rewrite length_app; cbn; lia).
    rewrite IH by done. cbn [outcome_bind]. by rewrite <- app_assoc.
  - destruct c as [[value | | | ] n rep]; unfold fits in Hc; cbn [snd original] in Hc; try done. cbn [preview_read displayed original fst snd app].
    replace (before ++ value :: interleave parts (map preview_read rest) (map marker_read rest))
      with ((before ++ [value]) ++ interleave parts (map preview_read rest) (map marker_read rest)) by by rewrite <- app_assoc.
    replace (S (length before)) with (length (before ++ [value])) by (rewrite length_app; cbn; lia).
    rewrite IH by done. by rewrite <- app_assoc.
Qed.

Fixpoint all_listed (row source : nat) (table : list (list Value * list Cell)) : list LargeValueCell :=
  match table with
  | [] => []
  | (_, cells) :: rest => listed row source cells ++ all_listed (S row) source rest
  end.

(** A row of the result: the values before the columns, such as the row identifier, and the cells. *)
Definition row_read (parts : list (text * option text)) (row : list Value * list Cell) : list Value :=
  fst row ++ interleave parts (map preview_read (snd row)) (map marker_read (snd row)).

Definition row_shown (parts : list (text * option text)) (row : list Value * list Cell) : list Value :=
  fst row ++ interleave parts (map (fun c => fst (displayed c)) (snd row)) (map marker_read (snd row)).

Lemma rows_are_shown parts shift source table : forall row,
  Forall (fun '(before, cells) => length before = shift /\ Forall2 fits parts cells) table ->
  extract_rows row (part_markers shift source parts) (map (row_read parts) table) = Returns (map (row_shown parts) table, all_listed row source table).
Proof.
  induction table as [ | [before cells] table IH]; intros row Htable; [done | ]. apply Forall_cons in Htable as [[Hbefore Hfit] Htable].
  cbn [map extract_rows all_listed]. unfold row_read at 1. cbn [fst snd]. rewrite <- Hbefore at 1. rewrite row_is_shown by done. cbn [outcome_bind].
  rewrite IH by done. done.
Qed.

Definition row_id_columns (options : TableDataSelect.t) : list text := if has_oracle_row_id options then [DBX_ROWID_COLUMN] else [].

Lemma row_id_columns_length options : length (row_id_columns options) = row_id_shift options.
Proof. unfold row_id_columns, row_id_shift. by destruct (has_oracle_row_id options). Qed.

Lemma preview_markers options items :
  build_large_value_preview_items options = Some items -> (N.of_nat (S (length (TableDataSelect.columns options))) <= MAX_ROW)%N ->
  markers_from 0 0 (row_id_columns options ++ map alias items) = part_markers (row_id_shift options) (row_id_shift options) (preview_parts options).
Proof.
  intros Hitems Hle. destruct (previews_are_marked options items Hitems) as (Hfst & -> & Hwell & _).
  assert (length (preview_parts options) = length (TableDataSelect.columns options)) as Hlen by by rewrite <- Hfst, length_map.
  transitivity (markers_from (row_id_shift options + 0) 0 (marked_columns (row_id_shift options) (preview_parts options))).
  { unfold row_id_columns, row_id_shift. by destruct (has_oracle_row_id options). }
  rewrite markers_of_parts, Nat.add_0_r; [done | done | ]. rewrite Hlen. unfold row_id_shift. destruct (has_oracle_row_id options); lia.
Qed.

Lemma some_marker parts index source :
  existsb (fun part : text * option text => if snd part is Some _ then true else false) parts = true -> is_empty (part_markers index source parts) = false.
Proof.
  revert index source. induction parts as [ | [name [kind | ]] parts IH]; intros index source; cbn [existsb snd orb part_markers]; [done | done | apply IH].
Qed.

(** The rows of a result as cells: the extraction shows them. *)
Lemma read_rows_are_shown options items (result : QueryResult.t) table :
  build_large_value_preview_items options = Some items -> (N.of_nat (S (length (TableDataSelect.columns options))) <= MAX_ROW)%N ->
  QueryResult.columns result = row_id_columns options ++ map alias items ->
  QueryResult.rows result = map (row_read (preview_parts options)) table ->
  Forall (fun '(before, cells) => length before = row_id_shift options /\ Forall2 fits (preview_parts options) cells) table ->
  exists shown,
    extract_server_large_value_markers result = Returns (shown, all_listed 0 (row_id_shift options) table)
    /\ QueryResult.columns shown = row_id_columns options ++ TableDataSelect.columns options
    /\ QueryResult.rows shown = map (fun '(before, cells) => before ++ map (fun c => fst (displayed c)) cells) table.
Proof.
  intros Hitems Hle Hcolumns Hrows Htable. destruct (previews_are_marked options items Hitems) as (Hfst & Halias & _ & Hsome).
  unfold extract_server_large_value_markers, server_large_value_markers. rewrite Hcolumns, preview_markers by done.
  rewrite some_marker by done. rewrite Hrows, rows_are_shown by done. cbn [outcome_bind].
  eexists. split; [reflexivity | ]. cbn [QueryResult.columns QueryResult.rows]. split.
  - rewrite Halias, marked_columns_interleave, Hfst. rewrite <- (row_id_columns_length options) at 1. apply without_markers.
    + by rewrite <- Hfst, length_map.
    + apply marker_names_length.
  - rewrite map_map. apply map_ext_in. intros [before cells] Hin. rewrite Forall_forall in Htable.
    destruct (Htable (before, cells)) as [Hbefore Hfit]; [by apply list_elem_of_In | ]. apply Forall2_length in Hfit.
    unfold row_shown. cbn [fst snd]. rewrite <- Hbefore. apply without_markers; by rewrite length_map.
Qed.

(** *** What the SELECT answers

    The expressions of the four engines, by their documentation: [Previewed q p m a bytes n size reports] says that
    for the quoted column [q] the expression [p] answers its first [n] characters, or bytes, under the column's name,
    and that [m] answers, under the name [a], the letter of the kind, the number [size] and, if [reports], the length of
    the value. *)
Variant Previewed (q a : text) (db : option DatabaseType) (p m : text) (bytes : bool) (n size : N) (reports : bool) : Prop :=
| mysql_preview (Hdb : db = Some Mysql)
    (Hp : p = %"LEFT(" ++ q ++ %", " ++ show_N n ++ %") AS " ++ q)
    (Hm : m = %"CONCAT('" ++ (if bytes then %"B" else %"T") ++ %":" ++ show_N size ++ %":', LENGTH(" ++ q ++ %")) AS " ++ a)
    (Hr : reports = true)
| postgres_text_preview (Hdb : db = Some Postgres) (Hb : bytes = false)
    (Hp : p = %"left(" ++ q ++ %", " ++ show_N n ++ %") AS " ++ q)
    (Hm : m = %"'T:" ++ show_N size ++ %"' AS " ++ a) (Hr : reports = false)
| postgres_cast_preview (Hdb : db = Some Postgres) (Hb : bytes = false)
    (Hp : p = %"left(" ++ q ++ %"::text, " ++ show_N n ++ %") AS " ++ q)
    (Hm : m = %"'T:" ++ show_N size ++ %"' AS " ++ a) (Hr : reports = false)
| postgres_bytes_preview (Hdb : db = Some Postgres) (Hb : bytes = true)
    (Hp : p = %"substring(" ++ q ++ %" from 1 for " ++ show_N n ++ %") AS " ++ q)
    (Hm : m = %"'B:" ++ show_N size ++ %":' || octet_length(" ++ q ++ %")::text AS " ++ a) (Hr : reports = true)
| db2_preview (Hdb : db = Some Db2)
    (Hp : p = %"SUBSTR(" ++ q ++ %", 1, CASE WHEN LENGTH(" ++ q ++ %") >= " ++ show_N n ++ %" THEN " ++ show_N n ++ %" ELSE LENGTH(" ++ q
              ++ %") END) AS " ++ q)
    (Hm : m = %"'" ++ (if bytes then %"B" else %"T") ++ %":" ++ show_N size ++ %"' AS " ++ a) (Hr : reports = false)
| oracle_text_preview (Hdb : db = Some Oracle) (Hb : bytes = false)
    (Hp : p = %"DBMS_LOB.SUBSTR(" ++ q ++ %", " ++ show_N n ++ %", 1) AS " ++ q)
    (Hm : m = %"'T:" ++ show_N size ++ %":' || DBMS_LOB.GETLENGTH(" ++ q ++ %") AS " ++ a) (Hr : reports = true)
| oracle_bytes_preview (Hdb : db = Some Oracle) (Hb : bytes = true)
    (Hp : p = %"'0x' || RAWTOHEX(DBMS_LOB.SUBSTR(" ++ q ++ %", " ++ show_N n ++ %", 1)) AS " ++ q)
    (Hm : m = %"'B:" ++ show_N size ++ %":' || DBMS_LOB.GETLENGTH(" ++ q ++ %") AS " ++ a) (Hr : reports = true).

(** What a cell of the table holds: the value of a column that is read as it is, a text or bytes in hexadecimal with the
    length the engine answers for them, or NULL. *)
Inductive Stored : Type :=
| Whole (value : Value)
| StoredText (s : text) (length : N)
| StoredBytes (hex : text) (length : N)
| StoredNull.

(** The first [n] characters or bytes. *)
Definition prefix_of_stored (n : N) (stored : Stored) : Value :=
  match stored with
  | Whole value => value
  | StoredText s _ => String (take (N.to_nat n) s)
  | StoredBytes hex _ => String (%"0x" ++ take (N.to_nat (2 * n)) hex)
  | StoredNull => Null
  end.

(** The marker of a value; of NULL it may be anything, the engines differ. *)
Definition marker_answer (bytes : bool) (size : N) (reports : bool) (stored : Stored) (marker : Value) : Prop :=
  let head := (if bytes then %"B" else %"T") ++ %":" ++ show_N size in
  match stored with
  | Whole _ => False
  | StoredText _ n => bytes = false /\ marker = String (head ++ if reports then %":" ++ show_N n else [])
  | StoredBytes _ n => bytes = true /\ marker = String (head ++ if reports then %":" ++ show_N n else [])
  | StoredNull => True
  end.

(** A row of the SELECT: each column of the table is answered by its own expression, or by its preview and marker. *)
Inductive Answered (options : TableDataSelect.t) : list text -> list Stored -> list LargeValuePreviewItem -> list Value -> Prop :=
| answered_nil : Answered options [] [] [] []
| answered_whole column columns value stored item items values :
    projection item = quoted_preview_column options column -> Answered options columns stored items values ->
    Answered options (column :: columns) (Whole value :: stored) (item :: items) (value :: values)
| answered_preview column columns c stored p m items values bytes n size reports marker :
    Previewed (quoted_preview_column options column) (quote_table_identifier (TableDataSelect.database_type options) (alias m))
      (TableDataSelect.database_type options) (projection p) (projection m) bytes n size reports ->
    marker_answer bytes size reports c marker -> Answered options columns stored items values ->
    Answered options (column :: columns) (c :: stored) (p :: m :: items) (prefix_of_stored n c :: marker :: values).

(** *** What is shown *)

(** The characters, or bytes, that are shown of a value: the size asked for, at least one; at most 999 characters or
    1998 bytes for Oracle. *)
Definition preview_limit (options : TableDataSelect.t) (stored : Stored) : N :=
  let asked := N.max 1 (default 1%N (TableDataSelect.large_value_preview_size options)) in
  if opt_in (TableDataSelect.database_type options) [Oracle] then N.min asked (match stored with StoredBytes _ _ => 1998 | _ => 999 end) else asked.

(** The engines that tell the length: PostgreSQL for bytes only, Db2 never. *)
Definition tells_length (options : TableDataSelect.t) (bytes : bool) : bool :=
  if opt_in (TableDataSelect.database_type options) [Postgres] then bytes else opt_in (TableDataSelect.database_type options) [Mysql; Oracle].

(** The value that is shown and, if it was cut, the length that is listed. *)
Definition shown_value (options : TableDataSelect.t) (stored : Stored) : Value * option N :=
  let limit := preview_limit options stored in
  let told bytes n := if tells_length options bytes then n else (64 * 1024 * 1024)%N in
  match stored with
  | Whole value => (value, None)
  | StoredText s n => if (N.of_nat (length s) <=? limit)%N then (String s, None) else (String (take (N.to_nat limit) s ++ %"..."), Some (told false n))
  | StoredBytes hex n =>
      if (N.of_nat (length hex) <=? 2 * limit)%N then (String (%"0x" ++ hex), None)
      else (String (%"0x" ++ take (N.to_nat (2 * limit)) hex ++ %"..."), Some (told true n))
  | StoredNull => (Null, None)
  end.

Fixpoint cut_cells (options : TableDataSelect.t) (row column : nat) (stored : list Stored) : list LargeValueCell :=
  match stored with
  | [] => []
  | c :: rest =>
      match snd (shown_value options c) with Some n => [mk_cell row column n None] | None => [] end
      ++ cut_cells options row (S column) rest
  end.

Fixpoint all_cut_cells (options : TableDataSelect.t) (row column : nat) (table : list (list Value * list Stored)) : list LargeValueCell :=
  match table with
  | [] => []
  | (_, stored) :: rest => cut_cells options row column stored ++ all_cut_cells options (S row) column rest
  end.

(** Lengths are machine integers, bytes are hexadecimal digits. *)
Definition storable (stored : Stored) : Prop :=
  match stored with
  | StoredText _ n => (n <= MAX_ROW)%N
  | StoredBytes hex n => (n <= MAX_ROW)%N /\ forallb is_ascii_hexdigit hex = true
  | _ => True
  end.

(** *** The SELECT of the program *)

Lemma show_N_inj n m : show_N n = show_N m -> n = m.
Proof. intros Heq. destruct (show_N_digits n) as (_ & _ & Hn), (show_N_digits m) as (_ & _ & Hm). congruence. Qed.

Lemma previewed_longer q a db p m bytes n size reports : Previewed q a db p m bytes n size reports -> p <> q.
Proof. intros Hp Heq. apply (f_equal length) in Heq. destruct Hp; subst p; rewrite !length_app in Heq; cbn in Heq; lia. Qed.

Ltac cancel_text := repeat match goal with
  | H : ?a ++ _ = ?a ++ _ |- _ => apply app_inv_head in H
  | H : _ ++ ?b = _ ++ ?b |- _ => apply app_inv_tail in H
  | H : show_N _ = show_N _ |- _ => apply show_N_inj in H
  end.

Lemma shown_before_blank n m r r' : show_N n ++ %" THEN " ++ r = show_N m ++ %" THEN " ++ r' -> n = m.
Proof.
  intros Heq. apply show_N_inj. change (%" THEN ") with (space :: %"THEN ") in Heq.
  assert (forall k, Forall (fun c => c <> space) (show_N k)) as Hdigits.
  { intros k. destruct (show_N_digits k) as (_ & Hd & _). unfold all_digits in Hd. rewrite forallb_forall in Hd.
    apply Forall_forall. intros c Hc ->. apply list_elem_of_In, Hd in Hc. by vm_compute in Hc. }
  eapply (separator_prefix_inj space); [apply Hdigits | apply Hdigits | exact Heq].
Qed.

Lemma previewed_det q a db p m bytes n size reports bytes' n' size' reports' :
  Previewed q a db p m bytes n size reports -> Previewed q a db p m bytes' n' size' reports' ->
  bytes = bytes' /\ n = n' /\ size = size' /\ reports = reports'.
Proof.
  intros [] []; try congruence; subst; try destruct bytes; try destruct bytes'; cancel_text; try discriminate; try (by split_and!);
    by apply shown_before_blank in Hp0 as ->.
Qed.

(** The items of a column that is previewed are its preview, one character longer than the limit, and its marker. *)
Lemma preview_items_previewed options size index column data_type items kind :
  (size + 1 <= MAX_ROW)%N ->
  preview_items_of options size index column data_type = Some items -> column_mark options size column data_type = Some kind ->
  exists p m, items = [p; m]
    /\ (kind <> %"V" -> exists bytes : bool, let db := TableDataSelect.database_type options in
         let limit := if opt_in db [Oracle] then N.min size (if bytes then 1998 else 999) else size in
         Previewed (quoted_preview_column options column) (quote_table_identifier db (alias m)) db (projection p) (projection m) bytes
           (limit + 1) limit (if opt_in db [Postgres] then bytes else opt_in db [Mysql; Oracle])).
Proof.
  intros Hsize. unfold preview_items_of, column_mark. destruct (is_protected options column); [done | ].
  destruct (large_value_preview_kind _ _ _) as [k | ] eqn:Hkind; [ | done]. intros Hitems [= <-].
  destruct (preview_expression _ _ _ _) as [[preview marker] | ] eqn:Hexpr; [ | done]. cbn [mbind option_bind] in Hitems. injection Hitems as <-.
  eexists _, _. split; [done | ]. cbn [projection alias]. intros HV.
  assert (saturating_add (column_preview_size (TableDataSelect.database_type options) k size) 1
          = (column_preview_size (TableDataSelect.database_type options) k size + 1)%N) as Hsat.
  { unfold saturating_add, MAX_ROW, column_preview_size in *. destruct (opt_in _ _); lia. }
  rewrite Hsat in Hexpr. clear Hsat. exists (is_binary k). cbv zeta.
  assert (TableDataSelect.database_type options ∈ [Some Mysql; Some Postgres; Some Db2; Some Oracle]) as Hdb.
  { unfold preview_expression in Hexpr. rewrite !elem_of_cons. 
    repeat match type of Hexpr with (if ?b then _ else _) = _ =>
      let E := fresh in destruct b eqn:E; [apply opt_in_cases in E; destruct E as [E | []]; rewrite <- E; tauto | clear E] end. done. }
  rewrite !elem_of_cons, elem_of_nil in Hdb.
  destruct Hdb as [Hdb | [Hdb | [Hdb | [Hdb | []]]]]; rewrite Hdb in Hexpr |- *;
    generalize dependent (quoted_preview_column options column); intros q Hexpr;
    match goal with |- Previewed _ ?a _ _ _ _ _ _ _ => generalize a; intros alias end;
    match type of Hexpr with ?e = _ =>
      assert (preview = fst (default ([], []) e)) as Hp by (by rewrite Hexpr); assert (marker = snd (default ([], []) e)) as Hm by (by rewrite Hexpr) end;
    clear Hexpr; subst preview marker; destruct k; try (by destruct HV);
    unfold preview_expression, marker_expression; cbn [opt_in];
    repeat match goal with |- context [db_in ?d ?l] => let b := eval vm_compute in (db_in d l) in change (db_in d l) with b end;
    repeat match goal with |- context [is_binary ?k] => let b := eval vm_compute in (is_binary k) in change (is_binary k) with b end;
    cbn [andb default from_option fst snd id]; rewrite <- ?app_assoc;
    first [apply mysql_preview; reflexivity | apply postgres_text_preview; reflexivity | apply postgres_cast_preview; reflexivity
          | apply postgres_bytes_preview; reflexivity | apply db2_preview; reflexivity | apply oracle_text_preview; reflexivity
          | apply oracle_bytes_preview; reflexivity].
Qed.

(** A row of the SELECT is a row of cells. *)
Definition cell_of (options : TableDataSelect.t) (stored : Stored) (marker : Value) : Cell :=
  let limit := preview_limit options stored in
  match stored with
  | Whole value => mk_original (Plain value) limit None
  | StoredText s n => mk_original (OfText s) limit (if tells_length options false then Some n else None)
  | StoredBytes hex n => mk_original (OfBytes hex) limit (if tells_length options true then Some n else None)
  | StoredNull => mk_original (OfNull marker) limit None
  end.

Lemma cell_of_displayed options stored marker :
  displayed (cell_of options stored marker)
  = (fst (shown_value options stored), match snd (shown_value options stored) with Some _ => true | None => false end)
  /\ (forall n, snd (shown_value options stored) = Some n ->
       default SERVER_LARGE_VALUE_UNKNOWN_BYTES (reported (cell_of options stored marker)) = n).
Proof.
  destruct stored as [value | s n | hex n | ]; cbn [cell_of shown_value displayed original size reported fst snd]; [done | .. | done];
    destruct (_ <=? _)%N; cbn [fst snd]; (split; [done | ]); try done; intros ? [= <-]; by destruct (tells_length _ _).
Qed.

Lemma cut_cells_listed options row stored : forall column markers,
  length markers = length stored ->
  listed row column (zip_with (cell_of options) stored markers) = cut_cells options row column stored.
Proof.
  induction stored as [ | c stored IH]; intros column [ | marker markers] Hlen; try done. cbn [zip_with listed cut_cells].
  destruct (cell_of_displayed options c marker) as [-> Hn]. rewrite IH by (cbn in Hlen; lia). cbn [snd]. f_equal.
  destruct (snd (shown_value options c)) as [n | ]; [ | done]. by rewrite (Hn n).
Qed.

Lemma whole_items options size index column data_type items :
  preview_items_of options size index column data_type = Some items -> column_mark options size column data_type = None ->
  items = [mk_item (quoted_preview_column options column) column].
Proof.
  unfold preview_items_of, column_mark. destruct (is_protected options column); [by intros [= <-] | ].
  destruct (large_value_preview_kind _ _ _); [done | ]. by intros [= <-].
Qed.

(** The answer to a previewed column is a cell of the expected size. *)
Lemma answered_cell options asked c marker (bytes : bool) kind column :
  asked = N.max 1 (default 1%N (TableDataSelect.large_value_preview_size options)) -> (2 * asked + 2 <= MAX_ROW)%N ->
  let db := TableDataSelect.database_type options in
  let limit := if opt_in db [Oracle] then N.min asked (if bytes then 1998 else 999) else asked in
  marker_answer bytes limit (if opt_in db [Postgres] then bytes else opt_in db [Mysql; Oracle]) c marker -> storable c ->
  prefix_of_stored (limit + 1) c = preview_read (cell_of options c marker) /\ marker = marker_read (cell_of options c marker)
  /\ fits (column, Some kind) (cell_of options c marker).
Proof.
  intros Hasked Hbound db limit. unfold MAX_ROW in Hbound. assert (1 <= asked)%N as Hone by lia.
  assert (1 <= limit /\ 2 * limit + 2 <= MAX_ROW)%N as [H1 H2] by (unfold limit, MAX_ROW; destruct (opt_in db [Oracle]), bytes; lia).
  destruct c as [value | s n | hex n | ]; unfold marker_answer; [done | | | done].
  - intros [-> ->] Hn. assert (preview_limit options (StoredText s n) = limit) as Hl by (unfold preview_limit; by rewrite <- Hasked).
    unfold cell_of, tells_length. rewrite Hl. fold db. split_and!; [done | | ].
    + cbn [marker_read original]. unfold marker_text. cbn [size reported]. rewrite <- !app_assoc. by destruct (if opt_in db [Postgres] then _ else _).
    + unfold fits, sized. cbn [snd original size reported]. split_and!; [done.. | ]. by destruct (if opt_in db [Postgres] then _ else _).
  - intros [-> ->] [Hn Hhex]. assert (preview_limit options (StoredBytes hex n) = limit) as Hl by (unfold preview_limit; by rewrite <- Hasked).
    unfold cell_of, tells_length. rewrite Hl. fold db. split_and!; [done | | ].
    + cbn [marker_read original]. unfold marker_text. cbn [size reported]. rewrite <- !app_assoc. by destruct (if opt_in db [Postgres] then _ else _).
    + unfold fits, sized. cbn [snd original size reported]. split_and!; [done.. | | done]. by destruct (if opt_in db [Postgres] then _ else _).
Qed.

Lemma answered_row options asked columns : forall start items stored values,
  asked = N.max 1 (default 1%N (TableDataSelect.large_value_preview_size options)) -> (2 * asked + 2 <= MAX_ROW)%N ->
  mapM (fun '(index, (column, data_type)) => preview_items_of options asked index column data_type)
    (imap (fun i column => (start + i, column)) columns) = Some items ->
  Answered options (map fst columns) stored (concat items) values -> Forall storable stored ->
  Forall (fun '(column, data_type) => column_mark options asked column data_type <> Some %"V") columns ->
  let parts := map (fun '(column, data_type) => (column, column_mark options asked column data_type)) columns in
  exists markers, length markers = length stored
    /\ values = interleave parts (map preview_read (zip_with (cell_of options) stored markers)) (map marker_read (zip_with (cell_of options) stored markers))
    /\ Forall2 fits parts (zip_with (cell_of options) stored markers).
Proof.
  induction columns as [ | [column data_type] columns IH]; intros start items stored values Hasked Hbound.
  { intros [= <-] Ha _ _. inversion Ha; subst. by exists []. }
  rewrite imap_cons. cbn [mapM]. rewrite Nat.add_0_r. intros Hitems.
  destruct (preview_items_of options asked start column data_type) as [first | ] eqn:Hfirst; [ | done]. cbn [mbind option_bind] in Hitems.
  replace (imap ((fun (i : nat) (c : text * text) => (start + i, c)) ∘ S) columns) with (imap (fun i c => (S start + i, c)) columns) in Hitems
    by (apply imap_ext; intros i c _; cbn; by rewrite Nat.add_succ_r).
  destruct (mapM _ (imap (fun i c => (S start + i, c)) columns)) as [rest | ] eqn:Hrest; [ | done]. injection Hitems as <-.
  cbn [map fst concat]. intros Ha Hstorable [HV Hrows]%Forall_cons. destruct (column_mark options asked column data_type) as [kind | ] eqn:Hmark.
  - assert (asked + 1 <= MAX_ROW)%N as Hsize by lia.
    destruct (preview_items_previewed _ _ _ _ _ _ _ Hsize Hfirst Hmark) as (p & m & -> & Hp). destruct Hp as (bytes & Hp); [congruence | ].
    cbv zeta in Hp. cbn [app] in Ha. inversion Ha as [ | ? ? ? ? ? ? ? Hq | ? ? c stored' ? ? ? values' ? ? ? ? marker Hp' Hm Ha']; subst; [by apply previewed_longer in Hp | ].
    destruct (previewed_det _ _ _ _ _ _ _ _ _ _ _ _ _ Hp' Hp) as (-> & -> & -> & ->). apply Forall_cons in Hstorable as [Hc Hstorable].
    destruct (answered_cell options _ c marker bytes kind column eq_refl Hbound Hm Hc) as (Hpre & Hmarker & Hfit).
    destruct (IH _ _ _ _ eq_refl Hbound Hrest Ha' Hstorable Hrows) as (markers & Hlen & -> & Hfits).
    exists (marker :: markers). cbn [zip_with map interleave length]. split_and!; [by rewrite Hlen | | by constructor].
    cbn [app]. by rewrite <- Hpre, <- Hmarker.
  - rewrite (whole_items _ _ _ _ _ _ Hfirst Hmark) in Ha. cbn [app] in Ha.
    inversion Ha as [ | ? ? value stored' ? ? values' Hq Ha' | ? ? ? ? ? ? ? ? ? ? ? ? ? Hp]; subst; [ | by apply previewed_longer in Hp].
    apply Forall_cons in Hstorable as [Hc Hstorable].
    destruct (IH _ _ _ _ eq_refl Hbound Hrest Ha' Hstorable Hrows) as (markers & Hlen & -> & Hfits).
    exists (Null :: markers). cbn [zip_with map interleave length]. split_and!; [by rewrite Hlen | done | by constructor].
Qed.


Lemma preview_items_by_column options items :
  build_large_value_preview_items options = Some items ->
  let asked := N.max 1 (default 1%N (TableDataSelect.large_value_preview_size options)) in
  exists parts,
    mapM (fun '(index, (column, data_type)) => preview_items_of options asked index column data_type)
      (imap (fun i column => (0 + i, column)) (zip (TableDataSelect.columns options) (TableDataSelect.column_types options))) = Some parts
    /\ items = concat parts /\ map fst (zip (TableDataSelect.columns options) (TableDataSelect.column_types options)) = TableDataSelect.columns options.
Proof.
  unfold build_large_value_preview_items. destruct (TableDataSelect.large_value_preview_size options) as [size | ]; [ | done].
  cbn [mbind option_bind default from_option]. unfold id. destruct (_ || existsb _ (TableDataSelect.columns options)) eqn:Hguards; [done | ].
  apply orb_false_iff in Hguards as [[[_ Hlen]%orb_false_iff _]%orb_false_iff _]. apply negb_false_iff, Nat.eqb_eq in Hlen.
  destruct (mapM _ _) as [parts | ] eqn:Hparts; [ | done]. cbn [mbind option_bind]. destruct (existsb _ parts); [ | done]. intros [= <-].
  exists parts. split_and!; [done | done | ]. apply fst_zip. lia.
Qed.

(** The rows of the SELECT, as rows of cells. *)
Lemma answered_table options items rows table :
  build_large_value_preview_items options = Some items ->
  (2 * N.max 1 (default 1 (TableDataSelect.large_value_preview_size options)) + 2 <= MAX_ROW)%N ->
  Forall (fun part => snd part <> Some %"V") (preview_parts options) ->
  Forall2 (fun row '(before, stored) => length before = row_id_shift options /\ Forall storable stored
      /\ exists values, row = before ++ values /\ Answered options (TableDataSelect.columns options) stored items values) rows table ->
  exists cells,
    rows = map (row_read (preview_parts options)) cells
    /\ Forall (fun '(before, row) => length before = row_id_shift options /\ Forall2 fits (preview_parts options) row) cells
    /\ map (fun '(before, row) => before ++ map (fun c => fst (displayed c)) row) cells
       = map (fun '(before, stored) => before ++ map (fun c => fst (shown_value options c)) stored) table
    /\ forall row, all_listed row (row_id_shift options) cells = all_cut_cells options row (row_id_shift options) table.
Proof.
  intros Hitems Hbound HV. destruct (preview_items_by_column options items Hitems) as (parts & Hparts & -> & Hfst).
  set (asked := N.max 1 _) in *. unfold preview_parts in *. fold asked in HV |- *. rewrite Forall_map in HV.
  induction 1 as [ | row [before stored] rows table (Hbefore & Hst & values & -> & Ha) _ (cells & -> & Hfits & Hshown & Hlisted)].
  { exists []. split_and!; [done | constructor | done..]. }
  rewrite <- Hfst in Ha.
  destruct (answered_row options asked _ 0 parts stored values eq_refl Hbound Hparts Ha Hst) as (markers & Hlen & -> & Hfit).
  { eapply Forall_impl; [exact HV | ]. by intros []. }
  exists ((before, zip_with (cell_of options) stored markers) :: cells). cbn [map all_listed all_cut_cells]. split_and!; [done | by constructor | | ].
  - rewrite Hshown. f_equal. f_equal. clear -Hlen. revert markers Hlen.
    induction stored as [ | c stored IH]; intros [ | marker markers] Hlen; try done. cbn [zip_with map].
    destruct (cell_of_displayed options c marker) as [-> _]. cbn [fst]. f_equal. apply IH. cbn in Hlen. lia.
  - intros row. by rewrite Hlisted, cut_cells_listed.
Qed.

(** C21: previews round trip from the SELECT to the grid.  Let a table be read with previews on MySQL, PostgreSQL, Db2 or
    Oracle, and let every expression of the SELECT answer what the engine answers for it ([Previewed], [Answered]): a
    preview the prefix of the length written in it, a marker its kind, the size written in it and, where the expression
    asks for it, the length of the value.  The extraction gives back the columns of the table, after the row identifier
    if there is one, and shows every cell: a text or binary value up to the preview size asked for (for Oracle at most 999
    characters or 1998 bytes) in full, a longer one cut to that size and listed under its own row and column with the
    length the engine told, or 64 MiB where it tells none; nothing else is listed.  Vector columns of PostgreSQL, which are
    cut at a component, are outside the claim. *)
Theorem previews_are_shown options items (result : QueryResult.t) table
    (Hitems : build_large_value_preview_items options = Some items)
    (Hcount : (N.of_nat (S (length (TableDataSelect.columns options))) <= MAX_ROW)%N)
    (Hsize : (2 * N.max 1 (default 1 (TableDataSelect.large_value_preview_size options)) + 2 <= MAX_ROW)%N)
    (Hvector : Forall (fun part => snd part <> Some %"V") (preview_parts options))
    (Hcolumns : QueryResult.columns result = row_id_columns options ++ map alias items)
    (Hrows : Forall2 (fun row '(before, stored) => length before = row_id_shift options /\ Forall storable stored
        /\ exists values, row = before ++ values /\ Answered options (TableDataSelect.columns options) stored items values)
      (QueryResult.rows result) table) :
  exists shown,
    extract_server_large_value_markers result = Returns (shown, all_cut_cells options 0 (row_id_shift options) table)
    /\ QueryResult.columns shown = row_id_columns options ++ TableDataSelect.columns options
    /\ QueryResult.rows shown = map (fun '(before, stored) => before ++ map (fun c => fst (shown_value options c)) stored) table.
Proof.
  destruct (answered_table options items _ table Hitems Hsize Hvector Hrows) as (cells & Hread & Hfits & Hshown & Hlisted).
  rewrite <- Hshown, <- Hlisted. by apply (read_rows_are_shown options items).
Qed.

End Shown.

(** ** Cells of the driver keep their column *)

Lemma retained_lookup {A} (keep : nat -> bool) (l : list A) : forall base i,
  keep (base + i) = true -> retain_from keep base l !! length (List.filter keep (seq base i)) = l !! i.
Proof.
  induction l as [ | x l IH]; intros base i Hkeep; [done | ]. cbn [retain_from]. destruct i as [ | i].
  - rewrite Nat.add_0_r in Hkeep. by rewrite Hkeep.
  - cbn [seq List.filter]. rewrite Nat.add_succ_r in Hkeep. specialize (IH (S base) i Hkeep). by destruct (keep base).
Qed.

Lemma filter_complement {A} (p : A -> bool) l : length (List.filter p l) + length (List.filter (fun x => negb (p x)) l) = length l.
Proof. induction l as [ | x l IH]; [done | ]. cbn [List.filter length]. destruct (p x); cbn [negb length]; lia. Qed.

Lemma removed_below removed i :
  NoDup removed -> length (List.filter (is_removed removed) (seq 0 i)) = length (List.filter (fun r => Nat.ltb r i) removed).
Proof.
  intros Hnodup. apply Permutation_length, NoDup_Permutation.
  - apply NoDup_ListNoDup, List.NoDup_filter, seq_NoDup.
  - by apply NoDup_ListNoDup, List.NoDup_filter, NoDup_ListNoDup.
  - intros r. rewrite !list_elem_of_In, !filter_In, in_seq, <- !list_elem_of_In, is_removed_spec, Nat.ltb_lt.
    split; (intros [Hx Hy]; split; [done || lia | done || lia]).
Qed.

(** Without the removed positions, an element that stays is at its retained index. *)
Lemma retained_index_lookup {A} removed (l : list A) i :
  NoDup removed -> is_removed removed i = false -> without removed l !! retained_index removed i = l !! i.
Proof.
  intros Hnodup Hi. unfold without, retained_index. rewrite <- removed_below by done.
  pose proof (filter_complement (is_removed removed) (seq 0 i)) as Hsum. rewrite length_seq in Hsum.
  rewrite <- (retained_lookup (fun index => negb (is_removed removed index)) l 0 i); [f_equal; lia | ]. cbn [plus]. by rewrite Hi.
Qed.

Lemma markers_ascend columns : forall index found, Forall (fun m => index <= result_index m) (markers_from index found columns)
  /\ NoDup (result_indexes (markers_from index found columns)).
Proof.
  induction columns as [ | column columns IH]; intros index found; [by repeat constructor | ]. cbn [markers_from].
  assert (forall f, Forall (fun m => index <= result_index m) (markers_from (S index) f columns)) as Hle.
  { intros f. eapply Forall_impl; [apply (IH (S index) f) | cbn; lia]. }
  destruct (_ ≫= _) as [[[source kind] type] | ]; [destruct (_ && _) | ]; try (split; [apply Hle | apply IH]).
  split; [constructor; [cbn; lia | apply Hle] | ]. cbn [result_indexes map result_index]. constructor; [ | apply IH].
  intros Hin. apply list_elem_of_fmap in Hin as (m & Hm & Hin).
  pose proof (proj1 (Forall_forall _ _) (proj1 (IH (S index) (S found))) m Hin) as Hlt. cbn in Hlt. lia.
Qed.

(** A cell that the driver listed names the same column after the markers were taken out; only the cells of marker columns
    are dropped. *)
Theorem remapped_cells_keep_their_column `{JsonCodec} (result shown : QueryResult.t) cells listed c :
  extract_server_large_value_markers result = Returns (shown, listed) ->
  c ∈ cells -> is_removed (result_indexes (server_large_value_markers result)) (column_index c) = false ->
  exists c', c' ∈ remap_large_value_cells_around_server_markers result cells
    /\ row_index c' = row_index c /\ original_bytes c' = original_bytes c /\ value_ref c' = value_ref c
    /\ QueryResult.columns shown !! column_index c' = QueryResult.columns result !! column_index c.
Proof.
  intros Hext Hc Hkept. unfold extract_server_large_value_markers in Hext. unfold remap_large_value_cells_around_server_markers.
  set (markers := server_large_value_markers result) in *. destruct markers as [ | m ms] eqn:Hm.
  { cbn [is_empty] in Hext. injection Hext as <- _. by exists c. }
  cbn [is_empty] in Hext. destruct (extract_rows _ _ _) as [[rows found] | | ]; [ | done | done]. cbn [outcome_bind] in Hext.
  injection Hext as <- _. cbn [result_indexes map is_empty]. fold (result_indexes (m :: ms)).
  exists (mk_cell (row_index c) (retained_index (result_indexes (m :: ms)) (column_index c)) (original_bytes c) (value_ref c)).
  split_and!; try done.
  - apply list_elem_of_omap. exists c. split; [done | ]. cbn [result_indexes map] in Hkept |- *. by rewrite Hkept.
  - cbn [QueryResult.columns column_index]. apply retained_index_lookup; [ | done].
    change (NoDup (result_indexes (m :: ms))). rewrite <- Hm. apply markers_ascend.
Qed.

(** ** Examples *)

#[local] Existing Instance integer_numbers.
#[local] Existing Instance plain_json.

Definition int_value (n : Z) : Value := @Number integer_numbers n.

Definition result_of (columns column_types : list text) (rows : list (list Value)) : QueryResult.t :=
  QueryResult.mk _ [] columns column_types (map (fun _ => true) columns) [] [] rows.

Definition payload_columns : list text := [%"id"; %"payload"; marker_name %"T" 1; %"note"].

(** [extracts_server_large_value_markers_and_restores_source_columns]. *)
Example markers_are_extracted :
  extract_server_large_value_markers
    (result_of payload_columns [%"integer"; %"text"; %"bigint"; %"text"]
       [[int_value 1; String %"preview"; String %"T:4"; String %"a"]; [int_value 2; String %"abc"; String %"T:4"; String %"b"]])
  = Returns (result_of [%"id"; %"payload"; %"note"] [%"integer"; %"text"; %"text"]
       [[int_value 1; String %"prev..."; String %"a"]; [int_value 2; String %"abc"; String %"b"]],
     [mk_cell 0 1 SERVER_LARGE_VALUE_UNKNOWN_BYTES None]).
Proof. reflexivity. Qed.

(** [large_value_cell_merge_replaces_driver_entries_and_appends_server_entries]. *)
Example merged_cells :
  merge_large_value_cells [mk_cell 1 2 10 None; mk_cell 3 4 20 None] [mk_cell 1 2 100 None; mk_cell 5 6 200 None]
  = [mk_cell 1 2 100 None; mk_cell 3 4 20 None; mk_cell 5 6 200 None].
Proof. by vm_compute. Qed.

(** A marker that does not name the column before it is an ordinary column. *)
Example foreign_marker_is_kept :
  server_large_value_markers (result_of [%"id"; %"payload"; marker_name %"T" 2] [] []) = [].
Proof. by vm_compute. Qed.

(** A cell that the driver deferred and the server cut: a statement of a script reports what the server says, a single
    statement what the driver says. *)
Example both_report_a_cell :
  let result := QueryResult.mk _ [mk_cell 0 1 10 (Some %"ref")] payload_columns [] [] [] [] [[int_value 1; String %"preview"; String %"T:4:7"; Null]] in
  match success_with_index_and_large_values result [] true, success_with_optional_server_large_values result true with
  | Returns (_, scripted), Returns (_, single) => scripted = [mk_cell 0 1 7 None] /\ single = [mk_cell 0 1 10 (Some %"ref")]
  | _, _ => False
  end.
Proof. by vm_compute. Qed.

Definition posts : TableDataSelect.t :=
  reading Mysql None %"posts" [%"ID"; %"BODY"; %"COVER"] [%"int"; %"longtext"; %"longblob"] (Some 4%N) None None.

Definition post (id : Z) (body cover : Stored) : list Value * list Stored := ([], [Whole (int_value id); body; cover]).

Definition post_rows : list (list Value * list Stored) :=
  [post 1 (StoredText %"long text" 9) (StoredBytes %"cafe" 2); post 2 (StoredText %"tiny" 4) StoredNull].

Definition posts_result : QueryResult.t :=
  result_of (row_id_columns posts ++ map alias (default [] (build_large_value_preview_items posts))) []
    [[int_value 1; String %"long "; String %"T:4:9"; String %"0xcafe"; String %"B:4:2"];
     [int_value 2; String %"tiny"; String %"T:4:4"; Null; Null]].

Example posts_select :
  build_large_value_preview_columns posts
  = Some (%"`ID`, LEFT(`BODY`, 5) AS `BODY`, CONCAT('T:4:', LENGTH(`BODY`)) AS `__DBX_LARGE_VALUE_BYTES_T_1`, "
          ++ %"LEFT(`COVER`, 5) AS `COVER`, CONCAT('B:4:', LENGTH(`COVER`)) AS `__DBX_LARGE_VALUE_BYTES_B_2`").
Proof. by vm_compute. Qed.

Lemma previews_are_shown_witness :
  exists shown, extract_server_large_value_markers posts_result = Returns (shown, [mk_cell 0 1 9 None])
    /\ QueryResult.columns shown = [%"ID"; %"BODY"; %"COVER"]
    /\ QueryResult.rows shown = [[int_value 1; String %"long..."; String %"0xcafe"]; [int_value 2; String %"tiny"; Null]].
Proof.
  destruct (build_large_value_preview_items posts) as [items | ] eqn:E; [ | by vm_compute in E].
  assert (items = default [] (build_large_value_preview_items posts)) as Hitems by by rewrite E.
  destruct (previews_are_shown posts items posts_result post_rows E) as (shown & H1 & H2 & H3).
  - by vm_compute.
  - by vm_compute.
  - assert (preview_parts posts = [(%"ID", None); (%"BODY", Some %"T"); (%"COVER", Some %"B")]) as -> by by vm_compute.
    by repeat constructor.
  - by rewrite Hitems.
  - assert (items = [mk_item %"`ID`" %"ID"; mk_item %"LEFT(`BODY`, 5) AS `BODY`" %"BODY";
      mk_item %"CONCAT('T:4:', LENGTH(`BODY`)) AS `__DBX_LARGE_VALUE_BYTES_T_1`" %"__DBX_LARGE_VALUE_BYTES_T_1";
      mk_item %"LEFT(`COVER`, 5) AS `COVER`" %"COVER";
      mk_item %"CONCAT('B:4:', LENGTH(`COVER`)) AS `__DBX_LARGE_VALUE_BYTES_B_2`" %"__DBX_LARGE_VALUE_BYTES_B_2"]) as -> by (rewrite Hitems; by vm_compute).
    assert (forall id body cover marker1 marker2 values,
      storable body -> storable cover -> marker_answer false 4 true body marker1 -> marker_answer true 4 true cover marker2 ->
      values = [int_value id; prefix_of_stored 5 body; marker1; prefix_of_stored 5 cover; marker2] ->
      let '(before, stored) := post id body cover in length before = 0 /\ Forall storable stored
        /\ exists values', values = before ++ values' /\ Answered posts (TableDataSelect.columns posts) stored
             [mk_item %"`ID`" %"ID"; mk_item %"LEFT(`BODY`, 5) AS `BODY`" %"BODY";
              mk_item %"CONCAT('T:4:', LENGTH(`BODY`)) AS `__DBX_LARGE_VALUE_BYTES_T_1`" %"__DBX_LARGE_VALUE_BYTES_T_1";
              mk_item %"LEFT(`COVER`, 5) AS `COVER`" %"COVER";
              mk_item %"CONCAT('B:4:', LENGTH(`COVER`)) AS `__DBX_LARGE_VALUE_BYTES_B_2`" %"__DBX_LARGE_VALUE_BYTES_B_2"] values') as Hpost.
    { intros id body cover marker1 marker2 values Hbody Hcover Hm1 Hm2 ->. cbn. split; [done | ]. split.
      - by apply Forall_cons_2; [ | apply Forall_cons_2; [ | apply Forall_cons_2]].
      - eexists. split; [reflexivity | ]. apply answered_whole; [reflexivity | ].
        apply (answered_preview posts _ _ _ _ _ _ _ _ false 5 4 true); [by apply mysql_preview | done | ].
        apply (answered_preview posts _ _ _ _ _ _ _ _ true 5 4 true); [by apply mysql_preview | done | ]. constructor. }
    apply Forall2_cons_2; [ | apply Forall2_cons_2; [ | constructor]].
    + by apply (Hpost 1%Z (StoredText %"long text" 9) (StoredBytes %"cafe" 2) (String %"T:4:9") (String %"B:4:2")).
    + by apply (Hpost 2%Z (StoredText %"tiny" 4) StoredNull (String %"T:4:4") Null).
  - exists shown. split_and!; [by rewrite H1 | by rewrite H2 | by rewrite H3].
Defined.

Definition posts_shown : QueryResult.t * list LargeValueCell :=
  match extract_server_large_value_markers posts_result with Returns shown => shown | _ => (posts_result, []) end.

Lemma remapped_cells_keep_their_column_witness :
  exists c', c' ∈ remap_large_value_cells_around_server_markers posts_result [mk_cell 1 3 50 (Some %"ref")] /\ column_index c' = 2.
Proof.
  destruct (remapped_cells_keep_their_column posts_result (fst posts_shown) [mk_cell 1 3 50 (Some %"ref")] (snd posts_shown)
              (mk_cell 1 3 50 (Some %"ref"))) as (c' & Hin & _).
  - reflexivity.
  - apply list_elem_of_here.
  - reflexivity.
  - exists c'. split; [done | ]. by apply list_elem_of_singleton in Hin as ->.
Defined.
